(* ===== verification/_CoqProject ===== *)
-Q . S2P
Prelude.v
SqlText.v
QueryState.v
Dialects.v
Examples.v
ValueExpr.v
QueryScope.v
CteGraph.v
RowShape.v
ValueDecode.v
Materialize.v
QueryBuilder.v
QueryCompile.v
QueryPlan.v
CompileFacts.v
CompileProps.v
PoolGate.v
SqlitePool.v
Effects.v
SqliteAdapter.v
SqliteRetry.v
Transaction.v
TransactionSpec.v
TransactionFacts.v
TransactionProps.v
Calendar.v
Temporal.v
Decimals.v
ColumnCodec.v
Sha256.v
Migrations.v
Utf8.v
SqlTokens.v
MariadbTokens.v
CatalogRows.v
SqliteMigrations.v
MariadbMigrations.v
MariadbMigrationFacts.v
MariadbMigrationProps.v
MariadbMigrationRuns.v
CheckExpr.v
CheckCatalog.v
CheckRender.v
CheckReading.v
CheckParsing.v
SchemaShape.v
SchemaShapeFacts.v
TableModel.v
SchemaPlan.v
SchemaCompile.v
SchemaStartup.v
SchemaRows.v
SchemaGroups.v
QuietRuns.v
DefaultReading.v
SqliteSchema.v
SqliteInspect.v
SqliteVerification.v
SqliteReading.v
SqliteTables.v
SqliteCatalog.v
SqliteScaffold.v
CheckBinding.v
ModelDeclare.v
ColumnStorage.v
ModelFacts.v
ModelSchema.v
Settings.v
MariadbPool.v
MariadbPoolFacts.v
MariadbPoolProps.v
MariadbSchema.v
MariadbInspect.v
MariadbCatalog.v
MariadbReading.v
MariadbTables.v
MariadbScaffold.v
MariadbVerified.v
MariadbDeclared.v
