(* ===== verification/Prelude.v ===== *)
(** * snekql: a verification development

    snekql is an asynchronous, typed query builder and database runtime for
    SQLite and MariaDB, written in Python under [src/snekql/].  An application
    declares table models, builds queries from their columns, and runs them
    through connections leased from a pool; a migration runner brings the
    schema up to the declaration.  This library models the parts that decide
    which SQL is sent, which connection sends it, in which transaction, and
    what is read back from it, and proves what makes them correct.

    ** Parts of the program and how they interact

    - A _builder_ ([query.py]) turns calls into an immutable _query state_
      ([_query_state.py]) that holds columns, predicates ([expressions.py]) and
      value expressions ([_value_expression.py], [_case.py], [_literal.py]),
      checking each operand against the query's _scope_ ([_query_scope.py]).
    - The _compiler_ ([_query_compile.py]) renders a state, for the _dialect_ of
      its backend ([sqlite/_dialect_sql.py], [mariadb/_dialect_sql.py]), as SQL
      text with bound parameters.  It asks the _CTE graph_ ([_cte_graph.py]) for
      the WITH definitions and the _row shapes_ ([_materialization_shape.py])
      for the columns of whole-row reads, which later split a fetched row.
    - A _plan_ ([_query_plan.py], [_materialization.py], [_value_decode.py])
      joins a compiled statement with the decoders of its columns and with the
      number of rows the read asked for, and builds models from fetched rows.
    - A class body becomes a _model_ ([model.py]): its columns come from the
      constructors of [storage.py] and [mariadb/storage.py], its indexes, foreign
      keys and CHECKs are bound to them ([indexes.py], [constraints.py],
      [_checks.py]).
    - A model column has a _codec_ ([storage.py], [sqlite/storage.py],
      [mariadb/storage.py]) between the values of its Python type and the
      values of the driver; dates and times use [_temporal.py].
    - A _transaction_ ([runtime.py]) runs plans on a leased connection through
      the driver _adapter_ ([sqlite/_adapter.py]), which retries a locked
      database within a timeout ([sqlite/_lock_retry.py]).
    - A _pool_ ([sqlite/pool.py], [mariadb/runtime.py]) leases connections behind
      a first-in first-out _admission gate_ ([_pool_gate.py]), with the session
      settings each backend requires ([_settings.py], [sqlite/settings.py],
      [mariadb/settings.py]).
    - The _migration runners_ ([_migrations.py], [sqlite/migrations.py],
      [mariadb/migrations.py]) compare the recorded history with the declaration
      and apply what is pending: SQLite's under the writer lock, MariaDB's under
      a named advisory lock.
    - _Schema verification_ plans the declared models ([_schema_plan.py]),
      compiles the plan to DDL and to the shapes it expects of the live tables
      ([_schema_compile.py], [sqlite/_schema_ddl.py]), reads the live shapes from
      the catalog ([sqlite/schema.py], [mariadb/schema.py], [_check_catalog.py]) and compares both
      ([_schema_shape.py]); the scaffold prints the same DDL ([_scaffold.py]).

    ** Files

    - [Prelude]: errors and the [res] monad of code that may raise, its
      inversion lemmas and tactics ([bind_inv], [res_inv], [checks]), Python
      values and strings, counting over finite maps.
    - [SqlText], [Dialects]: identifier quoting, the drivers' notion of a
      placeholder (class [PlaceholderSyntax]), both dialects, and the interface
      [LawfulDialect] against which the compiler is proved.
    - [QueryState]: the data of states, nodes, sources and definitions, with the
      ownership accessors and one induction principle for the whole syntax.
    - [Examples]: a small world of tables and CTEs for concrete instances.
    - [ValueExpr]: construction of value expressions, with a three-valued
      semantics of the SQL they denote.
    - [QueryScope]: [ScopeResolver], the clause policies, the free reads of a
      nested select, grouping coverage.
    - [CteGraph]: [collect_cte_definitions].
    - [RowShape]: [SourceRowShape] and [JoinedRowShape].
    - [QueryBuilder]: [select], [insert], [insert_many], [update], [delete] and
      the calls on them.
    - [QueryCompile], [CompileFacts], [CompileProps]: the compiler, the
      placeholder accounting of every clause, and its properties.
    - [ValueDecode], [Materialize], [QueryPlan]: the decoder of each output,
      models and rows from fetched values, and the plans of reads and writes.
    - [Calendar], [Temporal], [Decimals], [ColumnCodec]: Python's proleptic
      calendar, the temporal values and their wire texts, decimals and
      durations, and the codecs of columns.
    - [Effects]: programs over a driver whose answers are a script, with a
      trace of what was sent.  [SqliteAdapter], [SqliteRetry]: the adapter and
      the lock retry as such programs.
    - [Transaction], [TransactionSpec], [TransactionFacts],
      [TransactionProps]: the transaction's operations, the state machine it
      promises to its user, and the refinement between them.
    - [PoolGate], [SqlitePool]: the gate and the pool as step relations over
      any number of concurrent tasks.
    - [Sha256], [Migrations]: migration declarations and history comparison.
    - [SqlTokens]: tokenizing, splitting and screening migration bodies, against
      an independent reading of SQLite's tokens.
    - [SqliteMigrations]: the transactional runner and any number of
      concurrent, failing migrators.
    - [Utf8], [MariadbTokens], [CatalogRows]: decoding of texts, the lexical
      screen of MariaDB bodies against MariaDB's own lexical elements, the values
      of catalog rows.  [MariadbMigrations], [MariadbMigrationFacts],
      [MariadbMigrationProps], [MariadbMigrationRuns]: the runner as a program
      over one connection whose answers are a script.
    - [CheckExpr], [CheckRender], [CheckCatalog], [CheckReading],
      [CheckParsing]: CHECK expressions with their three-valued meaning, their
      normalization, their text, and the parser of catalog texts.
    - [SchemaShape], [SchemaShapeFacts]: table shapes, their comparison and the
      issues found.
    - [TableModel], [SchemaPlan], [SchemaCompile], [SchemaStartup]: the models
      schema code reads, the plan, what the backends share of DDL and shapes,
      and the startup flow with its policies.
    - [SqliteSchema], [SqliteInspect], [SqliteVerification]: SQLite's DDL and
      inspection, and what verification does to its connection for every script.
    - [SchemaRows], [SchemaGroups], [DefaultReading], [QuietRuns]: what both
      backends share in reading a catalog (rows, foreign keys by constraint,
      defaults), and the interface [quiet_backend] against which the verification
      of a scaffolded database is proved once.
    - [SqliteReading], [SqliteTables], [SqliteCatalog], [SqliteScaffold]: what is
      read off the text of a scaffolded table, and that a scaffolded database
      verifies without drift.
    - [CheckBinding], [ModelDeclare], [ColumnStorage], [ModelFacts],
      [ModelSchema]: predicates and literal defaults bound to columns, the
      declaration of a class, the column constructors, what a declared module
      promises, and its way to a verified SQLite database.
    - [Settings], [MariadbPool], [MariadbPoolFacts], [MariadbPoolProps]: session
      settings with their check, and MariaDB's pool as a program over a scripted
      driver.
    - [MariadbSchema], [MariadbInspect], [MariadbCatalog], [MariadbReading],
      [MariadbTables], [MariadbScaffold], [MariadbVerified], [MariadbDeclared]:
      MariaDB's DDL, expected shapes and inspection, what INFORMATION_SCHEMA
      reports about a scaffolded table, how it is read back, and the way from class
      bodies to a verified MariaDB database.

    ** How the model corresponds to the code

    A function of the source is a definition of the same name without its
    leading underscore; a method takes the state it reads as an argument and
    returns the new one.  An exception is a [Raise] with the class the source
    raises; a message keeps its fixed text, and the parts an f-string inserts
    are left out.  Classes used as sources and CTE definitions have identity:
    they are positives resolved in an [env], so [is] and set membership are
    equality.  Immutable dataclasses are records and inductive types.  Code
    between two [await]s under the gate's condition is one atomic turn, an
    iteration of the migration runner, which holds the writer lock from
    [BEGIN IMMEDIATE] to [COMMIT], is one step (MariaDB's runner is a program,
    command by command), and so is the body of an
    operation of a transaction, which runs under the transaction's lock or
    while its [entering] flag keeps the others out.  The driver's answers to
    what is sent, failures and cancellations included, are arbitrary scripts.

    Code outside the repository is a parameter: pydantic's adapters and model
    validation, the time zone database, [datetime.fromisoformat] beyond the
    texts the program writes itself, [json] beyond the same, [str.casefold] ([env_casefold]), Unicode character
    classes and SQLite's [complete_statement] (class [unicode]), [repr] of a
    float, and the engine that runs a migration statement ([run_statement],
    with the contract [keeps_transaction]: a screened statement does not end
    the surrounding transaction).  MariaDB's statements, and what
    INFORMATION_SCHEMA reports after DDL on the history table, are parameters
    of its runner; the rows of SQLite's catalog are a parameter of the
    inspection, and [created] states the documented PRAGMA and [sqlite_master]
    rows of a table created from the scaffold's text.  [mariadb_created] does the
    same for INFORMATION_SCHEMA, as a relation: the server may spell rules and
    keys in more than one way and list rows in any order.  What the MySQL driver's
    pool does with a returned connection ([driver_keeps]), [str.lower]
    (class [lowercase]) and the resolution of annotations are parameters too.

    ** What the theorems show

    - Value expressions: the nullability flag is sound but for arithmetic that
      gives NULL on values (a NaN in SQLite, [vanishing_arithmetic]), exact under an
      absent outer-joined row without CASE, and built expressions are well typed
      with no conversion but that of an integer literal in real arithmetic.
    - Scope: accepted operands read only visible sources, visible names are
      unambiguous, grouped selects expose only grouped columns, the free reads
      of a nested select are computed exactly.
    - CTE graph: each reachable definition once, dependencies first, names
      unique, a recursive definition's seed read by its own member only, and
      collection always ends.
    - Row shapes: joined rows split back exactly, the presence marker is fresh,
      and an outer-joined source is absent exactly when the join found no row.
    - Builders: every sequence of calls yields a state whose clauses are in
      scope and whose fields match the class of the query; writes never combine
      [all()] and [where()], and touch only their own model.
    - Compiler: as many placeholders as parameters, whatever the identifiers;
      quoted identifiers read back exactly; locking and unscoped writes are
      refused where the source says; INSERT parameters are in column order; an
      accepted UPDATE does not depend on the backend's assignment order unless
      one assignment object is repeated ([repeated_assignment_order_differs]).
    - Plans: each output is decoded by its own column's codec, reads of
      at most one row look at no more rows than decide the answer, an
      outer-joined model is absent exactly when its presence column is NULL.
    - Codecs: what is written is within the codec's bounds; the package's own
      representations (booleans, DECIMAL, native dates and datetimes, texts of
      instants) read back as the value, and any other column as what pydantic
      makes of its own output, whose round trip is not assumed; what does not fit is
      refused with the errors the package documents; UTC texts sort as the
      instants they denote.
    - Transactions: they refine the abstract machine of open, finished and
      broken transactions, commit at most once, send nothing after they ended,
      and give back or discard their connection exactly once; a lock retry
      ends within its timeout.
    - Gate and pool: slots are accounted for, waiters are served in order and
      never left asleep next to a free slot, no connection is lost, leased
      twice or above the bound, and a closed pool has closed them all.
    - Migrations: declarations and histories are accepted exactly when they
      should be; the statements run are the body's own, and as SQLite and MariaDB
      read them none controls the transaction, within the limits that the findings of
      [byte_order_mark_hides], [cut_short_accepted] and [wide_space_hides] draw; with
      concurrent and
      failing migrators each committed body ran exactly once, in order; the
      runner ends and a second call applies nothing.  On MariaDB, for every
      script: bodies run only under the advisory lock, which is always given
      back, one by one and recorded right after; a transactional body is
      recorded exactly if it took effect, a body with DDL has the documented
      window between its implicit commit and its record.
    - CHECK expressions: normalization ends, is idempotent and keeps the
      meaning of comparisons of columns with literals (inside a comparison a double
      negation is lost); the parser reads back
      what the renderer wrote.
    - Schema: a plan is made exactly for models that fit together; two shapes
      compare without issue exactly when they agree; verification on SQLite only
      reads, between a BEGIN and its rollback, and returns its connection exactly once, and on MariaDB
      it sends nothing but SELECTs and releases its connection last; the tables
      that the scaffold of declared models creates verify without drift on both
      backends.
    - Declarations: however many classes refer to each other in whatever order,
      the models left behind have sound indexes, foreign keys and CHECKs; columns
      have one of the storages of their backend.
    - MariaDB's pool: an acquisition ends, and leases one open, configured
      connection under one slot (pinged, if the pool checks on checkout) or leaves
      nothing taken.

    ** Bounds and fuel

    [collect_cte_definitions] recurses with fuel two more than the number of
    definitions, since each visit is to a new definition or refused; source identities with the creation
    number of the class plus one, since a definition only names older classes;
    a fresh marker name is found within the number of columns
    ([fresh_name_total]); the tokenizer's fuel is the length of the text
    ([tokens_from_enough]); the migration loop's is the number of migrations
    plus one, since each iteration but the last applies a pending body; the
    decoder of an output recurses with fuel that bounds the chain of derived
    outputs and scalar subqueries.  Normalization of a CHECK recurses on the
    weight of the expression, its parser with [parse_fuel], which covers every
    list of tokens of that length; the release of the advisory lock loops at most
    as often as the lock is held, plus two.  Python's own limit on the depth of
    recursion is not modelled.  Integers are [Z], with the widths of SHA-256
    words and of the binary64 conversions written out.

    ** What is not modelled

    Named projections and [returning_as], the builders of compound and
    recursive queries (their states are), the factory methods of columns,
    MariaDB's JSON expressions, the cache of compiled plans, raw statements,
    EXPLAIN and the facade [Database], MariaDB's driver adapter, callable foreign
    keys and the resolution of annotations by the metaclass,
    [CanonicalDecimal]: each is a candidate for extension.  Driver I/O,
    telemetry, the command line and the test servers are outside the model.  The
    experimental migration generator is left aside. *)

From stdpp Require Export base tactics option list gmap strings.
From Stdlib Require Export ZArith Lia.
From Stdlib Require Import Floats.SpecFloat.

(** ** Errors

    The exception classes of [snekql/errors.py] (and the built-in ones the
    modelled code lets escape).  A [raise] keeps its class and its message. *)

Inductive exc_class :=
  | ModelDeclarationError | ModelValidationError
  | QueryConstructionError | QueryCompilationError
  | DatabaseRuntimeError | DatabaseClosedError | DatabaseClosingError
  | DatabaseCloseTimeoutError | DatabaseOperationTimeoutError
  | TransactionStateError | TransactionClosedError
  | TransactionNotStartedError | TransactionReuseError
  | PoolTimeoutError | ResultCardinalityError | NoResultError
  | MultipleResultsError | ExecutionError
  | MigrationError | MigrationDeclarationError | MigrationHistoryError
  | MigrationLockError | MigrationLockTimeoutError | DatetimeError | ZonedDatetimeError
  | SchemaError | SchemaVerificationError | UnsupportedCheckError | UnicodeError | RecursionError
  | ValueError | IndexError | KeyError | OverflowError
  | AssertionError | TypeError | AttributeError | NameError
  | ValidationError | PydanticSerializationError | JSONDecodeError | StopIteration | RuntimeError | OtherError.

#[export] Instance exc_class_eq_dec : EqDecision exc_class.
Proof. solve_decision. Defined.

Record exn := Exn { exn_class : exc_class; exn_msg : string }.

#[export] Instance exn_eq_dec : EqDecision exn.
Proof. solve_decision. Defined.

(** ** The error monad: a Python call that returns or raises. *)

Inductive res (A : Type) :=
  | Ok (a : A)
  | Raise (e : exn).
Arguments Ok {_} _.
Arguments Raise {_} _.

Definition raise {A} (c : exc_class) (m : string) : res A := Raise (Exn c m).

#[export] Instance res_ret : MRet res := fun A => Ok.
#[export] Instance res_bind : MBind res := fun A B f m =>
  match m with Ok a => f a | Raise e => Raise e end.
#[export] Instance res_fmap : FMap res := fun A B f m =>
  match m with Ok a => Ok (f a) | Raise e => Raise e end.

#[export] Instance res_eq_dec `{EqDecision A} : EqDecision (res A).
Proof. solve_decision. Defined.

Definition is_ok {A} (r : res A) : bool := match r with Ok _ => true | Raise _ => false end.

(** [guardR b c m] is [if not b: raise c(m)]. *)
Definition guardR (b : bool) (c : exc_class) (m : string) : res unit :=
  if b then Ok tt else raise c m.

(** [for x in l: acc.append(f x)], stopping at the first exception. *)
Definition mapR {A B} (f : A -> res B) : list A -> res (list B) :=
  fix go l := match l with
              | [] => Ok []
              | x :: l' => y ← f x; ys ← go l'; Ok (y :: ys)
              end.

(** [for x in l: f x], stopping at the first exception. *)
Definition iterR {A} (f : A -> res unit) : list A -> res unit :=
  fix go l := match l with
              | [] => Ok tt
              | x :: l' => _ ← f x; go l'
              end.

(** [for x in l: st = f st x], stopping at the first exception. *)
Definition foldR {S A} (f : S -> A -> res S) : S -> list A -> res S :=
  fix go s l := match l with
                | [] => Ok s
                | x :: l' => s' ← f s x; go s' l'
                end.

(** The truth value of a list. *)
Definition nonempty {A} (l : list A) : bool := match l with [] => false | _ => true end.

(** ** Automation

    [res_inv] takes apart a hypothesis saying that a monadic computation
    returned [Ok]. *)

Lemma bind_Ok {A B} (m : res A) (f : A -> res B) b :
  (m ≫= f) = Ok b -> exists a, m = Ok a /\ f a = Ok b.
Proof. destruct m; simpl; [eauto | discriminate]. Qed.

Lemma guardR_Ok b c m u : guardR b c m = Ok u -> b = true.
Proof. destruct b; [done | discriminate]. Qed.

Ltac res_inv :=
  repeat match goal with
  | H : Ok _ = Ok _ |- _ => injection H as H
  | H : Raise _ = Ok _ |- _ => discriminate H
  | H : raise _ _ = Ok _ |- _ => discriminate H
  | H : mret _ = Ok _ |- _ => unfold mret, res_ret in H
  | H : (?m ≫= ?f) = Ok _ |- _ =>
      let a := fresh "v" in let Ha := fresh "Hv" in
      apply bind_Ok in H as (a & Ha & H); simpl in H
  | H : guardR _ _ _ = Ok _ |- _ => apply guardR_Ok in H
  | p : (_ * _)%type |- _ => destruct p
  | u : unit |- _ => destruct u
  end; simpl in *; simplify_eq/=.

(** One bind at a time, with names. *)
Tactic Notation "bind_inv" hyp(H) "as" ident(x) ident(Hx) :=
  apply bind_Ok in H as (x & Hx & H); cbv beta iota in H.

Lemma mapR_Ok {A B} (f : A -> res B) l r :
  mapR f l = Ok r <-> Forall2 (fun a b => f a = Ok b) l r.
Proof.
  revert r; induction l as [|x l IH]; intros r; simpl.
  - split; intros H; [res_inv; constructor | by inversion H].
  - split; intros H.
    + res_inv. constructor; [done|]. by apply IH.
    + inversion H as [|? b ? r' Hx Hr]; subst. rewrite Hx; simpl.
      apply IH in Hr. by rewrite Hr.
Qed.

Lemma mapR_length {A B} (f : A -> res B) l r : mapR f l = Ok r -> length r = length l.
Proof. intros H. apply mapR_Ok, Forall2_length in H. done. Qed.

(** A pure post-processing of each result commutes with the loop. *)
Lemma mapR_fmap {A B C} (f : A -> res B) (g : A -> res C) (h : B -> C) l :
  Forall (fun x => g x = h <$> f x) l -> mapR g l = map h <$> mapR f l.
Proof.
  induction 1 as [|x l Hx _ IH]; simpl; [done|]. rewrite Hx, IH.
  destruct (f x); simpl; [|done]. by destruct (mapR f l).
Qed.

Lemma iterR_Ok {A} (f : A -> res unit) l :
  iterR f l = Ok tt <-> Forall (fun a => f a = Ok tt) l.
Proof.
  induction l as [|x l IH]; simpl; [split; auto |].
  rewrite Forall_cons, <- IH. split.
  - intros H; res_inv; done.
  - intros [Hx Hl]. by rewrite Hx.
Qed.

Lemma foldR_app {S A} (f : S -> A -> res S) s l1 l2 :
  foldR f s (l1 ++ l2) = (s' ← foldR f s l1; foldR f s' l2).
Proof.
  revert s; induction l1 as [|x l1 IH]; intros s; simpl; [done|].
  destruct (f s x); simpl; [apply IH | done].
Qed.

(** An invariant carried through a fold that may raise. *)
Lemma foldR_ind {S A} (P : S -> Prop) (f : S -> A -> res S) l s s' :
  P s -> (forall a t t', a ∈ l -> P t -> f t a = Ok t' -> P t') ->
  foldR f s l = Ok s' -> P s'.
Proof.
  revert s; induction l as [|x l IH]; intros s Hs Hf H; simpl in H; res_inv; [done|].
  eapply IH; [| |exact H].
  - eapply Hf; [left | exact Hs | exact Hv].
  - intros a t t' Ha. apply Hf. by right.
Qed.

(** ** Sequences of checks

    A check that passes and what follows it, as a conjunction. *)

Lemma guard_then (b : bool) c msg (k : res unit) :
  (_ ← guardR b c msg; k) = Ok tt <-> b = true /\ k = Ok tt.
Proof. destruct b; simpl; naive_solver. Qed.

Lemma unit_then (r k : res unit) : (_ ← r; k) = Ok tt <-> r = Ok tt /\ k = Ok tt.
Proof. destruct r as [[]|]; simpl; naive_solver. Qed.

Lemma check_then {A} (r : res A) (k : res unit) :
  (_ ← r; k) = Ok tt <-> is_ok r = true /\ k = Ok tt.
Proof. destruct r; simpl; naive_solver. Qed.

Ltac checks := repeat first [rewrite guard_then | rewrite unit_then | rewrite check_then].

Lemma mapR_total {A B} (f : A -> res B) l :
  Forall (fun x => exists y, f x = Ok y) l -> exists ys, mapR f l = Ok ys.
Proof.
  induction 1 as [|x l [y Hy] _ [ys IH]]; simpl; [eauto|]. rewrite Hy. simpl. rewrite IH.
  simpl. eauto.
Qed.

Lemma mapR_cons {A B} (f : A -> res B) x l : mapR f (x :: l) = (y ← f x; ys ← mapR f l; Ok (y :: ys)).
Proof. done. Qed.
Lemma iterR_cons {A} (f : A -> res unit) x l : iterR f (x :: l) = (_ ← f x; iterR f l).
Proof. done. Qed.
Lemma foldR_cons {S A} (f : S -> A -> res S) s x l :
  foldR f s (x :: l) = (s' ← f s x; foldR f s' l).
Proof. done. Qed.

(** The element with its key, among distinct keys. *)
Lemma filter_unique {A B} `{!EqDecision B} (key : A -> B) l x : NoDup (map key l) -> x ∈ l ->
  filter (fun y => key y = key x) l = [x].
Proof.
  intros Hnd Hx. induction l as [|y l IH]; [by apply elem_of_nil in Hx|]. cbn [map] in Hnd.
  apply NoDup_cons in Hnd as [Hy Hnd]. rewrite filter_cons. apply elem_of_cons in Hx as [->|Hx].
  - rewrite decide_True by done. f_equal. clear IH Hnd. induction l as [|z l IH]; [done|]. cbn [map] in Hy.
    rewrite not_elem_of_cons in Hy. rewrite filter_cons_False by naive_solver. naive_solver.
  - rewrite decide_False; [by apply IH|]. intros He. apply Hy. rewrite He. by apply list_elem_of_fmap_2.
Qed.

(** Whether a computation returns. *)

Lemma is_ok_Ok {A} (r : res A) : is_ok r = true <-> exists a, r = Ok a.
Proof. destruct r; naive_solver. Qed.

Lemma is_ok_bind {A B} (r : res A) (f : A -> res B) :
  is_ok (r ≫= f) = true <-> exists a, r = Ok a /\ is_ok (f a) = true.
Proof. destruct r; simpl; naive_solver. Qed.

Lemma is_ok_mapR {A B} (f : A -> res B) l :
  is_ok (mapR f l) = true <-> Forall (fun x => is_ok (f x) = true) l.
Proof.
  induction l as [|x l IH]; [by split; constructor|]. rewrite mapR_cons, is_ok_bind, Forall_cons, <- IH.
  rewrite (is_ok_Ok (f x)). setoid_rewrite is_ok_bind. setoid_rewrite is_ok_Ok. naive_solver.
Qed.

#[global] Arguments mapR {_ _} _ _ : simpl never.
#[global] Arguments iterR {_} _ _ : simpl never.
#[global] Arguments foldR {_ _} _ _ _ : simpl never.

Lemma mapR_elem_inv {A B} (f : A -> res B) l r y :
  mapR f l = Ok r -> y ∈ r -> exists x, x ∈ l /\ f x = Ok y.
Proof.
  rewrite mapR_Ok. induction 1 as [|a b l r Hab _ IH]; intros Hy.
  - by apply not_elem_of_nil in Hy.
  - apply elem_of_cons in Hy as [->|Hy]; [exists a; split; [left|done]|].
    destruct (IH Hy) as (x & Hx & Hf). exists x. split; [by right|done].
Qed.

Lemma mapR_elem {A B} (f : A -> res B) l r x :
  mapR f l = Ok r -> x ∈ l -> exists y, y ∈ r /\ f x = Ok y.
Proof.
  rewrite mapR_Ok. induction 1 as [|a b l r Hab _ IH]; intros Hx.
  - by apply not_elem_of_nil in Hx.
  - apply elem_of_cons in Hx as [->|Hx]; [exists b; split; [left|done]|].
    destruct (IH Hx) as (y & Hy & Hf). exists y. split; [by right|done].
Qed.

Lemma iterR_elem {A} (f : A -> res unit) l x : iterR f l = Ok tt -> x ∈ l -> f x = Ok tt.
Proof. rewrite iterR_Ok, Forall_forall. auto. Qed.

(** ** Python values

    The values that travel through statements as bound parameters.  An
    object of any other class is known by its [str()] text. *)

Inductive pyval :=
  | PNone
  | PBool (b : bool)
  | PInt (z : Z)
  | PFloat (f : spec_float)
  | PStr (s : string)
  | PBytes (s : string)
  | PObj (cls : string) (text : string).

Definition is_none (v : pyval) : bool := match v with PNone => true | _ => false end.

(** [math.isfinite] on a binary64. *)
Definition float_isfinite (f : spec_float) : bool :=
  match f with S754_zero _ | S754_finite _ _ _ => true | _ => false end.

(** [float(n)] for an [int] of at most 64 bits. *)
Definition float_of_int (n : Z) : spec_float := binary_normalize 53 1024 n 0 false.

(** ** Strings

    A Python [str] is the [string] of its UTF-8 bytes. *)

(** [sep.join(parts)] *)
Definition join (sep : string) (parts : list string) : string := String.concat sep parts.

(** [s.replace(c, r)] for a one-byte [c]. *)
Fixpoint replace_char (c : Ascii.ascii) (r : string) (s : string) : string :=
  match s with
  | EmptyString => EmptyString
  | String a s' => if Ascii.eqb a c then r +:+ replace_char c r s' else String a (replace_char c r s')
  end.

Lemma join_cons sep x y l : join sep (x :: y :: l) = x +:+ sep +:+ join sep (y :: l).
Proof. done. Qed.

Lemma string_app_cons x (a b : string) : String x a +:+ b = String x (a +:+ b).
Proof. done. Qed.

Lemma string_app_nil_l (a : string) : "" +:+ a = a.
Proof. done. Qed.

Lemma string_app_assoc (a b c : string) : (a +:+ b) +:+ c = a +:+ (b +:+ c).
Proof. induction a as [|x a IH]; [done | by rewrite !string_app_cons, IH]. Qed.

Lemma string_app_nil_r (a : string) : a +:+ "" = a.
Proof. induction a as [|x a IH]; [done | by rewrite string_app_cons, IH]. Qed.

Lemma string_length_app (a b : string) : String.length (a +:+ b) = String.length a + String.length b.
Proof. induction a as [|x a IH]; [done|]. rewrite string_app_cons. simpl. by rewrite IH. Qed.

Create Rewrite HintDb pystr.
#[export] Hint Rewrite string_app_nil_l string_app_nil_r string_app_assoc : pystr.

(** ** [float(n)] of a 64-bit integer is finite *)

Section float_of_int.
Open Scope Z_scope.

Lemma digits2_pos_log2 p : Z.pos (digits2_pos p) = Z.log2 (Z.pos p) + 1.
Proof.
  induction p as [p IH|p IH|]; cbn [digits2_pos]; rewrite ?Pos2Z.inj_succ, ?IH; [| |done].
  - rewrite (Pos2Z.inj_xI p), Z.log2_succ_double; lia.
  - rewrite (Pos2Z.inj_xO p), Z.log2_double; lia.
Qed.

Lemma Zdigits2_bound m k : 0 <= m < 2 ^ k -> 0 <= k -> 0 <= Zdigits2 m <= k.
Proof.
  intros Hm Hk. destruct m as [|p|p]; simpl; [lia| |lia].
  rewrite digits2_pos_log2. pose proof (Z.log2_nonneg (Z.pos p)).
  assert (Z.log2 (Z.pos p) < k) by (apply Z.log2_lt_pow2; lia). lia.
Qed.

Lemma shr_1_bound r : 0 <= shr_m r -> 0 <= shr_m (shr_1 r) <= shr_m r.
Proof. destruct r as [[|[p|p|]|[p|p|]] ? ?]; simpl; lia. Qed.

Lemma shr_bound r e n :
  0 <= shr_m r -> 0 <= shr_m (fst (shr r e n)) <= shr_m r /\ snd (shr r e n) <= Z.max e (e + n).
Proof.
  intros Hr. destruct n as [|p|p]; simpl; [lia| |lia]. split; [|lia].
  revert r Hr. induction p as [p IH|p IH|]; intros r Hr; simpl; [| |by apply shr_1_bound].
  - pose proof (shr_1_bound r Hr). pose proof (IH (shr_1 r)). 
    pose proof (IH (iter_pos shr_1 p (shr_1 r))). lia.
  - pose proof (IH r). pose proof (IH (iter_pos shr_1 p r)). lia.
Qed.

Lemma shr_fexp_bound m e l k :
  0 <= m < 2 ^ k -> 0 <= k -> e <= 64 ->
  0 <= shr_m (fst (shr_fexp 53 1024 m e l)) <= m /\
  snd (shr_fexp 53 1024 m e l) <= 64 + k.
Proof.
  intros Hm Hk He. pose proof (Zdigits2_bound m k Hm Hk). unfold shr_fexp.
  assert (Hr : shr_m (shr_record_of_loc m l) = m) by (by destruct l as [|[]]).
  destruct (shr_bound (shr_record_of_loc m l) e (fexp 53 1024 (Zdigits2 m + e) - e)) as [H1 H2];
    [lia|]. rewrite Hr in H1. split; [lia|]. etransitivity; [exact H2|]. unfold fexp, emin. lia.
Qed.

Lemma binary_round_aux_finite sx m e :
  0 <= m < 2 ^ 64 -> e <= 0 -> float_isfinite (binary_round_aux 53 1024 sx m e loc_Exact) = true.
Proof.
  intros Hm He. unfold binary_round_aux.
  destruct (shr_fexp_bound m e loc_Exact 64 Hm) as [H1 H2]; [lia..|].
  destruct (shr_fexp 53 1024 m e loc_Exact) as [r e'] eqn:Hr. cbn [fst snd] in *.
  set (m' := round_nearest_even _ _).
  assert (Hm' : 0 <= m' < 2 ^ 65).
  { subst m'. unfold round_nearest_even. repeat case_match; lia. }
  destruct (shr_bound (shr_record_of_loc m' loc_Exact) e' (fexp 53 1024 (Zdigits2 m' + e') - e'))
    as [H3 H4]; [simpl; lia|].
  pose proof (Zdigits2_bound m' 65 Hm' ltac:(lia)). unfold shr_fexp.
  destruct (shr _ e' _) as [r' e'']. cbn [fst snd] in *. unfold fexp, emin in H4.
  destruct (shr_m r') as [|p|p]; [done| |lia].
  destruct (Z.leb_spec e'' (1024 - 53)); [done|lia].
Qed.

Lemma iter_xO p d : Z.pos (Pos.iter xO p d) = Z.pos p * 2 ^ Z.pos d.
Proof.
  induction d as [|d IH] using Pos.peano_ind; [simpl; lia|].
  rewrite Pos.iter_succ, Pos2Z.inj_xO, IH, Pos2Z.inj_succ, Z.pow_succ_r; lia.
Qed.

Lemma binary_round_finite sx p :
  Z.pos p < 2 ^ 64 -> float_isfinite (binary_round 53 1024 sx p 0) = true.
Proof.
  intros Hp. unfold binary_round, shl_align.
  pose proof (digits2_pos_log2 p) as Hd. pose proof (Z.log2_nonneg (Z.pos p)) as Hl.
  pose proof (Z.log2_spec (Z.pos p) ltac:(lia)) as [_ Hlog].
  rewrite Z.add_0_r, Z.sub_0_r. unfold fexp, emin.
  destruct (Z.max _ _) as [|q|q] eqn:Hq; [apply binary_round_aux_finite; lia..|].
  apply binary_round_aux_finite; [|lia]. rewrite iter_xO. split; [lia|].
  assert (Hle : Z.pos p * 2 ^ Z.pos q <= 2 ^ Z.succ (Z.log2 (Z.pos p)) * 2 ^ Z.pos q)
    by (apply Z.mul_le_mono_nonneg_r; lia).
  rewrite <- Z.pow_add_r in Hle by lia.
  assert (2 ^ (Z.succ (Z.log2 (Z.pos p)) + Z.pos q) <= 2 ^ 53) by (apply Z.pow_le_mono_r; lia).
  lia.
Qed.

Lemma float_of_int_finite n : - 2 ^ 63 <= n < 2 ^ 63 -> float_isfinite (float_of_int n) = true.
Proof.
  intros Hn. destruct n as [|p|p]; [done|apply binary_round_finite; lia..].
Qed.
End float_of_int.

(** ** Counting the entries of a map that satisfy a test *)

Section count_map.
Context `{Countable K} {A : Type} (f : A -> bool).
Implicit Types (m : gmap K A) (i : K) (x : A).

Definition count_map m : nat := size (filter (fun kv => f kv.2 = true) m).

Definition count_opt (o : option A) : nat := match o with Some x => Nat.b2n (f x) | None => 0 end.

Lemma count_map_delete m i : count_map m = count_opt (m !! i) + count_map (delete i m).
Proof.
  unfold count_map. destruct (m !! i) as [x|] eqn:Hi; simpl; [|by rewrite delete_id].
  rewrite <- (insert_delete_id m i x Hi) at 1. destruct (f x) eqn:Hx; simpl.
  - rewrite map_filter_insert_True by done.
    by rewrite map_size_insert_None by (apply map_lookup_filter_None; left; apply lookup_delete_eq).
  - rewrite map_filter_insert_False by (simpl; congruence). by rewrite delete_delete_eq.
Qed.

Lemma count_map_insert m i x :
  count_map (<[i := x]> m) + count_opt (m !! i) = count_map m + Nat.b2n (f x).
Proof.
  rewrite (count_map_delete m i), (count_map_delete (<[i := x]> m) i), lookup_insert_eq.
  rewrite delete_insert_eq. simpl. lia.
Qed.

Lemma count_map_zero m : (forall i x, m !! i = Some x -> f x = false) -> count_map m = 0.
Proof.
  intros Hf. unfold count_map. apply map_size_empty_iff, map_empty. intros i.
  apply map_lookup_filter_None. right. intros x Hi. simpl. by rewrite (Hf _ _ Hi).
Qed.

Lemma count_map_pos m i x : m !! i = Some x -> f x = true -> 0 < count_map m.
Proof. intros Hi Hx. rewrite (count_map_delete m i), Hi. simpl. rewrite Hx. simpl. lia. Qed.

Lemma count_map_two m i j x y : i <> j -> m !! i = Some x -> m !! j = Some y ->
  f x = true -> f y = true -> 2 <= count_map m.
Proof.
  intros Hne Hi Hj Hx Hy. rewrite (count_map_delete m i), Hi. simpl. rewrite Hx. simpl.
  assert (0 < count_map (delete i m)); [|lia].
  apply (count_map_pos _ j y); [|done]. by rewrite lookup_delete_ne.
Qed.

Lemma count_map_fmap (g : A -> A) m : (forall x, f (g x) = f x) -> count_map (g <$> m) = count_map m.
Proof.
  intros Hg. unfold count_map. rewrite map_filter_fmap, map_size_fmap.
  f_equal. apply map_filter_ext. intros i x _. simpl. by rewrite Hg.
Qed.
End count_map.

Lemma count_map_dom `{Countable K} {A} (f : A -> bool) (m : gmap K A) :
  count_map f m = size (dom (filter (fun kv => f kv.2 = true) m) : gset K).
Proof. unfold count_map. by rewrite size_dom. Qed.

(** A map whose counted entries are all counted in another one. *)
Lemma count_map_le `{Countable K} {A B} (f : A -> bool) (g : B -> bool)
    (m : gmap K A) (m' : gmap K B) :
  (forall i x, m !! i = Some x -> f x = true -> exists y, m' !! i = Some y /\ g y = true) ->
  count_map f m <= count_map g m'.
Proof.
  intros Hm. rewrite !count_map_dom. apply subseteq_size. intros i.
  rewrite !elem_of_dom. intros (x & Hx). apply map_lookup_filter_Some in Hx as [Hi Hfx].
  destruct (Hm i x Hi Hfx) as (y & Hy & Hgy). exists y. by apply map_lookup_filter_Some.
Qed.
