(* ===== verification/SqlText.v ===== *)
(** * Identifier quoting and placeholder syntax

    The quoting functions of [sqlite/identifiers.py],
    [mariadb/identifiers.py] and [mariadb/_dialect_sql.py], the text that a
    SQL parser reads back from a quoted identifier, and the notion of
    placeholder the two drivers apply to a compiled statement: SQLite's
    tokenizer finds [?] outside quoted text, the MariaDB driver applies
    Python's [%]-formatting to the whole text. *)

From S2P Require Export Prelude.
From Stdlib Require Import Ascii DecimalString.

Definition c_dquote : ascii := "034"%char.
Definition c_squote : ascii := "039"%char.
Definition c_backtick : ascii := "096"%char.
Definition c_bracket : ascii := "091"%char.
Definition c_rbracket : ascii := "093"%char.
Definition c_percent : ascii := "037"%char.
Definition c_qmark : ascii := "063"%char.
Definition c_s : ascii := "115"%char.

Definition chr (c : ascii) : string := String c EmptyString.

(** ** Quoting *)

Module Sqlite.
Definition quote_identifier (identifier : string) : string :=
  chr c_dquote +:+ replace_char c_dquote (chr c_dquote +:+ chr c_dquote) identifier
    +:+ chr c_dquote.
End Sqlite.

Module Mariadb.
Definition quote_identifier (identifier : string) : string :=
  chr c_backtick +:+ replace_char c_backtick (chr c_backtick +:+ chr c_backtick) identifier
    +:+ chr c_backtick.

Definition quote_query_identifier (identifier : string) : string :=
  replace_char c_percent (chr c_percent +:+ chr c_percent) (quote_identifier identifier).
End Mariadb.

(** ** Reading a quoted identifier back

    [unquote q s] reads a [q]-quoted identifier at the head of [s]: the name
    it denotes and the text that follows it. *)

Fixpoint unquote_body (q : ascii) (s : string) : option (string * string) :=
  match s with
  | EmptyString => None
  | String a s' =>
      if Ascii.eqb a q then
        match s' with
        | String b s'' =>
            if Ascii.eqb b q then '(n, rest) ← unquote_body q s''; Some (String q n, rest)
            else Some (EmptyString, s')
        | EmptyString => Some (EmptyString, EmptyString)
        end
      else '(n, rest) ← unquote_body q s'; Some (String a n, rest)
  end.

Definition unquote (q : ascii) (s : string) : option (string * string) :=
  match s with
  | String a s' => if Ascii.eqb a q then unquote_body q s' else None
  | EmptyString => None
  end.

(** The text does not go on with the quote character: the identifier ends. *)
Definition ends_quote (q : ascii) (rest : string) : Prop :=
  match rest with String a _ => a <> q | EmptyString => True end.

Lemma unquote_body_double q s rest :
  ends_quote q rest ->
  unquote_body q (replace_char q (chr q +:+ chr q) s +:+ chr q +:+ rest) = Some (s, rest).
Proof.
  intros Hrest. induction s as [|a s IH].
  - change (unquote_body q (String q rest) = Some (EmptyString, rest)).
    simpl. rewrite Ascii.eqb_refl. destruct rest as [|b rest]; [done|].
    destruct (Ascii.eqb_spec b q); [by destruct Hrest | done].
  - simpl. destruct (Ascii.eqb_spec a q) as [->|Hne].
    + change (unquote_body q (String q (String q
        (replace_char q (chr q +:+ chr q) s +:+ chr q +:+ rest))) = Some (String q s, rest)).
      simpl. rewrite Ascii.eqb_refl. by rewrite IH.
    + rewrite string_app_cons. simpl.
      destruct (Ascii.eqb_spec a q); [done|]. by rewrite IH.
Qed.

Lemma unquote_double q s rest :
  ends_quote q rest ->
  unquote q (chr q +:+ replace_char q (chr q +:+ chr q) s +:+ chr q +:+ rest) = Some (s, rest).
Proof.
  intros H. change (unquote q (String q (replace_char q (chr q +:+ chr q) s +:+ chr q +:+ rest))
                    = Some (s, rest)).
  simpl. rewrite Ascii.eqb_refl. by apply unquote_body_double.
Qed.

(** ** SQLite placeholders

    [QOut] is outside quoted text; [QIn c] is inside text that the next [c]
    closes (a doubled closing character closes and reopens). *)

Inductive qmode := QOut | QIn (close : ascii).

Definition q_open (a : ascii) : option ascii :=
  if Ascii.eqb a c_dquote then Some c_dquote
  else if Ascii.eqb a c_squote then Some c_squote
  else if Ascii.eqb a c_backtick then Some c_backtick
  else if Ascii.eqb a c_bracket then Some c_rbracket
  else None.

Fixpoint qmark_scan (m : qmode) (s : string) : nat * qmode :=
  match s with
  | EmptyString => (0, m)
  | String a s' =>
      match m with
      | QIn c => qmark_scan (if Ascii.eqb a c then QOut else QIn c) s'
      | QOut =>
          match q_open a with
          | Some c => qmark_scan (QIn c) s'
          | None => let '(n, m') := qmark_scan QOut s' in
                    ((if Ascii.eqb a c_qmark then S n else n), m')
          end
      end
  end.

Lemma qmark_scan_app m a b :
  qmark_scan m (a +:+ b) =
  let '(n, m') := qmark_scan m a in
  let '(k, m'') := qmark_scan m' b in (n + k, m'').
Proof.
  revert m; induction a as [|x a IH]; intros m; rewrite ?string_app_cons; simpl.
  - rewrite string_app_nil_l. by destruct (qmark_scan m b).
  - destruct m as [|c].
    + destruct (q_open x); [by rewrite IH|]. rewrite IH.
      destruct (qmark_scan QOut a) as [n m']. destruct (qmark_scan m' b) as [k m''].
      by destruct (Ascii.eqb x c_qmark).
    + by rewrite IH.
Qed.

Lemma qmark_scan_quoted_body q s :
  qmark_scan (QIn q) (replace_char q (chr q +:+ chr q) s) = (0, QIn q) \/
  q_open q <> Some q.
Proof.
  destruct (decide (q_open q = Some q)) as [Hq|]; [left|by right].
  induction s as [|a s IH]; simpl; [done|].
  destruct (Ascii.eqb_spec a q) as [->|Hne].
  - change (qmark_scan (QIn q) (String q (String q (replace_char q (chr q +:+ chr q) s)))
            = (0, QIn q)).
    simpl. rewrite Ascii.eqb_refl. by rewrite Hq.
  - simpl. destruct (Ascii.eqb_spec a q); [done|]. exact IH.
Qed.

(** ** [%]-format conversions

    [fmt_scan s] counts the [%s] conversions of a format string; [None] when
    [%] is followed by anything but [s] or [%]. *)

Fixpoint fmt_scan (s : string) : option nat :=
  match s with
  | EmptyString => Some 0
  | String a s' =>
      if Ascii.eqb a c_percent then
        match s' with
        | String b s'' =>
            if Ascii.eqb b c_percent then fmt_scan s''
            else if Ascii.eqb b c_s then S <$> fmt_scan s'' else None
        | EmptyString => None
        end
      else fmt_scan s'
  end.

Lemma string_len_ind (P : string -> Prop) :
  (forall s, (forall s', String.length s' < String.length s -> P s') -> P s) -> forall s, P s.
Proof.
  intros H s. remember (String.length s) as n eqn:Hn.
  revert s Hn. induction n as [n IH] using lt_wf_ind. intros s ->.
  apply H. intros s' Hs'. by eapply IH.
Qed.

Lemma fmt_scan_app n a b :
  fmt_scan a = Some n -> fmt_scan (a +:+ b) = (fun k => n + k) <$> fmt_scan b.
Proof.
  revert n. induction a as [a IH] using string_len_ind. intros n Ha.
  destruct a as [|x a]; simpl in Ha.
  - injection Ha as <-. rewrite string_app_nil_l. by destruct (fmt_scan b).
  - rewrite string_app_cons. simpl. destruct (Ascii.eqb x c_percent).
    + destruct a as [|y a]; [done|]. rewrite string_app_cons.
      destruct (Ascii.eqb y c_percent); [apply IH; simpl; [lia|done]|].
      destruct (Ascii.eqb y c_s); [|done].
      destruct (fmt_scan a) as [k|] eqn:Hk; simplify_eq/=.
      rewrite (IH a) with (n := k); simpl; [|lia|done]. by destruct (fmt_scan b).
    + apply IH; simpl; [lia|done].
Qed.

Lemma fmt_scan_escaped s :
  fmt_scan (replace_char c_percent (chr c_percent +:+ chr c_percent) s) = Some 0.
Proof.
  induction s as [|a s IH]; simpl; [done|].
  destruct (Ascii.eqb_spec a c_percent) as [->|Hne].
  - change (fmt_scan (String c_percent (String c_percent
      (replace_char c_percent (chr c_percent +:+ chr c_percent) s))) = Some 0).
    simpl. exact IH.
  - simpl. destruct (Ascii.eqb_spec a c_percent); [done|]. exact IH.
Qed.

(** The text the driver sends: conversions replaced by rendered arguments,
    [%%] by [%]. *)
Fixpoint fmt_apply (s : string) (args : list string) : option string :=
  match s with
  | EmptyString => match args with [] => Some EmptyString | _ => None end
  | String a s' =>
      if Ascii.eqb a c_percent then
        match s' with
        | String b s'' =>
            if Ascii.eqb b c_percent then String c_percent <$> fmt_apply s'' args
            else if Ascii.eqb b c_s then
              match args with
              | [] => None
              | x :: args' => (fun t => x +:+ t) <$> fmt_apply s'' args'
              end
            else None
        | EmptyString => None
        end
      else String a <$> fmt_apply s' args
  end.

Lemma fmt_apply_escaped s rest args t :
  fmt_apply rest args = Some t ->
  fmt_apply (replace_char c_percent (chr c_percent +:+ chr c_percent) s +:+ rest) args
  = Some (s +:+ t).
Proof.
  intros Hr. induction s as [|a s IH]; simpl; [by rewrite string_app_nil_l|].
  destruct (Ascii.eqb_spec a c_percent) as [->|Hne].
  - change (fmt_apply (String c_percent (String c_percent
      (replace_char c_percent (chr c_percent +:+ chr c_percent) s +:+ rest))) args
      = Some (String c_percent (s +:+ t))).
    simpl. by rewrite IH.
  - rewrite !string_app_cons. simpl. destruct (Ascii.eqb_spec a c_percent); [done|].
    by rewrite IH.
Qed.

Lemma fmt_apply_total s args :
  fmt_scan s = Some (length args) -> is_Some (fmt_apply s args).
Proof.
  revert args. induction s as [s IH] using string_len_ind. intros args Hs.
  destruct s as [|a s]; simpl in *; [destruct args; [eauto|done]|].
  destruct (Ascii.eqb a c_percent).
  - destruct s as [|b s]; [done|].
    destruct (Ascii.eqb b c_percent).
    + rewrite fmap_is_Some. apply IH; simpl; [lia|done].
    + destruct (Ascii.eqb b c_s); [|done].
      destruct args as [|x args]; [by destruct (fmt_scan s)|].
      rewrite fmap_is_Some. apply IH; simpl; [lia|].
      by destruct (fmt_scan s); simplify_eq/=.
  - rewrite fmap_is_Some. apply IH; simpl; [lia|done].
Qed.

(** ** The interface the compiler is verified against

    [frag n s]: a driver reads exactly [n] placeholders in [s] and is left
    outside quoted text, whatever comes before or after. *)

Class PlaceholderSyntax := {
  frag : nat -> string -> Prop;
  frag_app : forall n m a b, frag n a -> frag m b -> frag (n + m) (a +:+ b);
  frag_plain : forall s,
    Forall (fun a => q_open a = None /\ a <> c_qmark /\ a <> c_percent) (String.list_ascii_of_string s) ->
    frag 0 s
}.

Definition qmark_frag (n : nat) (s : string) : Prop := qmark_scan QOut s = (n, QOut).
Definition fmt_frag (n : nat) (s : string) : Prop := fmt_scan s = Some n.

#[refine] Definition qmark_syntax : PlaceholderSyntax := {| frag := qmark_frag |}.
Proof.
  - unfold qmark_frag. intros n m a b Ha Hb. by rewrite qmark_scan_app, Ha, Hb.
  - unfold qmark_frag. intros s; induction s as [|a s IH]; simpl; [done|].
    rewrite Forall_cons. intros [(Ho & Hq & _) Hs]. rewrite Ho, (IH Hs).
    by destruct (Ascii.eqb_spec a c_qmark).
Defined.

#[refine] Definition fmt_syntax : PlaceholderSyntax := {| frag := fmt_frag |}.
Proof.
  - unfold fmt_frag. intros n m a b Ha Hb. by rewrite (fmt_scan_app n), Hb.
  - unfold fmt_frag. intros s; induction s as [|a s IH]; simpl; [done|].
    rewrite Forall_cons. intros [(_ & _ & Hp) Hs]. rewrite (IH Hs).
    by destruct (Ascii.eqb_spec a c_percent).
Defined.

(** Texts the compiler writes down literally hold no special character. *)
Ltac plain_text :=
  solve [apply frag_plain; repeat (constructor; [repeat split; discriminate|]); constructor].

Lemma sqlite_quote_frag s : qmark_frag 0 (Sqlite.quote_identifier s).
Proof.
  unfold qmark_frag, Sqlite.quote_identifier.
  change (chr c_dquote +:+ ?x) with (String c_dquote x). simpl.
  rewrite qmark_scan_app.
  destruct (qmark_scan_quoted_body c_dquote s) as [->|Hq]; [done|by destruct Hq].
Qed.

Lemma mariadb_quote_frag s : fmt_frag 0 (Mariadb.quote_query_identifier s).
Proof. apply fmt_scan_escaped. Qed.

(** ** Fragment algebra *)

Section fragments.
Context `{S : PlaceholderSyntax}.

Lemma frag_eq n m s : frag n s -> n = m -> frag m s.
Proof. by intros H <-. Qed.

Lemma frag_nil : frag 0 "".
Proof. apply frag_plain. constructor. Qed.

Lemma frag_join sep ns ss :
  frag 0 sep -> Forall2 frag ns ss -> frag (sum_list ns) (join sep ss).
Proof.
  intros Hsep H. induction H as [|n s ns ss Hs Hss IH]; [apply frag_nil|].
  destruct Hss as [|n' s' ns' ss' Hs' Hss'].
  - simpl. by rewrite Nat.add_0_r.
  - rewrite join_cons. eapply frag_eq; [apply frag_app; [exact Hs|apply frag_app; [exact Hsep|exact IH]]|].
    done.
Qed.

Lemma frag_join_0 sep ss : frag 0 sep -> Forall (frag 0) ss -> frag 0 (join sep ss).
Proof.
  intros Hsep H. eapply frag_eq; [apply (frag_join _ (replicate (length ss) 0)); [done|]|].
  - induction H; simpl; by constructor.
  - clear H. induction ss; simpl; done.
Qed.

Lemma frag_join_replicate sep s n :
  frag 0 sep -> frag 1 s -> frag n (join sep (replicate n s)).
Proof.
  intros Hsep Hs. eapply frag_eq; [apply (frag_join _ (replicate n 1)); [done|]|].
  - induction n; simpl; by constructor.
  - induction n; simpl; lia.
Qed.
End fragments.

(** [frag_step] splits a concatenation, closes literal pieces and uses what
    the context knows of the others; the counts are left to [lia]. *)
Ltac frag_step :=
  lazymatch goal with
  | |- frag _ (_ +:+ _) => eapply frag_eq; [eapply frag_app|]
  | |- frag _ "" => eapply frag_eq; [apply frag_nil|]
  | H : frag _ ?s |- frag _ ?s => eapply frag_eq; [exact H|]
  | |- frag _ (String _ _) => eapply frag_eq; [plain_text|]
  | |- _ = _ => first [reflexivity | lia]
  end.
Ltac frag_solve := repeat frag_step.

(** ** Decimal rendering of a natural number: [str(n)] *)

Definition str_nat (n : nat) : string := NilEmpty.string_of_uint (Nat.to_uint n).

Lemma string_of_uint_plain d :
  Forall (fun a => q_open a = None /\ a <> c_qmark /\ a <> c_percent)
    (String.list_ascii_of_string (NilEmpty.string_of_uint d)).
Proof. induction d; simpl; constructor; try done; repeat split; discriminate. Qed.

Lemma frag_str_nat `{PlaceholderSyntax} n : frag 0 (str_nat n).
Proof. apply frag_plain, string_of_uint_plain. Qed.
