(* ===== verification/QueryState.v ===== *)
(** * Query state: the immutable description a builder produces

    The data of [_query_state.py], [expressions.py], [_value_expression.py],
    [_literal.py], [_cte.py], [_aliases.py] and [_query_dialect.py], and the
    ownership accessors of [_query_state.py].

    Classes used as query sources and CTE definitions are Python objects with
    identity: they are positives ([mid], [did]) resolved in an [env], so [is],
    [in] and dict/set membership on them are equality of identities.  States,
    predicates and expressions are immutable and hold no cycle: they are
    inductive data. *)

From S2P Require Export Prelude.

Abbreviation mid := positive (only parsing).   (* a source class *)
Abbreviation did := positive (only parsing).   (* a [_CteDefinition] *)

Inductive backend := BSqlite | BMariadb.
#[export] Instance backend_eq_dec : EqDecision backend.
Proof. solve_decision. Defined.

(** The core types of a resolved logical annotation. *)
Inductive ltype :=
  | TUtcDatetime | TLocalDatetime | TZonedDatetime | TAny
  | TInt | TFloat | TStr | TCore (cls : positive).
#[export] Instance ltype_eq_dec : EqDecision ltype.
Proof. solve_decision. Defined.

(** [Attr]: a column descriptor.  [attr_id] is the object's identity;
    [attr_query_relation] is the attribute [_query_relation] that an alias
    sets on its copies. *)
Record attr := Attr {
  attr_id : positive;
  attr_name : option string;
  attr_owner : option mid;
  attr_query_relation : option mid;
  attr_nullable : bool;
  attr_storage_class : string;
  attr_storage_type_name : string;
  attr_datetime_precision : option nat;
  attr_is_json : bool;
  attr_core_types : list ltype
}.
#[export] Instance attr_eq_dec : EqDecision attr.
Proof. solve_decision. Defined.

Inductive agg_func := AVG | COUNT | MAX | MIN | SUM.
#[export] Instance agg_func_eq_dec : EqDecision agg_func.
Proof. solve_decision. Defined.

(** [type[int | float | str]] *)
Inductive value_type := VtInt | VtFloat | VtStr.
#[export] Instance value_type_eq_dec : EqDecision value_type.
Proof. solve_decision. Defined.

Inductive ve_operator := VAdd | VSub | VMul | VCoalesce | VLower | VCharLength.
Inductive comparison_operator := OpEq | OpNe | OpGt | OpGte | OpLt | OpLte.
Inductive compound_operator := OpAnd | OpOr.
Inductive join_type := INNER | LEFT.
Inductive lock_wait := LwBlock | LwNowait | LwSkipLocked.
Inductive set_operator := UNION | UNION_ALL.
#[export] Instance ve_operator_eq_dec : EqDecision ve_operator.
Proof. solve_decision. Defined.
#[export] Instance join_type_eq_dec : EqDecision join_type.
Proof. solve_decision. Defined.

Record join_spec_of (P : Type) := JoinSpec {
  join_model : mid; join_kind : join_type; join_predicate : P }.
Arguments JoinSpec {_} _ _ _. Arguments join_model {_} _.
Arguments join_kind {_} _. Arguments join_predicate {_} _.

(** [_OrderBy]: the column is [None] only in a hand-built node. *)
Record order_by_of (S : Type) := OrderBy {
  ob_column : option S; ob_direction : string }.
Arguments OrderBy {_} _ _. Arguments ob_column {_} _. Arguments ob_direction {_} _.

Record compound_of (S : Type) := CompoundSpec {
  cmp_left : S; cmp_right : S; cmp_operator : set_operator }.
Arguments CompoundSpec {_} _ _ _. Arguments cmp_left {_} _.
Arguments cmp_right {_} _. Arguments cmp_operator {_} _.

(** [NamedProjection]: the result class (an identity), its [model_fields] and
    the label tokens, identities too. *)
Record named_projection := NamedProjection {
  np_labels : list string;
  np_result_type : positive;
  np_model_fields : list string;
  np_output_tokens : list (option positive)
}.

(** A Python operand, a value expression, a predicate, a select state.
    [SOther] is any object that is not a selectable; [None] as a subquery is
    an object without a [SelectState]. *)
Inductive selectable :=
  | SAttr (a : attr)
  | SAggregate (func : agg_func) (column : option selectable) (owner : option mid)
  | SScalar (subquery : option select_state)
  | SValue (e : value_expression)
  | SCteOutput (position : nat) (relation : mid)
  | SLiteral (family : backend) (value : Z)
  | STablePresence (source : mid) (name : string)
  | SCtePresence (relation : mid)
  | SOther
with value_expression :=
  | ValueExpression (column : ve_root) (nullable : bool) (vtype : value_type)
      (owner : mid) (operations : list (ve_operator * ve_operand))
with ve_root :=
  | VRColumn (column : selectable)
  | VRCase (condition : predicate) (condition_columns : list selectable)
      (otherwise then_ : ve_operand)
with ve_operand :=
  | VOLit (v : pyval)
  | VOExpr (e : value_expression)
with predicate :=
  | ComparisonPredicate (operand : selectable) (op : comparison_operator) (value : pyval)
  | NullPredicate (operand : selectable) (negated : bool)
  | MembershipPredicate (operand : selectable) (values : list pyval) (negated : bool)
  | BetweenPredicate (operand : selectable) (low high : pyval)
  | LikePredicate (operand : selectable) (pattern : string) (negated : bool)
  | ColumnComparisonPredicate (operand : selectable) (op : comparison_operator)
      (other : selectable)
  | SubqueryMembershipPredicate (operand : selectable) (subquery : option select_state)
      (negated : bool)
  | ExistencePredicate (subquery : option select_state) (negated : bool)
  | CompoundPredicate (op : compound_operator) (children : list predicate)
  | NegatedPredicate (child : predicate)
with select_state :=
  | SelectState (model : mid) (fields : list selectable)
      (projection : option named_projection) (returns_model distinct : bool)
      (lock : option lock_wait) (predicates : list predicate)
      (groupings : list selectable) (having : list predicate)
      (orderings : list (order_by_of selectable))
      (limit_value offset_value : option Z)
      (joins : list (join_spec_of predicate))
      (compound : option (compound_of select_state)).

Abbreviation join_spec := (join_spec_of predicate) (only parsing).
Abbreviation order_by := (order_by_of selectable) (only parsing).
Abbreviation compound_spec := (compound_of select_state) (only parsing).

Definition st_model '(SelectState m _ _ _ _ _ _ _ _ _ _ _ _ _) := m.
Definition st_fields '(SelectState _ f _ _ _ _ _ _ _ _ _ _ _ _) := f.
Definition st_projection '(SelectState _ _ p _ _ _ _ _ _ _ _ _ _ _) := p.
Definition st_returns_model '(SelectState _ _ _ r _ _ _ _ _ _ _ _ _ _) := r.
Definition st_distinct '(SelectState _ _ _ _ d _ _ _ _ _ _ _ _ _) := d.
Definition st_lock '(SelectState _ _ _ _ _ l _ _ _ _ _ _ _ _) := l.
Definition st_predicates '(SelectState _ _ _ _ _ _ p _ _ _ _ _ _ _) := p.
Definition st_groupings '(SelectState _ _ _ _ _ _ _ g _ _ _ _ _ _) := g.
Definition st_having '(SelectState _ _ _ _ _ _ _ _ h _ _ _ _ _) := h.
Definition st_orderings '(SelectState _ _ _ _ _ _ _ _ _ o _ _ _ _) := o.
Definition st_limit '(SelectState _ _ _ _ _ _ _ _ _ _ l _ _ _) := l.
Definition st_offset '(SelectState _ _ _ _ _ _ _ _ _ _ _ o _ _) := o.
Definition st_joins '(SelectState _ _ _ _ _ _ _ _ _ _ _ _ j _) := j.
Definition st_compound '(SelectState _ _ _ _ _ _ _ _ _ _ _ _ _ c) := c.

(** [SelectState(model=m, fields=fs)]: every other field at its default. *)
Definition select_state_of (m : mid) (fs : list selectable) : select_state :=
  SelectState m fs None false false None [] [] [] [] None None [] None.

(** [result_models()]: the base model, then each joined model in join order. *)
Definition result_models (st : select_state) : list mid :=
  st_model st :: map join_model (st_joins st).

(** ** Sources and definitions *)

Record output_slot := OutputSlot {
  slot_label : string;
  slot_token : option positive;
  slot_types : list ltype;
  slot_nullable : option bool;
  slot_encode_comparison : pyval -> res pyval;
  slot_encode_sum : pyval -> res pyval;
  slot_native_profile : res (value_type * bool)
}.

Record output_layout := OutputLayout {
  layout_slots : list output_slot; layout_presence_name : string }.

Record cte_definition := CteDefinition {
  def_name : string;
  def_state : select_state;
  def_recursive_step : option select_state;
  def_recursive_seed : option did;
  def_is_recursive_seed : bool;
  def_layout : output_layout
}.

(** What a source class is: a table model, a [_AliasRelation], a
    [_CteRelation] or its subclass [_CompoundRelation]. *)
Inductive rel_kind :=
  | RkTable
  | RkAlias (source : mid) (role : positive)
  | RkCte (definition : did) (role : positive)
  | RkCompound (definition : did) (role : positive).

(** The attributes of a source class that queries read: [__name__],
    [__tablename__], [__snekql_backend__], [__snekql_columns__]. *)
Record relation := Relation {
  rel_name : string;
  rel_table_name : option string;
  rel_backend : option backend;
  rel_columns : option (list (string * attr));
  rel_kind_of : rel_kind
}.

(** ** Dialects: [QueryDialect] without the EXPLAIN entries *)

Record query_dialect := QueryDialect {
  conflict_do_nothing_sql : list string -> res string;
  conflict_update_sql : list string -> string -> string;
  current_timestamp_sql : attr -> res string;
  empty_insert_sql : string -> string;
  encode_column_value : attr -> pyval -> res pyval;
  encode_sum_value : attr -> pyval -> res pyval;
  encode_write_value : attr -> pyval -> res pyval;
  inserted_value_sql : string -> string;
  offset_only_limit_sql : string;
  placeholder : string;
  quote_identifier : string -> string;
  integer_literal_sql : option (string -> string);
  char_length_function : option string;
  for_update_sql : option (lock_wait -> string);
  supports_delete_returning : bool;
  supports_update_returning : bool
}.

(** The world of classes and definitions a query refers to, Python's
    [str.casefold] and the dialect registry [_QUERY_DIALECTS]. *)
Record env := Env {
  env_relations : gmap positive relation;
  env_definitions : gmap positive cte_definition;
  env_casefold : string -> string;
  env_dialects : backend -> option query_dialect
}.

(** ** Accessors of [model.py] *)

Definition require_model_columns (E : env) (m : mid) : res (list (string * attr)) :=
  match env_relations E !! m ≫= rel_columns with
  | Some cs => Ok cs
  | None => raise ModelDeclarationError "schema setup requires snekql table models"
  end.

Definition require_model_table_name (E : env) (m : mid) : res string :=
  match env_relations E !! m ≫= rel_table_name with
  | Some n => Ok n
  | None => raise ModelDeclarationError "schema setup requires snekql table models"
  end.

Definition require_model_backend (E : env) (m : mid) : res backend :=
  match env_relations E !! m ≫= rel_backend with
  | Some b => Ok b
  | None => raise ModelDeclarationError "schema setup requires snekql table models"
  end.

(** [issubclass(m, _AliasRelation)], [issubclass(m, _CteRelation)] and
    [issubclass(m, _CompoundRelation)], with the attributes they carry. *)
Definition alias_of (E : env) (m : mid) : option (mid * positive) :=
  match rel_kind_of <$> env_relations E !! m with
  | Some (RkAlias s r) => Some (s, r)
  | _ => None
  end.

Definition cte_of (E : env) (m : mid) : option (did * positive) :=
  match rel_kind_of <$> env_relations E !! m with
  | Some (RkCte d r) | Some (RkCompound d r) => Some (d, r)
  | _ => None
  end.

Definition is_cte (E : env) (m : mid) : bool := bool_decide (is_Some (cte_of E m)).
Definition is_alias (E : env) (m : mid) : bool := bool_decide (is_Some (alias_of E m)).
Definition is_compound (E : env) (m : mid) : bool :=
  match rel_kind_of <$> env_relations E !! m with Some (RkCompound _ _) => true | _ => false end.

(** [m.definition], for a [_CteRelation]. *)
Definition relation_definition (E : env) (m : mid) : res cte_definition :=
  match '(d, _) ← cte_of E m; env_definitions E !! d with
  | Some d => Ok d
  | None => raise OtherError "no definition"
  end.

(** ** Accessors of [_query_state.py] *)

Definition require_field (s : selectable) : res attr :=
  match s with
  | SAttr a => Ok a
  | _ => raise QueryConstructionError "select requires a model or field"
  end.

Definition require_selectable (s : selectable) : res selectable :=
  match s with
  | SOther => raise QueryConstructionError "select requires a model or field"
  | _ => Ok s
  end.

Definition require_subquery_state (q : option select_state) : res select_state :=
  match q with
  | Some st => Ok st
  | None => raise QueryConstructionError "a subquery requires a select query"
  end.

Definition require_single_column_subquery (q : option select_state) : res select_state :=
  st ← require_subquery_state q;
  match st_returns_model st, st_projection st, st_fields st with
  | false, None, [_] => Ok st
  | _, _, _ => raise QueryConstructionError
                 "a subquery value set must select exactly one column"
  end.

Definition require_column_name (c : attr) : res string :=
  match attr_name c with
  | Some n => Ok n
  | None => raise QueryConstructionError "field is not bound to a model"
  end.

(** [getattr(column, "_query_relation", column.owner)] *)
Definition attr_relation (c : attr) : option mid :=
  match attr_query_relation c with Some r => Some r | None => attr_owner c end.

(** A [ModelDeclarationError] of the column lookup becomes a
    [QueryConstructionError] with message [m]. *)
Definition bound_to_table (E : env) (m : string) (owner : mid) : res mid :=
  match require_model_columns E owner with
  | Ok _ => Ok owner
  | Raise e => if decide (exn_class e = ModelDeclarationError)
               then raise QueryConstructionError m else Raise e
  end.

Definition require_column_model (E : env) (c : attr) : res mid :=
  match attr_relation c with
  | None => raise QueryConstructionError "field is not bound to a model"
  | Some owner => bound_to_table E "field is not bound to a table model" owner
  end.

(** [__owner_model__] of the [SqlCompilable] operands; [None] for an operand
    that is not one. *)
Definition compilable_owner (s : selectable) : option (res mid) :=
  match s with
  | SValue (ValueExpression _ _ _ owner _) => Some (Ok owner)
  | SCteOutput _ r => Some (Ok r)
  | STablePresence m _ => Some (Ok m)
  | SCtePresence r => Some (Ok r)
  | SLiteral _ _ => Some (raise QueryConstructionError
                            "a literal cannot supply FROM; use select(Model).project(...)")
  | _ => None
  end.

Definition selectable_owner_model (E : env) (s : selectable) : res mid :=
  match s with
  | SAttr a => require_column_model E a
  | SScalar _ => raise QueryConstructionError "a scalar subquery has no single owning table"
  | SAggregate _ column owner =>
      match column with
      | Some (SAttr a) => require_column_model E a
      | Some c =>
          match compilable_owner c with
          | Some o => o
          | None => match owner with
                    | None => raise QueryConstructionError
                                "aggregate is not bound to a table model"
                    | Some o => bound_to_table E "aggregate is not bound to a table model" o
                    end
          end
      | None => match owner with
                | None => raise QueryConstructionError
                            "aggregate is not bound to a table model"
                | Some o => bound_to_table E "aggregate is not bound to a table model" o
                end
      end
  | _ => match compilable_owner s with
         | Some o => o
         | None => raise OtherError "AttributeError: column"
         end
  end.

(** ** Write statements *)

(** The right-hand side of an assignment: a value, an expression, or the
    markers [InsertedValue] and [CurrentTimestamp]. *)
Inductive assign_value :=
  | AvValue (v : pyval)
  | AvExpression (e : value_expression)
  | AvInsertedValue
  | AvCurrentTimestamp.

(** [as_id] is the object's identity. *)
Record assignment := Assignment {
  as_id : positive; as_column : option selectable; as_value : assign_value }.

Inductive conflict_action :=
  | DoUpdate (assignments : list assignment)
  | DoNothing.

(** A model instance: [isinstance(row, Model)], its class, its state name and
    its attributes; [None] is [PENDING_GENERATION]. *)
Record model_row := ModelRow {
  row_is_model : bool;
  row_class : mid;
  row_state_name : string;
  row_attrs : list (string * option pyval)
}.

Record insert_state := InsertState {
  ins_rows : list model_row;
  ins_destination : option mid;
  ins_conflict_action : option conflict_action;
  ins_conflict_targets : list attr;
  ins_projection : option named_projection;
  ins_returning : bool;
  ins_returning_fields : list selectable;
  ins_multi : bool
}.

Record update_state := UpdateState {
  upd_model : mid;
  upd_assignments : list assignment;
  upd_explicit_all : bool;
  upd_predicates : list predicate;
  upd_projection : option named_projection;
  upd_returning : bool;
  upd_returning_fields : list selectable
}.

Record delete_state := DeleteState {
  del_model : mid;
  del_explicit_all : bool;
  del_predicates : list predicate;
  del_projection : option named_projection;
  del_returning : bool;
  del_returning_fields : list selectable
}.

Inductive query :=
  | QSelect (st : select_state)
  | QInsert (st : insert_state)
  | QUpdate (st : update_state)
  | QDelete (st : delete_state)
  | QOther.

(** [InsertState.model()] *)
Definition insert_model (st : insert_state) : option mid :=
  match ins_destination st with
  | Some d => Some d
  | None => match ins_rows st with [] => None | r :: _ => Some (row_class r) end
  end.

Definition require_insert_model (r : model_row) : res mid :=
  if negb (row_is_model r)
  then raise QueryConstructionError "insert requires a snekql model instance"
  else if negb (String.eqb (row_state_name r) "Pending")
  then raise QueryConstructionError "insert requires a Pending model instance"
  else Ok (row_class r).

(** Dictionary lookup in a table's columns. *)
Fixpoint assoc {A} (k : string) (l : list (string * A)) : option A :=
  match l with
  | [] => None
  | (n, a) :: l' => if String.eqb n k then Some a else assoc k l'
  end.

Definition require_model_returning_fields (E : env) (model_class : option mid)
    (fields : list selectable) : res (list selectable) :=
  columns ← match model_class with
            | None => Ok None
            | Some m => cs ← require_model_columns E m; Ok (Some cs)
            end;
  mapR (fun field =>
    column ← require_field field;
    name ← require_column_name column;
    owner ← require_column_model E column;
    _ ← match columns with
        | None => Ok tt
        | Some cs =>
            guardR (bool_decide (is_Some (assoc name cs))
                      && bool_decide (Some owner = model_class))
              QueryConstructionError "returning() column must belong to the written model"
        end;
    Ok (SAttr column)) fields.

Definition require_returning_fields (E : env) (st : insert_state) (fields : list selectable)
    : res (list selectable) :=
  require_model_returning_fields E (insert_model st) fields.

(** ** The structural surface of predicate nodes ([expressions.py]) *)

Definition predicate_operand (p : predicate) : option selectable :=
  match p with
  | ComparisonPredicate o _ _ | NullPredicate o _ | MembershipPredicate o _ _
  | BetweenPredicate o _ _ | LikePredicate o _ _ | ColumnComparisonPredicate o _ _
  | SubqueryMembershipPredicate o _ _ => Some o
  | _ => None
  end.

Definition predicate_children (p : predicate) : list predicate :=
  match p with
  | CompoundPredicate _ cs => cs
  | NegatedPredicate c => [c]
  | _ => []
  end.

(** [__predicate_subquery__]: the subquery object a node carries. *)
Definition predicate_subquery (p : predicate) : option (option select_state) :=
  match p with
  | SubqueryMembershipPredicate _ q _ | ExistencePredicate q _ => Some q
  | _ => None
  end.

Inductive subquery_arity := AritySingleColumn | AritySelect.

Definition predicate_subquery_arity (p : predicate) : option subquery_arity :=
  match p with
  | SubqueryMembershipPredicate _ _ _ => Some AritySingleColumn
  | ExistencePredicate _ _ => Some AritySelect
  | _ => None
  end.

Definition predicate_nested_selects (p : predicate) : list (option select_state) :=
  match p with
  | ColumnComparisonPredicate _ _ (SScalar q) => [q]
  | ColumnComparisonPredicate _ _ _ => []
  | _ => match predicate_subquery p with None => [] | Some q => [q] end
  end.

Definition predicate_grouping_operands (p : predicate) : list selectable :=
  match p with
  | ColumnComparisonPredicate o _ (SScalar _) => [o]
  | ColumnComparisonPredicate o _ other => [o; other]
  | _ => match predicate_operand p with None => [] | Some o => [o] end
  end.

(** ** Induction over the whole syntax *)

Definition opt_all {A} (P : A -> Prop) (o : option A) : Prop :=
  match o with Some a => P a | None => True end.

Section ast_induction.
Context (Ps : selectable -> Prop) (Pe : value_expression -> Prop) (Pr : ve_root -> Prop)
  (Po : ve_operand -> Prop) (Pp : predicate -> Prop) (Pq : select_state -> Prop).
Context
  (Hattr : forall a, Ps (SAttr a))
  (Hagg : forall f c o, opt_all Ps c -> Ps (SAggregate f c o))
  (Hscalar : forall q, opt_all Pq q -> Ps (SScalar q))
  (Hvalue : forall e, Pe e -> Ps (SValue e))
  (Hcte : forall p r, Ps (SCteOutput p r))
  (Hlit : forall f z, Ps (SLiteral f z))
  (Htp : forall m n, Ps (STablePresence m n))
  (Hcp : forall r, Ps (SCtePresence r))
  (Hother : Ps SOther)
  (Hexpr : forall c n t o ops,
     Pr c -> Forall (fun x => Po (snd x)) ops -> Pe (ValueExpression c n t o ops))
  (Hcol : forall s, Ps s -> Pr (VRColumn s))
  (Hcase : forall p cs o t, Pp p -> Po o -> Po t -> Pr (VRCase p cs o t))
  (Hvlit : forall v, Po (VOLit v))
  (Hvexpr : forall e, Pe e -> Po (VOExpr e))
  (Hcmp : forall s op v, Ps s -> Pp (ComparisonPredicate s op v))
  (Hnull : forall s n, Ps s -> Pp (NullPredicate s n))
  (Hmem : forall s vs n, Ps s -> Pp (MembershipPredicate s vs n))
  (Hbtw : forall s l h, Ps s -> Pp (BetweenPredicate s l h))
  (Hlike : forall s p n, Ps s -> Pp (LikePredicate s p n))
  (Hccmp : forall s op s', Ps s -> Ps s' -> Pp (ColumnComparisonPredicate s op s'))
  (Hsub : forall s q n, Ps s -> opt_all Pq q -> Pp (SubqueryMembershipPredicate s q n))
  (Hex : forall q n, opt_all Pq q -> Pp (ExistencePredicate q n))
  (Hcompound : forall op cs, Forall Pp cs -> Pp (CompoundPredicate op cs))
  (Hneg : forall c, Pp c -> Pp (NegatedPredicate c))
  (Hstate : forall m fs proj rm dist lock preds grps hav ords lim off joins cmp,
     Forall Ps fs -> Forall Pp preds -> Forall Ps grps -> Forall Pp hav ->
     Forall (fun o => opt_all Ps (ob_column o)) ords ->
     Forall (fun j => Pp (join_predicate j)) joins ->
     opt_all (fun c => Pq (cmp_left c) /\ Pq (cmp_right c)) cmp ->
     Pq (SelectState m fs proj rm dist lock preds grps hav ords lim off joins cmp)).

Definition forall_list {A} (P : A -> Prop) (f : forall a, P a) : forall l, Forall P l :=
  fix go l := match l with
              | [] => List.Forall_nil _
              | x :: l' => List.Forall_cons _ _ _ (f x) (go l')
              end.
Definition forall_opt {A} (P : A -> Prop) (f : forall a, P a) (o : option A) : opt_all P o :=
  match o with Some a => f a | None => I end.

Fixpoint ast_sel (s : selectable) : Ps s :=
  match s with
  | SAttr a => Hattr a
  | SAggregate f c o => Hagg f c o (forall_opt Ps ast_sel c)
  | SScalar q => Hscalar q (forall_opt Pq ast_state q)
  | SValue e => Hvalue e (ast_ve e)
  | SCteOutput p r => Hcte p r
  | SLiteral f z => Hlit f z
  | STablePresence m n => Htp m n
  | SCtePresence r => Hcp r
  | SOther => Hother
  end
with ast_ve (e : value_expression) : Pe e :=
  match e with
  | ValueExpression c n t o ops =>
      Hexpr c n t o ops (ast_root c)
        (forall_list (fun x : ve_operator * ve_operand => Po (snd x))
           (fun x => match x with (_, y) => ast_operand y end) ops)
  end
with ast_root (r : ve_root) : Pr r :=
  match r with
  | VRColumn s => Hcol s (ast_sel s)
  | VRCase p cs o t => Hcase p cs o t (ast_pred p) (ast_operand o) (ast_operand t)
  end
with ast_operand (o : ve_operand) : Po o :=
  match o with
  | VOLit v => Hvlit v
  | VOExpr e => Hvexpr e (ast_ve e)
  end
with ast_pred (p : predicate) : Pp p :=
  match p with
  | ComparisonPredicate s op v => Hcmp s op v (ast_sel s)
  | NullPredicate s n => Hnull s n (ast_sel s)
  | MembershipPredicate s vs n => Hmem s vs n (ast_sel s)
  | BetweenPredicate s l h => Hbtw s l h (ast_sel s)
  | LikePredicate s x n => Hlike s x n (ast_sel s)
  | ColumnComparisonPredicate s op s' => Hccmp s op s' (ast_sel s) (ast_sel s')
  | SubqueryMembershipPredicate s q n => Hsub s q n (ast_sel s) (forall_opt Pq ast_state q)
  | ExistencePredicate q n => Hex q n (forall_opt Pq ast_state q)
  | CompoundPredicate op cs => Hcompound op cs (forall_list Pp ast_pred cs)
  | NegatedPredicate c => Hneg c (ast_pred c)
  end
with ast_state (q : select_state) : Pq q :=
  match q with
  | SelectState m fs proj rm dist lock preds grps hav ords lim off joins cmp =>
      Hstate m fs proj rm dist lock preds grps hav ords lim off joins cmp
        (forall_list Ps ast_sel fs) (forall_list Pp ast_pred preds)
        (forall_list Ps ast_sel grps) (forall_list Pp ast_pred hav)
        (forall_list (fun o : order_by_of selectable => opt_all Ps (ob_column o))
           (fun o => match o with OrderBy c _ => forall_opt Ps ast_sel c end) ords)
        (forall_list (fun j : join_spec_of predicate => Pp (join_predicate j))
           (fun j => match j with JoinSpec _ _ p => ast_pred p end) joins)
        (match cmp with
         | Some (CompoundSpec l r _) => conj (ast_state l) (ast_state r)
         | None => I
         end)
  end.

Lemma ast_all : (forall s, Ps s) /\ (forall e, Pe e) /\ (forall o, Po o) /\ (forall p, Pp p) /\
  (forall q, Pq q).
Proof. exact (conj ast_sel (conj ast_ve (conj ast_operand (conj ast_pred ast_state)))). Qed.
End ast_induction.
