(* ===== verification/Dialects.v ===== *)
(** * The two query dialects

    [sqlite/_dialect_sql.py] and [mariadb/_dialect_sql.py], and the interface
    [LawfulDialect]: what the compiler relies on of a dialect's SQL pieces.
    A column's codec ([Attr.encode], driven by pydantic) is the argument
    [col_encode]. *)

From S2P Require Export SqlText QueryState.

(** [Attr.require_current_timestamp], through [Attr._temporal_type]. *)
Definition temporal_type (c : attr) : option ltype :=
  match attr_owner c, attr_name c with
  | Some _, Some _ =>
      if decide (TUtcDatetime ∈ attr_core_types c) then Some TUtcDatetime
      else if decide (TLocalDatetime ∈ attr_core_types c) then Some TLocalDatetime
      else if decide (TZonedDatetime ∈ attr_core_types c) then Some TZonedDatetime
      else None
  | _, _ => None
  end.

Definition require_current_timestamp (c : attr) : res unit :=
  guardR (bool_decide (temporal_type c = Some TUtcDatetime))
    QueryConstructionError "CurrentTimestamp requires a UtcDatetime column".

(** The keyword arguments of a call of [Attr.encode]. *)
Record encode_call := EncodeCall { ec_backend : backend; ec_write : bool; ec_integer_sum : bool }.
Definition codec := encode_call -> attr -> pyval -> res pyval.

(** ** SQLite *)

Module SqliteSql.

Definition current_timestamp_sql (c : attr) : res string :=
  _ ← require_current_timestamp c;
  Ok "strftime('%Y-%m-%dT%H:%M:%f', 'now') || '000Z'".

Definition conflict_do_nothing_sql (targets : list string) : res string :=
  Ok (" ON CONFLICT (" +:+ join ", " targets +:+ ") DO NOTHING").

Definition conflict_update_sql (targets : list string) (assignments : string) : string :=
  " ON CONFLICT (" +:+ join ", " targets +:+ ") DO UPDATE SET " +:+ assignments.

Definition empty_insert_sql (quoted_table : string) : string :=
  "INSERT INTO " +:+ quoted_table +:+ " DEFAULT VALUES".

Definition encode_write_value (col_encode : codec) (c : attr) (v : pyval) : res pyval :=
  col_encode (EncodeCall BSqlite true false) c v.

Definition encode_column_value (col_encode : codec) (c : attr) (v : pyval) : res pyval :=
  col_encode (EncodeCall BSqlite false false) c v.

Definition inserted_value_sql (quoted_column : string) : string :=
  "excluded." +:+ quoted_column.

End SqliteSql.

Definition SQLITE_QUERY_DIALECT (col_encode : codec) : query_dialect := {|
  conflict_do_nothing_sql := SqliteSql.conflict_do_nothing_sql;
  conflict_update_sql := SqliteSql.conflict_update_sql;
  current_timestamp_sql := SqliteSql.current_timestamp_sql;
  empty_insert_sql := SqliteSql.empty_insert_sql;
  encode_column_value := SqliteSql.encode_column_value col_encode;
  encode_sum_value := SqliteSql.encode_column_value col_encode;
  encode_write_value := SqliteSql.encode_write_value col_encode;
  inserted_value_sql := SqliteSql.inserted_value_sql;
  offset_only_limit_sql := "LIMIT -1";
  placeholder := "?";
  quote_identifier := Sqlite.quote_identifier;
  integer_literal_sql := None;
  char_length_function := Some "LENGTH";
  for_update_sql := None;
  supports_delete_returning := true;
  supports_update_returning := true
|}.

(** ** MariaDB *)

Module MariadbSql.

Definition current_timestamp_sql (c : attr) : res string :=
  _ ← require_current_timestamp c;
  if String.eqb (attr_storage_type_name c) "DateTime"
  then Ok ("CURRENT_TIMESTAMP("
             +:+ match attr_datetime_precision c with Some n => str_nat n | None => "None" end
             +:+ ")")
  else Ok "CONCAT(REPLACE(CURRENT_TIMESTAMP(6), ' ', 'T'), 'Z')".

Definition conflict_do_nothing_sql (targets : list string) : res string :=
  match targets with
  | [] => raise IndexError "tuple index out of range"
  | target :: _ => Ok (" ON DUPLICATE KEY UPDATE " +:+ target +:+ " = " +:+ target)
  end.

Definition conflict_update_sql (_ : list string) (assignments : string) : string :=
  " ON DUPLICATE KEY UPDATE " +:+ assignments.

Definition empty_insert_sql (quoted_table : string) : string :=
  "INSERT INTO " +:+ quoted_table +:+ " () VALUES ()".

Definition encode_write_value (col_encode : codec) (c : attr) (v : pyval) : res pyval :=
  col_encode (EncodeCall BMariadb true false) c v.

Definition encode_column_value (col_encode : codec) (c : attr) (v : pyval) : res pyval :=
  col_encode (EncodeCall BMariadb false false) c v.

(** [finite_decimal v] is [isinstance(v, Decimal) and v.is_finite()]. *)
Definition encode_sum_value (col_encode : codec) (finite_decimal : pyval -> bool)
    (c : attr) (v : pyval) : res pyval :=
  if String.eqb (attr_storage_type_name c) "Integer"
  then col_encode (EncodeCall BMariadb false true) c v
  else if negb (String.eqb (attr_storage_type_name c) "Decimal") || is_none v
  then encode_column_value col_encode c v
  else if finite_decimal v then Ok v
  else raise ModelValidationError "native Decimal SUM comparison requires a finite Decimal".

Definition inserted_value_sql (quoted_column : string) : string :=
  "VALUES(" +:+ quoted_column +:+ ")".

Definition for_update_sql (wait : lock_wait) : string :=
  match wait with
  | LwBlock => "FOR UPDATE"
  | LwNowait => "FOR UPDATE NOWAIT"
  | LwSkipLocked => "FOR UPDATE SKIP LOCKED"
  end.

Definition integer_literal_sql (placeholder : string) : string :=
  "CAST(CAST(" +:+ placeholder +:+ " AS DECIMAL(19, 0)) AS SIGNED)".

End MariadbSql.

Definition MARIADB_QUERY_DIALECT (col_encode : codec) (finite_decimal : pyval -> bool)
    : query_dialect := {|
  conflict_do_nothing_sql := MariadbSql.conflict_do_nothing_sql;
  conflict_update_sql := MariadbSql.conflict_update_sql;
  current_timestamp_sql := MariadbSql.current_timestamp_sql;
  empty_insert_sql := MariadbSql.empty_insert_sql;
  encode_column_value := MariadbSql.encode_column_value col_encode;
  encode_sum_value := MariadbSql.encode_sum_value col_encode finite_decimal;
  encode_write_value := MariadbSql.encode_write_value col_encode;
  inserted_value_sql := MariadbSql.inserted_value_sql;
  offset_only_limit_sql := "LIMIT 18446744073709551615";
  placeholder := "%s";
  quote_identifier := Mariadb.quote_query_identifier;
  integer_literal_sql := Some MariadbSql.integer_literal_sql;
  char_length_function := Some "CHAR_LENGTH";
  for_update_sql := Some MariadbSql.for_update_sql;
  supports_delete_returning := false;
  supports_update_returning := false
|}.

(** The registry [_QUERY_DIALECTS] once both namespaces are imported. *)
Definition query_dialects (col_encode : codec) (finite_decimal : pyval -> bool) (b : backend)
    : option query_dialect :=
  match b with
  | BSqlite => Some (SQLITE_QUERY_DIALECT col_encode)
  | BMariadb => Some (MARIADB_QUERY_DIALECT col_encode finite_decimal)
  end.

Definition query_dialect_for_backend (E : env) (b : backend) : res query_dialect :=
  match env_dialects E b with
  | Some d => Ok d
  | None => raise QueryCompilationError "no query dialect registered for backend"
  end.

(** ** The interface *)

Class LawfulDialect (S : PlaceholderSyntax) (d : query_dialect) := {
  law_placeholder : frag 1 (placeholder d);
  law_quote : forall s, frag 0 (quote_identifier d s);
  law_conflict_nothing : forall ts s,
    Forall (frag 0) ts -> conflict_do_nothing_sql d ts = Ok s -> frag 0 s;
  law_conflict_update : forall ts n a,
    Forall (frag 0) ts -> frag n a -> frag n (conflict_update_sql d ts a);
  law_timestamp : forall c s, current_timestamp_sql d c = Ok s -> frag 0 s;
  law_empty_insert : forall t, frag 0 t -> frag 0 (empty_insert_sql d t);
  law_inserted : forall c, frag 0 c -> frag 0 (inserted_value_sql d c);
  law_offset : frag 0 (offset_only_limit_sql d);
  law_for_update : forall f w, for_update_sql d = Some f -> frag 0 (f w);
  law_char_length : forall f, char_length_function d = Some f -> frag 0 f
}.

(** An integer-literal renderer keeps the one placeholder it is given. *)
Definition lawful_literals (S : PlaceholderSyntax) (E : env) : Prop :=
  forall b d f s, env_dialects E b = Some d -> integer_literal_sql d = Some f ->
                  frag 1 s -> frag 1 (f s).

(** See a concrete count as an instance of the interface. *)
Ltac as_frag S :=
  repeat match goal with
  | |- qmark_frag ?n ?s => change (@frag S n s)
  | |- fmt_frag ?n ?s => change (@frag S n s)
  | H : qmark_frag ?n ?s |- _ => change (@frag S n s) in H
  | H : fmt_frag ?n ?s |- _ => change (@frag S n s) in H
  end.

#[export] Instance sqlite_lawful col_encode :
  LawfulDialect qmark_syntax (SQLITE_QUERY_DIALECT col_encode).
Proof.
  pose (S := qmark_syntax).
  split; simpl.
  - done.
  - intros s. apply sqlite_quote_frag.
  - unfold SqliteSql.conflict_do_nothing_sql. intros ts s Hts H; res_inv. as_frag S.
    pose proof (frag_join_0 (S := S) ", " ts ltac:(plain_text) Hts). frag_solve.
  - unfold SqliteSql.conflict_update_sql. intros ts n a Hts Ha.
    pose proof (frag_join_0 (S := S) ", " ts ltac:(plain_text) Hts).
    as_frag S. frag_solve.
  - unfold SqliteSql.current_timestamp_sql. intros c s H; res_inv. done.
  - intros t Ht. unfold SqliteSql.empty_insert_sql. as_frag S. frag_solve.
  - intros t Ht. unfold SqliteSql.inserted_value_sql. as_frag S. frag_solve.
  - done.
  - done.
  - intros f H; by simplify_eq.
Qed.

#[export] Instance mariadb_lawful col_encode finite_decimal :
  LawfulDialect fmt_syntax (MARIADB_QUERY_DIALECT col_encode finite_decimal).
Proof.
  pose (S := fmt_syntax).
  split; simpl.
  - done.
  - intros s. apply mariadb_quote_frag.
  - intros [|t ts] s Hts H; simpl in H; res_inv. inversion Hts; subst. as_frag S. frag_solve.
  - intros ts n a Hts Ha. unfold MariadbSql.conflict_update_sql. as_frag S. frag_solve.
  - unfold MariadbSql.current_timestamp_sql. intros c s H. res_inv. as_frag S.
    destruct (String.eqb _ _); simplify_eq; [|done].
    destruct (attr_datetime_precision c) as [n|]; [|plain_text].
    pose proof (frag_str_nat (H := S) n). frag_solve.
  - intros t Ht. unfold MariadbSql.empty_insert_sql. as_frag S. frag_solve.
  - intros t Ht. unfold MariadbSql.inserted_value_sql. as_frag S. frag_solve.
  - done.
  - intros f [] H; by simplify_eq.
  - intros f H; by simplify_eq.
Qed.

Lemma query_dialects_lawful_literals S E col_encode finite_decimal :
  env_dialects E = query_dialects col_encode finite_decimal -> lawful_literals S E.
Proof.
  intros HE b d f s. rewrite HE. intros Hd Hf Hs.
  destruct b; simplify_eq/=. unfold MariadbSql.integer_literal_sql. frag_solve.
Qed.
