(* ===== verification/Examples.v ===== *)
(** * A small concrete world

    Two tables, an alias, a CTE and a CTE over it, for the concrete instances
    of the theorems.  Nothing here models code. *)

From S2P Require Export Dialects.

Definition users : mid := 1%positive.
Definition orders : mid := 2%positive.
Definition boss : mid := 3%positive.      (* an alias of [users] *)
Definition totals : mid := 4%positive.    (* a CTE over [orders] *)
Definition top : mid := 5%positive.       (* a CTE over [totals] *)

Definition int_column (id : positive) (name : string) (owner : mid) (nullable : bool) : attr :=
  Attr id (Some name) (Some owner) None nullable "INTEGER" "Integer" None false [TInt].
Definition text_column (id : positive) (name : string) (owner : mid) (nullable : bool) : attr :=
  Attr id (Some name) (Some owner) None nullable "TEXT" "Text" None false [TStr].
Definition rebind (r : mid) (a : attr) : attr :=
  Attr (attr_id a) (attr_name a) (attr_owner a) (Some r) (attr_nullable a)
    (attr_storage_class a) (attr_storage_type_name a) (attr_datetime_precision a)
    (attr_is_json a) (attr_core_types a).

Definition user_id : attr := int_column 1 "id" users false.
Definition user_name : attr := text_column 2 "name?" users true.
Definition boss_id : attr := rebind boss user_id.
Definition order_user : attr := int_column 3 "user_id" orders false.
Definition order_amount : attr := int_column 4 "amount" orders false.
Definition order_bonus : attr := int_column 5 "bonus" orders true.

Definition users_columns := [("id", user_id); ("name?", user_name)].
Definition orders_columns :=
  [("user_id", order_user); ("amount", order_amount); ("bonus", order_bonus)].

Definition int_slot (label : string) : output_slot :=
  OutputSlot label None [TInt] (Some false) Ok Ok (Ok (VtInt, false)).
Definition int_projection (label : string) : named_projection :=
  NamedProjection [label] 100 [label] [].

(** [select(Order).project(Row, user_id=Order.user_id)] *)
Definition totals_state : select_state :=
  SelectState orders [SAttr order_user] (Some (int_projection "user_id")) false true None
    [] [] [] [] None None [] None.
Definition totals_definition : cte_definition :=
  CteDefinition "totals" totals_state None None false
    (OutputLayout [int_slot "user_id"] "__snekql_present").
Definition top_state : select_state :=
  SelectState totals [SCteOutput 0 totals] (Some (int_projection "user_id")) false false None
    [] [] [] [] None None [] None.
Definition top_definition : cte_definition :=
  CteDefinition "top" top_state None None false
    (OutputLayout [int_slot "user_id"] "__snekql_present").

Definition ascii_lower (c : Ascii.ascii) : Ascii.ascii :=
  let n := Ascii.nat_of_ascii c in
  if (65 <=? n) && (n <=? 90) then Ascii.ascii_of_nat (n + 32) else c.
Fixpoint string_lower (s : string) : string :=
  match s with EmptyString => EmptyString | String c s => String (ascii_lower c) (string_lower s) end.

(** A codec that stores every value as it is. *)
Definition plain_codec : codec := fun _ _ v => Ok v.

Definition demo_relations (b : backend) : gmap positive relation :=
  list_to_map
    [ (users, Relation "User" (Some "users") (Some b) (Some users_columns) RkTable);
      (orders, Relation "Order" (Some "orders") (Some b) (Some orders_columns) RkTable);
      (boss, Relation "boss" (Some "boss") (Some b)
               (Some (map (fun x => (fst x, rebind boss (snd x))) users_columns))
               (RkAlias users 1%positive));
      (totals, Relation "totals" (Some "totals") (Some b) None (RkCte 1%positive 2%positive));
      (top, Relation "top" (Some "top") (Some b) None (RkCte 2%positive 3%positive)) ].

Definition demo (b : backend) : env :=
  Env (demo_relations b)
    (list_to_map [(1%positive, totals_definition); (2%positive, top_definition)])
    string_lower (query_dialects plain_codec (fun _ => false)).

Lemma string_lower_app a b : string_lower (a +:+ b) = string_lower a +:+ string_lower b.
Proof. induction a as [|x a IH]; [done|]. rewrite string_app_cons. simpl. by rewrite IH. Qed.

(** A decoding world: values are driver values, every column is stored as it is. *)
Definition demo_int (v : pyval) : res pyval :=
  match v with PInt _ => Ok v | PBool b => Ok (PInt (if b then 1 else 0))
             | _ => raise ValueError "int()" end.
Definition demo_float (v : pyval) : res pyval :=
  match v with PFloat _ => Ok v | _ => raise ValueError "float()" end.
Definition demo_decode (a : attr) (b : backend) (validate : bool) (v : pyval) : res pyval :=
  if is_none v && negb (attr_nullable a) then raise ModelValidationError "null" else Ok v.
Definition demo_validate (t : positive) (values : list (string * pyval))
    : option (list (string * pyval)) := Some values.

(** Every CTE of the world has a named contract. *)
Lemma demo_contracts b m def :
  relation_definition (demo b) m = Ok def -> is_Some (st_projection (def_state def)).
Proof.
  unfold relation_definition. destruct (cte_of (demo b) m) as [[d r]|]; simpl; [|done].
  intros H. case_match eqn:Hd; [|done]. injection H as <-.
  apply lookup_insert_Some in Hd as [[_ <-]|[_ Hd]]; [by eexists|].
  apply lookup_insert_Some in Hd as [[_ <-]|[_ Hd]]; [by eexists|done].
Qed.
