(* ===== verification/ValueExpr.v ===== *)
(** * Typed SQL value composition

    [_value_expression.py], [_case.py] and the construction part of
    [_literal.py], with a semantics of the SQL they build against which the
    nullability flags are proved sound. *)

From S2P Require Export Examples.

Definition ve_column '(ValueExpression c _ _ _ _) := c.
Definition ve_nullable '(ValueExpression _ n _ _ _) := n.
Definition ve_value_type '(ValueExpression _ _ t _ _) := t.
Definition ve_owner '(ValueExpression _ _ _ o _) := o.
Definition ve_operations '(ValueExpression _ _ _ _ ops) := ops.

(** An argument of a builder method: an expression object or a literal. *)
Inductive expr_arg := ArgOperand (s : selectable) | ArgLiteral (v : pyval).

Definition int64_min : Z := (- 2 ^ 63)%Z.
Definition int64_max : Z := (2 ^ 63 - 1)%Z.

(** ** Native literals *)

(** [type(value) in allowed_types], [allowed_types] being [(int, float)] for
    [float] and the value type alone otherwise: [bool] is never allowed. *)
Definition native_literal_type_ok (vt : value_type) (v : pyval) : bool :=
  match vt, v with
  | _, PNone => true
  | VtInt, PInt _ => true
  | VtFloat, PInt _ => true
  | VtFloat, PFloat _ => true
  | VtStr, PStr _ => true
  | _, _ => false
  end.

Definition encode_native_literal (vt : value_type) (v : pyval) : res pyval :=
  _ ← guardR (native_literal_type_ok vt v) QueryConstructionError
        "expression literal does not match the value domain";
  match v with
  | PInt z =>
      if ((- 2 ^ 63 <=? z) && (z <? 2 ^ 63))%Z then Ok v
      else raise QueryConstructionError
             "arithmetic literal exceeds the signed 64-bit integer range"
  | PFloat f =>
      if float_isfinite f then Ok v
      else raise QueryConstructionError "arithmetic requires finite floating literals"
  | _ => Ok v
  end.

(** [build_integer_literal] *)
Definition build_integer_literal (value : pyval) (family : backend) : res selectable :=
  match value with
  | PInt z => _ ← encode_native_literal VtInt (PInt z); Ok (SLiteral family z)
  | _ => raise QueryConstructionError "literal requires a native integer value"
  end.

(** ** Column reads of an expression ([__referenced_columns__]) *)

Fixpoint ve_referenced_columns (e : value_expression) : list selectable :=
  match e with
  | ValueExpression c _ _ _ ops =>
      root_referenced_columns c ++
      (fix go (l : list (ve_operator * ve_operand)) : list selectable :=
         match l with
         | [] => []
         | (_, o) :: l' => operand_referenced_columns o ++ go l'
         end) ops
  end
with root_referenced_columns (r : ve_root) : list selectable :=
  match r with
  | VRColumn c => [c]
  | VRCase _ cs otherwise then_ =>
      cs ++ operand_referenced_columns then_ ++ operand_referenced_columns otherwise
  end
with operand_referenced_columns (o : ve_operand) : list selectable :=
  match o with
  | VOLit _ => []
  | VOExpr e => ve_referenced_columns e
  end.

(** ** Operands *)

(** [Attr.__value_operand__] *)
Definition attr_value_operand (a : attr) : res value_expression :=
  if attr_is_json a then
    raise QueryConstructionError "native value expressions do not support JSON-encoded columns"
  else
    vt ← (if decide (attr_core_types a = [TInt] /\ attr_storage_class a = "INTEGER")
          then Ok VtInt
          else if decide (attr_core_types a = [TFloat] /\ attr_storage_class a = "REAL")
          then Ok VtFloat
          else if decide (attr_core_types a = [TStr] /\ attr_storage_class a = "TEXT")
          then Ok VtStr
          else raise QueryConstructionError
                 "expressions require native integer, real, or text storage with matching logical types");
    match attr_relation a with
    | None => raise QueryConstructionError "arithmetic requires a bound column"
    | Some owner => Ok (ValueExpression (VRColumn (SAttr a)) (attr_nullable a) vt owner [])
    end.

(** [relation.definition.layout.slots[position]] *)
Definition output_slot_of (E : env) (position : nat) (r : mid) : res output_slot :=
  d ← relation_definition E r;
  match layout_slots (def_layout d) !! position with
  | Some s => Ok s
  | None => raise IndexError "tuple index out of range"
  end.

(** [__value_operand__] of the [ExpressionMethods] objects; [None] for an
    object that has no such method. *)
Definition value_operand (E : env) (s : selectable) : option (res value_expression) :=
  match s with
  | SAttr a => Some (attr_value_operand a)
  | SValue e => Some (Ok e)
  | SCteOutput p r =>
      Some (slot ← output_slot_of E p r;
            '(vt, nullable) ← slot_native_profile slot;
            Ok (ValueExpression (VRColumn s) nullable vt r []))
  | _ => None
  end.

Definition numeric_operand (E : env) (s : selectable) : res value_expression :=
  match value_operand E s with
  | None => raise OtherError "AttributeError: __value_operand__"
  | Some r =>
      e ← r;
      _ ← guardR (bool_decide (ve_value_type e = VtInt \/ ve_value_type e = VtFloat))
            QueryConstructionError "arithmetic requires a native numeric value";
      Ok e
  end.

(** ** Composition *)

Definition operand_nullable (o : ve_operand) : bool :=
  match o with VOExpr e => ve_nullable e | VOLit v => is_none v end.

Definition is_coalesce (op : ve_operator) : bool :=
  match op with VCoalesce => true | _ => false end.

(** [float(right)] when the fallback of a float COALESCE is an [int]. *)
Definition coerce_fallback (op : ve_operator) (vt : value_type) (v : pyval) : pyval :=
  match op, vt, v with
  | VCoalesce, VtFloat, PInt z => PFloat (float_of_int z)
  | _, _, _ => v
  end.

Definition compose (E : env) (operand : value_expression) (op : ve_operator) (value : expr_arg)
    : res value_expression :=
  right ← match value with
          | ArgOperand s =>
              match value_operand E s with
              | Some r =>
                  e ← r;
                  _ ← guardR (bool_decide (ve_owner e = ve_owner operand)) QueryConstructionError
                        "expression operands must belong to the same query source";
                  _ ← guardR (bool_decide (ve_value_type e = ve_value_type operand))
                        QueryConstructionError
                        "expression operands require matching value domains";
                  Ok (VOExpr e)
              | None => raise QueryConstructionError
                          "expression literal does not match the value domain"
              end
          | ArgLiteral v =>
              v' ← encode_native_literal (ve_value_type operand) v;
              Ok (VOLit (coerce_fallback op (ve_value_type operand) v'))
          end;
  let nullable :=
    if is_coalesce op then ve_nullable operand && operand_nullable right
    else ve_nullable operand || operand_nullable right in
  Ok (ValueExpression (ve_column operand) nullable (ve_value_type operand) (ve_owner operand)
        (ve_operations operand ++ [(op, right)])).

Definition ve_add (E : env) (self : selectable) (value : expr_arg) : res value_expression :=
  e ← numeric_operand E self; compose E e VAdd value.
Definition ve_sub (E : env) (self : selectable) (value : expr_arg) : res value_expression :=
  e ← numeric_operand E self; compose E e VSub value.
Definition ve_mul (E : env) (self : selectable) (value : expr_arg) : res value_expression :=
  e ← numeric_operand E self; compose E e VMul value.

Definition value_operand_of (E : env) (self : selectable) : res value_expression :=
  match value_operand E self with
  | None => raise OtherError "AttributeError: __value_operand__"
  | Some r => r
  end.

Definition ve_coalesce (E : env) (self : selectable) (fallback : expr_arg)
    : res value_expression :=
  e ← value_operand_of E self; compose E e VCoalesce fallback.

Definition text_function (E : env) (self : selectable) (op : ve_operator) (result : value_type)
    (msg : string) : res value_expression :=
  e ← value_operand_of E self;
  _ ← guardR (bool_decide (ve_value_type e = VtStr)) QueryConstructionError msg;
  Ok (ValueExpression (ve_column e) (ve_nullable e) result (ve_owner e)
        (ve_operations e ++ [(op, VOLit PNone)])).

Definition ve_lower (E : env) (self : selectable) : res value_expression :=
  text_function E self VLower VtStr "lower() requires a native text expression".
Definition ve_char_length (E : env) (self : selectable) : res value_expression :=
  text_function E self VCharLength VtInt "char_length() requires a native text expression".

(** ** NULL extension ([__nullable_when_extended__]) *)

Definition fold_nullable (op : ve_operator) (nullable right_nullable : bool) : bool :=
  match op with
  | VLower | VCharLength => nullable
  | VCoalesce => nullable && right_nullable
  | _ => nullable || right_nullable
  end.

Fixpoint nullable_when_extended (e : value_expression) : bool :=
  match e with
  | ValueExpression c _ _ _ ops =>
      (fix go (nullable : bool) (l : list (ve_operator * ve_operand)) : bool :=
         match l with
         | [] => nullable
         | (op, o) :: l' => go (fold_nullable op nullable (operand_when_extended o)) l'
         end) (root_when_extended c) ops
  end
with root_when_extended (r : ve_root) : bool :=
  match r with
  | VRColumn _ => true
  | VRCase _ _ otherwise then_ => operand_when_extended then_ || operand_when_extended otherwise
  end
with operand_when_extended (o : ve_operand) : bool :=
  match o with
  | VOLit v => is_none v
  | VOExpr e => nullable_when_extended e
  end.

(** ** CASE ([_case.py]) *)

(** [_condition_inputs] *)
Fixpoint condition_inputs (p : predicate) : res (list selectable) :=
  _ ← guardR (match predicate_subquery_arity p, p with
              | Some _, _ => false
              | _, ColumnComparisonPredicate _ _ (SScalar _) => false
              | _, _ => true
              end)
        QueryConstructionError "CASE conditions do not yet support subqueries";
  own ← mapR (fun operand =>
           match operand with
           | SValue e => Ok (ve_referenced_columns e)
           | _ => a ← require_field operand; Ok [SAttr a]
           end) (predicate_grouping_operands p);
  nested ← match p with
           | CompoundPredicate _ cs => mapR condition_inputs cs
           | NegatedPredicate c => x ← condition_inputs c; Ok [x]
           | _ => Ok []
           end;
  Ok (concat own ++ concat nested).

(** The branch object after [branch.__value_operand__()]. *)
Definition case_branch (E : env) (b : expr_arg) : res ve_operand :=
  match b with
  | ArgLiteral v => Ok (VOLit v)
  | ArgOperand s => match value_operand E s with
                    | Some r => e ← r; Ok (VOExpr e)
                    | None => raise QueryConstructionError
                        "CASE requires compatible native branches and at least one typed branch"
                    end
  end.

(** The domain of a branch that is not [None]: a [value_type] or the Python
    type of a literal ([None] here stands for any other type). *)
Definition branch_domain (b : ve_operand) : list (option value_type) :=
  match b with
  | VOExpr e => [Some (ve_value_type e)]
  | VOLit PNone => []
  | VOLit (PInt _) => [Some VtInt]
  | VOLit (PFloat _) => [Some VtFloat]
  | VOLit (PStr _) => [Some VtStr]
  | VOLit _ => [None]
  end.

Definition branch_is_int_expr (b : ve_operand) : bool :=
  match b with VOExpr e => bool_decide (ve_value_type e = VtInt) | _ => false end.

(** The single native domain of the two branches. *)
Definition case_domain (b1 b2 : ve_operand) : res value_type :=
  match branch_domain b1 ++ branch_domain b2 with
  | [Some t] => Ok t
  | [Some t1; Some t2] =>
      if decide (t1 = t2) then Ok t1
      else if bool_decide ((t1, t2) = (VtInt, VtFloat) \/ (t1, t2) = (VtFloat, VtInt))
                && negb (branch_is_int_expr b1 || branch_is_int_expr b2)
      then Ok VtFloat
      else raise QueryConstructionError
             "CASE requires compatible native branches and at least one typed branch"
  | _ => raise QueryConstructionError
           "CASE requires compatible native branches and at least one typed branch"
  end.

(** [encoded] and [normalized], for one branch. *)
Definition case_normalize (vt : value_type) (b : ve_operand) : res ve_operand :=
  match b with
  | VOExpr _ => Ok b
  | VOLit v =>
      v' ← encode_native_literal vt v;
      Ok (VOLit match vt, v' with VtFloat, PInt z => PFloat (float_of_int z) | _, _ => v' end)
  end.

Definition build_case (E : env) (condition : predicate) (then_ otherwise : expr_arg)
    (family : backend) : res value_expression :=
  columns ← condition_inputs condition;
  first ← match columns with
          | [] => raise QueryConstructionError
                    "CASE requires a condition owned by one query source"
          | c :: _ => Ok c
          end;
  a ← require_field first;
  owner ← require_column_model E a;
  b ← require_model_backend E owner;
  _ ← guardR (bool_decide (b = family)) QueryConstructionError
        "CASE condition belongs to another backend";
  _ ← iterR (fun c => a' ← require_field c; o ← require_column_model E a';
               guardR (bool_decide (o = owner)) QueryConstructionError
                 "CASE conditions must reference one query source") columns;
  b1 ← case_branch E then_;
  b2 ← case_branch E otherwise;
  vt ← case_domain b1 b2;
  _ ← iterR (fun b => match b with
                      | VOExpr e => guardR (bool_decide (ve_owner e = owner)) QueryConstructionError
                          "CASE branches must reference the condition's query source"
                      | VOLit _ => Ok tt
                      end) [b1; b2];
  n1 ← case_normalize vt b1;
  n2 ← case_normalize vt b2;
  Ok (ValueExpression (VRCase condition columns n2 n1)
        (operand_nullable b1 || operand_nullable b2) vt owner []).

(** ** Expressions as callers can build them *)

Inductive built (E : env) : value_expression -> Prop :=
  | built_column s e :
      match s with SAttr _ | SCteOutput _ _ => True | _ => False end ->
      value_operand E s = Some (Ok e) -> built E e
  | built_arith op e v e' :
      built E e -> built_arg E v -> op ∈ [VAdd; VSub; VMul] ->
      (x ← numeric_operand E (SValue e); compose E x op v) = Ok e' -> built E e'
  | built_coalesce e v e' :
      built E e -> built_arg E v -> ve_coalesce E (SValue e) v = Ok e' -> built E e'
  | built_lower e e' : built E e -> ve_lower E (SValue e) = Ok e' -> built E e'
  | built_char_length e e' : built E e -> ve_char_length E (SValue e) = Ok e' -> built E e'
  | built_case_expr p t o f e :
      built_arg E t -> built_arg E o -> build_case E p t o f = Ok e -> built E e
with built_arg (E : env) : expr_arg -> Prop :=
  | built_literal v : built_arg E (ArgLiteral v)
  | built_operand s :
      match s with SValue _ => False | _ => True end -> built_arg E (ArgOperand s)
  | built_value e : built E e -> built_arg E (ArgOperand (SValue e)).

Scheme built_ind' := Induction for built Sort Prop
  with built_arg_ind' := Induction for built_arg Sort Prop.

(** ** What the database computes

    [rho] gives the stored value of each column of the row ([None] is NULL),
    [tau] the truth of a CASE condition given the values of its columns; [bin]
    and [un] are the database's arithmetic and text functions on values that are
    not NULL.  Arithmetic on two values may still give NULL: SQLite stores NULL
    for a NaN, so [1e308 * 10 - 1e308 * 10] is NULL there. *)

Section eval.
Context {V : Type} (lit : pyval -> V) (bin : ve_operator -> V -> V -> option V)
  (un : ve_operator -> V -> V) (rho : selectable -> option V)
  (tau : predicate -> list (option V) -> bool).

Definition eval_literal (v : pyval) : option V := if is_none v then None else Some (lit v).

Definition eval_operation (op : ve_operator) (left : option V) (right : option V) : option V :=
  match op with
  | VLower | VCharLength => un op <$> left
  | VCoalesce => match left with Some x => Some x | None => right end
  | _ => x ← left; y ← right; bin op x y
  end.

Fixpoint eval_ve (e : value_expression) : option V :=
  match e with
  | ValueExpression c _ _ _ ops =>
      (fix go (left : option V) (l : list (ve_operator * ve_operand)) : option V :=
         match l with
         | [] => left
         | (op, o) :: l' => go (eval_operation op left (eval_operand o)) l'
         end) (eval_root c) ops
  end
with eval_root (r : ve_root) : option V :=
  match r with
  | VRColumn c => rho c
  | VRCase p cs otherwise then_ =>
      if tau p (map rho cs) then eval_operand then_ else eval_operand otherwise
  end
with eval_operand (o : ve_operand) : option V :=
  match o with
  | VOLit v => eval_literal v
  | VOExpr e => eval_ve e
  end.

(** Whether the evaluation meets an arithmetic step on two values that gives
    NULL.  The right side of a COALESCE whose left side is a value is not
    evaluated, and of a CASE the chosen branch only. *)
Definition step_vanishes (op : ve_operator) (left right : option V) : bool :=
  match op, left, right with
  | (VAdd | VSub | VMul), Some x, Some y => match bin op x y with None => true | _ => false end
  | _, _, _ => false
  end.

Definition reads_right (op : ve_operator) (left : option V) : bool :=
  match op, left with
  | (VLower | VCharLength), _ | VCoalesce, Some _ => false
  | _, _ => true
  end.

Definition vanish_next (op : ve_operator) (left right : option V) (before within : bool) : bool :=
  before || (reads_right op left && within) || step_vanishes op left right.

Fixpoint ve_vanishes (e : value_expression) : bool :=
  match e with
  | ValueExpression c _ _ _ ops =>
      (fix go (left : option V) (before : bool) (l : list (ve_operator * ve_operand)) : bool :=
         match l with
         | [] => before
         | (op, o) :: l' => go (eval_operation op left (eval_operand o))
                              (vanish_next op left (eval_operand o) before (operand_vanishes o)) l'
         end) (eval_root c) (root_vanishes c) ops
  end
with root_vanishes (r : ve_root) : bool :=
  match r with
  | VRColumn _ => false
  | VRCase p cs otherwise then_ =>
      if tau p (map rho cs) then operand_vanishes then_ else operand_vanishes otherwise
  end
with operand_vanishes (o : ve_operand) : bool :=
  match o with
  | VOLit _ => false
  | VOExpr e => ve_vanishes e
  end.
End eval.

(** ** Domains

    The domain an expression computes in when the database converts no operand,
    but for an integer literal on the right of real arithmetic ([Float.add(1)],
    which the database computes in REAL).  An integer column, expression or
    CASE on either side of real arithmetic has no domain here, nor has text
    beside a number. *)

Inductive otype := ONull | OType (t : value_type) | OBad.
#[export] Instance otype_eq_dec : EqDecision otype.
Proof. solve_decision. Defined.

Definition otype_join (a b : otype) : otype :=
  match a, b with
  | OBad, _ | _, OBad => OBad
  | ONull, t | t, ONull => t
  | OType t, OType t' => if decide (t = t') then OType t else OBad
  end.

Definition literal_type (v : pyval) : otype :=
  match v with
  | PNone => ONull
  | PInt z => if ((- 2 ^ 63 <=? z) && (z <? 2 ^ 63))%Z then OType VtInt else OBad
  | PFloat f => if float_isfinite f then OType VtFloat else OBad
  | PStr _ => OType VtStr
  | _ => OBad
  end.

Definition is_literal (o : ve_operand) : bool := match o with VOLit _ => true | VOExpr _ => false end.

Definition operation_type (op : ve_operator) (left : otype) (literal : bool) (right : otype)
    : otype :=
  match op, left, right with
  | VLower, OType VtStr, _ => OType VtStr
  | VCharLength, OType VtStr, _ => OType VtInt
  | VLower, _, _ | VCharLength, _, _ => OBad
  | VCoalesce, _, _ => otype_join left right
  | _, OType VtStr, _ => OBad
  | _, OType VtFloat, OType VtInt => if literal then OType VtFloat else OBad
  | _, _, _ => otype_join left right
  end.

Fixpoint ve_type (E : env) (e : value_expression) : otype :=
  match e with
  | ValueExpression c _ _ _ ops =>
      (fix go (left : otype) (l : list (ve_operator * ve_operand)) : otype :=
         match l with
         | [] => left
         | (op, o) :: l' => go (operation_type op left (is_literal o) (operand_type E o)) l'
         end) (root_type E c) ops
  end
with root_type (E : env) (r : ve_root) : otype :=
  match r with
  | VRColumn c => match value_operand E c with Some (Ok e) => OType (ve_value_type e) | _ => OBad end
  | VRCase _ _ otherwise then_ => otype_join (operand_type E then_) (operand_type E otherwise)
  end
with operand_type (E : env) (o : ve_operand) : otype :=
  match o with
  | VOLit v => literal_type v
  | VOExpr e => ve_type E e
  end.

(** The query source a column read belongs to. *)
Definition read_owner (s : selectable) : option mid :=
  match s with
  | SAttr a => attr_relation a
  | SCteOutput _ r => Some r
  | _ => None
  end.

(** No CASE anywhere in the expression. *)
Fixpoint case_free (e : value_expression) : bool :=
  match e with
  | ValueExpression c _ _ _ ops =>
      match c with VRColumn _ => true | VRCase _ _ _ _ => false end &&
      forallb (fun x => match snd x with VOLit _ => true | VOExpr e' => case_free e' end) ops
  end.

(** ** Induction *)

Section ve_induction.
Context (P : value_expression -> Prop) (Pr : ve_root -> Prop) (Po : ve_operand -> Prop).
Context (Hexpr : forall c n t o ops,
           Pr c -> Forall (fun x => Po (snd x)) ops -> P (ValueExpression c n t o ops)).
Context (Hcol : forall s, Pr (VRColumn s)).
Context (Hcase : forall p cs o t, Po o -> Po t -> Pr (VRCase p cs o t)).
Context (Hlit : forall v, Po (VOLit v)) (Hop : forall e, P e -> Po (VOExpr e)).

Fixpoint ve_mut (e : value_expression) : P e :=
  match e with
  | ValueExpression c n t o ops =>
      Hexpr c n t o ops (root_mut c)
        ((fix go l : Forall (fun x => Po (snd x)) l :=
            match l with
            | [] => List.Forall_nil _
            | x :: l' => List.Forall_cons _ _ _ (operand_mut (snd x)) (go l')
            end) ops)
  end
with root_mut (r : ve_root) : Pr r :=
  match r with
  | VRColumn s => Hcol s
  | VRCase p cs o t => Hcase p cs o t (operand_mut o) (operand_mut t)
  end
with operand_mut (o : ve_operand) : Po o :=
  match o with
  | VOLit v => Hlit v
  | VOExpr e => Hop e (ve_mut e)
  end.
End ve_induction.

(** The operation loops as left folds. *)
Lemma eval_ve_fold {V} lit (bin : ve_operator -> V -> V -> option V) un rho tau c n t o ops :
  eval_ve lit bin un rho tau (ValueExpression c n t o ops) =
  foldl (fun acc x => eval_operation bin un (fst x) acc (eval_operand lit bin un rho tau (snd x)))
    (eval_root lit bin un rho tau c) ops.
Proof.
  simpl. generalize (eval_root lit bin un rho tau c).
  induction ops as [|[op x] ops IH]; intros; simpl; [done|apply IH].
Qed.

Lemma evaluation_fold {V} lit (bin : ve_operator -> V -> V -> option V) un rho tau c n t o ops :
  (eval_ve lit bin un rho tau (ValueExpression c n t o ops),
   ve_vanishes lit bin un rho tau (ValueExpression c n t o ops)) =
  foldl (fun acc x =>
           (eval_operation bin un (fst x) (fst acc) (eval_operand lit bin un rho tau (snd x)),
            vanish_next bin (fst x) (fst acc) (eval_operand lit bin un rho tau (snd x)) (snd acc)
              (operand_vanishes lit bin un rho tau (snd x))))
    (eval_root lit bin un rho tau c, root_vanishes lit bin un rho tau c) ops.
Proof.
  simpl. generalize (eval_root lit bin un rho tau c), (root_vanishes lit bin un rho tau c).
  induction ops as [|[op x] ops IH]; intros; simpl; [done|apply IH].
Qed.

Lemma nullable_when_extended_fold c n t o ops :
  nullable_when_extended (ValueExpression c n t o ops) =
  foldl (fun acc x => fold_nullable (fst x) acc (operand_when_extended (snd x)))
    (root_when_extended c) ops.
Proof.
  simpl. generalize (root_when_extended c).
  induction ops as [|[op x] ops IH]; intros; simpl; [done|apply IH].
Qed.

Lemma ve_type_fold E c n t o ops :
  ve_type E (ValueExpression c n t o ops) =
  foldl (fun acc x => operation_type (fst x) acc (is_literal (snd x)) (operand_type E (snd x))) (root_type E c) ops.
Proof.
  simpl. generalize (root_type E c).
  induction ops as [|[op x] ops IH]; intros; simpl; [done|apply IH].
Qed.

Lemma ve_referenced_columns_concat c n t o ops :
  ve_referenced_columns (ValueExpression c n t o ops) =
  root_referenced_columns c ++ concat (map (fun x => operand_referenced_columns (snd x)) ops).
Proof.
  simpl. f_equal. induction ops as [|[op x] ops IH]; simpl; [done|by rewrite IH].
Qed.

(** ** What the builders build *)

Lemma encode_native_literal_Ok vt v v' :
  encode_native_literal vt v = Ok v' ->
  v' = v /\ (literal_type v = ONull \/ literal_type v = OType vt \/
             (vt = VtFloat /\ literal_type v = OType VtInt)).
Proof.
  unfold encode_native_literal. intros H. res_inv.
  destruct vt, v; simpl in *; try discriminate; simplify_eq; try (by auto);
    repeat case_match; simplify_eq; by auto.
Qed.

(** The operand a builder appends to [e] for operator [op]. *)
Definition appended (P : value_expression -> Prop) (e : value_expression) (op : ve_operator)
    (right : ve_operand) : Prop :=
  match right with
  | VOExpr e2 => P e2 /\ ve_owner e2 = ve_owner e /\ ve_value_type e2 = ve_value_type e
  | VOLit v => exists v0, encode_native_literal (ve_value_type e) v0 = Ok v0 /\
                          v = coerce_fallback op (ve_value_type e) v0
  end.

Lemma compose_inv E e op v e' :
  compose E e op v = Ok e' ->
  exists right,
    e' = ValueExpression (ve_column e)
           (if is_coalesce op then ve_nullable e && operand_nullable right
            else ve_nullable e || operand_nullable right)
           (ve_value_type e) (ve_owner e) (ve_operations e ++ [(op, right)]) /\
    appended (fun e2 => exists s, v = ArgOperand s /\ value_operand E s = Some (Ok e2)) e op right.
Proof.
  unfold compose. intros H; res_inv. eexists; split; [reflexivity|]. simpl.
  destruct v as [s|v]; simpl in *.
  - destruct (value_operand E s) as [[e2|]|] eqn:Hs; simpl in Hv; res_inv. simpl.
    split; [by exists s|]. case_bool_decide; [|done]. case_bool_decide; done.
  - res_inv. simpl. destruct (encode_native_literal_Ok _ _ _ Hv0) as [-> _]. by exists v.
Qed.

(** The branch [n] of a CASE of domain [vt], normalized from [b]. *)
Definition case_operand (P : value_expression -> Prop) (owner : mid) (vt : value_type)
    (b n : ve_operand) : Prop :=
  match b with
  | VOExpr e => n = b /\ P e /\ ve_owner e = owner
  | VOLit v => exists v', encode_native_literal vt v = Ok v' /\
      n = VOLit match vt, v' with VtFloat, PInt z => PFloat (float_of_int z) | _, _ => v' end
  end.

Lemma case_branch_inv E b x (P : value_expression -> Prop) owner vt n :
  case_branch E b = Ok x ->
  (forall e, x = VOExpr e -> P e /\ ve_owner e = owner) ->
  case_normalize vt x = Ok n -> case_operand P owner vt x n.
Proof.
  intros Hb HP Hn. destruct x as [v|e]; simpl in *; res_inv; [by eauto|].
  by destruct (HP e eq_refl).
Qed.

Lemma case_domain_cases b1 b2 vt :
  case_domain b1 b2 = Ok vt ->
  (forall e, b1 = VOExpr e -> ve_value_type e = vt) /\
  (forall e, b2 = VOExpr e -> ve_value_type e = vt).
Proof.
  destruct b1 as [[]|e1], b2 as [[]|e2]; unfold case_domain; simpl; intros H; split;
    intros e He; simplify_eq;
    repeat match goal with
    | H : Ok _ = Ok _ |- _ => injection H as H
    | H : context [decide ?x] |- _ => destruct (decide x); try congruence
    | H : context [bool_decide ?x] |- _ => case_bool_decide
    | H : context [if ?x then _ else _] |- _ => destruct x eqn:?; try discriminate
    end; destruct_or?; simplify_eq; try congruence; try (destruct (ve_value_type _); naive_solver).
Qed.

Section built_ind.
Context (E : env) (P : value_expression -> Prop).
Context (Hcol : forall s e, match s with SAttr _ | SCteOutput _ _ => True | _ => False end ->
                            value_operand E s = Some (Ok e) -> P e).
Context (Hext : forall e op right,
  P e -> appended P e op right -> op ∈ [VAdd; VSub; VMul; VCoalesce] ->
  (op ∈ [VAdd; VSub; VMul] -> ve_value_type e = VtInt \/ ve_value_type e = VtFloat) ->
  P (ValueExpression (ve_column e)
       (if is_coalesce op then ve_nullable e && operand_nullable right
        else ve_nullable e || operand_nullable right)
       (ve_value_type e) (ve_owner e) (ve_operations e ++ [(op, right)]))).
Context (Htext : forall e op vt,
  P e -> ve_value_type e = VtStr -> (op, vt) ∈ [(VLower, VtStr); (VCharLength, VtInt)] ->
  P (ValueExpression (ve_column e) (ve_nullable e) vt (ve_owner e)
       (ve_operations e ++ [(op, VOLit PNone)]))).
Context (Hcase : forall p columns b1 b2 n1 n2 vt owner,
  case_domain b1 b2 = Ok vt ->
  case_operand P owner vt b1 n1 -> case_operand P owner vt b2 n2 ->
  Forall (fun c => exists a, require_field c = Ok a /\ require_column_model E a = Ok owner) columns ->
  P (ValueExpression (VRCase p columns n2 n1) (operand_nullable b1 || operand_nullable b2)
       vt owner [])).

Definition arg_ok (v : expr_arg) : Prop :=
  forall s e, v = ArgOperand s -> value_operand E s = Some (Ok e) -> P e.

Lemma compose_ok e op v e' :
  P e -> arg_ok v -> op ∈ [VAdd; VSub; VMul; VCoalesce] ->
  (op ∈ [VAdd; VSub; VMul] -> ve_value_type e = VtInt \/ ve_value_type e = VtFloat) ->
  compose E e op v = Ok e' -> P e'.
Proof.
  intros He Hv Hop Ht H. apply compose_inv in H as (right & -> & Hr).
  apply Hext; [done| |done|done].
  destruct right as [|e2]; simpl in *; [done|]. destruct Hr as ((s & -> & Hs) & ?).
  split; [by eapply Hv|done].
Qed.

Lemma text_function_ok e op vt m e' :
  P e -> (op, vt) ∈ [(VLower, VtStr); (VCharLength, VtInt)] ->
  text_function E (SValue e) op vt m = Ok e' -> P e'.
Proof.
  intros He Hop H. unfold text_function in H. simpl in H. res_inv.
  case_bool_decide; [|done]. by apply Htext.
Qed.

Lemma case_branch_ok b x e : arg_ok b -> case_branch E b = Ok x -> x = VOExpr e -> P e.
Proof.
  intros Hb H ->. destruct b as [s|v]; simpl in H; [|done].
  destruct (value_operand E s) as [r|] eqn:Hs; [|done]. res_inv. by eapply Hb.
Qed.

Lemma build_case_ok p t o f e :
  arg_ok t -> arg_ok o -> build_case E p t o f = Ok e -> P e.
Proof.
  intros Ht Ho H. unfold build_case in H.
  bind_inv H as columns Hcs. bind_inv H as first Hfirst. bind_inv H as a Ha.
  bind_inv H as owner Howner. bind_inv H as b Hb. bind_inv H as u1 Hu1.
  bind_inv H as u2 Hall. bind_inv H as b1 Hb1. bind_inv H as b2 Hb2.
  bind_inv H as vt Hvt. bind_inv H as u3 Hown. bind_inv H as n1 Hn1.
  bind_inv H as n2 Hn2. injection H as <-.
  destruct u2, u3. apply iterR_Ok in Hown. rewrite !Forall_cons in Hown.
  destruct Hown as (Ho1 & Ho2 & _).
  eapply Hcase; [exact Hvt| | |].
  - eapply case_branch_inv; [exact Hb1| |exact Hn1]. intros e' ->.
    split; [exact (case_branch_ok _ _ _ Ht Hb1 eq_refl)|].
    by apply guardR_Ok, bool_decide_eq_true in Ho1.
  - eapply case_branch_inv; [exact Hb2| |exact Hn2]. intros e' ->.
    split; [exact (case_branch_ok _ _ _ Ho Hb2 eq_refl)|].
    by apply guardR_Ok, bool_decide_eq_true in Ho2.
  - apply iterR_Ok in Hall. eapply Forall_impl; [exact Hall|]. simpl. intros c Hc.
    bind_inv Hc as a' Ha'. bind_inv Hc as o' Ho'. apply guardR_Ok, bool_decide_eq_true in Hc. subst. eauto.
Qed.

Lemma built_ops_ind e : built E e -> P e.
Proof.
  intros H.
  induction H as [s e Hs Hv|op e v e' _ He _ Hv Hop Hc|e v e' _ He _ Hv Hc|e e' _ He Hc
                 |e e' _ He Hc|p t o f e _ Ht _ Ho Hc|v|s Hs|e _ He] using built_ind'
    with (P0 := fun v _ => arg_ok v).
  - by eapply Hcol.
  - bind_inv Hc as x Hx. unfold numeric_operand in Hx. simpl in Hx.
    bind_inv Hx as u Hu. injection Hx as <-. apply guardR_Ok, bool_decide_eq_true in Hu.
    apply (compose_ok e op v e'); try done. set_solver.
  - apply (compose_ok e VCoalesce v e'); try done; set_solver.
  - eapply text_function_ok; [exact He| |exact Hc]. left.
  - eapply text_function_ok; [exact He| |exact Hc]. right; left.
  - exact (build_case_ok _ _ _ _ _ Ht Ho Hc).
  - by intros ? ? ?.
  - intros s' e' Hs' Hv. injection Hs' as <-. destruct s; try done; (eapply Hcol; [|exact Hv]; done).
  - intros s' e' Hs Hv. injection Hs as <-. simpl in Hv. by injection Hv as <-.
Qed.
End built_ind.

Lemma coerce_fallback_none op vt v : is_none (coerce_fallback op vt v) = is_none v.
Proof. by destruct op, vt, v. Qed.

Lemma value_operand_column E s e :
  match s with SAttr _ | SCteOutput _ _ => True | _ => False end ->
  value_operand E s = Some (Ok e) ->
  exists n t o, e = ValueExpression (VRColumn s) n t o [] /\ read_owner s = Some o.
Proof.
  intros Hs H. destruct s as [a| | | |p r| | | |]; try done; simpl in *.
  - injection H as H. unfold attr_value_operand in H.
    destruct (attr_is_json a); [done|]. bind_inv H as vt Hvt.
    destruct (attr_relation a) eqn:Ho; [|done]. injection H as <-. eauto 6.
  - injection H as H. bind_inv H as slot Hslot. bind_inv H as tn Htn. destruct tn as [vt n].
    injection H as <-. eauto 6.
Qed.

Lemma built_reads_owner E e :
  built E e -> Forall (fun c => read_owner c = Some (ve_owner e)) (ve_referenced_columns e).
Proof.
  revert e. refine (built_ops_ind E _ _ _ _ _).
  - intros s e Hs H. destruct (value_operand_column _ _ _ Hs H) as (n & t & o & -> & Ho).
    by repeat constructor.
  - intros [c n t o ops] op right He Hr _ _. rewrite ve_referenced_columns_concat in *.
    simpl in *. rewrite map_app, concat_app. simpl. rewrite app_nil_r, app_assoc.
    apply Forall_app; split; [done|].
    destruct right as [|e2]; simpl in *; [constructor|]. by destruct Hr as (H2 & <- & _).
  - intros [c n t o ops] op vt He _ _. rewrite ve_referenced_columns_concat in *.
    simpl in *. rewrite map_app, concat_app. simpl. by rewrite !app_nil_r.
  - intros p cs b1 b2 n1 n2 vt owner _ H1 H2 Hcs. simpl. rewrite app_nil_r.
    apply Forall_app; split; [|apply Forall_app; split].
    + eapply Forall_impl; [exact Hcs|]. simpl. intros c (a & Ha & Ho).
      destruct c; simpl in *; simplify_eq/=. unfold require_column_model in Ho.
      destruct (attr_relation _) as [r|]; [|done]. unfold bound_to_table in Ho.
      repeat case_match; simplify_eq/=; done.
    + destruct b1; simpl in H1; [destruct H1 as (v' & _ & ->); constructor|].
      destruct H1 as (-> & ? & <-). done.
    + destruct b2; simpl in H2; [destruct H2 as (v' & _ & ->); constructor|].
      destruct H2 as (-> & ? & <-). done.
Qed.

(** Two left folds over the same operations stay related. *)
Lemma foldl_rel {A B C} (R : A -> B -> Prop) (f : A -> C -> A) (g : B -> C -> B) l a b :
  R a b -> Forall (fun x => forall a b, R a b -> R (f a x) (g b x)) l ->
  R (foldl f a l) (foldl g b l).
Proof.
  intros Hab Hl. revert a b Hab. induction Hl as [|x l Hx Hl IH]; intros a b Hab; simpl; auto.
Qed.

(** The nullability of an evaluation (its value, and whether an arithmetic step
    vanished) is never under-reported. *)
Definition null_covered {V} (acc : option V * bool) (b : bool) : Prop :=
  b = false -> snd acc = false -> is_Some (fst acc).

Definition evaluated {V} (lit : pyval -> V) bin un rho tau e : option V * bool :=
  (eval_ve lit bin un rho tau e, ve_vanishes lit bin un rho tau e).
Definition operand_evaluated {V} (lit : pyval -> V) bin un rho tau o : option V * bool :=
  (eval_operand lit bin un rho tau o, operand_vanishes lit bin un rho tau o).

Lemma null_covered_step {V} (bin : ve_operator -> V -> V -> option V) un op a b r rb :
  null_covered r rb -> null_covered a b ->
  null_covered (eval_operation bin un op (fst a) (fst r),
                vanish_next bin op (fst a) (fst r) (snd a) (snd r)) (fold_nullable op b rb).
Proof.
  unfold null_covered, vanish_next. destruct a as [a na], r as [r nr]; simpl.
  intros Hr Ha Hb [[Hna Hnr]%orb_false_iff Hs]%orb_false_iff.
  destruct a as [x|], op; simpl in *; try (by eauto);
    try (apply orb_false_iff in Hb as [Hb Hrb]);
    try (by destruct (Ha ltac:(assumption) ltac:(assumption))).
  1-3: destruct (Hr Hrb Hnr) as [y Hy]; simplify_eq/=; by case_match.
  apply andb_false_iff in Hb as [Hb|Hb]; [by destruct (Ha Hb Hna)|by apply Hr].
Qed.

Lemma null_exact_step {V} (bin : ve_operator -> V -> V -> option V) un op a b r rb :
  (rb = true -> r = None) -> (b = true -> a = None) ->
  fold_nullable op b rb = true -> eval_operation bin un op a r = None.
Proof.
  intros Hr Ha. destruct a as [x|], r as [y|], op, b, rb; simpl in *; intros;
    try (by auto); try discriminate; try (by discriminate (Ha eq_refl));
    by discriminate (Hr eq_refl).
Qed.

Lemma nullable_when_extended_covers {V} (lit : pyval -> V) bin un rho tau e :
  null_covered (evaluated lit bin un rho tau e) (nullable_when_extended e).
Proof.
  apply (ve_mut
    (fun e => null_covered (evaluated lit bin un rho tau e) (nullable_when_extended e))
    (fun r => null_covered (eval_root lit bin un rho tau r, root_vanishes lit bin un rho tau r)
                (root_when_extended r))
    (fun o => null_covered (operand_evaluated lit bin un rho tau o) (operand_when_extended o))).
  - intros c n t o ops Hc Hops. unfold evaluated.
    rewrite evaluation_fold, nullable_when_extended_fold.
    apply foldl_rel; [done|]. eapply Forall_impl; [exact Hops|]. simpl. intros x Hx a b.
    by apply (null_covered_step bin un (fst x) a b (operand_evaluated lit bin un rho tau (snd x))).
  - intros s H. done.
  - intros p cs o t Ho Ht H. simpl in *. apply orb_false_iff in H as [H1 H2].
    destruct (tau p (map rho cs)); [by apply Ht|by apply Ho].
  - intros v H _. simpl in *. unfold eval_literal. rewrite H. eauto.
  - intros e' H. exact H.
Qed.

Lemma nullable_when_extended_case_free {V} (lit : pyval -> V) bin un rho tau e :
  case_free e = true -> Forall (fun c => rho c = None) (ve_referenced_columns e) ->
  nullable_when_extended e = true -> eval_ve lit bin un rho tau e = None.
Proof.
  apply (ve_mut
    (fun e => case_free e = true -> Forall (fun c => rho c = None) (ve_referenced_columns e) ->
              nullable_when_extended e = true -> eval_ve lit bin un rho tau e = None)
    (fun r => match r with VRColumn _ => true | _ => false end = true ->
              Forall (fun c => rho c = None) (root_referenced_columns r) ->
              root_when_extended r = true -> eval_root lit bin un rho tau r = None)
    (fun o => match o with VOLit _ => true | VOExpr e' => case_free e' end = true ->
              Forall (fun c => rho c = None) (operand_referenced_columns o) ->
              operand_when_extended o = true -> eval_operand lit bin un rho tau o = None)).
  - intros c n t o ops Hc Hops Hf Hcols.
    rewrite eval_ve_fold, nullable_when_extended_fold.
    rewrite ve_referenced_columns_concat, Forall_app in Hcols. destruct Hcols as [H1 H2].
    simpl in Hf. apply andb_true_iff in Hf as [Hf1 Hf2].
    apply (foldl_rel (fun a b => b = true -> a = None)); [by apply Hc|]. clear Hc H1.
    induction Hops as [|x ops Hx Hops IH]; [constructor|]. simpl in *.
    apply andb_true_iff in Hf2 as [Hf2 Hf3]. apply Forall_app in H2 as [H2 H3].
    constructor; [|by apply IH]. intros a b. apply null_exact_step. by apply Hx.
  - intros s _ H. by inversion H; subst.
  - intros p cs o t _ _ H. discriminate.
  - intros v _ _. simpl. unfold eval_literal. destruct (is_none v); done.
  - intros e' H. exact H.
Qed.

(** An expression's value depends on the columns it reads only. *)
Lemma eval_ve_agree {V} (lit : pyval -> V) bin un tau rho rho' e :
  Forall (fun c => rho c = rho' c) (ve_referenced_columns e) ->
  eval_ve lit bin un rho tau e = eval_ve lit bin un rho' tau e.
Proof.
  apply (ve_mut
    (fun e => Forall (fun c => rho c = rho' c) (ve_referenced_columns e) ->
              eval_ve lit bin un rho tau e = eval_ve lit bin un rho' tau e)
    (fun r => Forall (fun c => rho c = rho' c) (root_referenced_columns r) ->
              eval_root lit bin un rho tau r = eval_root lit bin un rho' tau r)
    (fun o => Forall (fun c => rho c = rho' c) (operand_referenced_columns o) ->
              eval_operand lit bin un rho tau o = eval_operand lit bin un rho' tau o)).
  - intros c n t o ops Hc Hops H.
    rewrite ve_referenced_columns_concat, Forall_app in H. destruct H as [H1 H2].
    rewrite !eval_ve_fold, (Hc H1). generalize (eval_root lit bin un rho' tau c). clear Hc H1.
    induction Hops as [|x ops Hx _ IH]; intros acc; [done|]. simpl in *.
    apply Forall_app in H2 as [H2 H3]. rewrite (Hx H2). by apply IH.
  - intros s H. by inversion H.
  - intros p cs o t Ho Ht H. simpl in *. rewrite !Forall_app in H. destruct H as (H1 & H2 & H3).
    rewrite (Ho H3), (Ht H2). replace (map rho' cs) with (map rho cs); [done|].
    clear -H1. induction H1 as [|c cs Hc _ IH]; simpl; [done|]. by rewrite Hc, IH.
  - done.
  - intros e' H. exact H.
Qed.

(** C24: the nullability a value expression declares is sound.  If the row gives
    a value to every column declared non-null, an expression built by the API
    (arithmetic, COALESCE, LOWER, CHAR_LENGTH, CASE, in any nesting) whose
    [nullable] flag is false evaluates to NULL only when an arithmetic step it
    evaluates gives NULL for two operands that are values (SQLite does, for a
    NaN); it does not for operands that are NULL, a missing COALESCE fallback or
    a CASE branch without a value, whichever branches are taken. *)
Theorem ve_nullable_sound {V} E (lit : pyval -> V) bin un rho tau e
  (Hbuilt : built E e)
  (Hrow : forall s e0, value_operand E s = Some (Ok e0) ->
            ve_nullable e0 = false -> is_Some (rho s)) :
  ve_nullable e = false -> ve_vanishes lit bin un rho tau e = false ->
  is_Some (eval_ve lit bin un rho tau e).
Proof.
  revert e Hbuilt.
  refine (built_ops_ind E
    (fun e => null_covered (evaluated lit bin un rho tau e) (ve_nullable e)) _ _ _ _).
  - intros s e Hs H Hn _. pose proof (Hrow _ _ H Hn).
    by destruct (value_operand_column _ _ _ Hs H) as (n & t & o & -> & Ho).
  - intros [c n t o ops] op right He Hr Hop _. unfold evaluated in *.
    rewrite evaluation_fold in *. rewrite foldl_app. simpl in *.
    replace (if is_coalesce op then _ else _) with (fold_nullable op n (operand_nullable right)).
    2:{ clear -Hop. destruct op; try done; set_solver. }
    apply (null_covered_step bin un op _ n (operand_evaluated lit bin un rho tau right)); [|done].
    destruct right as [v|e2]; [|by apply Hr]. intros Hv _. simpl in *. unfold eval_literal.
    rewrite Hv. eauto.
  - intros [c n t o ops] op vt He _ Hop. unfold evaluated in *.
    rewrite evaluation_fold in *. rewrite foldl_app. simpl in *.
    replace n with (fold_nullable op n true).
    2:{ by apply elem_of_cons in Hop as [[= -> _]|[[= -> _]|[]%not_elem_of_nil]%elem_of_cons]. }
    by apply (null_covered_step bin un op _ n (operand_evaluated lit bin un rho tau (VOLit PNone))).
  - intros p cs b1 b2 n1 n2 vt owner _ H1 H2 _ Hn Hv. simpl in *.
    apply orb_false_iff in Hn as [Hb1 Hb2].
    assert (Hbr : forall b n, operand_nullable b = false ->
      case_operand (fun e => null_covered (evaluated lit bin un rho tau e) (ve_nullable e))
        owner vt b n -> operand_vanishes lit bin un rho tau n = false ->
      is_Some (eval_operand lit bin un rho tau n)).
    { intros [v|e] n Hb Hc Hnv; simpl in *; [|destruct Hc as (-> & Hc & _); by apply Hc].
      destruct Hc as (v' & Hv' & ->). apply encode_native_literal_Ok in Hv' as [-> _].
      simpl. unfold eval_literal. destruct v, vt; simpl in *; try done; eauto. }
    destruct (tau p (map rho cs)); eauto.
Qed.

(** NULL extension by a LEFT JOIN.  When the row of the expression's own
    query source is absent (all its columns read NULL), the expression can be
    NULL, other than by an arithmetic step on values, only if
    [__nullable_when_extended__] says so, and without CASE it is NULL exactly
    when it says so. *)
Theorem nullable_when_extended_exact {V} E (lit : pyval -> V) bin un rho tau e
  (Hbuilt : built E e)
  (Habsent : forall c, read_owner c = Some (ve_owner e) -> rho c = None) :
  (nullable_when_extended e = false -> ve_vanishes lit bin un rho tau e = false ->
     is_Some (eval_ve lit bin un rho tau e)) /\
  (case_free e = true -> nullable_when_extended e = true -> eval_ve lit bin un rho tau e = None).
Proof.
  split; [apply nullable_when_extended_covers|].
  intros Hf. apply nullable_when_extended_case_free; [done|].
  eapply Forall_impl; [by apply (built_reads_owner E)|]. exact Habsent.
Qed.

Lemma int_literal_range z : literal_type (PInt z) = OType VtInt -> (- 2 ^ 63 <= z < 2 ^ 63)%Z.
Proof. simpl. destruct (_ && _) eqn:H; [|done]. intros _. lia. Qed.

Lemma literal_type_none v : literal_type v = ONull -> v = PNone.
Proof. destruct v; simpl; intros; repeat case_match; simplify_eq; done. Qed.

Lemma coerce_fallback_same op v vt :
  literal_type v = OType vt -> coerce_fallback op vt v = v.
Proof. destruct v, op, vt; simpl; intros; repeat case_match; simplify_eq; done. Qed.

Lemma appended_type E e op right :
  appended (fun e => ve_type E e = OType (ve_value_type e)) e op right ->
  op ∈ [VAdd; VSub; VMul; VCoalesce] ->
  (op ∈ [VAdd; VSub; VMul] -> ve_value_type e = VtInt \/ ve_value_type e = VtFloat) ->
  operation_type op (OType (ve_value_type e)) (is_literal right) (operand_type E right) =
  OType (ve_value_type e).
Proof.
  intros Hr Hop Hnum. destruct right as [v|e2].
  - destruct Hr as (v0 & Hv0 & ->). apply encode_native_literal_Ok in Hv0 as [_ Hv0]. simpl.
    destruct (decide (op = VCoalesce)) as [->|Hne].
    + destruct Hv0 as [H|[H|[Ht H]]].
      * rewrite (literal_type_none v0 H). by destruct (ve_value_type e).
      * rewrite (coerce_fallback_same VCoalesce v0 _ H), H. by destruct (ve_value_type e).
      * rewrite Ht. destruct v0; simpl in H; try done; [|by case_match].
        apply int_literal_range in H. simpl.
        rewrite float_of_int_finite by done. done.
    + assert (Hc : coerce_fallback op (ve_value_type e) v0 = v0) by by destruct op.
      rewrite Hc. assert (Hop' : op ∈ [VAdd; VSub; VMul]) by set_solver.
      destruct (Hnum Hop') as [Ht|Ht], Hv0 as [H|[H|[Ht' H]]]; rewrite ?Ht, ?H in *;
        destruct op; simpl in *; try done; set_solver.
  - destruct Hr as (H & _ & Ht). simpl. rewrite H, Ht. clear -Hop Hnum.
    destruct (decide (op = VCoalesce)) as [->|Hne]; [by destruct (ve_value_type e)|].
    assert (Hop' : op ∈ [VAdd; VSub; VMul]) by set_solver.
    destruct (Hnum Hop') as [-> | ->]; clear -Hop'; destruct op; done || set_solver.
Qed.

Lemma case_operand_type E owner vt b n :
  case_operand (fun e => ve_type E e = OType (ve_value_type e)) owner vt b n ->
  (forall e, b = VOExpr e -> ve_value_type e = vt) ->
  operand_type E n = match branch_domain b with [] => ONull | _ => OType vt end.
Proof.
  destruct b as [v|e]; simpl.
  - intros (v' & Hv' & ->) _. apply encode_native_literal_Ok in Hv' as [-> Hv].
    destruct Hv as [H|[H|[-> H]]].
    + rewrite (literal_type_none v H). by destruct vt.
    + destruct v, vt; simpl in *; try done; by case_match.
    + destruct v; simpl in H; try done; [|by case_match]. apply int_literal_range in H.
      simpl. by rewrite float_of_int_finite.
  - intros (-> & H & _) Hvt. simpl. rewrite H. by rewrite (Hvt e eq_refl).
Qed.

Lemma case_domain_nonempty b1 b2 vt :
  case_domain b1 b2 = Ok vt -> branch_domain b1 <> [] \/ branch_domain b2 <> [].
Proof.
  unfold case_domain. destruct (branch_domain b1); [|by left].
  destruct (branch_domain b2); [done|by right].
Qed.

(** C37: the database converts no operand of a built expression between native
    domains, except that an integer literal on the right of real arithmetic is
    promoted to REAL ([Float.add(1)]); an integer column or expression never is.
    Every operator is applied inside one native domain: arithmetic on integers
    or on reals, COALESCE and CASE between operands of one same domain, text
    functions on text, with every integer literal in the signed 64-bit range and
    every float literal finite; and the domain computed from the operations is
    the declared [value_type].  Domains are those of the operands: that a result
    leaves the range of its domain (an overflow) is not covered. *)
Theorem built_expression_typed E e (Hbuilt : built E e) :
  ve_type E e = OType (ve_value_type e).
Proof.
  revert e Hbuilt. refine (built_ops_ind E _ _ _ _ _).
  - intros s e Hs H. destruct (value_operand_column _ _ _ Hs H) as (n & t & o & -> & Ho).
    simpl. by rewrite H.
  - intros [c n t o ops] op right He Hr Hop Hnum. rewrite ve_type_fold in *. simpl in *.
    rewrite foldl_app. simpl. rewrite He. by apply (appended_type E (ValueExpression c n t o ops)).
  - intros [c n t o ops] op vt He Ht Hop. rewrite ve_type_fold in *. simpl in *. subst t.
    rewrite foldl_app. simpl. rewrite He.
    by apply elem_of_cons in Hop as [[= -> ->]|[[= -> ->]|[]%not_elem_of_nil]%elem_of_cons].
  - intros p cs b1 b2 n1 n2 vt owner Hvt H1 H2 _. simpl.
    destruct (case_domain_cases _ _ _ Hvt) as [Hd1 Hd2].
    rewrite (case_operand_type _ _ _ _ _ H1 Hd1), (case_operand_type _ _ _ _ _ H2 Hd2).
    destruct (case_domain_nonempty _ _ _ Hvt);
      destruct (branch_domain b1), (branch_domain b2); simpl; try done;
      by destruct (decide (vt = vt)).
Qed.

(** ** A concrete row *)

(** [Order.bonus.coalesce(0).add(Order.amount)] *)
Definition demo_expression : value_expression :=
  ValueExpression (VRColumn (SAttr order_bonus)) false VtInt orders
    [(VCoalesce, VOLit (PInt 0));
     (VAdd, VOExpr (ValueExpression (VRColumn (SAttr order_amount)) false VtInt orders []))].
Definition demo_rho (nullable_value : option Z) (s : selectable) : option Z :=
  match s with SAttr a => if attr_nullable a then nullable_value else Some 7%Z | _ => Some 0%Z end.

Lemma demo_built : built (demo BSqlite) demo_expression.
Proof.
  apply (built_arith _ VAdd
           (ValueExpression (VRColumn (SAttr order_bonus)) false VtInt orders
              [(VCoalesce, VOLit (PInt 0))])
           (ArgOperand (SAttr order_amount))).
  - apply (built_coalesce _ (ValueExpression (VRColumn (SAttr order_bonus)) true VtInt orders [])
             (ArgLiteral (PInt 0))).
    + by apply (built_column _ (SAttr order_bonus)).
    + constructor.
    + reflexivity.
  - by constructor.
  - set_solver.
  - reflexivity.
Qed.

Lemma ve_nullable_sound_witness :
  is_Some (eval_ve (fun _ => 0%Z) (fun _ x y => Some (x + y)%Z) (fun _ x => x) (demo_rho None)
             (fun _ _ => true) demo_expression).
Proof.
  apply (ve_nullable_sound (demo BSqlite)); [exact demo_built| |reflexivity|reflexivity].
  intros s e0 H Hn. destruct s as [a| | | | | | | |]; simpl; try (by eexists).
  simpl in H. injection H as H. unfold attr_value_operand in H.
  destruct (attr_is_json a); [discriminate|].
  apply bind_Ok in H as (vt & _ & H). destruct (attr_relation a); [|discriminate].
  injection H as <-. simpl in Hn. rewrite Hn. by eexists.
Defined.

(** The flag does not cover a NaN: with an arithmetic step that gives NULL the
    same expression, declared non-null, is NULL. *)
Lemma vanishing_arithmetic :
  ve_nullable demo_expression = false /\
  eval_ve (fun _ => 0%Z) (fun _ _ _ => None) (fun _ x => x) (demo_rho None)
    (fun _ _ => true) demo_expression = None.
Proof. split; reflexivity. Qed.

Lemma nullable_when_extended_exact_witness :
  eval_ve (fun _ => 0%Z) (fun _ x y => Some (x + y)%Z) (fun _ x => x) (fun _ => None)
    (fun _ _ => true) demo_expression = None.
Proof.
  apply (nullable_when_extended_exact (demo BSqlite)); [exact demo_built|reflexivity| |];
    vm_compute; reflexivity.
Defined.

Lemma built_expression_typed_witness : ve_type (demo BSqlite) demo_expression = OType VtInt.
Proof. exact (built_expression_typed (demo BSqlite) demo_expression demo_built). Defined.
