(* ===== verification/QueryScope.v ===== *)
(** * Query scope

    [_query_scope.py] and [grouping_key] of [_query_sources.py]: which sources
    an operand may reference, the clause policies built on that check, and the
    free column reads of a nested select. *)

From S2P Require Export ValueExpr.

(** [any(f x for x in l)], stopping at the first true or the first exception. *)
Definition anyR {A} (f : A -> res bool) : list A -> res bool :=
  fix go l := match l with
              | [] => Ok false
              | x :: l' => b ← f x; if (b : bool) then Ok true else go l'
              end.

Lemma anyR_false {A} (f : A -> res bool) l :
  anyR f l = Ok false <-> Forall (fun x => f x = Ok false) l.
Proof.
  induction l as [|x l IH]; simpl; [by split; auto|].
  rewrite Forall_cons, <- IH. destruct (f x) as [[|]|]; simpl; naive_solver.
Qed.

(** ** Source identities ([_query_owner_identity]) *)

Inductive owner_identity :=
  | OiModel (m : mid)
  | OiAlias (source : mid) (role : positive)
  | OiCte (sources : list owner_identity) (role : positive).

(** Equality of the tuples, the [sources] compared as a [frozenset]. *)
Fixpoint oi_eqb (a b : owner_identity) {struct a} : bool :=
  match a, b with
  | OiModel m, OiModel m' => Pos.eqb m m'
  | OiAlias s r, OiAlias s' r' => Pos.eqb s s' && Pos.eqb r r'
  | OiCte l r, OiCte l' r' =>
      Pos.eqb r r' && forallb (fun x => existsb (oi_eqb x) l') l
        && forallb (fun y => existsb (fun x => oi_eqb x y) l) l'
  | _, _ => false
  end.

(** The recursion follows CTE definitions; [fuel] is Python's stack. *)
Fixpoint query_owner_identity (E : env) (fuel : nat) (m : mid) : res owner_identity :=
  match fuel with
  | O => raise OtherError "RecursionError"
  | S fuel =>
      match alias_of E m, cte_of E m with
      | Some (source, role), _ => Ok (OiAlias source role)
      | None, Some (_, role) =>
          d ← relation_definition E m;
          sources ← mapR (query_owner_identity E fuel) (result_models (def_state d));
          Ok (OiCte sources role)
      | None, None => Ok (OiModel m)
      end
  end.

(** A class is numbered when it is created: [Pos.to_nat m] bounds the chain of
    definitions under it. *)
Definition owner_identity_of (E : env) (m : mid) : res owner_identity :=
  query_owner_identity E (S (Pos.to_nat m)) m.

(** ** [ScopeResolver] *)

Record scope_resolver := ScopeResolver { own_models : list mid; outer_models : list mid }.

Definition models (sc : scope_resolver) : list mid := own_models sc ++ outer_models sc.

Definition qualified (sc : scope_resolver) : bool :=
  (1 <? length (own_models sc)) || negb (Nat.eqb (length (outer_models sc)) 0).

(** The loop state of [ensure_unambiguous_aliases]: [names], [roles], [cte_roles]. *)
Record alias_scan := AliasScan {
  sc_names : gmap string mid;
  sc_roles : list (mid * positive);
  sc_cte_roles : list owner_identity
}.

Definition alias_scan_step (E : env) (s : alias_scan) (m : mid) : res alias_scan :=
  table_name ← require_model_table_name E m;
  let name := env_casefold E table_name in
  _ ← match sc_names s !! name with
      | None => Ok tt
      | Some previous =>
          guardR (negb (negb (Pos.eqb previous m) || is_alias E m || is_cte E m
                          || is_alias E previous || is_cte E previous))
            QueryCompilationError "query source name collides with a visible query source"
      end;
  roles ← match alias_of E m with
          | None => Ok (sc_roles s)
          | Some role =>
              _ ← guardR (negb (bool_decide (role ∈ sc_roles s))) QueryCompilationError
                    "alias role is already visible in this query scope";
              Ok (role :: sc_roles s)
          end;
  cte_roles ← (if is_cte E m then
                 role ← owner_identity_of E m;
                 _ ← guardR (negb (existsb (oi_eqb role) (sc_cte_roles s)))
                       QueryCompilationError "CTE role is already visible in this query scope";
                 Ok (role :: sc_cte_roles s)
               else Ok (sc_cte_roles s));
  Ok (AliasScan (<[name := m]> (sc_names s)) roles cte_roles).

Definition ensure_unambiguous_aliases (E : env) (sc : scope_resolver) : res unit :=
  _ ← foldR (alias_scan_step E) (AliasScan ∅ [] []) (models sc); Ok tt.

Definition enter_subquery (E : env) (sc : scope_resolver) (inner_own : list mid)
    : res scope_resolver :=
  families ← mapR (require_model_backend E) (inner_own ++ models sc);
  _ ← guardR (match families with
              | [] => true
              | f :: fs => forallb (fun g => bool_decide (g = f)) fs
              end)
        QueryCompilationError "subquery backend differs from the enclosing query";
  Ok (ScopeResolver inner_own (models sc)).

(** [clause] only names the SQL clause in the message; [error] is the class the
    calling phase raises. *)
Definition ensure_operand_in_scope (E : env) (sc : scope_resolver) (operand : selectable)
    (clause : string) (error : exc_class) (own_only : bool) : res unit :=
  let visible := if own_only then own_models sc else models sc in
  let out_of_scope := clause +:+ " references a table that is not in the query" in
  let check (o : res mid) : res unit :=
    owner ← o; guardR (bool_decide (owner ∈ visible)) error out_of_scope in
  match operand with
  | SLiteral family _ =>
      differs ← match visible with
                | [] => Ok true
                | _ => anyR (fun m => b ← require_model_backend E m;
                                      Ok (negb (bool_decide (b = family)))) visible
                end;
      guardR (negb differs) error "literal backend differs from the query"
  | SAttr a => check (require_column_model E a)
  | SAggregate _ _ _ => check (selectable_owner_model E operand)
  | _ => match compilable_owner operand with
         | Some o => check o
         | None => check (a ← require_field operand; require_column_model E a)
         end
  end.

(** ** Grouping keys *)

Definition grouping_key (E : env) (s : selectable) : res (mid * (string + nat)) :=
  match s with
  | SCteOutput position relation => Ok (relation, inr position)
  | _ => a ← require_field s; m ← require_column_model E a; n ← require_column_name a;
         Ok (m, inl n)
  end.

Definition is_aggregate (s : selectable) : bool :=
  match s with SAggregate _ _ _ => true | _ => false end.

(** ** Clause policies *)

Fixpoint ensure_predicate_targets_models (E : env) (sc : scope_resolver) (p : predicate)
    : res unit :=
  match predicate_subquery_arity p, predicate_subquery p with
  | Some AritySelect, Some q => _ ← require_subquery_state q; Ok tt
  | arity, subquery =>
      _ ← match arity, subquery with
          | Some AritySingleColumn, Some q => _ ← require_single_column_subquery q; Ok tt
          | _, _ => Ok tt
          end;
      _ ← guardR (negb (existsb is_aggregate (predicate_grouping_operands p)))
            QueryConstructionError "aggregates cannot appear in where(); use having()";
      _ ← match predicate_operand p with
          | Some operand =>
              ensure_operand_in_scope E sc operand "predicate" QueryConstructionError false
          | None => Ok tt
          end;
      match p with
      | CompoundPredicate _ cs => iterR (ensure_predicate_targets_models E sc) cs
      | NegatedPredicate c => ensure_predicate_targets_models E sc c
      | _ => Ok tt
      end
  end.

Definition ensure_having_selectable (E : env) (st : select_state) (sc : scope_resolver)
    (column : selectable) : res unit :=
  s ← require_selectable column;
  _ ← ensure_operand_in_scope E sc s "having" QueryConstructionError false;
  if is_aggregate s then Ok tt
  else
    grouped_keys ← mapR (grouping_key E) (st_groupings st);
    key ← grouping_key E column;
    guardR (bool_decide (key ∈ grouped_keys)) QueryConstructionError
      "having references a column that is not grouped or aggregated".

Fixpoint ensure_having_targets (E : env) (st : select_state) (sc : scope_resolver)
    (p : predicate) : res unit :=
  _ ← iterR (ensure_having_selectable E st sc) (predicate_grouping_operands p);
  match p with
  | CompoundPredicate _ cs => iterR (ensure_having_targets E st sc) cs
  | NegatedPredicate c => ensure_having_targets E st sc c
  | _ => Ok tt
  end.

Definition ensure_ordering_targets_models (E : env) (sc : scope_resolver) (o : order_by)
    : res unit :=
  match ob_column o with
  | None => raise QueryConstructionError "orderings must be built from columns"
  | Some column =>
      _ ← guardR (bool_decide (ob_direction o = "ASC" \/ ob_direction o = "DESC"))
            QueryConstructionError "orderings must be built from columns";
      s ← require_selectable column;
      ensure_operand_in_scope E sc s "ordering" QueryConstructionError true
  end.

Definition ensure_grouping_targets_models (E : env) (sc : scope_resolver)
    (columns : list selectable) : res unit :=
  iterR (fun c => ensure_operand_in_scope E sc c "group_by" QueryConstructionError false) columns.

Definition ensure_assignment_targets_model (E : env) (sc : scope_resolver) (a : assignment)
    : res unit :=
  match as_column a with
  | None => raise QueryConstructionError "assignments must be built from columns"
  | Some c =>
      column ← require_field c;
      ensure_operand_in_scope E sc (SAttr column) "assignment" QueryConstructionError false
  end.

(** ** Free column reads ([_correlated_columns]) *)

(** [read_operand] of a column reference. *)
Definition read_column (E : env) (bound : list mid) (s : selectable) : res (list selectable) :=
  match s with
  | SAttr _ | SCteOutput _ _ =>
      owner ← selectable_owner_model E s;
      Ok (if bool_decide (owner ∈ bound) then [] else [s])
  | _ => Ok []
  end.

Definition subquery_error {A} : res A :=
  raise QueryConstructionError "a subquery requires a select query".

Fixpoint correlated_columns (E : env) (bound : list mid) (st : select_state) {struct st}
    : res (list selectable) :=
  match st with
  | SelectState model fields _ _ _ _ predicates groupings having orderings _ _ joins compound =>
      let bound := (model :: map join_model joins) ++ bound in
      c1 ← mapR (read_operand E bound) fields;
      c2 ← mapR (read_operand E bound) groupings;
      c3 ← mapR (fun o => match o with
                          | OrderBy (Some c) _ => read_operand E bound c
                          | OrderBy None _ => Ok []
                          end) orderings;
      c4 ← mapR (read_predicate E bound) predicates;
      c5 ← mapR (read_predicate E bound) having;
      c6 ← mapR (fun j => match j with JoinSpec _ _ p => read_predicate E bound p end) joins;
      c7 ← match compound with
           | None => Ok []
           | Some (CompoundSpec l r _) =>
               x ← correlated_columns E bound l; y ← correlated_columns E bound r; Ok (x ++ y)
           end;
      Ok (concat (c1 ++ c2 ++ c3 ++ c4 ++ c5 ++ c6) ++ c7)
  end
with read_operand (E : env) (bound : list mid) (s : selectable) {struct s}
    : res (list selectable) :=
  match s with
  | SAttr _ | SCteOutput _ _ => read_column E bound s
  | SValue e => cs ← mapR (read_column E bound) (ve_referenced_columns e); Ok (concat cs)
  | SScalar (Some q) => correlated_columns E bound q
  | SScalar None => subquery_error
  | _ => Ok []
  end
with read_predicate (E : env) (bound : list mid) (p : predicate) {struct p}
    : res (list selectable) :=
  match p with
  | ComparisonPredicate o _ _ | NullPredicate o _ | MembershipPredicate o _ _
  | BetweenPredicate o _ _ | LikePredicate o _ _ => read_operand E bound o
  | ColumnComparisonPredicate o _ other =>
      match other with
      | SScalar (Some q) =>
          x ← read_operand E bound o; y ← correlated_columns E bound q; Ok (x ++ y)
      | SScalar None => _ ← read_operand E bound o; subquery_error
      | _ => x ← read_operand E bound o; y ← read_operand E bound other; Ok (x ++ y)
      end
  | SubqueryMembershipPredicate o (Some q) _ =>
      x ← read_operand E bound o; y ← correlated_columns E bound q; Ok (x ++ y)
  | SubqueryMembershipPredicate o None _ => _ ← read_operand E bound o; subquery_error
  | ExistencePredicate (Some q) _ => correlated_columns E bound q
  | ExistencePredicate None _ => subquery_error
  | CompoundPredicate _ cs => x ← mapR (read_predicate E bound) cs; Ok (concat x)
  | NegatedPredicate c => read_predicate E bound c
  end.

(** ** Grouping coverage *)

(** [_correlated_columns(require_subquery_state(q))] *)
Definition subquery_reads (E : env) (q : option select_state) : res (list selectable) :=
  st ← require_subquery_state q; correlated_columns E [] st.

(** The stack loop over [having]: a predicate is popped from the end, its
    nested selects are read, then its children are pushed. *)
Fixpoint having_inputs (E : env) (p : predicate) : res (list selectable) :=
  own ← mapR (subquery_reads E) (predicate_nested_selects p);
  rest ← match p with
         | CompoundPredicate _ cs =>
             (fix go (l : list predicate) : res (list selectable) :=
                match l with
                | [] => Ok []
                | c :: l' => later ← go l'; now ← having_inputs E c; Ok (later ++ now)
                end) cs
         | NegatedPredicate c => having_inputs E c
         | _ => Ok []
         end;
  Ok (concat own ++ rest).

Fixpoint having_inputs_all (E : env) (l : list predicate) : res (list selectable) :=
  match l with
  | [] => Ok []
  | p :: l' => later ← having_inputs_all E l'; now ← having_inputs E p; Ok (later ++ now)
  end.

(** The inputs of one selected or ordering operand. *)
Definition projection_inputs (E : env) (s : option selectable) : res (list selectable) :=
  match s with
  | Some (SValue e) => Ok (ve_referenced_columns e)
  | Some (SAttr a) => Ok [SAttr a]
  | Some (SCteOutput p r) => Ok [SCteOutput p r]
  | Some (SScalar q) => subquery_reads E q
  | _ => Ok []
  end.

Definition has_aggregate (st : select_state) : bool :=
  existsb is_aggregate (st_fields st) ||
  existsb (fun o => match ob_column o with Some c => is_aggregate c | None => false end)
    (st_orderings st).

Definition ensure_grouping_covers_projection (E : env) (st : select_state) : res unit :=
  if negb (has_aggregate st || nonempty (st_groupings st) || nonempty (st_having st)) then Ok tt
  else
    grouped_keys ← mapR (grouping_key E) (st_groupings st);
    own ← mapR (projection_inputs E)
            (map Some (st_fields st) ++ map ob_column (st_orderings st));
    nested ← having_inputs_all E (st_having st);
    iterR (fun operand =>
      key ← grouping_key E operand;
      guardR (negb (bool_decide (fst key ∈ result_models st)) || bool_decide (key ∈ grouped_keys))
        QueryCompilationError
        "non-aggregated column in SELECT, HAVING or ORDER BY must appear in group_by()")
      (concat own ++ nested).

(** ** Scope soundness *)

(** The columns an operand reads when the statement runs. *)
Definition operand_reads (s : selectable) : list selectable :=
  match s with
  | SAttr _ | SCteOutput _ _ => [s]
  | SAggregate _ (Some (SAttr a)) _ => [SAttr a]
  | SAggregate _ (Some (SCteOutput p r)) _ => [SCteOutput p r]
  | SValue e => ve_referenced_columns e
  | _ => []
  end.

Definition reads_within (visible : list mid) (s : selectable) : Prop :=
  Forall (fun c => exists o, read_owner c = Some o /\ o ∈ visible) (operand_reads s).

(** An expression operand was built by the API. *)
Definition operand_built (E : env) (s : selectable) : Prop :=
  match s with SValue e => built E e | _ => True end.

Lemma require_column_model_owner E a o :
  require_column_model E a = Ok o -> attr_relation a = Some o.
Proof.
  unfold require_column_model, bound_to_table. destruct (attr_relation a); [|done].
  repeat case_match; intros; simplify_eq; done.
Qed.

Lemma selectable_owner_read E s o :
  match s with SAttr _ | SCteOutput _ _ => True | _ => False end ->
  selectable_owner_model E s = Ok o -> read_owner s = Some o.
Proof.
  destruct s; try done; intros _ H; simpl in *; [by eapply require_column_model_owner|].
  by injection H as ->.
Qed.

(** scope soundness.  When [ensure_operand_in_scope] accepts an operand,
    every column the operand reads (a bound column, a CTE output, the column
    inside an aggregate, every column nested anywhere in an expression) belongs
    to a visible source: one of the statement's own, and with [own_only] never
    an enclosing query's. *)
Theorem ensure_operand_in_scope_sound E sc s clause error own_only
  (Hbuilt : operand_built E s)
  (Hok : ensure_operand_in_scope E sc s clause error own_only = Ok tt) :
  reads_within (if own_only then own_models sc else models sc) s.
Proof.
  unfold reads_within. revert Hok. unfold ensure_operand_in_scope.
  generalize (if own_only then own_models sc else models sc). intros visible Hok.
  destruct s as [a|f c o|q|[c n t o ops]|p r|fam z|m n|r|]; simpl; simpl in Hok;
    rewrite ?Forall_singleton; try apply List.Forall_nil;
    try (bind_inv Hok as owner Ho); apply guardR_Ok, bool_decide_eq_true in Hok.
  - exists owner. split; [by eapply require_column_model_owner|done].
  - destruct c as [[a| | | |p r| | | |]|]; simpl in *; rewrite ?Forall_singleton;
      try apply List.Forall_nil; exists owner; split; try done;
      [by eapply require_column_model_owner|by injection Ho as ->].
  - eapply Forall_impl; [apply (built_reads_owner _ _ Hbuilt)|]. simpl. eauto.
  - eauto.
Qed.

(** ** Source names *)

Definition scan_ok (E : env) (seen : list mid) (s : alias_scan) : Prop :=
  (forall m n, m ∈ seen -> require_model_table_name E m = Ok n ->
     sc_names s !! env_casefold E n = Some m) /\
  (forall n m, sc_names s !! n = Some m ->
     m ∈ seen /\ exists t, require_model_table_name E m = Ok t /\ n = env_casefold E t) /\
  (forall m r, m ∈ seen -> alias_of E m = Some r -> r ∈ sc_roles s).

Lemma alias_scan_step_ok E seen s m s' :
  scan_ok E seen s -> alias_scan_step E s m = Ok s' ->
  scan_ok E (m :: seen) s' /\
  (forall m' n n', m' ∈ seen -> require_model_table_name E m' = Ok n' ->
     require_model_table_name E m = Ok n -> env_casefold E n' = env_casefold E n ->
     m' = m /\ is_alias E m = false /\ is_cte E m = false) /\
  (forall m' r, m' ∈ seen -> alias_of E m' = Some r -> alias_of E m <> Some r).
Proof.
  intros (Hn & Hn' & Hr) H. unfold alias_scan_step in H.
  bind_inv H as t Ht. bind_inv H as u Hu. bind_inv H as roles Hroles.
  bind_inv H as cr Hcr. injection H as <-.
  assert (Hsame : forall m', sc_names s !! env_casefold E t = Some m' ->
            m' = m /\ is_alias E m = false /\ is_cte E m = false).
  { intros m' Hm'. rewrite Hm' in Hu. apply guardR_Ok in Hu.
    apply negb_true_iff in Hu. rewrite !orb_false_iff, negb_false_iff, Pos.eqb_eq in Hu.
    naive_solver. }
  assert (Hrole : forall m' r, m' ∈ seen -> alias_of E m' = Some r -> alias_of E m <> Some r).
  { intros m' r Hm' Ha Ha'. rewrite Ha' in Hroles. bind_inv Hroles as u' Hu'.
    apply guardR_Ok, negb_true_iff, bool_decide_eq_false in Hu'. by apply Hu', (Hr m'). }
  split; [split; [|split]|split]; simpl.
  - intros m' n Hm' Ht'. apply elem_of_cons in Hm' as [->|Hm'].
    + rewrite Ht in Ht'. injection Ht' as <-. apply lookup_insert_eq.
    + destruct (decide (env_casefold E n = env_casefold E t)) as [Heq|Hne].
      * pose proof (Hn _ _ Hm' Ht') as Hx. rewrite Heq in *. apply Hsame in Hx as [-> _].
        apply lookup_insert_eq.
      * rewrite lookup_insert_ne by done. by apply Hn.
  - intros n m' H. apply lookup_insert_Some in H as [[<- <-]|[_ Hl]].
    + split; [left|eauto].
    + apply Hn' in Hl as [? ?]. split; [by right|done].
  - intros m' r Hm' Ha. apply elem_of_cons in Hm' as [->|Hm'].
    + rewrite Ha in Hroles. bind_inv Hroles as u' Hu'. injection Hroles as <-. left.
    + pose proof (Hr _ _ Hm' Ha). destruct (alias_of E m); [|by injection Hroles as <-].
      bind_inv Hroles as u' Hu'. injection Hroles as <-. by right.
  - intros m' n n' Hm' Hn1 Hn2 Hc. rewrite Ht in Hn2. injection Hn2 as <-.
    apply Hsame. rewrite <- Hc. by apply Hn.
  - exact Hrole.
Qed.

Lemma scan_ok_empty E : scan_ok E [] (AliasScan ∅ [] []).
Proof.
  split; [|split]; simpl.
  - by intros m n []%not_elem_of_nil.
  - intros n m H. by rewrite lookup_empty in H.
  - by intros m r []%not_elem_of_nil.
Qed.

(** The sources visible before position [j]. *)
Lemma alias_scan_fold E l seen s s' :
  scan_ok E seen s -> foldR (alias_scan_step E) s l = Ok s' ->
  scan_ok E (rev l ++ seen) s' /\
  forall i m, l !! i = Some m -> forall m', m' ∈ seen \/ (exists k, k < i /\ l !! k = Some m') ->
    (forall n n', require_model_table_name E m' = Ok n' -> require_model_table_name E m = Ok n ->
       env_casefold E n' = env_casefold E n -> m' = m /\ is_alias E m = false /\ is_cte E m = false) /\
    (forall r, alias_of E m' = Some r -> alias_of E m <> Some r).
Proof.
  revert seen s. induction l as [|m l IH]; intros seen s Hs H; rewrite ?foldR_cons in H.
  - injection H as <-. split; [done|]. intros i m Hm. by rewrite lookup_nil in Hm.
  - bind_inv H as s1 H1. destruct (alias_scan_step_ok _ _ _ _ _ Hs H1) as (Hs1 & Hnames & Hroles).
    destruct (IH _ _ Hs1 H) as [Hs' Hrest]. split.
    + simpl. by rewrite <- app_assoc.
    + intros [|i] m0 Hm0 m' Hm'; simpl in Hm0.
      * injection Hm0 as <-. destruct Hm' as [Hm'|(k & Hk & _)]; [|lia].
        split; [intros n n'; by apply Hnames|intros r; by apply Hroles].
      * apply (Hrest i m0 Hm0). destruct Hm' as [Hm'|([|k] & Hk & Hl)].
        -- left. by right.
        -- injection Hl as ->. left. left.
        -- right. exists k. split; [lia|done].
Qed.

(** source names are unambiguous.  If [ensure_unambiguous_aliases] accepts
    a scope, two visible sources (own or enclosing) share a name, ignoring case,
    only when both are the same plain table; no alias or CTE reference shares
    its name with anything, and no two aliases have the same table and role. *)
Theorem unambiguous_aliases_sound E sc i j m m' n n'
  (Hok : ensure_unambiguous_aliases E sc = Ok tt)
  (Hij : i < j) (Hm' : models sc !! i = Some m') (Hm : models sc !! j = Some m)
  (Hn' : require_model_table_name E m' = Ok n') (Hn : require_model_table_name E m = Ok n) :
  (env_casefold E n' = env_casefold E n ->
     m' = m /\ is_alias E m = false /\ is_cte E m = false) /\
  (forall r, alias_of E m' = Some r -> alias_of E m <> Some r).
Proof.
  unfold ensure_unambiguous_aliases in Hok. bind_inv Hok as s Hs.
  destruct (alias_scan_fold E _ [] _ _ (scan_ok_empty E) Hs) as [_ H].
  destruct (H j m Hm m') as [H1 H2]; [right; eauto|]. split; [by apply H1|exact H2].
Qed.

(** ** Source identities *)

(** Definitions refer to sources created before them. *)
Definition created_in_order (E : env) : Prop :=
  forall m d role, cte_of E m = Some (d, role) ->
    exists def, env_definitions E !! d = Some def /\
                Forall (fun x => (x < m)%positive) (result_models (def_state def)).

(** resolving the identity of a source terminates.  When definitions refer
    only to sources created before them, the recursion of
    [_query_owner_identity] through nested CTEs ends with an identity: the
    depth allowed, the source's creation number, is never exhausted. *)
Theorem query_owner_identity_total E fuel m
  (Horder : created_in_order E) (Hfuel : Pos.to_nat m < fuel) :
  exists i, query_owner_identity E fuel m = Ok i.
Proof.
  revert m Hfuel. induction fuel as [|fuel IH]; intros m Hm; simpl; [lia|].
  destruct (alias_of E m) as [[]|]; [eauto|].
  destruct (cte_of E m) as [[d role]|] eqn:Hc; [|eauto].
  destruct (Horder m d role Hc) as (def & Hd & Hlt).
  assert (Hdef : relation_definition E m = Ok def)
    by (unfold relation_definition; rewrite Hc; simpl; by rewrite Hd).
  destruct (mapR_total (query_owner_identity E fuel) (result_models (def_state def)))
    as [ys Hys].
  { eapply Forall_impl; [exact Hlt|]. simpl. intros x Hx. apply IH. lia. }
  exists (OiCte ys role). rewrite Hdef. cbv beta iota delta [mbind res_bind]. by rewrite Hys.
Qed.

(** ** Grouping *)

(** Every read of [c] from the statement's own sources is a grouping key. *)
Definition grouped (E : env) (st : select_state) (c : selectable) : Prop :=
  forall key, grouping_key E c = Ok key -> fst key ∈ result_models st ->
    exists g, g ∈ st_groupings st /\ grouping_key E g = Ok key.

(** C23: grouping covers the projection.  An accepted grouped or aggregated
    SELECT exposes no arbitrary row: every column of its own sources that a
    selected field or an ordering reads outside an aggregate, directly, inside
    an expression or from a correlated scalar subquery, is a GROUP BY column. *)
Theorem grouping_covers_projection E st s c
  (Hok : ensure_grouping_covers_projection E st = Ok tt)
  (Hagg : has_aggregate st || nonempty (st_groupings st) || nonempty (st_having st) = true)
  (Hs : s ∈ st_fields st \/ exists o, o ∈ st_orderings st /\ ob_column o = Some s)
  (Hread : (is_aggregate s = false /\ c ∈ operand_reads s) \/
           exists q cs, s = SScalar q /\ subquery_reads E q = Ok cs /\ c ∈ cs) :
  grouped E st c.
Proof.
  unfold ensure_grouping_covers_projection in Hok. rewrite Hagg in Hok. simpl in Hok.
  bind_inv Hok as keys Hkeys. bind_inv Hok as own Hown. bind_inv Hok as nested Hnested.
  assert (Hin : Some s ∈ map Some (st_fields st) ++ map ob_column (st_orderings st)).
  { apply elem_of_app. destruct Hs as [Hs|(o & Ho & Hc)]; [left|right]; apply list_elem_of_fmap; eauto. }
  destruct (mapR_elem _ _ _ _ Hown Hin) as (cs & Hcs & Hp).
  assert (Hc : c ∈ cs).
  { destruct Hread as [[Ha Hr]|(q & cs' & -> & Hq & Hr)].
    - destruct s; simpl in *; try discriminate; try (by apply not_elem_of_nil in Hr);
        by injection Hp as <-.
    - simpl in Hp. congruence. }
  intros key Hkey Howner.
  assert (Hall : c ∈ concat own ++ nested).
  { apply elem_of_app. left. apply list_elem_of_In, in_concat. exists cs.
    by rewrite <- !list_elem_of_In. }
  pose proof (iterR_elem _ _ _ Hok Hall) as Hg. simpl in Hg. rewrite Hkey in Hg. simpl in Hg.
  apply guardR_Ok in Hg. rewrite bool_decide_true in Hg by done. simpl in Hg.
  apply bool_decide_eq_true in Hg. destruct (mapR_elem_inv _ _ _ _ Hkeys Hg) as (g & ? & ?). eauto.
Qed.

(** ** Free column reads *)

(** The read does not belong to one of the sources [extra]. *)
Definition free_of (extra : list mid) (c : selectable) : bool :=
  match read_owner c with Some o => negb (bool_decide (o ∈ extra)) | None => true end.

Definition binds_more (extra bound bound' : list mid) : Prop :=
  forall x, x ∈ bound' <-> x ∈ bound \/ x ∈ extra.

Lemma binds_more_app extra bound bound' own :
  binds_more extra bound bound' -> binds_more extra (own ++ bound) (own ++ bound').
Proof. unfold binds_more. intros H x. rewrite !elem_of_app, H. naive_solver. Qed.

Lemma filter_concat {A} (f : A -> bool) ls :
  concat (map (List.filter f) ls) = List.filter f (concat ls).
Proof. induction ls as [|l ls IH]; simpl; [done|]. by rewrite List.filter_app, IH. Qed.

Lemma read_column_filter E extra bound bound' s :
  binds_more extra bound bound' ->
  read_column E bound' s = List.filter (free_of extra) <$> read_column E bound s.
Proof.
  intros Hb.
  assert (H : match s with SAttr _ | SCteOutput _ _ => True | _ => False end \/
              read_column E bound s = Ok [] /\ read_column E bound' s = Ok [])
    by (destruct s; simpl; auto).
  destruct H as [Hs|[-> ->]]; [|done].
  assert (Hr : forall b, read_column E b s =
             (owner ← selectable_owner_model E s; Ok (if bool_decide (owner ∈ b) then [] else [s])))
    by (by destruct s).
  rewrite !Hr. destruct (selectable_owner_model E s) as [o|] eqn:Ho; simpl; [|done].
  apply selectable_owner_read in Ho; [|done]. f_equal.
  destruct (bool_decide_reflect (o ∈ bound)) as [H1|H1]; simpl.
  - rewrite bool_decide_true; [done|]. apply Hb. auto.
  - unfold free_of. rewrite Ho. destruct (bool_decide_reflect (o ∈ extra)) as [H2|H2]; simpl.
    + rewrite bool_decide_true; [done|]. apply Hb. auto.
    + rewrite bool_decide_false; [done|]. intros Hx%Hb. naive_solver.
Qed.

Definition filters (extra : list mid) (f f' : res (list selectable)) : Prop :=
  f' = List.filter (free_of extra) <$> f.

Lemma filters_mapR {A} extra (f f' : A -> res (list selectable)) l :
  Forall (fun x => filters extra (f x) (f' x)) l ->
  mapR f' l = map (List.filter (free_of extra)) <$> mapR f l.
Proof. intros H. by apply mapR_fmap. Qed.

Lemma filters_app extra f f' g g' :
  filters extra f f' -> filters extra g g' ->
  filters extra (x ← f; y ← g; Ok (x ++ y)) (x ← f'; y ← g'; Ok (x ++ y)).
Proof.
  unfold filters. intros -> ->. destruct f as [x|]; simpl; [|done].
  destruct g as [y|]; simpl; [|done]. by rewrite List.filter_app.
Qed.

Lemma filters_concat {A} extra (f f' : A -> res (list selectable)) l :
  Forall (fun x => filters extra (f x) (f' x)) l ->
  filters extra (x ← mapR f l; Ok (concat x)) (x ← mapR f' l; Ok (concat x)).
Proof.
  intros H. unfold filters. rewrite (filters_mapR _ _ _ _ H).
  destruct (mapR f l); simpl; [|done]. by rewrite filter_concat.
Qed.

Section correlated.
Context (E : env) (extra : list mid).

Definition sel_ok (s : selectable) : Prop := forall bound bound', binds_more extra bound bound' ->
  filters extra (read_operand E bound s) (read_operand E bound' s).
Definition pred_ok (p : predicate) : Prop := forall bound bound', binds_more extra bound bound' ->
  filters extra (read_predicate E bound p) (read_predicate E bound' p).
Definition state_ok (st : select_state) : Prop := forall bound bound',
  binds_more extra bound bound' ->
  filters extra (correlated_columns E bound st) (correlated_columns E bound' st).

Lemma read_all_ok {A} (P : list mid -> A -> res (list selectable)) l bound bound' :
  binds_more extra bound bound' ->
  Forall (fun x => forall b b', binds_more extra b b' -> filters extra (P b x) (P b' x)) l ->
  mapR (P bound') l = map (List.filter (free_of extra)) <$> mapR (P bound) l.
Proof. intros Hb H. apply filters_mapR. eapply Forall_impl; [exact H|]. simpl. auto. Qed.

Lemma select_reads_ok m fs proj rm dist lock preds grps hav ords lim off joins cmp :
  Forall sel_ok fs -> Forall pred_ok preds -> Forall sel_ok grps -> Forall pred_ok hav ->
  Forall (fun o => opt_all sel_ok (ob_column o)) ords ->
  Forall (fun j => pred_ok (join_predicate j)) joins ->
  opt_all (fun c => state_ok (cmp_left c) /\ state_ok (cmp_right c)) cmp ->
  state_ok (SelectState m fs proj rm dist lock preds grps hav ords lim off joins cmp).
Proof.
  intros Hfs Hpreds Hgrps Hhav Hords Hjoins Hcmp bound bound' Hb.
  pose proof (binds_more_app _ _ _ (m :: map join_model joins) Hb) as Hb'.
  unfold filters. simpl in *.
  set (b := m :: map join_model joins ++ bound) in *.
  set (b' := m :: map join_model joins ++ bound') in *.
  rewrite (read_all_ok (read_operand E) fs b b') by done.
  rewrite (read_all_ok (read_operand E) grps b b') by done.
  rewrite (read_all_ok (fun b o => match o with
             OrderBy (Some c) _ => read_operand E b c | OrderBy None _ => Ok [] end) ords b b');
    [|done|].
  2:{ eapply Forall_impl; [exact Hords|]. intros [[c|] d] Ho b1 b2 Hb12; [by apply Ho|done]. }
  rewrite (read_all_ok (read_predicate E) preds b b') by done.
  rewrite (read_all_ok (read_predicate E) hav b b') by done.
  rewrite (read_all_ok (fun b j => match j with JoinSpec _ _ p => read_predicate E b p end)
             joins b b'); [|done|].
  2:{ eapply Forall_impl; [exact Hjoins|]. intros [jm k p] Hj b1 b2 Hb12. by apply Hj. }
  repeat match goal with
  | |- context [mapR ?f ?l] => destruct (mapR f l); simpl; [|done]
  end.
  destruct cmp as [[l r op]|]; simpl in *.
  - destruct Hcmp as [Hl Hr]. rewrite (Hl _ _ Hb'), (Hr _ _ Hb').
    destruct (correlated_columns E b l); simpl; [|done].
    destruct (correlated_columns E b r); simpl; [|done].
    by rewrite !List.filter_app, <- filter_concat, !map_app.
  - by rewrite !app_nil_r, <- filter_concat, !map_app.
Qed.

Lemma state_ok_all st : state_ok st.
Proof.
  apply (ast_state sel_ok (fun _ => True) (fun _ => True) (fun _ => True) pred_ok state_ok);
    try done; try (intros c H; exact H); try (intros s n H; exact H); try (intros s n1 n2 H; exact H).
  - intros a bound bound' Hb. by apply read_column_filter.
  - intros q Hq bound bound' Hb. destruct q; [by apply Hq|done].
  - intros e _ bound bound' Hb. simpl. apply filters_concat.
    apply Forall_forall. intros c _. by apply read_column_filter.
  - intros p r bound bound' Hb. by apply read_column_filter.
  - intros s op s' H H' bound bound' Hb.
    assert (Hgen : filters extra
        (x ← read_operand E bound s; y ← read_operand E bound s'; Ok (x ++ y))
        (x ← read_operand E bound' s; y ← read_operand E bound' s'; Ok (x ++ y)))
      by (apply filters_app; auto).
    destruct s' as [| |[q|]| | | | | |]; try exact Hgen.
  - intros s q n H Hq bound bound' Hb. destruct q as [q|]; simpl in *.
    + apply filters_app; auto.
    + unfold filters. rewrite (H _ _ Hb). by destruct (read_operand E bound s).
  - intros q n Hq bound bound' Hb. destruct q; [by apply Hq|done].
  - intros op cs Hcs bound bound' Hb. apply filters_concat.
    eapply Forall_impl; [exact Hcs|]. simpl. auto.
  - intros. by apply select_reads_ok.
Qed.
End correlated.

(** the free reads of a nested select.  Reading a query inside a scope that
    binds more sources returns, in order, exactly the reads that the query
    leaves free when read alone, without those of the enclosing sources: a
    source bound at any depth, never one that merely has the same columns,
    captures a read. *)
Theorem correlated_columns_scope E st extra :
  correlated_columns E extra st =
  List.filter (free_of extra) <$> correlated_columns E [] st.
Proof. apply state_ok_all. intros x. set_solver. Qed.

(** ** Concrete instances *)

Lemma demo_created_in_order b : created_in_order (demo b).
Proof.
  intros m d role H.
  destruct (decide (m = totals)) as [->|Ht].
  - vm_compute in H. injection H as <- <-. eexists; split; [reflexivity|]. by repeat constructor.
  - destruct (decide (m = top)) as [->|Htop].
    + vm_compute in H. injection H as <- <-. eexists; split; [reflexivity|]. by repeat constructor.
    + exfalso. revert H. unfold cte_of, demo. simpl. unfold demo_relations.
      destruct (decide (m = users)) as [->|]; [done|].
      destruct (decide (m = orders)) as [->|]; [done|].
      destruct (decide (m = boss)) as [->|]; [done|].
      simpl. by rewrite !lookup_insert_ne, lookup_empty by done.
Qed.

Lemma ensure_operand_in_scope_sound_witness :
  reads_within [orders] (SValue demo_expression).
Proof.
  exact (ensure_operand_in_scope_sound (demo BSqlite) (ScopeResolver [orders] [users])
           (SValue demo_expression) "select" QueryCompilationError true demo_built eq_refl).
Defined.

Lemma unambiguous_aliases_sound_witness :
  orders = orders /\ is_alias (demo BSqlite) orders = false /\ is_cte (demo BSqlite) orders = false.
Proof.
  refine (proj1 (unambiguous_aliases_sound (demo BSqlite) (ScopeResolver [orders; boss] [orders])
            0 2 orders orders "orders" "orders" _ _ _ _ _ _) eq_refl);
    first [lia | vm_compute; reflexivity].
Defined.

Lemma query_owner_identity_total_witness :
  exists i, query_owner_identity (demo BSqlite) 6 top = Ok i.
Proof.
  apply (query_owner_identity_total (demo BSqlite)); [apply demo_created_in_order|vm_compute; lia].
Defined.

(** [select(Order.user_id, Order.amount.sum()).group_by(Order.user_id)] *)
Definition grouped_select : select_state :=
  SelectState orders [SAttr order_user; SAggregate SUM (Some (SAttr order_amount)) None]
    None false false None [] [SAttr order_user] [] [] None None [] None.

Lemma grouping_covers_projection_witness :
  grouped (demo BSqlite) grouped_select (SAttr order_user).
Proof.
  apply (grouping_covers_projection (demo BSqlite) grouped_select (SAttr order_user)).
  - vm_compute. reflexivity.
  - vm_compute. reflexivity.
  - left. left.
  - left. split; [reflexivity|left].
Defined.
