(* ===== verification/CteGraph.v ===== *)
(** * CTE definitions of one statement

    [_cte_graph.py]: the reachable definitions in dependency order, and the
    name space they share with the physical sources of the statement. *)

From S2P Require Export QueryScope.

(** The fields of [_DefinitionGraph]; [_recursive_scope] is an argument of the
    walk. *)
Record graph := Graph {
  g_definitions : list did;
  g_emitted : gset did;
  g_names : gmap string did;
  g_physical_names : gset string;
  g_visiting : gset did
}.

Definition add_physical (name : string) (g : graph) : graph :=
  Graph (g_definitions g) (g_emitted g) (g_names g) ({[name]} ∪ g_physical_names g) (g_visiting g).

Definition casefolded_table_name (E : env) (m : mid) : res string :=
  n ← require_model_table_name E m; Ok (env_casefold E n).

Definition find_definition (E : env) (d : did) : res cte_definition :=
  match env_definitions E !! d with
  | Some def => Ok def
  | None => raise OtherError "no definition"
  end.

(** [_source].  [member] is [Some seed] when the query being walked is itself
    the recursive member of the innermost recursive definition, whose seed is
    [seed]: the test [member is query and seed is definition]. *)
Definition graph_source (E : env) (visit : did -> graph -> res graph)
    (member : option (option did)) (g : graph) (source : mid) : res graph :=
  if is_compound E source then
    raise QueryCompilationError "combined outputs require cte() before use as a query source"
  else
    match cte_of E source with
    | None =>
        n ← casefolded_table_name E source;
        let g := add_physical n g in
        match alias_of E source with
        | Some (original, _) => n' ← casefolded_table_name E original; Ok (add_physical n' g)
        | None => Ok g
        end
    | Some (d, _) =>
        def ← find_definition E d;
        if def_is_recursive_seed def then
          guardR (bool_decide (member = Some (Some d))) QueryCompilationError
            "recursive self reference escaped its direct member";;
          Ok g
        else
          let name := env_casefold E (def_name def) in
          reference_name ← casefolded_table_name E source;
          let g := if String.eqb reference_name name then g else add_physical reference_name g in
          _ ← guardR (bool_decide (g_names g !! name = None \/ g_names g !! name = Some d))
                QueryCompilationError "CTE names must be unique ignoring case";
          visit d (Graph (g_definitions g) (g_emitted g) (<[name := d]> (g_names g))
                     (g_physical_names g) (g_visiting g))
    end.

(** [collect] and [_predicate]. *)
Fixpoint collect (E : env) (visit : did -> graph -> res graph) (member : option (option did))
    (g : graph) (st : select_state) {struct st} : res graph :=
  match st with
  | SelectState model fields _ _ _ _ predicates _ having _ _ _ joins compound =>
      g1 ← match compound with
           | Some (CompoundSpec l r _) =>
               g' ← collect E visit None g l; collect E visit None g' r
           | None => foldR (graph_source E visit member) g (model :: map join_model joins)
           end;
      g2 ← foldR (fun g f => match f with
                             | SScalar (Some q) => collect E visit None g q
                             | SScalar None => subquery_error
                             | _ => Ok g
                             end) g1 fields;
      g3 ← foldR (graph_predicate E visit) g2 predicates;
      g4 ← foldR (graph_predicate E visit) g3 having;
      foldR (fun g j => match j with JoinSpec _ _ p => graph_predicate E visit g p end) g4 joins
  end
with graph_predicate (E : env) (visit : did -> graph -> res graph) (g : graph) (p : predicate)
    {struct p} : res graph :=
  match p with
  | ColumnComparisonPredicate _ _ (SScalar (Some q)) => collect E visit None g q
  | ColumnComparisonPredicate _ _ (SScalar None) => subquery_error
  | SubqueryMembershipPredicate _ (Some q) _ | ExistencePredicate (Some q) _ =>
      collect E visit None g q
  | SubqueryMembershipPredicate _ None _ | ExistencePredicate None _ => subquery_error
  | CompoundPredicate _ cs => foldR (graph_predicate E visit) g cs
  | NegatedPredicate c => graph_predicate E visit g c
  | _ => Ok g
  end.

(** [_definition].  Every nested call has one more definition in [_visiting],
    so the number of definitions bounds the recursion. *)
Fixpoint graph_definition (E : env) (fuel : nat) (d : did) (g : graph) : res graph :=
  match fuel with
  | O => raise OtherError "RecursionError"
  | S fuel =>
      _ ← guardR (bool_decide (d ∉ g_visiting g)) QueryCompilationError "CTE dependency cycle";
      if bool_decide (d ∈ g_emitted g) then Ok g
      else
        def ← find_definition E d;
        let g := Graph (g_definitions g) (g_emitted g) (g_names g) (g_physical_names g)
                   ({[d]} ∪ g_visiting g) in
        g ← collect E (graph_definition E fuel) None g (def_state def);
        g ← match def_recursive_step def with
            | Some step =>
                collect E (graph_definition E fuel) (Some (def_recursive_seed def)) g step
            | None => Ok g
            end;
        Ok (Graph (g_definitions g ++ [d]) ({[d]} ∪ g_emitted g) (g_names g)
              (g_physical_names g) (g_visiting g ∖ {[d]}))
  end.

Definition graph_fuel (E : env) : nat := S (S (size (env_definitions E))).

Definition graph_finish (g : graph) : res (list did) :=
  _ ← guardR (bool_decide (dom (g_names g) ∩ g_physical_names g = ∅)) QueryCompilationError
        "CTE name collides with a visible query source";
  Ok (g_definitions g).

(** [collect_cte_definitions] *)
Definition collect_cte_definitions (E : env) (st : select_state) (outer_models : list mid)
    : res (list did) :=
  names ← mapR (casefolded_table_name E) outer_models;
  g ← collect E (graph_definition E (graph_fuel E)) None
        (Graph [] ∅ ∅ (list_to_set names) ∅) st;
  graph_finish g.

(** ** The walk as a sequence of events *)

Inductive event := EvSource (direct : bool) (m : mid) | EvError.

Fixpoint events (direct : bool) (st : select_state) {struct st} : list event :=
  match st with
  | SelectState model fields _ _ _ _ predicates _ having _ _ _ joins compound =>
      match compound with
      | Some (CompoundSpec l r _) => events false l ++ events false r
      | None => map (EvSource direct) (model :: map join_model joins)
      end ++
      concat (map (fun f => match f with
                            | SScalar (Some q) => events false q
                            | SScalar None => [EvError]
                            | _ => []
                            end) fields) ++
      concat (map predicate_events predicates) ++
      concat (map predicate_events having) ++
      concat (map (fun j => match j with JoinSpec _ _ p => predicate_events p end) joins)
  end
with predicate_events (p : predicate) {struct p} : list event :=
  match p with
  | ColumnComparisonPredicate _ _ (SScalar (Some q)) => events false q
  | ColumnComparisonPredicate _ _ (SScalar None) => [EvError]
  | SubqueryMembershipPredicate _ (Some q) _ | ExistencePredicate (Some q) _ => events false q
  | SubqueryMembershipPredicate _ None _ | ExistencePredicate None _ => [EvError]
  | CompoundPredicate _ cs => concat (map predicate_events cs)
  | NegatedPredicate c => predicate_events c
  | _ => []
  end.

Definition event_step (E : env) (visit : did -> graph -> res graph)
    (member : option (option did)) (g : graph) (e : event) : res graph :=
  match e with
  | EvSource direct m => graph_source E visit (if direct then member else None) g m
  | EvError => subquery_error
  end.

(** The definitions a query refers to at any depth of nesting, the reference
    of a recursive member to its own seed excepted. *)
Definition refers (E : env) (st : select_state) (d : did) : Prop :=
  exists direct m role def, EvSource direct m ∈ events true st /\ cte_of E m = Some (d, role) /\
    env_definitions E !! d = Some def /\ def_is_recursive_seed def = false.

(** The definitions a definition's body and recursive member refer to. *)
Definition depends (E : env) (d d' : did) : Prop :=
  exists def, env_definitions E !! d = Some def /\
    (refers E (def_state def) d' \/
     exists step, def_recursive_step def = Some step /\ refers E step d').

(** A source that reads the seed of a recursive definition is in the member [member] of
    that definition. *)
Definition seed_source (E : env) (member : option (option did)) (m : mid) : Prop :=
  forall d role def, cte_of E m = Some (d, role) -> env_definitions E !! d = Some def ->
    def_is_recursive_seed def = true -> member = Some (Some d).

(** Below [st] seeds are read only as direct sources of [st] itself, and only the seed of
    the definition whose recursive member it is ([member]). *)
Definition seeds_within (E : env) (member : option (option did)) (st : select_state) : Prop :=
  forall direct m, EvSource direct m ∈ events true st -> seed_source E (if direct then member else None) m.

(** The body of a definition reads no seed; its recursive member only its own, directly. *)
Definition self_only (E : env) (d : did) : Prop := forall def, env_definitions E !! d = Some def ->
  seeds_within E None (def_state def) /\
  forall step, def_recursive_step def = Some step -> seeds_within E (Some (def_recursive_seed def)) step.

Lemma foldR_concat {S A B} (f : S -> A -> res S) (g : S -> B -> res S) (h : B -> list A) s l :
  Forall (fun x => forall s, g s x = foldR f s (h x)) l ->
  foldR g s l = foldR f s (concat (map h l)).
Proof.
  intros H. revert s. induction H as [|x l Hx _ IH]; intros s; [done|].
  simpl. rewrite foldR_cons, foldR_app, Hx. destruct (foldR f s (h x)); simpl; [apply IH|done].
Qed.

Lemma foldR_map {S A B} (f : S -> A -> res S) (h : B -> A) s l :
  foldR f s (map h l) = foldR (fun s x => f s (h x)) s l.
Proof.
  revert s. induction l as [|x l IH]; intros s; [done|]. simpl. rewrite !foldR_cons.
  destruct (f s (h x)); simpl; [apply IH|done].
Qed.

Section collect_events.
Context (E : env) (visit : did -> graph -> res graph).

Definition walks_state (st : select_state) : Prop := forall member direct g,
  foldR (event_step E visit member) g (events direct st) =
  collect E visit (if direct then member else None) g st.
Definition walks_pred (p : predicate) : Prop := forall member g,
  graph_predicate E visit g p = foldR (event_step E visit member) g (predicate_events p).
Definition walks_field (s : selectable) : Prop :=
  match s with SScalar (Some q) => walks_state q | _ => True end.

Lemma collect_events st : walks_state st.
Proof.
  apply (ast_state walks_field (fun _ => True) (fun _ => True) (fun _ => True) walks_pred walks_state);
    try done.
  - intros s op s' _ Hs' member g. destruct s' as [| |[q|]| | | | | |]; try done.
    symmetry. apply (Hs' member false).
  - intros s q n _ Hq member g. destruct q as [q|]; [|done]. symmetry. apply (Hq member false).
  - intros q n Hq member g. destruct q as [q|]; [|done]. symmetry. apply (Hq member false).
  - intros op cs Hcs member g. apply foldR_concat. eapply Forall_impl; [exact Hcs|]. eauto.
  - intros m fs proj rm dist lock preds grps hav ords lim off joins cmp
      Hfs Hpreds _ Hhav _ Hjoins Hcmp member direct g.
    set (F := event_step E visit member).
    assert (Hp : forall l, Forall walks_pred l -> forall g,
              foldR (graph_predicate E visit) g l = foldR F g (concat (map predicate_events l))).
    { intros l Hl g'. apply foldR_concat. eapply Forall_impl; [exact Hl|]. simpl. eauto. }
    cbn [events collect]. rewrite !foldR_app.
    assert (Hsrc : match cmp with
        | Some (CompoundSpec l r _) =>
            g' ← collect E visit None g l; collect E visit None g' r
        | None => foldR (graph_source E visit (if direct then member else None)) g
                    (m :: map join_model joins)
        end = foldR F g match cmp with
        | Some (CompoundSpec l r _) => events false l ++ events false r
        | None => map (EvSource direct) (m :: map join_model joins) end).
    { destruct cmp as [[l r op]|].
      - destruct Hcmp as [Hl Hr]. rewrite foldR_app. simpl in Hl, Hr.
        unfold F. rewrite (Hl member false). destruct (collect E visit None g l); [|done].
        simpl. symmetry. apply (Hr member false).
      - unfold F. by rewrite (foldR_map _ (EvSource direct) g (m :: map join_model joins)). }
    rewrite <- Hsrc. destruct (match cmp with None => _ | _ => _ end) as [g1|]; simpl; [|done].
    rewrite foldR_app, <- (foldR_concat F (fun g f => match f with
                             | SScalar (Some q) => collect E visit None g q
                             | SScalar None => subquery_error
                             | _ => Ok g
                             end)).
    2:{ eapply Forall_impl; [exact Hfs|]. intros [| |[q|]| | | | | |] Hf s; try done.
        symmetry. apply (Hf member false). }
    destruct (foldR _ g1 fs) as [g2|]; simpl; [|done].
    rewrite foldR_app, <- Hp by done. destruct (foldR _ g2 preds) as [g3|]; simpl; [|done].
    rewrite foldR_app, <- Hp by done. destruct (foldR _ g3 hav) as [g4|]; simpl; [|done].
    symmetry. apply foldR_concat. eapply Forall_impl; [exact Hjoins|].
    intros [jm k p] Hj s. apply Hj.
Qed.
End collect_events.

(** ** The invariant of the walk *)

Definition named (E : env) (g : graph) (d : did) : Prop :=
  exists def, env_definitions E !! d = Some def /\
              g_names g !! env_casefold E (def_name def) = Some d.

Record graph_wf (E : env) (g : graph) : Prop := {
  wf_emitted : forall d, d ∈ g_emitted g <-> d ∈ g_definitions g;
  wf_nodup : NoDup (g_definitions g);
  wf_order : forall i d d', g_definitions g !! i = Some d -> depends E d d' ->
               d' ∈ take i (g_definitions g);
  wf_visiting : forall d, d ∈ g_visiting g -> d ∉ g_definitions g;
  wf_named : forall d, d ∈ g_definitions g -> named E g d;
  wf_self : forall d, d ∈ g_definitions g -> self_only E d
}.

Record graph_extends (g g' : graph) : Prop := {
  ext_definitions : g_definitions g `prefix_of` g_definitions g';
  ext_visiting : g_visiting g' = g_visiting g;
  ext_names : g_names g ⊆ g_names g';
  ext_physical : g_physical_names g ⊆ g_physical_names g'
}.

#[export] Instance graph_extends_preorder : PreOrder graph_extends.
Proof.
  split.
  - intros g. by split.
  - intros g1 g2 g3 [H1 H2 H3 H4] [H1' H2' H3' H4']. split; [by etrans|congruence|by etrans|set_solver].
Qed.

Lemma extends_definitions g g' d :
  graph_extends g g' -> d ∈ g_definitions g -> d ∈ g_definitions g'.
Proof. intros [[k ->] _ _ _] Hd. apply elem_of_app. by left. Qed.

Lemma extends_named E g g' d : graph_extends g g' -> named E g d -> named E g' d.
Proof.
  intros [_ _ Hn _] (def & Hd & Hl). exists def. split; [done|]. by eapply lookup_weaken.
Qed.

(** What the statement's own reference to [m] leaves in the graph. *)
Definition source_recorded (E : env) (g : graph) (m : mid) : Prop :=
  (forall d role def, cte_of E m = Some (d, role) -> env_definitions E !! d = Some def ->
     def_is_recursive_seed def = false -> d ∈ g_definitions g) /\
  (cte_of E m = None -> forall n, casefolded_table_name E m = Ok n -> n ∈ g_physical_names g).

Lemma extends_recorded E g g' m :
  graph_extends g g' -> source_recorded E g m -> source_recorded E g' m.
Proof.
  intros He [H1 H2]. split; [intros; eapply extends_definitions; eauto|].
  intros Hc n Hn. eapply ext_physical; [done|]. by apply H2.
Qed.

Definition visit_ok (E : env) (visit : did -> graph -> res graph) : Prop := forall d g g',
  graph_wf E g -> named E g d -> visit d g = Ok g' ->
  graph_wf E g' /\ graph_extends g g' /\ d ∈ g_definitions g'.

Lemma add_physical_ok E n g :
  graph_wf E g -> graph_wf E (add_physical n g) /\ graph_extends g (add_physical n g).
Proof.
  intros [H1 H2 H3 H4 H5 H6]. split; split; try done. simpl. set_solver.
Qed.

Lemma graph_source_ok E visit member g m g' :
  visit_ok E visit -> graph_wf E g -> graph_source E visit member g m = Ok g' ->
  graph_wf E g' /\ graph_extends g g' /\ source_recorded E g' m /\ seed_source E member m.
Proof.
  intros Hv Hg H. unfold graph_source in H. destruct (is_compound E m); [done|].
  destruct (cte_of E m) as [[d role]|] eqn:Hc.
  - bind_inv H as def Hdef. unfold find_definition in Hdef.
    destruct (env_definitions E !! d) as [def'|] eqn:Hd; [|done]. injection Hdef as ->.
    destruct (def_is_recursive_seed def) eqn:Hseed.
    + bind_inv H as u Hu. injection H as <-. apply guardR_Ok, bool_decide_eq_true in Hu.
      split_and!; [done|done| |].
      * split; [|by rewrite Hc]. intros d' role' def' Hc' Hd' Hs'. rewrite Hc in Hc'.
        simplify_eq. congruence.
      * intros d' role' def' Hc' Hd' Hs'. rewrite Hc in Hc'. by simplify_eq.
    + bind_inv H as refn Href. set (g1 := if String.eqb _ _ then g else _) in H.
      assert (Hg1 : graph_wf E g1 /\ graph_extends g g1).
      { subst g1. destruct (String.eqb _ _); [by split|by apply add_physical_ok]. }
      clearbody g1. destruct Hg1 as [Hw1 He1].
      bind_inv H as u Hu. apply guardR_Ok, bool_decide_eq_true in Hu.
      set (g2 := Graph _ _ _ _ _) in H.
      assert (He2 : graph_extends g1 g2).
      { split; simpl; try done. apply map_subseteq_spec. intros n x Hx.
        destruct (decide (n = env_casefold E (def_name def))) as [->|Hne];
          [|by rewrite lookup_insert_ne]. rewrite lookup_insert_eq. naive_solver. }
      assert (Hw2 : graph_wf E g2).
      { destruct Hw1 as [H1 H2 H3 H4 H5 H6]. split; try done.
        intros x Hx. eapply extends_named; [exact He2|]. by apply H5. }
      destruct (Hv d g2 g') as (Hw & He & Hin); [done| |done|].
      { exists def. split; [done|]. apply lookup_insert_eq. }
      split_and!; [done|by etrans; [|etrans]| |].
      * split; [|by rewrite Hc]. intros d' role' def' Hc' Hd' Hs'. rewrite Hc in Hc'. by simplify_eq.
      * intros d' role' def' Hc' Hd' Hs'. rewrite Hc in Hc'. simplify_eq. congruence.
  - bind_inv H as n Hn. destruct (add_physical_ok E n g Hg) as [Hw1 He1].
    assert (Hrec : forall g'', graph_extends (add_physical n g) g'' -> source_recorded E g'' m).
    { intros g'' He''. eapply extends_recorded; [exact He''|]. split; [by rewrite Hc|].
      intros _ n' Hn'. rewrite Hn in Hn'. injection Hn' as <-. simpl. set_solver. }
    assert (Hno : seed_source E member m) by (intros d role def Hc'; by rewrite Hc in Hc').
    destruct (alias_of E m) as [[original r]|].
    + bind_inv H as n' Hn'. injection H as <-.
      destruct (add_physical_ok E n' _ Hw1) as [Hw2 He2].
      split_and!; [done|by etrans|by apply Hrec|done].
    + injection H as <-. split_and!; [done|done|by apply Hrec|done].
Qed.

Lemma events_ok E visit member evs g g' :
  visit_ok E visit -> graph_wf E g -> foldR (event_step E visit member) g evs = Ok g' ->
  graph_wf E g' /\ graph_extends g g' /\
  forall direct m, EvSource direct m ∈ evs ->
    source_recorded E g' m /\ seed_source E (if direct then member else None) m.
Proof.
  intros Hv. revert g. induction evs as [|e evs IH]; intros g Hg H.
  - injection H as <-. split; [done|split; [done|]]. by intros ? ? []%not_elem_of_nil.
  - rewrite foldR_cons in H. bind_inv H as g1 H1. destruct e as [direct m|]; [|done].
    apply (graph_source_ok _ _ _ _ _ _ Hv Hg) in H1 as (Hw1 & He1 & Hr1 & Hs1).
    destruct (IH _ Hw1 H) as (Hw & He & Hr). split; [done|split; [by etrans|]].
    intros direct' m' Hin. apply elem_of_cons in Hin as [[= -> ->]|Hin]; [|by eapply Hr].
    split; [by eapply extends_recorded|done].
Qed.

(** Walking a query under a good [visit]. *)
Lemma collect_ok E visit member g st g' :
  visit_ok E visit -> graph_wf E g -> collect E visit member g st = Ok g' ->
  graph_wf E g' /\ graph_extends g g' /\
  (forall d, refers E st d -> d ∈ g_definitions g') /\
  (forall direct m, EvSource direct m ∈ events true st -> source_recorded E g' m) /\
  seeds_within E member st.
Proof.
  intros Hv Hg H.
  rewrite <- (collect_events E visit st member true g) in H.
  destruct (events_ok _ _ _ _ _ _ Hv Hg H) as (Hw & He & Hr).
  split_and!; [done|done| |intros direct m Hin; by apply (Hr direct m Hin)|intros direct m Hin; by apply (Hr direct m Hin)].
  intros d (direct & m & role & def & Hin & Hc & Hd & Hs).
  destruct (Hr _ _ Hin) as [[Hdef _] _]. by eapply Hdef.
Qed.

(** Emitting a definition after everything it depends on keeps the invariant. *)
Lemma emit_wf E d def g :
  graph_wf E g -> env_definitions E !! d = Some def -> named E g d -> d ∈ g_visiting g ->
  (forall x, refers E (def_state def) x -> x ∈ g_definitions g) ->
  (forall step, def_recursive_step def = Some step ->
     forall x, refers E step x -> x ∈ g_definitions g) ->
  self_only E d ->
  graph_wf E (Graph (g_definitions g ++ [d]) ({[d]} ∪ g_emitted g) (g_names g)
                (g_physical_names g) (g_visiting g ∖ {[d]})).
Proof.
  intros Hw Hd Hn Hvis Hstate Hstep Hself.
  assert (Hnew : d ∉ g_definitions g) by by apply (wf_visiting _ _ Hw).
  destruct Hw as [W1 W2 W3 W4 W5 W6]. split; simpl.
  - intros x. rewrite elem_of_app, elem_of_union, W1, list_elem_of_singleton, elem_of_singleton.
    naive_solver.
  - apply NoDup_app. split; [done|split; [|apply NoDup_singleton]].
    intros x Hx ->%list_elem_of_singleton. done.
  - intros i x x' Hi Hdep. apply lookup_app_Some in Hi as [Hi|[Hlen Hi]].
    + rewrite take_app_le by (apply lookup_lt_Some in Hi; lia). by eapply W3.
    + apply list_lookup_singleton_Some in Hi as [Hi <-].
      rewrite take_app_ge by lia. apply elem_of_app. left.
      destruct Hdep as (def' & Hd' & Hdep). rewrite Hd in Hd'. injection Hd' as <-.
      destruct Hdep as [Hdep|(step & Hs & Hdep)]; [by apply Hstate|by eapply Hstep].
  - intros x Hx. rewrite elem_of_app, list_elem_of_singleton.
    intros [Hx'| ->]; [|set_solver]. apply (W4 x); [set_solver|done].
  - intros x Hx. apply elem_of_app in Hx as [Hx| ->%list_elem_of_singleton]; [by apply W5|done].
  - intros x Hx. apply elem_of_app in Hx as [Hx| ->%list_elem_of_singleton]; [by apply W6|done].
Qed.

Lemma graph_definition_ok E fuel : visit_ok E (graph_definition E fuel).
Proof.
  induction fuel as [|fuel IH]; intros d g g' Hg Hn H; simpl in H; [done|].
  bind_inv H as u Hu. apply guardR_Ok, bool_decide_eq_true in Hu.
  case_bool_decide as Hem.
  { injection H as <-. split; [done|split; [done|]]. by apply (wf_emitted _ _ Hg). }
  bind_inv H as def Hdef. unfold find_definition in Hdef.
  destruct (env_definitions E !! d) as [def'|] eqn:Hd; [|done]. injection Hdef as ->.
  bind_inv H as g2 H2. bind_inv H as g3 H3. injection H as <-.
  set (g1 := Graph _ _ _ _ _) in H2.
  assert (Hw1 : graph_wf E g1).
  { destruct Hg as [W1 W2 W3 W4 W5 W6]. split; try done. simpl. intros x Hx.
    apply elem_of_union in Hx as [Hx|Hx]; [|by apply W4].
    apply elem_of_singleton in Hx as ->. by rewrite <- W1. }
  destruct (collect_ok _ _ _ _ _ _ IH Hw1 H2) as (Hw2 & He2 & Hr2 & _ & Hseeds2).
  assert (H3' : graph_wf E g3 /\ graph_extends g2 g3 /\
            (forall step, def_recursive_step def = Some step ->
               (forall x, refers E step x -> x ∈ g_definitions g3) /\
               seeds_within E (Some (def_recursive_seed def)) step)).
  { destruct (def_recursive_step def) as [step|].
    - destruct (collect_ok _ _ _ _ _ _ IH Hw2 H3) as (Hw3 & He3 & Hr3 & _ & Hs3).
      split; [done|split; [done|]]. by intros ? [= <-].
    - injection H3 as <-. by split. }
  destruct H3' as (Hw3 & He3 & Hr3).
  assert (Hvis : g_visiting g3 = {[d]} ∪ g_visiting g)
    by (rewrite (ext_visiting _ _ He3), (ext_visiting _ _ He2); done).
  assert (Hn3 : named E g3 d) by (eapply extends_named, extends_named; [exact He3|exact He2|exact Hn]).
  split; [|split].
  - apply (emit_wf E d def); try done; [set_solver|..].
    + intros x Hx. eapply extends_definitions; [exact He3|]. by apply Hr2.
    + intros step Hstep. by apply Hr3.
    + intros def' Hd'. rewrite Hd in Hd'. injection Hd' as <-. split; [done|]. intros step Hstep. by apply Hr3.
  - split; simpl.
    + etrans; [apply He2|etrans; [apply He3|]]. by apply prefix_app_r.
    + rewrite Hvis. set_solver.
    + etrans; [apply He2|apply He3].
    + etrans; [apply He2|apply He3].
  - simpl. apply elem_of_app. right. by apply list_elem_of_singleton.
Qed.

Lemma empty_graph_wf E names : graph_wf E (Graph [] ∅ ∅ names ∅).
Proof.
  split; simpl.
  - set_solver.
  - constructor.
  - intros i d d' H. by rewrite lookup_nil in H.
  - set_solver.
  - intros d H. by apply not_elem_of_nil in H.
  - intros d H. by apply not_elem_of_nil in H.
Qed.

Lemma collect_definitions_inv E st outer ds :
  collect_cte_definitions E st outer = Ok ds ->
  exists names g, mapR (casefolded_table_name E) outer = Ok names /\
    collect E (graph_definition E (graph_fuel E)) None (Graph [] ∅ ∅ (list_to_set names) ∅) st
      = Ok g /\
    ds = g_definitions g /\ dom (g_names g) ∩ g_physical_names g = ∅.
Proof.
  unfold collect_cte_definitions, graph_finish. intros H.
  bind_inv H as names Hn. bind_inv H as g Hg. bind_inv H as u Hu. injection H as <-.
  apply guardR_Ok, bool_decide_eq_true in Hu. eauto 6.
Qed.

(** C22: definitions come in dependency order.  The definitions emitted for a
    statement are distinct, include every definition the statement refers to at
    any depth of nesting, and each one is preceded by every definition its body
    and its recursive member refer to; so there is no cycle among them.  The seed of a
    recursive definition is read by no statement and no body, and by a recursive member
    only as a direct source and only when it is the seed of its own definition. *)
Theorem cte_definitions_ordered E st outer ds
  (Hok : collect_cte_definitions E st outer = Ok ds) :
  NoDup ds /\ (forall d, refers E st d -> d ∈ ds) /\
  (forall i d d', ds !! i = Some d -> depends E d d' -> d' ∈ take i ds) /\
  seeds_within E None st /\ (forall d, d ∈ ds -> self_only E d).
Proof.
  destruct (collect_definitions_inv _ _ _ _ Hok) as (names & g & _ & Hg & -> & _).
  destruct (collect_ok _ _ _ _ _ _ (graph_definition_ok E _) (empty_graph_wf E _) Hg)
    as ([_ H1 H2 _ _ H4] & _ & H3 & _ & H5). auto.
Qed.

(** one name space.  Two distinct emitted definitions have names that
    differ ignoring case, and no emitted definition has the name of a table or
    alias of the statement, at any depth, nor of an enclosing query's source. *)
Theorem cte_definitions_names E st outer ds
  (Hok : collect_cte_definitions E st outer = Ok ds) :
  forall d def, d ∈ ds -> env_definitions E !! d = Some def ->
  (forall d' def', d' ∈ ds -> env_definitions E !! d' = Some def' ->
     env_casefold E (def_name def') = env_casefold E (def_name def) -> d' = d) /\
  (forall direct m n, EvSource direct m ∈ events true st -> cte_of E m = None ->
     casefolded_table_name E m = Ok n -> n <> env_casefold E (def_name def)) /\
  (forall m n, m ∈ outer -> casefolded_table_name E m = Ok n ->
     n <> env_casefold E (def_name def)).
Proof.
  destruct (collect_definitions_inv _ _ _ _ Hok) as (names & g & Hnames & Hg & -> & Hdisj).
  destruct (collect_ok _ _ _ _ _ _ (graph_definition_ok E _) (empty_graph_wf E _) Hg)
    as ([_ _ _ _ Hnamed _] & Hext & _ & Hrec & _).
  intros d def Hin Hdef.
  assert (Hname : forall d def, d ∈ g_definitions g -> env_definitions E !! d = Some def ->
            g_names g !! env_casefold E (def_name def) = Some d).
  { intros x xdef Hx Hxd. destruct (Hnamed x Hx) as (def' & Hd' & Hl). congruence. }
  assert (Hphys : forall n, n ∈ g_physical_names g -> n <> env_casefold E (def_name def)).
  { intros n Hn ->. apply (elem_of_empty (C := gset string) (env_casefold E (def_name def))).
    rewrite <- Hdisj. apply elem_of_intersection. split; [|done].
    apply elem_of_dom. exists d. by apply Hname. }
  split; [|split].
  - intros d' def' Hin' Hdef' Heq. pose proof (Hname _ _ Hin' Hdef') as H1. rewrite Heq in H1.
    rewrite (Hname _ _ Hin Hdef) in H1. congruence.
  - intros direct m n Hev Hc Hn. apply Hphys. by apply (Hrec _ _ Hev).
  - intros m n Hm Hn. apply Hphys. eapply (ext_physical _ _ Hext). simpl.
    apply elem_of_list_to_set. destruct (mapR_elem _ _ _ _ Hnames Hm) as (y & Hy & Hy').
    rewrite Hn in Hy'. by injection Hy' as <-.
Qed.

(** ** Termination *)

Definition recursion_error : exn := Exn OtherError "RecursionError".

(** The walk does not exhaust the recursion and leaves [_visiting] as it was. *)
Definition safe (vis : gset did) (r : res graph) : Prop :=
  match r with Ok g => g_visiting g = vis | Raise e => e <> recursion_error end.

Lemma safe_bind vis vis' r (f : graph -> res graph) :
  safe vis r -> (forall g, g_visiting g = vis -> safe vis' (f g)) -> safe vis' (r ≫= f).
Proof. destruct r; simpl; auto. Qed.

(** Reading a class attribute never raises the recursion error. *)
Lemma bind_safe {A} vis (r : res A) (f : A -> res graph) :
  (forall e, r = Raise e -> e <> recursion_error) -> (forall a, safe vis (f a)) ->
  safe vis (r ≫= f).
Proof. destruct r; simpl; auto. Qed.

Lemma casefolded_table_name_safe E m e :
  casefolded_table_name E m = Raise e -> e <> recursion_error.
Proof.
  unfold casefolded_table_name, require_model_table_name.
  destruct (env_relations E !! m ≫= rel_table_name); simpl; intros [=]; by subst.
Qed.

Lemma guardR_safe b c m e : c <> OtherError -> guardR b c m = Raise e -> e <> recursion_error.
Proof. destruct b; intros Hc [=]. subst. unfold recursion_error. congruence. Qed.

Lemma find_definition_safe E d e : find_definition E d = Raise e -> e <> recursion_error.
Proof. unfold find_definition. destruct (_ !! d); intros [=]; by subst. Qed.

#[local] Hint Resolve casefolded_table_name_safe guardR_safe find_definition_safe : graph_safe.

Lemma graph_source_safe E visit member vis g m :
  (forall d g, d ∈ dom (env_definitions E) -> g_visiting g = vis -> safe vis (visit d g)) ->
  g_visiting g = vis -> safe vis (graph_source E visit member g m).
Proof.
  intros Hv Hg. unfold graph_source. destruct (is_compound E m); [simpl; done|].
  destruct (cte_of E m) as [[d role]|].
  - destruct (find_definition E d) as [def|e] eqn:Hf; simpl; [|by eauto with graph_safe].
    destruct (def_is_recursive_seed def).
    + apply bind_safe; [|done]. intros e He. by eapply guardR_safe in He.
    + apply bind_safe; [by eauto with graph_safe|]. intros n. apply bind_safe.
      * intros e He. by eapply guardR_safe in He.
      * intros _. apply Hv.
        -- unfold find_definition in Hf. destruct (_ !! d) eqn:Hd; [|done]. by eapply elem_of_dom_2.
        -- simpl. by destruct (String.eqb _ _).
  - apply bind_safe; [by eauto with graph_safe|]. intros n.
    destruct (alias_of E m) as [[o r]|]; [|done].
    apply bind_safe; [by eauto with graph_safe|done].
Qed.

Lemma collect_safe E visit member vis g st :
  (forall d g, d ∈ dom (env_definitions E) -> g_visiting g = vis -> safe vis (visit d g)) ->
  g_visiting g = vis -> safe vis (collect E visit member g st).
Proof.
  intros Hv Hg. rewrite <- (collect_events E visit st member true g).
  revert g Hg. induction (events true st) as [|ev evs IH]; intros g Hg; [done|].
  rewrite foldR_cons. apply (safe_bind vis); [|by apply IH].
  destruct ev; [by apply graph_source_safe|done].
Qed.

Lemma room_shrinks (all vis : gset did) d :
  d ∈ all -> d ∉ vis -> size (all ∖ ({[d]} ∪ vis)) < size (all ∖ vis).
Proof.
  intros Hd Hv. apply subset_size. split.
  - intros x. rewrite !elem_of_difference, elem_of_union. tauto.
  - intros H. specialize (H d). rewrite !elem_of_difference, elem_of_union, elem_of_singleton in H.
    tauto.
Qed.

Lemma graph_definition_safe E fuel d g :
  d ∈ dom (env_definitions E) -> g_visiting g ⊆ dom (env_definitions E) ->
  size (dom (env_definitions E) ∖ g_visiting g) < fuel ->
  safe (g_visiting g) (graph_definition E fuel d g).
Proof.
  revert d g. induction fuel as [|fuel IH]; intros d g Hd Hsub Hfuel; [lia|]. simpl.
  destruct (bool_decide_reflect (d ∉ g_visiting g)) as [Hnd|]; simpl; [|done].
  case_bool_decide as Hem; [done|].
  destruct (find_definition E d) as [def|e] eqn:Hf; simpl; [|by eapply find_definition_safe].
  set (vis := {[d]} ∪ g_visiting g).
  assert (Hvisit : forall x g', x ∈ dom (env_definitions E) -> g_visiting g' = vis ->
            safe vis (graph_definition E fuel x g')).
  { intros x g' Hx Hg'. rewrite <- Hg'. apply IH; [done|set_solver|]. rewrite Hg'.
    apply (Nat.lt_le_trans _ (size (dom (env_definitions E) ∖ g_visiting g))); [|lia].
    apply room_shrinks; [done|by intros ?]. }
  apply (safe_bind vis); [by apply collect_safe|]. intros g2 Hg2.
  apply (safe_bind vis).
  - destruct (def_recursive_step def); [by apply collect_safe|done].
  - intros g3 Hg3. simpl. rewrite Hg3. unfold vis. set_solver.
Qed.

Lemma collect_top_safe E names st :
  safe ∅ (collect E (graph_definition E (graph_fuel E)) None
            (Graph [] ∅ ∅ (list_to_set names) ∅) st).
Proof.
  apply collect_safe; [|done]. intros d g Hd Hg. rewrite <- Hg.
  apply graph_definition_safe; [done|rewrite Hg; set_solver|].
  rewrite Hg, difference_empty_L, size_dom. unfold graph_fuel. lia.
Qed.

Lemma table_names_safe E outer e :
  mapR (casefolded_table_name E) outer = Raise e -> e <> recursion_error.
Proof.
  induction outer as [|m outer IH]; [done|]. rewrite mapR_cons.
  destruct (casefolded_table_name E m) as [n|e'] eqn:Hm; simpl.
  - destruct (mapR _ outer); simpl; [done|]. intros [= ->]. by apply IH.
  - intros [= ->]. by eapply casefolded_table_name_safe.
Qed.

(** collecting definitions terminates, whatever the definitions refer to,
    cycles included: a definition being visited is never entered again, so the
    depth of the walk is at most the number of definitions and the recursion
    allowed is never exhausted. *)
Theorem collect_cte_definitions_total E st outer :
  collect_cte_definitions E st outer <> Raise recursion_error.
Proof.
  unfold collect_cte_definitions.
  destruct (mapR (casefolded_table_name E) outer) as [names|e] eqn:Hn.
  2:{ intros [= ->]. by eapply table_names_safe. }
  pose proof (collect_top_safe E names st) as Hs. cbv beta iota delta [mbind res_bind].
  destruct (collect _ _ _ _ st) as [g|e]; [|intros [= ->]; by apply Hs].
  unfold graph_finish. destruct (guardR _ _ _) eqn:Hg; [done|].
  intros [= ->]. by eapply guardR_safe in Hg.
Qed.

(** ** Concrete instances *)

(** [select(top).project(...)]: [top] refers to [totals]. *)
Definition nested_cte_select : select_state :=
  SelectState top [SCteOutput 0 top] None false false None [] [] [] [] None None [] None.

(** [recursive_cte(select(User).project(...), name="tree").step(...)]: definition 2, whose
    member reads its seed, definition 1, directly. *)
Definition tree_seed : mid := 6%positive.
Definition tree : mid := 7%positive.
Definition anchor_state : select_state :=
  SelectState users [SAttr user_id] (Some (int_projection "user_id")) false false None [] [] [] [] None None [] None.
Definition member_state : select_state :=
  SelectState tree_seed [SCteOutput 0 tree_seed] (Some (int_projection "user_id")) false false None
    [] [] [] [] None None [] None.
Definition tree_env : env :=
  Env (<[tree_seed := Relation "tree" (Some "tree") (Some BSqlite) None (RkCte 1%positive 4%positive)]>
         (<[tree := Relation "tree" (Some "tree") (Some BSqlite) None (RkCte 2%positive 4%positive)]>
            (demo_relations BSqlite)))
    (list_to_map
       [(1%positive, CteDefinition "tree" anchor_state None None true
           (OutputLayout [int_slot "user_id"] "__snekql_present"));
        (2%positive, CteDefinition "tree" anchor_state (Some member_state) (Some 1%positive) false
           (OutputLayout [int_slot "user_id"] "__snekql_present"))])
    string_lower (query_dialects plain_codec (fun _ => false)).
Definition tree_select : select_state :=
  SelectState tree [SCteOutput 0 tree] None false false None [] [] [] [] None None [] None.

Lemma cte_definitions_ordered_witness :
  NoDup [2%positive] /\
  (forall d, refers tree_env tree_select d -> d ∈ [2%positive]) /\
  (forall i d d', [2%positive] !! i = Some d -> depends tree_env d d' -> d' ∈ take i [2%positive]) /\
  seeds_within tree_env None tree_select /\ (forall d, d ∈ [2%positive] -> self_only tree_env d).
Proof.
  apply (cte_definitions_ordered tree_env tree_select []). vm_compute. reflexivity.
Defined.

(** [select(User).join(top, ...).project(...)]: the tables of the statement
    are [users] and, inside [totals], [orders]. *)
Definition joined_cte_select : select_state :=
  SelectState users [SAttr user_id] None false false None [] [] [] [] None None
    [JoinSpec top INNER (NullPredicate (SCteOutput 0 top) true)] None.

Lemma cte_definitions_names_witness : "users" <> "totals" /\ "orders" <> "top".
Proof.
  split.
  - apply (proj1 (proj2 (cte_definitions_names (demo BSqlite) joined_cte_select [orders]
              [1%positive; 2%positive] ltac:(vm_compute; reflexivity) 1%positive
              totals_definition ltac:(by left) ltac:(vm_compute; reflexivity)))
            true users "users"); [by left|reflexivity..].
  - apply (proj2 (proj2 (cte_definitions_names (demo BSqlite) joined_cte_select [orders]
              [1%positive; 2%positive] ltac:(vm_compute; reflexivity) 2%positive
              top_definition ltac:(by right; left) ltac:(vm_compute; reflexivity)))
            orders "orders"); [by left|reflexivity].
Defined.
