(* ===== verification/RowShape.v ===== *)
(** * Source row shapes

    [_materialization_shape.py]: the SQL fields a whole-source read expands to,
    the hidden witness that tells a matched all-NULL row from an absent one, and
    the splitting of a joined row back into its sources. *)

From S2P Require Export QueryScope.

Inductive presence := TablePresence (source : mid) (name : string) | CtePresence (relation : mid).

Definition presence_selectable (p : presence) : selectable :=
  match p with
  | TablePresence m n => STablePresence m n
  | CtePresence r => SCtePresence r
  end.

Record source_row_shape := SourceRowShape {
  payload : list selectable;
  shape_presence : option presence;
  column_names : list string;
  shape_projection : option named_projection;
  row_model : option mid;
  model_columns : option (list (string * attr))
}.

(** [while name.casefold() in names: name += "_"], [fuel] iterations at most. *)
Fixpoint fresh_name (fold : string -> string) (names : list string) (fuel : nat) (name : string)
    : option string :=
  if bool_decide (fold name ∈ names) then
    match fuel with O => None | S fuel => fresh_name fold names fuel (name +:+ "_") end
  else Some name.

Definition presence_base : string := "__snekql_present".

(** The marker of a table whose columns are all nullable. *)
Definition table_marker (E : env) (columns : list (string * attr)) : res string :=
  let names := map (fun c => env_casefold E (fst c)) columns in
  match fresh_name (env_casefold E) names (length names) presence_base with
  | Some n => Ok n
  | None => raise OtherError "no fresh name"
  end.

(** [SourceRowShape.for_source(source, presence=presence)] *)
Definition for_source (E : env) (source : mid) (presence : bool) : res source_row_shape :=
  if is_cte E source then
    def ← relation_definition E source;
    match st_projection (def_state def) with
    | None => raise QueryCompilationError "CTE row requires a named result contract"
    | Some projection =>
        Ok (SourceRowShape
              (map (fun position => SCteOutput position source)
                 (seq 0 (length (layout_slots (def_layout def)))))
              (if presence then Some (CtePresence source) else None)
              [] (Some projection) None None)
    end
  else
    columns ← require_model_columns E source;
    marker ← (if presence && forallb (fun c => attr_nullable (snd c)) columns
              then n ← table_marker E columns; Ok (Some (TablePresence source n))
              else Ok None);
    let row_model := match alias_of E source with Some (original, _) => original | None => source end in
    model_columns ← (if Pos.eqb row_model source then Ok columns
                     else require_model_columns E row_model);
    let kept := Pos.eqb row_model source
                || bool_decide (map fst model_columns = map fst columns) in
    Ok (SourceRowShape (map (fun c => SAttr (snd c)) columns) marker (map fst columns) None
          (Some row_model) (if kept then Some model_columns else None)).

Definition shape_fields (s : source_row_shape) : list selectable :=
  match shape_presence s with
  | Some p => payload s ++ [presence_selectable p]
  | None => payload s
  end.

Definition shape_presence_name (s : source_row_shape) : option string :=
  match shape_presence s with Some (TablePresence _ n) => Some n | _ => None end.

Definition shape_width (s : source_row_shape) : nat :=
  length (payload s) + match shape_presence s with Some _ => 1 | None => 0 end.

(** ** Joined rows *)

Record row_span := RowSpan { span_nullable : bool; span_offset : nat; span_shape : source_row_shape }.

Record joined_row_shape := JoinedRowShape {
  joined_fields : list selectable; joined_spans : list row_span }.

Definition add_source (E : env) (acc : joined_row_shape) (source : mid * bool)
    : res joined_row_shape :=
  shape ← for_source E (fst source) true;
  Ok (JoinedRowShape (joined_fields acc ++ shape_fields shape)
        (joined_spans acc ++ [RowSpan (snd source) (length (joined_fields acc)) shape])).

(** The sources of a joined read with their NULL-extension. *)
Definition joined_sources (model : mid) (joins : list join_spec) : list (mid * bool) :=
  (model, false) ::
  map (fun j => (join_model j, match join_kind j with LEFT => true | INNER => false end)) joins.

(** [JoinedRowShape.for_sources] *)
Definition for_sources (E : env) (model : mid) (joins : list join_spec) : res joined_row_shape :=
  foldR (add_source E) (JoinedRowShape [] []) (joined_sources model joins).

(** The shape [_compile_select_state] and [SelectMaterialization.for_state] use. *)
Definition joined_shape_of (E : env) (returns_model : bool) (model : mid) (joins : list join_spec)
    : res (option joined_row_shape) :=
  if returns_model && nonempty joins then s ← for_sources E model joins; Ok (Some s) else Ok None.

(** [row[span.offset : span.offset + span.shape.width]] *)
Definition span_slice (sp : row_span) (row : list pyval) : list pyval :=
  take (shape_width (span_shape sp)) (drop (span_offset sp) row).

(** ** The SQL fields and the spans agree *)

Lemma shape_fields_length s : length (shape_fields s) = shape_width s.
Proof.
  unfold shape_fields, shape_width. destruct (shape_presence s); rewrite ?length_app; simpl; lia.
Qed.

(** The spans tile the fields from left to right. *)
Fixpoint spans_from (start : nat) (spans : list row_span) : Prop :=
  match spans with
  | [] => True
  | sp :: rest => span_offset sp = start /\ spans_from (start + shape_width (span_shape sp)) rest
  end.

Definition spans_width (spans : list row_span) : nat :=
  sum_list (map (fun sp => shape_width (span_shape sp)) spans).

Lemma spans_from_snoc start spans sp :
  spans_from start spans -> span_offset sp = start + spans_width spans ->
  spans_from start (spans ++ [sp]).
Proof.
  revert start. induction spans as [|x spans IH]; intros start H Hsp; simpl in *.
  - unfold spans_width in Hsp. simpl in Hsp. split; [lia|done].
  - destruct H as [H1 H2]. split; [done|]. apply IH; [done|]. unfold spans_width in *. simpl in Hsp. lia.
Qed.

Definition joined_ok (j : joined_row_shape) (sources : list (mid * bool)) (E : env) : Prop :=
  spans_from 0 (joined_spans j) /\
  joined_fields j = concat (map (fun sp => shape_fields (span_shape sp)) (joined_spans j)) /\
  Forall2 (fun sp src => for_source E (fst src) true = Ok (span_shape sp) /\
                         span_nullable sp = snd src) (joined_spans j) sources.

Lemma concat_fields_length spans :
  length (concat (map (fun sp => shape_fields (span_shape sp)) spans)) = spans_width spans.
Proof.
  induction spans as [|sp spans IH]; [done|]. simpl. rewrite length_app, IH, shape_fields_length. done.
Qed.

Lemma for_sources_ok E l acc done_ j :
  joined_ok acc done_ E -> foldR (add_source E) acc l = Ok j -> joined_ok j (done_ ++ l) E.
Proof.
  revert acc done_. induction l as [|src l IH]; intros acc done_ Hacc H.
  - injection H as <-. by rewrite app_nil_r.
  - rewrite foldR_cons in H. bind_inv H as acc' Hacc'. unfold add_source in Hacc'.
    bind_inv Hacc' as shape Hs. injection Hacc' as <-.
    rewrite (cons_middle src done_ l), app_assoc. eapply IH; [|exact H].
    destruct Hacc as (H1 & H2 & H3). split; [|split]; simpl.
    + apply spans_from_snoc; [done|]. simpl. by rewrite H2, concat_fields_length.
    + by rewrite map_app, concat_app, <- H2; simpl; rewrite app_nil_r.
    + apply Forall2_app; [done|]. by repeat constructor.
Qed.

(** A row that is the concatenation of the sources' rows is split into them. *)
Lemma span_slices start spans pre rows :
  spans_from start spans -> length pre = start ->
  Forall2 (fun sp r => length r = shape_width (span_shape sp)) spans rows ->
  map (fun sp => span_slice sp (pre ++ concat rows)) spans = rows.
Proof.
  intros H Hpre Hrows. revert start pre H Hpre.
  induction Hrows as [|sp r spans rows Hr _ IH]; intros start pre H Hpre; [done|].
  destruct H as [H1 H2]. simpl. f_equal.
  - unfold span_slice. rewrite H1, drop_app_length' by done. by rewrite take_app_length' by done.
  - rewrite app_assoc. apply (IH (start + shape_width (span_shape sp))); [done|].
    rewrite length_app. lia.
Qed.

(** SQL emission and row decoding agree.  The fields a joined read selects
    are, source after source in FROM/JOIN order, exactly the fields of that
    source's shape; only a LEFT-joined source may be absent; and a database row
    laid out in that order is cut back into exactly one slice per source. *)
Theorem joined_shape_round_trip E model joins j rows
  (Hj : for_sources E model joins = Ok j)
  (Hrows : Forall2 (fun sp r => length r = shape_width (span_shape sp)) (joined_spans j) rows) :
  joined_fields j = concat (map (fun sp => shape_fields (span_shape sp)) (joined_spans j)) /\
  map span_nullable (joined_spans j) =
    false :: map (fun x => bool_decide (join_kind x = LEFT)) joins /\
  map (fun sp => span_slice sp (concat rows)) (joined_spans j) = rows.
Proof.
  assert (Hok : joined_ok j (joined_sources model joins) E).
  { apply (for_sources_ok E _ (JoinedRowShape [] []) []); [|done]. by repeat constructor. }
  destruct Hok as (H1 & H2 & H3). split; [done|split].
  - assert (Hsnd : map snd (joined_sources model joins) =
                   false :: map (fun x => bool_decide (join_kind x = LEFT)) joins).
    { simpl. f_equal. rewrite map_map. apply map_ext. by intros [m [|] p]. }
    rewrite <- Hsnd. clear -H3. induction H3 as [|sp src spans srcs [_ Hn] _ IH]; simpl; [done|].
    by rewrite Hn, IH.
  - by apply (span_slices 0 _ []).
Qed.

(** ** The hidden marker *)

Fixpoint underscores (n : nat) : string :=
  match n with O => EmptyString | S n => "_" +:+ underscores n end.

Lemma underscores_snoc n : underscores n +:+ "_" = "_" +:+ underscores n.
Proof. induction n as [|n IH]; [done|]. simpl. by rewrite string_app_assoc, IH. Qed.

(** Every failed candidate is a different element of [names]. *)
Lemma fresh_name_fails fold names fuel name :
  (forall a b, fold (a +:+ b) = fold a +:+ fold b) -> fold "_" = "_" ->
  fresh_name fold names fuel name = None ->
  forall k, k <= fuel -> fold name +:+ underscores k ∈ names.
Proof.
  intros Happ Hu. revert name. induction fuel as [|fuel IH]; intros name H k Hk; simpl in H;
    case_bool_decide; try discriminate.
  - assert (k = 0) as -> by lia. simpl. by rewrite string_app_nil_r.
  - destruct k as [|k]; simpl; [by rewrite string_app_nil_r|].
    specialize (IH _ H k ltac:(lia)). by rewrite Happ, Hu, string_app_assoc in IH.
Qed.

Lemma fresh_name_fresh fold names fuel name n :
  fresh_name fold names fuel name = Some n -> fold n ∉ names.
Proof.
  revert name. induction fuel as [|fuel IH]; intros name H; simpl in H; case_bool_decide;
    try discriminate; [by injection H as <-|by eapply IH|by injection H as <-].
Qed.

Lemma fresh_name_total fold names name :
  (forall a b, fold (a +:+ b) = fold a +:+ fold b) -> fold "_" = "_" ->
  is_Some (fresh_name fold names (length names) name).
Proof.
  intros Happ Hu. destruct (fresh_name fold names (length names) name) eqn:H; [eauto|exfalso].
  pose proof (fresh_name_fails _ _ _ _ Happ Hu H) as Hin.
  set (f := fun k => fold name +:+ underscores k).
  assert (Hincl : map f (seq 0 (S (length names))) ⊆+ names).
  { apply NoDup_submseteq.
    - apply NoDup_fmap_2_strong; [|apply NoDup_seq]. intros a b _ _ Hab. unfold f in Hab.
      assert (Hl : forall k, String.length (underscores k) = k)
        by (induction k as [|k IHk]; [done|]; simpl; by rewrite string_length_app, IHk).
      apply (f_equal String.length) in Hab. rewrite !string_length_app, !Hl in Hab. lia.
    - intros x Hx. apply list_elem_of_fmap in Hx as (k & -> & Hk). apply elem_of_seq in Hk.
      apply Hin. lia. }
  apply submseteq_length in Hincl. rewrite length_map, length_seq in Hincl. lia.
Qed.

(** the row-presence marker.  Case folding being per character (and the
    underscore its own folding), the search for a marker name ends after at
    most one step per column, and the marker found is no column's name,
    ignoring case. *)
Theorem table_marker_fresh E columns
  (Happ : forall a b, env_casefold E (a +:+ b) = env_casefold E a +:+ env_casefold E b)
  (Hunder : env_casefold E "_" = "_") :
  exists n, table_marker E columns = Ok n /\
    forall name c, (name, c) ∈ columns -> env_casefold E name <> env_casefold E n.
Proof.
  unfold table_marker.
  destruct (fresh_name_total (env_casefold E) (map (fun c => env_casefold E (fst c)) columns)
              presence_base Happ Hunder) as [n Hn].
  rewrite Hn. exists n. split; [done|]. intros name c Hin Heq.
  apply fresh_name_fresh in Hn. apply Hn. rewrite <- Heq.
  apply list_elem_of_fmap. exists (name, c). done.
Qed.

(** ** Concrete instances *)

Lemma joined_shape_round_trip_witness :
  match for_sources (demo BSqlite) orders [JoinSpec boss LEFT (NullPredicate (SAttr boss_id) true)] with
  | Ok j => map (fun sp => span_slice sp [PInt 1; PInt 5; PNone; PInt 3; PNone]) (joined_spans j)
            = [[PInt 1; PInt 5; PNone]; [PInt 3; PNone]]
  | Raise _ => False
  end.
Proof.
  destruct (for_sources (demo BSqlite) orders
              [JoinSpec boss LEFT (NullPredicate (SAttr boss_id) true)]) as [j|e] eqn:Hj.
  - apply (joined_shape_round_trip (demo BSqlite) orders
             [JoinSpec boss LEFT (NullPredicate (SAttr boss_id) true)] j
             [[PInt 1; PInt 5; PNone]; [PInt 3; PNone]] Hj).
    vm_compute in Hj. injection Hj as <-. repeat constructor.
  - vm_compute in Hj. discriminate.
Defined.

Lemma table_marker_fresh_witness :
  exists n, table_marker (demo BSqlite) [("__SNEKQL_PRESENT", user_name)] = Ok n /\
    forall name c, (name, c) ∈ [("__SNEKQL_PRESENT", user_name)] ->
      env_casefold (demo BSqlite) name <> env_casefold (demo BSqlite) n.
Proof. exact (table_marker_fresh (demo BSqlite) _ string_lower_app eq_refl). Defined.
