(* ===== verification/ValueDecode.v ===== *)
(** * Decoding result values

    [_value_decode.py], with the slots of [_output_layout.py] and the numeric
    provenance of [_output_provenance.py] it reads: the general decoder of one
    projected field, and the decoders an execution plan resolves once per field.
    The two agree on every value ([resolved_decoder_exact]).

    A derived output is decoded through the definition it names, which may name
    another one: [fuel] bounds that chain and the nesting of scalar subqueries. *)

From S2P Require Export RowShape ValueExpr Examples.

Section decode.
Context (E : env).

(** ** Slots of a derived relation *)

Record slot_view := SlotView {
  sv_source : selectable; sv_backend : backend; sv_nullable_models : list mid }.

(** The models a LEFT join may leave absent. *)
Definition left_models (joins : list join_spec) : list mid :=
  map join_model (filter (fun j => join_kind j = LEFT) joins).

(** [__output_slot__()]: the slot's source is the projected field it names. *)
Definition output_slot_of (position : nat) (r : mid) : res slot_view :=
  def ← relation_definition E r;
  let st := def_state def in
  match layout_slots (def_layout def) !! position, st_fields st !! position with
  | Some _, Some source =>
      b ← require_model_backend E (st_model st);
      Ok (SlotView source b (left_models (st_joins st)))
  | _, _ => raise IndexError "tuple index out of range"
  end.

(** ** Numeric provenance *)

Inductive numeric_source := NumericColumn (a : attr) | NumericInt | NumericFloat.

Definition recursion_error {A} : res A := raise OtherError "RecursionError".

(** [OutputProvenance.for_source(source).numeric_source] *)
Fixpoint numeric_source_of (fuel : nat) (source : selectable) : res (option numeric_source) :=
  match fuel with
  | O => recursion_error
  | S fuel =>
      match source with
      | SCteOutput position r =>
          slot ← output_slot_of position r; numeric_source_of fuel (sv_source slot)
      | SScalar subquery =>
          inner ← require_single_column_subquery subquery;
          match st_fields inner with
          | field :: _ => numeric_source_of fuel field
          | [] => raise IndexError "tuple index out of range"
          end
      | SAttr a => Ok (Some (NumericColumn a))
      | SValue e => Ok (match ve_value_type e with
                        | VtInt => Some NumericInt | VtFloat => Some NumericFloat | VtStr => None end)
      | SLiteral _ _ => Ok (Some NumericInt)
      | SAggregate COUNT _ _ => Ok (Some NumericInt)
      | SAggregate func column _ =>
          wrapped ← match column with
                    | Some c => numeric_source_of fuel c
                    | None => Ok None
                    end;
          Ok (match func with AVG => Some NumericFloat | _ => wrapped end)
      | _ => Ok None
      end
  end.

(** ** The general decoder

    [column_decode] is [Attr.decode]; [to_int] and [to_float] are Python's
    [int] and [float] on what the driver returned; [raw_value] is a driver value
    returned as it is; [is_numeric] is [_logical_is_numeric], a reading of the
    column's annotation. *)

Context {V : Type} (raw_value : pyval -> V) (to_int to_float : pyval -> res V)
  (column_decode : attr -> backend -> bool -> pyval -> res V) (is_numeric : attr -> option bool).

Definition none_value : V := raw_value PNone.

(** [_normalize_sum] *)
Definition normalize_sum (c : attr) (v : pyval) : res V :=
  if String.eqb (attr_storage_type_name c) "Integer" then to_int v
  else if String.eqb (attr_storage_type_name c) "Real" then to_float v
  else Ok (raw_value v).

(** [OutputProvenance.decode_sum] *)
Definition decode_sum_of (source : option numeric_source) (v : pyval) : res V :=
  match source with
  | Some (NumericColumn a) =>
      _ ← guardR (match is_numeric a with Some false => false | _ => true end)
            QueryConstructionError "sum() is only valid for numeric columns";
      normalize_sum a v
  | Some NumericInt => to_int v
  | Some NumericFloat => to_float v
  | None => raise QueryConstructionError "sum()/avg() require a known numeric CTE output domain"
  end.

(** [type(raw) is value_type] *)
Definition has_value_type (t : value_type) (v : pyval) : bool :=
  match t, v with
  | VtInt, PInt _ | VtFloat, PFloat _ | VtStr, PStr _ => true
  | _, _ => false
  end.

(** [ValueExpression.__decode__] *)
Definition expression_decode (e : value_expression) (v : pyval) : res V :=
  if is_none v && ve_nullable e then Ok none_value
  else if has_value_type (ve_value_type e) v then Ok (raw_value v)
  else raise ModelValidationError "expression returned a result outside its value type contract".

(** [_IntegerLiteral.__decode_with_policy__] *)
Definition literal_decode (family b : backend) (v : pyval) : res V :=
  _ ← guardR (bool_decide (b = family)) QueryConstructionError
        "literal decode backend differs from its declaration";
  match v with
  | PInt _ => Ok (raw_value v)
  | _ => raise ModelValidationError "integer literal returned a non-integer SQL value"
  end.

Definition not_projectable {A} : res A :=
  raise QueryCompilationError "a non-projectable operand cannot be materialized".

(** The NULL rule of [_decode_projection_field]. *)
Definition null_extended (column : selectable) (nullable_models : list mid) : res bool :=
  match column with
  | SAttr a => m ← require_column_model E a; Ok (bool_decide (m ∈ nullable_models))
  | SValue e => Ok (bool_decide (ve_owner e ∈ nullable_models) && nullable_when_extended e)
  | SCteOutput _ r => Ok (bool_decide (r ∈ nullable_models))
  | _ => Ok false
  end.

(** [_decode_projection_field], over the decoder of one selectable. *)
Definition projection_field (decode : selectable -> backend -> bool -> pyval -> res V)
    (column : selectable) (nullable_models : list mid) (b : backend) (validate : bool) (v : pyval)
    : res V :=
  absent ← (if is_none v then null_extended column nullable_models else Ok false);
  if (absent : bool) then Ok none_value else decode column b validate v.

(** [_decode_aggregate] over the decoder of a policy-carrying input. *)
Definition decode_aggregate (decode : selectable -> backend -> bool -> pyval -> res V)
    (sum_of : selectable -> pyval -> res V)
    (func : agg_func) (column : option selectable) (b : backend) (validate : bool) (v : pyval)
    : res V :=
  if is_none v then Ok none_value
  else match func with
       | COUNT => to_int v
       | AVG => to_float v
       | SUM =>
           match column with
           | Some (SCteOutput _ _ as c) => sum_of c v
           | Some c => a ← require_field c; normalize_sum a v
           | None => raise QueryConstructionError "select requires a model or field"
           end
       | MIN | MAX =>
           match column with
           | Some (SCteOutput _ _ as c) | Some (SLiteral _ _ as c) => decode c b validate v
           | Some c => a ← require_field c; column_decode a b validate v
           | None => raise QueryConstructionError "select requires a model or field"
           end
       end.

(** [_CteOutput.__decode_sum__] *)
Definition cte_decode_sum (fuel : nat) (c : selectable) (v : pyval) : res V :=
  source ← numeric_source_of fuel c; decode_sum_of source v.

(** [_decode_selectable], and with it [_CteOutput.__decode_with_policy__]. *)
Fixpoint decode_selectable (fuel : nat) (field : selectable) (b : backend) (validate : bool)
    (v : pyval) : res V :=
  match fuel with
  | O => recursion_error
  | S fuel =>
      match field with
      | SScalar subquery =>
          if is_none v then Ok none_value
          else inner ← require_single_column_subquery subquery;
               match st_fields inner with
               | f :: _ => decode_selectable fuel f b validate v
               | [] => raise IndexError "tuple index out of range"
               end
      | SAggregate func column _ =>
          decode_aggregate (decode_selectable fuel) (cte_decode_sum fuel) func column b validate v
      | SCteOutput position r =>
          slot ← output_slot_of position r;
          _ ← guardR (bool_decide (b = sv_backend slot)) QueryConstructionError
                "CTE output decode backend differs from its definition";
          projection_field (decode_selectable fuel) (sv_source slot) (sv_nullable_models slot)
            (sv_backend slot) validate v
      | SLiteral family _ => literal_decode family b v
      | SValue e => expression_decode e v
      | SAttr a => column_decode a b validate v
      | STablePresence _ _ | SCtePresence _ | SOther => not_projectable
      end
  end.

(** [_decode_projection_field] *)
Definition decode_projection_field (fuel : nat) : selectable -> list mid -> backend -> bool ->
    pyval -> res V := projection_field (decode_selectable fuel).

(** ** Resolved decoders *)

Definition decoder : Type := pyval -> res V.

(** [lambda raw: None if raw is None else decode(raw)] *)
Definition nullable_decoder (decode : decoder) : decoder := fun v =>
  if is_none v then Ok none_value else decode v.

(** [_resolve_column_aggregate_decoder], over the resolver of derived inputs;
    [None] leaves the aggregate to the general decoder. *)
Definition resolve_aggregate (resolve : selectable -> res decoder) (sum_of : selectable -> res decoder)
    (func : agg_func) (column : option selectable) (b : backend) (validate : bool)
    : res (option decoder) :=
  match func with
  | COUNT => Ok (Some (nullable_decoder to_int))
  | AVG => Ok (Some (nullable_decoder to_float))
  | SUM =>
      match column with
      | Some (SCteOutput _ _ as c) => decode ← sum_of c; Ok (Some (nullable_decoder decode))
      | Some (SAttr a) => Ok (Some (nullable_decoder (normalize_sum a)))
      | _ => Ok None
      end
  | MIN | MAX =>
      match column with
      | Some (SCteOutput _ _ as c) => decode ← resolve c; Ok (Some (nullable_decoder decode))
      | Some (SAttr a) => Ok (Some (nullable_decoder (column_decode a b validate)))
      | _ => Ok None
      end
  end.

(** [resolve_projection_decoder] *)
Fixpoint resolve_projection_decoder (fuel : nat) (column : selectable) (nullable_models : list mid)
    (b : backend) (validate : bool) : res decoder :=
  match fuel with
  | O => recursion_error
  | S fuel' =>
      let general := decode_projection_field fuel column nullable_models b validate in
      match column with
      | SCteOutput position r =>
          slot ← output_slot_of position r;
          if bool_decide (b = sv_backend slot) then
            decode ← resolve_projection_decoder fuel' (sv_source slot) (sv_nullable_models slot)
                       (sv_backend slot) validate;
            Ok (if bool_decide (r ∈ nullable_models) then nullable_decoder decode else decode)
          else Ok general
      | SAttr a =>
          let decode := column_decode a b validate in
          extended ← (if nonempty nullable_models
                      then m ← require_column_model E a; Ok (bool_decide (m ∈ nullable_models))
                      else Ok false);
          Ok (if (extended : bool) then nullable_decoder decode else decode)
      | SValue e =>
          Ok (if nonempty nullable_models && bool_decide (ve_owner e ∈ nullable_models)
              then fun v => if is_none v && nullable_when_extended e then Ok none_value
                            else expression_decode e v
              else expression_decode e)
      | SLiteral family _ => Ok (literal_decode family b)
      | SScalar subquery =>
          inner ← require_single_column_subquery subquery;
          match st_fields inner with
          | f :: _ =>
              decode ← resolve_projection_decoder fuel' f [] b validate; Ok (nullable_decoder decode)
          | [] => raise IndexError "tuple index out of range"
          end
      | SAggregate func c _ =>
          resolved ← resolve_aggregate (fun c => resolve_projection_decoder fuel' c [] b validate)
                       (fun c => source ← numeric_source_of fuel' c; Ok (decode_sum_of source)) func c b validate;
          Ok (match resolved with Some decode => decode | None => general end)
      | STablePresence _ _ | SCtePresence _ | SOther => Ok general
      end
  end.

(** ** Agreement *)

(** The column at the end of a chain of derived outputs is bound to a table. *)
Fixpoint source_bound (fuel : nat) (c : selectable) : Prop :=
  match fuel with
  | O => True
  | S fuel =>
      match c with
      | SAttr a => is_ok (require_column_model E a) = true
      | SCteOutput position r =>
          forall slot, output_slot_of position r = Ok slot -> source_bound fuel (sv_source slot)
      | _ => True
      end
  end.

Lemma projection_present decode c nm b validate v :
  is_none v = false -> projection_field decode c nm b validate v = decode c b validate v.
Proof. unfold projection_field. by intros ->. Qed.

Lemma nullable_agrees (f : decoder) (g : pyval -> res V) v :
  (is_none v = false -> f v = g v) ->
  nullable_decoder f v = (if is_none v then Ok none_value else g v).
Proof. unfold nullable_decoder. destruct (is_none v); auto. Qed.

(** An aggregate's bound decoder is its general one. *)
Lemma resolve_aggregate_agrees fuel func c b validate decode v :
  (forall c f nm, resolve_projection_decoder fuel c nm b validate = Ok f ->
     is_none v = false -> f v = decode_selectable fuel c b validate v) ->
  resolve_aggregate (fun c => resolve_projection_decoder fuel c [] b validate)
    (fun c => source ← numeric_source_of fuel c; Ok (decode_sum_of source)) func c b validate =
    Ok (Some decode) ->
  decode v = decode_aggregate (decode_selectable fuel) (cte_decode_sum fuel) func c b validate v.
Proof.
  intros IH H. unfold decode_aggregate.
  destruct func; simpl in H; [by injection H as <-|by injection H as <-| | |].
  1, 2: destruct c as [[a|fn c o|q|e|p r|fam z|m n|r|]|]; try discriminate H;
    [by injection H as <-|]; bind_inv H as f Hf; injection H as <-;
    rewrite (nullable_agrees _ _ _ (IH _ _ _ Hf)); by destruct (is_none v).
  destruct c as [[a|fn c o|q|e|p r|fam z|m n|r|]|]; try discriminate H; [by injection H as <-|].
  bind_inv H as f Hf. injection H as <-. bind_inv Hf as source Hs. injection Hf as <-.
  unfold nullable_decoder, cte_decode_sum. by rewrite Hs.
Qed.

Lemma resolved_agrees fuel c nm b validate f v :
  resolve_projection_decoder fuel c nm b validate = Ok f ->
  source_bound fuel c \/ is_none v = false ->
  f v = decode_projection_field fuel c nm b validate v.
Proof.
  revert c nm b f. induction fuel as [|fuel IH]; intros c nm b f H Hb; [done|].
  assert (IHp : forall c f nm b, resolve_projection_decoder fuel c nm b validate = Ok f ->
            is_none v = false -> f v = decode_selectable fuel c b validate v).
  { intros c' f' nm' b' Hc Hv. rewrite (IH _ _ _ _ Hc) by by right. by apply projection_present. }
  unfold decode_projection_field. destruct c as [a|func c o|q|e|p r|fam z|m n|r|]; simpl in H;
    try by injection H as <-.
  - bind_inv H as ext He. injection H as <-. unfold projection_field, nullable_decoder. simpl.
    destruct (is_none v) eqn:Hv; simpl; [|by destruct ext; simpl; rewrite ?Hv].
    destruct Hb as [Hb|]; [|done]. simpl in Hb.
    destruct (require_column_model E a) as [m|]; [|done]. simpl.
    destruct nm as [|m' nm]; simpl in He; injection He as <-; [|by destruct (bool_decide _); simpl; rewrite ?Hv].
    by rewrite bool_decide_false by by apply not_elem_of_nil.
  - bind_inv H as resolved Hr. injection H as <-. destruct resolved as [decode|]; [|done].
    rewrite (resolve_aggregate_agrees fuel func c b validate decode v); [|by intros; eapply IHp|done].
    unfold projection_field. simpl. by destruct (is_none v).
  - bind_inv H as inner Hi. destruct (st_fields inner) as [|x rest] eqn:Hf; [done|].
    bind_inv H as decode Hd. injection H as <-.
    rewrite (nullable_agrees _ (fun v => decode_selectable fuel x b validate v)) by by apply (IHp _ _ _ _ Hd).
    unfold projection_field. simpl. destruct (is_none v) eqn:Hv; simpl; [done|].
    rewrite Hi. simpl. by rewrite Hf.
  - injection H as <-. unfold projection_field. simpl. destruct nm as [|m nm]; simpl.
    + by destruct (is_none v).
    + destruct (bool_decide (ve_owner e ∈ m :: nm)); simpl; destruct (is_none v); simpl; first [done | by destruct (nullable_when_extended e)].
  - bind_inv H as slot Hs. destruct (bool_decide (b = sv_backend slot)) eqn:Hbk; [|by injection H as <-].
    bind_inv H as decode Hd. injection H as <-.
    assert (Hgo : decode v = decode_selectable (S fuel) (SCteOutput p r) b validate v).
    { simpl. rewrite Hs. simpl. rewrite Hbk. simpl. apply (IH _ _ _ _ Hd).
      destruct Hb as [Hb|Hb]; [left|by right]. by apply Hb. }
    unfold projection_field. destruct (is_none v) eqn:Hv.
    + simpl. destruct (bool_decide (r ∈ nm)); [|done]. unfold nullable_decoder. by rewrite Hv.
    + cbv beta iota. rewrite <- Hgo. destruct (bool_decide (r ∈ nm)); [|done].
      unfold nullable_decoder. by rewrite Hv.
  - injection H as <-. unfold projection_field. simpl. by destruct (is_none v).
Qed.

(** *** Enough fuel *)

(** A chain of derived outputs and scalar subqueries that ends. *)
Inductive projectable : selectable -> Prop :=
  | ProjAttr a : is_ok (require_column_model E a) = true -> projectable (SAttr a)
  | ProjValue e : projectable (SValue e)
  | ProjLiteral fam z : projectable (SLiteral fam z)
  | ProjScalar q inner f :
      require_single_column_subquery q = Ok inner -> st_fields inner = [f] -> projectable f ->
      projectable (SScalar q)
  | ProjCte p r slot :
      output_slot_of p r = Ok slot -> projectable (sv_source slot) -> projectable (SCteOutput p r)
  | ProjCount column o : projectable (SAggregate COUNT column o)
  | ProjAggregate func c o : projectable c -> projectable (SAggregate func (Some c) o).

Lemma numeric_source_total c : projectable c ->
  exists n, forall fuel, n <= fuel -> is_ok (numeric_source_of fuel c) = true.
Proof.
  induction 1 as [a Ha|e|fam z|q inner f Hi Hf _ [n IH]|p r slot Hs _ [n IH]|column o|func c o _ [n IH]].
  1-3, 6: exists 1; by intros [|fuel] Hn; [lia|].
  - exists (S n). intros [|fuel] Hn; [lia|]. simpl. rewrite Hi. simpl. rewrite Hf. apply IH. lia.
  - exists (S n). intros [|fuel] Hn; [lia|]. simpl. rewrite Hs. simpl. apply IH. lia.
  - exists (S n). intros [|fuel] Hn; [lia|]. specialize (IH fuel ltac:(lia)).
    destruct func; simpl; try done; by destruct (numeric_source_of fuel c).
Qed.

Lemma resolve_total c : projectable c ->
  exists n, forall fuel nm b validate, n <= fuel ->
    is_ok (resolve_projection_decoder fuel c nm b validate) = true /\ source_bound fuel c.
Proof.
  induction 1 as [a Ha|e|fam z|q inner f Hi Hf _ [n IH]|p r slot Hs _ [n IH]|column o|func c o Hc [n IH]].
  - exists 1. intros [|fuel] nm b validate Hn; [lia|]. simpl. split; [|done].
    destruct (require_column_model E a); [|done]. by destruct nm.
  - exists 1. by intros [|fuel] nm b validate Hn; [lia|].
  - exists 1. by intros [|fuel] nm b validate Hn; [lia|].
  - exists (S n). intros [|fuel] nm b validate Hn; [lia|]. simpl. rewrite Hi. simpl. rewrite Hf.
    destruct (IH fuel [] b validate ltac:(lia)) as [Hr _].
    by destruct (resolve_projection_decoder fuel f [] b validate).
  - exists (S n). intros [|fuel] nm b validate Hn; [lia|]. simpl. rewrite Hs. simpl. split.
    + destruct (bool_decide (b = sv_backend slot)); [|done].
      destruct (IH fuel (sv_nullable_models slot) (sv_backend slot) validate ltac:(lia)) as [Hr _].
      by destruct (resolve_projection_decoder _ _ _ _ _).
    + intros slot' [= <-]. by apply (IH fuel [] b validate); lia.
  - exists 1. by intros [|fuel] nm b validate Hn; [lia|].
  - destruct (numeric_source_total c Hc) as [m Hm]. exists (S (n + m)).
    intros [|fuel] nm b validate Hn; [lia|]. split; [|done].
    destruct (IH fuel [] b validate ltac:(lia)) as [Hr _]. specialize (Hm fuel ltac:(lia)). simpl.
    destruct (numeric_source_of fuel c) eqn:Hs; [|done].
    destruct (resolve_projection_decoder fuel c [] b validate) eqn:Hf; [|done].
    destruct func; simpl; try done; destruct c; simpl; rewrite ?Hs, ?Hf; done.
Qed.

(** C32: a plan's resolved decoders compute, on every driver value, what the
    general decoder computes on each row: the same value or the same exception.
    They exist for every field whose chain of derived outputs and scalar
    subqueries ends in bound columns, values or aggregates. *)
Theorem resolved_decoder_exact c (Hc : projectable c) :
  exists n, forall fuel nm b validate, n <= fuel ->
    exists decode, resolve_projection_decoder fuel c nm b validate = Ok decode /\
      forall v, decode v = decode_projection_field fuel c nm b validate v.
Proof.
  destruct (resolve_total c Hc) as [n Hn]. exists n. intros fuel nm b validate Hle.
  destruct (Hn fuel nm b validate Hle) as [Hok Hb].
  destruct (resolve_projection_decoder fuel c nm b validate) as [decode|] eqn:Hr; [|done].
  exists decode. split; [done|]. intros v. apply (resolved_agrees _ _ _ _ _ _ _ Hr). by left.
Qed.
End decode.

(** ** A concrete instance

    An output of [top], which reads an output of [totals], which reads a column. *)

Lemma resolved_decoder_exact_witness :
  exists n, forall fuel nm b validate, n <= fuel ->
    exists decode,
      resolve_projection_decoder (demo BSqlite) id demo_int demo_float demo_decode
        (fun _ => Some true) fuel (SCteOutput 0 top) nm b validate = Ok decode /\
      forall v, decode v = decode_projection_field (demo BSqlite) id demo_int demo_float demo_decode
                             (fun _ => Some true) fuel (SCteOutput 0 top) nm b validate v.
Proof.
  apply (resolved_decoder_exact (demo BSqlite) id demo_int demo_float demo_decode
           (fun _ => Some true) (SCteOutput 0 top)).
  eapply ProjCte; [vm_compute; reflexivity|]. eapply ProjCte; [vm_compute; reflexivity|].
  apply ProjAttr. vm_compute. reflexivity.
Defined.
