(* ===== verification/Materialize.v ===== *)
(** * Materialization: database rows to results

    [_query_materialize.py], [_model_materialization.py], the rows of
    [_materialization_shape.py] and [NamedProjection.materialize]: what the
    decoded columns of a row become, for model rows, projections, joined rows
    and RETURNING rows. *)

From S2P Require Export ValueDecode.

(** ** Objects

    [V] is the type of decoded values, [R] that of validated result objects.
    Python's [None] is the decoded value of [PNone]. *)

Inductive fetched (V R : Type) :=
  | FValue (v : V)
  | FRow (model : mid) (values : list (string * V))
  | FResult (result_type : positive) (row : R)
  | FTuple (items : list (fetched V R)).
Arguments FValue {_ _} _. Arguments FRow {_ _} _ _. Arguments FResult {_ _} _ _.
Arguments FTuple {_ _} _.

(** [zip(l, l', strict=True)] *)
Definition zip_strict {A B} (l : list A) (l' : list B) : res (list (A * B)) :=
  if Nat.eqb (length l) (length l') then Ok (combine l l')
  else raise ValueError "zip() arguments have different lengths".

(** A [StopIteration] that leaves a generator's body is a [RuntimeError]. *)
Definition in_generator {A} (r : res A) : res A :=
  match r with
  | Raise e => if decide (exn_class e = StopIteration)
               then raise RuntimeError "generator raised StopIteration" else Raise e
  | Ok x => Ok x
  end.

Definition assert_ (b : bool) (msg : string) : res unit := guardR b AssertionError msg.

(** [dict.pop(name)], for a dict without it the dict itself. *)
Definition dict_remove {A} (name : string) (l : list (string * A)) : list (string * A) :=
  filter (fun x => fst x <> name) l.

(** [absent] of [SourceRowShape.materialize] *)
Definition source_absent (s : source_row_shape) (row : list pyval) : res bool :=
  match shape_presence s with
  | Some _ => match last row with
              | Some v => Ok (is_none v)
              | None => raise IndexError "tuple index out of range"
              end
  | None => Ok (forallb is_none row)
  end.

Section materialize.
Context (E : env) {V R : Type}.
(** The decoding parameters of [ValueDecode]. *)
Context (raw_value : pyval -> V) (to_int to_float : pyval -> res V)
  (column_decode : attr -> backend -> bool -> pyval -> res V) (is_numeric : attr -> option bool).
(** pydantic: [result_type.model_validate(values, strict=True)], and whether its
    result is an instance of that type. *)
Context (model_validate : positive -> list (string * V) -> option R)
  (is_instance : R -> positive -> bool).

Abbreviation object := (fetched V R).
Abbreviation decoder := (pyval -> res V).

Definition py_none : object := FValue (none_value raw_value).

(** [NamedProjection.materialize] *)
Definition named_materialize (p : named_projection) (values : list V) : res object :=
  _ ← guardR (Nat.eqb (length values) (length (np_labels p))) ModelValidationError
        "named result width does not match its contract";
  match model_validate (np_result_type p) (combine (np_labels p) values) with
  | None => raise ModelValidationError "named result failed contract validation"
  | Some row =>
      _ ← guardR (is_instance row (np_result_type p)) ModelValidationError
            "named result validator did not return its declared model";
      Ok (FResult (np_result_type p) row)
  end.

(** *** Model rows *)

(** [decode_model_values] *)
Definition decode_model_values (b : backend) (validate : bool) (model : mid)
    (columns : list (string * attr)) (values : list pyval) : res object :=
  _ ← assert_ (Nat.eqb (length values) (length columns))
        "database values do not match model columns";
  pairs ← zip_strict columns values;
  decoded ← mapR (fun x => v ← column_decode (snd (fst x)) b validate (snd x);
                           Ok (fst (fst x), v)) pairs;
  Ok (FRow model decoded).

(** One column of [decode_model_row]: [remaining_values.pop(name)] and its value. *)
Definition decode_named_column (b : backend) (validate : bool)
    (acc : list (string * V) * list (string * pyval)) (c : string * attr)
    : res (list (string * V) * list (string * pyval)) :=
  let '(values, remaining) := acc in
  match assoc (fst c) remaining with
  | None => raise AssertionError "missing database value"
  | Some raw =>
      v ← column_decode (snd c) b validate raw;
      Ok (values ++ [(fst c, v)], dict_remove (fst c) remaining)
  end.

(** [decode_model_row] *)
Definition decode_model_row (b : backend) (validate : bool) (model : mid)
    (row : list (string * pyval)) : res object :=
  columns ← require_model_columns E model;
  '(values, remaining) ← foldR (decode_named_column b validate) ([], row) columns;
  _ ← assert_ (negb (nonempty remaining)) "unknown database values";
  Ok (FRow model values).

(** *** Source rows *)

Abbreviation decode_selectable_ := (decode_selectable E raw_value to_int to_float column_decode is_numeric).
Abbreviation decode_projection_field_ := (decode_projection_field E raw_value to_int to_float column_decode is_numeric).
Abbreviation resolve_ := (resolve_projection_decoder E raw_value to_int to_float column_decode is_numeric).

(** The decoded payload of a named source: its bound decoders when there are
    some, else the general path. *)
Definition decode_payload (fuel : nat) (b : backend) (validate : bool) (decoders : list decoder)
    (fields : list selectable) (values : list pyval) : res (list V) :=
  match decoders with
  | [] => pairs ← zip_strict fields values;
          mapR (fun x => in_generator (decode_selectable_ fuel (fst x) b validate (snd x))) pairs
  | _ => pairs ← zip_strict decoders values; mapR (fun x => in_generator (fst x (snd x))) pairs
  end.

(** [SourceRowShape.materialize] *)
Definition source_materialize (fuel : nat) (b : backend) (validate : bool) (decoders : list decoder)
    (s : source_row_shape) (nullable : bool) (row : list pyval) : res object :=
  absent ← (if nullable then source_absent s row else Ok false);
  if (absent : bool) then Ok py_none
  else
    let values := take (length (payload s)) row in
    match shape_projection s with
    | Some projection =>
        decoded ← decode_payload fuel b validate decoders (payload s) values;
        named_materialize projection decoded
    | None =>
        match row_model s with
        | None => raise QueryCompilationError "source row lost its model contract"
        | Some model =>
            match model_columns s with
            | Some columns => decode_model_values b validate model columns values
            | None => named ← zip_strict (column_names s) values;
                      decode_model_row b validate model named
            end
        end
    end.

(** [JoinedRowShape.resolve_decoders] *)
Definition resolve_decoders (fuel : nat) (b : backend) (validate : bool) (j : joined_row_shape)
    : res (list (list decoder)) :=
  if existsb (fun sp => bool_decide (is_Some (shape_projection (span_shape sp)))) (joined_spans j)
  then mapR (fun sp => match shape_projection (span_shape sp) with
                       | Some _ => mapR (fun f => resolve_ fuel f [] b validate)
                                     (payload (span_shape sp))
                       | None => Ok []
                       end) (joined_spans j)
  else Ok [].

(** [decoders[index] if decoders else ()] *)
Definition span_decoders (decoders : list (list decoder)) (index : nat) : res (list decoder) :=
  match decoders with
  | [] => Ok []
  | _ => match decoders !! index with
         | Some d => Ok d
         | None => raise IndexError "tuple index out of range"
         end
  end.

(** [JoinedRowShape.materialize], from the span at [index] on. *)
Fixpoint joined_materialize (fuel : nat) (b : backend) (validate : bool)
    (decoders : list (list decoder)) (spans : list row_span) (index : nat) (row : list pyval)
    : res (list object) :=
  match spans with
  | [] => Ok []
  | sp :: rest =>
      o ← in_generator
            (ds ← span_decoders decoders index;
             source_materialize fuel b validate ds (span_shape sp) (span_nullable sp)
               (span_slice sp row));
      os ← joined_materialize fuel b validate decoders rest (S index) row;
      Ok (o :: os)
  end.

(** ** [SelectMaterialization] *)

Record select_materialization := SelectMaterialization {
  sm_backend : backend;
  sm_state : select_state;
  sm_validate : bool;
  sm_joined : option joined_row_shape;
  sm_decoders : list decoder;
  sm_source : option source_row_shape;
  sm_joined_decoders : list (list decoder)
}.

(** [SelectMaterialization.for_state] *)
Definition for_state (fuel : nat) (st : select_state) (b : backend) (validate : bool)
    : res select_materialization :=
  joined ← joined_shape_of E (st_returns_model st) (st_model st) (st_joins st);
  source ← (if st_returns_model st && negb (nonempty (st_joins st))
            then s ← for_source E (st_model st) false; Ok (Some s) else Ok None);
  decoders ← (if negb (st_returns_model st)
              then mapR (fun c => resolve_ fuel c (left_models (st_joins st)) b validate) (st_fields st)
              else Ok []);
  joined_decoders ← match joined with
                    | Some j => resolve_decoders fuel b validate j
                    | None => Ok []
                    end;
  Ok (SelectMaterialization b st validate joined decoders source joined_decoders).

(** [_decode_field] *)
Definition decode_field (decode : decoder) (v : pyval) : res V := in_generator (decode v).

(** The row of a projection: one value, or a tuple, or the named result. *)
Definition project_row (projection : option named_projection) (decoders : list decoder)
    (row : list pyval) : res object :=
  match decoders with
  | [decode] =>
      match row with
      | [] => raise IndexError "tuple index out of range"
      | raw :: _ =>
          value ← decode raw;
          match projection with
          | Some p => named_materialize p [value]
          | None => Ok (FValue value)
          end
      end
  | _ =>
      pairs ← zip_strict decoders row;
      decoded ← mapR (fun x => decode_field (fst x) (snd x)) pairs;
      match projection with
      | Some p => named_materialize p decoded
      | None => Ok (FTuple (map FValue decoded))
      end
  end.

(** [SelectMaterialization.materialize] *)
Definition materialize (fuel : nat) (m : select_materialization) (row : list pyval) : res object :=
  _ ← assert_ (Nat.eqb (length row) (length (st_fields (sm_state m))))
        "database row shape did not match select query";
  match sm_joined m with
  | Some j =>
      os ← joined_materialize fuel (sm_backend m) (sm_validate m) (sm_joined_decoders m)
             (joined_spans j) 0 row;
      Ok (FTuple os)
  | None =>
      match sm_source m with
      | Some s => source_materialize fuel (sm_backend m) (sm_validate m) [] s false row
      | None => project_row (st_projection (sm_state m)) (sm_decoders m) row
      end
  end.

(** ** RETURNING rows *)

(** [_materialize_insert_returning_fields] *)
Definition materialize_returning_fields (fuel : nat) (fields : list selectable)
    (rows : list (list pyval)) (b : backend) (validate : bool) (projection : option named_projection)
    : res (list object) :=
  decoders ← mapR (fun f => resolve_ fuel f [] b validate) fields;
  mapR (fun row =>
    _ ← assert_ (Nat.eqb (length row) (length fields))
          "returning row shape did not match the projection";
    project_row projection decoders row) rows.

(** The written model, the RETURNING fields and the contract of a write state. *)
Definition write_returning (q : query) : option mid * list selectable * option named_projection :=
  match q with
  | QInsert st => (insert_model st, ins_returning_fields st, ins_projection st)
  | QUpdate st => (Some (upd_model st), upd_returning_fields st, upd_projection st)
  | QDelete st => (Some (del_model st), del_returning_fields st, del_projection st)
  | QSelect _ | QOther => (None, [], None)
  end.

(** [materialize_write_returning_rows_for_backend] *)
Definition materialize_write_returning_rows (fuel : nat) (q : query) (rows : list (list pyval))
    (b : backend) (validate : bool) : res (list object) :=
  let '(model_class, fields, projection) := write_returning q in
  if nonempty fields then materialize_returning_fields fuel fields rows b validate projection
  else match model_class with
       | None => Ok []
       | Some m =>
           columns ← require_model_columns E m;
           mapR (fun row =>
             _ ← assert_ (Nat.eqb (length row) (length columns))
                   "returning row shape did not match the written model";
             decode_model_values b validate m columns row) rows
       end.
(** ** The two paths of model rows agree *)

Lemma dict_remove_fresh {A} n (l : list (string * A)) :
  n ∉ map fst l -> dict_remove n l = l.
Proof.
  intros Hn. unfold dict_remove. induction l as [|[m a] l IH]; [done|]. simpl in Hn.
  apply not_elem_of_cons in Hn as [H1 H2]. rewrite filter_cons_True by (simpl; congruence).
  by rewrite IH.
Qed.

Lemma decode_named_columns b validate columns values acc :
  NoDup (map fst columns) -> length values = length columns ->
  foldR (decode_named_column b validate) (acc, combine (map fst columns) values) columns =
  (decoded ← mapR (fun x => v ← column_decode (snd (fst x)) b validate (snd x);
                            Ok (fst (fst x), v)) (combine columns values);
   Ok (acc ++ decoded, [])).
Proof using V column_decode.
  clear raw_value to_int to_float is_numeric.
  revert values acc. induction columns as [|[n c] columns IH]; intros [|v values] acc Hnd Hl; try done.
  - simpl. by rewrite app_nil_r.
  - apply NoDup_cons in Hnd as [Hn Hnd]. simpl in Hl.
    rewrite foldR_cons. simpl. rewrite mapR_cons, String.eqb_refl. simpl.
    destruct (column_decode c b validate v) as [x|]; [|done]. simpl.
    replace (dict_remove n ((n, v) :: combine (map fst columns) values))
      with (combine (map fst columns) values).
    + rewrite IH by (done || lia). destruct (mapR _ _); [|done]. simpl. by rewrite <- app_assoc.
    + unfold dict_remove. rewrite filter_cons_False by (simpl; naive_solver). symmetry.
      apply dict_remove_fresh. intros Hin. apply Hn.
      apply list_elem_of_fmap in Hin as ([m w] & -> & Hin). apply list_elem_of_In, in_combine_l in Hin.
      by apply list_elem_of_In.
Qed.

(** the positional and the named path of model rows agree.  A row of as many
    values as the model has columns (their names distinct, as keys of a dict)
    becomes the same model row, or the same exception, whether its columns are
    matched by position or popped by name from a dict. *)
Theorem model_row_paths_agree b validate model columns values
  (Hc : require_model_columns E model = Ok columns)
  (Hnd : NoDup (map fst columns)) (Hl : length values = length columns) :
  decode_model_row b validate model (combine (map fst columns) values) =
  decode_model_values b validate model columns values.
Proof using E V R column_decode.
  unfold decode_model_row, decode_model_values, assert_, zip_strict.
  rewrite Hc, Hl, Nat.eqb_refl. simpl. rewrite decode_named_columns by done.
  by destruct (mapR _ _).
Qed.

(** ** LEFT-joined sources *)

(** What the database returns for a source: all NULL when a LEFT JOIN found no
    match, else a value for every NOT NULL column and 1 for the marker. *)
Definition absent_row (s : source_row_shape) : list pyval := replicate (shape_width s) PNone.
Definition matched_row (s : source_row_shape) (values : list pyval) (row : list pyval) : Prop :=
  row = values ++ match shape_presence s with Some _ => [PInt 1] | None => [] end /\
  Forall2 (fun f v => match f with SAttr a => attr_nullable a = false -> is_none v = false
                                 | _ => True end) (payload s) values.

Lemma forallb_replicate_none n : forallb is_none (replicate n PNone) = true.
Proof. by induction n. Qed.

Lemma for_source_no_marker m s :
  for_source E m true = Ok s -> shape_presence s = None ->
  exists a, SAttr a ∈ payload s /\ attr_nullable a = false.
Proof.
  unfold for_source. intros H Hp. destruct (is_cte E m).
  - bind_inv H as def Hdef. destruct (st_projection _); [|done]. by injection H as <-.
  - bind_inv H as cols Hcols. bind_inv H as marker Hm. bind_inv H as mc Hmc. injection H as <-.
    simpl in *. subst marker. destruct (forallb (fun c => attr_nullable c.2) cols) eqn:Hall; simpl in Hm.
    + by bind_inv Hm as n Hn.
    + clear -Hall. induction cols as [|[n a] cols IH]; [done|]. simpl in *.
      destruct (attr_nullable a) eqn:Ha.
      * destruct (IH Hall) as (b & Hb & Hn). exists b. split; [by right|done].
      * exists a. split; [left|done].
Qed.

Lemma absent_materialize fuel b validate decoders s :
  source_materialize fuel b validate decoders s true (absent_row s) = Ok py_none.
Proof.
  unfold source_materialize, source_absent, absent_row, shape_width.
  destruct (shape_presence s).
  - rewrite replicate_add. simpl. by rewrite last_snoc.
  - by rewrite forallb_replicate_none.
Qed.

Lemma matched_present m s values row :
  for_source E m true = Ok s -> matched_row s values row -> source_absent s row = Ok false.
Proof.
  intros Hs [-> Hv]. unfold source_absent. destruct (shape_presence s) eqn:Hp; [by rewrite last_snoc|].
  rewrite app_nil_r. f_equal. destruct (for_source_no_marker _ _ Hs Hp) as (a & Ha & Hn).
  clear -Hv Ha Hn. induction Hv as [|f v fs vs Hf _ IH]; [by apply not_elem_of_nil in Ha|].
  simpl. apply elem_of_cons in Ha as [<-|Ha]; [by rewrite Hf|].
  rewrite IH by done. by rewrite andb_false_r.
Qed.

Lemma matched_materialize fuel b validate decoders m s nullable values row :
  for_source E m true = Ok s -> matched_row s values row ->
  source_materialize fuel b validate decoders s nullable row =
  source_materialize fuel b validate decoders s false row.
Proof.
  intros Hs Hm. destruct nullable; [|done]. unfold source_materialize.
  by rewrite (matched_present _ _ _ _ Hs Hm).
Qed.

(** *** Joined rows *)

(** What the database found for a source, and the columns it sends for it. *)
Definition source_row (sp : row_span) (found : option (list pyval)) (row : list pyval) : Prop :=
  match found with
  | None => span_nullable sp = true /\ row = absent_row (span_shape sp)
  | Some values => matched_row (span_shape sp) values row
  end.

(** The result of a joined row, from what was found for each source. *)
Fixpoint joined_result (fuel : nat) (b : backend) (validate : bool) (decoders : list (list decoder))
    (spans : list row_span) (index : nat) (found : list (option (list pyval)))
    (rows : list (list pyval)) : res (list object) :=
  match spans, found, rows with
  | sp :: spans, f :: found, row :: rows =>
      o ← in_generator
            (ds ← span_decoders decoders index;
             match f with
             | None => Ok py_none
             | Some _ => source_materialize fuel b validate ds (span_shape sp) false row
             end);
      os ← joined_result fuel b validate decoders spans (S index) found rows;
      Ok (o :: os)
  | _, _, _ => Ok []
  end.

Lemma matched_row_length s values row : matched_row s values row -> length row = shape_width s.
Proof.
  intros [-> Hv]. apply Forall2_length in Hv. unfold shape_width.
  rewrite length_app. destruct (shape_presence s); simpl; lia.
Qed.

Lemma source_row_length sp found row : source_row sp found row -> length row = shape_width (span_shape sp).
Proof.
  destruct found as [values|]; simpl; [apply matched_row_length|].
  intros [_ ->]. apply length_replicate.
Qed.

Lemma joined_materialize_found fuel b validate decoders spans index found rows row :
  Forall (fun sp => exists m, for_source E m true = Ok (span_shape sp)) spans ->
  map (fun sp => span_slice sp row) spans = rows ->
  Forall3 source_row spans found rows ->
  joined_materialize fuel b validate decoders spans index row =
  joined_result fuel b validate decoders spans index found rows.
Proof.
  intros Hsp Hrow H. revert index Hsp Hrow.
  induction H as [|sp f r spans found rows Hr _ IH]; intros index Hsp Hrow; [done|].
  apply Forall_cons in Hsp as [[m Hm] Hsp]. injection Hrow as Hr0 Hrow. simpl. rewrite Hr0.
  rewrite (IH (S index) Hsp Hrow). destruct (span_decoders decoders index) as [ds|]; simpl; [|done].
  destruct f as [values|]; simpl in Hr.
  - by rewrite (matched_materialize _ _ _ _ _ _ (span_nullable sp) _ _ Hm Hr).
  - destruct Hr as [-> ->]. by rewrite absent_materialize.
Qed.

(** A present source never becomes a bare value. *)
Definition is_value (o : object) : bool := match o with FValue _ => true | _ => false end.

Lemma named_not_value p values o : named_materialize p values = Ok o -> is_value o = false.
Proof.
  unfold named_materialize. intros H. bind_inv H as u Hu. destruct (model_validate _ _); [|done].
  bind_inv H as u' Hu'. by injection H as <-.
Qed.

Lemma source_not_value fuel b validate ds s row o :
  source_materialize fuel b validate ds s false row = Ok o -> is_value o = false.
Proof.
  unfold source_materialize. simpl. intros H. destruct (shape_projection s).
  { bind_inv H as d Hd. by eapply named_not_value. }
  destruct (row_model s); [|done]. destruct (model_columns s).
  - unfold decode_model_values in H. bind_inv H as u Hu. bind_inv H as x Hx. bind_inv H as y Hy.
    by injection H as <-.
  - bind_inv H as x Hx. unfold decode_model_row in H. bind_inv H as y Hy. bind_inv H as z Hz.
    destruct z. bind_inv H as u Hu. by injection H as <-.
Qed.

Lemma in_generator_Ok {A} (r : res A) x : in_generator r = Ok x -> r = Ok x.
Proof. destruct r as [y|e]; simpl; [done|]. by case_decide. Qed.

(** *** What a joined row is to be, source by source

    Each value found for a source is decoded on its own, by the decoder of the
    field it was selected for: the general one, which no plan has resolved. *)
Definition source_object (fuel : nat) (b : backend) (validate : bool) (s : source_row_shape)
    (values : list pyval) : res object :=
  match shape_projection s, row_model s with
  | Some projection, _ =>
      decoded ← mapR (fun x => in_generator
                  (decode_projection_field_ fuel (fst x) [] b validate (snd x)))
                  (combine (payload s) values);
      named_materialize projection decoded
  | None, None => raise QueryCompilationError "source row lost its model contract"
  | None, Some model =>
      match model_columns s with
      | Some columns =>
          decoded ← mapR (fun x => v ← column_decode (snd (fst x)) b validate (snd x);
                                   Ok (fst (fst x), v)) (combine columns values);
          Ok (FRow model decoded)
      | None => decode_model_row b validate model (combine (column_names s) values)
      end
  end.

Definition joined_objects (fuel : nat) (b : backend) (validate : bool) (spans : list row_span)
    (found : list (option (list pyval))) : res (list object) :=
  mapR (fun x => match snd x with
                 | None => Ok py_none
                 | Some values => in_generator (source_object fuel b validate (span_shape (fst x)) values)
                 end) (combine spans found).

(** The decoders resolved for a source are those of its own fields. *)
Definition own_decoders (fuel : nat) (b : backend) (validate : bool) (s : source_row_shape)
    (ds : list decoder) : Prop :=
  match shape_projection s with
  | Some _ => mapR (fun f => resolve_ fuel f [] b validate) (payload s) = Ok ds
  | None => ds = []
  end.

Lemma for_source_widths m s : for_source E m true = Ok s -> shape_projection s = None ->
  length (column_names s) = length (payload s) /\
  forall columns, model_columns s = Some columns -> length columns = length (payload s).
Proof.
  unfold for_source. intros H Hp. destruct (is_cte E m).
  - bind_inv H as def Hdef. destruct (st_projection _); [|done]. by injection H as <-.
  - bind_inv H as cols Hcols. bind_inv H as marker Hm. bind_inv H as mc Hmc. injection H as <-.
    simpl. rewrite !length_map. split; [done|]. intros columns Hc.
    destruct (Pos.eqb _ _) eqn:Heq; simpl in Hc.
    + injection Hc as <-. by injection Hmc as <-.
    + case_bool_decide as Hn; [|done]. injection Hc as <-.
      by rewrite <- (length_map fst mc), Hn, length_map.
Qed.

Lemma resolved_payload fuel b validate fields ds values :
  mapR (fun f => resolve_ fuel f [] b validate) fields = Ok ds ->
  Forall (source_bound E fuel) fields -> length values = length fields ->
  mapR (fun x => in_generator (fst x (snd x))) (combine ds values) =
  mapR (fun x => in_generator (decode_projection_field_ fuel (fst x) [] b validate (snd x)))
    (combine fields values).
Proof using Type.
  revert ds values. induction fields as [|f fields IH]; intros ds values Hd Hb Hl.
  - by injection Hd as <-.
  - rewrite mapR_cons in Hd. bind_inv Hd as d Hd0. bind_inv Hd as ds' Hd1. injection Hd as <-.
    destruct values as [|v values]; [done|]. apply Forall_cons in Hb as [Hb Hbs]. cbn [combine].
    rewrite !mapR_cons. cbn [fst snd]. rewrite (IH ds' values Hd1 Hbs) by (simpl in Hl; lia).
    rewrite (resolved_agrees _ _ _ _ _ _ _ _ _ _ _ _ v Hd0) by by left. done.
Qed.

Lemma source_materialize_own fuel b validate ds m s values row :
  for_source E m true = Ok s -> own_decoders fuel b validate s ds -> matched_row s values row ->
  Forall (source_bound E fuel) (payload s) ->
  source_materialize fuel b validate ds s false row = source_object fuel b validate s values.
Proof using Type.
  intros Hs Hd [-> Hv] Hb. apply Forall2_length in Hv. unfold source_materialize, source_object.
  cbn [mbind res_bind]. rewrite take_app_length' by done. unfold own_decoders in Hd.
  destruct (shape_projection s) as [p|] eqn:Hp.
  - pose proof (mapR_length _ _ _ Hd) as Hl. rewrite <- (resolved_payload _ _ _ _ _ _ Hd Hb) by done.
    unfold decode_payload, zip_strict. destruct ds as [|d ds].
    + simpl in Hl. destruct (payload s); [|done]. by destruct values.
    + by rewrite <- Hv, <- Hl, Nat.eqb_refl.
  - destruct (for_source_widths m s Hs Hp) as [Hn Hc]. destruct (row_model s); [|done].
    destruct (model_columns s) as [columns|].
    + unfold decode_model_values, assert_, zip_strict. rewrite (Hc _ eq_refl), Hv, Nat.eqb_refl. done.
    + unfold zip_strict. by rewrite Hn, Hv, Nat.eqb_refl.
Qed.

Lemma joined_result_own fuel b validate jds spans index found rows :
  Forall (fun sp => exists m, for_source E m true = Ok (span_shape sp)) spans ->
  Forall (fun sp => Forall (source_bound E fuel) (payload (span_shape sp))) spans ->
  (forall i sp, spans !! i = Some sp -> exists ds, span_decoders jds (index + i) = Ok ds /\
     own_decoders fuel b validate (span_shape sp) ds) ->
  Forall3 source_row spans found rows ->
  joined_result fuel b validate jds spans index found rows = joined_objects fuel b validate spans found.
Proof using Type.
  intros Hsp Hb Hd H. revert index Hd. induction H as [|sp f r spans found rows Hr _ IH]; intros index Hd; [done|].
  apply Forall_cons in Hsp as [[m Hm] Hsp]. apply Forall_cons in Hb as [Hb Hbs].
  destruct (Hd 0 sp eq_refl) as (ds & Hds & Hown). rewrite Nat.add_0_r in Hds.
  unfold joined_objects. cbn [joined_result combine]. rewrite mapR_cons. cbn [fst snd]. rewrite Hds.
  rewrite (IH Hsp Hbs (S index)) by (intros i sp' Hi; destruct (Hd (S i) sp' Hi) as (ds' & Hds' & Ho);
    exists ds'; by rewrite Nat.add_succ_comm).
  destruct f as [values|]; [|done]. cbn [mbind res_bind].
  by rewrite (source_materialize_own _ _ _ _ m _ values r Hm Hown Hr Hb).
Qed.

Lemma resolve_decoders_own fuel b validate j jds : resolve_decoders fuel b validate j = Ok jds ->
  forall i sp, joined_spans j !! i = Some sp -> exists ds, span_decoders jds i = Ok ds /\
    own_decoders fuel b validate (span_shape sp) ds.
Proof using Type.
  unfold resolve_decoders, own_decoders. destruct (existsb _ _) eqn:He; intros H i sp Hi.
  - apply mapR_Ok in H.
    destruct (Forall2_lookup_l _ _ _ _ _ H Hi) as (ds & Hi' & Hds). exists ds. split.
    + unfold span_decoders. destruct jds as [|d jds]; [by destruct i|]. by rewrite Hi'.
    + destruct (shape_projection _); [done|]. by injection Hds.
  - injection H as <-. exists []. split; [done|]. destruct (shape_projection (span_shape sp)) eqn:Hp; [|done].
    exfalso. apply not_true_iff_false in He. apply He, existsb_exists. exists sp. rewrite Hp. split; [|done].
    apply list_elem_of_In. by eapply list_elem_of_lookup_2.
Qed.

Lemma joined_result_presence fuel b validate decoders spans index found rows os :
  Forall3 source_row spans found rows ->
  joined_result fuel b validate decoders spans index found rows = Ok os ->
  Forall2 (fun f o => o = py_none <-> f = None) found os.
Proof.
  intros H. revert index os. induction H as [|sp f r spans found rows Hr _ IH]; intros index os Ho.
  - injection Ho as <-. constructor.
  - simpl in Ho. bind_inv Ho as o Hf. bind_inv Ho as os' Hos. injection Ho as <-.
    constructor; [|by eapply IH]. apply in_generator_Ok in Hf. bind_inv Hf as ds Hds.
    destruct f as [values|]; [|by injection Hf as <-]. split; [|done]. intros ->.
    by apply source_not_value in Hf.
Qed.

(** a LEFT-joined source is materialized as absent exactly when it is.
    The row of an unmatched source becomes [None]; any row of a matched source,
    even one whose columns are all NULL, is decoded as a row. *)
Theorem left_join_presence_exact fuel b validate decoders m s values row
  (Hs : for_source E m true = Ok s) :
  source_materialize fuel b validate decoders s true (absent_row s) = Ok py_none /\
  (matched_row s values row ->
   source_absent s row = Ok false /\
   source_materialize fuel b validate decoders s true row =
   source_materialize fuel b validate decoders s false row).
Proof.
  split; [by apply absent_materialize|]. intros Hm.
  split; [by eapply matched_present|]. by eapply matched_materialize.
Qed.
End materialize.

(** ** Concrete instances *)

Lemma model_row_paths_agree_witness :
  decode_model_row (R:=list (string * pyval)) (demo BSqlite) demo_decode BSqlite true orders
    [("user_id", PInt 1); ("amount", PInt 5); ("bonus", PNone)] =
  decode_model_values demo_decode BSqlite true orders orders_columns [PInt 1; PInt 5; PNone].
Proof.
  exact (model_row_paths_agree (demo BSqlite) demo_decode BSqlite true orders orders_columns
           [PInt 1; PInt 5; PNone] eq_refl
           (bool_decide_unpack _ (ltac:(vm_compute; exact I) : bool_decide (NoDup ["user_id"; "amount"; "bonus"])))
           eq_refl).
Defined.

Lemma left_join_presence_exact_witness :
  match for_source (demo BSqlite) orders true with
  | Ok s => source_absent s [PInt 1; PInt 5; PNone] = Ok false
  | Raise _ => False
  end.
Proof.
  destruct (for_source (demo BSqlite) orders true) as [s|e] eqn:Hs.
  - refine (proj1 (proj2 (left_join_presence_exact (demo BSqlite) id demo_int demo_float demo_decode
              (fun _ => Some true) demo_validate (fun _ _ => true) 5 BSqlite true [] orders s
              [PInt 1; PInt 5; PNone] [PInt 1; PInt 5; PNone] Hs) _)).
    vm_compute in Hs. injection Hs as <-. split; [reflexivity|]. repeat constructor; intros; try reflexivity; discriminate.
  - vm_compute in Hs. discriminate.
Defined.
