(* ===== verification/QueryBuilder.v ===== *)
(** * Query builders

    The fluent surface of [query.py]: [build_select] and the transitions of the
    select, insert, update and delete query classes.  A query is the kind of
    its class with its immutable state; every call returns a new one or raises.
    Arguments are the Python objects the code tells apart; [None] stands for an
    object that no factory of the library built. *)

From S2P Require Export RowShape.

(** ** State replacement ([replace_query_state]) *)

Definition with_distinct '(SelectState m f p r _ l w g h o li ofs j c) : select_state :=
  SelectState m f p r true l w g h o li ofs j c.
Definition with_lock (lock : lock_wait) '(SelectState m f p r d _ w g h o li ofs j c) : select_state :=
  SelectState m f p r d (Some lock) w g h o li ofs j c.
Definition add_predicates (ps : list predicate) '(SelectState m f p r d l w g h o li ofs j c)
    : select_state := SelectState m f p r d l (w ++ ps) g h o li ofs j c.
Definition add_groupings (gs : list selectable) '(SelectState m f p r d l w g h o li ofs j c)
    : select_state := SelectState m f p r d l w (g ++ gs) h o li ofs j c.
Definition add_having (ps : list predicate) '(SelectState m f p r d l w g h o li ofs j c)
    : select_state := SelectState m f p r d l w g (h ++ ps) o li ofs j c.
Definition add_orderings (os : list order_by) '(SelectState m f p r d l w g h o li ofs j c)
    : select_state := SelectState m f p r d l w g h (o ++ os) li ofs j c.
Definition with_limit (v : Z) '(SelectState m f p r d l w g h o _ ofs j c) : select_state :=
  SelectState m f p r d l w g h o (Some v) ofs j c.
Definition with_offset (v : Z) '(SelectState m f p r d l w g h o li _ j c) : select_state :=
  SelectState m f p r d l w g h o li (Some v) j c.
Definition add_join (spec : join_spec) '(SelectState m f p r d l w g h o li ofs j c) : select_state :=
  SelectState m f p r d l w g h o li ofs (j ++ [spec]) c.
Definition as_joined_model (fields : list selectable) '(SelectState m _ _ _ d l w g h o li ofs j c)
    : select_state := SelectState m fields None true d l w g h o li ofs j c.

(** ** Arguments *)

(** What [select] and [join] may be given: a [_Cte], a [TableAlias], a class,
    or any other object. *)
Inductive source_arg :=
  | ArgCte (relation : mid)
  | ArgAlias (relation : mid)
  | ArgClass (cls : mid)
  | ArgField (s : selectable).

(** The [on=] argument of a join. *)
Inductive join_on :=
  | OnReferences (lhs rhs : selectable)
  | OnPredicate (p : predicate)
  | OnOther.

(** [require_query_source] of [_query_sources.py] over the one of [_aliases.py]. *)
Definition require_query_source (E : env) (value : source_arg) : res mid :=
  match value with
  | ArgCte r | ArgAlias r => Ok r
  | ArgClass m => bound_to_table E "query source requires a table model or alias" m
  | ArgField _ => raise QueryConstructionError "query source requires a table model or alias"
  end.

Definition require_grouping_column (s : selectable) : res selectable :=
  match s with
  | SCteOutput _ _ => Ok s
  | _ => a ← require_field s; Ok (SAttr a)
  end.

Definition require_factory_predicates (ps : list (option predicate)) : res (list predicate) :=
  mapR (fun p => match p with
                 | Some p => Ok p
                 | None => raise QueryConstructionError
                             "predicates must be built from columns or query factories"
                 end) ps.

(** ** Select transitions *)

Definition own_scope (st : select_state) : scope_resolver := ScopeResolver (result_models st) [].

Definition select_where (E : env) (st : select_state) (ps : list (option predicate))
    : res select_state :=
  _ ← guardR (nonempty ps) QueryConstructionError "where() requires at least one predicate";
  checked ← require_factory_predicates ps;
  _ ← iterR (ensure_predicate_targets_models E (own_scope st)) checked;
  Ok (add_predicates checked st).

Definition select_order_by (E : env) (st : select_state) (os : list (option order_by))
    : res select_state :=
  _ ← guardR (nonempty os) QueryConstructionError "order_by() requires at least one ordering";
  checked ← mapR (fun o => match o with
                           | None => raise QueryConstructionError
                                       "orderings must be built from columns"
                           | Some o =>
                               _ ← ensure_ordering_targets_models E (own_scope st) o; Ok o
                           end) os;
  Ok (add_orderings checked st).

Definition select_group_by (E : env) (st : select_state) (columns : list selectable)
    : res select_state :=
  _ ← guardR (nonempty columns) QueryConstructionError "group_by() requires at least one column";
  grouped ← mapR require_grouping_column columns;
  _ ← ensure_grouping_targets_models E (own_scope st) grouped;
  Ok (add_groupings grouped st).

Definition select_having (E : env) (st : select_state) (ps : list (option predicate))
    : res select_state :=
  _ ← guardR (nonempty ps) QueryConstructionError "having() requires at least one predicate";
  checked ← require_factory_predicates ps;
  _ ← iterR (ensure_having_targets E st (own_scope st)) checked;
  Ok (add_having checked st).

(** The predicate of a join, checked against the sources already joined and
    the new one. *)
Definition join_condition (E : env) (st : select_state) (table_model : mid) (on : join_on)
    : res predicate :=
  match on with
  | OnReferences lhs rhs =>
      left_column ← require_field lhs;
      right_column ← require_field rhs;
      left_model ← require_column_model E left_column;
      right_model ← require_column_model E right_column;
      let related := [left_model; right_model] in
      _ ← guardR (bool_decide (table_model ∈ related)) QueryConstructionError
            "join condition must reference the joined table";
      _ ← guardR (forallb (fun m => bool_decide (m = table_model \/ m ∈ result_models st)) related)
            QueryConstructionError
            "join condition must relate the joined table to an already-joined table";
      Ok (ColumnComparisonPredicate (SAttr left_column) OpEq (SAttr right_column))
  | OnPredicate p =>
      _ ← ensure_predicate_targets_models E
            (ScopeResolver (result_models st ++ [table_model]) []) p;
      Ok p
  | OnOther => raise QueryConstructionError
                 "join requires an on= predicate or references() condition"
  end.

Definition select_join (E : env) (st : select_state) (model : source_arg) (on : join_on)
    (kind : join_type) (project : bool) : res select_state :=
  table_model ← require_query_source E model;
  anchor_backend ← require_model_backend E (st_model st);
  joined_backend ← require_model_backend E table_model;
  _ ← guardR (bool_decide (joined_backend = anchor_backend)) QueryConstructionError
        "backend mismatch";
  _ ← guardR (negb (bool_decide (table_model ∈ result_models st))) QueryConstructionError
        "table is already joined";
  predicate ← join_condition E st table_model on;
  let joined := add_join (JoinSpec table_model kind predicate) st in
  if (project : bool) then Ok joined
  else
    shape ← for_sources E (st_model st) (st_joins joined);
    Ok (as_joined_model (joined_fields shape) joined).

(** [@validate_boundary] on a [NonNegativeInt]: strict, so a [bool] or a float
    is refused. *)
Definition nonnegative_int (v : pyval) : res Z :=
  match v with
  | PInt z => if (0 <=? z)%Z then Ok z
              else raise QueryConstructionError "Input should be greater than or equal to 0"
  | _ => raise QueryConstructionError "Input should be a valid integer"
  end.

(** ** Select queries *)

(** [SelectModelQuery], [JoinModelQuery], [SelectValueQuery], [SelectTupleQuery] *)
Inductive select_kind := KModel | KJoin | KValue | KTuple.

Record select_query := SelectQuery { sq_kind : select_kind; sq_state : select_state }.

Definition select_model (E : env) (value : source_arg) : res select_query :=
  model ← require_query_source E value;
  columns ← match require_model_columns E model with
            | Ok cs => Ok cs
            | Raise e => if decide (exn_class e = ModelDeclarationError)
                         then raise QueryConstructionError "select requires a table model"
                         else Raise e
            end;
  Ok (SelectQuery KModel
        (SelectState model (map (fun c => SAttr (snd c)) columns) None true false None
           [] [] [] [] None None [] None)).

Definition select_cte (E : env) (relation : mid) : res select_query :=
  d ← relation_definition E relation;
  Ok (SelectQuery KModel
        (SelectState relation
           (map (fun position => SCteOutput position relation)
              (seq 0 (length (st_fields (def_state d)))))
           (st_projection (def_state d)) false false None [] [] [] [] None None [] None)).

Definition select_fields (E : env) (args : list source_arg) : res select_query :=
  fields ← mapR (fun a => match a with
                          | ArgField s => require_selectable s
                          | _ => raise QueryConstructionError "select requires a model or field"
                          end) args;
  match fields with
  | [] => raise OtherError "IndexError"
  | SScalar _ :: _ =>
      raise QueryConstructionError "a scalar subquery cannot be the first projected field"
  | anchor :: others =>
      model ← selectable_owner_model E anchor;
      Ok (SelectQuery (if nonempty others then KTuple else KValue) (select_state_of model fields))
  end.

Definition is_class_or_alias (a : source_arg) : bool :=
  match a with ArgAlias _ | ArgClass _ => true | _ => false end.

Definition build_select (E : env) (args : list source_arg) : res select_query :=
  match args with
  | [] => raise QueryConstructionError "select requires a model or field"
  | ArgCte relation :: rest =>
      if nonempty rest
      then raise QueryConstructionError "mixed CTE and field selection is invalid"
      else select_cte E relation
  | first :: rest =>
      if existsb is_class_or_alias args then
        if nonempty rest
        then raise QueryConstructionError "mixed model and field selection is invalid"
        else select_model E first
      else select_fields E args
  end.

(** The method calls of a select query. *)
Inductive select_call :=
  | CallForUpdate (wait : option lock_wait)
  | CallDistinct
  | CallLimit (value : pyval)
  | CallOffset (value : pyval)
  | CallWhere (predicates : list (option predicate))
  | CallOrderBy (orderings : list (option order_by))
  | CallGroupBy (columns : list selectable)
  | CallHaving (predicates : list (option predicate))
  | CallJoin (kind : join_type) (model : source_arg) (on : join_on).

Definition is_projection (k : select_kind) : bool :=
  match k with KValue | KTuple => true | KModel | KJoin => false end.

Definition same_kind (q : select_query) (st : res select_state) : res select_query :=
  st ← st; Ok (SelectQuery (sq_kind q) st).

(** Dispatch on the class: a model select has no [group_by]/[having], a
    projection refuses [left_join], a join of a model select is a [JoinModelQuery]. *)
Definition call_select (E : env) (q : select_query) (c : select_call) : res select_query :=
  let st := sq_state q in
  match c with
  | CallForUpdate (Some wait) => same_kind q (Ok (with_lock wait st))
  | CallForUpdate None => raise QueryConstructionError "Input should be a lock wait"
  | CallDistinct => if st_distinct st then Ok q else same_kind q (Ok (with_distinct st))
  | CallLimit v => same_kind q (z ← nonnegative_int v; Ok (with_limit z st))
  | CallOffset v => same_kind q (z ← nonnegative_int v; Ok (with_offset z st))
  | CallWhere ps => same_kind q (select_where E st ps)
  | CallOrderBy os => same_kind q (select_order_by E st os)
  | CallGroupBy cs => if is_projection (sq_kind q) then same_kind q (select_group_by E st cs)
                      else raise OtherError "AttributeError: group_by"
  | CallHaving ps => if is_projection (sq_kind q) then same_kind q (select_having E st ps)
                     else raise OtherError "AttributeError: having"
  | CallJoin kind model on =>
      if is_projection (sq_kind q) then
        match kind with
        | INNER => same_kind q (select_join E st model on INNER true)
        | LEFT => raise QueryConstructionError
                    "projection left_join is not supported; select models instead"
        end
      else st ← select_join E st model on kind false; Ok (SelectQuery KJoin st)
  end.

(** [select(args).call1(...).call2(...)...] *)
Definition run_select (E : env) (args : list source_arg) (calls : list select_call)
    : res select_query :=
  q ← build_select E args; foldR (call_select E) q calls.

(** ** Write queries *)

(** The class of a write query: without RETURNING, or returning models, one
    column, several columns. *)
Inductive write_kind := WPlain | WModel | WValue | WTuple.

Definition returning_kind (fields : list selectable) : write_kind :=
  match fields with [] => WModel | [_] => WValue | _ => WTuple end.

(** *** INSERT *)

Record insert_query := InsertQuery { iq_kind : write_kind; iq_state : insert_state }.

Definition build_insert (row : model_row) : res insert_query :=
  _ ← require_insert_model row;
  Ok (InsertQuery WPlain (InsertState [row] None None [] None false [] false)).

(** [model] is [None] for an object that is not a model class. *)
Definition build_insert_many (model : option mid) (rows : list model_row) : res insert_query :=
  match model with
  | None => raise QueryConstructionError "insert_many requires a model declaration"
  | Some m =>
      _ ← guardR (forallb (fun r => bool_decide (row_class r = m)) rows) QueryConstructionError
            "insert_many rows must belong to the destination model";
      _ ← iterR (fun r => _ ← require_insert_model r; Ok tt) rows;
      Ok (InsertQuery WPlain (InsertState rows (Some m) None [] None false [] true))
  end.

(** [DoUpdate(...)] *)
Definition do_update (assignments : list (option assignment)) : res conflict_action :=
  _ ← guardR (nonempty assignments) QueryConstructionError
        "DoUpdate requires at least one assignment";
  checked ← mapR (fun a => match a with
                           | Some a => Ok a
                           | None => raise QueryConstructionError
                                       "assignments must be built from columns"
                           end) assignments;
  Ok (DoUpdate checked).

Definition with_conflict (action : conflict_action) (targets : list attr) (st : insert_state)
    : insert_state :=
  InsertState (ins_rows st) (ins_destination st) (Some action) targets (ins_projection st)
    (ins_returning st) (ins_returning_fields st) (ins_multi st).

Definition on_conflict (E : env) (st : insert_state) (targets : list selectable)
    (action : option conflict_action) : res insert_state :=
  match targets with
  | [] => raise QueryConstructionError "on_conflict requires at least one target column"
  | first :: _ =>
      target_model ← match insert_model st with
                     | Some m => Ok m
                     | None => c ← require_field first; require_column_model E c
                     end;
      let scope := ScopeResolver [target_model] [] in
      checked ← mapR (fun target =>
                  column ← require_field target;
                  owner ← require_column_model E column;
                  _ ← guardR (bool_decide (owner = target_model)) QueryConstructionError
                        "on_conflict target must belong to the inserted model";
                  Ok column) targets;
      match action with
      | Some (DoUpdate assignments) =>
          _ ← iterR (ensure_assignment_targets_model E scope) assignments;
          Ok (with_conflict (DoUpdate assignments) checked st)
      | Some DoNothing => Ok (with_conflict DoNothing checked st)
      | None => raise QueryConstructionError
                  "on_conflict action must be DoUpdate(...) or DoNothing"
      end
  end.

Definition insert_returning (E : env) (st : insert_state) (fields : list selectable)
    : res insert_query :=
  let set fs projection :=
    InsertState (ins_rows st) (ins_destination st) (ins_conflict_action st)
      (ins_conflict_targets st) projection true fs (ins_multi st) in
  match fields with
  | [] => Ok (InsertQuery WModel (set (ins_returning_fields st) (ins_projection st)))
  | _ => selectables ← require_returning_fields E st fields;
         Ok (InsertQuery (returning_kind selectables) (set selectables None))
  end.

Inductive insert_call :=
  | CallOnConflict (targets : list selectable) (action : option conflict_action)
  | CallInsertReturning (fields : list selectable).

(** Only [InsertQuery] and [InsertManyQuery] have [returning]. *)
Definition call_insert (E : env) (q : insert_query) (c : insert_call) : res insert_query :=
  match c with
  | CallOnConflict targets action =>
      st ← on_conflict E (iq_state q) targets action; Ok (InsertQuery (iq_kind q) st)
  | CallInsertReturning fields =>
      match iq_kind q with
      | WPlain => insert_returning E (iq_state q) fields
      | _ => raise OtherError "AttributeError: returning"
      end
  end.

(** *** UPDATE *)

Record update_query := UpdateQuery { uq_kind : write_kind; uq_state : update_state }.

(** [update(model)]; [model] is [None] for an object that is not a model class. *)
Definition build_update (E : env) (model : option mid) : res update_query :=
  match model with
  | None => raise QueryConstructionError "update requires a model declaration"
  | Some m =>
      m ← bound_to_table E "update requires a table model" m;
      Ok (UpdateQuery WPlain (UpdateState m [] false [] None false []))
  end.

Definition update_all (st : update_state) : res update_state :=
  _ ← guardR (negb (nonempty (upd_predicates st))) QueryConstructionError
        "all() cannot be combined with where()";
  if upd_explicit_all st then Ok st
  else Ok (UpdateState (upd_model st) (upd_assignments st) true (upd_predicates st)
             (upd_projection st) (upd_returning st) (upd_returning_fields st)).

Definition update_set (E : env) (st : update_state) (assignments : list (option assignment))
    : res update_state :=
  _ ← guardR (nonempty assignments) QueryConstructionError "set() requires at least one assignment";
  checked ← mapR (fun a => match a with
                           | None => raise QueryConstructionError
                                       "assignments must be built from columns"
                           | Some a =>
                               _ ← ensure_assignment_targets_model E
                                     (ScopeResolver [upd_model st] []) a;
                               Ok a
                           end) assignments;
  Ok (UpdateState (upd_model st) (upd_assignments st ++ checked) (upd_explicit_all st)
        (upd_predicates st) (upd_projection st) (upd_returning st) (upd_returning_fields st)).

Definition update_where (E : env) (st : update_state) (ps : list (option predicate))
    : res update_state :=
  _ ← guardR (nonempty ps) QueryConstructionError "where() requires at least one predicate";
  _ ← guardR (negb (upd_explicit_all st)) QueryConstructionError
        "where() cannot be combined with all()";
  checked ← require_factory_predicates ps;
  _ ← iterR (ensure_predicate_targets_models E (ScopeResolver [upd_model st] [])) checked;
  Ok (UpdateState (upd_model st) (upd_assignments st) (upd_explicit_all st)
        (upd_predicates st ++ checked) (upd_projection st) (upd_returning st)
        (upd_returning_fields st)).

Definition update_returning (E : env) (st : update_state) (fields : list selectable)
    : res update_query :=
  selectables ← match fields with
                | [] => Ok []
                | _ => require_model_returning_fields E (Some (upd_model st)) fields
                end;
  Ok (UpdateQuery (returning_kind selectables)
        (UpdateState (upd_model st) (upd_assignments st) (upd_explicit_all st)
           (upd_predicates st) None true selectables)).

Inductive update_call :=
  | CallUpdateAll
  | CallSet (assignments : list (option assignment))
  | CallUpdateWhere (predicates : list (option predicate))
  | CallUpdateReturning (fields : list selectable).

Definition call_update (E : env) (q : update_query) (c : update_call) : res update_query :=
  let keep st := st ← st; Ok (UpdateQuery (uq_kind q) st) in
  match c with
  | CallUpdateAll => keep (update_all (uq_state q))
  | CallSet assignments => keep (update_set E (uq_state q) assignments)
  | CallUpdateWhere ps => keep (update_where E (uq_state q) ps)
  | CallUpdateReturning fields => update_returning E (uq_state q) fields
  end.

(** *** DELETE *)

Record delete_query := DeleteQuery { dq_kind : write_kind; dq_state : delete_state }.

Definition build_delete (E : env) (model : option mid) : res delete_query :=
  match model with
  | None => raise QueryConstructionError "delete requires a model declaration"
  | Some m =>
      m ← bound_to_table E "delete requires a table model" m;
      Ok (DeleteQuery WPlain (DeleteState m false [] None false []))
  end.

Definition delete_all (st : delete_state) : res delete_state :=
  _ ← guardR (negb (nonempty (del_predicates st))) QueryConstructionError
        "all() cannot be combined with where()";
  if del_explicit_all st then Ok st
  else Ok (DeleteState (del_model st) true (del_predicates st)
             (del_projection st) (del_returning st) (del_returning_fields st)).

Definition delete_where (E : env) (st : delete_state) (ps : list (option predicate))
    : res delete_state :=
  _ ← guardR (nonempty ps) QueryConstructionError "where() requires at least one predicate";
  _ ← guardR (negb (del_explicit_all st)) QueryConstructionError
        "where() cannot be combined with all()";
  checked ← require_factory_predicates ps;
  _ ← iterR (ensure_predicate_targets_models E (ScopeResolver [del_model st] [])) checked;
  Ok (DeleteState (del_model st) (del_explicit_all st) (del_predicates st ++ checked)
        (del_projection st) (del_returning st) (del_returning_fields st)).

Definition delete_returning (E : env) (st : delete_state) (fields : list selectable)
    : res delete_query :=
  selectables ← match fields with
                | [] => Ok []
                | _ => require_model_returning_fields E (Some (del_model st)) fields
                end;
  Ok (DeleteQuery (returning_kind selectables)
        (DeleteState (del_model st) (del_explicit_all st) (del_predicates st) None true
           selectables)).

Inductive delete_call :=
  | CallDeleteAll
  | CallDeleteWhere (predicates : list (option predicate))
  | CallDeleteReturning (fields : list selectable).

Definition call_delete (E : env) (q : delete_query) (c : delete_call) : res delete_query :=
  let keep st := st ← st; Ok (DeleteQuery (dq_kind q) st) in
  match c with
  | CallDeleteAll => keep (delete_all (dq_state q))
  | CallDeleteWhere ps => keep (delete_where E (dq_state q) ps)
  | CallDeleteReturning fields => delete_returning E (dq_state q) fields
  end.

(** *** Subquery values *)

Definition exists_ (subquery : option select_state) : res predicate :=
  _ ← require_subquery_state subquery; Ok (ExistencePredicate subquery false).
Definition not_exists (subquery : option select_state) : res predicate :=
  _ ← require_subquery_state subquery; Ok (ExistencePredicate subquery true).
Definition scalar (subquery : option select_state) : res selectable :=
  _ ← require_single_column_subquery subquery; Ok (SScalar subquery).

(** ** Induction over the children of a predicate *)

Section predicate_children_ind.
Context (P : predicate -> Prop) (step : forall p, Forall P (predicate_children p) -> P p).

Fixpoint predicate_children_ind (p : predicate) : P p :=
  step p match p return Forall P (predicate_children p) with
         | CompoundPredicate _ cs => forall_list P predicate_children_ind cs
         | NegatedPredicate c =>
             List.Forall_cons _ _ _ (predicate_children_ind c) (List.Forall_nil _)
         | _ => List.Forall_nil _
         end.
End predicate_children_ind.

(** A node and every node below it. *)
Fixpoint subpredicates (p : predicate) : list predicate :=
  p :: match p with
       | CompoundPredicate _ cs => concat (map subpredicates cs)
       | NegatedPredicate c => subpredicates c
       | _ => []
       end.

Lemma subpredicates_inv p q :
  q ∈ subpredicates p -> q = p \/ exists c, c ∈ predicate_children p /\ q ∈ subpredicates c.
Proof.
  destruct p as [| | | | | | | |op cs|c]; simpl; rewrite ?elem_of_cons, ?elem_of_nil; try tauto.
  - intros [->|H]; [tauto|]. right. apply list_elem_of_In, List.in_concat in H as (l & Hl & Hq).
    apply List.in_map_iff in Hl as (c & <- & Hc). exists c. split; by apply list_elem_of_In.
  - intros [->|H]; [tauto|]. right. exists c. split; [set_solver|done].
Qed.

(** ** Widening a scope

    A join only adds a source of the anchor's backend: what was accepted before
    the join is accepted after it. *)

(** The check of one node, and of its children. *)
Definition predicate_node_ok (E : env) (sc : scope_resolver) (p : predicate) : Prop :=
  match p with
  | ExistencePredicate q _ => is_Some q
  | _ =>
      (match p with
       | SubqueryMembershipPredicate _ q _ => is_ok (require_single_column_subquery q) = true
       | _ => True
       end) /\
      existsb is_aggregate (predicate_grouping_operands p) = false /\
      opt_all (fun o => ensure_operand_in_scope E sc o "predicate" QueryConstructionError false
                        = Ok tt) (predicate_operand p)
  end.

Lemma ensure_predicate_Ok E sc p :
  ensure_predicate_targets_models E sc p = Ok tt <->
  predicate_node_ok E sc p /\
  Forall (fun c => ensure_predicate_targets_models E sc c = Ok tt) (predicate_children p).
Proof.
  destruct p as [o|o|o|o|o|o op other|o q|q|op cs|c]; cbn [ensure_predicate_targets_models
    predicate_subquery_arity predicate_subquery predicate_node_ok predicate_children
    predicate_operand opt_all];
    checks; rewrite ?negb_true_iff, ?iterR_Ok, ?Forall_cons, ?Forall_nil; simpl; try tauto.
  destruct q; simpl; naive_solver.
Qed.

Definition joinable (E : env) (ms : list mid) (m : mid) : Prop :=
  exists a b, a ∈ ms /\ require_model_backend E a = Ok b /\ require_model_backend E m = Ok b.

Section widening.
Context (E : env) (ms : list mid) (m : mid) (Hjoin : joinable E ms m).

Lemma literal_widens family :
  anyR (fun m => b ← require_model_backend E m; Ok (negb (bool_decide (b = family)))) ms = Ok false ->
  anyR (fun m => b ← require_model_backend E m; Ok (negb (bool_decide (b = family)))) (ms ++ [m])
    = Ok false.
Proof.
  rewrite !anyR_false, Forall_app, Forall_singleton. intros H. split; [done|].
  destruct Hjoin as (a & b & Ha & Hab & Hmb). rewrite Forall_forall in H. specialize (H a Ha).
  rewrite Hab in H. rewrite Hmb. exact H.
Qed.

Lemma operand_widens s clause error own_only :
  ensure_operand_in_scope E (ScopeResolver ms []) s clause error own_only = Ok tt ->
  ensure_operand_in_scope E (ScopeResolver (ms ++ [m]) []) s clause error own_only = Ok tt.
Proof.
  unfold ensure_operand_in_scope, models. simpl. rewrite !app_nil_r.
  replace (if own_only then ms else ms) with ms by by destruct own_only.
  replace (if own_only then ms ++ [m] else ms ++ [m]) with (ms ++ [m]) by by destruct own_only.
  assert (Hcheck : forall (o : res mid) c,
    (owner ← o; guardR (bool_decide (owner ∈ ms)) error c) = Ok tt ->
    (owner ← o; guardR (bool_decide (owner ∈ ms ++ [m])) error c) = Ok tt).
  { intros [o|] c H; [|done]. simpl in *. apply guardR_Ok, bool_decide_eq_true in H.
    rewrite bool_decide_eq_true_2; [done|set_solver]. }
  destruct s as [| | | | |family z| | |]; cbn [compilable_owner]; try (by apply Hcheck).
  { destruct e. by apply Hcheck. }
  pose proof (literal_widens family) as Hlit.
  destruct ms as [|x l]; [by destruct Hjoin as (a & b & Ha%not_elem_of_nil & _)|].
  intros H. bind_inv H as d Hd. destruct d; [done|]. simpl app in *. by rewrite (Hlit Hd).
Qed.

Lemma predicate_widens p :
  ensure_predicate_targets_models E (ScopeResolver ms []) p = Ok tt ->
  ensure_predicate_targets_models E (ScopeResolver (ms ++ [m]) []) p = Ok tt.
Proof.
  induction p as [p IH] using predicate_children_ind. rewrite !ensure_predicate_Ok.
  intros [Hnode Hcs]. split.
  - destruct p; simpl in *; try done; repeat split; try (by apply Hnode);
      apply operand_widens, Hnode.
  - rewrite !Forall_forall in *. eauto.
Qed.
End widening.

Lemma ordering_widens E ms m o :
  joinable E ms m -> ensure_ordering_targets_models E (ScopeResolver ms []) o = Ok tt ->
  ensure_ordering_targets_models E (ScopeResolver (ms ++ [m]) []) o = Ok tt.
Proof.
  intros Hj. unfold ensure_ordering_targets_models. destruct (ob_column o); [|done].
  destruct (guardR _ _ _) as [[]|]; [|done]. simpl.
  destruct (require_selectable s); [|done]. simpl. by apply operand_widens.
Qed.

(** ** What every built select satisfies *)

(** The operands of a HAVING predicate, at any depth: in scope, and an
    aggregate or the key of a grouping column. *)
Definition having_covered (E : env) (st : select_state) (p : predicate) : Prop :=
  forall q o, q ∈ subpredicates p -> o ∈ predicate_grouping_operands q ->
  ensure_operand_in_scope E (own_scope st) o "having" QueryConstructionError false = Ok tt /\
  (is_aggregate o = true \/
   exists g k, g ∈ st_groupings st /\ grouping_key E g = Ok k /\ grouping_key E o = Ok k).

Lemma ensure_having_selectable_Ok E st sc o :
  ensure_having_selectable E st sc o = Ok tt ->
  ensure_operand_in_scope E sc o "having" QueryConstructionError false = Ok tt /\
  (is_aggregate o = true \/
   exists g k, g ∈ st_groupings st /\ grouping_key E g = Ok k /\ grouping_key E o = Ok k).
Proof.
  unfold ensure_having_selectable. intros H. bind_inv H as s Hs. bind_inv H as u Hu. destruct u.
  assert (s = o) as -> by (by destruct o; simplify_eq/=). split; [done|].
  destruct (is_aggregate o); [by left|]. right.
  bind_inv H as ks Hks. bind_inv H as k Hk. apply guardR_Ok, bool_decide_eq_true in H.
  eapply mapR_elem_inv in Hks as (g & Hg & Hgk); [|exact H]. eauto.
Qed.

Lemma having_targets_covered E st p :
  ensure_having_targets E st (own_scope st) p = Ok tt -> having_covered E st p.
Proof.
  induction p as [p IH] using predicate_children_ind. intros H q o Hq Ho.
  assert (Hp : iterR (ensure_having_selectable E st (own_scope st)) (predicate_grouping_operands p)
                 = Ok tt /\
               Forall (fun c => ensure_having_targets E st (own_scope st) c = Ok tt)
                 (predicate_children p)).
  { destruct p; cbn [ensure_having_targets] in H; rewrite unit_then in H; cbn [predicate_children];
      rewrite ?Forall_cons, ?Forall_nil, <- ?iterR_Ok; tauto. }
  destruct Hp as [Hnode Hcs]. apply subpredicates_inv in Hq as [->|(c & Hc & Hq)].
  - eapply ensure_having_selectable_Ok, iterR_elem; eauto.
  - rewrite Forall_forall in IH, Hcs. by eapply (IH c Hc (Hcs c Hc)).
Qed.

(** The scope a join's predicate may use: the sources before it and its own. *)
Definition join_scope (st : select_state) (before : list join_spec) (j : join_spec)
    : scope_resolver :=
  ScopeResolver (st_model st :: map join_model before ++ [join_model j]) [].

Record select_valid (E : env) (st : select_state) : Prop := {
  sv_sources : NoDup (result_models st);
  sv_backend : st_joins st <> [] ->
    exists b, Forall (fun m => require_model_backend E m = Ok b) (result_models st);
  sv_joins : forall before j after, st_joins st = before ++ j :: after ->
    ensure_predicate_targets_models E (join_scope st before j) (join_predicate j) = Ok tt;
  sv_where : Forall (fun p => ensure_predicate_targets_models E (own_scope st) p = Ok tt)
    (st_predicates st);
  sv_orderings : Forall (fun o => ensure_ordering_targets_models E (own_scope st) o = Ok tt)
    (st_orderings st);
  sv_groupings : Forall (fun g => ensure_operand_in_scope E (own_scope st) g "group_by"
                                    QueryConstructionError false = Ok tt) (st_groupings st);
  sv_having : Forall (having_covered E st) (st_having st);
  sv_limit : opt_all (fun z => 0 <= z)%Z (st_limit st);
  sv_offset : opt_all (fun z => 0 <= z)%Z (st_offset st)
}.

(** The rows a query of each class selects. *)
Definition kind_shape (E : env) (q : select_query) : Prop :=
  let st := sq_state q in
  match sq_kind q with
  | KModel =>
      st_joins st = [] /\
      if st_returns_model st
      then exists cs, require_model_columns E (st_model st) = Ok cs /\
             st_fields st = map (fun c => SAttr (snd c)) cs /\ st_projection st = None
      else exists d, relation_definition E (st_model st) = Ok d /\
             st_fields st = map (fun i => SCteOutput i (st_model st))
                              (seq 0 (length (st_fields (def_state d)))) /\
             st_projection st = st_projection (def_state d)
  | KJoin =>
      st_returns_model st = true /\ st_projection st = None /\
      exists shape, joined_shape_of E true (st_model st) (st_joins st) = Ok (Some shape) /\
        st_fields st = joined_fields shape
  | KValue | KTuple =>
      st_returns_model st = false /\ st_projection st = None /\
      (sq_kind q = KValue <-> length (st_fields st) = 1) /\
      (exists anchor, head (st_fields st) = Some anchor /\
         selectable_owner_model E anchor = Ok (st_model st)) /\
      Forall (fun j => join_kind j = INNER) (st_joins st)
  end.


(** What an accepted join went through. *)
Lemma select_join_inv E st src on kind project st' :
  select_join E st src on kind project = Ok st' ->
  exists m b p, require_query_source E src = Ok m /\
    require_model_backend E (st_model st) = Ok b /\ require_model_backend E m = Ok b /\
    m ∉ result_models st /\ join_condition E st m on = Ok p /\
    let joined := add_join (JoinSpec m kind p) st in
    if project then st' = joined
    else exists shape, for_sources E (st_model st) (st_joins joined) = Ok shape /\
           st' = as_joined_model (joined_fields shape) joined.
Proof.
  unfold select_join. intros H. bind_inv H as m Hm. bind_inv H as b Hb. bind_inv H as b' Hb'.
  bind_inv H as u Hu. bind_inv H as u' Hu'. bind_inv H as p Hp.
  apply guardR_Ok, bool_decide_eq_true in Hu as ->.
  apply guardR_Ok, negb_true_iff, bool_decide_eq_false in Hu'.
  exists m, b, p. repeat (split; [done|]). destruct project; [by injection H as <-|].
  bind_inv H as shape Hs. injection H as <-. by exists shape.
Qed.

Lemma add_join_models st j : result_models (add_join j st) = result_models st ++ [join_model j].
Proof. destruct st; unfold result_models; simpl. by rewrite map_app. Qed.

(** The predicate of an accepted join passes the check in its scope. *)
Lemma join_condition_checked E st m on p :
  join_condition E st m on = Ok p ->
  ensure_predicate_targets_models E (ScopeResolver (result_models st ++ [m]) []) p = Ok tt.
Proof.
  destruct on as [l r|p'|]; simpl; intros H; [|by res_inv|done].
  bind_inv H as a Ha. bind_inv H as b Hb. bind_inv H as ma Hma. bind_inv H as mb Hmb.
  bind_inv H as u Hu. bind_inv H as u' Hu'. injection H as <-. apply guardR_Ok in Hu'.
  simpl in Hu'. apply andb_true_iff in Hu' as [Hl _]. apply bool_decide_eq_true in Hl.
  apply ensure_predicate_Ok. split; [|constructor]. split; [done|]. split; [done|].
  unfold opt_all, predicate_operand, ensure_operand_in_scope, models. cbn [own_models outer_models].
  rewrite Hma, app_nil_r. cbn. rewrite bool_decide_eq_true_2; [done|]. set_solver.
Qed.

(** A join keeps every clause valid: the sources only grow. *)
Lemma add_join_valid E st m kind p :
  select_valid E st -> m ∉ result_models st -> 
  (exists b, require_model_backend E (st_model st) = Ok b /\ require_model_backend E m = Ok b) ->
  ensure_predicate_targets_models E (ScopeResolver (result_models st ++ [m]) []) p = Ok tt ->
  select_valid E (add_join (JoinSpec m kind p) st).
Proof.
  intros [Hnd Hb Hj Hw Ho Hg Hh Hl Hof] Hm (b & Hab & Hmb) Hp.
  assert (Hjoin : joinable E (result_models st) m).
  { exists (st_model st), b. split; [left|done]. }
  pose proof (add_join_models st (JoinSpec m kind p)) as Hrm. cbn [join_model] in Hrm.
  destruct st as [model fields proj rm dist lock preds grps hav ords lim ofs joins cmp].
  split; unfold own_scope in *; rewrite ?Hrm; try done.
  - rewrite NoDup_app. split; [done|]. split; [set_solver|apply NoDup_singleton].
  - intros _. exists b. rewrite Forall_app, Forall_singleton. split; [|done].
    destruct joins as [|j0 joins']; [by apply Forall_singleton|].
    destruct Hb as (b' & Hb'); [done|]. replace b with b'; [done|].
    apply Forall_cons_1 in Hb' as [Hb' _]. simpl in *. congruence.
  - intros before j after Heq. unfold join_scope in *. simpl in *.
    destruct after as [|a after] using rev_ind; [|clear IHafter].
    + apply app_inj_tail in Heq as [-> <-]. done.
    + rewrite app_comm_cons, app_assoc in Heq. apply app_inj_tail in Heq as [-> _]. by eapply Hj.
  - eapply Forall_impl; [exact Hw|]. intros q. by apply predicate_widens.
  - eapply Forall_impl; [exact Ho|]. intros q. by apply ordering_widens.
  - eapply Forall_impl; [exact Hg|]. intros q. by apply operand_widens.
  - eapply Forall_impl; [exact Hh|]. intros q Hq q' o Hq' Ho'.
    destruct (Hq q' o Hq' Ho') as [Hs Hk]. split; [|done]. unfold own_scope. rewrite Hrm.
    by apply operand_widens.
Qed.

Lemma require_factory_predicates_Ok ps l :
  require_factory_predicates ps = Ok l -> ps = map Some l.
Proof.
  unfold require_factory_predicates. rewrite mapR_Ok.
  induction 1 as [|[p|] b ps l H _ IH]; simpl; [done| |done]. res_inv. done.
Qed.

(** The transitions that add a clause keep [select_valid]. *)
Lemma select_where_valid E st ps st' :
  select_where E st ps = Ok st' -> select_valid E st -> select_valid E st'.
Proof.
  unfold select_where. intros H Hv. res_inv. rewrite iterR_Ok in Hv2.
  destruct st, Hv; split; simpl in *; try done. by apply Forall_app.
Qed.

Lemma select_order_by_valid E st os st' :
  select_order_by E st os = Ok st' -> select_valid E st -> select_valid E st'.
Proof.
  unfold select_order_by. intros H Hv. bind_inv H as u Hu. bind_inv H as checked Hc.
  injection H as <-.
  assert (Forall (fun o => ensure_ordering_targets_models E (own_scope st) o = Ok tt) checked).
  { apply mapR_Ok in Hc. clear Hu. induction Hc as [|[o|] b os' l Ho _ IH]; [done| |done].
    res_inv. by constructor. }
  destruct st, Hv; split; simpl in *; try done. by apply Forall_app.
Qed.

Lemma select_having_valid E st ps st' :
  select_having E st ps = Ok st' -> select_valid E st -> select_valid E st'.
Proof.
  unfold select_having. intros H Hv. res_inv. rewrite iterR_Ok in Hv2.
  eapply Forall_impl in Hv2; [|apply having_targets_covered].
  destruct st, Hv; split; simpl in *; try done. by apply Forall_app.
Qed.

Lemma select_group_by_valid E st cs st' :
  select_group_by E st cs = Ok st' -> select_valid E st -> select_valid E st'.
Proof.
  unfold select_group_by, ensure_grouping_targets_models. intros H Hv. res_inv.
  rewrite iterR_Ok in Hv2. destruct st, Hv; split; simpl in *; try done; [by apply Forall_app|].
  eapply Forall_impl; [exact sv_having0|]. intros p Hp q o Hq Ho.
  destruct (Hp q o Hq Ho) as [Hs [Ha|(g & k & Hg & Hk)]]; (split; [done|]); [by left|right].
  exists g, k. split; [|done]. simpl in *. set_solver.
Qed.

Lemma select_join_valid E st src on kind project st' :
  select_join E st src on kind project = Ok st' -> select_valid E st -> select_valid E st'.
Proof.
  intros (m & b & p & _ & Hb & Hb' & Hm & Hp & Hst')%select_join_inv Hv.
  apply join_condition_checked in Hp.
  assert (Hj : select_valid E (add_join (JoinSpec m kind p) st)) by eauto using add_join_valid.
  destruct project; [by rewrite Hst'|]. destruct Hst' as (shape & _ & ->).
  destruct st, Hj; split; done.
Qed.

Lemma nonnegative_int_Ok v z : nonnegative_int v = Ok z -> (0 <= z)%Z.
Proof.
  destruct v; simpl; try done. destruct (Z.leb_spec 0 z0); [|done]. intros; by simplify_eq.
Qed.

Lemma call_select_valid E q c q' :
  call_select E q c = Ok q' -> select_valid E (sq_state q) -> select_valid E (sq_state q').
Proof.
  destruct q as [k st]. unfold call_select, same_kind. simpl. intros H Hv.
  destruct c as [[w|]| |v|v|ps|os|cs|ps|kind src on].
  2: done.
  2: destruct (st_distinct st); [by injection H as <-|].
  1, 2: injection H as <-; destruct st, Hv; split; done.
  1, 2: bind_inv H as st' Hst'; injection H as <-; bind_inv Hst' as z Hz;
        apply nonnegative_int_Ok in Hz; injection Hst' as <-; destruct st, Hv; split; done.
  3, 4: destruct (is_projection k); [|done].
  1-4: bind_inv H as st' Hst'; injection H as <-;
       eauto using select_where_valid, select_order_by_valid, select_having_valid,
         select_group_by_valid.
  destruct (is_projection k).
  - destruct kind; [|done]. bind_inv H as st' Hst'. injection H as <-.
    eauto using select_join_valid.
  - bind_inv H as st' Hst'. injection H as <-. eauto using select_join_valid.
Qed.

Lemma fresh_select_valid E m fs proj rm :
  select_valid E (SelectState m fs proj rm false None [] [] [] [] None None [] None).
Proof.
  split; [apply NoDup_singleton|done|intros [|] ? ? ?; done|..]; simpl; by try constructor.
Qed.

(** What a freshly built select is: the right shape, no clause yet. *)
Definition fresh_query (E : env) (q : select_query) : Prop :=
  kind_shape E q /\ exists m fs proj rm,
    sq_state q = SelectState m fs proj rm false None [] [] [] [] None None [] None.

Lemma select_model_fresh E a q : select_model E a = Ok q -> fresh_query E q.
Proof.
  unfold select_model. intros H. bind_inv H as m Hm. bind_inv H as cs Hcs. injection H as <-.
  split; [|by repeat eexists]. split; [done|]. exists cs. split; [|done]. simpl.
  destruct (require_model_columns E m); simplify_eq; [done|]. by case_decide.
Qed.

Lemma select_cte_fresh E r q : select_cte E r = Ok q -> fresh_query E q.
Proof.
  unfold select_cte. intros H. bind_inv H as d Hd. injection H as <-.
  split; [|by repeat eexists]. split; [done|]. exists d. done.
Qed.

Lemma select_fields_fresh E args q : select_fields E args = Ok q -> fresh_query E q.
Proof.
  unfold select_fields. intros H. bind_inv H as fields Hf.
  destruct fields as [|anchor others]; [done|].
  assert (Ho : (m ← selectable_owner_model E anchor;
                Ok (SelectQuery (if nonempty others then KTuple else KValue)
                      (select_state_of m (anchor :: others)))) = Ok q) by by destruct anchor.
  clear H. bind_inv Ho as m Hm. injection Ho as <-. split; [|by repeat eexists].
  destruct others; (split; [done|]; split; [done|]; split; [by split|]; split; [|constructor]);
    by exists anchor.
Qed.

Lemma build_select_fresh E args q : build_select E args = Ok q -> fresh_query E q.
Proof.
  unfold build_select. destruct args as [|[r|r|m|s] rest]; [done|..];
    repeat case_match; try done; eauto using select_model_fresh, select_cte_fresh,
      select_fields_fresh.
Qed.

(** C6: the builder's invariant.  Whatever sequence of calls built a select,
    each source occurs once, joined sources share one backend, every
    [where], [order_by] and [group_by] operand was accepted and is still in
    scope after all later joins, each join condition reads only its own source
    and the ones before it, every HAVING operand is an aggregate or a grouped
    column, and LIMIT and OFFSET are not negative. *)
Theorem built_select_valid E args calls q
  (Hq : run_select E args calls = Ok q) :
  select_valid E (sq_state q).
Proof.
  unfold run_select in Hq. bind_inv Hq as q0 Hq0.
  apply (foldR_ind (fun q => select_valid E (sq_state q)) _ _ q0 _) in Hq; [done| |].
  - apply build_select_fresh in Hq0 as (_ & m & fs & proj & rm & ->). apply fresh_select_valid.
  - intros c t t' _ Ht Hc. by eapply call_select_valid.
Qed.

(** The part of a state the row shape depends on. *)
Definition row_part (st : select_state) :=
  (st_model st, st_fields st, st_projection st, st_returns_model st, st_joins st).

Lemma kind_shape_row_part E k st st' :
  row_part st' = row_part st -> kind_shape E (SelectQuery k st) -> kind_shape E (SelectQuery k st').
Proof.
  intros H. unfold row_part in H. unfold kind_shape. simpl. injection H as -> -> -> -> ->. done.
Qed.

Lemma clause_row_part E st ps os cs v st' :
  select_where E st ps = Ok st' \/ select_order_by E st os = Ok st' \/
  select_group_by E st cs = Ok st' \/ select_having E st ps = Ok st' \/
  (z ← nonnegative_int v; Ok (with_limit z st)) = Ok st' \/
  (z ← nonnegative_int v; Ok (with_offset z st)) = Ok st' ->
  row_part st' = row_part st.
Proof.
  unfold select_where, select_order_by, select_group_by, select_having.
  intros [H|[H|[H|[H|[H|H]]]]]; res_inv; by destruct st.
Qed.

Lemma select_join_model_shape E st src on kind st' :
  select_join E st src on kind false = Ok st' -> kind_shape E (SelectQuery KJoin st').
Proof.
  intros (m & b & p & _ & _ & _ & _ & _ & shape & Hs & ->)%select_join_inv.
  destruct st as [? ? ? ? ? ? ? ? ? ? ? ? joins ?].
  split; [done|]. split; [done|]. exists shape. split; [|done]. simpl in *.
  unfold joined_shape_of. rewrite Hs. by destruct joins.
Qed.

Lemma select_join_projection E st src on st' :
  select_join E st src on INNER true = Ok st' ->
  exists j, join_kind j = INNER /\ st' = add_join j st.
Proof.
  intros (m & b & p & _ & _ & _ & _ & _ & ->)%select_join_inv. by exists (JoinSpec m INNER p).
Qed.

Lemma kind_shape_add_join E k st j :
  is_projection k = true -> join_kind j = INNER ->
  kind_shape E (SelectQuery k st) -> kind_shape E (SelectQuery k (add_join j st)).
Proof.
  intros Hk Hj. destruct st, k; try done; unfold kind_shape; simpl;
    rewrite Forall_app, Forall_singleton; tauto.
Qed.

Lemma call_select_shape E q c q' :
  call_select E q c = Ok q' -> kind_shape E q -> kind_shape E q'.
Proof.
  destruct q as [k st]. unfold call_select, same_kind. cbn [sq_kind sq_state]. intros H Hs.
  destruct c as [[w|]| |v|v|ps|os|cs|ps|kind src on].
  2: done.
  2: destruct (st_distinct st); [by injection H as <-|].
  1, 2: injection H as <-; eapply kind_shape_row_part; [|exact Hs]; by destruct st.
  5, 6: destruct (is_projection k); [|done].
  1-6: bind_inv H as st' Hst'; injection H as <-; eapply kind_shape_row_part; [|exact Hs];
       eapply (clause_row_part E st _ _ _ _); eauto 8.
  destruct (is_projection k) eqn:Hk; [|by bind_inv H as st' Hst'; injection H as <-;
    eapply select_join_model_shape].
  destruct kind; [|done]. bind_inv H as st' Hst'. injection H as <-.
  apply select_join_projection in Hst' as (j & Hj & ->). by apply kind_shape_add_join.
  Unshelve. all: first [exact [] | exact PNone].
Qed.

(** the row shape follows the class of the query.  A model select selects
    exactly its table's columns (or its CTE's outputs, under the CTE's named
    contract); a joined select selects exactly the fields of the joined row
    shape its materialization uses; a value or tuple select keeps its fields,
    anchored on the owner of the first, through every call, and is never
    left-joined. *)
Theorem built_select_shape E args calls q
  (Hq : run_select E args calls = Ok q) :
  kind_shape E q.
Proof.
  unfold run_select in Hq. bind_inv Hq as q0 Hq0.
  apply (foldR_ind (kind_shape E) _ _ q0 _) in Hq; [done| |].
  - by apply build_select_fresh in Hq0 as (? & _).
  - intros c t t' _ Ht Hc. by eapply call_select_shape.
Qed.

(** A join does not look at the predicates. *)
Lemma join_condition_models E st st' m on :
  result_models st' = result_models st -> join_condition E st' m on = join_condition E st m on.
Proof. intros H. unfold join_condition. by rewrite H. Qed.

Lemma select_join_add_predicates E st ps src on kind project :
  select_join E (add_predicates ps st) src on kind project =
  add_predicates ps <$> select_join E st src on kind project.
Proof.
  unfold select_join.
  assert (Hm : result_models (add_predicates ps st) = result_models st) by by destruct st.
  destruct (require_query_source E src) as [m|]; [|done]. simpl.
  rewrite Hm, (join_condition_models E st _ m on Hm).
  replace (st_model (add_predicates ps st)) with (st_model st) by by destruct st.
  destruct (require_model_backend E (st_model st)); [|done]. simpl.
  destruct (require_model_backend E m); [|done]. simpl.
  destruct (guardR (bool_decide _) _ _); [|done]. simpl.
  destruct (guardR _ _ _); [|done]. simpl.
  destruct (join_condition E st m on) as [p|]; [|done]. simpl.
  destruct project; simpl; [by destruct st|]. destruct st. simpl.
  by destruct (for_sources _ _ _).
Qed.

Lemma select_join_sources E st src on kind project st' :
  select_join E st src on kind project = Ok st' ->
  exists m, joinable E (result_models st) m /\ result_models st' = result_models st ++ [m].
Proof.
  intros (m & b & p & _ & Hb & Hb' & _ & _ & Hst')%select_join_inv. exists m. split.
  { exists (st_model st), b. split; [left|done]. }
  pose proof (add_join_models st (JoinSpec m kind p)) as Hrm. cbn [join_model] in Hrm.
  destruct project; [by rewrite Hst'|]. destruct Hst' as (shape & _ & ->).
  rewrite <- Hrm. by destruct st.
Qed.

Lemma where_join_states E st ps src on kind project st1 st2 :
  select_where E st ps = Ok st1 -> select_join E st1 src on kind project = Ok st2 ->
  exists st3, select_join E st src on kind project = Ok st3 /\ select_where E st3 ps = Ok st2.
Proof.
  unfold select_where. intros H Hj. bind_inv H as u Hu. destruct u. bind_inv H as checked Hc.
  bind_inv H as u Hp. destruct u. injection H as <-.
  rewrite select_join_add_predicates in Hj.
  destruct (select_join E st src on kind project) as [st3|] eqn:Hst3; [|done].
  injection Hj as <-. exists st3. split; [done|].
  apply select_join_sources in Hst3 as (m & Hm & Hms). rewrite Hu, Hc. simpl.
  assert (iterR (ensure_predicate_targets_models E (own_scope st3)) checked = Ok tt) as ->.
  { unfold own_scope. rewrite Hms. rewrite iterR_Ok in *. eapply Forall_impl; [exact Hp|].
    intros p. by apply predicate_widens. }
  done.
Qed.

(** filtering before or after a join builds the same query.  If
    [q.where(ps).join(m, on)] is accepted, [q.join(m, on).where(ps)] is
    accepted too and gives the same state. *)
Theorem where_join_commute E q ps kind src on q1 q2
  (Hwhere : call_select E q (CallWhere ps) = Ok q1)
  (Hjoin : call_select E q1 (CallJoin kind src on) = Ok q2) :
  exists q3, call_select E q (CallJoin kind src on) = Ok q3 /\
    call_select E q3 (CallWhere ps) = Ok q2.
Proof.
  destruct q as [k st]. unfold call_select, same_kind in *. cbn [sq_kind sq_state] in *.
  bind_inv Hwhere as st1 Hst1. injection Hwhere as <-. cbn [sq_kind sq_state] in *.
  destruct (is_projection k).
  - destruct kind; [|done]. bind_inv Hjoin as st2 Hst2. injection Hjoin as <-.
    destruct (where_join_states _ _ _ _ _ _ _ _ _ Hst1 Hst2) as (st3 & -> & Hw).
    exists (SelectQuery k st3). simpl. by rewrite Hw.
  - bind_inv Hjoin as st2 Hst2. injection Hjoin as <-.
    destruct (where_join_states _ _ _ _ _ _ _ _ _ Hst1 Hst2) as (st3 & -> & Hw).
    exists (SelectQuery KJoin st3). simpl. by rewrite Hw.
Qed.

(** ** What every built write satisfies *)

(** A column the written model declares. *)
Definition model_column (E : env) (m : mid) (s : selectable) : Prop :=
  exists a n cs, s = SAttr a /\ attr_name a = Some n /\ require_model_columns E m = Ok cs /\
    is_Some (assoc n cs) /\ require_column_model E a = Ok m.

(** An assignment whose target is a column bound to the model. *)
Definition assigns_model (E : env) (m : mid) (x : assignment) : Prop :=
  exists a, as_column x = Some (SAttr a) /\ require_column_model E a = Ok m.

Definition returning_shape (k : write_kind) (returning : bool) (fields : list selectable) : Prop :=
  match k with
  | WPlain => returning = false /\ fields = []
  | _ => returning = true /\ k = returning_kind fields
  end.

Lemma returning_fields_Ok E m fs l :
  require_model_returning_fields E (Some m) fs = Ok l ->
  Forall (model_column E m) l /\ length l = length fs.
Proof.
  unfold require_model_returning_fields. intros H. bind_inv H as cs Hcs.
  bind_inv Hcs as cols Hcols. injection Hcs as <-. apply mapR_Ok in H.
  induction H as [|f b fs l Hf _ [IH Hlen]]; [done|]. split; [|simpl; congruence].
  constructor; [|done]. bind_inv Hf as a Ha. bind_inv Hf as n Hn. bind_inv Hf as o Ho.
  bind_inv Hf as u Hu. injection Hf as <-. apply guardR_Ok, andb_true_iff in Hu as [Hin Hown].
  apply bool_decide_eq_true in Hin, Hown. injection Hown as ->.
  unfold require_column_name in Hn. destruct (attr_name a) eqn:Hname; simplify_eq/=.
  by exists a, n, cols.
Qed.

Lemma assignment_targets_Ok E m x :
  ensure_assignment_targets_model E (ScopeResolver [m] []) x = Ok tt -> assigns_model E m x.
Proof.
  unfold ensure_assignment_targets_model. destruct (as_column x) as [c|] eqn:Hc; [|done].
  intros H. bind_inv H as a Ha. simpl in H. bind_inv H as o Ho.
  apply guardR_Ok, bool_decide_eq_true in H. unfold models in H. simpl in H.
  apply list_elem_of_singleton in H as ->. exists a. split; [|done].
  destruct c; simplify_eq/=; done.
Qed.

Lemma checked_assignments E m xs l :
  mapR (fun a => match a with
                 | None => raise QueryConstructionError "assignments must be built from columns"
                 | Some a => _ ← ensure_assignment_targets_model E (ScopeResolver [m] []) a; Ok a
                 end) xs = Ok l ->
  Forall (assigns_model E m) l.
Proof.
  rewrite mapR_Ok. induction 1 as [|[x|] b xs l Hx _ IH]; [done| |done]. res_inv.
  constructor; [by apply assignment_targets_Ok|done].
Qed.

(** *** UPDATE and DELETE *)

Record update_valid (E : env) (q : update_query) (st := uq_state q) : Prop := {
  uv_rows : upd_explicit_all st = true -> upd_predicates st = [];
  uv_assignments : Forall (assigns_model E (upd_model st)) (upd_assignments st);
  uv_where : Forall (fun p => ensure_predicate_targets_models E
                                (ScopeResolver [upd_model st] []) p = Ok tt) (upd_predicates st);
  uv_returning : Forall (model_column E (upd_model st)) (upd_returning_fields st);
  uv_kind : returning_shape (uq_kind q) (upd_returning st) (upd_returning_fields st)
}.

Record delete_valid (E : env) (q : delete_query) (st := dq_state q) : Prop := {
  dv_rows : del_explicit_all st = true -> del_predicates st = [];
  dv_where : Forall (fun p => ensure_predicate_targets_models E
                                (ScopeResolver [del_model st] []) p = Ok tt) (del_predicates st);
  dv_returning : Forall (model_column E (del_model st)) (del_returning_fields st);
  dv_kind : returning_shape (dq_kind q) (del_returning st) (del_returning_fields st)
}.

Definition run_update (E : env) (model : option mid) (calls : list update_call)
    : res update_query :=
  q ← build_update E model; foldR (call_update E) q calls.

Definition run_delete (E : env) (model : option mid) (calls : list delete_call)
    : res delete_query :=
  q ← build_delete E model; foldR (call_delete E) q calls.

Lemma returning_kind_shape fields : returning_shape (returning_kind fields) true fields.
Proof. by destruct fields as [|? [|]]. Qed.

Lemma returned_fields E m fs l :
  match fs with [] => Ok [] | _ => require_model_returning_fields E (Some m) fs end = Ok l ->
  Forall (model_column E m) l.
Proof. destruct fs; [by intros [= <-]|]. intros H. by apply returning_fields_Ok in H as []. Qed.

Lemma nonempty_false {A} (l : list A) : negb (nonempty l) = true -> l = [].
Proof. by destruct l. Qed.

Lemma call_update_valid E q c q' : update_valid E q -> call_update E q c = Ok q' -> update_valid E q'.
Proof.
  destruct q as [k [m xs all ps proj ret fs]]. intros [Hr Ha Hw Hf Hk]; simpl in *.
  destruct c as [|ys|qs|fs']; unfold call_update; simpl; intros H.
  - bind_inv H as st Hst. injection H as <-. unfold update_all in Hst. simpl in Hst.
    bind_inv Hst as u Hu. apply guardR_Ok, nonempty_false in Hu as ->.
    destruct all; injection Hst as <-; by split.
  - bind_inv H as st Hst. injection H as <-. unfold update_set in Hst. simpl in Hst.
    bind_inv Hst as u Hu. bind_inv Hst as l Hl. injection Hst as <-.
    apply checked_assignments in Hl. split; simpl; try done. by apply Forall_app.
  - bind_inv H as st Hst. injection H as <-. unfold update_where in Hst. simpl in Hst.
    bind_inv Hst as u Hu. bind_inv Hst as u' Hu'. bind_inv Hst as l Hl. bind_inv Hst as u'' Hp.
    destruct u''. injection Hst as <-. apply guardR_Ok, negb_true_iff in Hu' as ->.
    apply iterR_Ok in Hp. split; simpl; try done. by apply Forall_app.
  - unfold update_returning in H. simpl in H. bind_inv H as l Hl. injection H as <-.
    apply returned_fields in Hl. split; simpl; try done. apply returning_kind_shape.
Qed.

Lemma call_delete_valid E q c q' : delete_valid E q -> call_delete E q c = Ok q' -> delete_valid E q'.
Proof.
  destruct q as [k [m all ps proj ret fs]]. intros [Hr Hw Hf Hk]; simpl in *.
  destruct c as [|qs|fs']; unfold call_delete; simpl; intros H.
  - bind_inv H as st Hst. injection H as <-. unfold delete_all in Hst. simpl in Hst.
    bind_inv Hst as u Hu. apply guardR_Ok, nonempty_false in Hu as ->.
    destruct all; injection Hst as <-; by split.
  - bind_inv H as st Hst. injection H as <-. unfold delete_where in Hst. simpl in Hst.
    bind_inv Hst as u Hu. bind_inv Hst as u' Hu'. bind_inv Hst as l Hl. bind_inv Hst as u'' Hp.
    destruct u''. injection Hst as <-. apply guardR_Ok, negb_true_iff in Hu' as ->.
    apply iterR_Ok in Hp. split; simpl; try done. by apply Forall_app.
  - unfold delete_returning in H. simpl in H. bind_inv H as l Hl. injection H as <-.
    apply returned_fields in Hl. split; simpl; try done. apply returning_kind_shape.
Qed.

(** C33: guarded writes.  Whatever calls built an UPDATE or a DELETE, it never
    carries both [all()] and a [where()], its predicates read only the written
    model, its SET columns and RETURNING columns belong to that model, and its
    class agrees with the RETURNING columns it carries. *)
Theorem built_writes_guarded E model ucalls dcalls u d
  (Hu : run_update E model ucalls = Ok u) (Hd : run_delete E model dcalls = Ok d) :
  update_valid E u /\ delete_valid E d.
Proof.
  unfold run_update, run_delete in *. bind_inv Hu as u0 Hu0. bind_inv Hd as d0 Hd0. split.
  - eapply (foldR_ind (update_valid E)); [| |exact Hu].
    + destruct model; [|done]. simpl in Hu0. bind_inv Hu0 as m' Hm. injection Hu0 as <-. by split.
    + intros c t t' _ Ht. by apply call_update_valid.
  - eapply (foldR_ind (delete_valid E)); [| |exact Hd].
    + destruct model; [|done]. simpl in Hd0. bind_inv Hd0 as m' Hm. injection Hd0 as <-. by split.
    + intros c t t' _ Ht. by apply call_delete_valid.
Qed.

(** *** INSERT *)

(** [insert(row)] or [insert_many(model, rows)] *)
Inductive insert_start :=
  | InsertOne (row : model_row)
  | InsertMany (model : option mid) (rows : list model_row).

Definition run_insert (E : env) (start : insert_start) (calls : list insert_call)
    : res insert_query :=
  q ← match start with
      | InsertOne row => build_insert row
      | InsertMany model rows => build_insert_many model rows
      end;
  foldR (call_insert E) q calls.

Definition pending_row (m : mid) (r : model_row) : Prop :=
  row_is_model r = true /\ row_state_name r = "Pending" /\ row_class r = m.

Record insert_valid (E : env) (m : mid) (q : insert_query) (st := iq_state q) : Prop := {
  iv_model : insert_model st = Some m;
  iv_rows : Forall (pending_row m) (ins_rows st);
  iv_targets : Forall (fun a => require_column_model E a = Ok m) (ins_conflict_targets st);
  iv_action : match ins_conflict_action st with
              | Some (DoUpdate xs) =>
                  ins_conflict_targets st <> [] /\ Forall (assigns_model E m) xs
              | Some DoNothing => ins_conflict_targets st <> []
              | None => ins_conflict_targets st = []
              end;
  iv_returning : Forall (model_column E m) (ins_returning_fields st);
  iv_kind : returning_shape (iq_kind q) (ins_returning st) (ins_returning_fields st)
}.

Lemma require_insert_model_Ok r m : require_insert_model r = Ok m -> pending_row m r.
Proof.
  unfold require_insert_model. destruct (row_is_model r) eqn:Hm; [|done]. simpl.
  destruct (String.eqb_spec (row_state_name r) "Pending"); [|done]. simpl. by intros [= <-].
Qed.

Lemma start_insert_valid E start q :
  match start with
  | InsertOne row => build_insert row
  | InsertMany model rows => build_insert_many model rows
  end = Ok q -> exists m, insert_valid E m q.
Proof.
  destruct start as [r|[m|] rs]; simpl; intros H; [| |done].
  - unfold build_insert in H. bind_inv H as m Hm. injection H as <-.
    apply require_insert_model_Ok in Hm. pose proof Hm as (_ & _ & Hc).
    exists m. split; simpl; try done; [by rewrite <- Hc|by apply Forall_singleton].
  - bind_inv H as u Hu. bind_inv H as u' Hi. destruct u'. injection H as <-.
    exists m. split; simpl; try done. apply guardR_Ok in Hu. rewrite forallb_forall in Hu.
    apply iterR_Ok in Hi. rewrite Forall_forall in *. intros r Hr.
    specialize (Hi r Hr). bind_inv Hi as m' Hm'. apply require_insert_model_Ok in Hm'.
    specialize (Hu r). rewrite <- list_elem_of_In in Hu. apply Hu, bool_decide_eq_true in Hr. destruct Hm' as (? & ? & ?). by split.
Qed.

Lemma on_conflict_targets E m ts l :
  mapR (fun target =>
          column ← require_field target;
          owner ← require_column_model E column;
          _ ← guardR (bool_decide (owner = m)) QueryConstructionError
                "on_conflict target must belong to the inserted model";
          Ok column) ts = Ok l ->
  Forall (fun a => require_column_model E a = Ok m) l /\ length l = length ts.
Proof.
  rewrite mapR_Ok. induction 1 as [|t b ts l Ht _ [IH Hlen]]; [done|].
  bind_inv Ht as a Ha. bind_inv Ht as o Ho. bind_inv Ht as u Hu. injection Ht as <-.
  apply guardR_Ok, bool_decide_eq_true in Hu as ->. split; [by constructor|simpl; congruence].
Qed.

Lemma on_conflict_valid E m k st ts action st' :
  insert_valid E m (InsertQuery k st) -> on_conflict E st ts action = Ok st' ->
  insert_valid E m (InsertQuery k st').
Proof.
  destruct st. intros [Hm Hr Ht Ha Hf Hk]. simpl in *.
  destruct ts as [|t ts]; [done|]. unfold on_conflict. rewrite Hm. simpl. intros H.
  bind_inv H as l Hl. apply on_conflict_targets in Hl as [Hl Hlen].
  assert (l <> []) by by destruct l.
  destruct action as [[xs|]|]; [|by injection H as <-|done].
  bind_inv H as u Hu. destruct u. injection H as <-. apply iterR_Ok in Hu.
  split; simpl; try done. split; [done|]. eapply Forall_impl; [exact Hu|].
  apply assignment_targets_Ok.
Qed.

Lemma insert_returning_valid E m st fs q :
  insert_valid E m (InsertQuery WPlain st) -> insert_returning E st fs = Ok q ->
  insert_valid E m q.
Proof.
  destruct st. intros [Hm Hr Ht Ha Hf Hk]. simpl in *. destruct Hk as [-> ->].
  destruct fs as [|f fs]; unfold insert_returning; simpl; [intros [= <-]; by split|].
  unfold require_returning_fields. rewrite Hm. intros H. bind_inv H as l Hl. injection H as <-.
  apply returning_fields_Ok in Hl as [Hl _]. split; simpl; try done. apply returning_kind_shape.
Qed.

(** valid inserts.  Whatever calls built an INSERT, its rows are pending
    instances of one model, its conflict targets (at least one when there is a
    conflict action), its DO UPDATE assignments and its RETURNING columns
    belong to that model, and its class agrees with the columns returned. *)
Theorem built_insert_valid E start calls q
  (Hq : run_insert E start calls = Ok q) :
  exists m, insert_valid E m q.
Proof.
  unfold run_insert in Hq. bind_inv Hq as q0 Hq0. apply (start_insert_valid E) in Hq0 as (m & Hm).
  exists m. eapply (foldR_ind (insert_valid E m)); [exact Hm| |exact Hq].
  intros c [k st] t' _ Ht Hc. destruct c as [ts a|fs]; simpl in Hc.
  - bind_inv Hc as st' Hst'. injection Hc as <-. by eapply on_conflict_valid.
  - destruct k; try done. by eapply insert_returning_valid.
Qed.

(** ** Concrete queries *)

(** [select(User).where(User.id.eq(1)).join(Order, on=Order.user_id == User.id)
    .order_by(Order.amount.desc()).limit(10)] *)
Definition demo_calls : list select_call :=
  [CallWhere [Some (ComparisonPredicate (SAttr user_id) OpEq (PInt 1))];
   CallJoin INNER (ArgClass orders) (OnReferences (SAttr order_user) (SAttr user_id));
   CallOrderBy [Some (OrderBy (Some (SAttr order_amount)) "DESC")];
   CallLimit (PInt 10)].

(** [select(Order.user_id, Order.amount.max()).group_by(Order.user_id)
    .having(Order.amount.max().gt(3))] *)
Definition demo_grouped : list select_call :=
  [CallGroupBy [SAttr order_user];
   CallHaving [Some (ComparisonPredicate (SAggregate MAX (Some (SAttr order_amount)) None) OpGt
                       (PInt 3))]].

Definition demo_grouped_args : list source_arg :=
  [ArgField (SAttr order_user); ArgField (SAggregate MAX (Some (SAttr order_amount)) None)].

Definition ok_or {A} (d : A) (r : res A) : A := match r with Ok a => a | Raise _ => d end.
Definition no_query : select_query := SelectQuery KValue (select_state_of users []).

Lemma built_select_valid_witness :
  select_valid (demo BSqlite)
    (sq_state (ok_or no_query (run_select (demo BSqlite) [ArgClass users] demo_calls))) /\
  select_valid (demo BSqlite)
    (sq_state (ok_or no_query (run_select (demo BSqlite) demo_grouped_args demo_grouped))).
Proof.
  split; [apply (built_select_valid (demo BSqlite) [ArgClass users] demo_calls)
         |apply (built_select_valid (demo BSqlite) demo_grouped_args demo_grouped)];
    vm_compute; reflexivity.
Defined.

Lemma built_select_shape_witness :
  kind_shape (demo BMariadb)
    (ok_or no_query (run_select (demo BMariadb) [ArgClass users] demo_calls)).
Proof.
  apply (built_select_shape (demo BMariadb) [ArgClass users] demo_calls). vm_compute. reflexivity.
Defined.

Lemma where_join_commute_witness :
  match build_select (demo BSqlite) [ArgClass users] with
  | Ok q => exists q2 q3,
      call_select (demo BSqlite) q
        (CallJoin LEFT (ArgCte totals)
           (OnPredicate (ColumnComparisonPredicate (SCteOutput 0 totals) OpEq (SAttr user_id))))
        = Ok q3 /\
      call_select (demo BSqlite) q3
        (CallWhere [Some (ComparisonPredicate (SAttr user_id) OpEq (PInt 1))]) = Ok q2
  | Raise _ => False
  end.
Proof.
  destruct (build_select (demo BSqlite) [ArgClass users]) as [q|] eqn:Hq;
    [|vm_compute in Hq; discriminate].
  eexists. refine (where_join_commute (demo BSqlite) q
    [Some (ComparisonPredicate (SAttr user_id) OpEq (PInt 1))] LEFT (ArgCte totals)
    (OnPredicate (ColumnComparisonPredicate (SCteOutput 0 totals) OpEq (SAttr user_id)))
    _ _ _ _); vm_compute in Hq; injection Hq as <-; vm_compute; reflexivity.
Defined.

Lemma built_writes_guarded_witness :
  match run_update (demo BSqlite) (Some users)
          [CallSet [Some (Assignment 1 (Some (SAttr user_name)) (AvValue (PStr "a")))];
           CallUpdateWhere [Some (NullPredicate (SAttr user_name) false)];
           CallUpdateReturning [SAttr user_id]],
        run_delete (demo BSqlite) (Some users) [CallDeleteAll] with
  | Ok u, Ok d => update_valid (demo BSqlite) u /\ delete_valid (demo BSqlite) d
  | _, _ => False
  end.
Proof.
  destruct (run_update _ _ _) as [u|] eqn:Hu; [|vm_compute in Hu; discriminate].
  destruct (run_delete _ _ _) as [d|] eqn:Hd; [|vm_compute in Hd; discriminate].
  exact (built_writes_guarded _ _ _ _ u d Hu Hd).
Defined.

Lemma built_insert_valid_witness :
  match run_insert (demo BSqlite)
          (InsertMany (Some users) [ModelRow true users "Pending" [("name?", Some (PStr "a"))]])
          [CallOnConflict [SAttr user_id]
             (Some (DoUpdate [Assignment 1 (Some (SAttr user_name)) AvInsertedValue]));
           CallInsertReturning [SAttr user_id; SAttr user_name]] with
  | Ok q => exists m, insert_valid (demo BSqlite) m q
  | Raise _ => False
  end.
Proof.
  destruct (run_insert _ _ _) as [q|] eqn:Hq; [|vm_compute in Hq; discriminate].
  exact (built_insert_valid _ _ _ q Hq).
Defined.
