(* ===== verification/QueryCompile.v ===== *)
(** * Query compilation

    [_query_compile.py], [_value_encode.py], [output_domain] of
    [_output_domain.py], and the [__compile_sql__] and
    [__compile_predicate_sql__] methods of the expression and predicate nodes:
    query state to SQL text and bound parameters. *)

From S2P Require Export CteGraph RowShape.
From Stdlib Require Import DecimalString SpecFloat.

Definition compiled := (string * list pyval)%type.

(** ** Column references *)

Definition render_column_ref (E : env) (d : query_dialect) (qualified : bool) (a : attr)
    : res string :=
  name ← require_column_name a;
  let quoted_name := quote_identifier d name in
  if negb qualified then Ok quoted_name
  else
    m ← require_column_model E a;
    table_name ← require_model_table_name E m;
    Ok (quote_identifier d table_name +:+ "." +:+ quoted_name).

(** [relation.__name__] *)
Definition relation_name (E : env) (r : mid) : res string :=
  match env_relations E !! r with
  | Some rel => Ok (rel_name rel)
  | None => raise OtherError "no such class"
  end.

(** [_CteOutput.__compile_sql__] *)
Definition cte_output_sql (E : env) (d : query_dialect) (position : nat) (r : mid) : res string :=
  slot ← output_slot_of E position r;
  owner ← relation_name E r;
  Ok (quote_identifier d owner +:+ "." +:+ quote_identifier d (slot_label slot)).

(** [_CtePresence.__compile_sql__] *)
Definition cte_presence_sql (E : env) (d : query_dialect) (r : mid) : res string :=
  owner ← relation_name E r;
  def ← relation_definition E r;
  Ok (quote_identifier d owner +:+ "." +:+ quote_identifier d (layout_presence_name (def_layout def))).

(** [_TablePresence.__compile_sql__] *)
Definition table_presence_sql (E : env) (d : query_dialect) (m : mid) (name : string) : res string :=
  owner ← require_model_table_name E m;
  Ok (quote_identifier d owner +:+ "." +:+ quote_identifier d name).

Definition render_grouping_column (E : env) (d : query_dialect) (qualified : bool) (s : selectable)
    : res string :=
  match s with
  | SCteOutput position r => cte_output_sql E d position r
  | _ => a ← require_field s; render_column_ref E d qualified a
  end.

Definition agg_func_name (f : agg_func) : string :=
  match f with AVG => "AVG" | COUNT => "COUNT" | MAX => "MAX" | MIN => "MIN" | SUM => "SUM" end.

Definition render_aggregate (E : env) (d : query_dialect) (qualified : bool) (f : agg_func)
    (column : option selectable) : res string :=
  match column with
  | None => Ok (agg_func_name f +:+ "(*)")
  | Some c =>
      column_ref ← render_grouping_column E d qualified c;
      Ok (agg_func_name f +:+ "(" +:+ column_ref +:+ ")")
  end.

(** [_IntegerLiteral.__compile_sql__] *)
Definition integer_literal_compile (E : env) (d : query_dialect) (family : backend) (value : Z)
    : res compiled :=
  owner ← query_dialect_for_backend E family;
  Ok (match integer_literal_sql owner with
      | None => placeholder d
      | Some renderer => renderer (placeholder d)
      end, [PInt value]).

(** ** Value encoders *)

Definition sum_value_encoder (E : env) (d : query_dialect) (column : option selectable)
    : res (pyval -> res pyval) :=
  match column with
  | Some (SCteOutput position r) =>
      Ok (fun v => slot ← output_slot_of E position r; slot_encode_sum slot v)
  | Some s => a ← require_field s; Ok (encode_sum_value d a)
  | None => raise QueryConstructionError "select requires a model or field"
  end.

Fixpoint predicate_value_encoder (E : env) (d : query_dialect) (s : selectable)
    : res (pyval -> res pyval) :=
  match s with
  | SScalar _ => raise QueryCompilationError "a scalar subquery is not a value-encoding operand"
  | SValue e => Ok (encode_native_literal (ve_value_type e))
  | SCteOutput position r =>
      Ok (fun v => slot ← output_slot_of E position r; slot_encode_comparison slot v)
  | SLiteral _ _ => Ok (encode_native_literal VtInt)
  | STablePresence _ _ | SCtePresence _ => Ok Ok
  | SAggregate COUNT _ _ | SAggregate AVG _ _ => Ok Ok
  | SAggregate SUM column _ => sum_value_encoder E d column
  | SAggregate _ (Some column) _ =>
      match column with
      | SOther => raise QueryConstructionError "select requires a model or field"
      | _ => predicate_value_encoder E d column
      end
  | SAggregate _ None _ => raise QueryConstructionError "select requires a model or field"
  | SAttr a => Ok (encode_column_value d a)
  | SOther => raise QueryConstructionError "select requires a model or field"
  end.

(** ** Temporal compatibility *)

(** The core types of [output_domain(operand).logical]. *)
Fixpoint output_types (E : env) (s : selectable) : res (list ltype) :=
  match s with
  | SAttr a =>
      match attr_owner a, attr_name a with
      | Some _, Some _ => Ok (attr_core_types a)
      | _, _ => raise QueryConstructionError "named projections require bound columns"
      end
  | SValue e => Ok [match ve_value_type e with VtInt => TInt | VtFloat => TFloat | VtStr => TStr end]
  | SAggregate COUNT _ _ => Ok [TInt]
  | SAggregate AVG _ _ => Ok [TFloat]
  | SAggregate _ (Some column) _ => output_types E column
  | SAggregate _ None _ => Ok [TAny]
  | SCteOutput position r => slot ← output_slot_of E position r; Ok (slot_types slot)
  | SLiteral _ _ => Ok [TInt]
  | _ => Ok [TAny]
  end.

Definition is_temporal (t : ltype) : bool :=
  match t with TUtcDatetime | TLocalDatetime | TZonedDatetime => true | _ => false end.

(** [fields[0]] of a single-column subquery. *)
Definition subquery_column (q : option select_state) : res selectable :=
  st ← require_single_column_subquery q;
  match st_fields st with
  | c :: _ => Ok c
  | [] => raise IndexError "tuple index out of range"
  end.

Definition ensure_comparable (E : env) (left : selectable) (right : res selectable) : res unit :=
  right ← right;
  left_types ← output_types E left;
  right_types ← output_types E right;
  guardR (negb (existsb is_temporal (left_types ++ right_types)
                  && negb (bool_decide (left_types = right_types))
                  && negb (bool_decide (TAny ∈ left_types))
                  && negb (bool_decide (TAny ∈ right_types))))
    QueryCompilationError "comparison operands have incompatible temporal meanings".

(** The right operand [ensure_comparable] looks at. *)
Definition comparable_operand (other : selectable) : res selectable :=
  match other with SScalar q => subquery_column q | _ => Ok other end.

(** ** WITH clauses *)

(** The definitions' texts come from [render]; they are put before [sql]. *)
Definition with_clause (E : env) (d : query_dialect) (render : did -> res compiled)
    (definitions : list did) (main : compiled) : res compiled :=
  match definitions with
  | [] => Ok main
  | _ =>
      parts ← mapR (fun def_id =>
        def ← find_definition E def_id;
        '(body, bindings) ← render def_id;
        Ok (quote_identifier d (def_name def) +:+ " AS (" +:+ body +:+ ")", bindings)) definitions;
      defs ← mapR (find_definition E) definitions;
      let recursive := existsb (fun def => bool_decide (is_Some (def_recursive_step def))) defs in
      Ok ((if recursive then "WITH RECURSIVE" else "WITH") +:+ " "
            +:+ join ", " (map fst parts) +:+ " " +:+ fst main,
          concat (map snd parts) ++ snd main)
  end.

(** How a nested select is finished: [None] is [_compile_select_state];
    [Some render] is [compile_select_sql_for_dialect] ([include_ctes]). *)
Definition finish_subquery (E : env) (d : query_dialect) (ctes : option (did -> res compiled))
    (sc : scope_resolver) (st : select_state) (body : res compiled) : res compiled :=
  match ctes with
  | None => body
  | Some render =>
      definitions ← collect_cte_definitions E st (models sc);
      main ← body;
      with_clause E d render definitions main
  end.

(** ** Operators *)

Definition comparison_sql_operator (op : comparison_operator) : string :=
  match op with
  | OpEq => "=" | OpNe => "!=" | OpGt => ">" | OpGte => ">=" | OpLt => "<" | OpLte => "<="
  end.

Definition comparison_none_message (op : comparison_operator) : string :=
  match op with
  | OpEq => "eq(None) is invalid; use is_null()"
  | OpNe => "ne(None) is invalid; use is_not_null()"
  | OpGt => "gt(None) is invalid; use is_not_null()"
  | OpGte => "gte(None) is invalid; use is_not_null()"
  | OpLt => "lt(None) is invalid; use is_not_null()"
  | OpLte => "lte(None) is invalid; use is_not_null()"
  end.

Definition arithmetic_symbol (op : ve_operator) : string :=
  match op with VAdd => "+" | VSub => "-" | VMul => "*"
                | VCoalesce => "COALESCE" | VLower => "LOWER" | VCharLength => "CHAR_LENGTH" end.

(** One step of [ValueExpression.__compile_sql__]: the SQL so far, the operator
    and the compiled right operand. *)
Definition apply_operator (d : query_dialect) (op : ve_operator) (left : compiled)
    (right : res compiled) : res compiled :=
  match op with
  | VLower => Ok ("LOWER" +:+ "(" +:+ fst left +:+ ")", snd left)
  | VCharLength =>
      match char_length_function d with
      | None => raise QueryCompilationError
                  "this backend does not support character-length expressions"
      | Some f => Ok (f +:+ "(" +:+ fst left +:+ ")", snd left)
      end
  | VCoalesce =>
      '(right_sql, right_params) ← right;
      Ok ("COALESCE(" +:+ fst left +:+ ", " +:+ right_sql +:+ ")", snd left ++ right_params)
  | _ =>
      '(right_sql, right_params) ← right;
      Ok ("(" +:+ fst left +:+ " " +:+ arithmetic_symbol op +:+ " " +:+ right_sql +:+ ")",
          snd left ++ right_params)
  end.

Definition join_type_sql (k : join_type) : string := match k with INNER => "INNER" | LEFT => "LEFT" end.
Definition set_operator_sql (o : set_operator) : string :=
  match o with UNION => "UNION" | UNION_ALL => "UNION ALL" end.

(** ** Clauses that hold no nested select *)

Definition compile_source_sql (E : env) (d : query_dialect) (m : mid)
    (shape : option source_row_shape) : res string :=
  table_name ← require_model_table_name E m;
  let name := quote_identifier d table_name in
  match cte_of E m with
  | Some _ =>
      def ← relation_definition E m;
      let definition := quote_identifier d (def_name def) in
      Ok (if String.eqb definition name then definition else definition +:+ " AS " +:+ name)
  | None =>
      match shape, shape ≫= shape_presence_name with
      | Some sh, Some marker =>
          let physical_model := match alias_of E m with Some (source, _) => source | None => m end in
          physical_name ← require_model_table_name E physical_model;
          let physical := quote_identifier d physical_name in
          let columns := join ", " (map (quote_identifier d) (column_names sh)) in
          Ok ("(SELECT " +:+ columns +:+ ", 1 AS " +:+ quote_identifier d marker
                +:+ " FROM " +:+ physical +:+ ") AS " +:+ name)
      | _, _ =>
          match alias_of E m with
          | Some (source, _) =>
              physical_name ← require_model_table_name E source;
              Ok (quote_identifier d physical_name +:+ " AS " +:+ name)
          | None => Ok name
          end
      end
  end.

Definition compile_group_by_sql (E : env) (d : query_dialect) (qualified : bool)
    (groupings : list selectable) : res string :=
  group_by ← mapR (render_grouping_column E d qualified) groupings;
  Ok ("GROUP BY " +:+ join ", " group_by).

Definition compile_limit_offset_sql (d : query_dialect) (limit_value offset_value : option Z)
    : list string * list pyval :=
  let '(parts, params) :=
    match limit_value with
    | Some l => (["LIMIT " +:+ placeholder d], [PInt l])
    | None => ([], [])
    end in
  match offset_value with
  | Some o =>
      (parts ++ match limit_value with None => [offset_only_limit_sql d] | Some _ => [] end
         ++ ["OFFSET " +:+ placeholder d],
       params ++ [PInt o])
  | None => (parts, params)
  end.

Definition compile_locking_clause (E : env) (d : query_dialect) (st : select_state) (nested : bool)
    : res (list string) :=
  match st_lock st with
  | None => Ok []
  | Some wait =>
      match for_update_sql d with
      | None => raise QueryCompilationError "FOR UPDATE is not supported by this dialect"
      | Some for_update =>
          _ ← guardR (negb (is_cte E (st_model st))) QueryCompilationError
                "FOR UPDATE requires a physical table source, not a CTE";
          _ ← guardR (negb nested) QueryCompilationError "locking subqueries are not supported";
          _ ← guardR (negb (st_distinct st || nonempty (st_joins st) || nonempty (st_groupings st)
                              || nonempty (st_having st) || has_aggregate st))
                QueryCompilationError
                "FOR UPDATE requires a non-distinct, ungrouped, single-source SELECT";
          Ok [for_update wait]
      end
  end.

(** [f"{sql} AS {label}"] over the select list. *)
Definition label_columns (d : query_dialect) (projection : option named_projection)
    (parts : list string) : res (list string) :=
  match projection with
  | None => Ok parts
  | Some p =>
      _ ← guardR (Nat.eqb (length parts) (length (np_labels p))) QueryCompilationError
            "named projection width does not match its labels";
      Ok (map (fun x => fst x +:+ " AS " +:+ quote_identifier d (snd x))
            (combine parts (np_labels p)))
  end.

(** [" AND ".join(f"({sql})")] with the parameters in order. *)
Definition conjoin (parts : list compiled) : compiled :=
  (join " AND " (map (fun p => "(" +:+ fst p +:+ ")") parts), concat (map snd parts)).

(** ** Expressions, predicates and SELECT statements

    [ctes] is the [include_ctes] flag of a predicate context, carrying the
    renderer of CTE definitions when set.  A statement's scope decides the
    qualification of every column reference ([qualified=scope.qualified]; an
    UPDATE's scope has one own source, hence is not qualified). *)

Section compile.
Context (E : env) (d : query_dialect).

(** [_compile_select_state], the compilation of nested selects, predicates and
    operands being given. *)
Definition select_statement
    (compile_state : option scope_resolver -> select_state -> res compiled)
    (compile_on : scope_resolver -> predicate -> res compiled)
    (render : scope_resolver -> selectable -> res compiled)
    (outer : option scope_resolver) (presence_name : option string) (st : select_state)
    : res compiled :=
  match st with
  | SelectState model fields projection returns_model distinct lock predicates groupings having
      orderings limit_value offset_value joins compound =>
      joined_shape ← joined_shape_of E returns_model model joins;
      let own := model :: map join_model joins in
      let span_of (i : nat) := j ← joined_shape; sp ← joined_spans j !! i; Some (span_shape sp) in
      sc ← match outer with
           | Some o => enter_subquery E o own
           | None => Ok (ScopeResolver own [])
           end;
      _ ← ensure_unambiguous_aliases E sc;
      _ ← iterR (fun f => match f with
                          | SScalar _ => Ok tt
                          | _ => ensure_operand_in_scope E sc f "select" QueryCompilationError true
                          end) fields;
      _ ← ensure_grouping_covers_projection E st;
      columns ← mapR (fun f =>
        match f with
        | SScalar None => subquery_error
        | SScalar (Some q) =>
            _ ← require_single_column_subquery (Some q);
            '(sql, params) ← compile_state (Some sc) q;
            Ok ("(" +:+ sql +:+ ")", params)
        | _ => render sc f
        end) fields;
      labelled ← label_columns d projection (map fst columns);
      let quoted_columns := join ", " (labelled ++ match presence_name with
                                                   | Some n => ["1 AS " +:+ quote_identifier d n]
                                                   | None => []
                                                   end) in
      let select_keyword := if distinct then "SELECT DISTINCT" else "SELECT" in
      '(quoted_table, source_params) ←
        match compound with
        | None => t ← compile_source_sql E d model (span_of 0); Ok (t, [])
        | Some (CompoundSpec first second operator) =>
            '(left_sql, left_params) ← compile_state None first;
            '(right_sql, right_params) ← compile_state None second;
            alias ← require_model_table_name E model;
            Ok ("(" +:+ left_sql +:+ " " +:+ set_operator_sql operator +:+ " " +:+ right_sql
                  +:+ ") AS " +:+ quote_identifier d alias,
                left_params ++ right_params)
        end;
      '(_, join_parts) ← foldR (fun acc j =>
        match j with
        | JoinSpec m kind on =>
            let '(index, parts) := acc in
            join_table ← compile_source_sql E d m (span_of (index + 1));
            '(on_sql, on_params) ←
              compile_on (ScopeResolver (take (index + 2) own) (outer_models sc)) on;
            Ok (index + 1,
                parts ++ [(join_type_sql kind +:+ " JOIN " +:+ join_table +:+ " ON " +:+ on_sql,
                           on_params)])
        end) (0, []) joins;
      where_parts ← (if nonempty predicates then
                       ps ← mapR (compile_on sc) predicates;
                       Ok [("WHERE " +:+ fst (conjoin ps), snd (conjoin ps))]
                     else Ok []);
      group_parts ← (if nonempty groupings then
                       g ← compile_group_by_sql E d (qualified sc) groupings; Ok [(g, [])]
                     else Ok []);
      having_parts ← (if nonempty having then
                        _ ← iterR (ensure_having_targets E st sc) having;
                        ps ← mapR (compile_on sc) having;
                        Ok [("HAVING " +:+ fst (conjoin ps), snd (conjoin ps))]
                      else Ok []);
      order_parts ← (if nonempty orderings then
                       os ← mapR (fun o =>
                         match o with
                         | OrderBy (Some column) direction =>
                             _ ← ensure_ordering_targets_models E sc o;
                             '(sql, params) ← render sc column;
                             _ ← guardR (negb (nonempty params)) QueryCompilationError
                               "dialect expressions with bound values cannot be used for ordering";
                             Ok (sql +:+ " " +:+ direction)
                         | OrderBy None _ => _ ← ensure_ordering_targets_models E sc o; Ok ""
                         end) orderings;
                       Ok [("ORDER BY " +:+ join ", " os, [])]
                     else Ok []);
      let '(limit_parts, limit_params) := compile_limit_offset_sql d limit_value offset_value in
      lock_parts ← compile_locking_clause E d st (bool_decide (is_Some outer));
      let clauses := join_parts ++ where_parts ++ group_parts ++ having_parts ++ order_parts in
      Ok (join " " ([select_keyword +:+ " " +:+ quoted_columns +:+ " FROM " +:+ quoted_table]
                      ++ map fst clauses ++ limit_parts ++ lock_parts),
          concat (map snd columns) ++ source_params ++ concat (map snd clauses) ++ limit_params)
  end.

(** The right operand of a [*_col] comparison: a scalar subquery or a column in
    scope ([compile_scalar], [render_comparison_operand]). *)
Definition comparison_other
    (compile_nested : select_state -> res compiled) (render : selectable -> res compiled)
    (sc : scope_resolver) (other : selectable) : res compiled :=
  match other with
  | SScalar None => subquery_error
  | SScalar (Some q) =>
      _ ← require_single_column_subquery (Some q);
      '(sql, params) ← compile_nested q;
      Ok ("(" +:+ sql +:+ ")", params)
  | _ =>
      _ ← require_selectable other;
      _ ← ensure_operand_in_scope E sc other "comparison" QueryCompilationError false;
      render other
  end.

Fixpoint compile_select_state (outer : option scope_resolver) (presence_name : option string)
    (st : select_state) {struct st} : res compiled :=
  select_statement (fun o q => compile_select_state o None q) (compile_predicate None)
    render_selectable outer presence_name st
with compile_predicate (ctes : option (did -> res compiled)) (sc : scope_resolver) (p : predicate)
    {struct p} : res compiled :=
  let render_operand (r : res compiled) (s : selectable) := _ ← require_selectable s; r in
  match p with
  | ComparisonPredicate operand op value =>
      _ ← guardR (negb (is_none value)) QueryCompilationError (comparison_none_message op);
      '(rendered, operand_params) ← render_operand (render_selectable sc operand) operand;
      encode ← predicate_value_encoder E d operand;
      v ← encode value;
      Ok (rendered +:+ " " +:+ comparison_sql_operator op +:+ " " +:+ placeholder d,
          operand_params ++ [v])
  | NullPredicate operand negated =>
      '(rendered, operand_params) ← render_operand (render_selectable sc operand) operand;
      Ok (rendered +:+ " " +:+ (if negated then "IS NOT NULL" else "IS NULL"), operand_params)
  | MembershipPredicate operand values negated =>
      _ ← guardR (nonempty values) QueryCompilationError
            "IN predicates require at least one value";
      _ ← guardR (negb (existsb is_none values)) QueryCompilationError
            "IN predicate values cannot be None";
      '(rendered, operand_params) ← render_operand (render_selectable sc operand) operand;
      encode ← predicate_value_encoder E d operand;
      vs ← mapR encode values;
      Ok (rendered +:+ " " +:+ (if negated then "NOT IN" else "IN") +:+ " ("
            +:+ join ", " (replicate (length values) (placeholder d)) +:+ ")",
          operand_params ++ vs)
  | BetweenPredicate operand low high =>
      _ ← guardR (negb (is_none low || is_none high)) QueryCompilationError
            "between() bounds cannot be None; use is_null()/is_not_null()";
      '(rendered, operand_params) ← render_operand (render_selectable sc operand) operand;
      encode ← predicate_value_encoder E d operand;
      l ← encode low;
      h ← encode high;
      Ok (rendered +:+ " BETWEEN " +:+ placeholder d +:+ " AND " +:+ placeholder d,
          operand_params ++ [l; h])
  | LikePredicate operand pattern negated =>
      _ ← guardR (match operand with
                  | SAttr a => bool_decide (attr_storage_type_name a = "Text"
                                            \/ attr_storage_type_name a = "LongText")
                  | _ => false
                  end) QueryCompilationError
            (if negated then "not_like() is only valid for text columns"
             else "like() is only valid for text columns");
      '(rendered, operand_params) ← render_operand (render_selectable sc operand) operand;
      encode ← predicate_value_encoder E d operand;
      v ← encode (PStr pattern);
      Ok (rendered +:+ " " +:+ (if negated then "NOT LIKE" else "LIKE") +:+ " " +:+ placeholder d,
          operand_params ++ [v])
  | ColumnComparisonPredicate operand op other =>
      _ ← ensure_comparable E operand (comparable_operand other);
      '(rendered, rendered_params) ← render_operand (render_selectable sc operand) operand;
      '(other_sql, other_params) ←
        comparison_other
          (fun q => finish_subquery E d ctes sc q (compile_select_state (Some sc) None q))
          (render_selectable sc) sc other;
      Ok (rendered +:+ " " +:+ comparison_sql_operator op +:+ " " +:+ other_sql,
          rendered_params ++ other_params)
  | SubqueryMembershipPredicate operand subquery negated =>
      _ ← ensure_comparable E operand (subquery_column subquery);
      '(rendered, operand_params) ← render_operand (render_selectable sc operand) operand;
      '(sub_sql, sub_params) ←
        match subquery with
        | None => subquery_error
        | Some q =>
            _ ← require_single_column_subquery (Some q);
            finish_subquery E d ctes sc q (compile_select_state (Some sc) None q)
        end;
      Ok (rendered +:+ " " +:+ (if negated then "NOT IN" else "IN") +:+ " (" +:+ sub_sql +:+ ")",
          operand_params ++ sub_params)
  | ExistencePredicate subquery negated =>
      '(sub_sql, sub_params) ←
        match subquery with
        | None => subquery_error
        | Some q => finish_subquery E d ctes sc q (compile_select_state (Some sc) None q)
        end;
      Ok ((if negated then "NOT EXISTS" else "EXISTS") +:+ " (" +:+ sub_sql +:+ ")", sub_params)
  | CompoundPredicate op children =>
      match children with
      | [first; second] =>
          '(left_sql, left_params) ← compile_predicate ctes sc first;
          '(right_sql, right_params) ← compile_predicate ctes sc second;
          Ok ("(" +:+ left_sql +:+ ") " +:+ match op with OpAnd => "AND" | OpOr => "OR" end
                +:+ " (" +:+ right_sql +:+ ")", left_params ++ right_params)
      | _ => raise QueryCompilationError "compound predicate is malformed"
      end
  | NegatedPredicate child =>
      '(child_sql, child_params) ← compile_predicate ctes sc child;
      Ok ("NOT (" +:+ child_sql +:+ ")", child_params)
  end
with render_selectable (sc : scope_resolver) (s : selectable) {struct s} : res compiled :=
  match s with
  | SScalar _ =>
      raise QueryCompilationError "scalar subqueries cannot be rendered without their parameters"
  | SAggregate func column _ =>
      sql ← render_aggregate E d (qualified sc) func column; Ok (sql, [])
  | SValue e => value_expression_sql sc e
  | SCteOutput position r => sql ← cte_output_sql E d position r; Ok (sql, [])
  | SLiteral family value => integer_literal_compile E d family value
  | STablePresence m name => sql ← table_presence_sql E d m name; Ok (sql, [])
  | SCtePresence r => sql ← cte_presence_sql E d r; Ok (sql, [])
  | SAttr a => sql ← render_column_ref E d (qualified sc) a; Ok (sql, [])
  | SOther => raise OtherError "AttributeError: name"
  end
with value_expression_sql (sc : scope_resolver) (e : value_expression) {struct e} : res compiled :=
  match e with
  | ValueExpression column _ _ _ operations =>
      start ← case_root_sql sc column;
      foldR (fun acc x => match x with (op, operand) =>
                            apply_operator d op acc (expression_operand_sql sc operand)
                          end) start operations
  end
with case_root_sql (sc : scope_resolver) (r : ve_root) {struct r} : res compiled :=
  match r with
  | VRColumn s => sql ← render_grouping_column E d (qualified sc) s; Ok (sql, [])
  | VRCase condition _ otherwise then_ =>
      '(condition_sql, params) ← compile_predicate None sc condition;
      '(then_sql, then_params) ← expression_operand_sql sc then_;
      '(otherwise_sql, otherwise_params) ← expression_operand_sql sc otherwise;
      Ok ("CASE WHEN " +:+ condition_sql +:+ " THEN " +:+ then_sql +:+ " ELSE " +:+ otherwise_sql
            +:+ " END", params ++ then_params ++ otherwise_params)
  end
with expression_operand_sql (sc : scope_resolver) (o : ve_operand) {struct o} : res compiled :=
  match o with
  | VOLit v => Ok (placeholder d, [v])
  | VOExpr e => value_expression_sql sc e
  end.
End compile.

(** ** SELECT with its definitions *)

(** The text of one definition: its body and, if recursive, its member. *)
Definition render_definition (E : env) (d : query_dialect) (def_id : did) : res compiled :=
  def ← find_definition E def_id;
  let presence_name := Some (layout_presence_name (def_layout def)) in
  '(body, bindings) ← compile_select_state E d None presence_name (def_state def);
  match def_recursive_step def with
  | None => Ok (body, bindings)
  | Some step =>
      '(member, member_bindings) ← compile_select_state E d None presence_name step;
      Ok (body +:+ " UNION ALL " +:+ member, bindings ++ member_bindings)
  end.

Definition compile_select_sql_for_dialect (E : env) (d : query_dialect) (st : select_state)
    : res compiled :=
  definitions ← collect_cte_definitions E st [];
  main ← compile_select_state E d None None st;
  with_clause E d (render_definition E d) definitions main.

(** Predicates of a write own their definitions ([include_ctes=True]). *)
Definition compile_write_predicates (E : env) (d : query_dialect) (sc : scope_resolver)
    (predicates : list predicate) : res compiled :=
  ps ← mapR (compile_predicate E d (Some (render_definition E d)) sc) predicates;
  Ok (conjoin ps).

(** ** INSERT *)

Definition encode_insert_row (E : env) (d : query_dialect) (model_class : mid) (row : model_row)
    : res (list (string * pyval)) :=
  m ← require_insert_model row;
  _ ← guardR (Pos.eqb m model_class) QueryCompilationError
        "bulk insert rows must be instances of the same model";
  columns ← require_model_columns E model_class;
  foldR (fun acc c =>
    match assoc (fst c) (row_attrs row) with
    | None => raise OtherError "AttributeError"
    | Some None => Ok acc
    | Some (Some value) => v ← encode_write_value d (snd c) value; Ok (acc ++ [(fst c, v)])
    end) [] columns.

Definition returning_clause (E : env) (d : query_dialect) (model_class : mid)
    (fields : list selectable) (projection : option named_projection) : res string :=
  names ← (if nonempty fields
           then mapR (fun f => a ← require_field f; require_column_name a) fields
           else columns ← require_model_columns E model_class; Ok (map fst columns));
  let parts := map (quote_identifier d) names in
  parts ← match projection with
          | None => Ok parts
          | Some p =>
              _ ← guardR (Nat.eqb (length parts) (length (np_labels p))) QueryCompilationError
                    "named returning width does not match its labels";
              Ok (map (fun x => fst x +:+ " AS " +:+ quote_identifier d (snd x))
                    (combine parts (np_labels p)))
          end;
  Ok (" RETURNING " +:+ join ", " parts).

(** One assignment of a conflict update: [name = value] and its parameters. *)
Definition conflict_assignment (E : env) (d : query_dialect) (sc : scope_resolver) (a : assignment)
    : res compiled :=
  _ ← match as_value a with
      | AvExpression _ => raise QueryCompilationError
                            "expression assignments are only supported in UPDATE"
      | _ => Ok tt
      end;
  _ ← ensure_assignment_targets_model E sc a;
  column ← match as_column a with
           | Some c => require_field c
           | None => raise QueryConstructionError "select requires a model or field"
           end;
  column_name ← render_column_ref E d false column;
  '(assigned, params) ←
    match as_value a with
    | AvInsertedValue => Ok (inserted_value_sql d column_name, [])
    | AvCurrentTimestamp => s ← current_timestamp_sql d column; Ok (s, [])
    | AvValue v => v' ← encode_write_value d column v; Ok (placeholder d, [v'])
    | AvExpression _ => raise OtherError "unreachable"
    end;
  Ok (column_name +:+ " = " +:+ assigned, params).

Definition compile_insert_conflict_sql (E : env) (d : query_dialect) (st : insert_state)
    (model_class : mid) : res compiled :=
  match ins_conflict_action st with
  | None => Ok ("", [])
  | Some action =>
      quoted_targets ← mapR (render_column_ref E d false) (ins_conflict_targets st);
      match action with
      | DoNothing =>
          _ ← guardR (negb (ins_returning st)) QueryCompilationError
                "DoNothing cannot be combined with returning()";
          s ← conflict_do_nothing_sql d quoted_targets; Ok (s, [])
      | DoUpdate assignments =>
          parts ← mapR (conflict_assignment E d (ScopeResolver [model_class] [])) assignments;
          Ok (conflict_update_sql d quoted_targets (join ", " (map fst parts)),
              concat (map snd parts))
      end
  end.

Definition compile_insert_sql (E : env) (d : query_dialect) (st : insert_state) : res compiled :=
  match insert_model st, ins_rows st with
  | None, _ | _, [] => raise QueryCompilationError "insert requires at least one row"
  | Some model_class, rows =>
      encoded_rows ← mapR (encode_insert_row E d model_class) rows;
      let names := match encoded_rows with r :: _ => map fst r | [] => [] end in
      _ ← guardR (forallb (fun r => bool_decide (map fst r = names)) (tail encoded_rows))
            QueryCompilationError "bulk insert rows must set the same columns";
      table_name ← require_model_table_name E model_class;
      let quoted_table := quote_identifier d table_name in
      returning ← (if ins_returning st
                   then returning_clause E d model_class (ins_returning_fields st)
                          (ins_projection st)
                   else Ok "");
      match names with
      | [] =>
          _ ← guardR (length encoded_rows <=? 1) QueryCompilationError
                "bulk insert requires at least one explicit column";
          _ ← guardR (match ins_conflict_action st with None => true | Some _ => false end)
                QueryCompilationError "on_conflict requires at least one explicit insert column";
          Ok (empty_insert_sql d quoted_table +:+ returning, [])
      | _ =>
          let quoted_columns := join ", " (map (quote_identifier d) names) in
          let row_placeholder :=
            "(" +:+ join ", " (replicate (length names) (placeholder d)) +:+ ")" in
          let values_clause := join ", " (replicate (length encoded_rows) row_placeholder) in
          '(conflict, conflict_params) ← compile_insert_conflict_sql E d st model_class;
          Ok ("INSERT INTO " +:+ quoted_table +:+ " (" +:+ quoted_columns +:+ ") VALUES "
                +:+ values_clause +:+ conflict +:+ returning,
              concat (map (map snd) encoded_rows) ++ conflict_params)
      end
  end.

(** ** UPDATE and DELETE *)

(** [a is b] for column operands. *)
Definition same_object (a b : selectable) : bool :=
  match a, b with
  | SAttr x, SAttr y => Pos.eqb (attr_id x) (attr_id y)
  | _, _ => false
  end.

Definition ensure_expression_assignment_dependencies (assignments : list assignment) : res unit :=
  guardR (negb (existsb (fun a =>
    match as_value a with
    | AvExpression e =>
        existsb (fun referenced =>
          existsb (fun other =>
            match as_column other with
            | Some c => same_object c referenced && negb (Pos.eqb (as_id other) (as_id a))
            | None => false
            end) assignments) (ve_referenced_columns e)
    | _ => false
    end) assignments)) QueryCompilationError
    "expression cannot read another column assigned by this statement".

Definition update_assignment (E : env) (d : query_dialect) (sc : scope_resolver) (a : assignment)
    : res compiled :=
  _ ← ensure_assignment_targets_model E sc a;
  column ← match as_column a with
           | Some c => require_field c
           | None => raise QueryConstructionError "select requires a model or field"
           end;
  column_name ← render_column_ref E d false column;
  '(assigned, params) ←
    match as_value a with
    | AvInsertedValue => raise QueryCompilationError
                           "to_inserted() is only valid in a conflict update"
    | AvExpression e => value_expression_sql E d sc e
    | AvCurrentTimestamp => s ← current_timestamp_sql d column; Ok (s, [])
    | AvValue v => v' ← encode_write_value d column v; Ok (placeholder d, [v'])
    end;
  Ok (column_name +:+ " = " +:+ assigned, params).

Definition compile_update_sql (E : env) (d : query_dialect) (st : update_state) : res compiled :=
  _ ← guardR (nonempty (upd_assignments st)) QueryCompilationError
        "update requires set() before execution";
  _ ← guardR (upd_explicit_all st || nonempty (upd_predicates st)) QueryCompilationError
        "update requires all() or where() before execution";
  _ ← ensure_expression_assignment_dependencies (upd_assignments st);
  table_name ← require_model_table_name E (upd_model st);
  let sc := ScopeResolver [upd_model st] [] in
  parts ← mapR (update_assignment E d sc) (upd_assignments st);
  where_part ← (if nonempty (upd_predicates st) then
                  p ← compile_write_predicates E d sc (upd_predicates st);
                  Ok (" WHERE " +:+ fst p, snd p)
                else Ok ("", []));
  returning ← (if upd_returning st then
                 _ ← guardR (supports_update_returning d) QueryCompilationError
                       "backend does not support UPDATE RETURNING";
                 returning_clause E d (upd_model st) (upd_returning_fields st) (upd_projection st)
               else Ok "");
  Ok ("UPDATE " +:+ quote_identifier d table_name +:+ " SET " +:+ join ", " (map fst parts)
        +:+ fst where_part +:+ returning,
      concat (map snd parts) ++ snd where_part).

Definition compile_delete_sql (E : env) (d : query_dialect) (st : delete_state) : res compiled :=
  _ ← guardR (del_explicit_all st || nonempty (del_predicates st)) QueryCompilationError
        "delete requires all() or where() before execution";
  table_name ← require_model_table_name E (del_model st);
  where_part ← (if nonempty (del_predicates st) then
                  p ← compile_write_predicates E d (ScopeResolver [del_model st] [])
                        (del_predicates st);
                  Ok (" WHERE " +:+ fst p, snd p)
                else Ok ("", []));
  returning ← (if del_returning st then
                 _ ← guardR (supports_delete_returning d) QueryCompilationError
                       "backend does not support DELETE RETURNING";
                 returning_clause E d (del_model st) (del_returning_fields st) (del_projection st)
               else Ok "");
  Ok ("DELETE FROM " +:+ quote_identifier d table_name +:+ fst where_part +:+ returning,
      snd where_part).

Definition compile_write_sql_for_dialect (E : env) (q : query) (d : query_dialect) : res compiled :=
  match q with
  | QInsert st => compile_insert_sql E d st
  | QUpdate st => compile_update_sql E d st
  | QDelete st => compile_delete_sql E d st
  | _ => raise QueryCompilationError "execute requires a write query"
  end.

(** ** Standalone compilation and inspection *)

Record compiled_query := CompiledQuery {
  cq_backend : backend; cq_params : list pyval; cq_sql : string }.

Definition query_model (q : query) : res mid :=
  match q with
  | QSelect st => Ok (st_model st)
  | QUpdate st => Ok (upd_model st)
  | QDelete st => Ok (del_model st)
  | QInsert st =>
      match insert_model st with
      | Some m => Ok m
      | None => raise QueryCompilationError "an empty bulk insert has no SQL to compile"
      end
  | QOther => raise QueryCompilationError "SQL compilation requires a snekql query"
  end.

Definition compile_query_sql (E : env) (q : query) : res compiled_query :=
  model ← query_model q;
  b ← require_model_backend E model;
  d ← query_dialect_for_backend E b;
  '(sql, params) ← match q with
                   | QSelect st => compile_select_sql_for_dialect E d st
                   | _ => compile_write_sql_for_dialect E q d
                   end;
  Ok (CompiledQuery b params sql).

(** [sql.split(sep)]: [skip] characters of a separator are still to be passed. *)
Fixpoint split_from (sep : string) (skip : nat) (s : string) : list string :=
  match s with
  | EmptyString => [EmptyString]
  | String c s' =>
      match skip with
      | S k => split_from sep k s'
      | O => if String.prefix sep s then EmptyString :: split_from sep (String.length sep - 1) s'
             else match split_from sep 0 s' with
                  | h :: t => String c h :: t
                  | [] => []
                  end
      end
  end.
Definition split_on (sep s : string) : list string := split_from sep 0 s.

Definition hex_digit (n : nat) : string :=
  match String.get n "0123456789abcdef" with Some c => String c EmptyString | None => EmptyString end.
Fixpoint bytes_hex (s : string) : string :=
  match s with
  | EmptyString => EmptyString
  | String c s' => let n := Ascii.nat_of_ascii c in
                   hex_digit (n / 16) +:+ hex_digit (n mod 16) +:+ bytes_hex s'
  end.

Definition sql_quote (s : string) : string :=
  "'" +:+ replace_char c_squote "''" s +:+ "'".

(** [float_repr] is Python's [repr] of a float. *)
Definition render_sql_literal (float_repr : spec_float -> string) (v : pyval) : string :=
  match v with
  | PNone => "NULL"
  | PBool b => if b then "1" else "0"
  | PInt z => NilZero.string_of_int (Z.to_int z)
  | PFloat f => float_repr f
  | PBytes s => "x'" +:+ bytes_hex s +:+ "'"
  | PStr s => sql_quote s
  | PObj _ text => sql_quote text
  end.

(** Parts and rendered values in alternation, then the last part. *)
Fixpoint interleave (parts values : list string) : string :=
  match parts, values with
  | p :: ps, v :: vs => p +:+ v +:+ interleave ps vs
  | p :: _, [] => p
  | [], _ => EmptyString
  end.

Definition inline_sql_params (float_repr : spec_float -> string) (sql : string)
    (params : list pyval) (token : string) : string :=
  let parts := split_on token sql in
  if Nat.eqb (length parts - 1) (length params)
  then interleave parts (map (render_sql_literal float_repr) params)
  else sql.

Record inspected_query := InspectedQuery {
  iq_sql : string; iq_params : list pyval; iq_inlined : string }.

Definition inspect_query_sql (E : env) (float_repr : spec_float -> string) (q : query)
    : res inspected_query :=
  c ← compile_query_sql E q;
  d ← query_dialect_for_backend E (cq_backend c);
  Ok (InspectedQuery (cq_sql c) (cq_params c)
        (inline_sql_params float_repr (cq_sql c) (cq_params c) (placeholder d))).
