(* ===== verification/QueryPlan.v ===== *)
(** * Execution plans

    [_query_plan.py]: a built query lowered into SQL, parameters, the number of
    rows its consumer wants and the materialization of those rows; and what a
    consumed plan returns, from the builder's calls to the result objects. *)

From S2P Require Export Materialize QueryBuilder QueryCompile.

Inductive select_cardinality := COne | COneOrNone | CMany.
Inductive write_cardinality := WNone | WRowcount | WOne | WMany.
#[export] Instance select_cardinality_eq_dec : EqDecision select_cardinality.
Proof. solve_decision. Defined.

Definition cardinality_name (c : select_cardinality) : string :=
  match c with COne => "one" | COneOrNone => "one_or_none" | CMany => "many" end.

(** The query object given to a fetch: a built select, or anything else. *)
Inductive fetch_query := FetchSelect (q : select_query) | FetchOther.

(** [validate_select_consumption] *)
Definition validate_select_consumption (q : fetch_query) (cardinality : select_cardinality)
    : res unit :=
  match cardinality, q with
  | COneOrNone, FetchSelect (SelectQuery KValue _) =>
      raise QueryConstructionError
        "fetch_one_or_none cannot disambiguate a missing row from a SQL NULL value for a single-value select; use fetch_one, or fetch_all / a tuple select including a non-nullable column"
  | _, _ => Ok tt
  end.

Definition require_select_state (q : fetch_query) : res select_state :=
  match q with
  | FetchSelect q => Ok (sq_state q)
  | FetchOther => raise QueryCompilationError "fetch requires a select query"
  end.

(** [select_query_backend] *)
Definition select_query_backend (E : env) (q : fetch_query) : res backend :=
  st ← require_select_state q; require_model_backend E (st_model st).

Section plans.
Context (E : env) {V R : Type}.
Context (raw_value : pyval -> V) (to_int to_float : pyval -> res V)
  (column_decode : attr -> backend -> bool -> pyval -> res V) (is_numeric : attr -> option bool).
Context (model_validate : positive -> list (string * V) -> option R)
  (is_instance : R -> positive -> bool).

Abbreviation object := (fetched V R).
Abbreviation for_state_ := (for_state E raw_value to_int to_float column_decode is_numeric).
Abbreviation materialize_ := (materialize E raw_value to_int to_float column_decode is_numeric
                                model_validate is_instance).
Abbreviation joined_result_ := (joined_result E raw_value to_int to_float column_decode is_numeric
                                  model_validate is_instance).
Abbreviation joined_objects_ := (joined_objects E raw_value to_int to_float column_decode is_numeric
                                   model_validate is_instance).
Abbreviation write_rows_ := (materialize_write_returning_rows E raw_value to_int to_float
                               column_decode is_numeric model_validate is_instance).

(** ** Select plans *)

Record select_plan := SelectPlan {
  sp_sql : string;
  sp_params : list pyval;
  sp_backend : backend;
  sp_cardinality : select_cardinality;
  sp_materialization : select_materialization (V:=V)
}.

Definition requires_write_transaction (p : select_plan) : bool :=
  match st_lock (sm_state (sp_materialization p)) with Some _ => true | None => false end.

(** [SelectPlan.fetch_limit] *)
Definition select_fetch_limit (p : select_plan) : option nat :=
  match sp_cardinality p with CMany => None | _ => Some 2 end.

(** [SelectPlan.materialize_row] *)
Definition materialize_row (fuel : nat) (p : select_plan) (row : list pyval) : res object :=
  materialize_ fuel (sp_materialization p) row.

(** [SelectPlan.materialize]; [None] is the [None] of a read without a row. *)
Definition select_plan_materialize (fuel : nat) (p : select_plan) (rows : list (list pyval))
    : res (option object) :=
  match rows with
  | [] => match sp_cardinality p with
          | COneOrNone => Ok None
          | _ => raise NoResultError "fetch_one found no row"
          end
  | row :: rest =>
      _ ← guardR (negb (nonempty rest)) MultipleResultsError
            ("fetch_" +:+ cardinality_name (sp_cardinality p) +:+ " found more than one row");
      o ← materialize_row fuel p row; Ok (Some o)
  end.

(** [compile_select_plan_for_dialect] *)
Definition compile_select_plan (fuel : nat) (q : fetch_query) (d : query_dialect)
    (cardinality : select_cardinality) (validate : bool) : res select_plan :=
  _ ← validate_select_consumption q cardinality;
  st ← require_select_state q;
  b ← require_model_backend E (st_model st);
  m ← for_state_ fuel st b validate;
  '(sql, params) ← compile_select_sql_for_dialect E d st;
  Ok (SelectPlan sql params b cardinality m).

(** ** Write plans *)

Record write_plan := WritePlan {
  wp_sql : option string;
  wp_params : list pyval;
  wp_backend : backend;
  wp_cardinality : write_cardinality;
  wp_state : query;
  wp_validate : bool
}.

(** [WritePlan.returns_rows] *)
Definition returns_rows (p : write_plan) : bool :=
  match wp_cardinality p with WOne | WMany => true | WNone | WRowcount => false end.

(** [WritePlan.fetch_limit] *)
Definition write_fetch_limit (p : write_plan) : option nat :=
  if returns_rows p then None else Some 0.

Inductive write_result :=
  | WrNone | WrRowcount (n : Z) | WrRow (o : object) | WrRows (os : list object).

(** [WritePlan.materialize] *)
Definition write_plan_materialize (fuel : nat) (p : write_plan) (rowcount : Z)
    (rows : list (list pyval)) : res write_result :=
  match wp_cardinality p with
  | WNone => Ok WrNone
  | WRowcount => Ok (WrRowcount rowcount)
  | WMany => os ← write_rows_ fuel (wp_state p) rows (wp_backend p) (wp_validate p); Ok (WrRows os)
  | WOne =>
      os ← write_rows_ fuel (wp_state p) rows (wp_backend p) (wp_validate p);
      match os with
      | [o] => Ok (WrRow o)
      | _ => raise ResultCardinalityError "single-row RETURNING expected exactly one row"
      end
  end.

(** [compile_write_plan_for_dialect] *)
Definition compile_write_plan (q : query) (d : query_dialect) (validate : bool) : res write_plan :=
  match q with
  | QInsert st =>
      match insert_model st with
      | None => raise QueryCompilationError "insert plan lost its model"
      | Some model =>
          b ← require_model_backend E model;
          let cardinality := if ins_returning st then (if ins_multi st then WMany else WOne)
                             else WNone in
          match ins_rows st with
          | [] => Ok (WritePlan None [] b cardinality q validate)
          | _ =>
              '(sql, params) ← compile_write_sql_for_dialect E q d;
              Ok (WritePlan (Some sql) params b cardinality q validate)
          end
      end
  | QUpdate st =>
      b ← require_model_backend E (upd_model st);
      '(sql, params) ← compile_write_sql_for_dialect E q d;
      Ok (WritePlan (Some sql) params b (if upd_returning st then WMany else WRowcount) q validate)
  | QDelete st =>
      b ← require_model_backend E (del_model st);
      '(sql, params) ← compile_write_sql_for_dialect E q d;
      Ok (WritePlan (Some sql) params b (if del_returning st then WMany else WRowcount) q validate)
  | QSelect _ | QOther => raise QueryCompilationError "execute requires a write query"
  end.

(** ** Consuming a select *)

(** The rows a cursor hands over under a limit. *)
Definition capped (limit : option nat) (rows : list (list pyval)) : list (list pyval) :=
  match limit with Some n => take n rows | None => rows end.

(** a single-row read reports exactly what the whole result set warrants.
    Although at most two rows are fetched, [fetch_one] and [fetch_one_or_none]
    decode the row of a one-row result, refuse a larger one whatever its rows
    hold, and tell an empty one apart. *)
Theorem capped_consumption_exact fuel p rows (Hc : sp_cardinality p <> CMany) :
  select_plan_materialize fuel p (capped (select_fetch_limit p) rows) =
  match rows with
  | [] => if decide (sp_cardinality p = COneOrNone) then Ok None
          else raise NoResultError "fetch_one found no row"
  | [row] => o ← materialize_row fuel p row; Ok (Some o)
  | _ => raise MultipleResultsError
           ("fetch_" +:+ cardinality_name (sp_cardinality p) +:+ " found more than one row")
  end.
Proof.
  unfold select_fetch_limit, select_plan_materialize.
  destruct (sp_cardinality p); [|by destruct rows as [|? [|]]|done].
  by destruct rows as [|? [|]].
Qed.

(** *** Optional reads *)

Lemma compile_select_plan_inv fuel q d c validate p :
  compile_select_plan fuel (FetchSelect q) d c validate = Ok p ->
  validate_select_consumption (FetchSelect q) c = Ok tt /\
  for_state_ fuel (sq_state q) (sp_backend p) validate = Ok (sp_materialization p) /\
  sp_cardinality p = c.
Proof.
  unfold compile_select_plan. intros H. bind_inv H as u Hu. destruct u. bind_inv H as st Hst.
  injection Hst as <-. bind_inv H as b Hb. bind_inv H as m Hm. bind_inv H as r Hr. destruct r.
  by injection H as <-.
Qed.

Lemma project_row_not_value projection (decoders : list (pyval -> res V)) row o :
  length decoders <> 1 \/ is_Some projection ->
  project_row model_validate is_instance projection decoders row = Ok o -> is_value o = false.
Proof.
  unfold project_row. intros Hor H.
  destruct decoders as [|decode [|decode' decoders]].
  2: { destruct row as [|raw row]; [done|]. bind_inv H as v Hv.
       destruct projection; [by eapply named_not_value|]. destruct Hor as [|[? ?]]; done. }
  all: bind_inv H as pairs Hp; bind_inv H as vs Hvs;
    destruct projection; [by eapply named_not_value|by injection H as <-].
Qed.

Lemma materialize_not_value fuel q b validate m row o :
  kind_shape E q -> sq_kind q <> KValue ->
  (forall r def, relation_definition E r = Ok def -> is_Some (st_projection (def_state def))) ->
  for_state_ fuel (sq_state q) b validate = Ok m -> materialize_ fuel m row = Ok o ->
  is_value o = false.
Proof.
  intros Hs Hk Hcte Hm Ho. unfold for_state in Hm.
  bind_inv Hm as joined Hj. bind_inv Hm as source Hsrc. bind_inv Hm as decoders Hd.
  bind_inv Hm as jds Hjds. injection Hm as <-. unfold materialize in Ho. bind_inv Ho as u Hu.
  simpl in Ho. destruct joined as [j|]; [bind_inv Ho as os Hos; by injection Ho as <-|].
  destruct source as [s|]; [by eapply source_not_value|].
  destruct q as [k st]. unfold kind_shape in Hs. simpl in *.
  eapply project_row_not_value; [|exact Ho]. destruct k; [| |done|].
  - destruct Hs as [Hjoins Hs]. rewrite Hjoins in Hsrc. destruct (st_returns_model st); simpl in Hsrc.
    { by bind_inv Hsrc as s Hs'. }
    destruct Hs as (def & Hdef & _ & ->). right. by eapply Hcte.
  - destruct Hs as (Hrm & _ & shape & Hshape & _). rewrite Hrm, Hshape in Hj. done.
  - destruct Hs as (Hrm & _ & Hl & _). rewrite Hrm in Hd. simpl in Hd.
    apply mapR_length in Hd. left. rewrite Hd. intros Hone. by apply Hl in Hone.
Qed.

(** C25: a [None] from [fetch_one_or_none] always means that no row matched.  For
    every query the builder's calls can make and every backend the plan is
    compiled for, the plan returns [None] on the empty result and nothing else;
    a row never comes back as a bare value, so never as a SQL NULL.  (The
    outputs of a CTE carry a named contract.) *)
Theorem optional_read_unambiguous fuel args calls q d validate p rows r
  (Hq : run_select E args calls = Ok q)
  (Hcte : forall m def, relation_definition E m = Ok def -> is_Some (st_projection (def_state def)))
  (Hp : compile_select_plan fuel (FetchSelect q) d COneOrNone validate = Ok p)
  (Hr : select_plan_materialize fuel p rows = Ok r) :
  (r = None <-> rows = []) /\ (forall o, r = Some o -> is_value o = false).
Proof.
  apply built_select_shape in Hq. apply compile_select_plan_inv in Hp as (Hv & Hm & Hc).
  assert (Hk : sq_kind q <> KValue) by (destruct q as [k st]; simpl in *; intros ->; done).
  unfold select_plan_materialize in Hr. rewrite Hc in Hr. destruct rows as [|row rest].
  { injection Hr as <-. split; [done|]. by intros o Ho. }
  bind_inv Hr as u Hu. bind_inv Hr as o Ho. injection Hr as <-. split; [done|].
  intros o' [= <-]. by eapply materialize_not_value.
Qed.

(** *** Joined reads *)

(** C31: a joined read returns one object per source.  For every model join the
    builder makes, a database row made of the columns of each source, in order, is
    never refused for its width and becomes the tuple of what each source is on its
    own ([joined_objects]): [None] exactly for a source the join found no row for,
    and otherwise an object whose every value is what the general decoder of its own
    field makes of the value found for that field.  (The outputs of a CTE are to
    lead to columns bound to a table.) *)
Theorem joined_read_exact fuel args calls q d cardinality validate p
  (Hq : run_select E args calls = Ok q) (Hk : sq_kind q = KJoin)
  (Hp : compile_select_plan fuel (FetchSelect q) d cardinality validate = Ok p) :
  exists j,
    for_sources E (st_model (sq_state q)) (st_joins (sq_state q)) = Ok j /\
    forall found rows, Forall3 source_row (joined_spans j) found rows ->
      (Forall (fun sp => Forall (source_bound E fuel) (payload (span_shape sp))) (joined_spans j) ->
       materialize_row fuel p (concat rows) =
       FTuple <$> joined_objects_ fuel (sp_backend p) validate (joined_spans j) found) /\
      forall os, materialize_row fuel p (concat rows) = Ok (FTuple os) ->
        Forall2 (fun f o => o = py_none raw_value <-> f = None) found os.
Proof.
  apply built_select_shape in Hq. apply compile_select_plan_inv in Hp as (_ & Hm & _).
  unfold kind_shape in Hq. rewrite Hk in Hq. destruct Hq as (Hrm & _ & shape & Hj & Hf).
  unfold materialize_row. destruct p as [sql params b c m]. simpl in *. unfold for_state in Hm.
  rewrite Hrm, Hj in Hm. cbn [mbind res_bind] in Hm. bind_inv Hm as source Hsrc.
  bind_inv Hm as ds Hds. bind_inv Hm as jds Hjds. injection Hm as <-.
  unfold joined_shape_of in Hj. simpl in Hj.
  destruct (nonempty _) eqn:Hne; [|done]. bind_inv Hj as j Hj'. injection Hj as <-.
  exists j. split; [done|]. intros found rows Hrows.
  pose proof (for_sources_ok E (joined_sources (st_model (sq_state q)) (st_joins (sq_state q)))
                (JoinedRowShape [] []) [] j) as Hok.
  destruct Hok as (Hsp & Hfields & Hsrcs); [by repeat constructor|exact Hj'|].
  assert (Hlen : Forall2 (fun sp r => length r = shape_width (span_shape sp)) (joined_spans j) rows).
  { clear -Hrows. induction Hrows; constructor; [by eapply source_row_length|done]. }
  assert (Hwidth : length (concat rows) = length (st_fields (sq_state q))).
  { rewrite Hf, Hfields, concat_fields_length. clear -Hlen. unfold spans_width.
    induction Hlen as [|sp r spans rows Hr _ IH]; [done|]. simpl. rewrite length_app, Hr, IH. done. }
  assert (Heq : materialize_ fuel (SelectMaterialization b (sq_state q) validate (Some j) ds source jds)
                  (concat rows) =
                FTuple <$> joined_result_ fuel b validate jds (joined_spans j) 0 found rows).
  { unfold materialize, assert_. cbn [sm_state]. rewrite Hwidth, Nat.eqb_refl. simpl.
    rewrite (joined_materialize_found _ _ _ _ _ _ _ _ _ _ _ _ _ _ found rows).
    - by destruct (joined_result_ fuel b validate jds (joined_spans j) 0 found rows).
    - clear -Hsrcs. induction Hsrcs as [|sp src spans srcs [Hs _] _ IH]; constructor; eauto.
    - by apply (span_slices 0 _ []).
    - done. }
  assert (Hmade : Forall (fun sp => exists m, for_source E m true = Ok (span_shape sp)) (joined_spans j)).
  { clear -Hsrcs. induction Hsrcs as [|sp src spans srcs [Hs _] _ IH]; constructor; eauto. }
  split.
  { intros Hbound. rewrite Heq. f_equal. apply joined_result_own; [done|done| |done].
    exact (resolve_decoders_own _ _ _ _ _ _ _ _ _ _ _ Hjds). }
  intros os Hos. rewrite Heq in Hos.
  destruct (joined_result_ fuel b validate jds (joined_spans j) 0 found rows) as [os'|] eqn:Hr; [|done].
  injection Hos as <-. by eapply joined_result_presence.
Qed.

(** ** Consuming a write *)

Lemma write_rows_length fuel q b validate rows os :
  write_rows_ fuel q rows b validate = Ok os ->
  fst (fst (write_returning q)) <> None -> length os = length rows.
Proof.
  unfold materialize_write_returning_rows. intros H Hm.
  destruct (write_returning q) as [[m fields] projection]. destruct (nonempty fields).
  - unfold materialize_returning_fields in H. bind_inv H as ds Hd. by apply mapR_length in H.
  - destruct m as [m|]; [|done]. bind_inv H as cols Hc. by apply mapR_length in H.
Qed.

(** a write returns what its state asked for.  An INSERT without RETURNING
    returns nothing and an UPDATE or DELETE without it the driver's row count,
    neither fetching any row; with RETURNING every row sent back is one object,
    and a single-row INSERT accepts exactly one; an empty batch runs no SQL. *)
Theorem write_plan_result fuel q d validate p rowcount rows
  (Hp : compile_write_plan q d validate = Ok p) :
  (wp_sql p = None <-> exists st, q = QInsert st /\ ins_rows st = []) /\
  match write_plan_materialize fuel p rowcount rows with
  | Ok WrNone => exists st, q = QInsert st /\ ins_returning st = false /\
                   write_fetch_limit p = Some 0
  | Ok (WrRowcount n) => n = rowcount /\ write_fetch_limit p = Some 0
  | Ok (WrRow _) => length rows = 1 /\ write_fetch_limit p = None /\
                    exists st, q = QInsert st /\ ins_returning st = true /\ ins_multi st = false
  | Ok (WrRows os) => length os = length rows /\ write_fetch_limit p = None
  | Raise e =>
      returns_rows p = true /\
      (write_rows_ fuel q rows (wp_backend p) validate = Raise e \/
       (exn_class e = ResultCardinalityError /\ length rows <> 1 /\ wp_cardinality p = WOne))
  end.
Proof.
  assert (Hshape : wp_state p = q /\ wp_validate p = validate /\
    fst (fst (write_returning q)) <> None /\
    (wp_sql p = None <-> exists st, q = QInsert st /\ ins_rows st = []) /\
    match q with
    | QInsert st => wp_cardinality p = if ins_returning st
                                       then (if ins_multi st then WMany else WOne) else WNone
    | _ => wp_cardinality p = WMany \/ wp_cardinality p = WRowcount
    end).
  { unfold compile_write_plan in Hp. destruct q as [st|st|st|st|]; try done.
    - destruct (insert_model st) as [m|] eqn:Hm; [|done]. bind_inv Hp as b Hb.
      destruct (ins_rows st) as [|r rs] eqn:Hr.
      + injection Hp as <-. simpl. rewrite Hm. split_and!; [done|done|done|split; [by exists st|done]|done].
      + bind_inv Hp as c Hc. destruct c. injection Hp as <-. simpl. rewrite Hm.
        split_and!; try done. split; [done|]. intros (st' & [= <-] & Hnil). by rewrite Hr in Hnil.
    - bind_inv Hp as b Hb. bind_inv Hp as c Hc. destruct c. injection Hp as <-. simpl.
      split_and!; try done; [split; [done|by intros (? & ? & _)]|destruct (upd_returning st); auto].
    - bind_inv Hp as b Hb. bind_inv Hp as c Hc. destruct c. injection Hp as <-. simpl.
      split_and!; try done; [split; [done|by intros (? & ? & _)]|destruct (del_returning st); auto]. }
  destruct Hshape as (Hst & Hval & Hm & Hsql & Hcard). split; [done|].
  unfold write_plan_materialize, write_fetch_limit, returns_rows. rewrite Hst, Hval.
  destruct (write_rows_ fuel q rows (wp_backend p) validate) as [os|e] eqn:Hrows.
  - pose proof (write_rows_length _ _ _ _ _ _ Hrows Hm) as Hl.
    destruct (wp_cardinality p) eqn:Hc.
    + destruct q as [|st| | |]; try by destruct Hcard. exists st. by destruct (ins_returning st), (ins_multi st).
    + done.
    + destruct os as [|o [|o' os]]; simpl in *.
      * split; [done|]. right. split; [done|]. split; [lia|done].
      * split; [lia|]. split; [done|]. destruct q as [|st| | |]; try by destruct Hcard. exists st. by destruct (ins_returning st), (ins_multi st).
      * split; [done|]. right. split; [done|]. split; [lia|done].
    + done.
  - destruct (wp_cardinality p) eqn:Hc; simpl; auto.
    destruct q as [|st| | |]; try by destruct Hcard. exists st. by destruct (ins_returning st), (ins_multi st).
Qed.
End plans.

(** ** Concrete instances *)

Section demo_plans.
Abbreviation demo_plan b q cardinality :=
  (compile_select_plan (demo b) id demo_int demo_float demo_decode (fun _ => Some true) 9
     (FetchSelect q) (SQLITE_QUERY_DIALECT plain_codec) cardinality true).
Abbreviation demo_materialize p rows :=
  (select_plan_materialize (demo BSqlite) id demo_int demo_float demo_decode (fun _ => Some true)
     demo_validate (fun _ _ => true) 9 p rows).

Definition demo_joined : select_query :=
  ok_or no_query (run_select (demo BSqlite) [ArgClass users] demo_calls).
Definition demo_row : list pyval := [PInt 1; PStr "ann"; PInt 1; PInt 5; PNone].

Lemma capped_consumption_exact_witness :
  match demo_plan BSqlite demo_joined COneOrNone with
  | Ok p => demo_materialize p (take 2 [demo_row; demo_row; demo_row]) =
            raise MultipleResultsError "fetch_one_or_none found more than one row"
  | Raise _ => False
  end.
Proof.
  destruct (demo_plan BSqlite demo_joined COneOrNone) as [p|e] eqn:Hp.
  - assert (Hc : sp_cardinality p = COneOrNone)
      by (vm_compute in Hp; injection Hp as <-; reflexivity).
    pose proof (capped_consumption_exact (demo BSqlite) id demo_int demo_float demo_decode
                  (fun _ => Some true) demo_validate (fun _ _ => true) 9 p
                  [demo_row; demo_row; demo_row] ltac:(rewrite Hc; discriminate)) as H.
    unfold select_fetch_limit in H. rewrite Hc in H. exact H.
  - vm_compute in Hp. discriminate.
Defined.

Lemma optional_read_unambiguous_witness :
  match demo_plan BSqlite demo_joined COneOrNone with
  | Ok p => match demo_materialize p [demo_row] with
            | Ok r => r <> None
            | Raise _ => False
            end
  | Raise _ => False
  end.
Proof.
  destruct (demo_plan BSqlite demo_joined COneOrNone) as [p|e] eqn:Hp.
  - destruct (demo_materialize p [demo_row]) as [r|e] eqn:Hr.
    + intros Hnone. discriminate (proj1 (proj1 (optional_read_unambiguous (demo BSqlite) id demo_int
        demo_float demo_decode (fun _ => Some true) demo_validate (fun _ _ => true) 9
        [ArgClass users] demo_calls demo_joined _ true p [demo_row] r eq_refl (demo_contracts BSqlite)
        Hp Hr)) Hnone).
    + vm_compute in Hp. injection Hp as <-. vm_compute in Hr. discriminate.
  - vm_compute in Hp. discriminate.
Defined.

(** [select(User).join(totals, ...).left_join(Order, ...)] *)
Definition demo_sources : list select_call :=
  [CallJoin INNER (ArgCte totals)
     (OnPredicate (ColumnComparisonPredicate (SCteOutput 0 totals) OpEq (SAttr user_id)));
   CallJoin LEFT (ArgClass orders) (OnReferences (SAttr order_user) (SAttr user_id))].
Definition demo_three : select_query :=
  ok_or no_query (run_select (demo BSqlite) [ArgClass users] demo_sources).
Abbreviation demo_three_row :=
  (materialize_row (demo BSqlite) id demo_int demo_float demo_decode (fun _ => Some true)
     demo_validate (fun _ _ => true) 9).

Lemma joined_read_exact_witness :
  match demo_plan BSqlite demo_three CMany with
  | Ok p => demo_three_row p [PInt 1; PStr "ann"; PInt 1; PInt 1; PNone; PNone; PNone] =
      Ok (FTuple [FRow users [("id", PInt 1); ("name?", PStr "ann")];
                  FResult 100 [("user_id", PInt 1)]; FValue PNone])
  | Raise _ => False
  end.
Proof.
  destruct (demo_plan BSqlite demo_three CMany) as [p|e] eqn:Hp.
  - destruct (joined_read_exact (demo BSqlite) id demo_int demo_float demo_decode
      (fun _ => Some true) demo_validate (fun _ _ => true) 9 [ArgClass users] demo_sources demo_three
      _ CMany true p eq_refl eq_refl Hp) as (j & Hj & H).
    vm_compute in Hj. injection Hj as <-.
    destruct (H [Some [PInt 1; PStr "ann"]; Some [PInt 1]; None]
                [[PInt 1; PStr "ann"]; [PInt 1; PInt 1]; [PNone; PNone; PNone]]) as [Hrow _].
    + repeat constructor; intros; discriminate.
    + vm_compute in Hp. injection Hp as <-. refine (Hrow _).
      repeat (constructor || (intros slot Hs; vm_compute in Hs; injection Hs as <-; reflexivity)).
  - vm_compute in Hp. discriminate.
Defined.

Lemma write_plan_result_witness :
  match compile_write_plan (demo BSqlite) (QDelete (DeleteState users true [] None false []))
          (SQLITE_QUERY_DIALECT plain_codec) true with
  | Ok p => wp_sql p <> None
  | Raise _ => False
  end.
Proof.
  destruct (compile_write_plan (demo BSqlite) (QDelete (DeleteState users true [] None false []))
              (SQLITE_QUERY_DIALECT plain_codec) true) as [p|e] eqn:Hp.
  - intros Hnone. destruct (proj1 (proj1 (write_plan_result (demo BSqlite) id demo_int demo_float
      demo_decode (fun _ => Some true) demo_validate (fun _ _ => true) 9 _ _ true p 0%Z [] Hp)) Hnone)
      as (st & Hst & _). discriminate Hst.
  - vm_compute in Hp. discriminate.
Defined.
End demo_plans.
