(* ===== verification/CompileFacts.v ===== *)
(** * Placeholders of a compiled statement

    Every compiled statement holds exactly one placeholder per bound
    parameter, as its driver reads the text, whatever the identifiers, labels
    and values are. *)

From S2P Require Export QueryCompile.

Section placeholders.
Context `{S : PlaceholderSyntax} (E : env) (d : query_dialect).
Context `{L : !LawfulDialect S d} (Hlit : lawful_literals S E).

(** The text holds one placeholder per parameter. *)
Definition good (c : compiled) : Prop := frag (length (snd c)) (fst c).
Definition goodR (r : res compiled) : Prop := forall c, r = Ok c -> good c.
Definition plainR (r : res string) : Prop := forall s, r = Ok s -> frag 0 s.

Lemma goodR_bind {A} (r : res A) f :
  (forall a, r = Ok a -> goodR (f a)) -> goodR (r ≫= f).
Proof. intros H c Hc. bind_inv Hc as a Ha. by eapply H. Qed.

Lemma plainR_bind {A} (r : res A) f :
  (forall a, r = Ok a -> plainR (f a)) -> plainR (r ≫= f).
Proof. intros H c Hc. bind_inv Hc as a Ha. by eapply H. Qed.

Lemma goodR_pair (r : res compiled) (f : string -> list pyval -> res compiled) :
  goodR r -> (forall s ps, frag (length ps) s -> goodR (f s ps)) ->
  goodR ('(s, ps) ← r; f s ps).
Proof. intros Hr Hf. apply goodR_bind. intros [s ps] H. apply Hf. exact (Hr _ H). Qed.

Lemma goodR_plain (r : res string) (f : string -> res compiled) :
  plainR r -> (forall s, frag 0 s -> goodR (f s)) -> goodR (s ← r; f s).
Proof. intros Hr Hf. apply goodR_bind. intros s Hs. by apply Hf, Hr. Qed.

Lemma goodR_raise c m : goodR (raise c m).
Proof. intros x H. discriminate. Qed.

Lemma goodR_Ok sql ps : frag (length ps) sql -> goodR (Ok (sql, ps)).
Proof. intros H c [= <-]. exact H. Qed.

Lemma plainR_Ok s : frag 0 s -> plainR (Ok s).
Proof. intros H c [= <-]. exact H. Qed.

(** Quoted identifiers and placeholders, and arithmetic on counts. *)
Ltac frag_len := rewrite ?length_app; simpl; lia.
Ltac frag_one :=
  match goal with
  | |- frag _ (quote_identifier _ _) => eapply frag_eq; [apply law_quote|]
  | |- frag _ (placeholder _) => eapply frag_eq; [apply law_placeholder|]
  | |- frag _ (if ?b then _ else _) => destruct b
  | _ => frag_step
  end.
Ltac frags := repeat frag_one; try frag_len.

Lemma render_column_ref_plain q a : plainR (render_column_ref E d q a).
Proof.
  apply plainR_bind. intros n _. destruct (negb q); [apply plainR_Ok; frags|].
  apply plainR_bind. intros m _. apply plainR_bind. intros t _. apply plainR_Ok. frags.
Qed.

Lemma cte_output_sql_plain p r : plainR (cte_output_sql E d p r).
Proof.
  apply plainR_bind. intros slot _. apply plainR_bind. intros o _. apply plainR_Ok. frags.
Qed.

Lemma render_grouping_column_plain q s : plainR (render_grouping_column E d q s).
Proof.
  unfold render_grouping_column.
  destruct s; try apply cte_output_sql_plain;
    apply plainR_bind; intros a' _; apply render_column_ref_plain.
Qed.

Lemma render_aggregate_plain q f c : plainR (render_aggregate E d q f c).
Proof.
  destruct c as [c|]; simpl.
  - apply plainR_bind. intros s Hs%render_grouping_column_plain. apply plainR_Ok.
    destruct f; simpl; frags.
  - apply plainR_Ok. destruct f; simpl; frags.
Qed.

Lemma compile_source_sql_plain m sh : plainR (compile_source_sql E d m sh).
Proof.
  apply plainR_bind. intros t _. cbv zeta.
  destruct (cte_of E m) as [x|].
  - apply plainR_bind. intros def _. apply plainR_Ok. frags.
  - assert (Hname : plainR match alias_of E m with
        | Some (source, _) => physical_name ← require_model_table_name E source;
            Ok (quote_identifier d physical_name +:+ " AS " +:+ quote_identifier d t)
        | None => Ok (quote_identifier d t) end).
    { destruct (alias_of E m) as [[source r]|].
      - apply plainR_bind. intros n _. apply plainR_Ok. frags.
      - apply plainR_Ok. frags. }
    destruct sh as [sh|]; [|exact Hname]. simpl.
    destruct (shape_presence_name sh) as [marker|]; [|exact Hname].
    apply plainR_bind. intros n _. apply plainR_Ok.
    assert (frag 0 (join ", " (map (quote_identifier d) (column_names sh)))).
    { apply frag_join_0; [plain_text|]. apply Forall_map, Forall_forall. intros. apply law_quote. }
    frags.
Qed.

Lemma integer_literal_good f z : goodR (integer_literal_compile E d f z).
Proof.
  apply goodR_bind. intros owner Ho. apply goodR_Ok. simpl.
  unfold query_dialect_for_backend in Ho. destruct (env_dialects E f) eqn:Hd; [|done].
  injection Ho as ->. destruct (integer_literal_sql owner) eqn:Hf; [|apply law_placeholder].
  eapply Hlit; [exact Hd|exact Hf|apply law_placeholder].
Qed.

(** Lists of compiled pieces. *)
Lemma frag_join_parts sep ps :
  frag 0 sep -> Forall good ps -> frag (length (concat (map snd ps))) (join sep (map fst ps)).
Proof.
  intros Hsep H. eapply frag_eq; [apply (frag_join sep (map (fun p => length (snd p)) ps)); [done|]|].
  - induction H; simpl; by constructor.
  - clear. induction ps; simpl; rewrite ?length_app; congruence.
Qed.

Lemma mapR_good {A} (f : A -> res compiled) l r :
  Forall (fun x => goodR (f x)) l -> mapR f l = Ok r -> Forall good r.
Proof.
  rewrite mapR_Ok. intros H Hr. induction Hr as [|x y l r Hx _ IH]; [constructor|].
  inversion H; subst. constructor; [by eauto|by apply IH].
Qed.

Lemma mapR_plain {A} (f : A -> res string) l r :
  Forall (fun x => plainR (f x)) l -> mapR f l = Ok r -> Forall (frag 0) r.
Proof.
  rewrite mapR_Ok. intros H Hr. induction Hr as [|x y l r Hx _ IH]; [constructor|].
  inversion H; subst. constructor; [by eauto|by apply IH].
Qed.

Lemma conjoin_good ps : Forall good ps -> good (conjoin ps).
Proof.
  intros H. unfold good, conjoin. simpl.
  pose proof (frag_join_parts " AND " (map (fun p => ("(" +:+ fst p +:+ ")", snd p)) ps)) as Hj.
  rewrite !map_map in Hj. simpl in Hj. apply Hj; [plain_text|].
  apply Forall_map. eapply Forall_impl; [exact H|]. unfold good. simpl. intros [s p] Hs. simpl in *.
  frags.
Qed.

Lemma with_clause_good render defs main :
  (forall x, goodR (render x)) -> good main -> goodR (with_clause E d render defs main).
Proof.
  intros Hr Hm. unfold with_clause. destruct defs as [|d0 defs]; [by intros c [= <-]|].
  apply goodR_bind. intros parts Hparts. apply goodR_bind. intros ds _. apply goodR_Ok.
  apply mapR_good in Hparts.
  - apply (frag_join_parts ", ") in Hparts; [|plain_text]. unfold good in Hm.
    destruct (existsb _ ds); frags.
  - apply Forall_forall. intros x _. apply goodR_bind. intros def _.
    apply goodR_pair; [apply Hr|]. intros s ps Hs. apply goodR_Ok. frags.
Qed.

Definition good_ctes (ctes : option (did -> res compiled)) : Prop :=
  match ctes with Some render => forall x, goodR (render x) | None => True end.

Lemma finish_subquery_good ctes sc st body :
  good_ctes ctes -> goodR body -> goodR (finish_subquery E d ctes sc st body).
Proof.
  intros Hc Hb. destruct ctes as [render|]; [|exact Hb].
  apply goodR_bind. intros defs _. apply goodR_bind. intros m Hm.
  apply with_clause_good; [exact Hc|by apply Hb].
Qed.

Lemma apply_operator_good op l r : good l -> goodR r -> goodR (apply_operator d op l r).
Proof.
  intros Hl Hr. unfold good in Hl. destruct op; simpl;
    try (apply goodR_pair; [exact Hr|]; intros s ps Hs; apply goodR_Ok; frags).
  - apply goodR_Ok. frags.
  - destruct (char_length_function d) as [f|] eqn:Hf; [|apply goodR_raise].
    apply law_char_length in Hf. apply goodR_Ok. frags.
Qed.

Lemma label_columns_good proj parts ps :
  Forall good ps -> label_columns d proj (map fst ps) = Ok parts ->
  Forall2 (fun n s => frag n s) (map (fun p => length (snd p)) ps) parts.
Proof.
  intros Hps H. destruct proj as [p|]; simpl in H.
  - bind_inv H as u Hu. injection H as <-. apply guardR_Ok in Hu. apply Nat.eqb_eq in Hu.
    revert Hu. generalize (np_labels p). induction Hps as [|[s q] ps Hs _ IH]; intros [|l ls] Hl;
      simpl in *; try done; constructor; [|apply IH; lia].
    unfold good in Hs. simpl in Hs. frags.
  - injection H as <-. induction Hps; simpl; by constructor.
Qed.

Lemma limit_offset_good l o :
  let '(parts, params) := compile_limit_offset_sql d l o in
  exists ns, Forall2 frag ns parts /\ sum_list ns = length params.
Proof.
  unfold compile_limit_offset_sql.
  assert (Hl : frag 1 ("LIMIT " +:+ placeholder d)) by frags.
  assert (Ho : frag 1 ("OFFSET " +:+ placeholder d)) by frags.
  pose proof law_offset. destruct l as [l|], o as [o|]; simpl.
  - exists [1; 1]. by repeat constructor.
  - exists [1]. by repeat constructor.
  - exists [0; 1]. by repeat constructor.
  - exists []. by repeat constructor.
Qed.

Lemma locking_plain st nested parts :
  compile_locking_clause E d st nested = Ok parts -> Forall (frag 0) parts.
Proof.
  unfold compile_locking_clause. destruct (st_lock st) as [w|]; [|intros [= <-]; constructor].
  destruct (for_update_sql d) as [f|] eqn:Hf; [|done]. intros H.
  bind_inv H as u Hu. bind_inv H as u1 Hu1. bind_inv H as u2 Hu2. injection H as <-.
  constructor; [|constructor]. by eapply law_for_update.
Qed.

Definition state_good (st : select_state) : Prop :=
  forall outer presence_name, goodR (compile_select_state E d outer presence_name st).
Definition pred_good (p : predicate) : Prop :=
  forall ctes sc, good_ctes ctes -> goodR (compile_predicate E d ctes sc p).
Definition sel_good (s : selectable) : Prop :=
  (forall sc, goodR (render_selectable E d sc s)) /\
  match s with SScalar (Some q) => state_good q | _ => True end.
Definition ve_good (e : value_expression) : Prop := forall sc, goodR (value_expression_sql E d sc e).
Definition root_good (r : ve_root) : Prop := forall sc, goodR (case_root_sql E d sc r).
Definition operand_good (o : ve_operand) : Prop :=
  forall sc, goodR (expression_operand_sql E d sc o).

(** The operand of a predicate, then the rest. *)
Lemma goodR_operand s sc f :
  sel_good s -> (forall sql ps, frag (length ps) sql -> goodR (f sql ps)) ->
  goodR ('(sql, ps) ← (_ ← require_selectable s; render_selectable E d sc s); f sql ps).
Proof.
  intros [Hs _] Hf. apply goodR_pair; [|exact Hf].
  apply goodR_bind. intros s' _. apply Hs.
Qed.

Lemma guard_good {A} b c m (f : unit -> res A) (P : res A -> Prop) :
  P (raise c m) -> P (f tt) -> P (_ ← guardR b c m; f tt).
Proof. by destruct b. Qed.

Lemma foldR_good {A} (f : compiled -> A -> res compiled) l c :
  good c -> Forall (fun x => forall c, good c -> goodR (f c x)) l -> goodR (foldR f c l).
Proof.
  intros Hc Hl r Hr.
  refine (foldR_ind good f l c r Hc _ Hr). intros a t t' Ha Ht Ht'.
  rewrite Forall_forall in Hl. exact (Hl a Ha t Ht t' Ht').
Qed.

Lemma subquery_good sc ctes q (check : select_state -> res select_state) :
  good_ctes ctes -> opt_all state_good q ->
  goodR match q with
        | None => subquery_error
        | Some q => _ ← check q;
                    finish_subquery E d ctes sc q (compile_select_state E d (Some sc) None q)
        end.
Proof.
  intros Hc Hq. destruct q as [q|]; [|apply goodR_raise].
  apply goodR_bind. intros st _. apply finish_subquery_good; [done|]. apply Hq.
Qed.

Lemma where_good head ps :
  frag 0 head -> Forall good ps -> good (head +:+ fst (conjoin ps), snd (conjoin ps)).
Proof.
  intros Hh Hps. pose proof (conjoin_good _ Hps) as Hc. unfold good in *. cbn [fst snd] in *. frags.
Qed.

Lemma predicates_good {A} head (b : bool) (l : list A) (f : A -> res compiled) :
  frag 0 head -> Forall (fun p => goodR (f p)) l -> forall r,
  (if b then ps ← mapR f l; Ok [(head +:+ fst (conjoin ps), snd (conjoin ps))] else Ok []) = Ok r ->
  Forall good r.
Proof.
  intros Hh Hl r H. destruct b; [|by injection H as <-].
  bind_inv H as ps Hps. injection H as <-. apply mapR_good in Hps; [|done].
  constructor; [by apply where_good|constructor].
Qed.

Lemma sum_list_app_nat l1 l2 : sum_list (l1 ++ l2) = sum_list l1 + sum_list l2.
Proof. induction l1 as [|x l IH]; simpl; [done|]. rewrite IH. lia. Qed.

Lemma sum_good_lengths (ps : list compiled) :
  sum_list (map (fun p => length (snd p)) ps) = length (concat (map snd ps)).
Proof. induction ps as [|p ps IH]; simpl; [done|]. by rewrite length_app, IH. Qed.

Lemma Forall2_good ps : Forall good ps -> Forall2 frag (map (fun p => length (snd p)) ps) (map fst ps).
Proof. induction 1; simpl; by constructor. Qed.

Lemma Forall2_plain ss : Forall (frag 0) ss -> Forall2 frag (replicate (length ss) 0) ss.
Proof. induction 1; simpl; by constructor. Qed.

Lemma sum_replicate_0 n : sum_list (replicate n 0) = 0.
Proof. by induction n. Qed.

(** The final assembly of a SELECT. *)
Lemma assemble_good (head : string) (hps : list pyval) clauses limit_parts limit_params lock_parts
    (ns : list nat) :
  frag (length hps) head -> Forall good clauses ->
  Forall2 frag ns limit_parts -> sum_list ns = length limit_params -> Forall (frag 0) lock_parts ->
  frag (length (hps ++ concat (map snd clauses) ++ limit_params))
    (join " " ([head] ++ map fst clauses ++ limit_parts ++ lock_parts)).
Proof.
  intros Hh Hc Hl Hns Hlock. eapply frag_eq.
  - apply (frag_join " " ([length hps] ++ map (fun p => length (snd p)) clauses ++ ns
                            ++ replicate (length lock_parts) 0)); [plain_text|].
    apply Forall2_app; [by repeat constructor|]. apply Forall2_app; [by apply Forall2_good|].
    apply Forall2_app; [done|by apply Forall2_plain].
  - rewrite !sum_list_app_nat, sum_good_lengths, Hns, sum_replicate_0, !length_app. simpl. lia.
Qed.

(** The clauses of one SELECT. *)
Lemma select_columns_good sc fs columns :
  Forall sel_good fs ->
  mapR (fun f => match f with
        | SScalar None => subquery_error
        | SScalar (Some q) =>
            _ ← require_single_column_subquery (Some q);
            '(sql, params) ← compile_select_state E d (Some sc) None q;
            Ok ("(" +:+ sql +:+ ")", params)
        | _ => render_selectable E d sc f
        end) fs = Ok columns -> Forall good columns.
Proof.
  intros Hfs H. eapply mapR_good; [|exact H]. eapply Forall_impl; [exact Hfs|].
  intros f [Hf Hq]. destruct f as [| |[q|]| | | | | |]; try apply Hf; [|apply goodR_raise].
  apply goodR_bind. intros st _. apply goodR_pair; [apply Hq|]. intros s ps Hs. apply goodR_Ok. frags.
Qed.

Lemma select_source_good m sh cmp table params :
  opt_all (fun c => state_good (cmp_left c) /\ state_good (cmp_right c)) cmp ->
  match cmp with
  | None => t ← compile_source_sql E d m sh; Ok (t, [])
  | Some (CompoundSpec first second operator) =>
      '(left_sql, left_params) ← compile_select_state E d None None first;
      '(right_sql, right_params) ← compile_select_state E d None None second;
      alias ← require_model_table_name E m;
      Ok ("(" +:+ left_sql +:+ " " +:+ set_operator_sql operator +:+ " " +:+ right_sql
            +:+ ") AS " +:+ quote_identifier d alias,
          left_params ++ right_params)
  end = Ok (table, params) -> frag (length params) table.
Proof.
  intros Hc H. destruct cmp as [[l r op]|].
  - destruct Hc as [Hl Hr]. refine ((_ : goodR _) (table, params) H).
    apply goodR_pair; [apply Hl|]. intros s ps Hs. apply goodR_pair; [apply Hr|].
    intros s' ps' Hs'. apply goodR_bind. intros a _. apply goodR_Ok. destruct op; simpl; frags.
  - bind_inv H as t Ht. injection H as <- <-. by apply compile_source_sql_plain in Ht.
Qed.

Lemma select_joins_good shapes own outer joins idx parts :
  Forall (fun j => pred_good (join_predicate j)) joins ->
  foldR (fun acc j =>
    match j with
    | JoinSpec m kind on =>
        let '(index, parts) := acc in
        join_table ← compile_source_sql E d m (shapes (index + 1));
        '(on_sql, on_params) ←
          compile_predicate E d None (ScopeResolver (take (index + 2) own) outer) on;
        Ok (index + 1,
            parts ++ [(join_type_sql kind +:+ " JOIN " +:+ join_table +:+ " ON " +:+ on_sql,
                       on_params)])
    end) (0, []) joins = Ok (idx, parts) -> Forall good parts.
Proof.
  intros Hj H. revert H.
  refine (foldR_ind (fun acc => Forall good (snd acc)) _ joins (0, []) (idx, parts) _ _);
    [constructor|]. intros [m kind on] [i ps] [i' ps'] Hin Hps Hstep. simpl in *.
  bind_inv Hstep as t Ht. bind_inv Hstep as o Ho. destruct o as [s q]. injection Hstep as <- <-.
  apply compile_source_sql_plain in Ht.
  rewrite Forall_forall in Hj. apply (Hj _ Hin None _ I) in Ho. unfold good in Ho. simpl in Ho.
  apply Forall_app; split; [done|]. constructor; [|constructor]. unfold good. simpl.
  destruct kind; simpl; frags.
Qed.

Lemma select_groups_good q grps (b : bool) parts :
  (if b then g ← compile_group_by_sql E d q grps; Ok [(g, [])] else Ok []) = Ok parts ->
  Forall good parts.
Proof.
  intros H. destruct b; [|by injection H as <-]. bind_inv H as g Hg. injection H as <-.
  bind_inv Hg as gs Hgs. injection Hg as <-. constructor; [|constructor]. unfold good. cbn [fst snd].
  apply mapR_plain in Hgs.
  - pose proof (frag_join_0 ", " gs ltac:(plain_text) Hgs). frags.
  - apply Forall_forall. intros s _. apply render_grouping_column_plain.
Qed.

Lemma select_having_good st sc hav (b : bool) parts :
  Forall pred_good hav ->
  (if b then
     _ ← iterR (ensure_having_targets E st sc) hav;
     ps ← mapR (compile_predicate E d None sc) hav;
     Ok [("HAVING " +:+ fst (conjoin ps), snd (conjoin ps))]
   else Ok []) = Ok parts -> Forall good parts.
Proof.
  intros Hh H. destruct b; [|by injection H as <-]. bind_inv H as u Hu.
  apply (predicates_good "HAVING " true hav (compile_predicate E d None sc)) in H; [done|plain_text|].
  eapply Forall_impl; [exact Hh|]. intros p Hp. by apply Hp.
Qed.

Lemma direction_plain sc o u :
  ensure_ordering_targets_models E sc o = Ok u -> frag 0 (ob_direction o).
Proof.
  unfold ensure_ordering_targets_models. destruct (ob_column o); [|done]. intros H.
  bind_inv H as u1 Hu1. apply guardR_Ok, bool_decide_eq_true in Hu1.
  destruct Hu1 as [-> | ->]; plain_text.
Qed.

Lemma select_order_good sc ords (b : bool) parts :
  Forall (fun o => opt_all sel_good (ob_column o)) ords ->
  (if b then
     os ← mapR (fun o =>
       match o with
       | OrderBy (Some column) direction =>
           _ ← ensure_ordering_targets_models E sc o;
           '(sql, params) ← render_selectable E d sc column;
           _ ← guardR (negb (nonempty params)) QueryCompilationError
             "dialect expressions with bound values cannot be used for ordering";
           Ok (sql +:+ " " +:+ direction)
       | OrderBy None _ => _ ← ensure_ordering_targets_models E sc o; Ok ""
       end) ords;
     Ok [("ORDER BY " +:+ join ", " os, [])]
   else Ok []) = Ok parts -> Forall good parts.
Proof.
  intros Ho H. destruct b; [|by injection H as <-]. bind_inv H as os Hos. injection H as <-.
  constructor; [|constructor]. unfold good. cbn [fst snd]. apply mapR_plain in Hos.
  - pose proof (frag_join_0 ", " os ltac:(plain_text) Hos). frags.
  - eapply Forall_impl; [exact Ho|]. intros [[c|] dir] Hc; simpl in Hc.
    + apply plainR_bind. intros u Hu%direction_plain. simpl in Hu.
      apply plainR_bind. intros [s ps] Hs. apply (proj1 Hc) in Hs. unfold good in Hs. simpl in Hs.
      apply plainR_bind. intros u2 Hu2. apply guardR_Ok in Hu2. destruct ps; [|done].
      apply plainR_Ok. frags.
    + apply plainR_bind. intros u _. apply plainR_Ok. apply frag_nil.
Qed.

Lemma frag_select_list labelled (columns : list compiled) pn :
  Forall2 (fun n s => frag n s) (map (fun p => length (snd p)) columns) labelled ->
  frag (length (concat (map snd columns)))
    (join ", " (labelled ++ match pn with
                            | Some n => ["1 AS " +:+ quote_identifier d n]
                            | None => []
                            end)).
Proof.
  intros H. eapply frag_eq.
  - eapply frag_join; [plain_text|]. apply Forall2_app; [exact H|].
    instantiate (1 := match pn with Some _ => [0] | None => [] end).
    destruct pn; repeat constructor. frags.
  - rewrite sum_list_app_nat, sum_good_lengths. destruct pn; simpl; lia.
Qed.

(** One SELECT, from its parts. *)
Lemma select_state_good m fs proj rm dist lock preds grps hav ords lim off joins cmp :
  Forall sel_good fs -> Forall pred_good preds -> Forall pred_good hav ->
  Forall (fun o => opt_all sel_good (ob_column o)) ords ->
  Forall (fun j => pred_good (join_predicate j)) joins ->
  opt_all (fun c => state_good (cmp_left c) /\ state_good (cmp_right c)) cmp ->
  state_good (SelectState m fs proj rm dist lock preds grps hav ords lim off joins cmp).
Proof.
  intros Hfs Hpreds Hhav Hords Hjoins Hcmp outer pn c H.
  change (select_statement E d (fun o q => compile_select_state E d o None q)
            (compile_predicate E d None) (render_selectable E d) outer pn
            (SelectState m fs proj rm dist lock preds grps hav ords lim off joins cmp) = Ok c) in H.
  unfold select_statement in H.
  bind_inv H as jshape Hshape. cbv zeta in H. bind_inv H as sc Hsc. bind_inv H as u1 Hu1.
  bind_inv H as u2 Hu2. bind_inv H as u3 Hu3. bind_inv H as columns Hcolumns.
  bind_inv H as labelled Hlab. bind_inv H as src Hsrc. destruct src as [table sparams].
  bind_inv H as js Hjs. destruct js as [idx join_parts].
  bind_inv H as where_parts Hwhere. bind_inv H as group_parts Hgroup.
  bind_inv H as having_parts Hhaving. bind_inv H as order_parts Horder.
  pose proof (limit_offset_good lim off) as Hlim.
  destruct (compile_limit_offset_sql d lim off) as [limit_parts limit_params].
  destruct Hlim as (ns & Hns & Hsum). bind_inv H as lock_parts Hlock. injection H as <-.
  assert (Hcols : Forall good columns) by exact (select_columns_good _ _ _ Hfs Hcolumns).
  assert (Htable : frag (length sparams) table) by exact (select_source_good _ _ _ _ _ Hcmp Hsrc).
  assert (Hj : Forall good join_parts) by exact (select_joins_good
    (fun i => j ← jshape; sp ← joined_spans j !! i; Some (span_shape sp)) _ _ _ _ _ Hjoins Hjs).
  apply (label_columns_good proj) in Hlab; [|done].
  apply predicates_good in Hwhere;
    [|plain_text|eapply Forall_impl; [exact Hpreds|]; intros p Hp; by apply Hp].
  assert (Hg : Forall good group_parts) by exact (select_groups_good _ _ _ _ Hgroup).
  assert (Hh : Forall good having_parts) by exact (select_having_good _ _ _ _ _ Hhav Hhaving).
  assert (Ho : Forall good order_parts) by exact (select_order_good _ _ _ _ Hords Horder).
  apply locking_plain in Hlock.
  unfold good. cbn [fst snd]. rewrite (app_assoc (concat (map snd columns))).
  apply (assemble_good _ _ _ _ _ _ ns); [|by rewrite !Forall_app|done|done|done].
  pose proof (frag_select_list labelled columns pn Hlab) as Hq.
  rewrite length_app. destruct dist; frags.
Qed.

(** A predicate whose right part appends parameters to the operand's. *)
Lemma compare_good ctes sc s other op :
  good_ctes ctes -> sel_good s -> sel_good other ->
  goodR (compile_predicate E d ctes sc (ColumnComparisonPredicate s op other)).
Proof.
  intros Hc Hs Ho.
  change (goodR (_ ← ensure_comparable E s (comparable_operand other);
    '(rendered, rendered_params) ← (_ ← require_selectable s; render_selectable E d sc s);
    '(other_sql, other_params) ←
        comparison_other E
          (fun q => finish_subquery E d ctes sc q (compile_select_state E d (Some sc) None q))
          (render_selectable E d sc) sc other;
    Ok (rendered +:+ " " +:+ comparison_sql_operator op +:+ " " +:+ other_sql,
          rendered_params ++ other_params))).
  apply goodR_bind. intros u _. apply goodR_operand; [done|]. intros sql ps Hsql.
  apply goodR_pair.
  - destruct Ho as [Hr Hq]. unfold comparison_other.
    destruct other as [| |[q|]| | | | | |];
      try (apply goodR_bind; intros s1 _; apply goodR_bind; intros u1 _; apply Hr);
      [|apply goodR_raise].
    apply goodR_bind. intros st _. apply goodR_pair; [by apply finish_subquery_good|].
    intros s' ps' Hs'. apply goodR_Ok. frags.
  - intros s' ps' Hs'. apply goodR_Ok. destruct op; simpl; frags.
Qed.

Lemma membership_good ctes sc s vs n :
  sel_good s -> goodR (compile_predicate E d ctes sc (MembershipPredicate s vs n)).
Proof.
  intros Hs. cbn [compile_predicate].
  apply goodR_bind. intros u _. apply goodR_bind. intros u1 _.
  apply goodR_operand; [done|]. intros sql ps Hsql.
  apply goodR_bind. intros enc _. apply goodR_bind. intros evs Hevs. apply goodR_Ok.
  apply mapR_length in Hevs.
  assert (frag (length vs) (join ", " (replicate (length vs) (placeholder d)))).
  { apply frag_join_replicate; [plain_text|apply law_placeholder]. }
  destruct n; frags.
Qed.

(** The predicates that compare one operand with values. *)
Lemma value_predicates_good ctes sc s : sel_good s ->
  (forall op v, goodR (compile_predicate E d ctes sc (ComparisonPredicate s op v))) /\
  (forall n, goodR (compile_predicate E d ctes sc (NullPredicate s n))) /\
  (forall l h, goodR (compile_predicate E d ctes sc (BetweenPredicate s l h))) /\
  (forall p n, goodR (compile_predicate E d ctes sc (LikePredicate s p n))).
Proof.
  intros Hs. split; [|split; [|split]]; [intros op v|intros n|intros l h|intros p n];
    cbn [compile_predicate].
  2: { apply goodR_operand; [done|]. intros sql ps Hsql. apply goodR_Ok. destruct n; frags. }
  all: apply goodR_bind; intros u _; apply goodR_operand; [done|]; intros sql ps Hsql;
    apply goodR_bind; intros enc _; apply goodR_bind; intros v' _.
  - apply goodR_Ok. destruct op; simpl; frags.
  - apply goodR_bind. intros v'' _. apply goodR_Ok. frags.
  - apply goodR_Ok. destruct n; frags.
Qed.

Lemma ast_good : (forall s, sel_good s) /\ (forall e, ve_good e) /\ (forall o, operand_good o) /\
  (forall p, pred_good p) /\ (forall q, state_good q).
Proof.
  apply (ast_all sel_good ve_good root_good operand_good pred_good state_good).
  - intros a. split; [|done]. intros sc. apply goodR_plain; [apply render_column_ref_plain|].
    intros s Hs. apply goodR_Ok. frags.
  - intros f c o _. split; [|done]. intros sc. apply goodR_plain; [apply render_aggregate_plain|].
    intros s Hs. apply goodR_Ok. frags.
  - intros q Hq. split; [intros sc; apply goodR_raise|]. by destruct q.
  - intros e He. split; [exact He|done].
  - intros p r. split; [|done]. intros sc. apply goodR_plain; [apply cte_output_sql_plain|].
    intros s Hs. apply goodR_Ok. frags.
  - intros f z. split; [|done]. intros sc. apply integer_literal_good.
  - intros m n. split; [|done]. intros sc. apply goodR_bind. intros s Hs. apply goodR_Ok.
    bind_inv Hs as t Ht. injection Hs as <-. frags.
  - intros r. split; [|done]. intros sc. apply goodR_bind. intros s Hs. apply goodR_Ok.
    bind_inv Hs as t Ht. bind_inv Hs as def Hdef. injection Hs as <-. frags.
  - split; [intros sc; apply goodR_raise|done].
  - intros c n t o ops Hc Hops sc. apply goodR_bind. intros start Hstart.
    apply foldR_good; [by apply (Hc sc)|]. eapply Forall_impl; [exact Hops|].
    intros [op x] Hx acc Hacc. apply apply_operator_good; [done|apply Hx].
  - intros s _ sc. apply goodR_plain; [apply render_grouping_column_plain|].
    intros t Ht. apply goodR_Ok. frags.
  - intros p cs o t Hp Ho Ht sc. cbn [case_root_sql].
    apply goodR_pair; [by apply Hp|]. intros s1 p1 H1. apply goodR_pair; [apply Ht|].
    intros s2 p2 H2. apply goodR_pair; [apply Ho|]. intros s3 p3 H3. apply goodR_Ok. frags.
  - intros v sc. apply goodR_Ok. frags.
  - intros e He. exact He.
  - intros s op v Hs ctes sc _. by apply value_predicates_good.
  - intros s n Hs ctes sc _. by apply value_predicates_good.
  - intros s vs n Hs ctes sc _. by apply membership_good.
  - intros s l h Hs ctes sc _. by apply value_predicates_good.
  - intros s p n Hs ctes sc _. by apply value_predicates_good.
  - intros s op s' Hs Hs' ctes sc Hc. by apply compare_good.
  - intros s q n Hs Hq ctes sc Hc. cbn [compile_predicate]. apply goodR_bind. intros u _.
    apply goodR_operand; [done|]. intros sql ps Hsql. apply goodR_pair.
    + by apply (subquery_good sc ctes q (fun q => require_single_column_subquery (Some q))).
    + intros s' ps' Hs'. apply goodR_Ok. destruct n; frags.
  - intros q n Hq ctes sc Hc. cbn [compile_predicate]. apply goodR_pair.
    + destruct q as [q|]; [|apply goodR_raise]. apply finish_subquery_good; [done|]. apply Hq.
    + intros s' ps' Hs'. apply goodR_Ok. destruct n; frags.
  - intros op cs Hcs ctes sc Hc. cbn [compile_predicate].
    destruct cs as [|c1 [|c2 [|]]]; try apply goodR_raise.
    inversion Hcs as [|? ? H1 Hcs2]; subst. inversion Hcs2 as [|? ? H2 _]; subst.
    apply goodR_pair; [by apply H1|]. intros s1 p1 Hs1. apply goodR_pair; [by apply H2|].
    intros s2 p2 Hs2. apply goodR_Ok. destruct op; frags.
  - intros c Hc ctes sc Hctes. cbn [compile_predicate]. apply goodR_pair; [by apply Hc|].
    intros s ps Hs. apply goodR_Ok. frags.
  - intros. by apply select_state_good.
Qed.

Lemma compile_select_state_good outer pn st : goodR (compile_select_state E d outer pn st).
Proof. apply ast_good. Qed.

Lemma render_definition_good x : goodR (render_definition E d x).
Proof.
  apply goodR_bind. intros def _. cbv zeta. apply goodR_pair; [apply compile_select_state_good|].
  intros body ps Hb. destruct (def_recursive_step def) as [step|]; [|by apply goodR_Ok].
  apply goodR_pair; [apply compile_select_state_good|]. intros mem ps' Hm. apply goodR_Ok. frags.
Qed.

Lemma compile_select_good st : goodR (compile_select_sql_for_dialect E d st).
Proof.
  apply goodR_bind. intros defs _. apply goodR_bind. intros main Hmain.
  apply with_clause_good; [apply render_definition_good|by eapply compile_select_state_good].
Qed.

(** ** Writes *)

Lemma write_predicates_good sc preds : goodR (compile_write_predicates E d sc preds).
Proof.
  apply goodR_bind. intros ps Hps. intros c [= <-]. apply conjoin_good.
  eapply mapR_good; [|exact Hps]. apply Forall_forall. intros p _. apply ast_good.
  exact render_definition_good.
Qed.

Lemma quoted_names_plain names : Forall (frag 0) (map (quote_identifier d) names).
Proof. apply Forall_map, Forall_forall. intros n _. apply law_quote. Qed.

Lemma returning_clause_plain m fs proj : plainR (returning_clause E d m fs proj).
Proof.
  apply plainR_bind. intros names _. cbv zeta. apply plainR_bind. intros parts Hparts.
  apply plainR_Ok. assert (H : Forall (frag 0) parts).
  { destruct proj as [p|]; [|by injection Hparts as <-; apply quoted_names_plain].
    bind_inv Hparts as u Hu. injection Hparts as <-. apply Forall_map.
    pose proof (quoted_names_plain names) as Hn. revert Hn.
    generalize (map (quote_identifier d) names), (np_labels p).
    induction l as [|x l IH]; intros [|y l'] Hn; simpl; try constructor.
    - inversion Hn; subst. simpl. frags.
    - inversion Hn; subst. by apply IH. }
  pose proof (frag_join_0 ", " parts ltac:(plain_text) H). frags.
Qed.

Lemma optional_returning_plain (b : bool) (check : res unit) m fs proj :
  plainR (if b then _ ← check; returning_clause E d m fs proj else Ok "").
Proof.
  destruct b; [|apply plainR_Ok, frag_nil]. apply plainR_bind. intros u _.
  apply returning_clause_plain.
Qed.

Lemma conflict_assignment_good sc a : goodR (conflict_assignment E d sc a).
Proof.
  apply goodR_bind. intros u _. apply goodR_bind. intros u1 _. apply goodR_bind. intros c _.
  apply goodR_plain; [apply render_column_ref_plain|]. intros n Hn.
  destruct (as_value a); [| |apply goodR_pair|apply goodR_pair].
  - apply goodR_bind. intros [s ps] H. bind_inv H as v' Hv. injection H as <- <-.
    apply goodR_Ok. frags.
  - apply goodR_bind. intros x H. discriminate.
  - apply goodR_Ok. apply law_inserted. exact Hn.
  - intros s ps Hs. apply goodR_Ok. frags.
  - apply goodR_bind. intros s Hs. apply goodR_Ok. by eapply law_timestamp.
  - intros s ps Hs. apply goodR_Ok. frags.
Qed.

Lemma update_assignment_good sc a : goodR (update_assignment E d sc a).
Proof.
  apply goodR_bind. intros u _. apply goodR_bind. intros c _.
  apply goodR_plain; [apply render_column_ref_plain|]. intros n Hn. apply goodR_pair.
  - destruct (as_value a).
    + apply goodR_bind. intros v' _. apply goodR_Ok. apply law_placeholder.
    + apply ast_good.
    + apply goodR_raise.
    + apply goodR_bind. intros s Hs. apply goodR_Ok. by eapply law_timestamp.
  - intros s ps Hs. apply goodR_Ok. frags.
Qed.

Lemma conflict_good st m : goodR (compile_insert_conflict_sql E d st m).
Proof.
  unfold compile_insert_conflict_sql. destruct (ins_conflict_action st) as [action|].
  2:{ apply goodR_Ok. apply frag_nil. }
  apply goodR_bind. intros targets Htargets.
  assert (Ht : Forall (frag 0) targets).
  { eapply mapR_plain; [|exact Htargets]. apply Forall_forall. intros. apply render_column_ref_plain. }
  destruct action as [assignments|].
  - apply goodR_bind. intros parts Hparts. apply goodR_Ok. apply law_conflict_update; [done|].
    apply frag_join_parts; [plain_text|]. eapply mapR_good; [|exact Hparts].
    apply Forall_forall. intros. apply conflict_assignment_good.
  - apply goodR_bind. intros u _. apply goodR_bind. intros s Hs. apply goodR_Ok.
    by eapply law_conflict_nothing.
Qed.

(** All rows bind as many values as there are names. *)
Lemma rows_length names (rows : list (list (string * pyval))) :
  Forall (fun r => map fst r = names) rows ->
  length (concat (map (map snd) rows)) = length rows * length names.
Proof.
  induction 1 as [|r rows Hr _ IH]; simpl; [done|].
  rewrite length_app, IH, length_map. rewrite <- Hr. by rewrite length_map.
Qed.

Lemma insert_good st : goodR (compile_insert_sql E d st).
Proof.
  unfold compile_insert_sql. destruct (insert_model st) as [m|]; [|apply goodR_raise].
  destruct (ins_rows st) as [|row rows]; [apply goodR_raise|].
  apply goodR_bind. intros encoded Henc. cbv zeta.
  apply goodR_bind. intros u Hu. apply guardR_Ok in Hu.
  apply goodR_bind. intros t _. apply goodR_plain.
  { destruct (ins_returning st); [apply returning_clause_plain|apply plainR_Ok, frag_nil]. }
  intros ret Hret. pose proof (law_quote (d := d) t) as Ht.
  destruct encoded as [|r0 encoded]; [by apply mapR_length in Henc|].
  assert (Hsame : Forall (fun r => map fst r = map fst r0) (r0 :: encoded)).
  { constructor; [done|]. simpl in Hu. rewrite forallb_forall in Hu.
    apply Forall_forall. intros r Hr%list_elem_of_In. by apply Hu, bool_decide_eq_true in Hr. }
  pose proof (rows_length _ _ Hsame) as Hlen.
  destruct (map fst r0) as [|n names] eqn:Hnames.
  { apply goodR_bind. intros u1 _. apply goodR_bind. intros u2 _. apply goodR_Ok.
    pose proof (law_empty_insert (d := d) _ Ht). frags. }
  apply goodR_pair; [apply conflict_good|]. intros conflict cps Hconf. apply goodR_Ok.
  assert (Hcols : frag 0 (join ", " (map (quote_identifier d) (n :: names))))
    by (apply frag_join_0; [plain_text|apply quoted_names_plain]).
  set (placeholders := "(" +:+ join ", " (replicate (length (n :: names)) (placeholder d)) +:+ ")").
  assert (Hrow : frag (length (n :: names)) placeholders).
  { assert (frag (length (n :: names)) (join ", " (replicate (length (n :: names)) (placeholder d))))
      by (apply frag_join_replicate; [plain_text|apply law_placeholder]).
    unfold placeholders. frags. }
  assert (Hvals : frag (length (r0 :: encoded) * length (n :: names))
                    (join ", " (replicate (length (r0 :: encoded)) placeholders))).
  { eapply frag_eq; [apply (frag_join ", " (replicate (length (r0 :: encoded)) (length (n :: names))));
      [plain_text|]|].
    - clear -Hrow. induction (length (r0 :: encoded)); simpl; by constructor.
    - clear. induction (length (r0 :: encoded)); simpl in *; lia. }
  rewrite length_app, Hlen. frags.
Qed.

Lemma where_part_good (b : bool) sc preds r :
  (if b then p ← compile_write_predicates E d sc preds; Ok (" WHERE " +:+ fst p, snd p)
   else Ok ("", [])) = Ok r -> good r.
Proof.
  intros H. destruct b; [|injection H as <-; apply frag_nil].
  bind_inv H as p Hp. injection H as <-. apply write_predicates_good in Hp.
  unfold good in *. cbn [fst snd]. frags.
Qed.

Lemma update_good st : goodR (compile_update_sql E d st).
Proof.
  apply goodR_bind. intros u _. apply goodR_bind. intros u1 _. apply goodR_bind. intros u2 _.
  apply goodR_bind. intros t _. cbv zeta. apply goodR_bind. intros parts Hparts.
  apply goodR_bind. intros w Hw%where_part_good. apply goodR_plain; [apply optional_returning_plain|].
  intros ret Hret. apply goodR_Ok. apply mapR_good in Hparts.
  - apply (frag_join_parts ", ") in Hparts; [|plain_text]. unfold good in Hw. frags.
  - apply Forall_forall. intros. apply update_assignment_good.
Qed.

Lemma delete_good st : goodR (compile_delete_sql E d st).
Proof.
  apply goodR_bind. intros u _. apply goodR_bind. intros t _. apply goodR_bind.
  intros w Hw%where_part_good. apply goodR_plain; [apply optional_returning_plain|].
  intros ret Hret. apply goodR_Ok. unfold good in Hw. frags.
Qed.

Lemma compile_write_good q : goodR (compile_write_sql_for_dialect E q d).
Proof.
  destruct q; [apply goodR_raise|apply insert_good|apply update_good|apply delete_good|apply goodR_raise].
Qed.
End placeholders.
