(* ===== verification/CompileProps.v ===== *)
(** * What a compiled statement guarantees

    The properties of [QueryCompile]: the driver's view of the text, the
    conditions on locking and unscoped writes, the layout of INSERT
    parameters, the meaning of UPDATE assignments. *)

From S2P Require Export CompileFacts.

(** The registry once both backend namespaces are imported. *)
Definition registered (E : env) (col_encode : codec) (finite_decimal : pyval -> bool) : Prop :=
  env_dialects E = query_dialects col_encode finite_decimal.

(** The number of parameters the backend's driver expects for a text: SQLite's
    tokenizer counts [?] outside quoted text and must end outside quotes; the
    MariaDB driver counts the [%s] conversions of a valid format string. *)
Definition driver_expects (b : backend) (sql : string) (n : nat) : Prop :=
  match b with
  | BSqlite => qmark_scan QOut sql = (n, QOut)
  | BMariadb => fmt_scan sql = Some n
  end.

Lemma compile_query_driver E col_encode fd q c :
  registered E col_encode fd -> compile_query_sql E q = Ok c ->
  driver_expects (cq_backend c) (cq_sql c) (length (cq_params c)).
Proof.
  intros HE H. unfold compile_query_sql in H.
  bind_inv H as m Hm. bind_inv H as b Hb. bind_inv H as d Hd. bind_inv H as r Hr.
  destruct r as [sql params]. injection H as <-. simpl.
  unfold query_dialect_for_backend in Hd. rewrite HE in Hd.
  assert (Hgen : forall (S : PlaceholderSyntax) (L : LawfulDialect S d),
            @frag S (length params) sql).
  { intros S L. pose proof (query_dialects_lawful_literals S E _ _ HE) as Hlit.
    destruct q; (exact (compile_write_good E d Hlit _ _ Hr)
                 || exact (compile_select_good E d Hlit _ _ Hr)). }
  destruct b; simpl in Hd; injection Hd as <-.
  - exact (Hgen qmark_syntax _).
  - exact (Hgen fmt_syntax _).
Qed.

(** C7: every compiled statement binds exactly its parameters.  Whatever the
    query (SELECT with joins, subqueries, CTEs and compounds, INSERT, UPDATE,
    DELETE) and whatever the table, column, label and alias names are, quotes,
    question marks and percent signs included, the driver finds as many
    placeholders in the text as there are bound parameters; and on MariaDB
    formatting the text with that many rendered arguments succeeds. *)
Theorem compiled_placeholders E col_encode finite_decimal q c
  (HE : registered E col_encode finite_decimal) (Hok : compile_query_sql E q = Ok c) :
  driver_expects (cq_backend c) (cq_sql c) (length (cq_params c)) /\
  (cq_backend c = BMariadb -> forall args, length args = length (cq_params c) ->
     is_Some (fmt_apply (cq_sql c) args)).
Proof.
  pose proof (compile_query_driver _ _ _ _ _ HE Hok) as H. split; [exact H|].
  intros Hb args Hargs. apply fmt_apply_total. rewrite Hb in H. simpl in H. by rewrite Hargs.
Qed.

(** an identifier is read back exactly.  The text that follows not being
    another quote, SQLite reads a quoted identifier as the identifier given,
    and so does MariaDB once the driver has formatted the statement. *)
Theorem quoted_identifier_round_trip identifier rest rest' args t
  (Hsqlite : ends_quote c_dquote rest)
  (Hfmt : fmt_apply rest' args = Some t) (Hmariadb : ends_quote c_backtick t) :
  unquote c_dquote (Sqlite.quote_identifier identifier +:+ rest) = Some (identifier, rest) /\
  exists sent, fmt_apply (Mariadb.quote_query_identifier identifier +:+ rest') args = Some sent /\
    unquote c_backtick sent = Some (identifier, t).
Proof.
  split.
  - unfold Sqlite.quote_identifier. rewrite !string_app_assoc. by apply unquote_double.
  - eexists. split; [apply fmt_apply_escaped; exact Hfmt|].
    unfold Mariadb.quote_identifier. rewrite !string_app_assoc. by apply unquote_double.
Qed.

(** ** Locking *)

Lemma select_statement_locking E d cs cp rs outer pn st c :
  select_statement E d cs cp rs outer pn st = Ok c ->
  exists parts, compile_locking_clause E d st (bool_decide (is_Some outer)) = Ok parts.
Proof.
  intros H. destruct st as [m fs proj rm dist lock preds grps hav ords lim off joins cmp].
  unfold select_statement in H.
  bind_inv H as v1 H1. cbv zeta in H. bind_inv H as v2 H2. bind_inv H as v3 H3. bind_inv H as v4 H4.
  bind_inv H as v5 H5. bind_inv H as v6 H6. bind_inv H as v7 H7. bind_inv H as v8 H8.
  destruct v8. bind_inv H as v9 H9. destruct v9. bind_inv H as v10 H10. bind_inv H as v11 H11.
  bind_inv H as v12 H12. bind_inv H as v13 H13.
  destruct (compile_limit_offset_sql d lim off) as [lp lps]. bind_inv H as parts Hp. eauto.
Qed.

Lemma compile_select_state_unfold E d outer pn st :
  compile_select_state E d outer pn st =
  select_statement E d (fun o q => compile_select_state E d o None q) (compile_predicate E d None)
    (render_selectable E d) outer pn st.
Proof. by destruct st. Qed.

(** row locks.  A compiled SELECT that locks rows is on a backend with
    FOR UPDATE, is not nested in another statement, reads one physical table
    (not a CTE), and is neither distinct, grouped, nor aggregated: every locked
    row is a row of that table. *)
Theorem locking_select_sound E d outer pn st c wait
  (Hok : compile_select_state E d outer pn st = Ok c) (Hlock : st_lock st = Some wait) :
  is_Some (for_update_sql d) /\ outer = None /\ is_cte E (st_model st) = false /\
  st_distinct st = false /\ st_joins st = [] /\ st_groupings st = [] /\ st_having st = [] /\
  has_aggregate st = false.
Proof.
  rewrite compile_select_state_unfold in Hok. apply select_statement_locking in Hok as [parts H].
  unfold compile_locking_clause in H. rewrite Hlock in H.
  destruct (for_update_sql d) as [f|]; [|done].
  bind_inv H as u Hu. bind_inv H as u1 Hu1. bind_inv H as u2 Hu2.
  apply guardR_Ok in Hu, Hu1, Hu2. apply negb_true_iff in Hu, Hu1, Hu2.
  rewrite !orb_false_iff in Hu2. destruct Hu2 as [[[[Hd Hj] Hg] Hh] Ha].
  apply bool_decide_eq_false in Hu1.
  assert (Hnil : forall A (l : list A), nonempty l = false -> l = []) by (by intros A []).
  repeat split; eauto. destruct outer; [by destruct Hu1|done].
Qed.

(** ** Unscoped writes *)

(** no accidental full-table write.  A compiled UPDATE assigns something,
    and a compiled UPDATE or DELETE without predicates was built with an
    explicit [all()]; one with predicates carries all of them, conjoined, in
    its WHERE clause. *)
Theorem writes_are_scoped (E : env) (d : query_dialect) :
  (forall st c, compile_update_sql E d st = Ok c ->
     upd_assignments st <> [] /\
     (upd_predicates st = [] -> upd_explicit_all st = true) /\
     (upd_predicates st <> [] -> exists pre w post,
        compile_write_predicates E d (ScopeResolver [upd_model st] []) (upd_predicates st) = Ok w /\
        fst c = pre +:+ " WHERE " +:+ fst w +:+ post)) /\
  (forall st c, compile_delete_sql E d st = Ok c ->
     (del_predicates st = [] -> del_explicit_all st = true) /\
     (del_predicates st <> [] -> exists pre w post,
        compile_write_predicates E d (ScopeResolver [del_model st] []) (del_predicates st) = Ok w /\
        fst c = pre +:+ " WHERE " +:+ fst w +:+ post)).
Proof.
  assert (Hne : forall A (l : list A), nonempty l = true <-> l <> []) by (by intros A []).
  split; intros st c H.
  - unfold compile_update_sql in H. bind_inv H as u Hu. bind_inv H as u1 Hu1.
    bind_inv H as u2 Hu2. bind_inv H as t Ht. cbv zeta in H. bind_inv H as parts Hp.
    bind_inv H as w Hw. bind_inv H as ret Hret. injection H as <-.
    apply guardR_Ok, Hne in Hu. apply guardR_Ok, orb_true_iff in Hu1.
    split; [done|split].
    + intros Hnil. rewrite Hnil in Hu1. by destruct Hu1.
    + intros Hpred%Hne. rewrite Hpred in Hw. bind_inv Hw as p Hp'. injection Hw as <-.
      exists ("UPDATE " +:+ quote_identifier d t +:+ " SET " +:+ join ", " (map fst parts)), p, ret.
      split; [done|]. cbn [fst]. by autorewrite with pystr.
  - unfold compile_delete_sql in H. bind_inv H as u1 Hu1. bind_inv H as t Ht.
    bind_inv H as w Hw. bind_inv H as ret Hret. injection H as <-.
    apply guardR_Ok, orb_true_iff in Hu1. split.
    + intros Hnil. rewrite Hnil in Hu1. by destruct Hu1.
    + intros Hpred%Hne. rewrite Hpred in Hw. bind_inv Hw as p Hp'. injection Hw as <-.
      exists ("DELETE FROM " +:+ quote_identifier d t), p, ret.
      split; [done|]. cbn [fst]. by autorewrite with pystr.
Qed.

(** ** INSERT parameters *)

(** The values of a row for the columns it sets, in declaration order. *)
Definition row_values (row : model_row) (columns : list (string * attr))
    : list (string * attr * pyval) :=
  omap (fun c => match assoc (fst c) (row_attrs row) with
                 | Some (Some v) => Some (c, v)
                 | _ => None
                 end) columns.

Lemma encode_row_fold (d : query_dialect) row columns acc r :
  foldR (fun acc c =>
    match assoc (fst c) (row_attrs row) with
    | None => raise OtherError "AttributeError"
    | Some None => Ok acc
    | Some (Some value) => v ← encode_write_value d (snd c) value; Ok (acc ++ [(fst c, v)])
    end) acc columns = Ok r ->
  exists r', r = acc ++ r' /\
    Forall2 (fun x y => fst y = fst (fst x) /\
                        encode_write_value d (snd (fst x)) (snd x) = Ok (snd y))
      (row_values row columns) r'.
Proof.
  revert acc. induction columns as [|c columns IH]; intros acc H.
  - injection H as <-. exists []. by rewrite app_nil_r.
  - rewrite foldR_cons in H. bind_inv H as acc' Hacc. apply IH in H as (r' & -> & Hr).
    simpl. destruct (assoc (fst c) (row_attrs row)) as [[v|]|]; [|by injection Hacc as <-; eauto|done].
    bind_inv Hacc as v' Hv'. injection Hacc as <-. exists ((fst c, v') :: r').
    split; [by rewrite <- app_assoc|]. by constructor.
Qed.

(** INSERT parameters line up with the column list.  A compiled INSERT
    lists the columns the first row sets, in declaration order; every row sets
    exactly those columns; and the parameters are, row after row and column
    after column, the codec's encoding of that row's value for that column,
    followed by the parameters of the conflict action. *)
Theorem insert_parameters E d st c
  (Hok : compile_insert_sql E d st = Ok c) :
  exists model columns names conflict,
    insert_model st = Some model /\ require_model_columns E model = Ok columns /\
    Forall (fun row => row_class row = model /\
              map (fun x => fst (fst x)) (row_values row columns) = names) (ins_rows st) /\
    exists encoded, snd c = concat encoded ++ conflict /\
      Forall2 (fun row values =>
        Forall2 (fun x v => encode_write_value d (snd (fst x)) (snd x) = Ok v)
          (row_values row columns) values) (ins_rows st) encoded.
Proof.
  unfold compile_insert_sql in Hok. destruct (insert_model st) as [m|] eqn:Hm; [|done].
  destruct (ins_rows st) as [|row0 rows] eqn:Hrows; [done|].
  bind_inv Hok as enc Henc. cbv zeta in Hok. bind_inv Hok as u Hu.
  bind_inv Hok as t Ht. bind_inv Hok as ret Hret. apply guardR_Ok in Hu.
  assert (Hcols : exists columns, require_model_columns E m = Ok columns).
  { rewrite mapR_cons in Henc. bind_inv Henc as e0 He0. unfold encode_insert_row in He0.
    bind_inv He0 as m' Hm'. bind_inv He0 as u1 Hu1. bind_inv He0 as cols Hcols. eauto. }
  destruct Hcols as [columns Hcols].
  assert (Hrow : forall row e, encode_insert_row E d m row = Ok e -> row_class row = m /\
            Forall2 (fun x y => fst y = fst (fst x) /\
                       encode_write_value d (snd (fst x)) (snd x) = Ok (snd y))
              (row_values row columns) e).
  { intros row e He. unfold encode_insert_row in He. bind_inv He as m' Hm'. bind_inv He as u1 Hu1.
    rewrite Hcols in He. simpl in He. apply encode_row_fold in He as (e' & -> & He).
    split; [|exact He]. apply guardR_Ok, Pos.eqb_eq in Hu1.
    unfold require_insert_model in Hm'. destruct (negb (row_is_model row)); [done|].
    destruct (negb _); [done|]. injection Hm' as <-. exact Hu1. }
  apply mapR_Ok in Henc.
  assert (Hall : Forall (fun e => map fst e = match enc with r :: _ => map fst r | [] => [] end) enc).
  { destruct enc as [|e0 enc]; constructor; [done|]. simpl in Hu. rewrite forallb_forall in Hu.
    apply Forall_forall. intros e He%list_elem_of_In. by apply Hu, bool_decide_eq_true in He. }
  assert (Hparams : exists conflict, snd c = concat (map (map snd) enc) ++ conflict).
  { destruct (match enc with r :: _ => map fst r | [] => [] end) as [|n names] eqn:Hn.
    - bind_inv Hok as u1 Hu1. bind_inv Hok as u2 Hu2. injection Hok as <-. exists []. simpl.
      rewrite app_nil_r. clear -Hall. induction Hall as [|e enc He _ IH]; [done|].
      simpl. rewrite <- IH. by destruct e.
    - bind_inv Hok as cf Hcf. destruct cf. injection Hok as <-. eauto. }
  destruct Hparams as [conflict Hparams].
  exists m, columns, (match enc with r :: _ => map fst r | [] => [] end), conflict.
  split; [done|split; [done|split]].
  - clear -Henc Hrow Hall. revert Hall.
    generalize (match enc with r :: _ => map fst r | [] => [] end). intros names Hall.
    induction Henc as [|row e rs es He _ IH]; constructor.
    + destruct (Hrow _ _ He) as [Hc Hv]. split; [done|]. inversion Hall; subst. clear -Hv.
      induction Hv as [|x y xs ys [Hxy _] _ IH]; simpl; [done|]. by rewrite IH, Hxy.
    + apply IH. by inversion Hall.
  - exists (map (map snd) enc). split; [done|]. clear -Henc Hrow.
    induction Henc as [|row e rs es He _ IH]; simpl; constructor; [|done].
    destruct (Hrow _ _ He) as [_ Hv]. clear -Hv.
    induction Hv as [|x y xs ys [_ Hxy] _ IH]; simpl; by constructor.
Qed.

(** ** What an UPDATE assigns

    Standard SQL evaluates every right-hand side on the row as it was; MariaDB
    evaluates assignments from left to right on the row as it becomes.
    [const] is the value of an assignment that is not an expression. *)

Section assignments.
Context {V : Type} (lit : pyval -> V) (bin : ve_operator -> V -> V -> option V) (un : ve_operator -> V -> V)
  (tau : predicate -> list (option V) -> bool) (const : assignment -> option V).

Definition row_state := selectable -> option V.

Definition assigned_value (row : row_state) (a : assignment) : option V :=
  match as_value a with
  | AvExpression e => eval_ve lit bin un row tau e
  | _ => const a
  end.

Definition store_column (row : row_state) (a : assignment) (v : option V) : row_state :=
  fun c => match as_column a with
           | Some s => if same_object s c then v else row c
           | None => row c
           end.

Definition simultaneous (row : row_state) (l : list assignment) : row_state :=
  foldl (fun r a => store_column r a (assigned_value row a)) row l.

Definition left_to_right (row : row_state) (l : list assignment) : row_state :=
  foldl (fun r a => store_column r a (assigned_value r a)) row l.

Definition assigns (a : assignment) (c : selectable) : Prop :=
  exists s, as_column a = Some s /\ same_object s c = true.

Lemma store_column_other row a v c : ~ assigns a c -> store_column row a v c = row c.
Proof.
  unfold store_column, assigns. intros H. destruct (as_column a) as [s|]; [|done].
  destruct (same_object s c) eqn:Hs; [|done]. destruct H. eauto.
Qed.

(** No expression reads a column that another assignment of [l] sets. *)
Definition independent (l : list assignment) : Prop :=
  forall a b e c, a ∈ l -> b ∈ l -> as_value a = AvExpression e -> c ∈ ve_referenced_columns e ->
    assigns b c -> as_id b = as_id a.

Lemma left_to_right_from row pre rest r r' :
  independent (pre ++ rest) -> NoDup (map as_id (pre ++ rest)) ->
  (forall c, r c = r' c) -> (forall c, (forall b, b ∈ pre -> ~ assigns b c) -> r c = row c) ->
  forall c, foldl (fun r a => store_column r a (assigned_value r a)) r rest c =
            foldl (fun r a => store_column r a (assigned_value row a)) r' rest c.
Proof.
  intros Hind Hnd. revert pre r r' Hind Hnd.
  induction rest as [|a rest IH]; intros pre r r' Hind Hnd Heq Hrow c; simpl; [apply Heq|].
  assert (Hval : assigned_value r a = assigned_value row a).
  { unfold assigned_value. destruct (as_value a) as [|e| |] eqn:Ha; try done.
    apply eval_ve_agree, Forall_forall. intros x Hx. apply Hrow. intros b Hb Hbx.
    assert (Hid : as_id b = as_id a) by (apply (Hind a b e x); [set_solver|set_solver|done|done|done]).
    rewrite map_app in Hnd. apply NoDup_app in Hnd as (_ & Hnd & _).
    apply (Hnd (as_id b)); [by apply list_elem_of_fmap_2|]. rewrite Hid. simpl. left. }
  rewrite Hval. apply (IH (pre ++ [a])).
  - by rewrite <- app_assoc.
  - by rewrite <- app_assoc.
  - intros x. unfold store_column. rewrite Heq. done.
  - intros x Hx. rewrite store_column_other by (apply Hx; set_solver). apply Hrow. set_solver.
Qed.
End assignments.

Lemma dependencies_independent l u :
  ensure_expression_assignment_dependencies l = Ok u -> independent l.
Proof.
  unfold ensure_expression_assignment_dependencies. intros H%guardR_Ok%negb_true_iff.
  intros a b e c Ha Hb He Hc (s & Hs & Hsame).
  destruct (decide (as_id b = as_id a)) as [|Hne]; [done|exfalso].
  assert (Hex : forall A (f : A -> bool) l x, existsb f l = false -> x ∈ l -> f x = false).
  { intros A f l' x Hl Hx. apply not_true_is_false. intros Hf.
    apply not_true_iff_false in Hl. apply Hl, existsb_exists. exists x.
    by rewrite <- list_elem_of_In. }
  pose proof (Hex _ _ _ _ H Ha) as H1. simpl in H1. rewrite He in H1.
  pose proof (Hex _ _ _ _ H1 Hc) as H2. simpl in H2.
  pose proof (Hex _ _ _ _ H2 Hb) as H3. simpl in H3. rewrite Hs, Hsame in H3. simpl in H3.
  apply negb_false_iff, Pos.eqb_eq in H3. done.
Qed.

(** C34: the order of SET assignments does not matter.  For a compiled UPDATE
    whose assignments are distinct objects, evaluating the right-hand sides from
    left to right on the changing row (MariaDB) gives the same row as
    evaluating them all on the original one (SQLite). *)
Theorem update_order_independent {V} (lit : pyval -> V) bin un tau const E d st c row
  (Hok : compile_update_sql E d st = Ok c) (Hdistinct : NoDup (map as_id (upd_assignments st))) :
  forall column,
    left_to_right lit bin un tau const row (upd_assignments st) column =
    simultaneous lit bin un tau const row (upd_assignments st) column.
Proof.
  unfold compile_update_sql in Hok. bind_inv Hok as u Hu. bind_inv Hok as u1 Hu1.
  bind_inv Hok as u2 Hu2. apply dependencies_independent in Hu2.
  intros column. apply (left_to_right_from lit bin un tau const row []); try done.
Qed.

(** The same assignment object listed twice passes the check, and then the two
    orders differ: [SET n = n + 1, n = n + 1]. *)
Definition increment : assignment :=
  Assignment 1 (Some (SAttr order_amount))
    (AvExpression (ValueExpression (VRColumn (SAttr order_amount)) false VtInt orders
                     [(VAdd, VOLit (PInt 1))])).
Definition lit_Z (v : pyval) : Z := match v with PInt z => z | _ => 0%Z end.

Theorem repeated_assignment_order_differs :
  is_ok (compile_update_sql (demo BSqlite) (SQLITE_QUERY_DIALECT plain_codec)
           (UpdateState orders [increment; increment] true [] None false [])) = true /\
  left_to_right lit_Z (fun _ x y => Some (x + y)%Z) (fun _ x => x) (fun _ _ => true) (fun _ => None)
    (fun _ => Some 0%Z) [increment; increment] (SAttr order_amount) = Some 2%Z /\
  simultaneous lit_Z (fun _ x y => Some (x + y)%Z) (fun _ x => x) (fun _ _ => true) (fun _ => None)
    (fun _ => Some 0%Z) [increment; increment] (SAttr order_amount) = Some 1%Z.
Proof. by vm_compute. Qed.

(** ** Concrete instances *)

(** [select(User.name?).where(User.name?.eq("x"))], on either backend. *)
Definition demo_select : select_state :=
  SelectState users [SAttr user_name; SAttr user_id] None false false None
    [ComparisonPredicate (SAttr user_name) OpEq (PStr "it's 100% ?");
     SubqueryMembershipPredicate (SAttr user_id)
       (Some (SelectState totals [SCteOutput 0 totals] None false false None [] [] [] [] None None [] None))
       true] [] [] [OrderBy (Some (SAttr user_id)) "ASC"] (Some 10%Z) None [] None.

Lemma compiled_placeholders_witness :
  match compile_query_sql (demo BMariadb) (QSelect demo_select) with
  | Ok c => driver_expects BMariadb (cq_sql c) 2 /\ is_Some (fmt_apply (cq_sql c) ["'a'"; "10"])
  | Raise _ => False
  end.
Proof.
  destruct (compile_query_sql (demo BMariadb) (QSelect demo_select)) as [c|e] eqn:Hc.
  - pose proof (compiled_placeholders (demo BMariadb) plain_codec (fun _ => false)
                  (QSelect demo_select) c eq_refl Hc) as H.
    vm_compute in Hc. injection Hc as <-. destruct H as [H1 H2].
    split; [exact H1|exact (H2 eq_refl ["'a'"; "10"] eq_refl)].
  - vm_compute in Hc. discriminate.
Defined.

Lemma quoted_identifier_round_trip_witness :
  unquote c_dquote (Sqlite.quote_identifier "a%b`?" +:+ " = ?") = Some ("a%b`?", " = ?") /\
  exists sent, fmt_apply (Mariadb.quote_query_identifier "a%b`?" +:+ " = %s") ["1"] = Some sent /\
    unquote c_backtick sent = Some ("a%b`?", " = 1").
Proof.
  apply (quoted_identifier_round_trip "a%b`?" " = ?" " = %s" ["1"] " = 1"); vm_compute; done.
Defined.

Definition locking_select : select_state :=
  SelectState users [SAttr user_id] None false false (Some LwNowait) [] [] [] [] None None [] None.

Lemma locking_select_sound_witness :
  is_cte (demo BMariadb) users = false /\ has_aggregate locking_select = false.
Proof.
  destruct (compile_select_state (demo BMariadb) (MARIADB_QUERY_DIALECT plain_codec (fun _ => false))
              None None locking_select) as [c|e] eqn:Hc.
  - destruct (locking_select_sound _ _ _ _ _ _ LwNowait Hc eq_refl) as (_ & _ & H & _ & _ & _ & _ & H').
    split; assumption.
  - vm_compute in Hc. discriminate.
Defined.

Definition demo_row (name : string) : model_row :=
  ModelRow true users "Pending" [("id", None); ("name?", Some (PStr name))].
Definition demo_insert : insert_state :=
  InsertState [demo_row "a"; demo_row "b"] None None [] None true [] true.

Lemma insert_parameters_witness :
  match compile_insert_sql (demo BSqlite) (SQLITE_QUERY_DIALECT plain_codec) demo_insert with
  | Ok c => exists conflict encoded, snd c = concat encoded ++ conflict /\ length encoded = 2
  | Raise _ => False
  end.
Proof.
  destruct (compile_insert_sql (demo BSqlite) (SQLITE_QUERY_DIALECT plain_codec) demo_insert)
    as [c|e] eqn:Hc.
  - destruct (insert_parameters _ _ _ _ Hc) as (m & cols & names & conflict & _ & _ & _ & enc & He & Hl).
    exists conflict, enc. split; [exact He|]. symmetry. exact (Forall2_length _ _ _ Hl).
  - vm_compute in Hc. discriminate.
Defined.

(** [SET bonus = bonus + amount, amount = 0] is refused; [SET bonus = bonus + 1,
    amount = 0] is accepted. *)
Definition demo_update : update_state :=
  UpdateState orders
    [ Assignment 1 (Some (SAttr order_bonus))
        (AvExpression (ValueExpression (VRColumn (SAttr order_bonus)) true VtInt orders
                         [(VAdd, VOLit (PInt 1))]));
      Assignment 2 (Some (SAttr order_amount)) (AvValue (PInt 0)) ]
    false [NullPredicate (SAttr order_bonus) true] None false [].

Lemma update_order_independent_witness :
  left_to_right lit_Z (fun _ x y => Some (x + y)%Z) (fun _ x => x) (fun _ _ => true) (fun _ => Some 0%Z)
    (fun _ => Some 5%Z) (upd_assignments demo_update) (SAttr order_bonus) =
  simultaneous lit_Z (fun _ x y => Some (x + y)%Z) (fun _ x => x) (fun _ _ => true) (fun _ => Some 0%Z)
    (fun _ => Some 5%Z) (upd_assignments demo_update) (SAttr order_bonus).
Proof.
  destruct (compile_update_sql (demo BSqlite) (SQLITE_QUERY_DIALECT plain_codec) demo_update)
    as [c|e] eqn:Hc.
  - apply (update_order_independent lit_Z _ _ _ _ _ _ demo_update c _ Hc).
    vm_compute. repeat constructor; set_solver.
  - vm_compute in Hc. discriminate.
Defined.
