(* ===== verification/PoolGate.v ===== *)
(** * The FIFO admission gate of the connection pools

    [FairAdmissionGate] of [_pool_gate.py].  The gate's own data is [gate]; its
    methods are functions on it.  Code between two [await]s under
    [async with self.condition] is one atomic turn, so the interleavings of any
    number of acquirers are the steps of a relation on [config]: the gate, the
    program point of every acquirer, the clock, and what the pool's
    [check_accepting_work] currently raises. *)

From S2P Require Export Prelude.
From Stdlib Require Import Sorting.Sorted.

Abbreviation tid := positive (only parsing).   (* one acquisition *)

(** ** The gate *)

Record gate := Gate {
  capacity : nat;
  admitted : nat;
  waiters : list nat;
  next_ticket : nat
}.

Definition new_gate (cap : nat) : gate := Gate cap 0 [] 0.

(** [deque.remove]: the first occurrence. *)
Fixpoint remove_first (t : nat) (l : list nat) : list nat :=
  match l with
  | [] => []
  | x :: l' => if decide (x = t) then l' else x :: remove_first t l'
  end.

Definition waiter_is_served_first (g : gate) (ticket : option nat) : bool :=
  match ticket with
  | None => bool_decide (waiters g = [])
  | Some t => match waiters g with [] => false | x :: _ => bool_decide (x = t) end
  end.

Definition enqueue_waiter (g : gate) (ticket : option nat) : nat * gate :=
  match ticket with
  | Some t => (t, g)
  | None => (next_ticket g,
             Gate (capacity g) (admitted g) (waiters g ++ [next_ticket g]) (S (next_ticket g)))
  end.

(** Without its [notify_all], which acts on the tasks. *)
Definition discard_waiter (g : gate) (t : nat) : gate :=
  Gate (capacity g) (admitted g)
    (if decide (t ∈ waiters g) then remove_first t (waiters g) else waiters g) (next_ticket g).

Definition pop_waiter (g : gate) (ticket : option nat) : gate :=
  match ticket with
  | None => g
  | Some _ => Gate (capacity g) (admitted g) (tail (waiters g)) (next_ticket g)
  end.

Definition take_slot (g : gate) : gate :=
  Gate (capacity g) (S (admitted g)) (waiters g) (next_ticket g).
Definition free_slot (g : gate) : gate :=
  Gate (capacity g) (admitted g - 1) (waiters g) (next_ticket g).

Definition pool_timeout : exn := Exn PoolTimeoutError "timed out acquiring database connection".

(** [_wait_for_release] up to [condition.wait()]: park, or time out at once. *)
Inductive waiting :=
  | Park
  | TimedOut (g : gate).
Definition wait_for_release (g : gate) (t : nat) (now deadline : Z) : waiting :=
  if (0 <? deadline - now)%Z then Park else TimedOut (discard_waiter g t).

(** One turn of the loop of [_admit] under the condition.  The boolean says
    whether [notify_all] ran. *)
Inductive turn :=
  | TurnAdmitted (g : gate) (notify : bool)
  | TurnParked (t : nat) (g : gate)
  | TurnRaised (e : exn) (ticket : option nat) (g : gate) (notify : bool).

Definition admit_turn (refusing : option exn) (now deadline : Z) (ticket : option nat) (g : gate)
    : turn :=
  match refusing with
  | Some e => TurnRaised e ticket g false
  | None =>
      if waiter_is_served_first g ticket && (admitted g <? capacity g) then
        let g := take_slot (pop_waiter g ticket) in
        TurnAdmitted g (admitted g <? capacity g)
      else
        let '(t, g) := enqueue_waiter g ticket in
        match wait_for_release g t now deadline with
        | Park => TurnParked t g
        | TimedOut g => TurnRaised pool_timeout (Some t) g true
        end
  end.

Record pool_stats := PoolStats {
  ps_capacity : nat; ps_occupied : nat; ps_waiters : nat }.
Definition snapshot (g : gate) : pool_stats :=
  PoolStats (capacity g) (admitted g) (length (waiters g)).

(** ** Acquirers

    The program points at which an acquirer can be suspended. *)

Inductive pc :=
  | Trying (ticket : option nat)        (* [checkpoint], or waiting for the lock *)
  | Parked (t : nat)                    (* in [condition.wait()] *)
  | Woken (t : nat)                     (* notified, the lock not yet reacquired *)
  | Dropping (t : nat) (e : exn)        (* in [finally], waiting for the lock *)
  | Holding                            (* holds a slot *)
  | Releasing                           (* in [release()], waiting for the lock *)
  | Released
  | Refused (e : exn).                  (* [admit] raised *)

Record task := Task { t_deadline : Z; t_pc : pc }.

Record config := Config {
  cfg_gate : gate;
  cfg_tasks : gmap tid task;
  cfg_clock : Z;
  cfg_refusing : option exn
}.

Definition wake (tk : task) : task :=
  match t_pc tk with Parked t => Task (t_deadline tk) (Woken t) | _ => tk end.

(** [condition.notify_all()] *)
Definition notify_all (tasks : gmap tid task) : gmap tid task := wake <$> tasks.
Definition notify_if (b : bool) (tasks : gmap tid task) : gmap tid task :=
  if b then notify_all tasks else tasks.

Definition after_raise (ticket : option nat) (e : exn) : pc :=
  match ticket with None => Refused e | Some t => Dropping t e end.

Definition cancelled : exn := Exn OtherError "CancelledError".

(** What a turn makes of the acquirer and of the gate. *)
Definition turn_pc (r : turn) : pc :=
  match r with
  | TurnAdmitted _ _ => Holding
  | TurnParked t _ => Parked t
  | TurnRaised e ticket _ _ => after_raise ticket e
  end.
Definition turn_gate (r : turn) : gate :=
  match r with TurnAdmitted g _ | TurnParked _ g | TurnRaised _ _ g _ => g end.
Definition turn_notify (r : turn) : bool :=
  match r with TurnAdmitted _ b => b | TurnParked _ _ => false | TurnRaised _ _ _ b => b end.

(** What an observer sees: an acquirer joining the queue, an acquirer admitted
    (with the ticket it waited under), anything else. *)
Inductive label := LQueued (i : tid) | LAdmitted (i : tid) (ticket : option nat) | LTau.

Definition turn_label (i : tid) (ticket : option nat) (r : turn) : label :=
  match r with
  | TurnAdmitted _ _ => LAdmitted i ticket
  | TurnParked _ _ => match ticket with None => LQueued i | Some _ => LTau end
  | TurnRaised _ _ _ _ => LTau
  end.

Inductive step : config -> label -> config -> Prop :=
  | StArrive g tasks now refusing i d :
      tasks !! i = None ->
      step (Config g tasks now refusing) LTau
        (Config g (<[i := Task d (Trying None)]> tasks) now refusing)
  | StTurn g tasks now refusing i d ticket :
      tasks !! i = Some (Task d (Trying ticket)) ->
      let r := admit_turn refusing now d ticket g in
      step (Config g tasks now refusing) (turn_label i ticket r)
        (Config (turn_gate r) (<[i := Task d (turn_pc r)]> (notify_if (turn_notify r) tasks))
           now refusing)
  | StCancelTrying g tasks now refusing i d ticket :
      tasks !! i = Some (Task d (Trying ticket)) ->
      step (Config g tasks now refusing) LTau
        (Config g (<[i := Task d (after_raise ticket cancelled)]> tasks) now refusing)
  | StResume g tasks now refusing i d t :
      tasks !! i = Some (Task d (Woken t)) ->
      step (Config g tasks now refusing) LTau
        (Config g (<[i := Task d (Trying (Some t))]> tasks) now refusing)
  | StWaitRaises g tasks now refusing i d t p e :
      (* [condition.wait()] raised: the deadline passed, or a cancellation *)
      tasks !! i = Some (Task d p) -> p = Parked t \/ p = Woken t ->
      e = pool_timeout /\ (d <= now)%Z \/ e = cancelled ->
      step (Config g tasks now refusing) LTau
        (Config (discard_waiter g t) (<[i := Task d (Dropping t e)]> (notify_all tasks))
           now refusing)
  | StDrop g tasks now refusing i d t e :
      tasks !! i = Some (Task d (Dropping t e)) ->
      step (Config g tasks now refusing) LTau
        (Config (discard_waiter g t) (<[i := Task d (Refused e)]> (notify_all tasks))
           now refusing)
  | StReleasing g tasks now refusing i d :
      (* the holder is done, or an exception reached [admit] after admission *)
      tasks !! i = Some (Task d Holding) ->
      step (Config g tasks now refusing) LTau
        (Config g (<[i := Task d Releasing]> tasks) now refusing)
  | StRelease g tasks now refusing i d :
      tasks !! i = Some (Task d Releasing) ->
      step (Config g tasks now refusing) LTau
        (Config (free_slot g) (<[i := Task d Released]> (notify_all tasks)) now refusing)
  | StClock g tasks now now' refusing :
      (now <= now')%Z ->
      step (Config g tasks now refusing) LTau (Config g tasks now' refusing)
  | StPoolState g tasks now refusing refusing' :
      (* the pool changes [closing]/[closed] under the lock and notifies *)
      (forall e, refusing' = Some e -> exn_class e <> PoolTimeoutError) ->
      step (Config g tasks now refusing) LTau (Config g (notify_all tasks) now refusing').

Definition init (cap : nat) (now : Z) : config := Config (new_gate cap) ∅ now None.

Inductive run : config -> list label -> config -> Prop :=
  | run_nil c : run c [] c
  | run_snoc c ls c' l c'' : run c ls c' -> step c' l c'' -> run c (ls ++ [l]) c''.

Definition reachable (cap : nat) (c : config) : Prop := exists now ls, run (init cap now) ls c.

(** The acquirers that joined the queue, in order, and those admitted out of
    it, in order. *)
Fixpoint queued_order (ls : list label) : list tid :=
  match ls with
  | [] => []
  | LQueued i :: ls' => i :: queued_order ls'
  | _ :: ls' => queued_order ls'
  end.
Fixpoint served_order (ls : list label) : list tid :=
  match ls with
  | [] => []
  | LAdmitted i (Some _) :: ls' => i :: served_order ls'
  | _ :: ls' => served_order ls'
  end.

(** ** Accounting *)

Definition ticket_of (p : pc) : option nat :=
  match p with
  | Trying ticket => ticket
  | Parked t | Woken t | Dropping t _ => Some t
  | _ => None
  end.
(** The ticket of an acquirer that still wants a slot. *)
Definition live_ticket (p : pc) : option nat :=
  match p with Dropping _ _ => None | _ => ticket_of p end.

Definition holds_slot (p : pc) : bool :=
  match p with Holding | Releasing => true | _ => false end.
Definition slots (tasks : gmap tid task) : nat :=
  count_map (fun tk => holds_slot (t_pc tk)) tasks.

Definition has_ticket (tasks : gmap tid task) (i : tid) (t : nat) : Prop :=
  exists tk, tasks !! i = Some tk /\ ticket_of (t_pc tk) = Some t.
Definition waits (tasks : gmap tid task) (i : tid) (t : nat) : Prop :=
  exists tk, tasks !! i = Some tk /\ live_ticket (t_pc tk) = Some t.
Definition parked (tasks : gmap tid task) (i : tid) (t : nat) : Prop :=
  exists d, tasks !! i = Some (Task d (Parked t)).

(** The queue and the acquirers agree. *)
Record tickets_ok (g : gate) (tasks : gmap tid task) : Prop := {
  tok_sorted : StronglySorted lt (waiters g);
  tok_below : forall i t, has_ticket tasks i t -> t < next_ticket g;
  tok_unique : forall i j t, has_ticket tasks i t -> has_ticket tasks j t -> i = j;
  tok_owned : forall t, t ∈ waiters g -> exists i, has_ticket tasks i t;
  tok_queued : forall i t, waits tasks i t -> t ∈ waiters g
}.

(** A timeout is only ever reported once the deadline has passed. *)
Definition timeouts_ok (now : Z) (tasks : gmap tid task) : Prop := forall i d p e,
  tasks !! i = Some (Task d p) -> exn_class e = PoolTimeoutError ->
  (p = Refused e \/ exists t, p = Dropping t e) -> (d <= now)%Z.

(** No acquirer is parked while the gate could serve it. *)
Definition awake (c : config) : Prop := forall i t, parked (cfg_tasks c) i t ->
  cfg_refusing c = None /\
  (admitted (cfg_gate c) < capacity (cfg_gate c) -> head (waiters (cfg_gate c)) <> Some t).

Record invariant (c : config) : Prop := {
  inv_tickets : tickets_ok (cfg_gate c) (cfg_tasks c);
  inv_slots : admitted (cfg_gate c) = slots (cfg_tasks c);
  inv_capacity : admitted (cfg_gate c) <= capacity (cfg_gate c);
  inv_awake : awake c;
  inv_timeouts : timeouts_ok (cfg_clock c) (cfg_tasks c);
  inv_refusal : forall e, cfg_refusing c = Some e -> exn_class e <> PoolTimeoutError
}.

(** ** Lemmas on the gate *)

Lemma remove_first_elem t l x : x ∈ remove_first t l -> x ∈ l.
Proof.
  induction l as [|y l IH]; simpl; [done|]. case_decide as Hd; [by right|].
  intros [->|H]%elem_of_cons; [left | right; auto].
Qed.

Lemma remove_first_other t l x : x <> t -> x ∈ l -> x ∈ remove_first t l.
Proof.
  intros Hne. induction l as [|y l IH]; simpl; [done|].
  intros [->|H]%elem_of_cons; case_decide as Hd; subst; [done|left|done|right; auto].
Qed.

Lemma remove_first_sorted t l : StronglySorted lt l -> StronglySorted lt (remove_first t l).
Proof.
  induction 1 as [|x l Hl IH Hx]; simpl; [constructor|].
  case_decide; [done|]. constructor; [done|].
  apply Forall_forall; intros y Hy%remove_first_elem. by eapply Forall_forall in Hx.
Qed.

Lemma sorted_not_removed t l : StronglySorted lt l -> t ∉ remove_first t l.
Proof.
  induction 1 as [|x l Hl IH Hx]; simpl; [apply not_elem_of_nil|].
  case_decide as Hd.
  - subst. intros H. eapply Forall_forall in Hx; [|done]. lia.
  - intros [->|H]%elem_of_cons; auto.
Qed.

Lemma remove_first_sublist t l : sublist (remove_first t l) l.
Proof.
  induction l as [|x l IH]; simpl; [done|].
  case_decide; [by apply sublist_cons | by apply sublist_skip].
Qed.

Lemma sorted_snoc l n : StronglySorted lt l -> (forall x, x ∈ l -> x < n) ->
  StronglySorted lt (l ++ [n]).
Proof.
  induction 1 as [|x l Hl IH Hx]; simpl; intros H; [repeat constructor|].
  constructor; [apply IH; intros; apply H; by right|].
  apply Forall_app; split; [done|]. constructor; [apply H; left | constructor].
Qed.

(** A discarded ticket leaves the queue and nothing else does. *)
Lemma discard_waiters g t : waiters (discard_waiter g t) = remove_first t (waiters g).
Proof.
  simpl. case_decide as H; [done|]. induction (waiters g) as [|x l IH]; simpl; [done|].
  case_decide; [subst; exfalso; apply H; left|]. f_equal. apply IH. intros ?; apply H; by right.
Qed.

Lemma pop_is_discard g t :
  waiter_is_served_first g (Some t) = true -> pop_waiter g (Some t) = discard_waiter g t.
Proof.
  intros H. unfold pop_waiter, discard_waiter. f_equal.
  unfold waiter_is_served_first in H. destruct (waiters g) as [|x l]; [done|].
  apply bool_decide_eq_true in H as ->.
  rewrite decide_True by left. simpl. by rewrite decide_True.
Qed.

(** ** Lemmas on the acquirers *)

Lemma ticket_wake tk : ticket_of (t_pc (wake tk)) = ticket_of (t_pc tk).
Proof. by destruct tk as [d []]. Qed.
Lemma live_wake tk : live_ticket (t_pc (wake tk)) = live_ticket (t_pc tk).
Proof. by destruct tk as [d []]. Qed.
Lemma holds_wake tk : holds_slot (t_pc (wake tk)) = holds_slot (t_pc tk).
Proof. by destruct tk as [d []]. Qed.

Lemma has_ticket_notify b tasks i t : has_ticket (notify_if b tasks) i t <-> has_ticket tasks i t.
Proof.
  destruct b; simpl; [|done]. unfold has_ticket, notify_all. setoid_rewrite lookup_fmap.
  split.
  - intros (tk & H & Ht). apply fmap_Some in H as (x & -> & ->). rewrite ticket_wake in Ht. eauto.
  - intros (tk & -> & Ht). exists (wake tk). by rewrite ticket_wake.
Qed.

Lemma waits_notify b tasks i t : waits (notify_if b tasks) i t <-> waits tasks i t.
Proof.
  destruct b; simpl; [|done]. unfold waits, notify_all. setoid_rewrite lookup_fmap.
  split.
  - intros (tk & H & Ht). apply fmap_Some in H as (x & -> & ->). rewrite live_wake in Ht. eauto.
  - intros (tk & -> & Ht). exists (wake tk). by rewrite live_wake.
Qed.

Lemma not_parked_notify tasks i t : ~ parked (notify_all tasks) i t.
Proof.
  intros (d & H). unfold notify_all in H. rewrite lookup_fmap in H.
  apply fmap_Some in H as ([d' []] & _ & H); discriminate H.
Qed.

Lemma slots_notify b tasks : slots (notify_if b tasks) = slots tasks.
Proof. destruct b; [|done]. apply count_map_fmap. apply holds_wake. Qed.

Definition slot_of (o : option task) : nat := count_opt (fun tk => holds_slot (t_pc tk)) o.

Lemma slots_insert tasks i tk :
  slots (<[i := tk]> tasks) + slot_of (tasks !! i) = slots tasks + slot_of (Some tk).
Proof. apply count_map_insert. Qed.

Section update.
Context (tasks : gmap tid task) (i : tid) (d : Z) (p' : pc) (b : bool).

Abbreviation tasks' := (<[i := Task d p']> (notify_if b tasks)) (only parsing).

Lemma has_ticket_update j t : has_ticket tasks' j t <->
  j = i /\ ticket_of p' = Some t \/ j <> i /\ has_ticket tasks j t.
Proof.
  rewrite <- (has_ticket_notify b tasks j t). unfold has_ticket. destruct (decide (j = i)) as [->|Hj].
  - rewrite lookup_insert_eq. split.
    + intros (tk & [= <-] & H). by left.
    + intros [[_ H]|[H _]]; [by eexists|done].
  - rewrite lookup_insert_ne by done. naive_solver.
Qed.

Lemma waits_update j t : waits tasks' j t <->
  j = i /\ live_ticket p' = Some t \/ j <> i /\ waits tasks j t.
Proof.
  rewrite <- (waits_notify b tasks j t). unfold waits. destruct (decide (j = i)) as [->|Hj].
  - rewrite lookup_insert_eq. split.
    + intros (tk & [= <-] & H). by left.
    + intros [[_ H]|[H _]]; [by eexists|done].
  - rewrite lookup_insert_ne by done. naive_solver.
Qed.

Lemma slots_update : slots tasks' + slot_of (tasks !! i) = slots tasks + slot_of (Some (Task d p')).
Proof.
  rewrite <- (slots_notify b tasks), <- (slots_insert (notify_if b tasks) i (Task d p')).
  f_equal. destruct b; [|done]. simpl. unfold notify_all. rewrite lookup_fmap.
  destruct (tasks !! i) as [tk|]; simpl; [by rewrite holds_wake|done].
Qed.

Lemma parked_update j t : parked tasks' j t ->
  j = i /\ p' = Parked t \/ j <> i /\ b = false /\ parked tasks j t.
Proof.
  intros (d' & H). destruct (decide (j = i)) as [->|Hj].
  - rewrite lookup_insert_eq in H. injection H as -> ->. by left.
  - rewrite lookup_insert_ne in H by done. right. split; [done|].
    destruct b; [exfalso; eapply not_parked_notify; by exists d'|].
    split; [done|by exists d'].
Qed.

Context (g : gate) (Hok : tickets_ok g tasks).

(** The acquirer keeps its ticket, or has none before and after. *)
Lemma tickets_keep :
  (forall t, ticket_of p' = Some t <-> has_ticket tasks i t) ->
  (forall t, live_ticket p' = Some t -> waits tasks i t) -> tickets_ok g tasks'.
Proof.
  intros Ht Hl. destruct Hok as [Hs Hb Hu Ho Hq].
  assert (Hhas : forall j t, has_ticket tasks' j t <-> has_ticket tasks j t).
  { intros j t. rewrite has_ticket_update. destruct (decide (j = i)) as [->|]; naive_solver. }
  split; [done| | | |].
  - intros j t. rewrite Hhas. apply Hb.
  - intros j k t. rewrite !Hhas. apply Hu.
  - intros t Hin. destruct (Ho t Hin) as (j & Hj). exists j. by apply Hhas.
  - intros j t [[-> H]|[_ H]]%waits_update; eauto.
Qed.

(** The acquirer leaves the queue. *)
Lemma tickets_discard t :
  has_ticket tasks i t -> live_ticket p' = None ->
  (forall t', ticket_of p' = Some t' -> t' = t) -> tickets_ok (discard_waiter g t) tasks'.
Proof.
  intros Ht Hl Hp. destruct Hok as [Hs Hb Hu Ho Hq].
  assert (Hhas : forall j t', has_ticket tasks' j t' -> has_ticket tasks j t').
  { intros j t' [[-> H]|[_ H]]%has_ticket_update; [apply Hp in H as ->|]; done. }
  split; rewrite ?discard_waiters; [by apply remove_first_sorted|..].
  - intros j t' H. simpl. eauto.
  - intros j k t' H H'. eauto.
  - intros t' H. destruct (decide (t' = t)) as [->|Hne]; [by apply sorted_not_removed in H|].
    apply remove_first_elem in H. destruct (Ho _ H) as (j & Hj). exists j.
    apply has_ticket_update. right. split; [|done]. intros ->.
    destruct Ht as (tk & Htk & Ht), Hj as (tk' & Htk' & Hj). congruence.
  - intros j t' [[_ H]|[Hj H]]%waits_update; [congruence|].
    apply remove_first_other; [|by eapply Hq]. intros ->. apply Hj. eapply Hu; [|done].
    destruct H as (tk & Htk & H). exists tk; split; [done|]. by destruct (t_pc tk).
Qed.

(** A fresh acquirer joins the queue. *)
Lemma tickets_enqueue :
  (forall t, ~ has_ticket tasks i t) ->
  ticket_of p' = Some (next_ticket g) -> tickets_ok (snd (enqueue_waiter g None)) tasks'.
Proof.
  intros Hi Hp. destruct Hok as [Hs Hb Hu Ho Hq].
  assert (Hbelow : forall t, t ∈ waiters g -> t < next_ticket g)
    by (intros t Ht; destruct (Ho t Ht); eauto).
  split; simpl.
  - by apply sorted_snoc.
  - intros j t [[-> H]|[_ H]]%has_ticket_update; [simplify_eq; lia|]. specialize (Hb _ _ H). lia.
  - intros j k t [[-> H]|[Hj H]]%has_ticket_update [[-> H']|[Hk H']]%has_ticket_update;
      simplify_eq; try done; try (eapply Hu; eauto; fail).
    + specialize (Hb _ _ H'). lia.
    + specialize (Hb _ _ H). lia.
  - intros t [Ht|Ht]%elem_of_app.
    + destruct (Ho t Ht) as (j & Hj). exists j. apply has_ticket_update. right.
      split; [|done]. intros ->. by eapply Hi.
    + apply list_elem_of_singleton in Ht as ->. exists i. apply has_ticket_update. by left.
  - intros j t [[-> H]|[Hj H]]%waits_update; apply elem_of_app; [|left; eauto].
    right. apply list_elem_of_singleton.
    assert (ticket_of p' = Some t) as H' by (by destruct p'). congruence.
Qed.
End update.

(** ** Every step keeps the invariant *)

(** The four outcomes of a turn. *)
Inductive turn_view (refusing : option exn) (now d : Z) (ticket : option nat) (g : gate)
    : turn -> Prop :=
  | TvRefused e : refusing = Some e ->
      turn_view refusing now d ticket g (TurnRaised e ticket g false)
  | TvAdmitted : refusing = None -> waiter_is_served_first g ticket = true ->
      admitted g < capacity g ->
      turn_view refusing now d ticket g
        (TurnAdmitted (take_slot (pop_waiter g ticket)) (S (admitted g) <? capacity g))
  | TvParked t g' : refusing = None ->
      (waiter_is_served_first g ticket = true -> capacity g <= admitted g) ->
      enqueue_waiter g ticket = (t, g') -> (now < d)%Z ->
      turn_view refusing now d ticket g (TurnParked t g')
  | TvTimeout t g' : refusing = None -> enqueue_waiter g ticket = (t, g') -> (d <= now)%Z ->
      turn_view refusing now d ticket g
        (TurnRaised pool_timeout (Some t) (discard_waiter g' t) true).

Lemma admit_turn_view refusing now d ticket g :
  turn_view refusing now d ticket g (admit_turn refusing now d ticket g).
Proof.
  unfold admit_turn. destruct refusing as [e|]; [by constructor|].
  destruct (waiter_is_served_first g ticket && (admitted g <? capacity g)) eqn:Hs.
  - apply andb_true_iff in Hs as [H1 H2%Nat.ltb_lt].
    replace (TurnAdmitted _ _) with
      (TurnAdmitted (take_slot (pop_waiter g ticket)) (S (admitted g) <? capacity g))
      by (by destruct ticket).
    by constructor.
  - destruct (enqueue_waiter g ticket) as [t g'] eqn:He. unfold wait_for_release.
    destruct (0 <? d - now)%Z eqn:Hd.
    + apply Z.ltb_lt in Hd. constructor; [done| |done|lia].
      intros Hw. rewrite Hw in Hs. by apply Nat.ltb_ge in Hs.
    + apply Z.ltb_ge in Hd. constructor; [done..|lia].
Qed.

Lemma tickets_admitted g g' tasks :
  waiters g' = waiters g -> next_ticket g' = next_ticket g ->
  tickets_ok g tasks -> tickets_ok g' tasks.
Proof. intros Hw Hn [Hs Hb Hu Ho Hq]. split; rewrite ?Hw, ?Hn; done. Qed.

Lemma tickets_notify g tasks : tickets_ok g tasks -> tickets_ok g (notify_all tasks).
Proof.
  intros [Hs Hb Hu Ho Hq]. split; [done|..].
  - intros i t. rewrite (has_ticket_notify true tasks). apply Hb.
  - intros i j t. rewrite !(has_ticket_notify true tasks). apply Hu.
  - intros t Ht. destruct (Ho t Ht) as (i & Hi). exists i. by apply (has_ticket_notify true tasks).
  - intros i t. rewrite (waits_notify true tasks). apply Hq.
Qed.

(** The ticket an acquirer has is the one of its program point. *)
Lemma has_ticket_at tasks i tk t :
  tasks !! i = Some tk -> has_ticket tasks i t <-> ticket_of (t_pc tk) = Some t.
Proof. unfold has_ticket. naive_solver. Qed.
Lemma waits_at tasks i tk t :
  tasks !! i = Some tk -> waits tasks i t <-> live_ticket (t_pc tk) = Some t.
Proof. unfold waits. naive_solver. Qed.
Lemma has_ticket_none tasks i t : tasks !! i = None -> has_ticket tasks i t <-> False.
Proof. unfold has_ticket. naive_solver. Qed.

Ltac at_task := intros;
  first [ erewrite has_ticket_at by eassumption | erewrite waits_at by eassumption
        | rewrite has_ticket_none by eassumption ]; simpl.

Lemma turn_tickets refusing now d ticket g tasks i :
  tasks !! i = Some (Task d (Trying ticket)) -> tickets_ok g tasks ->
  let r := admit_turn refusing now d ticket g in
  tickets_ok (turn_gate r) (<[i := Task d (turn_pc r)]> (notify_if (turn_notify r) tasks)).
Proof.
  intros Hi Hok. simpl.
  destruct (admit_turn_view refusing now d ticket g) as [e He|_ Hw _|t g' _ _ He _|t g' _ He _];
    cbn [turn_gate turn_pc turn_notify].
  - apply tickets_keep; [done| |]; destruct ticket; at_task; naive_solver.
  - destruct ticket as [t|].
    + rewrite pop_is_discard by done. eapply tickets_admitted; [| |eapply tickets_discard]; try done.
      at_task. done.
    + eapply tickets_admitted; [| |apply (tickets_keep _ _ _ _ _ g)]; try done; at_task; naive_solver.
  - destruct ticket as [t0|]; simpl in He; simplify_eq.
    + apply tickets_keep; [done| |]; at_task; naive_solver.
    + apply (tickets_enqueue tasks i d _ false g); [done| |done]. at_task; naive_solver.
  - destruct ticket as [t0|]; simpl in He; simplify_eq.
    + apply tickets_discard; [done| |done|]; [at_task; done|simpl; naive_solver].
    + pose proof (tickets_enqueue tasks i d (Parked (next_ticket g)) false g Hok) as H1.
      pose proof (tickets_discard (<[i:=Task d (Parked (next_ticket g))]> tasks) i d
                    (Dropping (next_ticket g) pool_timeout) true) as H2.
      simpl in H1, H2. unfold notify_all in H2. rewrite fmap_insert, insert_insert_eq in H2.
      eapply H2; [apply H1; [at_task; naive_solver|done] | |done|naive_solver].
      eexists. by rewrite lookup_insert_eq.
Qed.

Lemma turn_slots refusing now d ticket g tasks i :
  tasks !! i = Some (Task d (Trying ticket)) ->
  admitted g = slots tasks -> admitted g <= capacity g ->
  let r := admit_turn refusing now d ticket g in
  admitted (turn_gate r)
    = slots (<[i := Task d (turn_pc r)]> (notify_if (turn_notify r) tasks)) /\
  admitted (turn_gate r) <= capacity (turn_gate r) /\ capacity (turn_gate r) = capacity g.
Proof.
  intros Hi Hs Hc. simpl.
  pose proof (slots_update tasks i d (turn_pc (admit_turn refusing now d ticket g))
                (turn_notify (admit_turn refusing now d ticket g))) as Hu.
  rewrite Hi in Hu. simpl in Hu. rewrite Nat.add_0_r in Hu.
  destruct (admit_turn_view refusing now d ticket g) as [e He|_ Hw Hlt|t g' _ _ He _|t g' _ He _];
    cbn [turn_gate turn_pc turn_notify] in *; rewrite Hu; simpl.
  - destruct ticket; simpl; lia.
  - assert (admitted (pop_waiter g ticket) = admitted g) as -> by (by destruct ticket).
    assert (capacity (pop_waiter g ticket) = capacity g) as -> by (by destruct ticket). lia.
  - destruct ticket; simpl in He; simplify_eq; simpl; lia.
  - destruct ticket; simpl in He; simplify_eq; simpl; lia.
Qed.

Lemma sorted_NoDup l : StronglySorted lt l -> NoDup l.
Proof.
  induction 1 as [|x l Hl IH Hx]; constructor; [|done].
  intros Hin. eapply Forall_forall in Hx; [|done]. lia.
Qed.

Lemma head_snoc_other (l : list nat) n u : u ∈ l -> head (l ++ [n]) = Some u -> head l = Some u.
Proof. destruct l; [intros []%not_elem_of_nil|done]. Qed.

Lemma turn_awake refusing now d ticket g tasks i :
  tasks !! i = Some (Task d (Trying ticket)) -> tickets_ok g tasks ->
  awake (Config g tasks now refusing) ->
  let r := admit_turn refusing now d ticket g in
  awake (Config (turn_gate r) (<[i := Task d (turn_pc r)]> (notify_if (turn_notify r) tasks))
           now refusing).
Proof.
  intros Hi Hok Haw r j u Hp. cbn [cfg_tasks cfg_gate cfg_refusing] in *. subst r.
  destruct (admit_turn_view refusing now d ticket g)
    as [e He|Hr _ Hlt|t g' Hr Hw He _|t g' Hr He _]; cbn [turn_gate turn_pc turn_notify] in *;
    apply parked_update in Hp as [[-> Hp]|(Hne & Hb & Hp)]; try (by destruct ticket).
  - by destruct (Haw _ _ Hp) as [Hr _]; simpl in Hr; rewrite He in Hr.
  - apply Nat.ltb_ge in Hb. split; [done|].
    assert (capacity (pop_waiter g ticket) = capacity g) as Hc by (by destruct ticket).
    assert (admitted (pop_waiter g ticket) = admitted g) as Ha by (by destruct ticket).
    simpl. lia.
  - injection Hp as ->. split; [done|]. intros Hlt Hhd.
    destruct ticket as [t0|]; simpl in He; injection He as <- <-; simpl in *.
    + destruct (waiters g) as [|x w]; [done|]. injection Hhd as ->.
      specialize (Hw (bool_decide_eq_true_2 _ eq_refl)). lia.
    + destruct (waiters g) as [|x w] eqn:Hg; [specialize (Hw (bool_decide_eq_true_2 _ eq_refl)); lia|].
      injection Hhd as ->. destruct (tok_owned _ _ Hok (next_ticket g)) as (k & Hk);
        [rewrite Hg; left|]. apply (tok_below _ _ Hok) in Hk. lia.
  - split; [done|]. intros Hlt Hhd. destruct (Haw _ _ Hp) as [_ Hold]. simpl in Hold.
    destruct ticket as [t0|]; simpl in He; injection He as <- <-; simpl in *; [by apply Hold|].
    apply Hold; [done|]. eapply head_snoc_other; [|done].
    eapply (tok_queued _ _ Hok). destruct Hp as (d' & Hp). by eexists.
Qed.

Definition reports (p : pc) (e : exn) : Prop := p = Refused e \/ exists t, p = Dropping t e.

Lemma timeouts_notify now b tasks : timeouts_ok now tasks -> timeouts_ok now (notify_if b tasks).
Proof.
  intros H. destruct b; [|done]. intros i d p e Hi Hc Hp. simpl in Hi. unfold notify_all in Hi.
  rewrite lookup_fmap in Hi. apply fmap_Some in Hi as ([d' p''] & Hi & Hw).
  eapply (H i d p); [|done..]. rewrite Hi. f_equal.
  destruct p'', Hp as [->|(u & ->)]; unfold wake in Hw; by simplify_eq/=.
Qed.

Lemma timeouts_update now b tasks i d p :
  timeouts_ok now tasks ->
  (forall e, exn_class e = PoolTimeoutError -> reports p e -> (d <= now)%Z) ->
  timeouts_ok now (<[i := Task d p]> (notify_if b tasks)).
Proof.
  intros H Hp j d' p' e Hj Hc Hr. destruct (decide (j = i)) as [->|Hne].
  - rewrite lookup_insert_eq in Hj. simplify_eq. by eapply Hp.
  - rewrite lookup_insert_ne in Hj by done. by eapply (timeouts_notify now b tasks).
Qed.

Lemma turn_timeouts refusing now d ticket g tasks i :
  timeouts_ok now tasks ->
  (forall e, refusing = Some e -> exn_class e <> PoolTimeoutError) ->
  let r := admit_turn refusing now d ticket g in
  timeouts_ok now (<[i := Task d (turn_pc r)]> (notify_if (turn_notify r) tasks)).
Proof.
  intros H Href. simpl. apply timeouts_update; [done|]. intros e Hc Hr.
  destruct (admit_turn_view refusing now d ticket g) as [e' He'| |t g' |t g' _ _ Hd];
    simpl in Hr; destruct Hr as [Hr|(u & Hr)]; try done.
  - destruct ticket; simpl in Hr; simplify_eq. by eapply Href in Hc.
  - destruct ticket; simpl in Hr; simplify_eq. by eapply Href in Hc.
Qed.

(** A step of one acquirer outside a turn: it keeps or drops its ticket, gives
    back or keeps its slot, and does not park. *)
Lemma invariant_update g g' tasks now refusing i d p b :
  invariant (Config g tasks now refusing) ->
  tickets_ok g' (<[i := Task d p]> (notify_if b tasks)) ->
  capacity g' = capacity g ->
  admitted g' + slot_of (tasks !! i) = admitted g + Nat.b2n (holds_slot p) ->
  admitted g' <= admitted g ->
  (b = true \/ g' = g) ->
  (forall t, p <> Parked t) ->
  (forall e, exn_class e = PoolTimeoutError -> reports p e -> (d <= now)%Z) ->
  invariant (Config g' (<[i := Task d p]> (notify_if b tasks)) now refusing).
Proof.
  intros [Ht Hs Hc Ha Hto Href] Ht' Hcap Hsl Hle Hb Hp He. simpl in *.
  split; simpl; try done; try lia.
  - pose proof (slots_update tasks i d p b). simpl in *. lia.
  - intros j t Hpk. apply parked_update in Hpk as [[_ Hpk]|(_ & -> & Hpk)]; [by destruct (Hp t)|].
    destruct Hb as [Hb| ->]; [done|]. exact (Ha _ _ Hpk).
  - by apply timeouts_update.
Qed.

Lemma invariant_step c l c' : invariant c -> step c l c' -> invariant c'.
Proof.
  intros Hinv Hst. pose proof Hinv as [Ht Hs Hc Ha Hto Href].
  destruct Hst as [g tasks now refusing i d Hi | g tasks now refusing i d ticket Hi r
    | g tasks now refusing i d ticket Hi | g tasks now refusing i d t Hi
    | g tasks now refusing i d t p e Hi Hp He | g tasks now refusing i d t e Hi
    | g tasks now refusing i d Hi | g tasks now refusing i d Hi
    | g tasks now now' refusing Hle | g tasks now refusing refusing' Hr']; simpl in *.
  - apply (invariant_update g g tasks _ _ i d (Trying None) false); auto; rewrite ?Hi; try done.
    + apply tickets_keep; [done|at_task; naive_solver|done].
    + intros e _ [Hx|(u & Hx)]; done.
  - destruct (turn_slots refusing now d ticket g tasks i Hi Hs Hc) as (H1 & H2 & H3).
    split; simpl; [by apply turn_tickets|done|done|by apply turn_awake|by apply turn_timeouts|done].
  - apply (invariant_update g g tasks _ _ i d _ false); auto; rewrite ?Hi.
    + apply tickets_keep; [done|destruct ticket; at_task; naive_solver..].
    + by destruct ticket.
    + by destruct ticket.
    + intros e Hcl [Hr|(u & Hr)]; destruct ticket; simpl in Hr; simplify_eq; done.
  - apply (invariant_update g g tasks _ _ i d _ false); auto; rewrite ?Hi; try done.
    + apply tickets_keep; [done|at_task; naive_solver..].
    + intros e _ [Hx|(u & Hx)]; done.
  - apply (invariant_update g _ tasks _ _ i d _ true); auto; rewrite ?Hi; try done.
    + apply tickets_discard; [done| |done|simpl; naive_solver]. at_task. by destruct Hp; subst.
    + by destruct Hp; subst.
    + intros e' Hcl [Hx|(u & Hx)]; simplify_eq. destruct He as [[-> Hle]| ->]; done.
  - apply (invariant_update g _ tasks _ _ i d _ true); auto; rewrite ?Hi; try done.
    + apply tickets_discard; [done| |done|simpl; naive_solver]. by at_task.
    + intros e' Hcl [Hx|(u & Hx)]; simplify_eq. eapply Hto; [exact Hi|done|by right; eexists].
  - apply (invariant_update g g tasks _ _ i d _ false); auto; rewrite ?Hi; try done.
    + apply tickets_keep; [done|at_task; naive_solver..].
    + intros e _ [Hx|(u & Hx)]; done.
  - pose proof (slots_insert tasks i (Task d Released)) as Hsl. rewrite Hi in Hsl. simpl in Hsl.
    apply (invariant_update g _ tasks _ _ i d _ true); auto; rewrite ?Hi; simpl; try done; try lia.
    + eapply (tickets_admitted g); [done..|].
      apply (tickets_keep tasks i d Released true g); [done|at_task; naive_solver..].
    + intros e _ [Hx|(u & Hx)]; done.
  - split; simpl; try done. intros j d p e Hj Hcl Hp. specialize (Hto _ _ _ _ Hj Hcl Hp). lia.
  - split; simpl; try done.
    + by apply tickets_notify.
    + pose proof (slots_notify true tasks) as He. simpl in He. by rewrite He.
    + intros j t Hp. by apply not_parked_notify in Hp.
    + by apply (timeouts_notify _ true).
Qed.

Lemma invariant_init cap now : invariant (init cap now).
Proof.
  assert (Hno : forall i t, ~ has_ticket ∅ i t)
    by (intros i t (tk & H & _); by rewrite lookup_empty in H).
  split; simpl; try done; try lia.
  - split; simpl.
    + constructor.
    + intros i t H. by destruct (Hno i t).
    + intros i j t H. by destruct (Hno i t).
    + intros t H. by apply not_elem_of_nil in H.
    + intros i t (tk & H & _). by rewrite lookup_empty in H.
Qed.

Lemma run_invariant c ls c' : run c ls c' -> invariant c -> invariant c'.
Proof. induction 1; eauto using invariant_step. Qed.

Lemma reachable_invariant cap c : reachable cap c -> invariant c.
Proof. intros (now & ls & H). eapply run_invariant; [done|apply invariant_init]. Qed.

(** ** Order of service *)

Lemma queued_order_app l l' : queued_order (l ++ l') = queued_order l ++ queued_order l'.
Proof. induction l as [|[] l IH]; simpl; by rewrite ?IH. Qed.
Lemma served_order_app l l' : served_order (l ++ l') = served_order l ++ served_order l'.
Proof. induction l as [|[|? []|] l IH]; simpl; by rewrite ?IH. Qed.

(** The owners of the queued tickets, in queue order, come after the served
    ones in the order in which they joined the queue. *)
Definition fifo (ls : list label) (c : config) : Prop := exists owners,
  Forall2 (has_ticket (cfg_tasks c)) owners (waiters (cfg_gate c)) /\
  sublist (served_order ls ++ owners) (queued_order ls).

Lemma owners_shrink (P Q : tid -> nat -> Prop) owners w w' :
  sublist w' w -> Forall2 P owners w -> (forall j t, t ∈ w' -> P j t -> Q j t) ->
  exists owners', sublist owners' owners /\ Forall2 Q owners' w'.
Proof.
  intros Hsub. revert owners. induction Hsub as [|x w' w Hsub IH|x w' w Hsub IH];
    intros owners HP HQ; inversion HP as [|o ? os ? Ho Hos]; subst.
  - exists []. split; constructor.
  - destruct (IH _ Hos) as (os' & Hs & HF); [intros; apply HQ; [by right|done]|].
    exists (o :: os'). split; [by apply sublist_skip|]. constructor; [apply HQ; [left|done]|done].
  - destruct (IH _ Hos HQ) as (os' & Hs & HF). exists os'. split; [by apply sublist_cons|done].
Qed.

Lemma Forall2_impl_elem (P Q : tid -> nat -> Prop) os w :
  Forall2 P os w -> (forall j t, t ∈ w -> P j t -> Q j t) -> Forall2 Q os w.
Proof.
  induction 1 as [|j t os w Hp HF IH]; intros HQ; constructor.
  - apply HQ; [left|done].
  - apply IH. intros; apply HQ; [by right|done].
Qed.

Lemma fifo_shrink ls l c c' :
  fifo ls c -> (l = LTau \/ exists i, l = LAdmitted i None) ->
  sublist (waiters (cfg_gate c')) (waiters (cfg_gate c)) ->
  (forall j t, t ∈ waiters (cfg_gate c') -> has_ticket (cfg_tasks c) j t ->
     has_ticket (cfg_tasks c') j t) ->
  fifo (ls ++ [l]) c'.
Proof.
  intros (owners & HF & Hs) Hl Hsub Hkeep.
  destruct (owners_shrink _ _ _ _ _ Hsub HF Hkeep) as (os & Hos & HF'). exists os.
  split; [done|]. rewrite queued_order_app, served_order_app.
  assert (served_order [l] = [] /\ queued_order [l] = []) as [-> ->]
    by (by destruct Hl as [->|(i & ->)]).
  rewrite !app_nil_r. etrans; [|done]. by apply sublist_app.
Qed.

Lemma remove_snoc n l : n ∉ l -> remove_first n (l ++ [n]) = l.
Proof.
  induction l as [|x l IH]; simpl; intros H; [by rewrite decide_True|].
  rewrite decide_False by (intros ->; apply H; left). f_equal. apply IH. intros ?; apply H; by right.
Qed.

(** The tickets of the other acquirers do not change; the one of [i] is either
    kept or out of the queue. *)
Lemma tickets_others tasks i d p b (w : list nat) :
  (forall t, has_ticket tasks i t -> ticket_of p = Some t \/ t ∉ w) ->
  forall j t, t ∈ w -> has_ticket tasks j t ->
    has_ticket (<[i := Task d p]> (notify_if b tasks)) j t.
Proof.
  intros H j t Hw Ht. apply has_ticket_update. destruct (decide (j = i)) as [->|]; [|by right].
  left. split; [done|]. by destruct (H t Ht).
Qed.

Lemma fifo_turn ls g tasks now refusing i d ticket :
  tasks !! i = Some (Task d (Trying ticket)) -> tickets_ok g tasks ->
  fifo ls (Config g tasks now refusing) ->
  let r := admit_turn refusing now d ticket g in
  fifo (ls ++ [turn_label i ticket r])
    (Config (turn_gate r) (<[i := Task d (turn_pc r)]> (notify_if (turn_notify r) tasks))
       now refusing).
Proof.
  intros Hi Hok Hf. simpl.
  assert (Hti : forall t, has_ticket tasks i t -> ticket = Some t)
    by (intros t Ht; erewrite has_ticket_at in Ht by eassumption; done).
  destruct (admit_turn_view refusing now d ticket g) as [e He|Hr Hw _|t g' _ _ He _|t g' _ He _];
    cbn [turn_gate turn_pc turn_notify turn_label].
  - eapply fifo_shrink; [done|by left|done|]. apply tickets_others. intros t ->%Hti. by left.
  - destruct ticket as [t|].
    + rewrite pop_is_discard by done. destruct Hf as (owners & HF & Hs). simpl in *.
      pose proof (tok_sorted _ _ Hok) as Hsorted.
      destruct (waiters g) as [|x w] eqn:Hg; [done|]. apply bool_decide_eq_true in Hw as ->.
      inversion HF as [|o ? os ? Ho Hos]; subst. inversion Hsorted as [|? ? _ Hlt]; subst.
      assert (o = i) as -> by (eapply (tok_unique _ _ Hok); [done|by at_task]).
      assert (waiters (take_slot (discard_waiter g t)) = w) as Hw.
      { change (waiters (discard_waiter g t) = w). rewrite discard_waiters, Hg. simpl.
        by rewrite decide_True. }
      exists os. cbn [cfg_gate cfg_tasks]. rewrite Hw. split.
      * eapply Forall2_impl_elem; [done|]. intros j t' Hin Hh.
        eapply (tickets_others _ _ _ _ _ w); [|done|done].
        intros u [= <-]%Hti. right. intros Hu. eapply Forall_forall in Hlt; [|done]. lia.
      * rewrite queued_order_app, served_order_app. simpl. rewrite app_nil_r, <- app_assoc. done.
    + eapply fifo_shrink; [done|right; by eexists|done|]. apply tickets_others. intros t [=]%Hti.
  - destruct ticket as [t0|]; simpl in He; injection He as <- <-.
    + eapply fifo_shrink; [done|by left|done|]. apply tickets_others. intros t [= <-]%Hti. by left.
    + destruct Hf as (owners & HF & Hs). simpl in *. exists (owners ++ [i]). split.
      * apply Forall2_app.
        -- eapply Forall2_impl; [done|]. intros j t Hh. apply (has_ticket_update _ _ _ _ false). right.
           split; [|done]. intros ->. by apply Hti in Hh.
        -- constructor; [|constructor]. apply (has_ticket_update _ _ _ _ false). by left.
      * rewrite queued_order_app, served_order_app. simpl. rewrite app_nil_r, app_assoc.
        by apply sublist_app.
  - destruct ticket as [t0|]; simpl in He; injection He as <- <-.
    + eapply fifo_shrink; [done|by left| |]; cbn [cfg_gate cfg_tasks]; rewrite discard_waiters.
      * apply remove_first_sublist.
      * apply tickets_others. intros t [= <-]%Hti. by left.
    + assert (next_ticket g ∉ waiters g) as Hn.
      { intros Hin. destruct (tok_owned _ _ Hok _ Hin) as (j & Hj).
        apply (tok_below _ _ Hok) in Hj. lia. }
      eapply fifo_shrink; [done|by left| |]; cbn [cfg_gate cfg_tasks]; rewrite discard_waiters;
        simpl; rewrite remove_snoc by done; [done|].
      apply (tickets_others tasks i d _ true). intros t [=]%Hti.
Qed.

(** The ticket [u] of the acquirer at hand, read off its program point. *)
Ltac own_ticket u Hu := intros u Hu;
  first [ erewrite has_ticket_at in Hu by eassumption
        | rewrite has_ticket_none in Hu by eassumption ]; simpl in Hu; try done.

Lemma fifo_step ls c l c' : invariant c -> fifo ls c -> step c l c' -> fifo (ls ++ [l]) c'.
Proof.
  intros [Ht _ _ _ _ _] Hf Hst.
  destruct Hst as [g tasks now refusing i d Hi | g tasks now refusing i d ticket Hi r
    | g tasks now refusing i d ticket Hi | g tasks now refusing i d t Hi
    | g tasks now refusing i d t p e Hi Hp He | g tasks now refusing i d t e Hi
    | g tasks now refusing i d Hi | g tasks now refusing i d Hi
    | g tasks now now' refusing Hle | g tasks now refusing refusing' Hr']; simpl in *;
    try (eapply fifo_shrink; [done|by left|done|]; cbn [cfg_gate cfg_tasks]).
  - apply (tickets_others tasks i d _ false). own_ticket u Hu.
  - by apply fifo_turn.
  - apply (tickets_others tasks i d _ false). own_ticket u Hu. rewrite Hu. by left.
  - apply (tickets_others tasks i d _ false). own_ticket u Hu. by left.
  - eapply fifo_shrink; [done|by left| |]; cbn [cfg_gate cfg_tasks]; rewrite discard_waiters.
    + apply remove_first_sublist.
    + apply (tickets_others tasks i d _ true). own_ticket u Hu. left. by destruct Hp as [-> | ->].
  - eapply fifo_shrink; [done|by left| |]; cbn [cfg_gate cfg_tasks]; rewrite discard_waiters.
    + apply remove_first_sublist.
    + apply (tickets_others tasks i d _ true). own_ticket u Hu. injection Hu as ->. right.
      by apply sorted_not_removed, (tok_sorted _ _ Ht).
  - apply (tickets_others tasks i d _ false). own_ticket u Hu.
  - apply (tickets_others tasks i d _ true). own_ticket u Hu.
  - done.
  - intros j t _. apply (has_ticket_notify true tasks).
Qed.

Lemma run_fifo cap now ls c : run (init cap now) ls c -> fifo ls c.
Proof.
  intros H. remember (init cap now) as c0. induction H as [|c0 ls c l c' Hrun IH Hst]; subst.
  - exists []. split; [constructor|done].
  - eapply fifo_step; [eapply run_invariant, invariant_init; done|by apply IH|done].
Qed.

Lemma turn_capacity refusing now d ticket g :
  capacity (turn_gate (admit_turn refusing now d ticket g)) = capacity g.
Proof.
  destruct (admit_turn_view refusing now d ticket g) as [e He|Hr Hw _|t g' _ _ He _|t g' _ He _];
    destruct ticket; simpl in *; simplify_eq; done.
Qed.

Lemma step_capacity c l c' : step c l c' -> capacity (cfg_gate c') = capacity (cfg_gate c).
Proof. destruct 1; simpl; try done. apply turn_capacity. Qed.

(** While the pool refuses work nobody is admitted. *)
Lemma step_refused c l c' : step c l c' -> cfg_refusing c <> None ->
  admitted (cfg_gate c') <= admitted (cfg_gate c).
Proof.
  destruct 1 as [| g tasks now refusing i d ticket Hi r | | | | | | | | ]; simpl; intros Href;
    try lia.
  subst r. by destruct refusing.
Qed.

Lemma reachable_capacity cap c : reachable cap c -> capacity (cfg_gate c) = cap.
Proof.
  intros (now & ls & H). remember (init cap now) as c0.
  induction H as [|c0 ls c l c' Hrun IH Hst]; subst; [done|].
  rewrite <- IH by done. by eapply step_capacity.
Qed.

(** An acquirer that is done: it has released its slot or was refused. *)
Definition finished (p : pc) : bool :=
  match p with Released | Refused _ => true | _ => false end.

(** ** Properties *)

(** accounting.  At every moment, whatever the interleaving of arrivals,
    wake-ups, timeouts, cancellations and releases: [admitted] is the number of
    acquirers that hold a slot and never exceeds the capacity; the queue has no
    duplicate ticket and each of its tickets belongs to exactly one acquirer;
    an acquirer that waits is in the queue; and when every acquirer is done no
    slot and no ticket is left behind. *)
Theorem gate_accounting cap c (Hr : reachable cap c) :
  admitted (cfg_gate c) = slots (cfg_tasks c) /\ admitted (cfg_gate c) <= cap /\
  NoDup (waiters (cfg_gate c)) /\
  (forall t, t ∈ waiters (cfg_gate c) ->
     exists i, has_ticket (cfg_tasks c) i t /\ forall j, has_ticket (cfg_tasks c) j t -> j = i) /\
  (forall i t, waits (cfg_tasks c) i t -> t ∈ waiters (cfg_gate c)) /\
  ((forall i tk, cfg_tasks c !! i = Some tk -> finished (t_pc tk) = true) ->
     snapshot (cfg_gate c) = PoolStats cap 0 0).
Proof.
  pose proof (reachable_capacity _ _ Hr) as Hcap.
  destruct (reachable_invariant _ _ Hr) as [[Hs Hb Hu Ho Hq] Hsl Hle _ _ _].
  split; [done|]. split; [by rewrite <- Hcap|]. split; [by apply sorted_NoDup|].
  split; [intros t Ht; destruct (Ho t Ht) as (i & Hi); exists i; eauto|]. split; [done|].
  intros Hdone. unfold snapshot. rewrite Hcap, Hsl. f_equal.
  - apply count_map_zero. intros i tk Hi. specialize (Hdone _ _ Hi). by destruct (t_pc tk).
  - destruct (waiters (cfg_gate c)) as [|t w]; [done|]. exfalso.
    destruct (Ho t) as (i & tk & Hi & Ht); [left|]. specialize (Hdone _ _ Hi).
    by destruct (t_pc tk).
Qed.

(** strict FIFO.  In every run, the acquirers served out of the queue are
    served in the order in which they joined it, and an acquirer is admitted
    without queueing only when no other acquirer waits. *)
Theorem gate_fifo cap now ls c (Hrun : run (init cap now) ls c) :
  sublist (served_order ls) (queued_order ls) /\
  forall i c', step c (LAdmitted i None) c' -> forall j t, ~ waits (cfg_tasks c) j t.
Proof.
  destruct (run_fifo _ _ _ _ Hrun) as (owners & _ & Hs). split.
  - etrans; [|done]. by apply sublist_inserts_r.
  - intros i c' Hst j t Hw.
    assert (Hinv : invariant c) by (eapply run_invariant, invariant_init; done).
    apply (tok_queued _ _ (inv_tickets _ Hinv)) in Hw. clear Hinv Hrun Hs.
    remember (LAdmitted i None) as l eqn:Hl. destruct Hst; try done.
    subst r. destruct (admit_turn_view refusing now0 d ticket g) as [e He|Hr Hserved _| |];
      simpl in Hl; try done; [|by destruct ticket].
    injection Hl as -> ->. apply bool_decide_eq_true in Hserved. simpl in Hw.
    rewrite Hserved in Hw. by apply not_elem_of_nil in Hw.
Qed.

Lemma run_steps2 c l c' l' c'' : step c l c' -> step c' l' c'' -> run c [l; l'] c''.
Proof. intros H H'. apply (run_snoc _ [l] c'); [|done]. by apply (run_snoc _ [] c); [constructor|]. Qed.
Lemma run_step1 c l c' : step c l c' -> run c [l] c'.
Proof. intros H. apply (run_snoc _ [] c); [constructor|done]. Qed.

(** The acquirer at the front of the queue takes the free slot in its turn. *)
Lemma head_turn_admits g tasks now i d t :
  tasks !! i = Some (Task d (Trying (Some t))) ->
  StronglySorted lt (waiters g) -> head (waiters g) = Some t -> admitted g < capacity g ->
  exists c', step (Config g tasks now None) (LAdmitted i (Some t)) c' /\
    cfg_tasks c' !! i = Some (Task d Holding) /\ t ∉ waiters (cfg_gate c').
Proof.
  intros Hi Hs Hhd Hlt. pose proof (StTurn g tasks now None i d _ Hi) as Hst. cbv zeta in Hst.
  unfold admit_turn, waiter_is_served_first, pop_waiter in Hst.
  destruct (waiters g) as [|x w] eqn:Hg; [done|]. injection Hhd as ->.
  rewrite bool_decide_eq_true_2, (proj2 (Nat.ltb_lt _ _) Hlt) in Hst by done.
  eexists. split; [exact Hst|]. cbn [cfg_tasks cfg_gate turn_pc turn_gate]. rewrite lookup_insert_eq.
  split; [done|]. simpl. inversion Hs as [|? ? _ Hall]; subst. intros Hin.
  eapply Forall_forall in Hall; [|done]. lia.
Qed.

(** A turn under a refusing pool sends a waiting acquirer to its cleanup, which
    ends in the refusal. *)
Lemma refused_turn g tasks now e i d t :
  tasks !! i = Some (Task d (Trying (Some t))) ->
  exists c', run (Config g tasks now (Some e)) [LTau; LTau] c' /\
    cfg_tasks c' !! i = Some (Task d (Refused e)).
Proof.
  intros Hi. eexists. split.
  - eapply run_steps2; [exact (StTurn g tasks now (Some e) i d _ Hi)|]. simpl.
    apply (StDrop _ _ _ _ i d t e). by rewrite lookup_insert_eq.
  - cbn [cfg_tasks]. by rewrite lookup_insert_eq.
Qed.

Lemma run_cons c l c' ls c'' : step c l c' -> run c' ls c'' -> run c (l :: ls) c''.
Proof.
  intros Hst Hr. induction Hr as [|c' ls c2 l' c3 Hr IH Hst']; [by apply run_step1|].
  apply (run_snoc _ (l :: ls) c2); auto.
Qed.

(** C21: no lost wake-up.  While the pool accepts work and a slot is free, the
    acquirer at the head of the queue is not asleep: if it still wants the slot, at most
    two steps of its own admit it; if it is leaving (its deadline passed, or it was
    cancelled), one step takes it out of the queue.  Once the pool refuses work no
    acquirer is asleep, and every waiting one is refused with the pool's error by at
    most three steps of its own. *)
Theorem gate_no_lost_wakeup cap c (Hr : reachable cap c) :
  (forall t, cfg_refusing c = None -> admitted (cfg_gate c) < cap ->
     head (waiters (cfg_gate c)) = Some t ->
     exists i, has_ticket (cfg_tasks c) i t /\ ~ parked (cfg_tasks c) i t /\
       (waits (cfg_tasks c) i t -> exists ls c' d, run c ls c' /\ length ls <= 2 /\
          LAdmitted i (Some t) ∈ ls /\ cfg_tasks c' !! i = Some (Task d Holding)) /\
       (~ waits (cfg_tasks c) i t -> exists l c', step c l c' /\ t ∉ waiters (cfg_gate c'))) /\
  (forall e i t, cfg_refusing c = Some e -> waits (cfg_tasks c) i t ->
     ~ parked (cfg_tasks c) i t /\
     exists ls c' d, run c ls c' /\ length ls <= 3 /\
       cfg_tasks c' !! i = Some (Task d (Refused e))).
Proof.
  pose proof (reachable_capacity _ _ Hr) as Hcap.
  destruct (reachable_invariant _ _ Hr) as [Htk _ _ Haw _ _]. destruct c as [g tasks now refusing].
  unfold awake in Haw. simpl in *. rewrite <- Hcap. split.
  - intros t -> Hlt Hhd.
    destruct (tok_owned _ _ Htk t) as (i & [d p] & Hi & Ht); [by apply head_Some_elem_of|].
    assert (Hown : has_ticket tasks i t) by (by eexists).
    pose proof (tok_sorted _ _ Htk) as Hs. exists i. split; [done|].
    split; [intros Hp; destruct (Haw i t Hp) as [_ Hno]; by destruct Hno|].
    destruct p; simpl in Ht; simplify_eq; (split; [intros Hw|intros Hw; try by destruct Hw; eexists]).
    + destruct (head_turn_admits g tasks now i d t) as (c' & Hst & Hc' & Hin); try done.
      exists [LAdmitted i (Some t)], c', d. split_and!; [by apply run_step1|simpl; lia|left|done].
    + destruct (Haw i t) as [_ Hno]; [by eexists|]. by destruct Hno.
    + destruct (head_turn_admits g (<[i := Task d (Trying (Some t))]> tasks) now i d t)
        as (c' & Hst & Hc' & Hin); try done; [by rewrite lookup_insert_eq|].
      exists [LTau; LAdmitted i (Some t)], c', d.
      split_and!; [by eapply run_steps2; [apply StResume|]|simpl; lia|right; left|done].
    + destruct Hw as (tk & Hi' & Hl). rewrite Hi in Hi'. by injection Hi' as <-.
    + eexists LTau, _. split; [by eapply StDrop|].
      cbn [cfg_gate]. rewrite discard_waiters. by apply sorted_not_removed.
  - intros e i t -> ([d p] & Hi & Ht). split; [intros Hp; by destruct (Haw i t Hp)|]. destruct p; simpl in Ht; simplify_eq.
    + destruct (refused_turn g tasks now e i d t Hi) as (c' & Hrun & Hc').
      exists [LTau; LTau], c', d. split_and!; [done|simpl; lia|done].
    + destruct (Haw i t) as [? _]; [by eexists|done].
    + destruct (refused_turn g (<[i := Task d (Trying (Some t))]> tasks) now e i d t)
        as (c' & Hrun & Hc'); [by rewrite lookup_insert_eq|].
      exists [LTau; LTau; LTau], c', d. split_and!; [|simpl; lia|done].
      eapply run_cons; [by apply (StResume g tasks now (Some e) i d t)|done].
Qed.

(** timeouts are honest.  [PoolTimeoutError] reaches an acquirer only once
    its deadline has passed, and past its deadline an acquirer never parks: its
    turn admits it, or raises. *)
Theorem gate_timeouts cap c (Hr : reachable cap c) i d p
  (Hi : cfg_tasks c !! i = Some (Task d p)) :
  (forall e, p = Refused e -> exn_class e = PoolTimeoutError -> (d <= cfg_clock c)%Z) /\
  (forall ticket, p = Trying ticket -> (d <= cfg_clock c)%Z -> exists l c',
     step c l c' /\ forall t d', cfg_tasks c' !! i <> Some (Task d' (Parked t))).
Proof.
  destruct (reachable_invariant _ _ Hr) as [_ _ _ _ Hto _]. split.
  - intros e -> Hc. eapply Hto; [done|done|by left].
  - intros ticket -> Hd. destruct c as [g tasks now refusing]. simpl in *.
    eexists _, _. split; [by apply (StTurn g tasks now refusing i d ticket)|].
    intros t d'. cbn [cfg_tasks]. rewrite lookup_insert_eq.
    destruct (admit_turn_view refusing now d ticket g) as [e He| |u g' _ _ _ Hlt|u g' _ _ _];
      simpl; [by destruct ticket|done|lia|done].
Qed.

(** ** A concrete run

    Capacity one: acquirer 1 is admitted, 2, 3 and 4 queue, 1 releases, 2 takes
    the slot, and the deadline of 3 passes while 2 holds it. *)

Lemma turn_step g tasks now refusing i d ticket l c' :
  tasks !! i = Some (Task d (Trying ticket)) ->
  let r := admit_turn refusing now d ticket g in
  (turn_label i ticket r,
   Config (turn_gate r) (<[i := Task d (turn_pc r)]> (notify_if (turn_notify r) tasks))
     now refusing) = (l, c') ->
  step (Config g tasks now refusing) l c'.
Proof. intros Hi r [= <- <-]. by apply StTurn. Qed.

Definition demo_labels : list label :=
  [LTau; LAdmitted 1 None; LTau; LQueued 2; LTau; LQueued 3; LTau; LQueued 4; LTau; LTau;
   LTau; LAdmitted 2 (Some 0%nat); LTau; LTau; LTau; LTau; LTau]%positive.
Definition demo_config : config :=
  Config (Gate 1 0 [2] 3)
    (list_to_map [(1, Task 10 Released); (2, Task 10 Released);
                  (3, Task 10 (Refused pool_timeout)); (4, Task 90 (Woken 2))]%positive)
    20 None.

Ltac demo_step tac := eapply run_cons; [tac|vm_compute].
Ltac demo_turn i := eapply (turn_step _ _ _ _ i); [reflexivity | vm_compute; reflexivity].

Lemma demo_run : run (init 1 0) demo_labels demo_config.
Proof.
  demo_step ltac:(by apply (StArrive _ _ _ _ 1%positive 10)).
  demo_step ltac:(demo_turn 1%positive).
  demo_step ltac:(by apply (StArrive _ _ _ _ 2%positive 10)).
  demo_step ltac:(demo_turn 2%positive).
  demo_step ltac:(by apply (StArrive _ _ _ _ 3%positive 10)).
  demo_step ltac:(demo_turn 3%positive).
  demo_step ltac:(by apply (StArrive _ _ _ _ 4%positive 90)).
  demo_step ltac:(demo_turn 4%positive).
  demo_step ltac:(by eapply (StReleasing _ _ _ _ 1%positive)).
  demo_step ltac:(by eapply (StRelease _ _ _ _ 1%positive)).
  demo_step ltac:(by eapply (StResume _ _ _ _ 2%positive)).
  demo_step ltac:(demo_turn 2%positive).
  demo_step ltac:(by apply (StClock _ _ _ 20)).
  demo_step ltac:(by eapply (StWaitRaises _ _ _ _ 3%positive 10 1 (Woken 1) pool_timeout);
                  [reflexivity|right|left]).
  demo_step ltac:(by eapply (StDrop _ _ _ _ 3%positive)).
  demo_step ltac:(by eapply (StReleasing _ _ _ _ 2%positive)).
  demo_step ltac:(by eapply (StRelease _ _ _ _ 2%positive)).
  constructor.
Qed.

Lemma demo_reachable : reachable 1 demo_config.
Proof. exists 0%Z, demo_labels. exact demo_run. Qed.

Lemma gate_accounting_witness :
  admitted (cfg_gate demo_config) = slots (cfg_tasks demo_config) /\
  NoDup (waiters (cfg_gate demo_config)).
Proof.
  destruct (gate_accounting 1 demo_config demo_reachable) as (H1 & _ & H2 & _).
  split; [exact H1|exact H2].
Defined.

Lemma gate_fifo_witness : sublist [2]%positive [2; 3; 4]%positive.
Proof. apply (gate_fifo 1 0 demo_labels demo_config demo_run). Defined.

(** Acquirer 4, notified of the free slot, is admitted under its ticket. *)
Lemma gate_no_lost_wakeup_witness : exists ls c' d,
  run demo_config ls c' /\ length ls <= 2 /\ LAdmitted 4%positive (Some 2) ∈ ls /\
  cfg_tasks c' !! 4%positive = Some (Task d Holding).
Proof.
  destruct (proj1 (gate_no_lost_wakeup 1 demo_config demo_reachable) 2) as (i & Hi & _ & Hw & _);
    [reflexivity|simpl; lia|reflexivity|].
  assert (H4 : has_ticket (cfg_tasks demo_config) 4%positive 2) by (eexists; split; reflexivity).
  pose proof (tok_unique _ _ (inv_tickets _ (reachable_invariant _ _ demo_reachable)) _ _ _ Hi H4) as ->.
  apply Hw. eexists; split; reflexivity.
Defined.

Lemma gate_timeouts_witness : (10 <= cfg_clock demo_config)%Z.
Proof.
  apply (proj1 (gate_timeouts 1 demo_config demo_reachable 3%positive 10 (Refused pool_timeout)
                  eq_refl) pool_timeout); reflexivity.
Defined.
