(* ===== verification/SqlitePool.v ===== *)
(** * The SQLite connection pool

    [SQLiteConnectionPool] of [sqlite/pool.py], on top of [PoolGate].  A
    connection is the number of its opening; an acquisition that holds a slot
    of the gate goes through the phases of [acquire], [release], [discard] and
    [_close_discarded]; one owned task runs [_close].  A driver call ends in
    either outcome (opening succeeds or not, closing succeeds or not). *)

From S2P Require Export PoolGate.

Definition check_accepting_work (closed closing : bool) : option exn :=
  if closed then Some (Exn DatabaseClosedError "database is closed")
  else if closing then Some (Exn DatabaseClosingError "database is closing")
  else None.

(** What an acquisition that holds a slot is doing; one without a phase has
    been admitted and has not looked at the idle connections yet. *)
Inductive phase :=
  | Opening                      (* awaits [open_sqlite_connection] *)
  | Opened (c : nat)             (* opened, about to recheck [closing] *)
  | Reaping (c : option nat)     (* [_close_opening], detached from its caller *)
  | Leased (c : nat)             (* in the caller's hands *)
  | Detached (c : nat)           (* [_close_discarded] *)
  | Leaving.                     (* about to call [gate.release()] *)

(** The owned task of [close]. *)
Inductive closer :=
  | NoClose
  | ClosingIdle (todo : list nat) (failed : bool)   (* first [close_connections] *)
  | Draining (deadline : Z)                         (* waits for [admitted == 0] *)
  | ClosingRest (todo : list nat) (failed : bool).  (* second [close_connections] *)

(** [p_opened] connections have been opened so far; [p_dead] are closed. *)
Record pool := Pool {
  p_gate : config;
  p_phases : gmap tid phase;
  p_closed : bool;
  p_closing : bool;
  p_idle : list nat;
  p_pending : list nat;
  p_closer : closer;
  p_opened : nat;
  p_dead : list nat;
  p_discarded : nat
}.

(** [__init__]: the initial connection is idle. *)
Definition new_pool (pool_size : nat) (now : Z) : pool :=
  Pool (init pool_size now) ∅ false false [0] [] NoClose 1 [] 0.

Definition set_gate (g : config) (P : pool) : pool :=
  Pool g (p_phases P) (p_closed P) (p_closing P) (p_idle P) (p_pending P) (p_closer P)
    (p_opened P) (p_dead P) (p_discarded P).
Definition set_phases (ph : gmap tid phase) (P : pool) : pool :=
  Pool (p_gate P) ph (p_closed P) (p_closing P) (p_idle P) (p_pending P) (p_closer P)
    (p_opened P) (p_dead P) (p_discarded P).
Definition set_phase (i : tid) (p : phase) (P : pool) : pool :=
  set_phases (<[i := p]> (p_phases P)) P.
Definition set_idle (l : list nat) (P : pool) : pool :=
  Pool (p_gate P) (p_phases P) (p_closed P) (p_closing P) l (p_pending P) (p_closer P)
    (p_opened P) (p_dead P) (p_discarded P).
Definition set_pending (l : list nat) (P : pool) : pool :=
  Pool (p_gate P) (p_phases P) (p_closed P) (p_closing P) (p_idle P) l (p_closer P)
    (p_opened P) (p_dead P) (p_discarded P).
Definition set_closer (k : closer) (P : pool) : pool :=
  Pool (p_gate P) (p_phases P) (p_closed P) (p_closing P) (p_idle P) (p_pending P) k
    (p_opened P) (p_dead P) (p_discarded P).
Definition bury (c : nat) (P : pool) : pool :=
  Pool (p_gate P) (p_phases P) (p_closed P) (p_closing P) (p_idle P) (p_pending P) (p_closer P)
    (p_opened P) (c :: p_dead P) (p_discarded P).
Definition open_one (P : pool) : pool :=
  Pool (p_gate P) (p_phases P) (p_closed P) (p_closing P) (p_idle P) (p_pending P) (p_closer P)
    (S (p_opened P)) (p_dead P) (p_discarded P).
Definition count_discard (P : pool) : pool :=
  Pool (p_gate P) (p_phases P) (p_closed P) (p_closing P) (p_idle P) (p_pending P) (p_closer P)
    (p_opened P) (p_dead P) (S (p_discarded P)).

(** Assigns [closed] and [closing] under the lock and notifies. *)
Definition set_state (closed closing : bool) (P : pool) : pool :=
  Pool (Config (cfg_gate (p_gate P)) (notify_all (cfg_tasks (p_gate P))) (cfg_clock (p_gate P))
          (check_accepting_work closed closing))
    (p_phases P) closed closing (p_idle P) (p_pending P) (p_closer P)
    (p_opened P) (p_dead P) (p_discarded P).

(** [gate.release()] of acquisition [i] begins. *)
Definition leave (i : tid) (d : Z) (P : pool) : pool :=
  set_phases (delete i (p_phases P))
    (set_gate (Config (cfg_gate (p_gate P)) (<[i := Task d Releasing]> (cfg_tasks (p_gate P)))
                 (cfg_clock (p_gate P)) (cfg_refusing (p_gate P))) P).

(** [idle_connections.pop()] *)
Definition pop_idle (l : list nat) : option (nat * list nat) :=
  match last l with Some c => Some (c, removelast l) | None => None end.

(** The first half of [_acquire]: an idle connection, or open one. *)
Definition checkout (i : tid) (P : pool) : pool :=
  match pop_idle (p_idle P) with
  | Some (c, rest) => set_phase i (Leased c) (set_idle rest P)
  | None => set_phase i Opening P
  end.

(** The second half: the fresh connection is handed out unless the pool has
    started closing meanwhile. *)
Definition after_open (i : tid) (c : nat) (P : pool) : pool :=
  if negb (p_closed P) && negb (p_closing P) then set_phase i (Leased c) P
  else set_phase i (Reaping (Some c)) P.

(** [release(connection)] *)
Definition release (i : tid) (c : nat) (P : pool) : pool :=
  if p_closed P || p_closing P then set_phase i (Detached c) P
  else set_phase i Leaving (set_idle (p_idle P ++ [c]) P).

(** [discard(connection)] *)
Definition discard (i : tid) (c : nat) (P : pool) : pool :=
  set_phase i (Detached c) (count_discard P).

(** [_close_discarded(connection)], when the close succeeds and when it fails. *)
Definition closed_discarded (i : tid) (c : nat) (P : pool) : pool :=
  set_phase i Leaving (bury c P).
Definition quarantine (i : tid) (c : nat) (P : pool) : pool :=
  set_phase i Leaving (set_state (p_closed P) true (set_pending (p_pending P ++ [c]) P)).

(** The idle connections move to [_pending_close_connections]; the result is
    the tuple that [close_connections] walks. *)
Definition detach_idle (P : pool) : pool :=
  set_idle [] (set_pending (p_pending P ++ p_idle P) P).

(** One connection of [close_connections]. *)
Definition close_one (c : nat) (ok : bool) (P : pool) : pool :=
  if ok then bury c (set_pending (remove_first c (p_pending P)) P) else P.

(** [_close] gives up: work is accepted again unless a handle is pending. *)
Definition close_timed_out (P : pool) : pool :=
  set_closer NoClose (set_state false (bool_decide (p_pending P <> [])) P).

Definition holder (P : pool) (i : tid) (d : Z) : Prop :=
  cfg_tasks (p_gate P) !! i = Some (Task d Holding).

(** A step of the gate that neither ends an admission nor changes the pool. *)
Definition internal (c c' : config) : Prop :=
  cfg_refusing c' = cfg_refusing c /\
  forall i d, cfg_tasks c !! i = Some (Task d Holding) ->
    cfg_tasks c' !! i = Some (Task d Holding).

Inductive pstep : pool -> pool -> Prop :=
  | PsGate P l g' : step (p_gate P) l g' -> internal (p_gate P) g' -> pstep P (set_gate g' P)
  | PsLeave P i d :
      (* also a callback or cancellation that stops [acquire] before checkout *)
      holder P i d -> p_phases P !! i = None \/ p_phases P !! i = Some Leaving ->
      pstep P (leave i d P)
  | PsCheckout P i d : holder P i d -> p_phases P !! i = None -> pstep P (checkout i P)
  | PsOpened P i : p_phases P !! i = Some Opening ->
      pstep P (set_phase i (Opened (p_opened P)) (open_one P))
  | PsOpenRaises P i : p_phases P !! i = Some Opening ->
      (* the opening failed, the deadline passed or the caller was cancelled *)
      pstep P (set_phase i (Reaping None) P)
  | PsAfterOpen P i c : p_phases P !! i = Some (Opened c) -> pstep P (after_open i c P)
  | PsAfterOpenRaises P i c : p_phases P !! i = Some (Opened c) ->
      pstep P (set_phase i (Reaping (Some c)) P)
  | PsReapNothing P i : p_phases P !! i = Some (Reaping None) -> pstep P (set_phase i Leaving P)
  | PsReapLate P i : p_phases P !! i = Some (Reaping None) ->
      pstep P (set_phase i (Detached (p_opened P)) (open_one P))
  | PsReap P i c : p_phases P !! i = Some (Reaping (Some c)) ->
      pstep P (set_phase i (Detached c) P)
  | PsRelease P i c : p_phases P !! i = Some (Leased c) -> pstep P (release i c P)
  | PsDiscard P i c : p_phases P !! i = Some (Leased c) -> pstep P (discard i c P)
  | PsClosedDiscarded P i c : p_phases P !! i = Some (Detached c) ->
      pstep P (closed_discarded i c P)
  | PsQuarantine P i c : p_phases P !! i = Some (Detached c) -> pstep P (quarantine i c P)
  | PcStart P : p_closer P = NoClose -> p_closed P = false ->
      pstep P (set_closer (ClosingIdle (p_pending P ++ p_idle P) false)
                 (set_state false true (detach_idle P)))
  | PcIdleOne P c todo failed ok : p_closer P = ClosingIdle (c :: todo) failed ->
      pstep P (set_closer (ClosingIdle todo (failed || negb ok)) (close_one c ok P))
  | PcIdleFailed P : p_closer P = ClosingIdle [] true -> pstep P (set_closer NoClose P)
  | PcIdleDone P deadline : p_closer P = ClosingIdle [] false ->
      pstep P (set_closer (Draining deadline) P)
  | PcDrained P deadline : p_closer P = Draining deadline -> admitted (cfg_gate (p_gate P)) = 0 ->
      pstep P (set_closer (ClosingRest (p_pending P ++ p_idle P) false) (detach_idle P))
  | PcTimedOut P deadline : p_closer P = Draining deadline ->
      (deadline <= cfg_clock (p_gate P))%Z ->
      pstep P (close_timed_out P)
  | PcRestOne P c todo failed ok : p_closer P = ClosingRest (c :: todo) failed ->
      pstep P (set_closer (ClosingRest todo (failed || negb ok)) (close_one c ok P))
  | PcRestFailed P : p_closer P = ClosingRest [] true -> pstep P (set_closer NoClose P)
  | PcDone P : p_closer P = ClosingRest [] false ->
      pstep P (set_closer NoClose (set_state true false P)).

Inductive preachable (pool_size : nat) : pool -> Prop :=
  | pr_init now : preachable pool_size (new_pool pool_size now)
  | pr_step P P' : preachable pool_size P -> pstep P P' -> preachable pool_size P'.

(** ** Where a connection is *)

Definition conn_of (p : phase) : option nat :=
  match p with Opened c | Reaping (Some c) | Leased c | Detached c => Some c | _ => None end.
(** A phase that has, or may still bring, a physical connection. *)
Definition busy (p : phase) : bool := match p with Leaving => false | _ => true end.

Definition occ (c : nat) (l : list nat) : nat := count_occ Nat.eq_dec l c.
Definition held (c : nat) (phases : gmap tid phase) : nat :=
  count_map (fun q => bool_decide (conn_of q = Some c)) phases.

(** How many times connection [c] is accounted for. *)
Definition places (c : nat) (P : pool) : nat :=
  occ c (p_idle P) + occ c (p_pending P) + held c (p_phases P) + occ c (p_dead P).

Definition closer_ok (P : pool) : Prop :=
  match p_closer P with
  | NoClose => True
  | ClosingIdle todo _ =>
      p_closing P = true /\ p_closed P = false /\ NoDup todo /\
      forall c, c ∈ todo -> c ∈ p_pending P
  | Draining _ => p_closing P = true /\ p_closed P = false
  | ClosingRest todo failed =>
      p_closing P = true /\ p_closed P = false /\ admitted (cfg_gate (p_gate P)) = 0 /\
      p_idle P = [] /\ NoDup todo /\ (forall c, c ∈ todo -> c ∈ p_pending P) /\
      (failed = false -> forall c, c ∈ p_pending P -> c ∈ todo)
  end.

Record pool_invariant (P : pool) : Prop := {
  pi_gate : invariant (p_gate P);
  pi_refusing : cfg_refusing (p_gate P) = check_accepting_work (p_closed P) (p_closing P);
  pi_phases : forall i p, p_phases P !! i = Some p -> exists d, holder P i d;
  pi_places : forall c, places c P = if c <? p_opened P then 1 else 0;
  pi_bound : length (p_idle P) + count_map busy (p_phases P) <= capacity (cfg_gate (p_gate P));
  pi_quarantine : p_pending P <> [] -> p_closing P = true /\ p_closed P = false;
  pi_closed : p_closed P = true ->
    admitted (cfg_gate (p_gate P)) = 0 /\ p_idle P = [];
  pi_closer : closer_ok P
}.

(** ** Occurrences *)

Arguments occ : simpl never.

Lemma occ_nil c : occ c [] = 0.
Proof. done. Qed.

Lemma occ_app c l l' : occ c (l ++ l') = occ c l + occ c l'.
Proof. apply count_occ_app. Qed.

Lemma occ_one c c' : occ c [c'] = Nat.b2n (bool_decide (c' = c)).
Proof. unfold occ. simpl. case_bool_decide; destruct (Nat.eq_dec c' c); done. Qed.

Lemma occ_pos c l : c ∈ l <-> 0 < occ c l.
Proof. rewrite list_elem_of_In. apply count_occ_In. Qed.

Lemma occ_cons c x l : occ c (x :: l) = occ c [x] + occ c l.
Proof. apply (occ_app c [x]). Qed.

Lemma occ_remove c c' l : c' ∈ l -> occ c (remove_first c' l) + occ c [c'] = occ c l.
Proof.
  induction l as [|x l IH]; [by intros H%not_elem_of_nil|].
  intros [->|H]%elem_of_cons; cbn [remove_first]; case_decide as Hx; subst;
    rewrite ?decide_True by done; rewrite ?(occ_cons c _ l), ?(occ_cons c _ (remove_first _ _));
    try specialize (IH H); try done; lia.
Qed.

Lemma occ_nodup c l : NoDup l -> occ c l <= 1.
Proof. intros H%NoDup_ListNoDup. by apply NoDup_count_occ. Qed.

Lemma pop_idle_spec l c rest : pop_idle l = Some (c, rest) -> l = rest ++ [c].
Proof.
  unfold pop_idle. destruct (last l) as [x|] eqn:Hl; [|done]. intros [= -> <-].
  apply last_Some in Hl as (l' & ->). by rewrite removelast_last.
Qed.
Lemma pop_idle_none l : pop_idle l = None -> l = [].
Proof. unfold pop_idle. destruct (last l) eqn:Hl; [done|]. by apply last_None in Hl. Qed.

Lemma held_insert c (phases : gmap tid phase) i p :
  held c (<[i := p]> phases) + count_opt (fun q => bool_decide (conn_of q = Some c)) (phases !! i)
  = held c phases + Nat.b2n (bool_decide (conn_of p = Some c)).
Proof. exact (count_map_insert (fun q => bool_decide (conn_of q = Some c)) phases i p). Qed.

Lemma busy_insert (phases : gmap tid phase) i p :
  count_map busy (<[i := p]> phases) + count_opt busy (phases !! i)
  = count_map busy phases + Nat.b2n (busy p).
Proof. apply count_map_insert. Qed.

Lemma some_eq_bool (c c' : nat) : bool_decide (Some c' = Some c) = bool_decide (c' = c).
Proof. apply bool_decide_ext. split; congruence. Qed.

(** ** Every step keeps the invariant *)

Lemma holder_admitted P i d : pool_invariant P -> holder P i d ->
  0 < admitted (cfg_gate (p_gate P)).
Proof.
  intros HP Hi. rewrite (inv_slots _ (pi_gate _ HP)). by eapply count_map_pos.
Qed.

Lemma busy_le_slots P : pool_invariant P ->
  count_map busy (p_phases P) <= admitted (cfg_gate (p_gate P)).
Proof.
  intros HP. rewrite (inv_slots _ (pi_gate _ HP)). apply count_map_le. intros i p Hi _.
  destruct (pi_phases _ HP _ _ Hi) as (d & Hd). by eexists.
Qed.

(** An admitted acquisition that has no connection yet has room for one. *)
Lemma busy_lt_slots P i d : pool_invariant P -> holder P i d -> p_phases P !! i = None ->
  count_map busy (p_phases P) < admitted (cfg_gate (p_gate P)).
Proof.
  intros HP Hd Hi. rewrite (inv_slots _ (pi_gate _ HP)). unfold slots.
  pose proof (count_map_insert busy (p_phases P) i Opening) as Hb. rewrite Hi in Hb. simpl in Hb.
  enough (count_map busy (<[i := Opening]> (p_phases P))
          <= count_map (fun tk => holds_slot (t_pc tk)) (cfg_tasks (p_gate P))) by lia.
  apply count_map_le. intros j p Hj _. destruct (decide (j = i)) as [->|Hne]; [by eexists|].
  rewrite lookup_insert_ne in Hj by done.
  destruct (pi_phases _ HP _ _ Hj) as (d' & Hd'). by eexists.
Qed.

(** The state after a step of acquisition [i] that keeps its slot. *)
Lemma holder_step P P' i d p :
  pool_invariant P -> holder P i d ->
  p_gate P' = p_gate P -> p_closed P' = p_closed P -> p_closing P' = p_closing P ->
  p_closer P' = p_closer P -> p_pending P' = p_pending P ->
  p_phases P' = <[i := p]> (p_phases P) ->
  (forall c, places c P' = if c <? p_opened P' then 1 else 0) ->
  length (p_idle P') + count_map busy (p_phases P') <= capacity (cfg_gate (p_gate P)) ->
  pool_invariant P'.
Proof.
  intros HP Hd Hg Hcd Hcg Hck Hpd Hph Hpl Hb.
  pose proof (holder_admitted P i d HP Hd) as Hadm.
  destruct HP as [Hgate Href Hphases Hplaces Hbound Hq Hcl Hk].
  split; rewrite ?Hg, ?Hcd, ?Hcg, ?Hck, ?Hpd; try done.
  - intros j q Hj. unfold holder. rewrite Hg. rewrite Hph in Hj.
    destruct (decide (j = i)) as [->|Hne]; [by eexists|].
    rewrite lookup_insert_ne in Hj by done. eauto.
  - intros Hc. destruct (Hcl Hc). lia.
  - unfold closer_ok in *. rewrite Hck, Hcd, Hcg, Hpd, Hg.
    destruct (p_closer P); try done. destruct Hk as (_ & _ & Hz & _). lia.
Qed.

Lemma fresh_ltb c n : (if c <? S n then 1 else 0)
  = (if c <? n then 1 else 0) + Nat.b2n (bool_decide (n = c)).
Proof. case_bool_decide; destruct (Nat.ltb_spec c (S n)), (Nat.ltb_spec c n); simpl; lia. Qed.

(** Counts the places of every connection after acquisition [i] changed phase. *)
Ltac count_places HP i p Hi := let x := fresh "x" in intros x; unfold places;
  pose proof (pi_places _ HP x) as Hbefore; unfold places in Hbefore;
  let P := match type of HP with pool_invariant ?P => P end in
  pose proof (held_insert x (p_phases P) i p) as Hheld;
  rewrite Hi in Hheld; cbn [count_opt conn_of] in Hheld;
  rewrite ?some_eq_bool in Hheld;
  cbn [discard closed_discarded set_phase set_phases set_idle set_pending bury open_one count_discard
       p_idle p_pending p_phases p_dead p_opened];
  rewrite ?fresh_ltb, ?occ_app, ?(occ_cons _ _ (p_dead P)), ?occ_one; simpl in *; lia.

Ltac count_busy HP i p Hi :=
  pose proof (pi_bound _ HP) as Hbound;
  let P := match type of HP with pool_invariant ?P => P end in
  pose proof (busy_insert (p_phases P) i p) as Hbusy;
  rewrite Hi in Hbusy; simpl in *; rewrite ?length_app; simpl; lia.

Lemma checkout_invariant P i d :
  pool_invariant P -> holder P i d -> p_phases P !! i = None -> pool_invariant (checkout i P).
Proof.
  intros HP Hd Hi. unfold checkout. destruct (pop_idle (p_idle P)) as [[c rest]|] eqn:Hpop.
  - apply pop_idle_spec in Hpop.
    eapply (holder_step P _ i d (Leased c)); try done.
    + intros c'. pose proof (pi_places _ HP c') as Hb. unfold places in *. rewrite Hpop in Hb.
      pose proof (held_insert c' (p_phases P) i (Leased c)) as Hh. rewrite Hi in Hh.
      cbn [count_opt conn_of] in Hh. rewrite some_eq_bool in Hh.
      rewrite occ_app, occ_one in Hb. simpl in *. lia.
    + pose proof (pi_bound _ HP) as Hb. rewrite Hpop, length_app in Hb.
      pose proof (busy_insert (p_phases P) i (Leased c)) as Hbusy. rewrite Hi in Hbusy.
      simpl in *. lia.
  - apply pop_idle_none in Hpop. eapply (holder_step P _ i d Opening); try done.
    + count_places HP i Opening Hi.
    + pose proof (busy_lt_slots P i d HP Hd Hi) as Hlt.
      pose proof (inv_capacity _ (pi_gate _ HP)) as Hc.
      pose proof (busy_insert (p_phases P) i Opening) as Hbusy. rewrite Hi in Hbusy.
      simpl in *. rewrite Hpop. simpl. lia.
Qed.

(** A step of acquisition [i] to phase [p]. *)
Ltac phase_step HP Hd i p Hi :=
  eapply (holder_step _ _ i _ p HP Hd); try done;
  lazymatch goal with
  | |- le _ _ => count_busy HP i p Hi
  | |- _ => count_places HP i p Hi
  end.

Lemma after_open_invariant P i d c :
  pool_invariant P -> holder P i d -> p_phases P !! i = Some (Opened c) ->
  pool_invariant (after_open i c P).
Proof.
  intros HP Hd Hi. unfold after_open. destruct (_ && _).
  - phase_step HP Hd i (Leased c) Hi.
  - phase_step HP Hd i (Reaping (Some c)) Hi.
Qed.

Lemma release_invariant P i d c :
  pool_invariant P -> holder P i d -> p_phases P !! i = Some (Leased c) ->
  pool_invariant (release i c P).
Proof.
  intros HP Hd Hi. unfold release. destruct (_ || _).
  - phase_step HP Hd i (Detached c) Hi.
  - phase_step HP Hd i Leaving Hi.
Qed.

(** ** The other steps *)

Lemma notify_invariant P closed closing :
  pool_invariant P -> invariant (p_gate (set_state closed closing P)).
Proof.
  intros HP. pose proof (pi_gate _ HP) as Hg. destruct (p_gate P) as [g tasks now refusing] eqn:HG.
  unfold set_state. simpl. rewrite HG. simpl. eapply invariant_step; [exact Hg|].
  apply StPoolState. intros e. unfold check_accepting_work.
  destruct closed, closing; intros [= <-]; done.
Qed.

Lemma holder_notify P closed closing i d :
  holder P i d -> holder (set_state closed closing P) i d.
Proof.
  unfold holder, set_state, notify_all. simpl. intros H. by rewrite lookup_fmap, H.
Qed.

Lemma gate_invariant_step P l g' :
  pool_invariant P -> step (p_gate P) l g' -> internal (p_gate P) g' ->
  pool_invariant (set_gate g' P).
Proof.
  intros [Hgate Href Hphases Hplaces Hbound Hq Hcl Hk] Hst [Hr Hkeep].
  pose proof (step_refused _ _ _ Hst) as Hmono. pose proof (step_capacity _ _ _ Hst) as Hcap.
  rewrite Href in Hmono.
  split; simpl; try done.
  - by eapply invariant_step.
  - by rewrite Hr.
  - intros i p Hi. destruct (Hphases _ _ Hi) as (d & Hd). exists d. by apply Hkeep.
  - by rewrite Hcap.
  - intros Hc. destruct (Hcl Hc). split; [|done]. rewrite Hc in Hmono. simpl in Hmono.
    specialize (Hmono ltac:(done)). lia.
  - unfold closer_ok in *. simpl. destruct (p_closer P); try done.
    destruct Hk as (Hcg & Hcd & Hz & Hrest). rewrite Hcg, Hcd in Hmono. simpl in Hmono.
    specialize (Hmono ltac:(done)). split_and!; try done; try apply Hrest. lia.
Qed.

Lemma leave_invariant P i d :
  pool_invariant P -> holder P i d ->
  p_phases P !! i = None \/ p_phases P !! i = Some Leaving -> pool_invariant (leave i d P).
Proof.
  intros HP Hd Hi. pose proof (holder_admitted P i d HP Hd) as Hadm.
  assert (Hcount : forall f : phase -> bool, f Leaving = false ->
    count_map f (delete i (p_phases P)) = count_map f (p_phases P)).
  { intros f Hf. rewrite (count_map_delete f (p_phases P) i).
    destruct Hi as [-> | ->]; simpl; by rewrite ?Hf. }
  destruct HP as [Hgate Href Hphases Hplaces Hbound Hq Hcl Hk].
  split; simpl; try done.
  - eapply invariant_step; [exact Hgate|]. destruct (p_gate P) eqn:HG.
    unfold holder in Hd. rewrite HG in Hd. by apply StReleasing.
  - intros j p Hj. apply lookup_delete_Some in Hj as [Hne Hj].
    destruct (Hphases _ _ Hj) as (d' & Hd'). exists d'. unfold holder. simpl.
    by rewrite lookup_insert_ne.
  - intros c. unfold places, held. simpl. rewrite Hcount; [apply Hplaces|done].
  - by rewrite Hcount.
Qed.

Lemma quarantine_invariant P i d c :
  pool_invariant P -> holder P i d -> p_phases P !! i = Some (Detached c) ->
  pool_invariant (quarantine i c P).
Proof.
  intros HP Hd Hi. pose proof (holder_admitted P i d HP Hd) as Hadm.
  pose proof (notify_invariant P (p_closed P) true HP) as Hn.
  pose proof (holder_notify P (p_closed P) true i d Hd) as Hd'.
  assert (Hpl : forall x, places x (quarantine i c P) = if x <? p_opened P then 1 else 0).
  { intros x. pose proof (pi_places _ HP x) as Hb. unfold places in *.
    pose proof (held_insert x (p_phases P) i Leaving) as Hh. rewrite Hi in Hh.
    cbn [count_opt conn_of] in Hh. rewrite some_eq_bool in Hh.
    cbn [quarantine set_phase set_phases set_state set_pending p_idle p_pending p_phases p_dead].
    rewrite occ_app, occ_one. simpl in *. lia. }
  assert (Hbusy : length (p_idle P) + count_map busy (<[i := Leaving]> (p_phases P))
                  <= capacity (cfg_gate (p_gate P))) by count_busy HP i Leaving Hi.
  destruct HP as [Hgate Href Hphases Hplaces Hbound Hq Hcl Hk].
  assert (Hcd : p_closed P = false).
  { destruct (p_closed P); [|done]. destruct (Hcl eq_refl). lia. }
  split; simpl; try done.
  - intros j p Hj. destruct (decide (j = i)) as [->|Hne]; [by eexists|].
    rewrite lookup_insert_ne in Hj by done. destruct (Hphases _ _ Hj) as (d' & Hj').
    exists d'. by apply (holder_notify P (p_closed P) true).
  - unfold closer_ok in *. simpl. rewrite Hcd in *. destruct (p_closer P); try done.
    + destruct Hk as (_ & _ & Hnd & Hin). split_and!; try done.
      intros x Hx. apply elem_of_app. left. auto.
    + destruct Hk as (_ & _ & Hz & _). lia.
Qed.

(** ** Closing *)

(** A closing step moves connections between [idle], [pending] and [dead] and
    sets the state; the acquisitions stay where they are. *)
Lemma close_step P P' :
  pool_invariant P ->
  (p_gate P' = p_gate P /\ p_closed P' = p_closed P /\ p_closing P' = p_closing P \/
   exists closed closing, p_gate P' = p_gate (set_state closed closing P) /\
     p_closed P' = closed /\ p_closing P' = closing) ->
  p_phases P' = p_phases P -> p_opened P' = p_opened P ->
  (forall c, occ c (p_idle P') + occ c (p_pending P') + occ c (p_dead P')
             = occ c (p_idle P) + occ c (p_pending P) + occ c (p_dead P)) ->
  length (p_idle P') <= length (p_idle P) ->
  (p_pending P' <> [] -> p_closing P' = true /\ p_closed P' = false) ->
  (p_closed P' = true -> admitted (cfg_gate (p_gate P')) = 0 /\ p_idle P' = []) ->
  closer_ok P' -> pool_invariant P'.
Proof.
  intros HP Hst Hph Hop Hocc Hlen Hq' Hcl' Hk'.
  assert (Hg : invariant (p_gate P') /\
    cfg_refusing (p_gate P') = check_accepting_work (p_closed P') (p_closing P') /\
    capacity (cfg_gate (p_gate P')) = capacity (cfg_gate (p_gate P)) /\
    forall i d, holder P i d -> holder P' i d).
  { unfold holder. destruct Hst as [(-> & -> & ->)|(closed & closing & -> & -> & ->)].
    - split_and!; try done; apply HP.
    - split_and!; try done; [by apply notify_invariant|]. by apply holder_notify. }
  destruct Hg as (Hg & Hr & Hc & Hh). destruct HP as [_ _ Hphases Hplaces Hbound _ _ _].
  split; try done.
  - intros i p Hi. rewrite Hph in Hi. destruct (Hphases _ _ Hi) as (d & Hd). eauto.
  - intros c. specialize (Hplaces c). specialize (Hocc c). unfold places in *.
    rewrite Hph, Hop. lia.
  - rewrite Hph, Hc. lia.
Qed.

(** The handles [close_connections] walks are distinct. *)
Lemma detached_nodup P : pool_invariant P -> NoDup (p_pending P ++ p_idle P).
Proof.
  intros HP. apply NoDup_ListNoDup, (NoDup_count_occ Nat.eq_dec). intros c.
  pose proof (pi_places _ HP c) as Hpl. unfold places in Hpl.
  change (occ c (p_pending P ++ p_idle P) <= 1). rewrite occ_app.
  destruct (c <? p_opened P); lia.
Qed.

Lemma close_one_occ P c ok x : c ∈ p_pending P ->
  occ x (p_idle (close_one c ok P)) + occ x (p_pending (close_one c ok P))
    + occ x (p_dead (close_one c ok P))
  = occ x (p_idle P) + occ x (p_pending P) + occ x (p_dead P).
Proof.
  intros Hc. destruct ok; simpl; [|done]. rewrite (occ_cons _ _ (p_dead P)).
  pose proof (occ_remove x c (p_pending P) Hc). lia.
Qed.

Lemma close_one_pending P c ok todo :
  NoDup (c :: todo) -> (forall x, x ∈ c :: todo -> x ∈ p_pending P) ->
  NoDup todo /\ forall x, x ∈ todo -> x ∈ p_pending (close_one c ok P).
Proof.
  intros [Hc Hnd]%NoDup_cons Hin. split; [done|]. intros x Hx.
  destruct ok; simpl; [|apply Hin; by right].
  apply remove_first_other; [by intros ->|apply Hin; by right].
Qed.

Lemma start_close_invariant P :
  pool_invariant P -> p_closed P = false ->
  pool_invariant (set_closer (ClosingIdle (p_pending P ++ p_idle P) false)
                    (set_state false true (detach_idle P))).
Proof.
  intros HP Hcd. apply (close_step P); simpl; try done.
  - right. by exists false, true.
  - intros c. rewrite occ_app, ?occ_nil. lia.
  - lia.
  - split_and!; try done. by apply detached_nodup.
Qed.

Lemma idle_one_invariant P c todo failed ok :
  pool_invariant P -> p_closer P = ClosingIdle (c :: todo) failed ->
  pool_invariant (set_closer (ClosingIdle todo (failed || negb ok)) (close_one c ok P)).
Proof.
  intros HP Hk. pose proof (pi_closer _ HP) as Hok. unfold closer_ok in Hok. rewrite Hk in Hok.
  destruct Hok as (Hcg & Hcd & Hnd & Hin).
  destruct (close_one_pending P c ok todo Hnd Hin) as [Hnd' Hin'].
  apply (close_step P); simpl; try (by destruct ok); auto.
  - left. by destruct ok.
  - intros x. apply close_one_occ, Hin. left.
  - destruct ok; simpl; intros; congruence.
Qed.

Lemma drained_invariant P deadline :
  pool_invariant P -> p_closer P = Draining deadline -> admitted (cfg_gate (p_gate P)) = 0 ->
  pool_invariant (set_closer (ClosingRest (p_pending P ++ p_idle P) false) (detach_idle P)).
Proof.
  intros HP Hk Hz. pose proof (pi_closer _ HP) as Hok. unfold closer_ok in Hok. rewrite Hk in Hok.
  destruct Hok as (Hcg & Hcd). apply (close_step P); simpl; try done.
  - by left.
  - intros c. rewrite occ_app, ?occ_nil. lia.
  - lia.
  - split_and!; try done. by apply detached_nodup.
Qed.

Lemma rest_one_invariant P c todo failed ok :
  pool_invariant P -> p_closer P = ClosingRest (c :: todo) failed ->
  pool_invariant (set_closer (ClosingRest todo (failed || negb ok)) (close_one c ok P)).
Proof.
  intros HP Hk. pose proof (pi_closer _ HP) as Hok. unfold closer_ok in Hok. rewrite Hk in Hok.
  destruct Hok as (Hcg & Hcd & Hz & Hidle & Hnd & Hin & Hall).
  destruct (close_one_pending P c ok todo Hnd Hin) as [Hnd' Hin'].
  pose proof (detached_nodup _ HP) as Hndp. apply NoDup_app in Hndp as (Hndp & _ & _).
  apply (close_step P); simpl; try (by destruct ok); auto.
  - left. by destruct ok.
  - intros x. apply close_one_occ, Hin. left.
  - unfold closer_ok; simpl. destruct ok; simpl; split_and!; try done.
    + intros Hf x Hx. rewrite orb_false_r in Hf. pose proof Hx as Hx'.
      apply remove_first_elem, (Hall Hf) in Hx. apply elem_of_cons in Hx as [->|Hx]; [|done].
      apply occ_pos in Hx'. pose proof (occ_remove c c (p_pending P) (Hin c ltac:(left))) as Ho.
      pose proof (occ_nodup c _ Hndp). rewrite occ_one, bool_decide_eq_true_2 in Ho by done.
      simpl in Ho. lia.
    + by rewrite orb_true_r.
Qed.

Lemma pstep_invariant P P' : pool_invariant P -> pstep P P' -> pool_invariant P'.
Proof.
  intros HP Hst.
  destruct Hst as [P l g' Hst Hint|P i d Hd Hi|P i d Hd Hi|P i Hi|P i Hi|P i c Hi|P i c Hi
    |P i Hi|P i Hi|P i c Hi|P i c Hi|P i c Hi|P i c Hi|P i c Hi
    |P Hk Hcd|P c todo failed ok Hk|P Hk|P dl Hk|P dl Hk Hz|P dl Hk Hdl|P c todo failed ok Hk
    |P Hk|P Hk];
    try (destruct (pi_phases _ HP _ _ Hi) as (d & Hd));
    try (pose proof (pi_closer _ HP) as Hok; unfold closer_ok in Hok; rewrite Hk in Hok).
  - by eapply gate_invariant_step.
  - by apply leave_invariant.
  - by eapply checkout_invariant.
  - phase_step HP Hd i (Opened (p_opened P)) Hi.
  - phase_step HP Hd i (Reaping None) Hi.
  - by eapply after_open_invariant.
  - phase_step HP Hd i (Reaping (Some c)) Hi.
  - phase_step HP Hd i Leaving Hi.
  - phase_step HP Hd i (Detached (p_opened P)) Hi.
  - phase_step HP Hd i (Detached c) Hi.
  - by eapply release_invariant.
  - phase_step HP Hd i (Detached c) Hi.
  - phase_step HP Hd i Leaving Hi.
  - by eapply quarantine_invariant.
  - by apply start_close_invariant.
  - by apply idle_one_invariant.
  - apply (close_step P); simpl; try done; try apply HP. by left.
  - destruct Hok as (Hcg & Hcd & _). apply (close_step P); simpl; try done; try apply HP. by left.
  - by eapply drained_invariant.
  - destruct Hok as [Hcg Hcd]. apply (close_step P); simpl; try done.
    + right. by exists false, (bool_decide (p_pending P <> [])).
    + intros Hne. split; [|done]. by apply bool_decide_eq_true.
  - by apply rest_one_invariant.
  - apply (close_step P); simpl; try done; try apply HP. by left.
  - destruct Hok as (Hcg & Hcd & Hz & Hidle & _ & _ & Hall).
    apply (close_step P); simpl; try done.
    + right. by exists true, false.
    + intros Hne. destruct (p_pending P) as [|c l]; [done|].
      specialize (Hall eq_refl c ltac:(left)). by apply not_elem_of_nil in Hall.
Qed.

Lemma new_pool_invariant n now : 0 < n -> pool_invariant (new_pool n now).
Proof.
  intros Hn. split; simpl; try done; try lia.
  - apply invariant_init.
  - intros c. unfold places, held, count_map. simpl. rewrite occ_one, ?occ_nil.
    rewrite map_filter_empty, map_size_empty. case_bool_decide; destruct (Nat.ltb_spec c 1); simpl; lia.
Qed.

Lemma preachable_invariant n P : 0 < n -> preachable n P -> pool_invariant P.
Proof. intros Hn. induction 1; eauto using new_pool_invariant, pstep_invariant. Qed.

Lemma pstep_capacity P P' : pstep P P' ->
  capacity (cfg_gate (p_gate P')) = capacity (cfg_gate (p_gate P)).
Proof.
  destruct 1; unfold checkout, after_open, release, close_one; repeat case_match; try done.
  by eapply step_capacity.
Qed.

Lemma preachable_capacity n P : preachable n P -> capacity (cfg_gate (p_gate P)) = n.
Proof. induction 1 as [|P P' HP IH Hst]; [done|]. by rewrite (pstep_capacity _ _ Hst). Qed.

(** ** Properties *)

(** C20: connections are neither lost nor shared.  Every connection ever opened
    is in exactly one place: idle, retained for a later close, held by one
    acquisition (opened, leased, being closed), or physically closed.  In
    particular no connection is leased twice, and a leased one is not idle. *)
Theorem pool_connections_conserved n P (Hn : 0 < n) (HP : preachable n P) :
  (forall c, occ c (p_idle P) + occ c (p_pending P) + held c (p_phases P) + occ c (p_dead P)
             = if c <? p_opened P then 1 else 0) /\
  (forall i j c, p_phases P !! i = Some (Leased c) -> p_phases P !! j = Some (Leased c) -> i = j) /\
  (forall i c, p_phases P !! i = Some (Leased c) ->
     c ∉ p_idle P /\ c ∉ p_pending P /\ c ∉ p_dead P).
Proof.
  pose proof (pi_places _ (preachable_invariant _ _ Hn HP)) as Hpl. unfold places in Hpl.
  assert (Hle : forall c, (if c <? p_opened P then 1 else 0) <= 1) by (intros c; case_match; lia).
  split; [done|]. split.
  - intros i j c Hi Hj. destruct (decide (i = j)) as [|Hne]; [done|]. exfalso.
    assert (2 <= held c (p_phases P)) as H2
      by (eapply count_map_two; [exact Hne|done|done|by apply bool_decide_eq_true..]).
    specialize (Hpl c). specialize (Hle c). lia.
  - intros i c Hi. specialize (Hpl c). specialize (Hle c).
    assert (0 < held c (p_phases P)) as H1
      by (eapply count_map_pos; [done|by apply bool_decide_eq_true]).
    rewrite !occ_pos. split_and!; lia.
Qed.

(** capacity.  A slot is kept for the whole life of its connection: every
    acquisition that is opening, using, reaping or closing one still counts in
    [admitted], so the idle and busy connections never exceed [pool_size]. *)
Theorem pool_bounded n P (Hn : 0 < n) (HP : preachable n P) :
  length (p_idle P) + count_map busy (p_phases P) <= n /\
  admitted (cfg_gate (p_gate P)) <= n /\
  (forall i p, p_phases P !! i = Some p -> exists d, cfg_tasks (p_gate P) !! i = Some (Task d Holding)) /\
  size (p_phases P) <= admitted (cfg_gate (p_gate P)).
Proof.
  pose proof (preachable_invariant _ _ Hn HP) as Hinv.
  pose proof (preachable_capacity _ _ HP) as Hcap. rewrite <- Hcap at 1 2.
  split_and!; [apply Hinv|apply (inv_capacity _ (pi_gate _ Hinv))|apply (pi_phases _ Hinv)|].
  rewrite (inv_slots _ (pi_gate _ Hinv)). unfold slots.
  replace (size (p_phases P)) with (count_map (fun _ : phase => true) (p_phases P)).
  - apply count_map_le. intros i p Hi _. destruct (pi_phases _ Hinv _ _ Hi) as (d & Hd).
    by eexists.
  - unfold count_map. f_equal. apply map_filter_id. done.
Qed.

(** C35: shutdown.  A retained handle (a close that failed) keeps the pool from
    accepting work.  Once the pool is closed no slot is held, every connection
    it ever opened has been physically closed, new work is refused, and that
    stays so. *)
Theorem pool_shutdown n P (Hn : 0 < n) (HP : preachable n P) :
  (p_pending P <> [] -> exists e, cfg_refusing (p_gate P) = Some e) /\
  (p_closed P = true ->
     p_phases P = ∅ /\ (forall c, c < p_opened P -> c ∈ p_dead P) /\
     cfg_refusing (p_gate P) = Some (Exn DatabaseClosedError "database is closed") /\
     forall P', pstep P P' -> p_closed P' = true /\ p_opened P' = p_opened P).
Proof.
  pose proof (preachable_invariant _ _ Hn HP) as Hinv. pose proof Hinv as [Hg Hr Hph Hpl _ Hq Hcl Hk].
  split.
  { intros Hne. rewrite Hr. destruct (Hq Hne) as [-> ->]. by eexists. }
  intros Hc. destruct (Hcl Hc) as [Hz Hidle].
  assert (Hnone : forall i d, ~ holder P i d)
    by (intros i d Hd; pose proof (holder_admitted P i d Hinv Hd); lia).
  assert (Hempty : p_phases P = ∅).
  { apply map_empty. intros i. destruct (p_phases P !! i) as [p|] eqn:Hi; [|done].
    destruct (Hph _ _ Hi) as (d & Hd). by destruct (Hnone i d). }
  assert (Hpend : p_pending P = []).
  { destruct (p_pending P) as [|c l]; [done|]. destruct (Hq ltac:(done)). congruence. }
  split_and!; [done| | |].
  - intros c Hlt. specialize (Hpl c). unfold places, held, count_map in Hpl.
    rewrite Hidle, Hpend, Hempty, map_filter_empty, map_size_empty, !occ_nil in Hpl.
    apply occ_pos. rewrite (proj2 (Nat.ltb_lt _ _) Hlt) in Hpl. lia.
  - by rewrite Hr, Hc.
  - unfold closer_ok in Hk. rewrite Hc in Hk.
    intros P' Hst. destruct Hst as [| P i d Hd _|P i d Hd _|P i Hi|P i Hi|P i c Hi|P i c Hi
      |P i Hi|P i Hi|P i c Hi|P i c Hi|P i c Hi|P i c Hi|P i c Hi
      |P Hck Hcd|P c todo failed ok Hck|P Hck|P dl Hck|P dl Hck _|P dl Hck _|P c todo failed ok Hck
      |P Hck|P Hck];
      try (by destruct (Hnone _ _ Hd)); try (by rewrite Hempty, lookup_empty in Hi); try done;
      try congruence; rewrite Hck in Hk; naive_solver.
Qed.

(** ** Concrete pools *)

Lemma internal_update g g' tasks now refusing i b p d :
  (forall d', tasks !! i <> Some (Task d' Holding)) ->
  internal (Config g tasks now refusing)
    (Config g' (<[i := Task d p]> (notify_if b tasks)) now refusing).
Proof.
  intros Hi. split; [done|]. intros j d' Hj. simpl in *.
  destruct (decide (j = i)) as [->|Hne]; [by destruct (Hi d')|].
  rewrite lookup_insert_ne by done. destruct b; [|done]. simpl. unfold notify_all.
  by rewrite lookup_fmap, Hj.
Qed.

(** Acquisition 1 has leased the initial connection of a pool of two; 2 has
    been admitted and is opening a connection. *)
Definition leased_pool : pool :=
  Pool (Config (Gate 2 2 [] 0)
          (<[2%positive := Task 5 Holding]> (<[1%positive := Task 5 Holding]> ∅)) 0 None)
    (<[2%positive := Opening]> (<[1%positive := Leased 0]> ∅))
    false false [] [] NoClose 1 [] 0.

(** [H : preachable n P] becomes reachability of the next pool. *)
Ltac pool_step H tac := eapply pr_step in H; [|tac].
Ltac not_admitted := let d := fresh in let H := fresh in
  intros d H; vm_compute in H; discriminate H.
Ltac arrives i := eapply (PsGate _ LTau);
  [eapply (StArrive _ _ _ _ i 5); reflexivity
  |apply (internal_update _ _ _ _ _ i false); not_admitted].
Ltac turns i := eapply PsGate;
  [eapply (StTurn _ _ _ _ i 5 None); reflexivity | apply internal_update; not_admitted].

Lemma leased_pool_reachable : preachable 2 leased_pool.
Proof.
  pose proof (pr_init 2 0) as H.
  pool_step H ltac:(arrives 1%positive).
  pool_step H ltac:(turns 1%positive).
  pool_step H ltac:(apply (PsCheckout _ 1%positive 5); reflexivity).
  pool_step H ltac:(arrives 2%positive).
  pool_step H ltac:(turns 2%positive).
  pool_step H ltac:(apply (PsCheckout _ 2%positive 5); reflexivity).
  exact H.
Qed.

(** An unused pool of one, closed. *)
Definition closed_pool : pool :=
  Pool (Config (new_gate 1) ∅ 0 (Some (Exn DatabaseClosedError "database is closed")))
    ∅ true false [] [] NoClose 1 [0] 0.

Lemma closed_pool_reachable : preachable 1 closed_pool.
Proof.
  pose proof (pr_init 1 0) as H.
  pool_step H ltac:(apply PcStart; reflexivity).
  pool_step H ltac:(apply (PcIdleOne _ 0 [] false true); reflexivity).
  pool_step H ltac:(apply (PcIdleDone _ 9); reflexivity).
  pool_step H ltac:(apply (PcDrained _ 9); reflexivity).
  pool_step H ltac:(apply PcDone; reflexivity).
  exact H.
Qed.

Lemma pool_connections_conserved_witness : 0 ∉ p_idle leased_pool /\ 0 ∉ p_dead leased_pool.
Proof.
  destruct (pool_connections_conserved 2 leased_pool ltac:(lia) leased_pool_reachable)
    as (_ & _ & H).
  destruct (H 1%positive 0 eq_refl) as (H1 & _ & H2). split; [exact H1|exact H2].
Defined.

Lemma pool_bounded_witness : size (p_phases leased_pool) <= 2.
Proof.
  destruct (pool_bounded 2 leased_pool ltac:(lia) leased_pool_reachable) as (_ & _ & _ & H).
  exact H.
Defined.

Lemma pool_shutdown_witness : 0 ∈ p_dead closed_pool.
Proof.
  destruct (pool_shutdown 1 closed_pool ltac:(lia) closed_pool_reachable) as [_ H].
  apply (proj1 (proj2 (H eq_refl))). simpl. lia.
Defined.
