(* ===== verification/Effects.v ===== *)
(** * Stateful code that may raise

    A Python coroutine body as a function of the state it shares with others,
    ending with a value or an exception and always with the state it reached:
    [try]/[except]/[finally] keep the effects made before the exception.  The
    exception type is a parameter, since runtime code tells drivers' errors,
    cancellations and deadlines apart. *)

From S2P Require Export Prelude.

Definition eff (S X A : Type) : Type := S -> (A + X) * S.

#[export] Instance eff_ret S X : MRet (eff S X) := fun A a s => (inl a, s).
#[export] Instance eff_bind S X : MBind (eff S X) := fun A B f m s =>
  match m s with
  | (inl a, s') => f a s'
  | (inr x, s') => (inr x, s')
  end.

Section combinators.
Context {S X : Type}.

Definition throw {A} (x : X) : eff S X A := fun s => (inr x, s).
Definition get : eff S X S := fun s => (inl s, s).
Definition modify (f : S -> S) : eff S X unit := fun s => (inl tt, f s).

(** [if not b: raise x] *)
Definition require (b : bool) (x : X) : eff S X unit := if b then mret tt else throw x.

(** [try: m except h] where [h] re-raises what it does not handle. *)
Definition try_except {A} (m : eff S X A) (h : X -> eff S X A) : eff S X A := fun s =>
  match m s with
  | (inl a, s') => (inl a, s')
  | (inr x, s') => h x s'
  end.

(** [try: m finally: f]: an exception of [f] supersedes the outcome of [m]. *)
Definition try_finally {A} (m : eff S X A) (f : eff S X unit) : eff S X A := fun s =>
  let '(r, s') := m s in
  match f s' with
  | (inl _, s'') => (r, s'')
  | (inr x, s'') => (inr x, s'')
  end.

(** ** Reasoning

    [ensures P m Q]: from a state satisfying [P], [m] ends in [Q]. *)

Definition ensures {A} (P : S -> Prop) (m : eff S X A) (Q : A + X -> S -> Prop) : Prop :=
  forall s, P s -> Q (fst (m s)) (snd (m s)).

Lemma ensures_weaken {A} (P P' : S -> Prop) (m : eff S X A) (Q Q' : A + X -> S -> Prop) :
  ensures P m Q -> (forall s, P' s -> P s) -> (forall r s, Q r s -> Q' r s) -> ensures P' m Q'.
Proof. intros H HP HQ s Hs. apply HQ, H, HP, Hs. Qed.

Lemma ensures_ret {A} (P : S -> Prop) (a : A) (Q : A + X -> S -> Prop) :
  (forall s, P s -> Q (inl a) s) -> ensures P (mret a) Q.
Proof. intros H s Hs. apply H, Hs. Qed.

Lemma ensures_throw {A} (P : S -> Prop) x (Q : A + X -> S -> Prop) :
  (forall s, P s -> Q (inr x) s) -> ensures P (throw x) Q.
Proof. intros H s Hs. apply H, Hs. Qed.

Lemma ensures_modify (P : S -> Prop) f (Q : unit + X -> S -> Prop) :
  (forall s, P s -> Q (inl tt) (f s)) -> ensures P (modify f) Q.
Proof. intros H s Hs. apply H, Hs. Qed.

Lemma ensures_get (P : S -> Prop) (Q : S + X -> S -> Prop) :
  (forall s, P s -> Q (inl s) s) -> ensures P get Q.
Proof. intros H s Hs. apply H, Hs. Qed.

Lemma ensures_bind {A B} (P : S -> Prop) (m : eff S X A) (f : A -> eff S X B)
    (R : A -> S -> Prop) (Q : B + X -> S -> Prop) :
  ensures P m (fun r s => match r with inl a => R a s | inr x => Q (inr x) s end) ->
  (forall a, ensures (R a) (f a) Q) -> ensures P (m ≫= f) Q.
Proof.
  intros Hm Hf s Hs. specialize (Hm s Hs). unfold mbind, eff_bind.
  destruct (m s) as [[a|x] s']; simpl in *; [by apply Hf|done].
Qed.

Lemma ensures_require (P : S -> Prop) b x (Q : unit + X -> S -> Prop) :
  (forall s, P s -> b = true -> Q (inl tt) s) -> (forall s, P s -> b = false -> Q (inr x) s) ->
  ensures P (require b x) Q.
Proof. intros H1 H2 s Hs. destruct b; [by apply H1|by apply H2]. Qed.

Lemma ensures_except {A} (P : S -> Prop) (m : eff S X A) h (R : X -> S -> Prop)
    (Q : A + X -> S -> Prop) :
  ensures P m (fun r s => match r with inl a => Q (inl a) s | inr x => R x s end) ->
  (forall x, ensures (R x) (h x) Q) -> ensures P (try_except m h) Q.
Proof.
  intros Hm Hh s Hs. specialize (Hm s Hs). unfold try_except.
  destruct (m s) as [[a|x] s']; simpl in *; [done|by apply Hh].
Qed.

Lemma ensures_finally {A} (P : S -> Prop) (m : eff S X A) f (R : A + X -> S -> Prop)
    (Q : A + X -> S -> Prop) :
  ensures P m R ->
  (forall r, ensures (R r) f (fun u s => match u with inl _ => Q r s | inr x => Q (inr x) s end)) ->
  ensures P (try_finally m f) Q.
Proof.
  intros Hm Hf s Hs. specialize (Hm s Hs). unfold try_finally.
  destruct (m s) as [r s']; simpl in *. specialize (Hf r s' Hm).
  by destruct (f s') as [[u|x] s'']; simpl in *.
Qed.

(** Some state satisfying [P] may be fixed. *)
Lemma ensures_fix {A} (P : S -> Prop) (m : eff S X A) (Q : A + X -> S -> Prop) :
  (forall s0, P s0 -> ensures (eq s0) m Q) -> ensures P m Q.
Proof. intros H s Hs. by apply (H s Hs). Qed.
End combinators.

(** ** Steps along a preorder

    [moves T m]: wherever [m] ends, and however, it is [T]-related to where it
    began. *)

Section moves.
Context {S X : Type} (T : S -> S -> Prop) `{!PreOrder T}.

Definition moves {A} (m : eff S X A) : Prop := forall s r s', m s = (r, s') -> T s s'.

Lemma moves_ret {A} (a : A) : moves (mret a).
Proof using All. by intros s r s' [= <- <-]. Qed.
Lemma moves_throw {A} x : moves (throw x : eff S X A).
Proof using All. by intros s r s' [= <- <-]. Qed.
Lemma moves_get : moves (get : eff S X S).
Proof using All. by intros s r s' [= <- <-]. Qed.

Lemma moves_bind {A B} (m : eff S X A) (f : A -> eff S X B) :
  moves m -> (forall a, moves (f a)) -> moves (m ≫= f).
Proof using All.
  intros Hm Hf s r s'. unfold mbind, eff_bind. destruct (m s) as [[a|x] s1] eqn:Hs.
  - intros H. etransitivity; [by eapply Hm|by eapply Hf].
  - intros [= <- <-]. by eapply Hm.
Qed.

Lemma moves_except {A} (m : eff S X A) h :
  moves m -> (forall x, moves (h x)) -> moves (try_except m h).
Proof using All.
  intros Hm Hh s r s'. unfold try_except. destruct (m s) as [[a|x] s1] eqn:Hs.
  - intros [= <- <-]. by eapply Hm.
  - intros H. etransitivity; [by eapply Hm|by eapply Hh].
Qed.

Lemma moves_finally {A} (m : eff S X A) f : moves m -> moves f -> moves (try_finally m f).
Proof using All.
  intros Hm Hf s r s'. unfold try_finally. destruct (m s) as [r1 s1] eqn:Hs.
  destruct (f s1) as [[u|x] s2] eqn:Hf1; intros [= <- <-];
    (etransitivity; [by eapply Hm|by eapply Hf]).
Qed.
End moves.

Arguments eff_ret {_ _} _ _ _ /.
Arguments eff_bind {_ _} _ _ _ _ _ /.

(** Code that runs on a part of the state. *)
Definition zoom {S T X A} (view : S -> T) (put : T -> S -> S) (m : eff T X A) : eff S X A :=
  fun s => let '(r, t) := m (view s) in (r, put t s).

(** *** Runs taken apart *)

Lemma bind_cases {S X A B} (m : eff S X A) (f : A -> eff S X B) s r s' :
  (m ≫= f) s = (r, s') ->
  (exists a s1, m s = (inl a, s1) /\ f a s1 = (r, s')) \/
  (exists x, m s = (inr x, s') /\ r = inr x).
Proof.
  unfold mbind, eff_bind. destruct (m s) as [[a|x] s1]; [eauto|]. intros [= <- <-]. eauto.
Qed.

Lemma except_cases {S X A} (m : eff S X A) h s r s' :
  try_except m h s = (r, s') ->
  (exists a, m s = (inl a, s') /\ r = inl a) \/
  (exists x s1, m s = (inr x, s1) /\ h x s1 = (r, s')).
Proof.
  unfold try_except. destruct (m s) as [[a|x] s1]; [|eauto]. intros [= <- <-]. eauto.
Qed.

Lemma finally_cases {S X A} (m : eff S X A) f s r s' :
  try_finally m f s = (r, s') ->
  exists r1 s1, m s = (r1, s1) /\
    ((f s1 = (inl tt, s') /\ r = r1) \/ (exists x, f s1 = (inr x, s') /\ r = inr x)).
Proof.
  unfold try_finally. destruct (m s) as [r1 s1]. destruct (f s1) as [[[]|x] s2] eqn:Hf;
    intros [= <- <-]; exists r1, s1; eauto.
Qed.

(** Take apart the run of one combinator, in hypothesis [H]. *)
Ltac leaf_inv H :=
  unfold mret, eff_ret, throw, get, modify in H;
  first [discriminate H | injection H; clear H; intros; subst].

Ltac run_inv H :=
  let a := fresh "a" in let s := fresh "s" in let x := fresh "x" in let r := fresh "r" in
  let H1 := fresh "Hrun" in
  lazymatch type of H with
  | mbind _ _ _ = _ => apply bind_cases in H as [(a & s & H1 & H)|(x & H1 & ->)]
  | try_except _ _ _ = _ => apply except_cases in H as [(a & H1 & ->)|(x & s & H1 & H)]
  | try_finally _ _ _ = _ =>
      apply finally_cases in H as (r & s & H1 & [(H & ->)|(x & H & ->)])
  | mret _ _ = _ => leaf_inv H
  | throw _ _ = _ => leaf_inv H
  | get _ = _ => leaf_inv H
  | modify _ _ = _ => leaf_inv H
  end.

Lemma modify_then {S X A} f (k : eff S X A) s : (_ ← modify f; k) s = k (f s).
Proof. done. Qed.

Lemma ret_then {S X A B} (a : A) (k : A -> eff S X B) s : (mret a ≫= k) s = k a s.
Proof. done. Qed.

Lemma get_then {S X A} (k : S -> eff S X A) s : (get ≫= k) s = k s s.
Proof. done. Qed.

Lemma require_cases {S X} (b : bool) (x : X) (s : S) r s' :
  require b x s = (r, s') -> s' = s /\ (b = true /\ r = inl tt \/ b = false /\ r = inr x).
Proof. destruct b; intros [= <- <-]; auto. Qed.

Lemma zoom_cases {S T X A} (view : S -> T) put (m : eff T X A) s r s' :
  zoom view put m s = (r, s') -> exists t, m (view s) = (r, t) /\ s' = put t s.
Proof. unfold zoom. destruct (m (view s)) as [r0 t]. intros [= <- <-]. eauto. Qed.
