(* ===== verification/SqliteAdapter.v ===== *)
(** * The SQLite connection adapter

    [SQLiteConnectionAdapter] of [sqlite/runtime.py] and the writer-lock retry
    of [sqlite/retry.py], over the part of SQLite a connection exposes: an open
    transaction with its savepoints, the statements this connection has made
    durable, and two session settings.

    What the driver answers to a command is not decided here: a script of
    [answer]s is part of the state, so a theorem for every script covers every
    failure, deadline and cancellation at every [await]. *)

From S2P Require Export Effects.
From Stdlib Require Import Floats.SpecFloat.

(** ** SQLite *)

(** A statement of the application; the number identifies its execution. *)
Abbreviation stmt := nat (only parsing).

Inductive pragma := QueryOnly | ReadUncommitted.
#[export] Instance pragma_eq_dec : EqDecision pragma.
Proof. solve_decision. Defined.

(** What the adapter asks of the driver.  [Quiet] stands for the [await]s
    without effect on the database: fetching rows, closing a cursor, sleeping. *)
Inductive command :=
  | Begin
  | BeginImmediate
  | Commit
  | Rollback
  | Savepoint (name : nat)
  | RollbackTo (name : nat)
  | ReleaseSavepoint (name : nat)
  | Statement (s : stmt)
  | PragmaGet (p : pragma)
  | PragmaSet (p : pragma) (enabled : bool)
  | Quiet.
#[export] Instance command_eq_dec : EqDecision command.
Proof. solve_decision. Defined.

(** The statements of the open transaction, oldest first, and its savepoints,
    newest first, each with the statements it keeps. *)
Record open_transaction := OpenTransaction {
  ot_log : list stmt;
  ot_savepoints : list (nat * list stmt)
}.

Record engine := Engine {
  en_open : option open_transaction;
  en_durable : list stmt;
  en_settings : pragma -> bool
}.

Definition in_transaction (e : engine) : bool := bool_decide (is_Some (en_open e)).

Definition set_open (o : option open_transaction) (e : engine) : engine :=
  Engine o (en_durable e) (en_settings e).

(** The savepoint [name] and the older ones. *)
Fixpoint savepoints_from (name : nat) (l : list (nat * list stmt)) : list (nat * list stmt) :=
  match l with
  | [] => []
  | (n, log) :: l' => if Nat.eqb n name then l else savepoints_from name l'
  end.

(** What a command that succeeds does; [None] where SQLite refuses it. *)
Definition engine_apply (c : command) (e : engine) : option engine :=
  match c, en_open e with
  | (Begin | BeginImmediate), None => Some (set_open (Some (OpenTransaction [] [])) e)
  | (Begin | BeginImmediate), Some _ => None
  | Commit, Some t => Some (Engine None (en_durable e ++ ot_log t) (en_settings e))
  | Rollback, Some _ => Some (set_open None e)
  | (Commit | Rollback), None => None
  | Savepoint n, Some t =>
      Some (set_open (Some (OpenTransaction (ot_log t) ((n, ot_log t) :: ot_savepoints t))) e)
  | RollbackTo n, Some t =>
      match savepoints_from n (ot_savepoints t) with
      | [] => None
      | (m, log) :: older => Some (set_open (Some (OpenTransaction log ((m, log) :: older))) e)
      end
  | ReleaseSavepoint n, Some t =>
      match savepoints_from n (ot_savepoints t) with
      | [] => None
      | _ :: older => Some (set_open (Some (OpenTransaction (ot_log t) older)) e)
      end
  | (Savepoint _ | RollbackTo _ | ReleaseSavepoint _), None => None
  | Statement s, Some t =>
      Some (set_open (Some (OpenTransaction (ot_log t ++ [s]) (ot_savepoints t))) e)
  | Statement s, None => Some (Engine None (en_durable e ++ [s]) (en_settings e))
  | PragmaGet _, _ | Quiet, _ => Some e
  | PragmaSet p b, _ =>
      Some (Engine (en_open e) (en_durable e) (fun q => if decide (q = p) then b else en_settings e q))
  end.

(** ** Driver errors *)

Inductive driver_class := DriverError | OperationalError | IntegrityError.
#[export] Instance driver_class_eq_dec : EqDecision driver_class.
Proof. solve_decision. Defined.

(** [aiosqlite.Error] with its [sqlite_errorcode] and its message in lower case. *)
Record driver_error := DriverFailure {
  de_class : driver_class; de_code : option Z; de_message : string }.
#[export] Instance driver_error_eq_dec : EqDecision driver_error.
Proof. solve_decision. Defined.

Definition SQLITE_BUSY : Z := 5.
Definition SQLITE_LOCKED : Z := 6.
Definition SQLITE_CONSTRAINT_CHECK : Z := 275.
Definition SQLITE_BUSY_SNAPSHOT : Z := 517.
Definition SQLITE_CONSTRAINT_FOREIGNKEY : Z := 787.
Definition SQLITE_CONSTRAINT_NOTNULL : Z := 1299.
Definition SQLITE_CONSTRAINT_PRIMARYKEY : Z := 1555.
Definition SQLITE_CONSTRAINT_UNIQUE : Z := 2067.
Definition SQLITE_CONSTRAINT_ROWID : Z := 2579.

(** What may escape a coroutine of the runtime: a Python exception of the
    library, a driver's error, the marker [StatementConstraintError] around
    one, the cancellation that a deadline delivers, any other cancellation. *)
Inductive failure :=
  | FPython (e : exn)
  | FDriver (d : driver_error)
  | FConstraint (original : driver_error)
  | FDeadline
  | FCancelled.
#[export] Instance failure_eq_dec : EqDecision failure.
Proof. solve_decision. Defined.

(** [isinstance(error, Exception)] *)
Definition is_exception (x : failure) : bool :=
  match x with FDeadline | FCancelled => false | _ => true end.

(** A command that fails leaves the database in one of these states. *)
Inductive effect := NoChange | Happened | RolledBack.

Inductive answer :=
  | Done
  | Fault (x : failure) (eff : effect).

(** ** The adapter *)

Inductive commit_outcome := NotAttempted | Rejected | Committed | Unknown.
#[export] Instance commit_outcome_eq_dec : EqDecision commit_outcome.
Proof. solve_decision. Defined.

(** [ad_sent] is the history of commands, [ad_script] the answers to come
    ([Done] once it is used up). *)
Record adapter := Adapter {
  ad_engine : engine;
  ad_outcome : commit_outcome;
  ad_previous : list (pragma * bool);
  ad_sent : list command;
  ad_script : list answer
}.

Definition set_engine (e : engine) (a : adapter) : adapter :=
  Adapter e (ad_outcome a) (ad_previous a) (ad_sent a) (ad_script a).
Definition set_outcome (o : commit_outcome) (a : adapter) : adapter :=
  Adapter (ad_engine a) o (ad_previous a) (ad_sent a) (ad_script a).
Definition set_previous (l : list (pragma * bool)) (a : adapter) : adapter :=
  Adapter (ad_engine a) (ad_outcome a) l (ad_sent a) (ad_script a).
Definition set_script (l : list answer) (a : adapter) : adapter :=
  Adapter (ad_engine a) (ad_outcome a) (ad_previous a) (ad_sent a) l.

Definition after_effect (eff : effect) (c : command) (e : engine) : engine :=
  match eff with
  | NoChange => e
  | Happened => default e (engine_apply c e)
  | RolledBack => set_open None e
  end.

Definition refused : failure := FDriver (DriverFailure OperationalError None "refused").

(** [await connection.execute(c)] *)
Definition driver (c : command) : eff adapter failure unit := fun a =>
  let next := match ad_script a with [] => Done | x :: _ => x end in
  let a := Adapter (ad_engine a) (ad_outcome a) (ad_previous a) (ad_sent a ++ [c])
             (tail (ad_script a)) in
  match next with
  | Done => match engine_apply c (ad_engine a) with
            | Some e => (inl tt, set_engine e a)
            | None => (inr refused, a)
            end
  | Fault x eff => (inr x, set_engine (after_effect eff c (ad_engine a)) a)
  end.

(** ** [sqlite/retry.py] *)

Record retry_policy := BusyRetryPolicy {
  max_retries : nat; base_backoff : spec_float; max_backoff : spec_float }.

(** [DEFAULT_BUSY_RETRY_POLICY]: 5 retries, 0.01 s and 0.25 s. *)
Definition DEFAULT_BUSY_RETRY_POLICY : retry_policy :=
  BusyRetryPolicy 5 (S754_finite false 5764607523034235 (-59)) (S754_finite false 4503599627370496 (-54)).

Fixpoint contains (needle hay : string) : bool :=
  String.prefix needle hay ||
  match hay with EmptyString => false | String _ rest => contains needle rest end.

Definition is_sqlite_busy_error (x : failure) : bool :=
  match x with
  | FDriver d =>
      bool_decide (de_class d = OperationalError) &&
      (match de_code d with Some c => Z.eqb (Z.land c 255) SQLITE_BUSY | None => false end
       || contains "database is locked" (de_message d)
       || contains "database is busy" (de_message d))
  | _ => false
  end.

(** [backoff_for], up to the jitter: the sleep is drawn in [0, backoff_bound]. *)
Definition backoff_bound (policy : retry_policy) (retry_index : nat) : spec_float :=
  let base := base_backoff policy in
  let ceiling :=
    match base with
    | S754_zero _ => base
    | _ =>
        match base, SFldexp 53 1024 base (Z.of_nat retry_index) with
        | S754_finite _ _ _, S754_infinity _ => max_backoff policy   (* OverflowError *)
        | _, scaled => scaled
        end
    end in
  if SFltb ceiling (max_backoff policy) then ceiling else max_backoff policy.

(** [attempt] retries have been made and [remaining] are left. *)
Fixpoint retry_on_sqlite_busy {A} (operation : eff adapter failure A) (remaining : nat)
    : eff adapter failure A :=
  try_except operation (fun error =>
    if negb (is_sqlite_busy_error error) then throw error
    else match remaining with
         | O => throw error
         | S remaining => _ ← driver Quiet; retry_on_sqlite_busy operation remaining
         end).

(** ** Transaction control of the adapter *)

Inductive transaction_mode := Deferred | Immediate.
Inductive isolation_level := ReadUncommittedLevel | ReadCommitted | RepeatableRead | Serializable.
#[export] Instance isolation_level_eq_dec : EqDecision isolation_level.
Proof. solve_decision. Defined.

(** [_execute_control_sql]: the cursor is closed whatever happens. *)
Definition execute_control_sql (c : command) : eff adapter failure unit :=
  _ ← driver c; driver Quiet.

Definition set_transaction_pragma (p : pragma) (enabled : bool) : eff adapter failure unit :=
  _ ← driver (PragmaGet p);
  a ← get;
  let value := en_settings (ad_engine a) p in
  _ ← try_finally (driver Quiet) (driver Quiet);
  _ ← modify (fun a => set_previous
                (if decide (p ∈ map fst (ad_previous a)) then
                   map (fun x => if decide (fst x = p) then (p, value) else x) (ad_previous a)
                 else ad_previous a ++ [(p, value)]) a);
  execute_control_sql (PragmaSet p enabled).

Fixpoint restore_settings (l : list (pragma * bool)) : eff adapter failure unit :=
  match l with
  | [] => mret tt
  | (p, enabled) :: l' => _ ← execute_control_sql (PragmaSet p enabled); restore_settings l'
  end.

Definition restore_transaction_policy : eff adapter failure unit :=
  a ← get; _ ← restore_settings (ad_previous a); modify (set_previous []).

Definition adapter_begin (policy : retry_policy) (mode : transaction_mode)
    (read_only : option bool) (isolation : option isolation_level) : eff adapter failure unit :=
  _ ← match read_only with
      | Some b => set_transaction_pragma QueryOnly b
      | None => mret tt
      end;
  _ ← match isolation with
      | Some _ => set_transaction_pragma ReadUncommitted false
      | None => mret tt
      end;
  match mode with
  | Immediate => retry_on_sqlite_busy (execute_control_sql BeginImmediate) (max_retries policy)
  | Deferred => execute_control_sql Begin
  end.

(** The engine answered that the transaction is still open and uncommitted. *)
Definition commit_rejected (x : failure) (a : adapter) : bool :=
  match x with
  | FDriver d =>
      (bool_decide (de_code d = Some SQLITE_BUSY)
       || bool_decide (de_code d = Some SQLITE_CONSTRAINT_FOREIGNKEY))
      && in_transaction (ad_engine a)
  | _ => false
  end.

Definition adapter_commit : eff adapter failure unit :=
  _ ← modify (set_outcome Unknown);
  _ ← try_except (driver Commit) (fun x =>
        a ← get;
        _ ← (if commit_rejected x a then modify (set_outcome Rejected) else mret tt);
        throw x);
  _ ← modify (set_outcome Committed);
  _ ← driver Quiet;
  restore_transaction_policy.

Definition adapter_rollback : eff adapter failure unit :=
  _ ← execute_control_sql Rollback; restore_transaction_policy.

Definition recoverable_codes : list Z :=
  [SQLITE_CONSTRAINT_CHECK; SQLITE_CONSTRAINT_FOREIGNKEY; SQLITE_CONSTRAINT_NOTNULL;
   SQLITE_CONSTRAINT_PRIMARYKEY; SQLITE_CONSTRAINT_ROWID; SQLITE_CONSTRAINT_UNIQUE].

Definition recoverable_code (d : driver_error) : bool :=
  match de_code d with Some c => bool_decide (c ∈ recoverable_codes) | None => false end.

(** [_recoverable_constraint] *)
Definition recoverable_constraint (d : driver_error) (a : adapter) : bool :=
  in_transaction (ad_engine a) && recoverable_code d.

Definition mark_constraint (x : failure) : eff adapter failure unit :=
  match x with
  | FDriver d =>
      a ← get;
      if bool_decide (de_class d = IntegrityError) && recoverable_constraint d a
      then throw (FConstraint d) else throw x
  | _ => throw x
  end.

(** [execute]; [execute_stream] is the same, and the execution stage of
    [execute_buffered_select] raises the same errors. *)
Definition adapter_execute (s : stmt) : eff adapter failure unit :=
  try_except (driver (Statement s)) mark_constraint.

(** ** Failure classification *)

Inductive failure_category :=
  | UniqueViolation | NotNullViolation | CheckViolation | ForeignKeyViolation
  | SerializationConflict | LockConflict | UnknownCategory.
#[export] Instance failure_category_eq_dec : EqDecision failure_category.
Proof. solve_decision. Defined.

Definition constraint_category (code : Z) : failure_category :=
  if bool_decide (code ∈ [SQLITE_CONSTRAINT_PRIMARYKEY; SQLITE_CONSTRAINT_UNIQUE;
                          SQLITE_CONSTRAINT_ROWID]) then UniqueViolation
  else if Z.eqb code SQLITE_CONSTRAINT_NOTNULL then NotNullViolation
  else if Z.eqb code SQLITE_CONSTRAINT_CHECK then CheckViolation
  else if Z.eqb code SQLITE_CONSTRAINT_FOREIGNKEY then ForeignKeyViolation
  else UnknownCategory.

(** [classify_failure]: the category and the code, [None] for an error that is
    not the driver's. *)
Definition classify_failure (x : failure) : option (failure_category * option Z) :=
  match x with
  | FDriver d =>
      Some (match de_code d with
            | None => UnknownCategory
            | Some c =>
                if Z.eqb c SQLITE_BUSY_SNAPSHOT then SerializationConflict
                else if bool_decide (Z.land c 255 ∈ [SQLITE_BUSY; SQLITE_LOCKED]) then LockConflict
                else constraint_category c
            end, de_code d)
  | _ => None
  end.

(** ** What one command does *)

(** What the driver answers, as documented: it raises its own errors or a
    cancellation, and a constraint error it reports after keeping the
    transaction open has had no effect. *)
Definition honest (x : answer) : Prop :=
  match x with
  | Done => True
  | Fault (FDriver d) Happened =>
      ~ (de_class d = IntegrityError /\ recoverable_code d = true)
  | Fault (FConstraint _) _ => False
  | Fault _ _ => True
  end.

#[global] Arguments engine_apply : simpl never.

(** Commands keep the adapter's own notes and consume honest answers. *)
Record same_notes (a a' : adapter) : Prop := {
  sn_outcome : ad_outcome a' = ad_outcome a;
  sn_previous : ad_previous a' = ad_previous a;
  sn_honest : Forall honest (ad_script a) -> Forall honest (ad_script a')
}.

Lemma driver_cases c a r a' :
  driver c a = (r, a') ->
  same_notes a a' /\
  match r with
  | inl _ => engine_apply c (ad_engine a) = Some (ad_engine a')
  | inr x => exists eff, ad_engine a' = after_effect eff c (ad_engine a) /\
      (Forall honest (ad_script a) -> x = refused /\ eff = NoChange \/ honest (Fault x eff))
  end.
Proof.
  unfold driver. destruct a as [e o prev sent [|[|x eff] script]]; cbn [ad_script ad_engine
    ad_outcome ad_previous ad_sent tail].
  1, 2: destruct (engine_apply c e) as [e'|] eqn:He; intros [= <- <-];
    (split; [split; try done; simpl; by intros [_ ?]%Forall_cons_1|]); [done|];
    exists NoChange; split; [done|]; by left.
  intros [= <- <-]. split; [split; try done; simpl; by intros [_ ?]%Forall_cons_1|].
  exists eff. split; [done|]. intros [Hh _]%Forall_cons_1. by right.
Qed.

#[export] Instance same_notes_preorder : PreOrder same_notes.
Proof.
  split; [by split|]. intros a b c [H1 H2 H3] [H4 H5 H6]. split; [congruence|congruence|auto].
Qed.

(** A state a failing command can leave: nothing new is durable, unless the
    command was [COMMIT] or ran outside a transaction. *)
Definition durable_kept (a a' : adapter) : Prop :=
  en_durable (ad_engine a') = en_durable (ad_engine a).

Lemma after_effect_durable eff c e :
  c <> Commit -> match c with Statement _ => en_open e <> None | _ => True end ->
  en_durable (after_effect eff c e) = en_durable e.
Proof.
  intros Hc Hs. destruct eff; [done| |done]. simpl.
  destruct e as [[[log sps]|] dur st]; unfold engine_apply; simpl in *;
    destruct c; simpl; try done; repeat case_match; done.
Qed.

Lemma engine_apply_durable c e e' :
  engine_apply c e = Some e' -> c <> Commit ->
  match c with Statement _ => en_open e <> None | _ => True end -> en_durable e' = en_durable e.
Proof.
  intros H Hc Hs. pose proof (after_effect_durable Happened c e Hc Hs) as Hd. simpl in Hd.
  by rewrite H in Hd.
Qed.

(** A [Quiet] command that returns changes nothing. *)
Lemma quiet_ok a a' : driver Quiet a = (inl tt, a') -> same_notes a a' /\ ad_engine a' = ad_engine a.
Proof. intros [Hn H]%driver_cases. split; [done|]. unfold engine_apply in H. simpl in H. by injection H. Qed.

Lemma driver_durable c a r a' :
  driver c a = (r, a') -> c <> Commit ->
  match c with Statement _ => en_open (ad_engine a) <> None | _ => True end -> durable_kept a a'.
Proof.
  intros [_ H]%driver_cases Hc Hs. unfold durable_kept. destruct r.
  - by eapply engine_apply_durable.
  - destruct H as (eff & -> & _). by apply after_effect_durable.
Qed.

(** ** What the adapter's operations do *)

Definition is_constraint (x : failure) : bool := match x with FConstraint _ => true | _ => false end.

(** With honest answers, only [adapter_execute] raises the constraint marker. *)
Lemma driver_not_constraint c a x a' :
  driver c a = (inr x, a') -> Forall honest (ad_script a) -> is_constraint x = false.
Proof.
  intros [_ (eff & _ & H)]%driver_cases Hh. destruct (H Hh) as [[-> _]|Hx]; [done|].
  by destruct x.
Qed.

Definition run_kept (a : adapter) (r : unit + failure) (a' : adapter) : Prop :=
  same_notes a a' /\ durable_kept a a' /\
  (Forall honest (ad_script a) -> match r with inr x => is_constraint x = false | _ => True end).

Lemma driver_kept c a r a' :
  driver c a = (r, a') -> c <> Commit ->
  match c with Statement _ => en_open (ad_engine a) <> None | _ => True end -> run_kept a r a'.
Proof.
  intros H Hc Hs. split; [by apply driver_cases in H as [? _]|].
  split; [by eapply driver_durable|]. intros Hh. destruct r; [done|].
  by eapply driver_not_constraint.
Qed.

Lemma run_kept_trans a r1 a1 r a' :
  run_kept a r1 a1 -> run_kept a1 r a' -> run_kept a r a'.
Proof.
  intros (Hn & Hd & _) (Hn' & Hd' & Hx). split; [by etrans|].
  split; [unfold durable_kept in *; congruence|]. intros Hh. by apply Hx, (sn_honest _ _ Hn).
Qed.

(** A control statement and the closing of its cursor. *)
Lemma control_sql_cases c a r a' :
  execute_control_sql c a = (r, a') -> c <> Commit ->
  match c with Statement _ => False | _ => True end ->
  run_kept a r a' /\ (r = inl tt -> engine_apply c (ad_engine a) = Some (ad_engine a')).
Proof.
  unfold execute_control_sql. intros H Hc Hs. run_inv H.
  - pose proof (driver_kept _ _ _ _ Hrun Hc ltac:(by destruct c)) as Hk.
    pose proof (driver_kept _ _ _ _ H ltac:(done) I) as Hk'.
    split; [by eapply run_kept_trans|]. intros ->. apply quiet_ok in H as [_ ->].
    by apply driver_cases in Hrun as [_ Hrun].
  - split; [|done]. apply driver_kept in Hrun; try done. by destruct c.
Qed.

Lemma mark_constraint_cases x a r a' :
  mark_constraint x a = (r, a') ->
  a' = a /\ exists y, r = inr y /\
    (is_constraint x = false -> is_constraint y = true ->
     exists d, x = FDriver d /\ de_class d = IntegrityError /\ recoverable_code d = true /\
       in_transaction (ad_engine a) = true).
Proof.
  destruct x as [e|d|d| |]; simpl; intros H; try (leaf_inv H; split; [done|by eexists]).
  run_inv H; [|by leaf_inv Hrun]. leaf_inv Hrun.
  match type of H with (if ?b then _ else _) _ = _ => destruct b eqn:Hrec end;
    leaf_inv H; (split; [done|]); eexists; (split; [done|]); [|done]. intros _ _.
  apply andb_true_iff in Hrec as [Hcl Hrec]. apply bool_decide_eq_true in Hcl.
  apply andb_true_iff in Hrec as [Htx Hcode]. by exists d.
Qed.

(** Executing a statement inside a transaction: a reported constraint failure
    has changed nothing. *)
Lemma adapter_execute_cases s a r a' t :
  adapter_execute s a = (r, a') -> en_open (ad_engine a) = Some t ->
  same_notes a a' /\ durable_kept a a' /\
  match r with
  | inl _ => ad_engine a' = set_open (Some (OpenTransaction (ot_log t ++ [s]) (ot_savepoints t)))
                              (ad_engine a)
  | inr x => Forall honest (ad_script a) -> is_constraint x = true -> ad_engine a' = ad_engine a
  end.
Proof.
  unfold adapter_execute. intros H Ht. run_inv H.
  - destruct a0. pose proof (driver_kept _ _ _ _ Hrun ltac:(done) ltac:(by rewrite Ht)) as (?&?&_).
    split; [done|]. split; [done|]. apply driver_cases in Hrun as [_ Hrun].
    unfold engine_apply in Hrun. rewrite Ht in Hrun. by injection Hrun.
  - pose proof (driver_kept _ _ _ _ Hrun ltac:(done) ltac:(by rewrite Ht)) as (Hn & Hd & Hx).
    apply mark_constraint_cases in H as (-> & y & -> & Hy).
    split; [done|]. split; [done|]. intros Hh Hc.
    destruct (Hy (Hx Hh) Hc) as (d & -> & Hcl & Hcode & Htx).
    apply driver_cases in Hrun as [_ (eff & He & Hcase)].
    destruct (Hcase Hh) as [[[=] ->]|Hhon]; [done|]. destruct eff; [done|by destruct Hhon|].
    rewrite He in Htx. done.
Qed.

(** *** Session settings *)

Fixpoint recorded (p : pragma) (l : list (pragma * bool)) : option bool :=
  match l with
  | [] => None
  | (q, b) :: l' => if decide (p = q) then Some b else recorded p l'
  end.

(** The setting [p] had when the connection was leased. *)
Definition original (a : adapter) (p : pragma) : bool :=
  default (en_settings (ad_engine a) p) (recorded p (ad_previous a)).

Definition originally (settings : pragma -> bool) (a : adapter) : Prop :=
  forall p, original a p = settings p.

Lemma recorded_snoc p l q b :
  recorded p (l ++ [(q, b)]) = match recorded p l with Some c => Some c
                               | None => if decide (p = q) then Some b else None end.
Proof. induction l as [|[q' c] l IH]; simpl; [done|]. by destruct (decide (p = q')); [|apply IH]. Qed.

Lemma recorded_None p l : recorded p l = None <-> p ∉ map fst l.
Proof.
  induction l as [|[q c] l IH]; simpl; [set_solver|]. rewrite not_elem_of_cons.
  case_decide; naive_solver.
Qed.

(** Restoring sets exactly the recorded settings. *)
Lemma restore_settings_cases l a r a' :
  restore_settings l a = (r, a') -> NoDup (map fst l) ->
  run_kept a r a' /\
  (r = inl tt -> en_open (ad_engine a') = en_open (ad_engine a) /\
     forall p, en_settings (ad_engine a') p = default (en_settings (ad_engine a) p) (recorded p l)).
Proof.
  revert a. induction l as [|[q b] l IH]; intros a H Hnd; simpl in H.
  - leaf_inv H. split; [|done]. split; [reflexivity|]. by split.
  - apply NoDup_cons in Hnd as [Hq Hnd]. run_inv H.
    + pose proof (control_sql_cases _ _ _ _ Hrun ltac:(done) I) as [Hk He].
      destruct a0. specialize (He eq_refl). unfold engine_apply in He. injection He as He.
      destruct (IH _ H Hnd) as [Hk' Hr]. split; [by eapply run_kept_trans|]. intros ->.
      destruct (Hr eq_refl) as [Ho Hset]. rewrite <- He in Ho, Hset. split; [done|].
      intros p. rewrite Hset. simpl. case_decide as Hp; [subst p|done].
      apply recorded_None in Hq. simpl in Hq. by rewrite Hq.
    + by pose proof (control_sql_cases _ _ _ _ Hrun ltac:(done) I) as [Hk _].
Qed.

(** The notes a settled adapter keeps: leased settings known, [l] recorded. *)
Record settled (settings : pragma -> bool) (a : adapter) : Prop := {
  se_original : originally settings a;
  se_recorded : NoDup (map fst (ad_previous a))
}.

Lemma restore_policy_cases settings a r a' :
  restore_transaction_policy a = (r, a') -> settled settings a ->
  ad_outcome a' = ad_outcome a /\ durable_kept a a' /\
  (r = inl tt -> en_open (ad_engine a') = en_open (ad_engine a) /\
     forall p, en_settings (ad_engine a') p = settings p).
Proof.
  unfold restore_transaction_policy. intros H [Ho Hnd].
  apply bind_cases in H as [(x & s1 & Hg & H)|(x & Hg & ->)]; [|by leaf_inv Hg].
  injection Hg as <- <-. run_inv H.
  - apply restore_settings_cases in Hrun as [(Hn & Hd & _) Hr]; [|done].
    destruct a0. leaf_inv H. destruct (Hr eq_refl) as [Hop Hset].
    split; [by apply (sn_outcome _ _ Hn)|]. split; [done|]. intros _. split; [done|].
    intros p. simpl. rewrite Hset. apply Ho.
  - apply restore_settings_cases in Hrun as [(Hn & Hd & _) _]; [|done].
    split; [apply (sn_outcome _ _ Hn)|]. by split.
Qed.

(** *** Begin *)

Lemma set_pragma_cases p b a r a' settings :
  set_transaction_pragma p b a = (r, a') -> settled settings a -> p ∉ map fst (ad_previous a) ->
  ad_outcome a' = ad_outcome a /\ durable_kept a a' /\
  (Forall honest (ad_script a) -> Forall honest (ad_script a')) /\
  (r = inl tt -> en_open (ad_engine a') = en_open (ad_engine a) /\ settled settings a' /\
     map fst (ad_previous a') = map fst (ad_previous a) ++ [p]).
Proof.
  unfold set_transaction_pragma. intros H [Ho Hnd] Hp.
  apply bind_cases in H as [([] & a1 & H1 & H)|(x & H1 & ->)];
    pose proof (driver_kept _ _ _ _ H1 ltac:(done) I) as Hk1; [|by destruct Hk1 as ([]&?&?)].
  apply driver_cases in H1 as [_ He1]. unfold engine_apply in He1. injection He1 as He1.
  apply bind_cases in H as [(a1' & s & Hg & H)|(x & Hg & ->)]; [|by leaf_inv Hg].
  injection Hg as <- <-.
  apply bind_cases in H as [([] & a2 & H2 & H)|(x & H2 & ->)].
  2: { apply finally_cases in H2 as (r1 & s1 & Hf & Hc).
       pose proof (driver_kept _ _ _ _ Hf ltac:(done) I) as Hk2.
       assert (Hk3 : exists r0, run_kept s1 r0 a').
       { destruct Hc as [[Hc _]|(y & Hc & _)]; eexists; by eapply driver_kept. }
       destruct Hk3 as [r0 Hk3].
       pose proof (run_kept_trans _ _ _ _ _ Hk1 (run_kept_trans _ _ _ _ _ Hk2 Hk3)) as ([]&?&_).
       done. }
  apply finally_cases in H2 as (r1 & s1 & Hf & [[Hc <-]|(y & Hc & ?)]); [|done].
  destruct (quiet_ok _ _ Hf) as [_ He2]. destruct (quiet_ok _ _ Hc) as [_ He3].
  pose proof (driver_kept _ _ _ _ Hf ltac:(done) I) as Hk2.
  pose proof (driver_kept _ _ _ _ Hc ltac:(done) I) as Hk3.
  pose proof (run_kept_trans _ _ _ _ _ Hk1 (run_kept_trans _ _ _ _ _ Hk2 Hk3)) as ([Ho2 Hp2 Hs2]&Hd2&_).
  apply bind_cases in H as [([] & a3 & H3 & H)|(x & H3 & ->)]; [|by leaf_inv H3].
  injection H3 as <-.
  assert (Hp1 : ad_previous a1 = ad_previous a) by (destruct Hk1 as ([]&_&_); done).
  rewrite decide_False in H by (by rewrite Hp2).
  apply control_sql_cases in H as [([Ho4 Hp4 Hs4] & Hd4 & _) Hr4]; [|done..]. simpl in *.
  unfold durable_kept in *. simpl in *. split; [congruence|]. split; [congruence|].
  split; [by auto|]. intros ->. specialize (Hr4 eq_refl). unfold engine_apply in Hr4.
  injection Hr4 as Hr4. rewrite He3, He2, <- He1 in Hr4.
  split; [by rewrite <- Hr4|]. split.
  - split.
    + intros q. rewrite <- Ho. unfold original. rewrite Hp4, <- Hr4, Hp2, recorded_snoc. simpl.
      destruct (recorded q (ad_previous a)) eqn:Hq; [done|]. case_decide; subst; [|done].
      simpl. by rewrite <- He1.
    + rewrite Hp4, Hp2, map_app. simpl. apply NoDup_app. split; [done|].
      split; [set_solver|apply NoDup_singleton].
  - by rewrite Hp4, Hp2, map_app.
Qed.

Lemma driver_settings c a r a' :
  driver c a = (r, a') -> match c with PragmaSet _ _ => False | _ => True end ->
  en_settings (ad_engine a') = en_settings (ad_engine a).
Proof.
  intros [_ H]%driver_cases Hc.
  assert (Happ : forall e e', engine_apply c e = Some e' -> en_settings e' = en_settings e).
  { intros [[[log sps]|] dur st] e' He; unfold engine_apply in He; simpl in He;
      destruct c; try done; repeat case_match; by simplify_eq/=. }
  destruct r; [by apply Happ in H|]. destruct H as (eff & -> & _). destruct eff; simpl; try done.
  destruct (engine_apply c (ad_engine a)) eqn:He; simpl; [|done]. by apply Happ in He.
Qed.

(** Only the first three fields of the adapter matter to what follows. *)
Lemma settled_same settings a a' :
  settled settings a -> same_notes a a' -> en_settings (ad_engine a') = en_settings (ad_engine a) ->
  settled settings a'.
Proof.
  intros [Ho Hnd] [_ Hp _] Hs. split; [|by rewrite Hp].
  intros p. unfold original. rewrite Hp, Hs. apply Ho.
Qed.

Definition begins (c : command) : Prop := c = Begin \/ c = BeginImmediate.

Lemma begin_sql_cases settings c a r a' :
  execute_control_sql c a = (r, a') -> begins c -> settled settings a ->
  run_kept a r a' /\ settled settings a' /\
  (r = inl tt -> en_open (ad_engine a') = Some (OpenTransaction [] [])).
Proof.
  intros H Hc Hs. pose proof H as H'.
  apply control_sql_cases in H as [Hk Hr]; [|by destruct Hc as [-> | ->]..].
  split; [done|]. split.
  - apply (settled_same _ a); [done|apply Hk|]. unfold execute_control_sql in H'. run_inv H'.
    + apply driver_settings in Hrun; [|by destruct Hc; subst c].
      apply driver_settings in H'; [|done]. congruence.
    + apply driver_settings in Hrun; [done|by destruct Hc; subst c].
  - intros ->. specialize (Hr eq_refl). unfold engine_apply in Hr.
    destruct Hc as [-> | ->]; destruct (en_open (ad_engine a)); try done; by injection Hr as <-.
Qed.

(** *** Retrying the writer lock *)

(** [K] composes along the attempts and sleeps, [P] holds before each, and
    [S'] after the attempt that succeeds. *)
Lemma retry_cases (P S' : adapter -> Prop) (K : adapter -> unit + failure -> adapter -> Prop)
    op n a r a' :
  retry_on_sqlite_busy op n a = (r, a') -> P a ->
  (forall a r a', P a -> op a = (r, a') -> P a' /\ K a r a' /\ (r = inl tt -> S' a')) ->
  (forall a r a', P a -> driver Quiet a = (r, a') -> P a' /\ K a r a') ->
  (forall a r1 a1 r a', K a r1 a1 -> K a1 r a' -> K a r a') ->
  P a' /\ K a r a' /\ (r = inl tt -> S' a').
Proof.
  intros H Ha Hop Hq Htrans. revert a H Ha.
  induction n as [|n IH]; intros a H Ha; simpl in H; run_inv H.
  - destruct a0. eauto.
  - apply Hop in Hrun as (Hs & HK & _); [|done]. destruct (negb _); leaf_inv H; done.
  - destruct a0. eauto.
  - apply Hop in Hrun as (Hs & HK & _); [|done]. destruct (negb _); [leaf_inv H; done|]. run_inv H.
    + apply Hq in Hrun as [Hs' HK']; [|done]. destruct a0.
      apply IH in H as (Hs'' & HK'' & HS); [|done]. eauto 6.
    + apply Hq in Hrun as [Hs' HK']; [|done]. split; [done|]. split; [by eauto|done].
Qed.

Lemma adapter_begin_cases settings policy mode read_only isolation a r a' :
  adapter_begin policy mode read_only isolation a = (r, a') ->
  settled settings a -> ad_previous a = [] ->
  ad_outcome a' = ad_outcome a /\ durable_kept a a' /\
  (Forall honest (ad_script a) -> Forall honest (ad_script a')) /\
  (r = inl tt -> settled settings a' /\ en_open (ad_engine a') = Some (OpenTransaction [] [])).
Proof.
  unfold adapter_begin. intros H Hs Hprev.
  apply bind_cases in H as [([] & a1 & H1 & H)|(x & H1 & ->)].
  2: { destruct read_only; [|by leaf_inv H1]. eapply set_pragma_cases in H1 as (?&?&?&_);
       [|done|by rewrite Hprev; set_solver]. repeat (split; [done|]). done. }
  assert (S1 : ad_outcome a1 = ad_outcome a /\ durable_kept a a1 /\
    (Forall honest (ad_script a) -> Forall honest (ad_script a1)) /\ settled settings a1 /\
    ReadUncommitted ∉ map fst (ad_previous a1)).
  { destruct read_only as [b|].
    - eapply set_pragma_cases in H1 as (?&?&?&Hr); [|done|by rewrite Hprev; set_solver].
      destruct (Hr eq_refl) as (_ & Hs1 & Hp1). rewrite Hp1, Hprev. repeat (split; [done|]). set_solver.
    - leaf_inv H1. rewrite Hprev. repeat (split; [done|]). simpl. set_solver. }
  clear H1. destruct S1 as (O1 & D1 & F1 & Hs1 & Hni). unfold durable_kept in *.
  apply bind_cases in H as [([] & a2 & H2 & H)|(x & H2 & ->)].
  2: { destruct isolation; [|by leaf_inv H2]. eapply set_pragma_cases in H2 as (?&?&?&_);
       [|done|done]. unfold durable_kept in *. split; [congruence|]. split; [congruence|].
       split; [by auto|done]. }
  assert (S2 : ad_outcome a2 = ad_outcome a /\ durable_kept a a2 /\
    (Forall honest (ad_script a) -> Forall honest (ad_script a2)) /\ settled settings a2).
  { unfold durable_kept in *. destruct isolation as [b|].
    - eapply set_pragma_cases in H2 as (?&?&?&Hr); [|done|done]. unfold durable_kept in *.
      destruct (Hr eq_refl) as (_ & Hs2 & _). split; [congruence|]. split; [congruence|]. auto.
    - leaf_inv H2. auto. }
  clear H2. destruct S2 as (O2 & D2 & F2 & Hs2). unfold durable_kept in *.
  enough (run_kept a2 r a' /\ settled settings a' /\
          (r = inl tt -> en_open (ad_engine a') = Some (OpenTransaction [] [])))
    as (([Hn1 Hn2 Hn3] & Hd & _) & Hs' & Hr).
  { unfold durable_kept in *. split; [congruence|]. split; [congruence|]. auto. }
  destruct mode.
  - eapply begin_sql_cases; [exact H|by left|done].
  - eapply (retry_cases (settled settings)
      (fun a => en_open (ad_engine a) = Some (OpenTransaction [] [])) run_kept)
      in H as (Hs' & Hk & Hr); [done|done|..].
    + intros b rb b' Hsb Hb. eapply begin_sql_cases in Hb as (?&?&?); [done|by right|done].
    + intros b rb b' Hsb Hb. pose proof (driver_kept _ _ _ _ Hb ltac:(done) I) as Hk.
      split; [|done]. eapply settled_same; [done|apply Hk|]. by eapply driver_settings.
    + intros b r1 b1 rb b'. apply run_kept_trans.
Qed.

(** *** Commit and rollback *)

(** Evidence about COMMIT: [Committed] and [Rejected] tell what became of the
    statements of the open transaction, [Unknown] leaves both possible. *)
Definition commit_evidence (before : engine) (log : list stmt) (a' : adapter) : Prop :=
  let durable := en_durable (ad_engine a') in
  match ad_outcome a' with
  | Committed => durable = en_durable before ++ log
  | Rejected => durable = en_durable before
  | Unknown => durable = en_durable before \/ durable = en_durable before ++ log
  | NotAttempted => False
  end.

Lemma adapter_commit_cases settings a r a' t :
  adapter_commit a = (r, a') -> settled settings a -> en_open (ad_engine a) = Some t ->
  commit_evidence (ad_engine a) (ot_log t) a' /\
  (r = inl tt -> ad_outcome a' = Committed /\ en_open (ad_engine a') = None /\
     forall p, en_settings (ad_engine a') p = settings p).
Proof.
  unfold adapter_commit. intros H Hs Ht.
  apply bind_cases in H as [([] & a1 & H1 & H)|(x & H1 & ->)]; [|by leaf_inv H1].
  injection H1 as <-.
  assert (Hs1 : settled settings (set_outcome Unknown a)) by (destruct Hs; by split).
  apply bind_cases in H as [([] & a2 & H2 & H)|(x & H2 & ->)].
  - apply except_cases in H2 as [([] & H2 & _)|(x & s1 & H2 & H3)].
    2: { apply bind_cases in H3 as [(y & s2 & H3 & H4)|(y & H3 & ?)]; [|by leaf_inv H3].
         injection H3 as <- <-. apply bind_cases in H4 as [(y & s2 & H3 & H4)|(y & H3 & ?)]; done. }
    pose proof (driver_settings _ _ _ _ H2 I) as Hst. apply driver_cases in H2 as [Hn2 He2].
    unfold engine_apply in He2. simpl in He2. rewrite Ht in He2. injection He2 as He2.
    apply bind_cases in H as [([] & a3 & H3 & H)|(x & H3 & ->)]; [|by leaf_inv H3].
    injection H3 as <-.
    assert (Hs2 : settled settings (set_outcome Committed a2)).
    { destruct (settled_same _ _ _ Hs1 Hn2 Hst). by split. }
    assert (Hd : en_durable (ad_engine a2) = en_durable (ad_engine a) ++ ot_log t) by by rewrite <- He2.
    apply bind_cases in H as [([] & a4 & H4 & H)|(x & H4 & ->)].
    + destruct (quiet_ok _ _ H4) as [Hn4 He4].
      assert (Hs4 : settled settings a4) by (eapply settled_same; [exact Hs2|done|by rewrite He4]).
      apply (restore_policy_cases settings) in H as (Ho & Hdu & Hr); [|done].
      unfold commit_evidence, durable_kept in *. rewrite Ho, (sn_outcome _ _ Hn4), Hdu, He4. simpl.
      split; [done|]. intros Hr'. destruct (Hr Hr') as [Hop Hset]. split; [done|].
      split; [|done]. rewrite Hop, He4. simpl. by rewrite <- He2.
    + pose proof (driver_kept _ _ _ _ H4 ltac:(done) I) as ([Ho _ _] & Hdu & _).
      unfold commit_evidence, durable_kept in *. rewrite Ho, Hdu. simpl. by split.
  - split; [|done]. apply except_cases in H2 as [(u & _ & ?)|(y & s1 & H2 & H3)]; [done|].
    apply driver_cases in H2 as [[Hn2 _ _] (eff & He & _)]. simpl in *.
    apply bind_cases in H3 as [(z & s2 & H3 & H4)|(z & H3 & _)]; [|by leaf_inv H3].
    injection H3 as <- <-.
    destruct (commit_rejected y s1) eqn:Hrej.
    + apply bind_cases in H4 as [(z & s2 & H3 & H4)|(z & H3 & _)]; [|by leaf_inv H3].
      injection H3 as <- <-. unfold commit_rejected in Hrej. destruct y; try done.
      apply andb_true_iff in Hrej as [_ Htx]. leaf_inv H4. unfold commit_evidence. simpl. rewrite He.
      rewrite He in Htx. destruct eff; simpl in *; try done.
      unfold engine_apply, in_transaction in *. by rewrite Ht in *.
    + apply bind_cases in H4 as [(z & s2 & H3 & H4)|(z & H3 & _)]; [|by leaf_inv H3].
      injection H3 as <- <-. leaf_inv H4. unfold commit_evidence. rewrite Hn2, He.
      destruct eff; simpl; [by left| |by left]. unfold engine_apply. rewrite Ht. by right.
Qed.

Lemma adapter_rollback_cases settings a r a' t :
  adapter_rollback a = (r, a') -> settled settings a -> en_open (ad_engine a) = Some t ->
  ad_outcome a' = ad_outcome a /\ durable_kept a a' /\
  (r = inl tt -> en_open (ad_engine a') = None /\
     forall p, en_settings (ad_engine a') p = settings p).
Proof.
  unfold adapter_rollback. intros H Hs Ht. unfold durable_kept.
  apply bind_cases in H as [([] & a1 & H1 & H)|(x & H1 & ->)].
  - pose proof H1 as H1'. apply control_sql_cases in H1 as [([Hn1 Hp1 Hh1] & Hd1 & _) Hr1]; [|done..].
    specialize (Hr1 eq_refl). unfold engine_apply in Hr1. rewrite Ht in Hr1. injection Hr1 as Hr1.
    assert (Hs1 : settled settings a1).
    { eapply settled_same; [done|by split|]. by rewrite <- Hr1. }
    apply (restore_policy_cases settings) in H as (Ho & Hdu & Hr); [|done].
    unfold durable_kept in *. split; [congruence|]. split; [congruence|]. intros Hr'.
    destruct (Hr Hr') as [Hop Hset]. split; [|done]. by rewrite Hop, <- Hr1.
  - apply control_sql_cases in H1 as [([Hn1 Hp1 Hh1] & Hd1 & _) _]; [|done..]. by split.
Qed.
