(* ===== verification/SqliteRetry.v ===== *)
(** * Retrying the writer lock, and classifying failures

    Properties of [sqlite/retry.py] and of [classify_failure] in
    [sqlite/runtime.py], whose definitions are in [SqliteAdapter.v]. *)

From S2P Require Export SqliteAdapter.
From Stdlib Require Import Floats.SpecFloat.

(** ** Backoff *)

Lemma SFltb_irrefl x : SFltb x x = false.
Proof.
  unfold SFltb. destruct x as [[]|[]| |[] m e]; try done; simpl;
    by rewrite Z.compare_refl, Pos.compare_refl.
Qed.

Lemma SFltb_asym x y : SFltb x y = true -> SFltb y x = false.
Proof.
  unfold SFltb. destruct x as [[]|[]| |[] m e], y as [[]|[]| |[] m' e']; try done; simpl;
    rewrite (Z.compare_antisym e e'); change (Pos.compare_cont Eq) with Pos.compare;
    rewrite (Pos.compare_antisym m m');
    destruct (Z.compare e e'); simpl; try done; by destruct (Pos.compare m m').
Qed.

(** no sleep between two attempts exceeds the policy's [max_backoff], however
    large the retry index: the scaling saturates instead of overflowing. *)
Theorem backoff_bounded policy retry_index :
  SFltb (max_backoff policy) (backoff_bound policy retry_index) = false.
Proof.
  unfold backoff_bound. destruct (SFltb _ (max_backoff policy)) eqn:Hlt.
  - by apply SFltb_asym.
  - apply SFltb_irrefl.
Qed.

(** ** Attempts *)

Definition attempts (a : adapter) : nat := count_occ command_eq_dec (ad_sent a) BeginImmediate.

Definition begin_immediate : eff adapter failure unit := execute_control_sql BeginImmediate.

Lemma driver_attempts c a r a' :
  driver c a = (r, a') -> attempts a' = attempts a + (if decide (c = BeginImmediate) then 1 else 0).
Proof.
  intros H. unfold attempts. assert (Hs : ad_sent a' = ad_sent a ++ [c]).
  { unfold driver in H. destruct a as [e o prev sent [|[|f eff] script]]; simpl in H;
      try destruct (engine_apply c e); by injection H as <- <-. }
  rewrite Hs, count_occ_app. simpl. by destruct (decide _), (command_eq_dec _ _).
Qed.

Lemma begin_attempts a r a' : begin_immediate a = (r, a') -> attempts a' = S (attempts a).
Proof.
  unfold begin_immediate, execute_control_sql. intros H.
  apply bind_cases in H as [([] & s & H1 & H2)|(x & H1 & ->)].
  - apply driver_attempts in H1, H2. simpl in H1, H2. lia.
  - apply driver_attempts in H1. simpl in H1. lia.
Qed.

Lemma retry_attempts n a r a' :
  retry_on_sqlite_busy begin_immediate n a = (r, a') -> S (attempts a) <= attempts a' <= S n + attempts a.
Proof.
  revert a. induction n as [|n IH]; intros a H; simpl in H;
    apply except_cases in H as [(u & H & _)|(e & s & H & Hh)]; apply begin_attempts in H;
    try (rewrite H; lia); destruct (negb _).
  1-3: injection Hh as _ <-; lia.
  apply bind_cases in Hh as [([] & s1 & H1 & H2)|(x & H1 & ->)]; apply driver_attempts in H1; simpl in H1.
  - apply IH in H2. lia.
  - lia.
Qed.

#[local] Arguments is_sqlite_busy_error : simpl never.

(** [k] attempts that find the lock taken, each followed by its sleep. *)
Fixpoint busy_rounds (d : driver_error) (k : nat) : list answer :=
  match k with O => [] | S k => Fault (FDriver d) NoChange :: Done :: busy_rounds d k end.
Fixpoint sent_rounds (k : nat) : list command :=
  match k with O => [] | S k => BeginImmediate :: Quiet :: sent_rounds k end.

Lemma retry_rounds d k n rest a :
  is_sqlite_busy_error (FDriver d) = true -> ad_script a = busy_rounds d k ++ rest ->
  retry_on_sqlite_busy begin_immediate (k + n) a =
  retry_on_sqlite_busy begin_immediate n
    (Adapter (ad_engine a) (ad_outcome a) (ad_previous a) (ad_sent a ++ sent_rounds k) rest).
Proof.
  intros Hd. revert a. induction k as [|k IH]; intros [e o p sent script] Hs; simpl in Hs; subst script.
  - simpl. by rewrite app_nil_r.
  - simpl. unfold try_except at 1, begin_immediate at 1, execute_control_sql, mbind, eff_bind, driver at 1.
    simpl. rewrite Hd. simpl. rewrite IH by done. simpl. by rewrite <- !app_assoc.
Qed.

(** [BEGIN IMMEDIATE] is attempted at least once and at most [max_retries + 1]
    times, whatever happens; up to [max_retries] busy answers are absorbed when
    the next attempt gets the lock; one more busy answer surfaces as it is. *)
Theorem busy_retry_bounded policy a :
  (forall r a', retry_on_sqlite_busy begin_immediate (max_retries policy) a = (r, a') ->
     1 <= attempts a' - attempts a <= max_retries policy + 1) /\
  (forall d k rest, is_sqlite_busy_error (FDriver d) = true -> k <= max_retries policy ->
     en_open (ad_engine a) = None -> ad_script a = busy_rounds d k ++ Done :: Done :: rest ->
     exists a', retry_on_sqlite_busy begin_immediate (max_retries policy) a = (inl tt, a') /\
       en_open (ad_engine a') = Some (OpenTransaction [] []) /\ attempts a' - attempts a = S k) /\
  (forall d rest, is_sqlite_busy_error (FDriver d) = true ->
     ad_script a = busy_rounds d (max_retries policy) ++ Fault (FDriver d) NoChange :: rest ->
     exists a', retry_on_sqlite_busy begin_immediate (max_retries policy) a = (inr (FDriver d), a') /\
       attempts a' - attempts a = S (max_retries policy)).
Proof.
  assert (Hrounds : forall k, count_occ command_eq_dec (sent_rounds k) BeginImmediate = k).
  { induction k as [|k IH]; [done|]. simpl. by rewrite IH. }
  split; [|split].
  - intros r a' H%retry_attempts. lia.
  - intros d k rest Hd Hk Ho Hs. pose proof (retry_rounds d k (max_retries policy - k) _ a Hd Hs) as H.
    replace (k + (max_retries policy - k)) with (max_retries policy) in H by lia. rewrite H.
    destruct a as [[open dur st] o p sent script]. simpl in Ho. subst open.
    eexists. split; [by destruct (max_retries policy - k)|]. split; [done|].
    unfold attempts. simpl. rewrite !count_occ_app, Hrounds. simpl. lia.
  - intros d rest Hd Hs. pose proof (retry_rounds d (max_retries policy) 0 _ a Hd Hs) as H.
    rewrite Nat.add_0_r in H. rewrite H. destruct a as [e o p sent script]. eexists. split.
    + simpl. unfold try_except, begin_immediate, execute_control_sql, mbind, eff_bind, driver. simpl.
      by rewrite Hd.
    + unfold attempts. simpl. rewrite !count_occ_app, Hrounds. simpl. lia.
Qed.

(** ** Classification *)

Definition violation (c : failure_category) : bool :=
  match c with
  | UniqueViolation | NotNullViolation | CheckViolation | ForeignKeyViolation => true
  | _ => false
  end.

(** The failures reported as constraint violations are those a nested context
    can recover from. *)
Lemma violation_iff_recoverable d :
  match classify_failure (FDriver d) with Some (c, _) => violation c = recoverable_code d | None => False end.
Proof.
  destruct d as [cl [c|] m]; [|done]. unfold recoverable_code. simpl.
  destruct (decide (c ∈ recoverable_codes)) as [Hin|Hin].
  - rewrite (bool_decide_true (c ∈ recoverable_codes)) by done. unfold recoverable_codes in Hin.
    rewrite !elem_of_cons, elem_of_nil in Hin. simpl in Hin.
    by repeat (destruct Hin as [-> |Hin]; [vm_compute; reflexivity|]).
  - rewrite (bool_decide_false (c ∈ recoverable_codes)) by done.
    destruct (Z.eqb c SQLITE_BUSY_SNAPSHOT); [done|]. destruct (bool_decide _); [done|].
    unfold constraint_category, recoverable_codes in *. rewrite !elem_of_cons, elem_of_nil in Hin.
    rewrite bool_decide_false by (rewrite !elem_of_cons, elem_of_nil; tauto).
    repeat (case_match; simplify_eq/=; [exfalso; lia|]). done.
Qed.
