(* ===== verification/Transaction.v ===== *)
(** * Transactions

    [Transaction], [_NestedTransaction] and [ChunkStream] of [runtime.py] over
    the SQLite adapter.  Every public call has a first part that runs before it
    awaits the transaction's lock and a body that runs with the lock held;
    [sys_step] interleaves the calls of any number of tasks.  Logging, telemetry
    and the decoding of rows, which happens outside the driver, are left out. *)

From S2P Require Export SqliteAdapter.

Abbreviation task := positive (only parsing).   (* an asyncio task *)

(** ** State *)

(** A [_NestedTransaction] object. *)
Record nested := Nested { ns_used : bool; ns_failed : bool; ns_name : nat }.
Definition new_nested : nested := Nested false false 0.

(** Who has the connection, from the pool's point of view. *)
Inductive lease := NotAcquired | Leased | Released | Discarded.
#[export] Instance lease_eq_dec : EqDecision lease.
Proof. solve_decision. Defined.

(** [connection is not None], [_entering], [closed], [_connection_reusable],
    [_close_task is not None]. *)
Record lifecycle := Lifecycle {
  lc_connection : bool; lc_entering : bool; lc_closed : bool;
  lc_reusable : bool; lc_close_task : bool }.

(** [_savepoint_sequence], [_nested_stack] with its last element first, and
    [_nested_owner]. *)
Record nesting := Nesting {
  nt_sequence : nat; nt_stack : list nat; nt_owner : option task;
  nt_contexts : gmap nat nested }.

(** The task that holds [_lock] between calls, which is the one with an open
    stream, and [_stream_owner]. *)
Record streaming := Streaming { sm_lock : option task; sm_owner : option task }.

Record transaction := Transaction {
  tx_life : lifecycle;
  tx_nest : nesting;
  tx_stream : streaming;
  tx_outcome : commit_outcome;
  tx_lease : lease;
  tx_adapter : adapter
}.

Definition set_life (l : lifecycle) (x : transaction) : transaction :=
  Transaction l (tx_nest x) (tx_stream x) (tx_outcome x) (tx_lease x) (tx_adapter x).
Definition set_nest (n : nesting) (x : transaction) : transaction :=
  Transaction (tx_life x) n (tx_stream x) (tx_outcome x) (tx_lease x) (tx_adapter x).
Definition set_stream (s : streaming) (x : transaction) : transaction :=
  Transaction (tx_life x) (tx_nest x) s (tx_outcome x) (tx_lease x) (tx_adapter x).
Definition set_tx_outcome (o : commit_outcome) (x : transaction) : transaction :=
  Transaction (tx_life x) (tx_nest x) (tx_stream x) o (tx_lease x) (tx_adapter x).
Definition set_lease (l : lease) (x : transaction) : transaction :=
  Transaction (tx_life x) (tx_nest x) (tx_stream x) (tx_outcome x) l (tx_adapter x).
Definition set_adapter (a : adapter) (x : transaction) : transaction :=
  Transaction (tx_life x) (tx_nest x) (tx_stream x) (tx_outcome x) (tx_lease x) a.

Definition set_entering (b : bool) (x : transaction) : transaction :=
  let l := tx_life x in
  set_life (Lifecycle (lc_connection l) b (lc_closed l) (lc_reusable l) (lc_close_task l)) x.
Definition set_connection (b : bool) (x : transaction) : transaction :=
  let l := tx_life x in
  set_life (Lifecycle b (lc_entering l) (lc_closed l) (lc_reusable l) (lc_close_task l)) x.
Definition set_closed (x : transaction) : transaction :=
  let l := tx_life x in
  set_life (Lifecycle (lc_connection l) (lc_entering l) true (lc_reusable l) (lc_close_task l)) x.
Definition set_unsafe (x : transaction) : transaction :=
  let l := tx_life x in
  set_life (Lifecycle (lc_connection l) (lc_entering l) (lc_closed l) false (lc_close_task l)) x.
Definition set_close_task (x : transaction) : transaction :=
  let l := tx_life x in
  set_life (Lifecycle (lc_connection l) (lc_entering l) (lc_closed l) (lc_reusable l) true) x.

Definition context_of (x : transaction) (c : nat) : nested :=
  default new_nested (nt_contexts (tx_nest x) !! c).
Definition set_context (c : nat) (n : nested) (x : transaction) : transaction :=
  let k := tx_nest x in
  set_nest (Nesting (nt_sequence k) (nt_stack k) (nt_owner k) (<[c := n]> (nt_contexts k))) x.

(** [self._nested_stack[-1].failed] *)
Definition top_failed (x : transaction) : bool :=
  match nt_stack (tx_nest x) with [] => false | c :: _ => ns_failed (context_of x c) end.

(** ** Checks *)

Definition call : Type := eff transaction failure unit.
Definition py (c : exc_class) (m : string) : failure := FPython (Exn c m).

(** [_check_nested_owner()] in task [t]. *)
Definition check_nested_owner (t : task) : call :=
  x ← get;
  require (match nt_owner (tx_nest x) with None => true | Some o => bool_decide (o = t) end)
    (py TransactionStateError "nested transaction must be used by its owning task").

Definition require_connection : call :=
  x ← get;
  let l := tx_life x in
  _ ← require (negb (lc_closed l)) (py TransactionClosedError "transaction is closed");
  _ ← require (lc_connection l) (py TransactionNotStartedError "transaction has not been started");
  _ ← require (lc_reusable l)
        (py DatabaseRuntimeError "transaction connection is unsafe after a timed-out operation");
  require (negb (top_failed x))
    (py TransactionStateError "nested transaction requires rollback before further work").

(** ** Driver operations *)

Definition on_connection (m : eff adapter failure unit) : call := zoom tx_adapter set_adapter m.

Definition operation_timeout : failure := py DatabaseOperationTimeoutError "operation timed out".

Definition mark_failed (x : transaction) : transaction :=
  match nt_stack (tx_nest x) with
  | [] => x
  | c :: _ => let n := context_of x c in set_context c (Nested (ns_used n) true (ns_name n)) x
  end.

(** [_run_driver_operation]: the deadline's cancellation becomes a timeout, a
    recoverable constraint failure marks the innermost savepoint, anything
    else makes the connection unsafe. *)
Definition run_driver_operation (recover_constraints : bool) (m : eff adapter failure unit) : call :=
  try_except (on_connection m) (fun error =>
    match error with
    | FDeadline => _ ← modify set_unsafe; throw operation_timeout
    | FConstraint original =>
        x ← get;
        _ ← (if recover_constraints && nonempty (nt_stack (tx_nest x)) && lc_reusable (tx_life x)
             then modify mark_failed else modify set_unsafe);
        throw (FDriver original)
    | _ => _ ← modify set_unsafe; throw error
    end).

Definition is_operation_timeout (x : failure) : bool :=
  match x with FPython e => bool_decide (exn_class e = DatabaseOperationTimeoutError) | _ => false end.

(** [_run_query_operation] *)
Definition run_query_operation (m : eff adapter failure unit) : call :=
  try_except (run_driver_operation true m) (fun error =>
    if is_operation_timeout error || negb (is_exception error) then throw error
    else throw (py ExecutionError "query failed")).

(** [_execute_buffered] for a compiled plan; [None] is the plan of an empty
    bulk insert.  Fetching and closing are one [await] each. *)
Definition execute_buffered (plan : option stmt) : call :=
  match plan with
  | None => mret tt
  | Some s => run_query_operation (_ ← adapter_execute s; try_finally (driver Quiet) (driver Quiet))
  end.

(** ** The runtime's pool operations *)

(** [runtime.acquire]: a new adapter on an idle connection of the pool, whose
    session settings are [settings]. *)
Definition fresh_adapter (settings : pragma -> bool) (a : adapter) : adapter :=
  Adapter (Engine None (en_durable (ad_engine a)) settings) NotAttempted [] (ad_sent a) (ad_script a).

Definition runtime_acquire (settings : pragma -> bool) : call :=
  try_except
    (_ ← on_connection (driver Quiet);
     modify (fun x => set_lease Leased (set_adapter (fresh_adapter settings (tx_adapter x)) x)))
    (fun error =>
       match error with
       | FPython e => throw error      (* a [DatabaseRuntimeError] of the pool *)
       | _ => if is_exception error
              then throw (py DatabaseRuntimeError "could not acquire transaction connection")
              else throw error
       end).

(** [runtime.release] and [runtime.discard] hand the connection over; [discard]
    closes it, which ends its transaction. *)
Definition runtime_release : call :=
  _ ← modify (set_lease Released); on_connection (driver Quiet).
Definition hang_up (a : adapter) : adapter := set_engine (set_open None (ad_engine a)) a.
Definition runtime_discard : call :=
  _ ← modify (set_lease Discarded);
  _ ← on_connection (driver Quiet); modify (fun x => set_adapter (hang_up (tx_adapter x)) x).

(** ** Entry *)

Section policy.
Context (policy : retry_policy) (mode : transaction_mode) (read_only : option bool)
  (isolation : option isolation_level) (settings : pragma -> bool).

(** [Transaction.__init__] of a SQLite runtime refuses these policies. *)
Definition check_policy : res unit :=
  _ ← guardR (match isolation with None | Some Serializable => true | _ => false end)
        DatabaseRuntimeError "SQLite supports only serializable isolation";
  guardR (match read_only, mode with Some true, Immediate => false | _, _ => true end)
    DatabaseRuntimeError "SQLite read-only transactions cannot request immediate write intent".

(** [__aenter__] before its first [await]. *)
Definition enter_check : call :=
  x ← get;
  _ ← require (negb (lc_entering (tx_life x) || lc_connection (tx_life x)))
        (py TransactionReuseError "transaction is already in progress");
  _ ← require (negb (lc_closed (tx_life x)))
        (py TransactionReuseError "transaction has already been used");
  modify (set_entering true).

Definition begin_failed (error : failure) : call :=
  _ ← runtime_discard;
  _ ← modify set_unsafe;
  _ ← modify set_closed;
  if is_operation_timeout error || negb (is_exception error) then throw error
  else throw (py DatabaseRuntimeError "could not begin transaction").

Definition enter_body : call :=
  try_finally
    (_ ← runtime_acquire settings;
     _ ← try_except
           (run_driver_operation false (adapter_begin policy mode read_only isolation))
           begin_failed;
     modify (set_connection true))
    (modify (set_entering false)).

(** ** Savepoints *)

(** [_control] *)
Definition control (c : command) : call :=
  x ← get;
  let l := tx_life x in
  _ ← (if negb (lc_connection l) || lc_closed l || negb (lc_reusable l)
       then require_connection else mret tt);
  try_except (run_driver_operation false (execute_control_sql c)) (fun error =>
    if is_operation_timeout error || negb (is_exception error) then throw error
    else throw (py DatabaseRuntimeError "could not execute savepoint control")).

(** [_check_access] *)
Definition check_access (t : task) : call :=
  _ ← check_nested_owner t;
  x ← get;
  require (match sm_owner (tx_stream x) with None => true | Some _ => false end)
    (py TransactionStateError "close the active stream before crossing a savepoint boundary").

Definition nested_enter_check (t : task) (c : nat) : call :=
  x ← get;
  let n := context_of x c in
  _ ← require (negb (ns_used n)) (py TransactionReuseError "nested transaction contexts are single-use");
  _ ← modify (set_context c (Nested true (ns_failed n) (ns_name n)));
  check_access t.

Definition next_savepoint (c : nat) (x : transaction) : transaction :=
  let k := tx_nest x in let n := context_of x c in
  set_nest (Nesting (S (nt_sequence k)) (nt_stack k) (nt_owner k)
              (<[c := Nested (ns_used n) (ns_failed n) (S (nt_sequence k))]> (nt_contexts k))) x.

Definition push_context (t : task) (c : nat) (x : transaction) : transaction :=
  let k := tx_nest x in
  set_nest (Nesting (nt_sequence k) (c :: nt_stack k) (Some t) (nt_contexts k)) x.

Definition nested_enter_body (t : task) (c : nat) : call :=
  _ ← check_nested_owner t;
  _ ← require_connection;
  _ ← modify (next_savepoint c);
  x ← get;
  _ ← control (Savepoint (ns_name (context_of x c)));
  modify (push_context t c).

Definition nested_exit_check (t : task) (c : nat) : call :=
  _ ← check_access t;
  x ← get;
  _ ← (if negb (lc_connection (tx_life x)) || lc_closed (tx_life x)
       then require_connection else mret tt);
  require (bool_decide (head (nt_stack (tx_nest x)) = Some c))
    (py TransactionStateError "nested transaction contexts must exit once in stack order").

(** The stack cleanup of the [finally] clause. *)
Definition pop_context (x : transaction) : transaction :=
  let k := tx_nest x in
  let rest := tail (nt_stack k) in
  set_nest (Nesting (nt_sequence k) rest (match rest with [] => None | _ => nt_owner k end)
              (nt_contexts k)) x.

(** The savepoint control of an exit; [exc]: the block raised. *)
Definition exit_commands (c : nat) (exc : bool) : call :=
  x ← get;
  let n := context_of x c in
  if negb (lc_reusable (tx_life x)) then
    if exc then mret tt
    else throw (py DatabaseRuntimeError "nested transaction cannot release an unsafe connection")
  else
    _ ← (if exc || ns_failed n then control (RollbackTo (ns_name n)) else mret tt);
    control (ReleaseSavepoint (ns_name n)).

(** Its errors are logged, not raised, when the block raised. *)
Definition exit_control (c : nat) (exc : bool) : call :=
  try_except (exit_commands c exc)
    (fun error => if is_exception error && exc then mret tt else throw error).

Definition nested_exit_body (c : nat) (exc : bool) : call :=
  _ ← try_finally (exit_control c exc) (modify pop_context);
  x ← get;
  require (negb (ns_failed (context_of x c) && negb exc))
    (py TransactionStateError "nested transaction rolled back after a caught constraint failure").

(** ** Queries *)

(** The part of [fetch_all], [fetch_one], [fetch_one_or_none], [execute] and
    [explain] that touches the connection. *)
Definition query_body (t : task) (plan : option stmt) : call :=
  _ ← check_nested_owner t; _ ← require_connection; execute_buffered plan.

(** [ChunkStream.__aenter__]: on success the lock stays held. *)
Definition stream_enter_body (t : task) (s : stmt) : call :=
  _ ← check_nested_owner t;
  _ ← require_connection;
  _ ← run_query_operation (adapter_execute s);
  modify (set_stream (Streaming (Some t) (Some t))).

(** [_check_owner], for the stream that is open. *)
Definition check_stream_owner (t : task) : call :=
  _ ← check_nested_owner t;
  x ← get;
  _ ← require (bool_decide (sm_lock (tx_stream x) <> None))
        (py DatabaseRuntimeError "chunk stream is not open");
  require (bool_decide (sm_lock (tx_stream x) = Some t))
    (py DatabaseRuntimeError "chunk stream must be consumed and closed by its owning task").

Definition stream_next (t : task) : call :=
  _ ← check_stream_owner t; run_query_operation (driver Quiet).

Definition stream_exit (t : task) : call :=
  _ ← check_stream_owner t;
  try_finally (run_query_operation (driver Quiet)) (modify (set_stream (Streaming None None))).

(** ** Closing *)

(** [__aexit__] until it owns the close task.  A competing exit waits for that
    task, then raises. *)
Definition exit_check (t : task) : call :=
  _ ← check_nested_owner t;
  x ← get;
  _ ← require (negb (bool_decide (sm_owner (tx_stream x) = Some t)))
        (py TransactionStateError "close the chunk stream before closing its transaction");
  _ ← require (negb (lc_close_task (tx_life x)))
        (py TransactionClosedError "transaction is already closing or closed");
  modify set_close_task.

(** [_report_close_failure] *)
Definition report_close_failure (error : failure) (during_error : bool) : call :=
  if during_error then mret tt
  else if is_operation_timeout error then throw error
  else throw (py DatabaseRuntimeError "could not close transaction").

Definition commit_close : call :=
  _ ← modify (set_tx_outcome Unknown);
  _ ← try_finally (run_driver_operation false adapter_commit)
        (x ← get;
         match ad_outcome (tx_adapter x) with
         | (Committed | Rejected) as o => modify (set_tx_outcome o)
         | _ => mret tt
         end);
  modify (set_tx_outcome Committed).

Definition clear_stack (x : transaction) : transaction :=
  let k := tx_nest x in set_nest (Nesting (nt_sequence k) [] None (nt_contexts k)) x.

(** Commit or roll back, then give the connection back. *)
Definition finish_close (exc : bool) : call :=
  try_finally
    (try_except
       (if exc then run_driver_operation false adapter_rollback else commit_close)
       (fun error =>
          if is_exception error
          then _ ← modify set_unsafe; report_close_failure error exc
          else throw error))
    (x ← get; if lc_reusable (tx_life x) then runtime_release else runtime_discard).

(** [_close] once it has taken the connection. *)
Definition close_leased (exc : bool) : call :=
  x ← get;
  _ ← modify (set_connection false);
  _ ← modify set_closed;
  if nonempty (nt_stack (tx_nest x)) then
    _ ← modify set_unsafe;
    _ ← modify clear_stack;
    _ ← runtime_discard;
    require exc (py TransactionStateError "transaction closed with unfinished nested contexts")
  else if negb (lc_reusable (tx_life x)) then runtime_discard
  else finish_close exc.

(** [_close] of the exit begun by task [t]. *)
Definition close_body (t : task) (exc : bool) : call :=
  _ ← check_nested_owner t;
  x ← get;
  _ ← require (lc_connection (tx_life x)) (py TransactionClosedError "transaction is closed");
  close_leased exc.

(** ** Calls and their interleavings *)

Inductive op :=
  | OpEnter
  | OpExit (exc : bool)
  | OpNestedEnter (c : nat)
  | OpNestedExit (c : nat) (exc : bool)
  | OpQuery (plan : option stmt)
  | OpStreamEnter (s : stmt)
  | OpStreamNext
  | OpStreamExit.

(** What a call does before it awaits the lock. *)
Definition op_check (t : task) (o : op) : call :=
  match o with
  | OpEnter => enter_check
  | OpExit _ => exit_check t
  | OpNestedEnter c => nested_enter_check t c
  | OpNestedExit c _ => nested_exit_check t c
  | OpQuery _ | OpStreamEnter _ => check_nested_owner t
  | OpStreamNext | OpStreamExit => mret tt
  end.

Definition op_body (t : task) (o : op) : call :=
  match o with
  | OpEnter => enter_body
  | OpExit exc => close_body t exc
  | OpNestedEnter c => nested_enter_body t c
  | OpNestedExit c exc => nested_exit_body c exc
  | OpQuery plan => query_body t plan
  | OpStreamEnter s => stream_enter_body t s
  | OpStreamNext => stream_next t
  | OpStreamExit => stream_exit t
  end.

Definition takes_lock (o : op) : bool :=
  match o with OpEnter | OpStreamNext | OpStreamExit => false | _ => true end.

(** The transaction, the calls waiting for the lock, and the outcomes of the
    finished ones, newest first. *)
Record system := System {
  sys_tx : transaction;
  sys_pending : gmap task op;
  sys_history : list (task * op * (unit + failure))
}.

Definition feed (script : list answer) (x : transaction) : transaction :=
  set_adapter (set_script script (tx_adapter x)) x.

Inductive sys_step : system -> system -> Prop :=
  | StepStart x pending history t o x' :
      pending !! t = None -> op_check t o x = (inl tt, x') ->
      sys_step (System x pending history) (System x' (<[t := o]> pending) history)
  | StepRefused x pending history t o x' e :
      pending !! t = None -> op_check t o x = (inr e, x') ->
      sys_step (System x pending history) (System x' pending ((t, o, inr e) :: history))
  | StepRun x pending history t o script r x' :
      pending !! t = Some o ->
      (takes_lock o = true -> sm_lock (tx_stream x) = None) ->
      Forall honest script ->
      op_body t o (feed script x) = (r, x') ->
      sys_step (System x pending history)
        (System x' (delete t pending) ((t, o, r) :: history))
  | StepSelfLock x pending history t o :
      (* the lock is not reentrant; a close waits in a task of its own *)
      pending !! t = Some o -> takes_lock o = true -> (forall exc, o <> OpExit exc) ->
      sm_lock (tx_stream x) = Some t ->
      sys_step (System x pending history)
        (System x (delete t pending)
           ((t, o, inr (py OtherError "RuntimeError: lock is already held")) :: history))
  | StepCancelled x pending history t o :
      (* cancelled while waiting; the close task is never *)
      pending !! t = Some o -> takes_lock o = true -> (forall exc, o <> OpExit exc) ->
      sys_step (System x pending history)
        (System x (delete t pending) ((t, o, inr FCancelled) :: history)).

(** ** [db.transaction()] *)

Definition new_transaction : transaction :=
  Transaction (Lifecycle false false false true false) (Nesting 0 [] None ∅)
    (Streaming None None) NotAttempted NotAcquired
    (Adapter (Engine None [] settings) NotAttempted [] [] []).

Inductive sys_reachable : system -> Prop :=
  | ReachNew : sys_reachable (System new_transaction ∅ [])
  | ReachStep s s' : sys_reachable s -> sys_step s s' -> sys_reachable s'.
End policy.
