(* ===== verification/TransactionSpec.v ===== *)
(** * What a transaction promises

    An abstract transaction: the statements executed so far, split by the
    savepoint contexts that are open.  [spec_step] says what each call may do to
    it, [describes] which concrete transactions it stands for.  The refinement
    is proved in [TransactionFacts.v] and [TransactionProps.v]. *)

From S2P Require Export Transaction.

(** ** The abstract transaction *)

(** A nested context that is open, the statements executed in it, and whether
    one of them was rejected by a constraint. *)
Record frame := Frame { fr_context : nat; fr_log : list stmt; fr_failed : bool }.

(** [SpecIdle]: not entered, with [usable] telling whether an entry can work;
    [SpecOpen]: the statements outside every nested context, then the open
    contexts, innermost first; [SpecDoomed]: no further statement will run and
    nothing is kept; [SpecDone]: closed. *)
Inductive tx_spec :=
  | SpecIdle (usable : bool)
  | SpecOpen (base : list stmt) (frames : list frame)
  | SpecDoomed
  | SpecDone (outcome : commit_outcome) (durable : list stmt).

Definition append_log (l base : list stmt) (frames : list frame) : tx_spec :=
  match frames with
  | [] => SpecOpen (base ++ l) []
  | f :: older => SpecOpen base (Frame (fr_context f) (fr_log f ++ l) (fr_failed f) :: older)
  end.

Definition healthy (frames : list frame) : bool :=
  match frames with [] => true | f :: _ => negb (fr_failed f) end.

(** The statement a call executes. *)
Definition statement_of (o : op) : option stmt :=
  match o with
  | OpQuery plan => plan
  | OpStreamEnter s => Some s
  | _ => None
  end.

Definition is_exit (o : op) : bool := match o with OpExit _ => true | _ => false end.
Definition is_enter (o : op) : bool := match o with OpEnter => true | _ => false end.
Definition on_stream (o : op) : bool :=
  match o with OpStreamNext | OpStreamExit => true | _ => false end.

Definition query_failed : failure := py ExecutionError "query failed".
Definition rolled_back_nested : failure :=
  py TransactionStateError "nested transaction rolled back after a caught constraint failure".

(** Exceptions of a call that did nothing; a cancelled wait is one of them. *)
Definition refusal (x : failure) : bool :=
  match x with
  | FPython e => negb (bool_decide (x = rolled_back_nested)) && bool_decide (exn_class e ∈
      [TransactionStateError; TransactionNotStartedError; TransactionClosedError;
       TransactionReuseError; DatabaseRuntimeError; OtherError])
  | FCancelled => true
  | _ => false
  end.

(** Exceptions that a caller of the library may see: its own, or a
    cancellation. *)
Definition public (x : failure) : bool :=
  match x with FPython _ | FCancelled => true | _ => false end.

(** What [commit_outcome] tells of the statements of a transaction. *)
Definition evidence (o : commit_outcome) (log durable : list stmt) : Prop :=
  match o with
  | Committed => durable = log
  | Rejected => durable = []
  | Unknown => durable = [] \/ durable = log
  | NotAttempted => False
  end.

Inductive spec_step : tx_spec -> op * (unit + failure) -> tx_spec -> Prop :=
  | SpecRefused sp o e : refusal e = true -> spec_step sp (o, inr e) sp
  (* entry *)
  | SpecEntered usable :
      spec_step (SpecIdle usable) (OpEnter, inl tt) (if usable then SpecOpen [] [] else SpecDoomed)
  | SpecNotEntered usable usable' e :
      (usable' = true -> usable = true) ->
      spec_step (SpecIdle usable) (OpEnter, inr e) (SpecIdle usable')
  | SpecNotBegun usable e : spec_step (SpecIdle usable) (OpEnter, inr e) (SpecDone NotAttempted [])
  (* statements *)
  | SpecExecuted base frames o s :
      statement_of o = Some s -> healthy frames = true ->
      spec_step (SpecOpen base frames) (o, inl tt) (append_log [s] base frames)
  | SpecEmpty base frames :
      healthy frames = true -> spec_step (SpecOpen base frames) (OpQuery None, inl tt) (SpecOpen base frames)
  | SpecConstraint base f older o s :
      statement_of o = Some s -> fr_failed f = false ->
      spec_step (SpecOpen base (f :: older)) (o, inr query_failed)
        (SpecOpen base (Frame (fr_context f) (fr_log f) true :: older))
  | SpecStreamed base frames o :
      on_stream o = true -> spec_step (SpecOpen base frames) (o, inl tt) (SpecOpen base frames)
  (* nested contexts *)
  | SpecNested base frames c :
      healthy frames = true -> c ∉ map fr_context frames ->
      spec_step (SpecOpen base frames) (OpNestedEnter c, inl tt)
        (SpecOpen base (Frame c [] false :: frames))
  | SpecReleased base f older :
      fr_failed f = false ->
      spec_step (SpecOpen base (f :: older)) (OpNestedExit (fr_context f) false, inl tt)
        (append_log (fr_log f) base older)
  | SpecAborted base f older :
      spec_step (SpecOpen base (f :: older)) (OpNestedExit (fr_context f) true, inl tt)
        (SpecOpen base older)
  | SpecRolledBack base f older :
      fr_failed f = true ->
      spec_step (SpecOpen base (f :: older))
        (OpNestedExit (fr_context f) false, inr rolled_back_nested) (SpecOpen base older)
  (* an operation that left the connection in doubt *)
  | SpecDoom base frames o e :
      is_enter o = false -> is_exit o = false -> spec_step (SpecOpen base frames) (o, inr e) SpecDoomed
  | SpecSwallowed base frames c :
      spec_step (SpecOpen base frames) (OpNestedExit c true, inl tt) SpecDoomed
  | SpecStillDoomed o e : is_exit o = false -> spec_step SpecDoomed (o, inr e) SpecDoomed
  | SpecDoomedStream o : on_stream o = true -> spec_step SpecDoomed (o, inl tt) SpecDoomed
  | SpecDoomedNested c : spec_step SpecDoomed (OpNestedExit c true, inl tt) SpecDoomed
  (* exit *)
  | SpecDiscarded exc r : spec_step SpecDoomed (OpExit exc, r) (SpecDone NotAttempted [])
  | SpecUnfinished base f older exc r :
      (exc = false -> r <> inl tt) ->
      spec_step (SpecOpen base (f :: older)) (OpExit exc, r) (SpecDone NotAttempted [])
  | SpecRollback base r : spec_step (SpecOpen base []) (OpExit true, r) (SpecDone NotAttempted [])
  | SpecCommit base r outcome durable :
      evidence outcome base durable -> (r = inl tt -> outcome = Committed) ->
      spec_step (SpecOpen base []) (OpExit false, r) (SpecDone outcome durable).

(** A run over a history, oldest call first. *)
Inductive spec_run : tx_spec -> list (op * (unit + failure)) -> tx_spec -> Prop :=
  | SpecRunNil sp : spec_run sp [] sp
  | SpecRunSnoc sp h sp1 c sp2 :
      spec_run sp h sp1 -> spec_step sp1 c sp2 -> spec_run sp (h ++ [c]) sp2.

(** ** What a history of calls leaves to commit

    The statements of the calls that returned, innermost open context first,
    computed from the calls and their results alone. *)

Definition replay_call (st : list (list stmt)) (c : op * (unit + failure)) : list (list stmt) :=
  match c with
  | (OpEnter, inl _) => [[]]
  | (OpNestedEnter _, inl _) => [] :: st
  | (OpNestedExit _ exc, inl _) =>
      match st with
      | inner :: outer :: rest => (if exc : bool then outer else outer ++ inner) :: rest
      | _ => st
      end
  | (OpNestedExit _ _, inr e) => if bool_decide (e = rolled_back_nested) then tail st else st
  | (o, inl _) =>
      match statement_of o, st with
      | Some s, top :: rest => (top ++ [s]) :: rest
      | _, _ => st
      end
  | (_, inr _) => st
  end.

Definition replay (h : list (op * (unit + failure))) : list (list stmt) := foldl replay_call [] h.

(** ** The concrete transactions it stands for *)

Fixpoint spec_log (base : list stmt) (frames : list frame) : list stmt :=
  match frames with [] => base | f :: older => spec_log base older ++ fr_log f end.

(** The savepoints of the engine: each keeps what precedes its context. *)
Fixpoint spec_savepoints (name : nat -> nat) (base : list stmt) (frames : list frame)
    : list (nat * list stmt) :=
  match frames with
  | [] => []
  | f :: older => (name (fr_context f), spec_log base older) :: spec_savepoints name base older
  end.

Record idle_state (usable : bool) (x : transaction) : Prop := {
  id_connection : lc_connection (tx_life x) = false;
  id_closed : lc_closed (tx_life x) = false;
  id_reusable : lc_reusable (tx_life x) = usable;
  id_stack : nt_stack (tx_nest x) = [];
  id_lease : tx_lease x = NotAcquired \/ tx_lease x = Discarded;
  id_outcome : tx_outcome x = NotAttempted;
  id_durable : en_durable (ad_engine (tx_adapter x)) = []
}.

(** Between entry and exit. *)
Record entered_state (reusable : bool) (x : transaction) : Prop := {
  es_connection : lc_connection (tx_life x) = true;
  es_entering : lc_entering (tx_life x) = false;
  es_closed : lc_closed (tx_life x) = false;
  es_reusable : lc_reusable (tx_life x) = reusable;
  es_lease : tx_lease x = Leased;
  es_outcome : tx_outcome x = NotAttempted;
  es_durable : en_durable (ad_engine (tx_adapter x)) = []
}.

Record open_state (settings : pragma -> bool) (base : list stmt) (frames : list frame)
    (x : transaction) : Prop := {
  op_entered : entered_state true x;
  op_stack : nt_stack (tx_nest x) = map fr_context frames;
  op_failed : Forall (fun f => ns_failed (context_of x (fr_context f)) = fr_failed f) frames;
  op_engine : en_open (ad_engine (tx_adapter x)) =
    Some (OpenTransaction (spec_log base frames)
            (spec_savepoints (fun c => ns_name (context_of x c)) base frames));
  op_settled : settled settings (tx_adapter x)
}.

(** A connection is given back to the pool only clean. *)
Record done_state (settings : pragma -> bool) (outcome : commit_outcome) (durable : list stmt)
    (x : transaction) : Prop := {
  dn_connection : lc_connection (tx_life x) = false;
  dn_entering : lc_entering (tx_life x) = false;
  dn_closed : lc_closed (tx_life x) = true;
  dn_stack : nt_stack (tx_nest x) = [];
  dn_lease : tx_lease x = Released \/ tx_lease x = Discarded;
  dn_clean : tx_lease x = Released ->
    en_open (ad_engine (tx_adapter x)) = None /\
    forall p, en_settings (ad_engine (tx_adapter x)) p = settings p;
  dn_outcome : tx_outcome x = outcome;
  dn_durable : en_durable (ad_engine (tx_adapter x)) = durable
}.

Definition describes (settings : pragma -> bool) (sp : tx_spec) (x : transaction) : Prop :=
  match sp with
  | SpecIdle usable => idle_state usable x
  | SpecOpen base frames => open_state settings base frames x
  | SpecDoomed => entered_state false x
  | SpecDone outcome durable => done_state settings outcome durable x
  end.

(** What holds in every state. *)
Record well (x : transaction) : Prop := {
  wl_owner : nt_owner (tx_nest x) = None <-> nt_stack (tx_nest x) = [];
  wl_connection : nt_stack (tx_nest x) <> [] -> lc_connection (tx_life x) = true;
  wl_used : forall c, c ∈ nt_stack (tx_nest x) -> ns_used (context_of x c) = true;
  wl_fresh : forall c, ns_used (context_of x c) = false -> ns_failed (context_of x c) = false;
  wl_nodup : NoDup (nt_stack (tx_nest x));
  wl_stream : sm_owner (tx_stream x) = sm_lock (tx_stream x);
  wl_streaming : sm_lock (tx_stream x) <> None -> lc_connection (tx_life x) = true;
  wl_entering : lc_entering (tx_life x) = true ->
    lc_connection (tx_life x) = false /\ lc_closed (tx_life x) = false
}.

(** What the first part of a call establishes for the rest of it, whatever
    other tasks do in between. *)
Definition promise (t : task) (o : op) (x : transaction) : Prop :=
  match o with
  | OpEnter => lc_entering (tx_life x) = true
  | OpExit _ => lc_close_task (tx_life x) = true
  | OpNestedEnter c =>
      ns_used (context_of x c) = true /\ ns_failed (context_of x c) = false /\
      c ∉ nt_stack (tx_nest x)
  | OpNestedExit c _ => nt_owner (tx_nest x) = Some t /\ head (nt_stack (tx_nest x)) = Some c
  | _ => True
  end.
