(* ===== verification/TransactionFacts.v ===== *)
(** * What the calls of a transaction do

    Case lemmas on the bodies of [Transaction.v]: each run of a call from a
    state that an abstract transaction describes ends in a state described by
    one of its successors ([simulates]). *)

From S2P Require Export TransactionSpec.

(** ** Driver operations *)

(** How [run_driver_operation] ends when the adapter ends with [r0] in [a']. *)
Inductive driver_end (recover : bool) (x : transaction) (a' : adapter) :
    unit + failure -> unit + failure -> transaction -> Prop :=
  | DriverDone : driver_end recover x a' (inl tt) (inl tt) (set_adapter a' x)
  | DriverMarked d :
      recover = true -> nt_stack (tx_nest x) <> [] -> lc_reusable (tx_life x) = true ->
      driver_end recover x a' (inr (FConstraint d)) (inr (FDriver d)) (mark_failed (set_adapter a' x))
  | DriverUnsafe e e' :
      e' <> FDeadline -> driver_end recover x a' (inr e) (inr e') (set_unsafe (set_adapter a' x)).

Lemma run_driver_cases recover m x r x' :
  run_driver_operation recover m x = (r, x') ->
  exists r0 a', m (tx_adapter x) = (r0, a') /\ driver_end recover x a' r0 r x'.
Proof.
  unfold run_driver_operation. intros H. run_inv H.
  - destruct a. apply zoom_cases in Hrun as (a' & Hm & ->). eexists _, _. split; [done|]. constructor.
  - apply zoom_cases in Hrun as (a' & Hm & ->). exists (inr x0), a'. split; [done|].
    assert (Hu : forall e', (_ ← modify set_unsafe; throw e') (set_adapter a' x) = (r, x') ->
              e' <> FDeadline -> driver_end recover x a' (inr x0) r x').
    { intros e' [= <- <-] He. by constructor. }
    destruct x0 as [e|d|d| |]; try (by eapply Hu in H); [].
    unfold get, mbind, eff_bind in H. simpl in H.
    destruct (recover && nonempty (nt_stack (tx_nest x)) && lc_reusable (tx_life x)) eqn:Hb.
    + injection H as <- <-. apply andb_true_iff in Hb as [[-> Hb]%andb_true_iff Hr].
      constructor; [done| |done]. by destruct (nt_stack (tx_nest x)).
    + injection H as <- <-. by constructor.
Qed.

(** How [run_query_operation] ends. *)
Inductive query_end (x : transaction) (a' : adapter) :
    unit + failure -> unit + failure -> transaction -> Prop :=
  | QueryDone : query_end x a' (inl tt) (inl tt) (set_adapter a' x)
  | QueryMarked d :
      nt_stack (tx_nest x) <> [] -> lc_reusable (tx_life x) = true ->
      query_end x a' (inr (FConstraint d)) (inr query_failed) (mark_failed (set_adapter a' x))
  | QueryUnsafe e e' : public e' = true -> query_end x a' (inr e) (inr e') (set_unsafe (set_adapter a' x)).

Lemma run_query_cases m x r x' :
  run_query_operation m x = (r, x') ->
  exists r0 a', m (tx_adapter x) = (r0, a') /\ query_end x a' r0 r x'.
Proof.
  unfold run_query_operation. intros H. run_inv H.
  - destruct a. apply run_driver_cases in Hrun as (r0 & a' & Hm & He). eexists _, _.
    split; [done|]. inversion He; subst. constructor.
  - apply run_driver_cases in Hrun as (r0 & a' & Hm & He). eexists _, _. split; [done|].
    inversion He; subst.
    + simpl in H. injection H as <- <-. by constructor.
    + destruct (is_operation_timeout _ || _) eqn:Hb; injection H as <- <-; constructor; [|done].
      by destruct x0.
Qed.

(** ** Checks *)

Definition owned_by (t : task) (x : transaction) : bool :=
  match nt_owner (tx_nest x) with None => true | Some o => bool_decide (o = t) end.

(** A check that refuses leaves everything as it was. *)
Definition refused_in (x : transaction) (r : unit + failure) (x' : transaction) : Prop :=
  x' = x /\ exists e, r = inr e /\ refusal e = true.

(** [require] in front of [k]. *)
Lemma require_then (b : bool) e (k : call) x r x' :
  refusal e = true ->
  (_ ← require b e; k) x = (r, x') -> refused_in x r x' \/ b = true /\ k x = (r, x').
Proof.
  intros He H. destruct b; [by right|]. injection H as <- <-. left. split; [done|]. by eexists.
Qed.

Lemma owner_then t (k : call) x r x' :
  (_ ← check_nested_owner t; k) x = (r, x') ->
  refused_in x r x' \/ owned_by t x = true /\ k x = (r, x').
Proof.
  intros H. unfold check_nested_owner, get, mbind, eff_bind in H. cbn in H. unfold owned_by.
  destruct (nt_owner _); [destruct (bool_decide _)|]; cbn in H;
    first [by right | injection H as <- <-; left; split; [done|]; by eexists].
Qed.

Lemma require_pass (b : bool) e (k : call) x : b = true -> (_ ← require b e; k) x = k x.
Proof. by intros ->. Qed.

Lemma owner_pass t (k : call) x : owned_by t x = true -> (_ ← check_nested_owner t; k) x = k x.
Proof.
  intros H. unfold check_nested_owner, get, mbind, eff_bind. cbn. unfold owned_by in H.
  by destruct (nt_owner (tx_nest x)); [destruct (bool_decide _)|].
Qed.

Definition usable_connection (x : transaction) : Prop :=
  lc_closed (tx_life x) = false /\ lc_connection (tx_life x) = true /\
  lc_reusable (tx_life x) = true /\ top_failed x = false.

Lemma connection_then (k : call) x r x' :
  (_ ← require_connection; k) x = (r, x') ->
  refused_in x r x' \/ usable_connection x /\ k x = (r, x').
Proof.
  intros H. unfold usable_connection, require_connection, get, mbind, eff_bind in *. cbn in H.
  destruct (lc_closed _), (lc_connection _), (lc_reusable _), (top_failed x); cbn in H;
    first [by right | injection H as <- <-; left; split; [done|]; by eexists].
Qed.

(** ** Simulation

    [others_kept]: what a call must leave alone for the other pending ones. *)
Definition entered_context (o : op) : option nat :=
  match o with OpNestedEnter c => Some c | _ => None end.

Record others_kept (t : task) (o : op) (x x' : transaction) : Prop := {
  ok_entering : is_enter o = false -> lc_entering (tx_life x') = lc_entering (tx_life x);
  ok_close_task : lc_close_task (tx_life x') = lc_close_task (tx_life x);
  ok_contexts : forall c, c ∉ nt_stack (tx_nest x) -> entered_context o <> Some c ->
    context_of x' c = context_of x c /\ c ∉ nt_stack (tx_nest x');
  ok_owner : forall t', nt_owner (tx_nest x) = Some t' -> t' <> t ->
    tx_nest x' = tx_nest x
}.

Definition simulated (settings : pragma -> bool) (sp : tx_spec) (t : task) (o : op)
    (r : unit + failure) (x x' : transaction) : Prop :=
  (exists sp', spec_step sp (o, r) sp' /\ describes settings sp' x') /\
  well x' /\ others_kept t o x x' /\ (is_enter o = true -> lc_entering (tx_life x') = false).

Lemma simulated_refused settings sp t o r x x' :
  is_enter o = false -> describes settings sp x -> well x -> refused_in x r x' ->
  simulated settings sp t o r x x'.
Proof.
  intros Ho Hd Hw [-> (e & -> & He)]. split; [|by rewrite Ho].
  exists sp. split; [by constructor|done].
Qed.

(** *** Parts that a driver operation may change *)

Lemma well_adapter a x : well x -> well (set_adapter a x).
Proof. by intros []. Qed.
Lemma well_unsafe x : well x -> well (set_unsafe x).
Proof. by intros []. Qed.

Lemma context_of_insert x c n d :
  context_of (set_context c n x) d = if decide (d = c) then n else context_of x d.
Proof.
  unfold context_of, set_context. simpl. case_decide; [subst; by rewrite lookup_insert_eq|].
  by rewrite lookup_insert_ne.
Qed.

(** Changing a flag of a used context. *)
Lemma well_context c n x :
  well x -> ns_used n = true -> well (set_context c n x).
Proof.
  intros [H1 H2 H3 H4 H5 H6 H7 H8] Hn. split; try done.
  - intros d. rewrite context_of_insert. case_decide; [done|]. by apply H3.
  - intros d. rewrite context_of_insert. case_decide; [by rewrite Hn|]. by apply H4.
Qed.

Lemma well_marked x : well x -> well (mark_failed x).
Proof.
  intros Hw. unfold mark_failed. destruct (nt_stack (tx_nest x)) as [|c l] eqn:Hs; [done|].
  apply well_context; [done|]. simpl. apply (wl_used _ Hw). rewrite Hs. apply list_elem_of_here.
Qed.

Lemma others_same t o x x' :
  tx_nest x' = tx_nest x -> (is_enter o = false -> lc_entering (tx_life x') = lc_entering (tx_life x)) ->
  lc_close_task (tx_life x') = lc_close_task (tx_life x) -> others_kept t o x x'.
Proof. intros Hn He Hc. split; try done. intros c Hc' _. unfold context_of. by rewrite Hn. Qed.

Lemma mark_failed_nest x c l :
  nt_stack (tx_nest x) = c :: l ->
  mark_failed x = set_context c (Nested (ns_used (context_of x c)) true (ns_name (context_of x c))) x.
Proof. unfold mark_failed. by intros ->. Qed.

(** Marking changes only contexts of the stack. *)
Lemma others_marked t o x :
  owned_by t x = true -> others_kept t o x (mark_failed x).
Proof.
  intros Ho. unfold mark_failed. destruct (nt_stack (tx_nest x)) as [|c l] eqn:Hs.
  { by apply others_same. }
  split; try done.
  - intros d Hd _. rewrite context_of_insert. rewrite Hs in Hd. simpl. rewrite Hs.
    rewrite decide_False by set_solver. done.
  - intros t' Ht Hne. unfold owned_by in Ho. rewrite Ht in Ho. by apply bool_decide_eq_true in Ho.
Qed.

Lemma others_adapter t o x a x' : others_kept t o (set_adapter a x) x' -> others_kept t o x x'.
Proof. intros []. by split. Qed.

(** ** Operations on an open transaction *)

(** [m] changes the engine's transaction by [f]; [c] tells whether it may
    report a recoverable constraint failure, which leaves the engine as it was. *)
Definition runs_as (f : open_transaction -> option open_transaction) (c : bool)
    (m : eff adapter failure unit) : Prop :=
  forall a r a' tr, m a = (r, a') -> en_open (ad_engine a) = Some tr -> Forall honest (ad_script a) ->
  durable_kept a a' /\ (Forall honest (ad_script a')) /\
  match r with
  | inl _ => same_notes a a' /\ exists tr', f tr = Some tr' /\
               ad_engine a' = set_open (Some tr') (ad_engine a)
  | inr e => is_constraint e = true -> c = true /\ same_notes a a' /\ ad_engine a' = ad_engine a
  end.

Definition log_statement (s : stmt) (tr : open_transaction) : option open_transaction :=
  Some (OpenTransaction (ot_log tr ++ [s]) (ot_savepoints tr)).

Lemma set_open_same e tr : en_open e = Some tr -> set_open (Some tr) e = e.
Proof. destruct e. simpl. by intros ->. Qed.

Lemma quiet_runs : runs_as Some false (driver Quiet).
Proof.
  intros a r a' tr H Ht Hh. pose proof (driver_kept _ _ _ _ H ltac:(done) I) as (Hn & Hd & Hc).
  split; [done|]. split; [by apply (sn_honest _ _ Hn)|]. destruct r as [[]|e].
  - apply quiet_ok in H as [_ He]. split; [done|]. exists tr. split; [done|].
    by rewrite set_open_same, He.
  - intros He. by rewrite (Hc Hh) in He.
Qed.

Lemma execute_runs s : runs_as (log_statement s) true (adapter_execute s).
Proof.
  intros a r a' tr H Ht Hh. apply (adapter_execute_cases _ _ _ _ tr) in H as (Hn & Hd & Hr); [|done].
  split; [done|]. split; [by apply (sn_honest _ _ Hn)|]. destruct r as [[]|e].
  - split; [done|]. by eexists.
  - intros He. split; [done|]. split; [done|]. by apply Hr.
Qed.

(** Reading the result and closing the cursor after an operation. *)
Lemma runs_then f c m k :
  runs_as f c m -> runs_as Some false k -> runs_as f c (_ ← m; k).
Proof.
  intros Hm Hk a r a' tr H Ht Hh. apply bind_cases in H as [([] & s & H1 & H2)|(x & H1 & ->)].
  - destruct (Hm _ _ _ _ H1 Ht Hh) as (Hd & Hh1 & Hn & tr' & Hf & He).
    destruct (Hk _ _ _ tr' H2 ltac:(by rewrite He) Hh1) as (Hd' & Hh2 & Hr).
    split; [unfold durable_kept in *; congruence|]. split; [done|]. destruct r as [[]|e].
    + destruct Hr as (Hn' & tr'' & [= <-] & He'). split; [by etrans|]. exists tr'.
      split; [done|]. by rewrite He', He.
    + intros Hc. by destruct (Hr Hc) as [? _].
  - by apply (Hm _ _ _ _ H1 Ht Hh).
Qed.

Lemma quiet_finally_runs : runs_as Some false (try_finally (driver Quiet) (driver Quiet)).
Proof.
  intros a r a' tr H Ht Hh. apply finally_cases in H as (r1 & s & H1 & Hcase).
  pose proof H1 as H1'. pose proof (quiet_runs _ _ _ _ H1 Ht Hh) as (Hd & Hh1 & Hr1).
  assert (Hk : forall r2, driver Quiet s = (r2, a') -> run_kept s r2 a').
  { intros r2 H2. by eapply driver_kept. }
  assert (Hk1 : run_kept a r1 s) by by eapply driver_kept.
  destruct Hcase as [[H2 ->]|(x & H2 & ->)]; destruct (Hk _ H2) as (Hn & Hd2 & Hc).
  - split; [unfold durable_kept in *; congruence|]. split; [by apply (sn_honest _ _ Hn)|].
    destruct r1 as [[]|e].
    + destruct Hr1 as (Hn1 & tr' & [= <-] & He). split; [by etrans|]. exists tr. split; [done|].
      by apply quiet_ok in H2 as [_ ->].
    + intros He. by destruct (Hr1 He).
  - split; [unfold durable_kept in *; congruence|]. split; [by apply (sn_honest _ _ Hn)|].
    intros He. by rewrite (Hc Hh1) in He.
Qed.

Section open.
Context (settings : pragma -> bool).

Lemma doomed_state b x a' :
  entered_state b x -> durable_kept (tx_adapter x) a' -> entered_state false (set_unsafe (set_adapter a' x)).
Proof. intros [] Hd. split; try done. simpl. unfold durable_kept in Hd. congruence. Qed.

Lemma open_doomed base frames x a' :
  open_state settings base frames x -> durable_kept (tx_adapter x) a' ->
  entered_state false (set_unsafe (set_adapter a' x)).
Proof. intros [He _ _ _ _]. by apply (doomed_state true). Qed.

Lemma open_driven base frames x a' base' frames' :
  open_state settings base frames x -> same_notes (tx_adapter x) a' ->
  ad_engine a' = set_open (Some (OpenTransaction (spec_log base' frames')
    (spec_savepoints (fun c => ns_name (context_of x c)) base' frames')))
    (ad_engine (tx_adapter x)) ->
  map fr_context frames' = map fr_context frames ->
  Forall (fun f => ns_failed (context_of x (fr_context f)) = fr_failed f) frames' ->
  open_state settings base' frames' (set_adapter a' x).
Proof.
  intros [[] Hs Hf He Hset] Hn Ha Hm Hf'. split.
  - split; try done. simpl. by rewrite Ha.
  - simpl. by rewrite Hm.
  - done.
  - simpl. by rewrite Ha.
  - apply (settled_same _ (tx_adapter x)); [done|done|]. simpl. by rewrite Ha.
Qed.

(** What [append_log] makes of the frames. *)
Lemma append_log_facts l base frames : exists base' frames',
  append_log l base frames = SpecOpen base' frames' /\
  spec_log base' frames' = spec_log base frames ++ l /\
  (forall name, spec_savepoints name base' frames' = spec_savepoints name base frames) /\
  map fr_context frames' = map fr_context frames /\
  (forall x, Forall (fun f => ns_failed (context_of x (fr_context f)) = fr_failed f) frames ->
             Forall (fun f => ns_failed (context_of x (fr_context f)) = fr_failed f) frames').
Proof.
  destruct frames as [|f older]; simpl; eexists _, _; (split; [done|]); simpl.
  - done.
  - split; [by rewrite app_assoc|]. split; [done|]. split; [done|].
    intros x [H1 H2]%Forall_cons_1. by constructor.
Qed.

Lemma append_described base frames x a' l :
  open_state settings base frames x -> same_notes (tx_adapter x) a' ->
  ad_engine a' = set_open (Some (OpenTransaction (spec_log base frames ++ l)
    (spec_savepoints (fun c => ns_name (context_of x c)) base frames)))
    (ad_engine (tx_adapter x)) ->
  describes settings (append_log l base frames) (set_adapter a' x).
Proof.
  intros Ho Hn Ha. destruct (append_log_facts l base frames) as (b & f & -> & Hl & Hs & Hm & Hf).
  simpl. eapply open_driven; [done|done| |done|by apply Hf, Ho]. by rewrite Ha, Hl, Hs.
Qed.

Lemma open_unchanged base frames x a' :
  open_state settings base frames x -> same_notes (tx_adapter x) a' ->
  ad_engine a' = ad_engine (tx_adapter x) -> open_state settings base frames (set_adapter a' x).
Proof.
  intros Ho Hn Ha. eapply open_driven; [done|done| |done|apply Ho].
  rewrite Ha. symmetry. apply set_open_same, Ho.
Qed.

Lemma open_healthy base frames x :
  open_state settings base frames x -> healthy frames = negb (top_failed x).
Proof.
  intros [_ Hs Hf _ _]. unfold top_failed. rewrite Hs. destruct frames as [|f l]; [done|].
  apply Forall_cons_1 in Hf as [Hf _]. simpl. by rewrite Hf.
Qed.

Lemma spec_savepoints_ext name name' base frames :
  (forall f, f ∈ frames -> name (fr_context f) = name' (fr_context f)) ->
  spec_savepoints name base frames = spec_savepoints name' base frames.
Proof.
  induction frames as [|f l IH]; intros H; simpl; [done|]. rewrite H by apply list_elem_of_here.
  f_equal. apply IH. intros g Hg. apply H. by apply list_elem_of_further.
Qed.

(** The innermost context is marked. *)
Lemma open_marked base f older x :
  open_state settings base (f :: older) x -> NoDup (nt_stack (tx_nest x)) ->
  open_state settings base (Frame (fr_context f) (fr_log f) true :: older) (mark_failed x).
Proof.
  intros [[] Hs Hf He Hset] Hnd. rewrite (mark_failed_nest x _ _ Hs).
  rewrite Hs in Hnd. simpl in Hnd. apply NoDup_cons in Hnd as [Hni _].
  set (n := Nested _ _ _).
  assert (Hother : forall g, g ∈ older -> context_of (set_context (fr_context f) n x) (fr_context g) =
                              context_of x (fr_context g)).
  { intros g Hg. rewrite context_of_insert, decide_False; [done|]. intros Heq. apply Hni.
    rewrite <- Heq. by apply list_elem_of_fmap_2. }
  split; try done.
  - apply Forall_cons_1 in Hf as [_ Hf]. constructor.
    + rewrite context_of_insert, decide_True by done. done.
    + rewrite Forall_forall in Hf |- *. intros g Hg. rewrite Hother by done. by apply Hf.
  - simpl. rewrite He. simpl. rewrite context_of_insert, decide_True by done.
    by rewrite (spec_savepoints_ext (fun c => ns_name (context_of (set_context (fr_context f) n x) c))
      (fun c => ns_name (context_of x c)) base older) by (intros g Hg; by rewrite Hother).
Qed.

(** A query's end, seen on an open transaction. *)
Lemma statement_simulated t o s m x r x' base frames :
  statement_of o = Some s -> runs_as (log_statement s) true m ->
  run_query_operation m x = (r, x') -> owned_by t x = true -> top_failed x = false ->
  open_state settings base frames x -> well x -> Forall honest (ad_script (tx_adapter x)) ->
  simulated settings (SpecOpen base frames) t o r x x'.
Proof.
  intros Hs Hm H Ho Ht Hop Hw Hh. apply run_query_cases in H as (r0 & a' & Hr & Hend).
  assert (Hent : is_enter o = false) by by destruct o.
  assert (Hexit : is_exit o = false) by by destruct o.
  destruct (Hm _ _ _ _ Hr (op_engine _ _ _ _ Hop) Hh) as (Hd & _ & Hres).
  destruct Hend as [|d Hst Hre|e e'].
  - destruct Hres as (Hn & tr' & [= <-] & Ha). split; [|split; [by apply well_adapter|]].
    + exists (append_log [s] base frames). split; [constructor; [done|]|by apply append_described].
      by rewrite (open_healthy _ _ _ Hop), Ht.
    + split; [by apply others_same|by rewrite Hent].
  - destruct (Hres eq_refl) as (_ & Hn & Ha). rewrite (op_stack _ _ _ _ Hop) in Hst.
    destruct frames as [|f older]; [done|].
    assert (Hop' : open_state settings base (f :: older) (set_adapter a' x)) by by apply open_unchanged.
    split; [|split; [by apply well_marked, well_adapter|]].
    + exists (SpecOpen base (Frame (fr_context f) (fr_log f) true :: older)).
      split; [|by apply open_marked; [done|apply Hw]]. apply (SpecConstraint _ _ _ _ s); [done|].
      pose proof (open_healthy _ _ _ Hop) as Hhe. rewrite Ht in Hhe. by apply negb_true_iff in Hhe.
    + split; [eapply (others_adapter _ _ _ a'), others_marked; by destruct x|by rewrite Hent].
  - split; [|split; [by apply well_unsafe, well_adapter|]].
    + exists SpecDoomed. split; [by constructor|]. by eapply open_doomed.
    + split; [by apply others_same|by rewrite Hent].
Qed.

(** ** Queries and streams *)

Lemma usable_open sp x :
  describes settings sp x -> usable_connection x -> exists base frames, sp = SpecOpen base frames.
Proof.
  intros Hd (Hc & Hn & Hr & _). destruct sp as [u|base frames| |o d]; simpl in Hd.
  - destruct Hd; congruence.
  - by eexists _, _.
  - destruct Hd; congruence.
  - destruct Hd; congruence.
Qed.

Lemma query_simulated t plan sp x r x' :
  query_body t plan x = (r, x') -> describes settings sp x -> well x ->
  Forall honest (ad_script (tx_adapter x)) -> simulated settings sp t (OpQuery plan) r x x'.
Proof.
  unfold query_body. intros H Hd Hw Hh.
  apply owner_then in H as [H|[Ho H]]; [by apply simulated_refused|].
  apply connection_then in H as [H|[Hu H]]; [by apply simulated_refused|].
  destruct (usable_open _ _ Hd Hu) as (base & frames & ->). destruct Hu as (_ & _ & _ & Ht).
  destruct plan as [s|]; simpl in H.
  - eapply statement_simulated; [done| |done..].
    apply runs_then; [apply execute_runs|apply quiet_finally_runs].
  - injection H as <- <-. split; [|by split; [|split; [apply others_same|]]].
    exists (SpecOpen base frames). split; [constructor|done]. by rewrite (open_healthy _ _ _ Hd), Ht.
Qed.

Lemma describes_stream sp x s : describes settings sp x -> describes settings sp (set_stream s x).
Proof.
  destruct sp; simpl; [by intros []| |by intros []|by intros []].
  intros [[] Hs Hf He Hset]. split; [by split|done..].
Qed.

Lemma simulated_stream sp t o r x x' l :
  simulated settings sp t o r x x' -> (l <> None -> lc_connection (tx_life x') = true) ->
  simulated settings sp t o r x (set_stream (Streaming l l) x').
Proof.
  intros ((sp' & Hs & Hd) & [] & [] & He) Hl. split; [|split; [by split|split; [by split|done]]].
  exists sp'. split; [done|]. by apply describes_stream.
Qed.

Lemma stream_enter_simulated t s sp x r x' :
  stream_enter_body t s x = (r, x') -> describes settings sp x -> well x ->
  Forall honest (ad_script (tx_adapter x)) -> simulated settings sp t (OpStreamEnter s) r x x'.
Proof.
  unfold stream_enter_body. intros H Hd Hw Hh.
  apply owner_then in H as [H|[Ho H]]; [by apply simulated_refused|].
  apply connection_then in H as [H|[Hu H]]; [by apply simulated_refused|].
  destruct (usable_open _ _ Hd Hu) as (base & frames & ->). destruct Hu as (_ & Hc & _ & Ht).
  apply bind_cases in H as [([] & x1 & Hq & H)|(e & Hq & ->)].
  2: by eapply statement_simulated; [done|apply execute_runs|..].
  injection H as <- <-. pose proof Hq as Hq'.
  apply run_query_cases in Hq' as (r0 & a' & _ & Hend). apply simulated_stream.
  - by eapply statement_simulated; [done|apply execute_runs|..].
  - intros _. by inversion Hend; subst.
Qed.

Lemma stream_owner_then t (k : call) x r x' :
  (_ ← check_stream_owner t; k) x = (r, x') ->
  refused_in x r x' \/ owned_by t x = true /\ sm_lock (tx_stream x) = Some t /\ k x = (r, x').
Proof.
  unfold check_stream_owner. intros H. apply bind_cases in H as [([] & s & H & Hk)|(e & H & ->)].
  - apply owner_then in H as [[_ (e & [=] & _)]|[Ho H]].
    apply bind_cases in H as [(y & s1 & Hg & H)|(e & Hg & [=])]. injection Hg as <- <-.
    apply require_then in H as [[_ (e & [=] & _)]|[Hl H]]; [|done].
    apply require_cases in H as [-> [[Hl' _]|[_ [=]]]]. apply bool_decide_eq_true in Hl'. by right.
  - left. apply owner_then in H as [H|[Ho H]]; [done|].
    rewrite get_then in H. apply require_then in H as [H|[Hl H]]; [done| |done].
    apply require_cases in H as [-> [[_ [=]]|[_ [= ->]]]]. split; [done|]. by eexists.
Qed.

(** Fetching rows and closing the cursor of a stream. *)
Lemma quiet_simulated t o sp x r x' :
  run_query_operation (driver Quiet) x = (r, x') -> on_stream o = true ->
  describes settings sp x -> well x -> lc_connection (tx_life x) = true ->
  Forall honest (ad_script (tx_adapter x)) -> simulated settings sp t o r x x'.
Proof.
  intros H Ho Hd Hw Hc Hh. apply run_query_cases in H as (r0 & a' & Hr & Hend).
  assert (Hent : is_enter o = false) by by destruct o.
  assert (Hexit : is_exit o = false) by by destruct o.
  pose proof (driver_kept _ _ _ _ Hr ltac:(done) I) as (Hn & Hdur & Hcon).
  destruct Hend as [|d Hst Hre|e e'].
  - apply quiet_ok in Hr as [_ He]. split; [|split; [by apply well_adapter|]].
    + exists sp. destruct sp as [u|base frames| |oc d]; simpl in Hd |- *.
      * destruct Hd; congruence.
      * split; [by constructor|]. by apply open_unchanged.
      * split; [by constructor|]. destruct Hd. split; try done. simpl. by rewrite He.
      * destruct Hd; congruence.
    + split; [by apply others_same|by rewrite Hent].
  - by discriminate (Hcon Hh).
  - split; [|split; [by apply well_unsafe, well_adapter|]].
    + exists SpecDoomed. destruct sp as [u|base frames| |oc d]; simpl in Hd |- *.
      * destruct Hd; congruence.
      * split; [by constructor|]. by eapply open_doomed.
      * split; [by constructor|]. by eapply doomed_state.
      * destruct Hd; congruence.
    + split; [by apply others_same|by rewrite Hent].
Qed.

Lemma stream_next_simulated t sp x r x' :
  stream_next t x = (r, x') -> describes settings sp x -> well x ->
  Forall honest (ad_script (tx_adapter x)) -> simulated settings sp t OpStreamNext r x x'.
Proof.
  unfold stream_next. intros H Hd Hw Hh.
  apply stream_owner_then in H as [H|(Ho & Hl & H)]; [by apply simulated_refused|].
  eapply quiet_simulated; try done. apply (wl_streaming _ Hw). by rewrite Hl.
Qed.

Lemma stream_exit_simulated t sp x r x' :
  stream_exit t x = (r, x') -> describes settings sp x -> well x ->
  Forall honest (ad_script (tx_adapter x)) -> simulated settings sp t OpStreamExit r x x'.
Proof.
  unfold stream_exit. intros H Hd Hw Hh.
  apply stream_owner_then in H as [H|(Ho & Hl & H)]; [by apply simulated_refused|].
  apply finally_cases in H as (r1 & s1 & H1 & [[H ->]|(e & H & ->)]); [|by leaf_inv H].
  injection H as <-. apply simulated_stream; [|done].
  eapply quiet_simulated; try done. apply (wl_streaming _ Hw). by rewrite Hl.
Qed.

(** ** Nested contexts *)

Definition savepoint_effect (c : command) (tr : open_transaction) : option open_transaction :=
  match c with
  | Savepoint n => Some (OpenTransaction (ot_log tr) ((n, ot_log tr) :: ot_savepoints tr))
  | RollbackTo n =>
      match savepoints_from n (ot_savepoints tr) with
      | [] => None
      | (m, log) :: older => Some (OpenTransaction log ((m, log) :: older))
      end
  | ReleaseSavepoint n =>
      match savepoints_from n (ot_savepoints tr) with
      | [] => None
      | _ :: older => Some (OpenTransaction (ot_log tr) older)
      end
  | _ => None
  end.

Definition is_savepoint (c : command) : bool :=
  match c with Savepoint _ | RollbackTo _ | ReleaseSavepoint _ => true | _ => false end.

Lemma savepoint_runs c :
  is_savepoint c = true -> runs_as (savepoint_effect c) false (execute_control_sql c).
Proof.
  intros Hc a r a' tr H Ht Hh.
  apply control_sql_cases in H as [(Hn & Hd & Hx) Hr]; [|by destruct c..].
  split; [done|]. split; [by apply (sn_honest _ _ Hn)|]. destruct r as [[]|e].
  - split; [done|]. specialize (Hr eq_refl). unfold engine_apply in Hr. rewrite Ht in Hr.
    destruct c; try done; simpl in *; [by injection Hr as <-; eexists| |];
      (destruct (savepoints_from _ _) as [|[m log] older]; [done|]; injection Hr as <-; by eexists).
  - intros He. by rewrite (Hx Hh) in He.
Qed.

(** [_control] on a connection that is open and safe. *)
Lemma control_cases b c x r x' :
  control c x = (r, x') -> entered_state b x ->
  b = false /\ refused_in x r x' \/
  b = true /\ exists r0 a', execute_control_sql c (tx_adapter x) = (r0, a') /\
    ((r0 = inl tt /\ r = inl tt /\ x' = set_adapter a' x) \/
     (exists e, public e = true /\ r = inr e /\ x' = set_unsafe (set_adapter a' x))).
Proof.
  unfold control. intros H [Hc He Hcl Hr _ _ _].
  rewrite get_then in H. rewrite Hc, Hcl, Hr in H. simpl in H. destruct b; simpl in H.
  - right. split; [done|]. rewrite ret_then in H.
    apply except_cases in H as [([] & H & ->)|(e & s & H & Hh)];
      apply run_driver_cases in H as (r0 & a' & Hm & Hend); eexists _, _; (split; [done|]).
    + left. by inversion Hend.
    + right. inversion Hend; subst; [done|].
      destruct (is_operation_timeout _ || _) eqn:Hb; injection Hh as <- <-; eexists; (split; [|done]);
        [by destruct e|done].
  - left. split; [done|]. apply connection_then in H as [H|[(_ & _ & ? & _) _]]; [done|congruence].
Qed.

Lemma well_next c x :
  well x -> c ∉ nt_stack (tx_nest x) -> ns_failed (context_of x c) = false ->
  well (next_savepoint c x).
Proof.
  intros [H1 H2 H3 H4 H5 H6 H7 H8] Hc Hf.
  assert (Hctx : forall d, ns_used (context_of (next_savepoint c x) d) = ns_used (context_of x d) /\
                 ns_failed (context_of (next_savepoint c x) d) = ns_failed (context_of x d)).
  { intros d. unfold context_of at 1 3. unfold next_savepoint. simpl.
    destruct (decide (d = c)) as [->|]; [by rewrite lookup_insert_eq|by rewrite lookup_insert_ne]. }
  split; try done.
  - intros d Hd. destruct (Hctx d) as [-> _]. by apply H3.
  - intros d. destruct (Hctx d) as [-> ->]. apply H4.
Qed.

Lemma next_other c x d : d <> c -> context_of (next_savepoint c x) d = context_of x d.
Proof. intros H. unfold context_of, next_savepoint. simpl. by rewrite lookup_insert_ne. Qed.

Lemma next_self c x : context_of (next_savepoint c x) c =
  Nested (ns_used (context_of x c)) (ns_failed (context_of x c)) (S (nt_sequence (tx_nest x))).
Proof. unfold context_of, next_savepoint. simpl. by rewrite lookup_insert_eq. Qed.

Lemma open_next c base frames x :
  open_state settings base frames x -> c ∉ nt_stack (tx_nest x) ->
  open_state settings base frames (next_savepoint c x).
Proof.
  intros [[] Hs Hf He Hset] Hc. rewrite Hs in Hc.
  assert (Hother : forall f, f ∈ frames -> context_of (next_savepoint c x) (fr_context f) = context_of x (fr_context f)).
  { intros f Hin. apply next_other. intros <-. apply Hc. by apply list_elem_of_fmap_2. }
  split; try done.
  - rewrite Forall_forall in Hf |- *. intros f Hin. rewrite Hother by done. by apply Hf.
  - simpl. rewrite He. do 2 f_equal. apply spec_savepoints_ext. intros f Hin. by rewrite Hother.
Qed.

(** The command of [_control] on an open transaction. *)
Definition at_frames (x : transaction) (base : list stmt) (frames : list frame) : open_transaction :=
  OpenTransaction (spec_log base frames)
    (spec_savepoints (fun c => ns_name (context_of x c)) base frames).

Inductive control_end (cmd : command) (tr : open_transaction) (x : transaction) :
    unit + failure -> transaction -> Prop :=
  | ControlDone a' tr' :
      savepoint_effect cmd tr = Some tr' -> same_notes (tx_adapter x) a' ->
      ad_engine a' = set_open (Some tr') (ad_engine (tx_adapter x)) -> Forall honest (ad_script a') ->
      control_end cmd tr x (inl tt) (set_adapter a' x)
  | ControlFailed e a' :
      durable_kept (tx_adapter x) a' -> public e = true ->
      control_end cmd tr x (inr e) (set_unsafe (set_adapter a' x)).

Lemma control_open cmd base frames x r x' :
  control cmd x = (r, x') -> is_savepoint cmd = true -> open_state settings base frames x ->
  Forall honest (ad_script (tx_adapter x)) -> control_end cmd (at_frames x base frames) x r x'.
Proof.
  intros H Hc Hop Hh.
  destruct (control_cases _ _ _ _ _ H (op_entered _ _ _ _ Hop)) as [[[=] _]|(_ & r0 & a' & Hr & Hend)].
  destruct (savepoint_runs _ Hc _ _ _ _ Hr (op_engine _ _ _ _ Hop) Hh) as (Hdur & Hh' & Hres).
  destruct Hend as [(-> & -> & ->)|(e & He & -> & ->)]; [|by constructor].
  destruct Hres as (Hn & tr' & Htr & Ha). by econstructor.
Qed.

(** Entering a context. *)
Lemma well_pushed t c x :
  well x -> c ∉ nt_stack (tx_nest x) -> ns_used (context_of x c) = true ->
  lc_connection (tx_life x) = true -> well (push_context t c x).
Proof.
  intros [W1 W2 W3 W4 W5 W6 W7 W8] Hc Hu Hcon. split; try done; simpl.
  - intros d [-> |Hin]%elem_of_cons; [done|by apply W3].
  - by apply NoDup_cons.
Qed.

Lemma open_pushed t c n base frames a' x :
  open_state settings base frames x -> context_of x c = Nested true false n ->
  same_notes (tx_adapter x) a' ->
  ad_engine a' = set_open (Some (OpenTransaction (spec_log base frames)
    ((n, spec_log base frames) :: ot_savepoints (at_frames x base frames))))
    (ad_engine (tx_adapter x)) ->
  open_state settings base (Frame c [] false :: frames) (push_context t c (set_adapter a' x)).
Proof.
  intros [[] Hs Hf He Hset] Hctx Hn Ha. split.
  - split; try done. simpl. by rewrite Ha.
  - simpl. f_equal. exact Hs.
  - constructor; [|done]. simpl. transitivity (ns_failed (context_of x c)); [done|]. by rewrite Hctx.
  - simpl. rewrite Ha. simpl. rewrite app_nil_r. do 4 f_equal.
    transitivity (ns_name (context_of x c)); [by rewrite Hctx|done].
  - apply (settled_same _ (tx_adapter x)); [done|done|]. simpl. by rewrite Ha.
Qed.

Lemma owned_others t t' x :
  owned_by t x = true -> nt_owner (tx_nest x) = Some t' -> t' <> t -> False.
Proof. unfold owned_by. intros H Ho Hne. rewrite Ho in H. by apply bool_decide_eq_true in H. Qed.

Lemma others_nested t c x x' :
  owned_by t x = true -> tx_life x' = tx_life x \/ tx_life x' = tx_life (set_unsafe x) ->
  nt_contexts (tx_nest x') = nt_contexts (tx_nest (next_savepoint c x)) ->
  (forall d, d ∈ nt_stack (tx_nest x') -> d = c \/ d ∈ nt_stack (tx_nest x)) ->
  others_kept t (OpNestedEnter c) x x'.
Proof.
  intros Ho Hl Hctx Hst. split.
  - intros _. by destruct Hl as [-> | ->].
  - by destruct Hl as [-> | ->].
  - simpl. intros d Hd Hcd. split; [|by intros [-> |?]%Hst].
    unfold context_of. rewrite Hctx. apply next_other. congruence.
  - intros t' Ht' Hne. by destruct (owned_others _ _ _ Ho Ht').
Qed.

Lemma nested_enter_simulated t c sp x r x' :
  nested_enter_body t c x = (r, x') -> promise t (OpNestedEnter c) x ->
  describes settings sp x -> well x -> Forall honest (ad_script (tx_adapter x)) ->
  simulated settings sp t (OpNestedEnter c) r x x'.
Proof.
  unfold nested_enter_body. intros H (Hu & Hf & Hni) Hd Hw Hh.
  apply owner_then in H as [H|[Ho H]]; [by apply simulated_refused|].
  apply connection_then in H as [H|[Huse H]]; [by apply simulated_refused|].
  destruct (usable_open _ _ Hd Huse) as (base & frames & ->). destruct Huse as (_ & Hcon & _ & Ht).
  pose proof (open_healthy _ _ _ Hd) as Hhe. rewrite Ht in Hhe.
  rewrite modify_then in H.
  rewrite get_then in H.
  pose proof (open_next _ _ _ _ Hd Hni) as Hd1. pose proof (well_next _ _ Hw Hni Hf) as Hw1.
  pose proof (next_self c x) as Hself. rewrite Hu, Hf in Hself.
  apply bind_cases in H as [([] & s & Hc & H)|(e & Hc & ->)];
    pose proof (control_open _ _ _ _ _ _ Hc eq_refl Hd1 Hh) as Hend.
  - inversion Hend as [a' tr' Heff Hn Ha Hh' Hr Hs|]; subst s.
    injection Heff as <-. rewrite Hself in Ha. injection H as <- <-. split; [|split; [|split; [|done]]].
    + exists (SpecOpen base (Frame c [] false :: frames)). split.
      { constructor; [done|]. by rewrite <- (op_stack _ _ _ _ Hd). }
      by eapply open_pushed.
    + apply well_pushed; [by apply well_adapter|done| |done].
      transitivity (ns_used (context_of (next_savepoint c x) c)); [done|]. by rewrite Hself.
    + apply others_nested; [done|by left|done|]. intros d. simpl. by rewrite elem_of_cons.
  - inversion Hend as [|e' a' Hdur Hpub Hr Hs]; subst x'. split; [|split; [|split; [|done]]].
    + exists SpecDoomed. split; [by constructor|]. by eapply open_doomed.
    + by apply well_unsafe, well_adapter.
    + apply others_nested; [done|by right|done|]. intros d. by right.
Qed.

(** Leaving a context. *)
Lemma well_popped x : well x -> well (pop_context x).
Proof.
  intros [W1 W2 W3 W4 W5 W6 W7 W8]. unfold pop_context.
  destruct (nt_stack (tx_nest x)) as [|c l] eqn:Hs; split; simpl; try done.
  - destruct l; [done|]. split; [|done]. by intros Ho%W1.
  - intros _. by apply W2.
  - intros d Hd. apply W3. by apply list_elem_of_further.
  - by apply NoDup_cons in W5 as [_ ?].
Qed.

Lemma append_log_nil base frames : append_log [] base frames = SpecOpen base frames.
Proof. destruct frames as [|[]]; simpl; by rewrite app_nil_r. Qed.

(** [RELEASE] of the innermost savepoint. *)
Lemma release_described base f older x x' :
  open_state settings base (f :: older) x -> Forall honest (ad_script (tx_adapter x)) ->
  control (ReleaseSavepoint (ns_name (context_of x (fr_context f)))) x = (inl tt, x') ->
  (exists a', x' = set_adapter a' x) /\
  describes settings (append_log (fr_log f) base older) (pop_context x').
Proof.
  intros Hop Hh H. pose proof (control_open _ _ _ _ _ _ H eq_refl Hop Hh) as Hend.
  inversion Hend as [a' tr' Heff Hn Ha Hh' Hr Hs|]; subst x'. split; [by eexists|].
  simpl in Heff. rewrite Nat.eqb_refl in Heff. injection Heff as <-.
  destruct (append_log_facts (fr_log f) base older) as (b & fs & -> & Hl & Hsp & Hm & Hf).
  destruct Hop as [[] Hs Hfa He Hset]. apply Forall_cons_1 in Hfa as [_ Hfa]. split.
  - split; try done. simpl. by rewrite Ha.
  - simpl. rewrite Hs, Hm. done.
  - by apply Hf.
  - simpl. rewrite Ha. simpl. by rewrite Hl, Hsp.
  - apply (settled_same _ (tx_adapter x)); [done|done|]. simpl. by rewrite Ha.
Qed.

(** [ROLLBACK TO] it. *)
Lemma rollback_described base f older x x' :
  open_state settings base (f :: older) x -> Forall honest (ad_script (tx_adapter x)) ->
  control (RollbackTo (ns_name (context_of x (fr_context f)))) x = (inl tt, x') ->
  exists a', x' = set_adapter a' x /\ Forall honest (ad_script a') /\ durable_kept (tx_adapter x) a' /\
    open_state settings base (Frame (fr_context f) [] (fr_failed f) :: older) x'.
Proof.
  intros Hop Hh H. pose proof (control_open _ _ _ _ _ _ H eq_refl Hop Hh) as Hend.
  inversion Hend as [a' tr' Heff Hn Ha Hh' Hr Hs|]; subst x'. exists a'.
  split; [done|]. split; [done|]. split; [unfold durable_kept; by rewrite Ha|].
  simpl in Heff. rewrite Nat.eqb_refl in Heff. injection Heff as <-.
  eapply open_driven; [done|done| |done|].
  - simpl. by rewrite app_nil_r.
  - destruct Hop as [_ _ Hfa _ _]. apply Forall_cons_1 in Hfa as [? ?]. by constructor.
Qed.

(** What the savepoint control of an exit leaves before the stack is popped. *)
Inductive exit_control_end (c : nat) (exc : bool) (x : transaction) : tx_spec ->
    unit + failure -> transaction -> Prop :=
  | ExitReleased base f older a' sp' :
      fr_context f = c ->
      sp' = (if exc || fr_failed f then SpecOpen base older else append_log (fr_log f) base older) ->
      describes settings sp' (pop_context (set_adapter a' x)) ->
      exit_control_end c exc x (SpecOpen base (f :: older)) (inl tt) (set_adapter a' x)
  | ExitDoomed base frames r a' :
      durable_kept (tx_adapter x) a' -> (r = inl tt -> exc = true) ->
      (forall e, r = inr e -> public e = true) ->
      exit_control_end c exc x (SpecOpen base frames) r (set_unsafe (set_adapter a' x))
  | ExitStillDoomed r :
      (r = inl tt -> exc = true) -> (forall e, r = inr e -> public e = true) ->
      exit_control_end c exc x SpecDoomed r x.

Lemma control_failed cmd base frames x e x' :
  control cmd x = (inr e, x') -> is_savepoint cmd = true -> open_state settings base frames x ->
  Forall honest (ad_script (tx_adapter x)) ->
  exists a', x' = set_unsafe (set_adapter a' x) /\ durable_kept (tx_adapter x) a' /\ public e = true.
Proof.
  intros H Hc Hop Hh. pose proof (control_open _ _ _ _ _ _ H Hc Hop Hh) as Hend.
  inversion Hend as [|e' a' Hdur Hpub Hr Hs]; subst. by eexists.
Qed.

(** The context that a pending exit is about to leave. *)
Lemma exit_target t c exc sp x :
  promise t (OpNestedExit c exc) x -> describes settings sp x -> well x ->
  sp = SpecDoomed \/ exists base f older, sp = SpecOpen base (f :: older) /\ fr_context f = c.
Proof.
  intros [_ Hhead] Hd Hw. pose proof (wl_connection _ Hw) as Hcon.
  destruct (nt_stack (tx_nest x)) as [|c0 l] eqn:Hs; [done|]. injection Hhead as ->.
  specialize (Hcon ltac:(done)).
  destruct sp as [u|base [|f older]| |o d]; simpl in Hd; [by destruct Hd; congruence| | |by left|].
  - destruct Hd as [_ Hst _ _ _]. by rewrite Hs in Hst.
  - right. destruct Hd as [_ Hst _ _ _]. rewrite Hs in Hst. injection Hst as -> _. by eexists _, _, _.
  - by destruct Hd; congruence.
Qed.

Lemma exit_commands_cases t c exc sp x r x' :
  exit_commands c exc x = (r, x') -> promise t (OpNestedExit c exc) x ->
  describes settings sp x -> well x -> Forall honest (ad_script (tx_adapter x)) ->
  exit_control_end c exc x sp r x'.
Proof.
  unfold exit_commands. intros H Hp Hd Hw Hh. rewrite get_then in H. cbv zeta in H.
  destruct (exit_target _ _ _ _ _ Hp Hd Hw) as [-> |(base & f & older & -> & <-)]; simpl in Hd.
  { rewrite (es_reusable _ _ Hd) in H. simpl in H.
    destruct exc; injection H as <- <-; constructor; try done; by intros ? [= <-]. }
  rewrite (es_reusable _ _ (op_entered _ _ _ _ Hd)) in H. simpl in H.
  assert (Hfail : ns_failed (context_of x (fr_context f)) = fr_failed f).
  { destruct Hd as [_ _ Hfa _ _]. by apply Forall_cons_1 in Hfa as [? _]. }
  rewrite Hfail in H. destruct (exc || fr_failed f) eqn:Hb.
  - apply bind_cases in H as [([] & s & H1 & H2)|(e & H1 & ->)].
    2: { destruct (control_failed _ _ _ _ _ _ H1 eq_refl Hd Hh) as (a' & -> & Hdur & Hpub). constructor; try done; by intros ? [= <-]. }
    destruct (rollback_described _ _ _ _ _ Hd Hh H1) as (a1 & -> & Hh1 & Hdur1 & Hop1).
    destruct r as [[]|e].
    + destruct (release_described _ _ _ _ _ Hop1 Hh1 H2) as [(a' & ->) Hd'].
      simpl in Hd'. rewrite append_log_nil in Hd'.
      change (set_adapter a' (set_adapter a1 x)) with (set_adapter a' x) in *.
      apply (ExitReleased _ _ _ base f older a' (SpecOpen base older)); [done|by rewrite Hb|done].
    + destruct (control_failed _ _ _ _ _ _ H2 eq_refl Hop1 Hh1) as (a' & -> & Hdur & Hpub).
      change (set_adapter a' (set_adapter a1 x)) with (set_adapter a' x).
      apply (ExitDoomed _ _ _ _ _ _ a'); [|done|by intros ? [= <-]]. unfold durable_kept in *. simpl in *. congruence.
  - simpl in H. destruct r as [[]|e].
    + destruct (release_described _ _ _ _ _ Hd Hh H) as [(a' & ->) Hd'].
      eapply (ExitReleased _ _ _ base f older a'); [done|by rewrite Hb|done].
    + destruct (control_failed _ _ _ _ _ _ H eq_refl Hd Hh) as (a' & -> & Hdur & Hpub). constructor; try done; by intros ? [= <-].
Qed.

Lemma exit_control_cases t c exc sp x r x' :
  exit_control c exc x = (r, x') -> promise t (OpNestedExit c exc) x ->
  describes settings sp x -> well x -> Forall honest (ad_script (tx_adapter x)) ->
  exit_control_end c exc x sp r x'.
Proof.
  intros H Hp Hd Hw Hh. apply except_cases in H as [([] & H & ->)|(e & s & H & Hk)];
    eapply exit_commands_cases in H; try done.
  destruct (is_exception e && exc) eqn:Hb; injection Hk as <- <-; [|done].
  apply andb_true_iff in Hb as [_ ->]. inversion H; subst; constructor; try done; by intros ? [=].
Qed.

Lemma others_popped t c exc x x' :
  nt_owner (tx_nest x) = Some t ->
  tx_life x' = tx_life x \/ tx_life x' = tx_life (set_unsafe x) -> tx_nest x' = tx_nest x ->
  others_kept t (OpNestedExit c exc) x (pop_context x').
Proof.
  intros Ho Hl Hn. split; simpl.
  - intros _. by destruct Hl as [-> | ->].
  - by destruct Hl as [-> | ->].
  - intros d Hd _. split; [unfold context_of; simpl; by rewrite Hn|]. rewrite Hn.
    intros Hin. apply Hd. by destruct (nt_stack (tx_nest x)); [|apply list_elem_of_further].
  - intros t' Ht' Hne. congruence.
Qed.

Lemma nested_exit_run c exc x r x' :
  nested_exit_body c exc x = (r, x') ->
  exists r1 s1, exit_control c exc x = (r1, s1) /\ x' = pop_context s1 /\
    r = match r1 with
        | inl _ => if ns_failed (context_of s1 c) && negb exc then inr rolled_back_nested else inl tt
        | inr e => inr e
        end.
Proof.
  unfold nested_exit_body. intros H.
  apply bind_cases in H as [([] & s & H1 & H)|(e & H1 & ->)];
    apply finally_cases in H1 as (r1 & s1 & H1 & [[H2 Hr]|(y & H2 & Hr)]); try by leaf_inv H2.
  - injection H2 as <-. subst r1. eexists _, _. split; [exact H1|].
    unfold get, mbind, eff_bind in H. simpl in H.
    change (context_of (pop_context s1) c) with (context_of s1 c) in H.
    by destruct (ns_failed (context_of s1 c) && negb exc); injection H as <- <-.
  - injection H2 as <-. subst r1. by eexists _, _.
Qed.

Lemma nested_exit_simulated t c exc sp x r x' :
  nested_exit_body c exc x = (r, x') -> promise t (OpNestedExit c exc) x ->
  describes settings sp x -> well x -> Forall honest (ad_script (tx_adapter x)) ->
  simulated settings sp t (OpNestedExit c exc) r x x'.
Proof.
  intros H Hp Hd Hw Hh. destruct (nested_exit_run _ _ _ _ _ H) as (r1 & s1 & H1 & -> & ->). clear H.
  pose proof (exit_control_cases _ _ _ _ _ _ _ H1 Hp Hd Hw Hh) as Hend.
  destruct Hp as [Ho Hhead]. split; [|split; [|split; [|done]]].
  - inversion Hend as [base f older a' sp' Hc Hsp Hd'|base frames r a' Hdur Hr _|r Hr _]; subst.
    + exists (if exc || fr_failed f then SpecOpen base older else append_log (fr_log f) base older).
      split; [|done].
      assert (Hfail : ns_failed (context_of (set_adapter a' x) (fr_context f)) = fr_failed f).
      { destruct Hd as [_ _ Hfa _ _]. by apply Forall_cons_1 in Hfa as [? _]. }
      rewrite Hfail. destruct exc, (fr_failed f) eqn:Hf; simpl; by constructor.
    + exists SpecDoomed. split; [|by destruct (open_doomed _ _ _ _ Hd Hdur)].
      destruct r1 as [[]|e]; [|by constructor]. rewrite Hr by done. rewrite andb_false_r. by constructor.
    + exists SpecDoomed. split; [|by destruct Hd].
      destruct r1 as [[]|e]; [|by constructor]. rewrite Hr by done. rewrite andb_false_r. by constructor.
  - apply well_popped. inversion Hend; subst; [by apply well_adapter|by apply well_unsafe, well_adapter|done].
  - inversion Hend; subst; apply others_popped; try done; [by left|by right|by left].
Qed.

(** ** Closing *)

Lemma release_cases x r x' :
  runtime_release x = (r, x') ->
  exists a', x' = set_adapter a' (set_lease Released x) /\ durable_kept (tx_adapter x) a' /\
    en_settings (ad_engine a') = en_settings (ad_engine (tx_adapter x)) /\
    (en_open (ad_engine (tx_adapter x)) = None -> en_open (ad_engine a') = None).
Proof.
  unfold runtime_release. intros H. rewrite modify_then in H. apply zoom_cases in H as (a' & H & ->). exists a'. split; [done|].
  pose proof (driver_kept _ _ _ _ H ltac:(done) I) as (_ & Hd & _). split; [done|].
  split; [by apply (driver_settings _ _ _ _ H)|]. intros Hop. simpl in H.
  apply driver_cases in H as [_ H]. destruct r as [[]|e]; [by injection H as <-|].
  destruct H as (eff & -> & _). by destruct eff.
Qed.

Lemma discard_cases x r x' :
  runtime_discard x = (r, x') ->
  exists a', x' = set_adapter a' (set_lease Discarded x) /\ durable_kept (tx_adapter x) a'.
Proof.
  unfold runtime_discard. intros H.
  rewrite modify_then in H. apply bind_cases in H as [([] & s & H1 & H)|(e & H1 & ->)];
    apply zoom_cases in H1 as (a' & H1 & ->);
    pose proof (driver_kept _ _ _ _ H1 ltac:(done) I) as (_ & Hd & _).
  - injection H as _ <-. by exists (hang_up a').
  - by exists a'.
Qed.

(** A state ready to be closed: [closed], without a connection or contexts. *)
Record closing_state (x : transaction) : Prop := {
  cs_connection : lc_connection (tx_life x) = false;
  cs_entering : lc_entering (tx_life x) = false;
  cs_closed : lc_closed (tx_life x) = true;
  cs_stack : nt_stack (tx_nest x) = []
}.

Lemma discarded_done x r x' d :
  runtime_discard x = (r, x') -> closing_state x ->
  en_durable (ad_engine (tx_adapter x)) = d -> done_state settings (tx_outcome x) d x'.
Proof.
  intros H [Hc He Hcl Hs] Hd. destruct (discard_cases _ _ _ H) as (a' & -> & Hdur).
  split; simpl; try done; [by right|]. unfold durable_kept in *. congruence.
Qed.

Lemma released_done x r x' d :
  runtime_release x = (r, x') -> closing_state x ->
  en_open (ad_engine (tx_adapter x)) = None ->
  (forall p, en_settings (ad_engine (tx_adapter x)) p = settings p) ->
  en_durable (ad_engine (tx_adapter x)) = d -> done_state settings (tx_outcome x) d x'.
Proof.
  intros H [Hc He Hcl Hs] Hop Hset Hd. destruct (release_cases _ _ _ H) as (a' & -> & Hdur & Hst & Hop').
  split; simpl; try done; [by left| |].
  - intros _. split; [by apply Hop'|]. intros p. by rewrite Hst.
  - unfold durable_kept in *. congruence.
Qed.

(** The commit or rollback of a close, and how it ends before its error is
    reported: the outcome is what the adapter knows. *)
Definition close_command (exc : bool) : call :=
  if exc then run_driver_operation false adapter_rollback else commit_close.

Record command_end (exc : bool) (log : list stmt) (x : transaction) (r : unit + failure)
    (x' : transaction) : Prop := {
  ce_nest : tx_nest x' = tx_nest x;
  ce_stream : tx_stream x' = tx_stream x;
  ce_clean : tx_life x' = tx_life x -> lc_reusable (tx_life x) = true ->
    en_open (ad_engine (tx_adapter x')) = None /\
    forall p, en_settings (ad_engine (tx_adapter x')) p = settings p;
  ce_life : tx_life x' = tx_life x \/ tx_life x' = tx_life (set_unsafe x);
  ce_evidence :
    if exc then tx_outcome x' = NotAttempted /\ en_durable (ad_engine (tx_adapter x')) = []
    else evidence (tx_outcome x') log (en_durable (ad_engine (tx_adapter x')));
  ce_result : r = inl tt -> exc = false -> tx_outcome x' = Committed
}.

Lemma commit_run x r x' :
  commit_close x = (r, x') -> exists r0 a' s1, adapter_commit (tx_adapter x) = (r0, a') /\
    driver_end false (set_tx_outcome Unknown x) a' r0 r s1 /\
    x' = match r with
         | inl _ => set_tx_outcome Committed s1
         | inr _ => match ad_outcome a' with
                    | (Committed | Rejected) as o => set_tx_outcome o s1
                    | _ => s1
                    end
         end.
Proof.
  unfold commit_close. intros H.
  rewrite modify_then in H.
  assert (Hrun : exists r0 a' s1 s2, adapter_commit (tx_adapter x) = (r0, a') /\
    driver_end false (set_tx_outcome Unknown x) a' r0 r s1 /\
    s2 = match ad_outcome a' with
         | (Committed | Rejected) as o => set_tx_outcome o s1
         | _ => s1
         end /\ x' = match r with inl _ => set_tx_outcome Committed s2 | inr _ => s2 end).
  { apply bind_cases in H as [([] & s & H1 & H)|(e & H1 & ->)]; [injection H as <- <-|];
      apply finally_cases in H1 as (r1 & s1 & H1 & Hfin);
      apply run_driver_cases in H1 as (r0 & a' & Hm & Hend); exists r0, a', s1; eexists;
      (split; [exact Hm|]); assert (Had : tx_adapter s1 = a') by (by inversion Hend);
      unfold get, mbind, eff_bind in Hfin; rewrite Had in Hfin;
      (destruct Hfin as [[Hf <-]|(z & Hf & _)]; [|by destruct (ad_outcome a')]);
      (split; [done|]); (split; [done|]); destruct (ad_outcome a'); by injection Hf as <-. }
  destruct Hrun as (r0 & a' & s1 & s2 & Hm & Hend & -> & ->). exists r0, a', s1.
  split; [done|]. split; [done|]. destruct r; [|done]. by destruct (ad_outcome a').
Qed.

Lemma close_command_cases exc x r x' log sps :
  close_command exc x = (r, x') -> lc_reusable (tx_life x) = true ->
  tx_outcome x = NotAttempted -> en_durable (ad_engine (tx_adapter x)) = [] ->
  settled settings (tx_adapter x) ->
  en_open (ad_engine (tx_adapter x)) = Some (OpenTransaction log sps) ->
  command_end exc log x r x'.
Proof.
  unfold close_command. intros H Hre Hout Hdur Hs Ht.
  assert (Hunsafe : tx_life (set_unsafe x) = tx_life x -> False).
  { intros Heq. assert (Hf : lc_reusable (tx_life (set_unsafe x)) = false) by done. congruence. }
  destruct exc.
  - apply run_driver_cases in H as (r0 & a' & Hm & Hend).
    destruct (adapter_rollback_cases settings _ _ _ _ Hm Hs Ht) as (Ho & Hd & Hok).
    unfold durable_kept in Hd. rewrite Hdur in Hd.
    inversion Hend; subst; [|done|]; split; try done; by auto.
  - apply commit_run in H as (r0 & a' & s1 & Hm & Hend & ->).
    destruct (adapter_commit_cases settings _ _ _ _ Hm Hs Ht) as [Hev Hok].
    unfold commit_evidence in Hev. rewrite Hdur in Hev. simpl in Hev.
    inversion Hend as [|d Hrec|e e' He]; subst; [|done|].
    + destruct (Hok eq_refl) as (Ho & Hop & Hset). rewrite Ho in Hev. split; try done; by auto.
    + destruct (ad_outcome a') eqn:Ho; try done; split; try done; by auto.
Qed.

(** Reporting an error marks the connection. *)
Lemma close_handler_cases exc error x r x' :
  (if is_exception error then _ ← modify set_unsafe; report_close_failure error exc
   else throw error) x = (r, x') ->
  (x' = x \/ x' = set_unsafe x) /\ (r = inl tt -> exc = true).
Proof.
  intros H. destruct (is_exception error); [|leaf_inv H; by split; [left|]].
  rewrite modify_then in H.
  unfold report_close_failure in H.
  destruct exc; [by injection H as <- <-; split; [right|]|].
  destruct (is_operation_timeout error); injection H as <- <-; by split; [right|].
Qed.

Lemma command_end_handled exc log x r0 s r x' :
  command_end exc log x r0 s -> x' = s \/ x' = set_unsafe s -> (r = inl tt -> exc = true) ->
  command_end exc log x r x'.
Proof.
  intros [Hn Hst Hc Hl He _] Hx Hr. destruct Hx as [-> | ->].
  - split; try done. by intros ->%Hr.
  - split; try done.
    + intros Heq Hre. assert (Hf : lc_reusable (tx_life (set_unsafe s)) = false) by done.
      rewrite Heq in Hf. congruence.
    + right. simpl. by destruct Hl as [-> | ->].
    + by intros ->%Hr.
Qed.

(** Closing an open transaction without contexts. *)
Record close_end (exc : bool) (log : list stmt) (x : transaction) (r : unit + failure)
    (x' : transaction) : Prop := {
  cl_done : done_state settings (tx_outcome x') (en_durable (ad_engine (tx_adapter x'))) x';
  cl_evidence :
    if exc then tx_outcome x' = NotAttempted /\ en_durable (ad_engine (tx_adapter x')) = []
    else evidence (tx_outcome x') log (en_durable (ad_engine (tx_adapter x'))) /\
         (r = inl tt -> tx_outcome x' = Committed);
  cl_nest : tx_nest x' = tx_nest x;
  cl_stream : tx_stream x' = tx_stream x;
  cl_close_task : lc_close_task (tx_life x') = lc_close_task (tx_life x)
}.

Lemma finish_close_cases exc x r x' log sps :
  finish_close exc x = (r, x') -> closing_state x -> lc_reusable (tx_life x) = true ->
  tx_outcome x = NotAttempted -> en_durable (ad_engine (tx_adapter x)) = [] ->
  settled settings (tx_adapter x) ->
  en_open (ad_engine (tx_adapter x)) = Some (OpenTransaction log sps) ->
  close_end exc log x r x'.
Proof.
  unfold finish_close. intros H Hcs Hre Hout Hdur Hs Ht.
  apply finally_cases in H as (r1 & s1 & H1 & Hfin).
  assert (Hce : command_end exc log x r1 s1).
  { apply except_cases in H1 as [([] & H1 & ->)|(e & s & H1 & Hh)].
    - by eapply close_command_cases.
    - apply close_handler_cases in Hh as [Hx Hr].
      eapply command_end_handled; [|done|done]. by eapply close_command_cases. }
  assert (Hf : exists rf, (if lc_reusable (tx_life s1) then runtime_release else runtime_discard) s1 =
                 (rf, x') /\ (r = inl tt -> r1 = inl tt)).
  { unfold get, mbind, eff_bind in Hfin. destruct Hfin as [[Hf ->]|(y & Hf & ->)]; by eexists. }
  clear Hfin H1. destruct Hf as (rf & Hf & Hr), Hce as [Hn Hst Hc Hl Hev Hres], Hcs as [C1 C2 C3 C4].
  assert (Hcs1 : closing_state s1).
  { split; [..|by rewrite Hn]; by destruct Hl as [-> | ->]. }
  assert (Hkeep : tx_nest x' = tx_nest s1 /\ tx_stream x' = tx_stream s1 /\ tx_life x' = tx_life s1 /\
    tx_outcome x' = tx_outcome s1 /\ durable_kept (tx_adapter s1) (tx_adapter x')).
  { destruct (lc_reusable (tx_life s1)).
    - by destruct (release_cases _ _ _ Hf) as (a' & -> & Hd & _).
    - by destruct (discard_cases _ _ _ Hf) as (a' & -> & Hd). }
  destruct Hkeep as (Hn' & Hst' & Hl' & Ho' & Hd'). unfold durable_kept in Hd'.
  split; rewrite ?Ho', ?Hd', ?Hl'; [|..|congruence|congruence|by destruct Hl as [-> | ->]].
  - destruct Hl as [Hl|Hl]; rewrite Hl in Hf; simpl in Hf.
    + destruct (Hc Hl Hre) as [Hop Hset]. rewrite Hre in Hf. by eapply released_done.
    + by eapply discarded_done.
  - destruct exc; [done|]. split; [done|]. intros ?. by apply Hres; [apply Hr|].
Qed.

(** The state in which a close starts. *)
Definition closing (x : transaction) : transaction := set_closed (set_connection false x).

Lemma well_done d o x :
  done_state settings o d x -> nt_owner (tx_nest x) = None ->
  (forall c, ns_used (context_of x c) = false -> ns_failed (context_of x c) = false) ->
  sm_owner (tx_stream x) = None -> sm_lock (tx_stream x) = None -> well x.
Proof.
  intros [D1 D2 D3 D4 _ _ _ _] Ho Hf Hs Hl. split; rewrite ?D4, ?Ho, ?Hs, ?Hl; try done.
  - set_solver.
  - apply NoDup_nil_2.
  - congruence.
Qed.

Lemma others_closed t exc x x' :
  owned_by t x = true -> nt_contexts (tx_nest x') = nt_contexts (tx_nest x) ->
  nt_stack (tx_nest x') = [] -> lc_entering (tx_life x') = lc_entering (tx_life x) ->
  lc_close_task (tx_life x') = lc_close_task (tx_life x) -> others_kept t (OpExit exc) x x'.
Proof.
  intros Ho Hctx Hs He Hc. split; try done.
  - intros c _ _. unfold context_of. rewrite Hctx, Hs. set_solver.
  - intros t' Ht' Hne. by destruct (owned_others _ _ _ Ho Ht').
Qed.

(** A close that discards the connection without a word to the database. *)
Lemma discard_close t exc sp x y rd x' r :
  runtime_discard y = (rd, x') -> closing_state y ->
  tx_adapter y = tx_adapter x -> tx_outcome y = NotAttempted ->
  nt_contexts (tx_nest y) = nt_contexts (tx_nest x) -> nt_owner (tx_nest y) = None ->
  tx_stream y = tx_stream x -> sm_lock (tx_stream x) = None ->
  lc_entering (tx_life x) = false -> lc_close_task (tx_life y) = lc_close_task (tx_life x) ->
  en_durable (ad_engine (tx_adapter x)) = [] ->
  spec_step sp (OpExit exc, r) (SpecDone NotAttempted []) -> owned_by t x = true -> well x ->
  simulated settings sp t (OpExit exc) r x x' /\ lc_closed (tx_life x') = true.
Proof.
  intros H Hcs Had Hout Hctx How Hst Hl Hent Hct Hd Hstep Ho Hw.
  assert (Hdone : done_state settings NotAttempted [] x').
  { rewrite <- Hout. eapply discarded_done; [done|done|]. by rewrite Had. }
  destruct (discard_cases _ _ _ H) as (a' & Hx & _).
  assert (Hn : tx_nest x' = tx_nest y) by by subst.
  assert (Hs : tx_stream x' = tx_stream x) by by rewrite Hx.
  assert (Hctx' : forall c, context_of x' c = context_of x c) by (intros c; unfold context_of; by rewrite Hn, Hctx).
  split; [|by destruct Hdone].
  split; [by exists (SpecDone NotAttempted [])|]. split; [|split; [|done]].
  - eapply well_done; [done|by rewrite Hn| | |].
    + intros c. rewrite Hctx'. apply (wl_fresh _ Hw).
    + by rewrite Hs, (wl_stream _ Hw).
    + by rewrite Hs.
  - apply others_closed; [done|by rewrite Hn|by apply Hdone| |by rewrite Hx].
    rewrite (dn_entering _ _ _ _ Hdone). done.
Qed.

Lemma close_simulated t exc sp x r x' :
  close_leased exc x = (r, x') -> sm_lock (tx_stream x) = None ->
  owned_by t x = true -> lc_connection (tx_life x) = true -> describes settings sp x -> well x ->
  simulated settings sp t (OpExit exc) r x x' /\ lc_closed (tx_life x') = true.
Proof.
  unfold close_leased. intros H Hl Ho Hcon Hd Hw. rewrite get_then, !modify_then in H.
  fold (closing x) in H.
  assert (Hes : exists b, entered_state b x).
  { destruct sp; simpl in Hd; [by destruct Hd; congruence|exists true; apply Hd|by eexists|by destruct Hd; congruence]. }
  destruct Hes as [b Hes]. pose proof Hes as [E1 E2 E3 E4 E5 E6 E7].
  destruct (nt_stack (tx_nest x)) as [|c l] eqn:Hst; simpl in H.
  - assert (Hcs : closing_state (closing x)) by by split.
    assert (Hown : nt_owner (tx_nest x) = None) by by apply (wl_owner _ Hw).
    rewrite E4 in H. destruct b; simpl in H.
    + destruct sp as [u|base frames| |o d]; simpl in Hd; [by destruct Hd; congruence| |by destruct Hd; congruence|by destruct Hd; congruence].
      assert (Hfr : frames = []) by (destruct Hd as [_ Hs _ _ _]; rewrite Hst in Hs; by destruct frames).
      subst frames. destruct Hd as [_ _ _ Hop Hset]. simpl in Hop.
      destruct (finish_close_cases _ _ _ _ _ _ H Hcs E4 E6 E7 Hset Hop) as [Hdn Hev Hn Hs Hct].
      split; [|by apply Hdn]. split; [|split; [|split; [|done]]].
      * eexists (SpecDone _ _). split; [|exact Hdn].
        destruct exc; [destruct Hev as [-> ->]; by constructor|]. destruct Hev. by constructor.
      * eapply well_done; [exact Hdn|by rewrite Hn| | |].
        -- intros d. unfold context_of. rewrite Hn. apply (wl_fresh _ Hw).
        -- rewrite Hs. simpl. by rewrite (wl_stream _ Hw).
        -- by rewrite Hs.
      * apply others_closed; [done|by rewrite Hn|by rewrite Hn| |done].
        by rewrite (dn_entering _ _ _ _ Hdn).
    + destruct sp as [u|base frames| |o d]; simpl in Hd; [by destruct Hd; congruence| | |by destruct Hd; congruence].
      { destruct Hd as [[] _ _ _ _]; congruence. }
      eapply discard_close; try done. by constructor.
  - rewrite modify_then in H.
    rewrite modify_then in H.
    assert (Hrun : exists rd, runtime_discard (clear_stack (set_unsafe (closing x))) = (rd, x') /\ (r = inl tt -> exc = true)).
    { apply bind_cases in H as [([] & s & H1 & H)|(e & H1 & ->)]; [|by eexists].
      apply require_cases in H as [-> [[-> ->]|[_ ->]]]; by eexists. }
    destruct Hrun as (rd & Hrd & Hr). eapply discard_close; try done.
    destruct sp as [u|base frames| |o d]; simpl in Hd; [by destruct Hd; congruence| |by constructor|by destruct Hd; congruence].
    destruct frames as [|f older]; [destruct Hd as [_ Hs _ _ _]; by rewrite Hst in Hs|].
    constructor. intros -> Hr'. by discriminate (Hr Hr').
Qed.

Lemma exit_simulated t exc sp x r x' :
  close_body t exc x = (r, x') -> sm_lock (tx_stream x) = None ->
  describes settings sp x -> well x -> simulated settings sp t (OpExit exc) r x x'.
Proof.
  unfold close_body. intros H Hl Hd Hw.
  apply owner_then in H as [H|[Ho H]]; [by apply simulated_refused|]. rewrite get_then in H.
  apply require_then in H as [H|[Hcon H]]; [by apply simulated_refused| |done].
  by apply close_simulated.
Qed.

(** ** Entry *)

Lemma acquire_cases x r x' :
  runtime_acquire settings x = (r, x') -> exists a', durable_kept (tx_adapter x) a' /\
  (Forall honest (ad_script (tx_adapter x)) -> Forall honest (ad_script a')) /\
  match r with
  | inl _ => x' = set_lease Leased (set_adapter (fresh_adapter settings a') x)
  | inr _ => x' = set_adapter a' x
  end.
Proof.
  unfold runtime_acquire. intros H. apply except_cases in H as [([] & H & ->)|(e & s & H & Hh)].
  - apply bind_cases in H as [([] & s & H1 & H)|(e & H1 & [=])].
    apply zoom_cases in H1 as (a' & H1 & ->). pose proof (driver_kept _ _ _ _ H1 ltac:(done) I) as (Hn & Hd & _).
    injection H as <-. exists a'. split; [done|]. by split; [apply Hn|].
  - apply bind_cases in H as [([] & s1 & H1 & H)|(e1 & H1 & _)]; [by leaf_inv H|].
    apply zoom_cases in H1 as (a' & H1 & ->). pose proof (driver_kept _ _ _ _ H1 ltac:(done) I) as (Hn & Hd & _).
    exists a'. split; [done|]. split; [apply Hn|].
    destruct e as [e|d|d| |]; simpl in Hh; injection Hh as <- <-; done.
Qed.

Lemma fresh_settled a : settled settings (fresh_adapter settings a).
Proof. split; [done|apply NoDup_nil_2]. Qed.

(** [BEGIN] and what follows its failure. *)
Lemma begin_run policy mode read_only isolation x r x' :
  try_except (run_driver_operation false (adapter_begin policy mode read_only isolation))
    begin_failed x = (r, x') ->
  settled settings (tx_adapter x) -> ad_previous (tx_adapter x) = [] ->
  (r = inl tt /\ exists a', x' = set_adapter a' x /\ durable_kept (tx_adapter x) a' /\
     settled settings a' /\ en_open (ad_engine a') = Some (OpenTransaction [] [])) \/
  (exists e a', r = inr e /\ durable_kept (tx_adapter x) a' /\
     (x' = set_adapter a' (set_lease Discarded (set_unsafe x)) \/
      x' = set_closed (set_adapter a' (set_lease Discarded (set_unsafe x))))).
Proof.
  intros H Hs Hp. apply except_cases in H as [([] & H & ->)|(e & s & H & Hh)];
    apply run_driver_cases in H as (r0 & a' & Hm & Hend);
    destruct (adapter_begin_cases _ _ _ _ _ _ _ _ Hm Hs Hp) as (Ho & Hd & _ & Hok).
  - inversion Hend; subst. left. split; [done|]. destruct (Hok eq_refl). by eexists.
  - right. inversion Hend as [|d [=]|e1 e2 He]; subst. unfold begin_failed in Hh.
    apply bind_cases in Hh as [([] & s & H1 & Hh)|(e3 & H1 & ->)];
      apply discard_cases in H1 as (a1 & -> & Hd1); unfold durable_kept in *; simpl in *.
    + rewrite !modify_then in Hh. exists (match r with inl _ => e | inr e3 => e3 end), a1.
      destruct (is_operation_timeout e || _); injection Hh as <- <-;
        (split; [done|]); (split; [congruence|by right]).
    + exists e3, a1. split; [done|]. split; [congruence|by left].
Qed.

Lemma others_enter t x x' :
  tx_nest x' = tx_nest x -> lc_close_task (tx_life x') = lc_close_task (tx_life x) ->
  others_kept t OpEnter x x'.
Proof. intros Hn Hc. by apply others_same. Qed.

(** Entry changes nothing but the life cycle, the lease and the connection. *)
Lemma well_entry x x' :
  well x -> lc_connection (tx_life x) = false -> tx_nest x' = tx_nest x ->
  tx_stream x' = tx_stream x -> lc_entering (tx_life x') = false -> well x'.
Proof.
  intros [W1 W2 W3 W4 W5 W6 W7 W8] Hc Hn Hs He.
  assert (Hst : nt_stack (tx_nest x) = []).
  { destruct (nt_stack (tx_nest x)); [done|]. by rewrite W2 in Hc. }
  assert (Hl : sm_lock (tx_stream x) = None).
  { destruct (sm_lock (tx_stream x)); [|done]. by rewrite W7 in Hc. }
  split; unfold context_of in *; rewrite ?Hn, ?Hs, ?Hst, ?Hl; try done.
  - by rewrite W1, Hst.
  - set_solver.
  - apply NoDup_nil_2.
  - by rewrite W6.
  - by rewrite He.
Qed.

Lemma enter_simulated policy mode read_only isolation t sp x r x' :
  enter_body policy mode read_only isolation settings x = (r, x') -> promise t OpEnter x ->
  describes settings sp x -> well x -> Forall honest (ad_script (tx_adapter x)) ->
  simulated settings sp t OpEnter r x x'.
Proof.
  unfold enter_body. intros H Hp Hd Hw Hh. simpl in Hp.
  destruct (wl_entering _ Hw Hp) as [Hcon Hcl].
  assert (Hsp : exists u, sp = SpecIdle u).
  { destruct sp; simpl in Hd; [by eexists| | |]; exfalso.
    - by destruct Hd as [[] _ _ _ _]; congruence.
    - by destruct Hd; congruence.
    - by destruct Hd; congruence. }
  destruct Hsp as [u ->]. simpl in Hd.
  apply finally_cases in H as (r1 & s1 & H & [[H2 ->]|(e & H2 & _)]); [|by leaf_inv H2].
  injection H2 as <-.
  enough (tx_nest s1 = tx_nest x /\ tx_stream s1 = tx_stream x /\
          lc_close_task (tx_life s1) = lc_close_task (tx_life x) /\
          exists sp', spec_step (SpecIdle u) (OpEnter, r1) sp' /\ describes settings sp' (set_entering false s1))
    as (Hn & Hs & Hct & Hsp).
  { split; [done|]. split; [by eapply well_entry|]. split; [by apply others_enter|done]. }
  destruct Hd as [D1 D2 D3 D4 D5 D6 D7].
  apply bind_cases in H as [([] & s & H1 & H)|(e & H1 & ->)];
    destruct (acquire_cases _ _ _ H1) as (a & Hdur & Hh1 & ->); unfold durable_kept in Hdur.
  - apply bind_cases in H as [([] & s & H2 & H)|(e & H2 & ->)];
      pose proof (begin_run _ _ _ _ _ _ _ H2 (fresh_settled _) eq_refl) as Hb.
    + destruct Hb as [(_ & a' & -> & Hdur' & Hset & Hop)|(e & a' & [=] & _)].
      injection H as <- <-. unfold durable_kept in Hdur'. simpl in Hdur'.
      split; [done|]. split; [done|]. split; [done|].
      exists (if u then SpecOpen [] [] else SpecDoomed). split; [constructor|].
      assert (Hes : entered_state u (set_entering false (set_connection true (set_adapter a'
                (set_lease Leased (set_adapter (fresh_adapter settings a) x)))))).
      { split; try done. simpl. congruence. }
      destruct u; [|done]. by split.
    + destruct Hb as [([=] & _)|(e' & a' & [= <-] & Hdur' & Hx)]. unfold durable_kept in Hdur'. simpl in Hdur'.
      destruct Hx as [-> | ->]; (split; [done|]); (split; [done|]); (split; [done|]).
      * exists (SpecIdle false). split; [by constructor|]. split; try done; simpl; [by right|congruence].
      * exists (SpecDone NotAttempted []). split; [by constructor|].
        split; try done; simpl; [by right|congruence].
  - split; [done|]. split; [done|]. split; [done|]. exists (SpecIdle u). split; [by constructor|].
    split; try done. simpl. congruence.
Qed.
End open.
