(* ===== verification/TransactionProps.v ===== *)
(** * Transactions: refinement and its consequences

    Every interleaving of calls on a transaction, with any outcome of its
    driver operations, is a run of the abstract transaction of
    [TransactionSpec.v]. *)

From S2P Require Export TransactionFacts.

(** ** The calls of a system *)

Definition call_of (h : task * op * (unit + failure)) : op * (unit + failure) := (h.1.2, h.2).
Definition calls (history : list (task * op * (unit + failure))) : list (op * (unit + failure)) :=
  rev (map call_of history).

Section system.
Context (policy : retry_policy) (mode : transaction_mode) (read_only : option bool)
  (isolation : option isolation_level) (settings : pragma -> bool).

Abbreviation step := (sys_step policy mode read_only isolation settings).
Abbreviation reachable := (sys_reachable policy mode read_only isolation settings).

(** What every reachable system satisfies. *)
Record sys_ok (sp : tx_spec) (s : system) : Prop := {
  so_described : describes settings sp (sys_tx s);
  so_well : well (sys_tx s);
  so_promises t o : sys_pending s !! t = Some o -> promise t o (sys_tx s);
  so_one_enter t1 t2 : sys_pending s !! t1 = Some OpEnter -> sys_pending s !! t2 = Some OpEnter -> t1 = t2;
  so_one_context t1 t2 c : sys_pending s !! t1 = Some (OpNestedEnter c) ->
    sys_pending s !! t2 = Some (OpNestedEnter c) -> t1 = t2
}.

(** ** First parts of calls *)

Lemma describes_entering sp b x :
  describes settings sp x -> lc_connection (tx_life x) = false -> lc_closed (tx_life x) = false ->
  describes settings sp (set_entering b x).
Proof.
  intros Hd Hc Hcl. destruct sp; simpl in *; [by destruct Hd|..]; exfalso.
  - by destruct Hd as [[] _ _ _ _]; congruence.
  - by destruct Hd; congruence.
  - by destruct Hd; congruence.
Qed.

Lemma describes_close_task sp x : describes settings sp x -> describes settings sp (set_close_task x).
Proof.
  destruct sp; simpl; [by intros []| |by intros []|by intros []].
  intros [[] Hs Hf He Hset]. split; [by split|done..].
Qed.

(** A context outside the stack may be marked as used. *)
Lemma describes_used sp c n x :
  describes settings sp x -> c ∉ nt_stack (tx_nest x) -> describes settings sp (set_context c n x).
Proof.
  intros Hd Hc. destruct sp as [u|base frames| |o d]; simpl in *; [by destruct Hd| |by destruct Hd|by destruct Hd].
  destruct Hd as [[] Hs Hf He Hset]. rewrite Hs in Hc.
  assert (Hother : forall f, f ∈ frames -> context_of (set_context c n x) (fr_context f) = context_of x (fr_context f)).
  { intros f Hin. rewrite context_of_insert, decide_False; [done|]. intros <-. apply Hc.
    by apply list_elem_of_fmap_2. }
  split; try done.
  - rewrite Forall_forall in Hf |- *. intros f Hin. rewrite Hother by done. by apply Hf.
  - simpl. rewrite He. do 2 f_equal. apply spec_savepoints_ext. intros f Hin. by rewrite Hother.
Qed.

(** The state after a first part that succeeds or refuses. *)
Record checked (t : task) (o : op) (sp : tx_spec) (x : transaction) (r : unit + failure)
    (x' : transaction) : Prop := {
  ck_described : describes settings sp x';
  ck_well : well x';
  ck_promises t' o' : promise t' o' x -> promise t' o' x';
  ck_result : match r with inl _ => promise t o x' | inr e => refusal e = true end;
  ck_enter : r = inl tt -> o = OpEnter -> lc_entering (tx_life x) = false;
  ck_context c : r = inl tt -> o = OpNestedEnter c -> ns_used (context_of x c) = false
}.

Lemma checked_same t o sp x r :
  describes settings sp x -> well x ->
  match r with inl _ => promise t o x | inr e => refusal e = true end ->
  (o <> OpEnter) -> (forall c, o <> OpNestedEnter c) -> checked t o sp x r x.
Proof. intros Hd Hw Hr H1 H2. split; try done. intros c _ Ho. by destruct (H2 c). Qed.

Lemma enter_checked t sp x r x' :
  enter_check x = (r, x') -> describes settings sp x -> well x -> checked t OpEnter sp x r x'.
Proof.
  unfold enter_check. intros H Hd Hw. rewrite get_then in H.
  apply require_then in H as [[-> (e & -> & He)]|[H1 H]]; [by split| |done].
  apply require_then in H as [[-> (e & -> & He)]|[H2 H]]; [by split| |done].
  apply negb_true_iff, orb_false_iff in H1 as [He Hc]. apply negb_true_iff in H2.
  injection H as <- <-. split; try done; [by apply describes_entering| |].
  - destruct Hw. by split.
  - intros t' []; simpl; try done.
Qed.

Lemma exit_checked t exc sp x r x' :
  exit_check t x = (r, x') -> describes settings sp x -> well x -> checked t (OpExit exc) sp x r x'.
Proof.
  unfold exit_check. intros H Hd Hw.
  apply owner_then in H as [[-> (e & -> & He)]|[Ho H]]; [by apply checked_same|].
  rewrite get_then in H.
  apply require_then in H as [[-> (e & -> & He)]|[H1 H]]; [by apply checked_same| |done].
  apply require_then in H as [[-> (e & -> & He)]|[H2 H]]; [by apply checked_same| |done].
  injection H as <- <-. split; try done; [by apply describes_close_task| |].
  - destruct Hw. by split.
  - intros t' []; simpl; try done.
Qed.

Lemma nested_enter_checked t c sp x r x' :
  nested_enter_check t c x = (r, x') -> describes settings sp x -> well x ->
  checked t (OpNestedEnter c) sp x r x'.
Proof.
  unfold nested_enter_check. intros H Hd Hw. rewrite get_then in H. cbv zeta in H.
  apply require_then in H as [[-> (e & -> & He)]|[H1 H]]; [by split| |done].
  apply negb_true_iff in H1. rewrite modify_then in H.
  assert (Hni : c ∉ nt_stack (tx_nest x)) by (intros Hin; by rewrite (wl_used _ Hw) in H1).
  set (n := Nested true _ _) in H.
  assert (Hx : x' = set_context c n x /\ match r with inl _ => True | inr e => refusal e = true end).
  { unfold check_access in H. apply owner_then in H as [[-> (e & -> & He)]|[Ho H]]; [done|].
    rewrite get_then in H. apply require_cases in H as [-> [[_ ->]|[_ ->]]]; done. }
  destruct Hx as [-> Hr]. pose proof (wl_fresh _ Hw c H1) as Hf.
  split; try done.
  - by apply describes_used.
  - by apply well_context.
  - intros t' o' Hp. destruct o' as [|e|d|d e|p|s| |]; simpl in *; try done.
    destruct Hp as (Hu & Hfd & Hd'). rewrite context_of_insert. case_decide; [|done]. subst d. congruence.
  - destruct r; [|done]. simpl. rewrite context_of_insert, decide_True by done. done.
  - by intros d _ [= <-].
Qed.

Lemma nested_exit_checked t c exc sp x r x' :
  nested_exit_check t c x = (r, x') -> describes settings sp x -> well x ->
  checked t (OpNestedExit c exc) sp x r x'.
Proof.
  unfold nested_exit_check, check_access. intros H Hd Hw.
  apply bind_cases in H as [([] & s & H1 & H)|(e & H1 & ->)].
  2: { apply owner_then in H1 as [[-> (e1 & [= <-] & He)]|[Ho H1]]; [by apply checked_same|].
       rewrite get_then in H1. apply require_cases in H1 as [-> [[_ [=]]|[_ [= ->]]]].
       by apply checked_same. }
  apply owner_then in H1 as [[_ (e1 & [=] & _)]|[Ho H1]]. rewrite get_then in H1.
  apply require_cases in H1 as [-> [[_ _]|[_ [=]]]]. rewrite get_then in H.
  assert (Hx : x' = x /\ match r with inl _ => head (nt_stack (tx_nest x)) = Some c
                                | inr e => refusal e = true end).
  { destruct (negb _ || _); [apply connection_then in H as [[-> (e & -> & He)]|[_ H]]; [done|]|
      rewrite ret_then in H];
      by apply require_cases in H as [-> [[->%bool_decide_eq_true ->]|[_ ->]]]. }
  destruct Hx as [-> Hr]. apply checked_same; try done. destruct r; [|done]. split; [|done].
  unfold owned_by in Ho. destruct (nt_owner (tx_nest x)) as [o|] eqn:Hown.
  - by apply bool_decide_eq_true in Ho as ->.
  - apply (wl_owner _ Hw) in Hown. by rewrite Hown in Hr.
Qed.

Lemma op_checked t o sp x r x' :
  op_check t o x = (r, x') -> describes settings sp x -> well x -> checked t o sp x r x'.
Proof.
  intros H Hd Hw. destruct o as [|exc|c|c exc|p|s| |]; simpl in H.
  - by apply enter_checked.
  - by apply exit_checked.
  - by apply nested_enter_checked.
  - by apply nested_exit_checked.
  - assert (H' : (_ ← check_nested_owner t; mret tt) x = (r, x')).
    { unfold mbind, eff_bind. rewrite H. by destruct r as [[]|]. }
    apply owner_then in H' as [[-> (e & -> & He)]|[_ [= <- <-]]]; by apply checked_same.
  - assert (H' : (_ ← check_nested_owner t; mret tt) x = (r, x')).
    { unfold mbind, eff_bind. rewrite H. by destruct r as [[]|]. }
    apply owner_then in H' as [[-> (e & -> & He)]|[_ [= <- <-]]]; by apply checked_same.
  - injection H as <- <-. by apply checked_same.
  - injection H as <- <-. by apply checked_same.
Qed.

(** ** Bodies *)

Lemma describes_feed sp script x : describes settings sp x -> describes settings sp (feed script x).
Proof.
  destruct sp; simpl; [by intros []| |by intros []|by intros []].
  intros [[] Hs Hf He [Ho Hnd]]. split; [by split|done|done|done|]. by split.
Qed.

Lemma op_simulated t o sp x r x' :
  op_body policy mode read_only isolation settings t o x = (r, x') ->
  (takes_lock o = true -> sm_lock (tx_stream x) = None) -> promise t o x ->
  describes settings sp x -> well x -> Forall honest (ad_script (tx_adapter x)) ->
  simulated settings sp t o r x x'.
Proof.
  intros H Hl Hp Hd Hw Hh. destruct o as [|exc|c|c exc|p|s| |]; simpl in H.
  - by eapply enter_simulated.
  - apply exit_simulated; auto.
  - by apply nested_enter_simulated.
  - by apply nested_exit_simulated.
  - by apply query_simulated.
  - by apply stream_enter_simulated.
  - by apply stream_next_simulated.
  - by apply stream_exit_simulated.
Qed.

Lemma promise_kept t o t2 o2 x x' :
  others_kept t o x x' -> promise t2 o2 x -> t2 <> t -> (o = OpEnter -> o2 <> OpEnter) ->
  (forall c, o = OpNestedEnter c -> o2 <> OpNestedEnter c) -> promise t2 o2 x'.
Proof.
  intros [Hent Hct Hctx Hown] Hp Hne H1 H2. destruct o2 as [|exc|c|c exc|p|s| |]; simpl in *; try done.
  - rewrite Hent; [done|]. destruct o; try done. by destruct H1.
  - congruence.
  - destruct Hp as (Hu & Hf & Hni). destruct (Hctx c Hni) as [-> ?]; [|done].
    intros Hc. destruct o; try done. injection Hc as ->. by destruct (H2 c).
  - destruct Hp as [Ho Hhd]. destruct (Hown _ Ho Hne). done.
Qed.

(** One step of the system is a stutter, or one step of the abstract
    transaction labelled with the call that ended. *)
Definition simulates_step (sp : tx_spec) (s s' : system) : Prop :=
  (sys_history s' = sys_history s /\ sys_ok sp s') \/
  exists t o r sp', sys_history s' = (t, o, r) :: sys_history s /\ spec_step sp (o, r) sp' /\ sys_ok sp' s'.

Lemma sys_ok_delete sp x pending t h h' :
  sys_ok sp (System x pending h) -> sys_ok sp (System x (delete t pending) h').
Proof.
  intros [Hd Hw Hp H1 H2]; split; simpl in *; try done.
  - intros t' o [_ Ht]%lookup_delete_Some. by apply Hp.
  - intros t1 t2 [_ Ht1]%lookup_delete_Some [_ Ht2]%lookup_delete_Some. by apply H1.
  - intros t1 t2 c [_ Ht1]%lookup_delete_Some [_ Ht2]%lookup_delete_Some. by eapply H2.
Qed.

Lemma start_simulated sp x pending h t o x' :
  sys_ok sp (System x pending h) -> pending !! t = None -> op_check t o x = (inl tt, x') ->
  sys_ok sp (System x' (<[t := o]> pending) h).
Proof.
  intros [Hd Hw Hp H1 H2] Ht Hc. simpl in *.
  destruct (op_checked _ _ _ _ _ _ Hc Hd Hw) as [Hd' Hw' Hp' Hr He Hctx].
  assert (Hnoenter : o = OpEnter -> forall t', pending !! t' <> Some OpEnter).
  { intros Ho t' Ht'. pose proof (Hp _ _ Ht') as Hpr. simpl in Hpr. by rewrite He in Hpr. }
  assert (Hnoctx : forall c, o = OpNestedEnter c -> forall t', pending !! t' <> Some (OpNestedEnter c)).
  { intros c Ho t' Ht'. destruct (Hp _ _ Ht') as [Hpr _]. by rewrite (Hctx c) in Hpr. }
  split; simpl; try done.
  - intros t' o' [[<- <-]|[Hne Ht']]%lookup_insert_Some; [done|]. by apply Hp', Hp.
  - intros t1 t2 [[-> ->]|[Hne1 Ht1]]%lookup_insert_Some [[-> Ho]|[Hne2 Ht2]]%lookup_insert_Some.
    + done.
    + by destruct (Hnoenter eq_refl t2).
    + by destruct (Hnoenter Ho t1).
    + by apply H1.
  - intros t1 t2 c [[-> ->]|[Hne1 Ht1]]%lookup_insert_Some [[-> Ho]|[Hne2 Ht2]]%lookup_insert_Some.
    + done.
    + by destruct (Hnoctx c eq_refl t2).
    + by destruct (Hnoctx c Ho t1).
    + by eapply H2.
Qed.

Lemma run_simulated sp x pending h t o script r x' :
  sys_ok sp (System x pending h) -> pending !! t = Some o ->
  (takes_lock o = true -> sm_lock (tx_stream x) = None) -> Forall honest script ->
  op_body policy mode read_only isolation settings t o (feed script x) = (r, x') ->
  exists sp', spec_step sp (o, r) sp' /\ sys_ok sp' (System x' (delete t pending) ((t, o, r) :: h)).
Proof.
  intros [Hd Hw Hp H1 H2] Ht Hl Hh H. simpl in *.
  destruct (op_simulated _ _ sp _ _ _ H) as ((sp' & Hs & Hd') & Hw' & Hk & He); try done.
  { by apply (Hp t). }
  { by apply describes_feed. }
  { by destruct Hw. }
  exists sp'. split; [done|]. split; simpl; try done.
  - intros t' o' [Hne Ht']%lookup_delete_Some. eapply promise_kept; [done|by apply Hp|done|..].
    + intros -> ->. by apply Hne, (H1 t t').
    + intros c -> ->. by apply Hne, (H2 t t' c).
  - intros t1 t2 [_ Ht1]%lookup_delete_Some [_ Ht2]%lookup_delete_Some. by apply H1.
  - intros t1 t2 c [_ Ht1]%lookup_delete_Some [_ Ht2]%lookup_delete_Some. by eapply H2.
Qed.

Lemma step_simulated sp s s' : sys_ok sp s -> step s s' -> simulates_step sp s s'.
Proof.
  intros Hok Hstep. destruct Hstep as [x pending h t o x' Ht Hc|x pending h t o x' e Ht Hc
    |x pending h t o script r x' Ht Hl Hh H|x pending h t o Ht Htl Hne Hl|x pending h t o Ht Htl Hne].
  - left. split; [done|]. by eapply start_simulated.
  - right. exists t, o, (inr e), sp. split; [done|].
    destruct Hok as [Hd Hw Hp H1 H2]. destruct (op_checked _ _ _ _ _ _ Hc Hd Hw) as [Hd' Hw' Hp' Hr _ _].
    split; [by constructor|]. split; try done. simpl. intros t' o' Ht'. by apply Hp', Hp.
  - right. destruct (run_simulated _ _ _ _ _ _ _ _ _ Hok Ht Hl Hh H) as (sp' & Hs & Hok').
    by exists t, o, r, sp'.
  - right. eexists t, o, _, sp. split; [done|]. split; [by constructor|]. by eapply sys_ok_delete.
  - right. eexists t, o, _, sp. split; [done|]. split; [by constructor|]. by eapply sys_ok_delete.
Qed.

Lemma new_ok : sys_ok (SpecIdle true) (System (new_transaction settings) ∅ []).
Proof.
  split; simpl; try done; [by split; try left|].
  split; simpl; try done; [set_solver|apply NoDup_nil_2].
Qed.

Lemma reachable_simulated s :
  reachable s -> exists sp, spec_run (SpecIdle true) (calls (sys_history s)) sp /\ sys_ok sp s.
Proof.
  induction 1 as [|s s' _ (sp & Hrun & Hok) Hstep].
  - exists (SpecIdle true). split; [constructor|apply new_ok].
  - destruct (step_simulated _ _ _ Hok Hstep) as [[Heq Hok']|(t & o & r & sp' & Heq & Hs & Hok')].
    + exists sp. by rewrite Heq.
    + exists sp'. split; [|done]. unfold calls in *. rewrite Heq. simpl. by econstructor.
Qed.

(** ** Public exceptions *)

Lemma refusal_public e : refusal e = true -> public e = true.
Proof. by destruct e. Qed.

Lemma query_end_public x a' r0 e x' : query_end x a' r0 (inr e) x' -> public e = true.
Proof. by inversion 1. Qed.

Lemma refused_public x e x' : refused_in x (inr e) x' -> public e = true.
Proof. intros [_ (e' & [= ->] & He)]. by apply refusal_public. Qed.

Lemma run_query_public m x e x' : run_query_operation m x = (inr e, x') -> public e = true.
Proof. intros (r0 & a' & _ & H)%run_query_cases. by eapply query_end_public. Qed.

Lemma nested_exit_public t c exc sp x e x' :
  nested_exit_body c exc x = (inr e, x') -> promise t (OpNestedExit c exc) x ->
  describes settings sp x -> well x -> Forall honest (ad_script (tx_adapter x)) -> public e = true.
Proof.
  intros H Hp Hd Hw Hh. destruct (nested_exit_run _ _ _ _ _ H) as (r1 & s1 & H1 & _ & Hr).
  pose proof (exit_control_cases _ _ _ _ _ _ _ _ H1 Hp Hd Hw Hh) as Hend.
  destruct r1 as [u|e1]; [by destruct (_ && _); simplify_eq|]. injection Hr as ->.
  by inversion Hend; subst; auto.
Qed.

Lemma op_public t o sp x e x' :
  op_body policy mode read_only isolation settings t o x = (inr e, x') ->
  is_enter o = false -> is_exit o = false -> promise t o x -> describes settings sp x -> well x ->
  Forall honest (ad_script (tx_adapter x)) -> public e = true.
Proof.
  intros H H1 H2 Hp Hd Hw Hh. destruct o as [|exc|c|c exc|p|s| |]; try done; simpl in H.
  - apply owner_then in H as [H|[_ H]]; [by eapply refused_public|].
    apply connection_then in H as [H|[Hu H]]; [by eapply refused_public|].
    destruct (usable_open _ _ _ Hd Hu) as (base & frames & ->).
    rewrite modify_then, get_then in H. apply bind_cases in H as [([] & s & _ & H)|(e1 & H & [= ->])]; [done|].
    destruct Hp as (_ & _ & Hni).
    pose proof (control_open _ _ _ _ _ _ _ H eq_refl (open_next _ _ _ _ _ Hd Hni) Hh) as Hend.
    by inversion Hend.
  - by eapply nested_exit_public.
  - apply owner_then in H as [H|[_ H]]; [by eapply refused_public|].
    apply connection_then in H as [H|[_ H]]; [by eapply refused_public|].
    destruct p as [s|]; [|done]. by eapply run_query_public.
  - apply owner_then in H as [H|[_ H]]; [by eapply refused_public|].
    apply connection_then in H as [H|[_ H]]; [by eapply refused_public|].
    apply bind_cases in H as [([] & y & _ & H)|(e1 & H & [= ->])]; [done|]. by eapply run_query_public.
  - apply stream_owner_then in H as [H|(_ & _ & H)]; [by eapply refused_public|]. by eapply run_query_public.
  - apply stream_owner_then in H as [H|(_ & _ & H)]; [by eapply refused_public|].
    apply finally_cases in H as (r1 & s1 & H & [[_ <-]|(y & H3 & _)]); [|by leaf_inv H3]. by eapply run_query_public.
Qed.

(** ** An unsafe connection *)

Definition quiet_sent (x x' : transaction) : Prop :=
  (exists l, ad_sent (tx_adapter x') = ad_sent (tx_adapter x) ++ l /\ Forall (eq Quiet) l) /\
  (tx_lease x' = tx_lease x \/ tx_lease x' = Discarded).

Lemma driver_sent c a r a' : driver c a = (r, a') -> ad_sent a' = ad_sent a ++ [c].
Proof.
  unfold driver. destruct a as [e o prev sent [|[|f eff] script]]; simpl;
    try destruct (engine_apply c e); by intros [= <- <-].
Qed.

Lemma quiet_none x x' :
  ad_sent (tx_adapter x') = ad_sent (tx_adapter x) -> tx_lease x' = tx_lease x -> quiet_sent x x'.
Proof. intros H Hl. split; [|by left]. exists []. by rewrite app_nil_r. Qed.

Lemma refused_quiet x r x' : refused_in x r x' -> quiet_sent x x'.
Proof. intros [-> _]. by apply quiet_none. Qed.

Lemma stream_quiet x r x' : run_query_operation (driver Quiet) x = (r, x') -> quiet_sent x x'.
Proof.
  intros (r0 & a' & H & Hend)%run_query_cases. apply driver_sent in H.
  assert (Hm : forall y, tx_adapter (mark_failed y) = tx_adapter y /\ tx_lease (mark_failed y) = tx_lease y).
  { intros y. unfold mark_failed. by destruct (nt_stack (tx_nest y)). }
  split.
  - exists [Quiet]. split; [|by constructor]. inversion Hend; subst; [done| |done].
    by rewrite (proj1 (Hm _)).
  - left. inversion Hend; subst; [done| |done]. by rewrite (proj2 (Hm _)).
Qed.

Lemma discard_quiet x r x' : runtime_discard x = (r, x') -> quiet_sent x x'.
Proof.
  unfold runtime_discard. intros H. rewrite modify_then in H.
  apply bind_cases in H as [([] & s & H1 & H)|(e & H1 & ->)];
    apply zoom_cases in H1 as (a' & H1 & ->); apply driver_sent in H1; [injection H as _ <-|];
    (split; [|by right]); exists [Quiet]; (split; [done|by constructor]).
Qed.

Lemma exit_control_unsafe c exc x r x' :
  exit_control c exc x = (r, x') -> lc_reusable (tx_life x) = false -> x' = x.
Proof.
  unfold exit_control, exit_commands. intros H Hu.
  apply except_cases in H as [(u & H & _)|(e & s & H & Hh)];
    rewrite get_then in H; cbv zeta in H; rewrite Hu in H; simpl in H; destruct exc; leaf_inv H; [done|].
  simpl in Hh. by leaf_inv Hh.
Qed.

Lemma unsafe_not_usable x : lc_reusable (tx_life x) = false -> usable_connection x -> False.
Proof. intros H (_ & _ & Hr & _). congruence. Qed.

(** Nothing but the end of an open cursor and the closing of the connection. *)
Lemma unsafe_quiet t o x r x' :
  op_body policy mode read_only isolation settings t o x = (r, x') -> is_enter o = false ->
  lc_reusable (tx_life x) = false -> quiet_sent x x'.
Proof.
  intros H H1 Hu. destruct o as [|exc|c|c exc|p|s| |]; try done; simpl in H.
  - apply owner_then in H as [H|[_ H]]; [by eapply refused_quiet|]. rewrite get_then in H.
    apply require_then in H as [H|[_ H]]; [by eapply refused_quiet| |done].
    unfold close_leased in H. rewrite get_then, !modify_then, Hu in H.
    destruct (nonempty (nt_stack (tx_nest x))); [|by apply discard_quiet in H].
    rewrite !modify_then in H. apply bind_cases in H as [([] & s & H2 & H)|(e & H2 & ->)];
      apply discard_quiet in H2; [|done]. apply require_cases in H as [-> _]. done.
  - apply owner_then in H as [H|[_ H]]; [by eapply refused_quiet|].
    apply connection_then in H as [H|[Huse _]]; [by eapply refused_quiet|].
    by destruct (unsafe_not_usable x).
  - destruct (nested_exit_run _ _ _ _ _ H) as (r1 & s1 & H2 & -> & _).
    rewrite (exit_control_unsafe _ _ _ _ _ H2 Hu). by apply quiet_none.
  - apply owner_then in H as [H|[_ H]]; [by eapply refused_quiet|].
    apply connection_then in H as [H|[Huse _]]; [by eapply refused_quiet|].
    by destruct (unsafe_not_usable x).
  - apply owner_then in H as [H|[_ H]]; [by eapply refused_quiet|].
    apply connection_then in H as [H|[Huse _]]; [by eapply refused_quiet|].
    by destruct (unsafe_not_usable x).
  - apply stream_owner_then in H as [H|(_ & _ & H)]; [by eapply refused_quiet|]. by eapply stream_quiet.
  - apply stream_owner_then in H as [H|(_ & _ & H)]; [by eapply refused_quiet|].
    apply finally_cases in H as (r1 & s1 & H & [[H3 _]|(y & H3 & _)]); [|done]. injection H3 as <-.
    by apply stream_quiet in H.
Qed.

(** ** Schedules

    An interleaving as data: a call begins, runs with some answers of the
    driver, or is cancelled while it waits. *)

Inductive move :=
  | Start (t : task) (o : op)
  | Run (t : task) (script : list answer).

Definition honest_move (m : move) : Prop :=
  match m with Run _ script => Forall honest script | _ => True end.

Definition exec_move (m : move) (s : system) : option system :=
  let '(System x pending history) := s in
  match m with
  | Start t o =>
      match pending !! t, op_check t o x with
      | None, (inl _, x') => Some (System x' (<[t := o]> pending) history)
      | None, (inr e, x') => Some (System x' pending ((t, o, inr e) :: history))
      | Some _, _ => None
      end
  | Run t script =>
      match pending !! t with
      | Some o =>
          if takes_lock o && negb (bool_decide (sm_lock (tx_stream x) = None)) then None
          else let '(r, x') := op_body policy mode read_only isolation settings t o (feed script x) in
               Some (System x' (delete t pending) ((t, o, r) :: history))
      | None => None
      end
  end.

Fixpoint exec (moves : list move) (s : system) : option system :=
  match moves with
  | [] => Some s
  | m :: moves' => match exec_move m s with Some s' => exec moves' s' | None => None end
  end.

Definition start : system := System (new_transaction settings) ∅ [].

Lemma start_step s t o x' :
  sys_pending s !! t = None -> op_check t o (sys_tx s) = (inl tt, x') ->
  step s (System x' (<[t := o]> (sys_pending s)) (sys_history s)).
Proof. destruct s. intros. by apply StepStart. Qed.

Lemma exec_move_step m s s' : exec_move m s = Some s' -> honest_move m -> step s s'.
Proof.
  destruct s as [x pending h]. intros H Hh. destruct m as [t o|t script]; simpl in H.
  - destruct (pending !! t) eqn:Ht; [done|]. destruct (op_check t o x) as [[[]|e] x'] eqn:Hc;
      injection H as <-; [by apply StepStart|by apply StepRefused].
  - destruct (pending !! t) as [o|] eqn:Ht; [|done].
    destruct (takes_lock o && _) eqn:Hl; [done|].
    destruct (op_body _ _ _ _ _ t o (feed script x)) as [r x'] eqn:Hb. injection H as <-.
    eapply StepRun; [done| |done|done]. intros Htl. rewrite Htl in Hl. simpl in Hl.
    by apply negb_false_iff, bool_decide_eq_true in Hl.
Qed.

Lemma exec_reachable moves s s' :
  exec moves s = Some s' -> Forall honest_move moves -> reachable s -> reachable s'.
Proof.
  revert s. induction moves as [|m moves IH]; intros s H Hh Hr; simpl in H; [by simplify_eq|].
  apply Forall_cons_1 in Hh as [Hm Hh]. destruct (exec_move m s) as [s1|] eqn:He; [|done].
  apply (IH s1); [done|done|]. eapply ReachStep; [done|]. by eapply exec_move_step.
Qed.

(** The system that a schedule reaches, [start] if it is not one. *)
Definition after (moves : list move) : system := default start (exec moves start).

Lemma after_reachable moves : Forall honest_move moves -> reachable (after moves).
Proof.
  intros Hh. unfold after. destruct (exec moves start) as [s|] eqn:He; simpl; [|constructor].
  eapply exec_reachable; [done|done|constructor].
Qed.

Lemma reachable_eta s :
  reachable s -> reachable (System (sys_tx s) (sys_pending s) (sys_history s)).
Proof. by destruct s. Qed.

(** ** A history decides what is committed *)

Definition replay_matches (h : list (op * (unit + failure))) (sp : tx_spec) : Prop :=
  match sp with
  | SpecOpen base frames => replay h = map fr_log frames ++ [base]
  | SpecDone Committed durable => replay h = [durable]
  | SpecDone Unknown durable => durable = [] \/ replay h = [durable]
  | SpecDone _ durable => durable = []
  | _ => True
  end.

Lemma replay_snoc h c : replay (h ++ [c]) = replay_call (replay h) c.
Proof. unfold replay. by rewrite foldl_app. Qed.

Lemma replay_refused st o e : refusal e = true -> replay_call st (o, inr e) = st.
Proof.
  intros He. destruct o; try done. simpl. rewrite bool_decide_eq_false_2; [done|]. by intros ->.
Qed.

Lemma replay_executed o s top rest :
  statement_of o = Some s -> replay_call (top :: rest) (o, inl tt) = (top ++ [s]) :: rest.
Proof. destruct o as [| | | |p| | |]; try done; simpl; [by intros ->|by intros [= ->]]. Qed.

Lemma spec_step_replay h sp c sp' :
  replay_matches h sp -> spec_step sp c sp' -> replay_matches (h ++ [c]) sp'.
Proof.
  intros Hm Hs. unfold replay_matches in *. rewrite replay_snoc.
  destruct Hs as [sp o e He|u|u u' e Hu|u e|base frames o s Ho Hh|base frames Hh|base f older o s Ho Hf
    |base frames o Ho|base frames c Hh Hc|base f older Hf|base f older|base f older Hf
    |base frames o e H1 H2|base frames c|o e H1|o Ho|c|exc r|base f older exc r Hr|base r
    |base r outcome durable Hev Hr]; try done.
  - by rewrite replay_refused.
  - by destruct u.
  - rewrite Hm. destruct frames as [|f older]; simpl; by apply replay_executed.
  - by destruct o.
  - rewrite <- Hm. by destruct o.
  - simpl. by rewrite Hm.
  - simpl. rewrite Hm. by destruct older.
  - simpl. rewrite Hm. by destruct older.
  - transitivity (tail (replay h)); [done|]. by rewrite Hm.
  - simpl in Hm. destruct outcome, r as [[]|]; simpl in *; try done; subst; auto; naive_solver.
Qed.

Lemma spec_run_replay u h sp : spec_run (SpecIdle u) h sp -> replay_matches h sp.
Proof.
  intros H. remember (SpecIdle u) as sp0 eqn:Hsp. induction H as [sp|sp h sp1 c sp2 _ IH Hs]; [by subst|].
  eapply spec_step_replay; [by apply IH|done].
Qed.

(** ** Closing and staying open *)

Definition is_entered (sp : tx_spec) : bool :=
  match sp with SpecOpen _ _ | SpecDoomed => true | _ => false end.

Lemma entered_described sp x :
  describes settings sp x -> is_entered sp = lc_connection (tx_life x).
Proof. destruct sp; simpl; intros H; [by destruct H|by destruct H as [[] _ _ _ _]|by destruct H|by destruct H]. Qed.

Lemma entered_leased sp x : describes settings sp x -> is_entered sp = true -> tx_lease x = Leased.
Proof. destruct sp; simpl; intros H ?; try done; [by destruct H as [[] _ _ _ _]|by destruct H]. Qed.

Lemma spec_step_entered sp o r sp' :
  spec_step sp (o, r) sp' -> is_entered sp = true -> is_exit o = false -> is_entered sp' = true.
Proof.
  intros H He Ho. inversion H; subst; try done.
  - by destruct frames.
  - by destruct older.
Qed.

(** An exit that failed before it took the connection owns the close forever. *)
Record leaked (s : system) : Prop := {
  lk_ok : exists sp, sys_ok sp s /\ is_entered sp = true;
  lk_close_task : lc_close_task (tx_life (sys_tx s)) = true;
  lk_pending t exc : sys_pending s !! t <> Some (OpExit exc)
}.

(** The first part of a call touches neither the connection nor the lease. *)
Definition check_frame (o : op) (x : transaction) (r : unit + failure) (x' : transaction) : Prop :=
  tx_adapter x' = tx_adapter x /\ tx_lease x' = tx_lease x /\
  (lc_close_task (tx_life x) = true ->
   lc_close_task (tx_life x') = true /\ (is_exit o = true -> r <> inl tt)).

Lemma op_check_frame t o x r x' : op_check t o x = (r, x') -> check_frame o x r x'.
Proof.
  intros H. destruct o as [|exc|c|c exc|p|s| |]; simpl in H.
  - unfold enter_check in H. rewrite get_then in H.
    apply require_then in H as [[-> _]|[_ H]]; [done| |done].
    apply require_then in H as [[-> _]|[_ H]]; [done| |done]. by injection H as <- <-.
  - unfold exit_check in H. apply owner_then in H as [[-> (e & -> & _)]|[_ H]]; [done|].
    rewrite get_then in H. apply require_then in H as [[-> (e & -> & _)]|[_ H]]; [done| |done].
    apply require_then in H as [[-> (e & -> & _)]|[Hct H]]; [done| |done]. injection H as <- <-.
    apply negb_true_iff in Hct. by split; [|split; [|rewrite Hct]].
  - unfold nested_enter_check in H. rewrite get_then in H. cbv zeta in H.
    apply require_then in H as [[-> _]|[_ H]]; [done| |done]. rewrite modify_then in H.
    unfold check_access in H. apply owner_then in H as [[-> _]|[_ H]]; [done|].
    rewrite get_then in H. by apply require_cases in H as [-> _].
  - unfold nested_exit_check in H. apply bind_cases in H as [([] & s & H1 & H)|(e & H1 & ->)];
      unfold check_access in H1; apply owner_then in H1 as [[-> (e0 & He0 & _)]|[_ H1]]; try done;
      rewrite get_then in H1; apply require_cases in H1 as [-> _]; [|done].
    rewrite get_then in H. destruct (negb _ || _).
    + apply connection_then in H as [[-> _]|[_ H]]; [done|]. by apply require_cases in H as [-> _].
    + rewrite ret_then in H. by apply require_cases in H as [-> _].
  - assert (H' : (_ ← check_nested_owner t; mret tt) x = (r, x')).
    { unfold mbind, eff_bind. rewrite H. by destruct r as [[]|]. }
    by apply owner_then in H' as [[-> _]|[_ [= _ <-]]].
  - assert (H' : (_ ← check_nested_owner t; mret tt) x = (r, x')).
    { unfold mbind, eff_bind. rewrite H. by destruct r as [[]|]. }
    by apply owner_then in H' as [[-> _]|[_ [= _ <-]]].
  - by injection H as _ <-.
  - by injection H as _ <-.
Qed.

Lemma leaked_step s s' : leaked s -> step s s' -> leaked s'.
Proof.
  intros [(sp & Hok & He) Hct Hpend] Hstep. pose proof (step_simulated _ _ _ Hok Hstep) as Hsim.
  assert (Hpending : forall t, sys_pending s' = delete t (sys_pending s) ->
    forall t' exc, sys_pending s' !! t' <> Some (OpExit exc)).
  { intros t Hs t' exc. rewrite Hs. intros [_ Ht']%lookup_delete_Some. by apply (Hpend t' exc). }
  destruct Hstep as [x pending h t o x' Ht Hc|x pending h t o x' e Ht Hc
    |x pending h t o script r x' Ht Hl Hh H|x pending h t o Ht Htl Hne Hl|x pending h t o Ht Htl Hne];
    simpl in *.
  - destruct (op_check_frame _ _ _ _ _ Hc) as (_ & _ & Hfr). destruct (Hfr Hct) as [Hct' Hex]. split; [|done|].
    + destruct Hsim as [[_ Hok']|(t1 & o1 & r1 & sp1 & Hh & _)]; [by exists sp|].
      exfalso. apply (f_equal length) in Hh. simpl in Hh. lia.
    + simpl. intros t' exc [[-> ->]|[_ Ht']]%lookup_insert_Some; [by apply Hex|by apply (Hpend t' exc)].
  - destruct (op_check_frame _ _ _ _ _ Hc) as (_ & _ & Hfr). destruct (Hfr Hct) as [Hct' _]. split; [|done|done].
    exists sp. split; [|done]. destruct Hok as [Hd Hw Hp H1 H2].
    destruct (op_checked _ _ _ _ _ _ Hc Hd Hw) as [Hd' Hw' Hp' _ _ _]. split; try done.
    simpl. intros t' o' Ht'. by apply Hp', Hp.
  - assert (Hex : is_exit o = false) by (destruct o; try done; by destruct (Hpend t exc)).
    destruct (run_simulated _ _ _ _ _ _ _ _ _ Hok Ht Hl Hh H) as (sp' & Hs & Hok').
    split.
    + exists sp'. split; [done|]. by eapply spec_step_entered.
    + simpl. destruct Hok as [Hd Hw Hp H1 H2]. simpl in *.
      destruct (op_simulated _ _ sp _ _ _ H) as (_ & _ & Hk & _); try done.
      { by apply (Hp t). }
      { by apply describes_feed. }
      { by destruct Hw. }
      by rewrite (ok_close_task _ _ _ _ Hk).
    + by eapply Hpending.
  - split; [|done|by eapply Hpending]. exists sp. split; [by eapply sys_ok_delete|done].
  - split; [|done|by eapply Hpending]. exists sp. split; [by eapply sys_ok_delete|done].
Qed.

(** ** Properties *)

(** C1: refinement: whatever the interleaving of the calls of any number of
    tasks, and whatever the driver answers, errors or cancels, the finished
    calls and their results are a run of the abstract transaction, and the
    concrete transaction is in a state that the abstract one describes. *)
Theorem transaction_refines s :
  reachable s ->
  exists sp, spec_run (SpecIdle true) (calls (sys_history s)) sp /\
    describes settings sp (sys_tx s) /\ well (sys_tx s).
Proof. intros (sp & Hrun & [Hd Hw _ _ _])%reachable_simulated. by exists sp. Qed.

(** C2: [commit_outcome] tells the truth, and only what is known: after
    [committed] exactly the statements of the calls that returned are durable,
    less those of nested contexts that were rolled back; after [unknown] all of
    them or none; otherwise none. *)
Theorem commit_outcome_truthful s :
  reachable s ->
  let durable := en_durable (ad_engine (tx_adapter (sys_tx s))) in
  let expected := replay (calls (sys_history s)) in
  match tx_outcome (sys_tx s) with
  | Committed => expected = [durable]
  | Unknown => durable = [] \/ expected = [durable]
  | Rejected | NotAttempted => durable = []
  end.
Proof.
  intros (sp & Hrun & [Hd _ _ _ _])%reachable_simulated. apply spec_run_replay in Hrun. cbv zeta.
  destruct sp as [u|base frames| |o d]; simpl in Hd.
  - destruct Hd as [_ _ _ _ _ -> ->]. done.
  - destruct Hd as [[_ _ _ _ _ -> ->] _ _ _ _]. done.
  - destruct Hd as [_ _ _ _ _ -> ->]. done.
  - destruct Hd as [_ _ _ _ _ _ -> ->]. by destruct o.
Qed.

(** C17: the connection is held exactly while the transaction is open, and it
    goes back to the pool only after the transaction is closed, with no
    database transaction open and every session setting as it was leased; in
    any other case it is discarded. *)
Theorem lease_discipline s :
  reachable s ->
  let x := sys_tx s in
  (lc_connection (tx_life x) = true <-> tx_lease x = Leased) /\
  (lc_closed (tx_life x) = true -> tx_lease x = Released \/ tx_lease x = Discarded) /\
  (tx_lease x = Released ->
   lc_closed (tx_life x) = true /\ en_open (ad_engine (tx_adapter x)) = None /\
   forall p, en_settings (ad_engine (tx_adapter x)) p = settings p).
Proof.
  intros (sp & _ & [Hd _ _ _ _])%reachable_simulated. cbv zeta.
  destruct sp as [u|base frames| |o d]; simpl in Hd.
  - destruct Hd as [-> -> _ _ [-> | ->] _ _]; by repeat split.
  - destruct Hd as [[-> _ -> _ -> _ _] _ _ _ _]. by repeat split.
  - destruct Hd as [-> _ -> _ -> _ _]. by repeat split.
  - destruct Hd as [-> _ -> _ Hl Hc _ _]. split; [by destruct Hl as [-> | ->]|]. split; [done|].
    intros Hr. destruct (Hc Hr). done.
Qed.

(** C18: once an operation has left the connection in doubt (a timeout, a
    cancellation, any failure but a recoverable constraint inside a nested
    context), no statement and no transaction control is sent on it any more,
    nothing becomes durable, and it is never handed back to the pool. *)
Theorem unsafe_is_final s s' :
  reachable s -> lc_connection (tx_life (sys_tx s)) = true ->
  lc_reusable (tx_life (sys_tx s)) = false -> step s s' ->
  quiet_sent (sys_tx s) (sys_tx s') /\ en_durable (ad_engine (tx_adapter (sys_tx s'))) = [] /\
  (lc_connection (tx_life (sys_tx s')) = true /\ lc_reusable (tx_life (sys_tx s')) = false \/
   tx_lease (sys_tx s') = Discarded).
Proof.
  intros (sp & _ & Hok)%reachable_simulated Hc Hu Hstep.
  assert (Hq : quiet_sent (sys_tx s) (sys_tx s')).
  { destruct Hstep as [x pending h t o x' Ht Hck|x pending h t o x' e Ht Hck
      |x pending h t o script r x' Ht Hl Hh H|x pending h t o _ _ _ _|x pending h t o _ _ _]; simpl in *.
    - destruct (op_check_frame _ _ _ _ _ Hck) as (Ha & Hle & _). apply quiet_none; [by rewrite Ha|done].
    - destruct (op_check_frame _ _ _ _ _ Hck) as (Ha & Hle & _). apply quiet_none; [by rewrite Ha|done].
    - apply (unsafe_quiet _ _ _ _ _ H); [|done]. destruct o; try done.
      destruct (wl_entering _ (so_well _ _ Hok) (so_promises _ _ Hok _ _ Ht)) as [Hcon _].
      simpl in Hcon. congruence.
    - by apply quiet_none.
    - by apply quiet_none. }
  split; [done|]. pose proof (so_described _ _ Hok) as Hd.
  assert (Hsp : sp = SpecDoomed).
  { destruct sp; simpl in Hd; [by destruct Hd; congruence|by destruct Hd as [[] _ _ _ _]; congruence|done|].
    destruct Hd; congruence. }
  subst sp. assert (Hnext : exists sp', sys_ok sp' s' /\ (sp' = SpecDoomed \/ sp' = SpecDone NotAttempted [])).
  { destruct (step_simulated _ _ _ Hok Hstep) as [[_ Hok']|(t & o & r & sp' & _ & Hs & Hok')].
    - exists SpecDoomed. by split; [|left].
    - exists sp'. split; [done|]. inversion Hs; by auto. }
  destruct Hnext as (sp' & [Hd' _ _ _ _] & [-> | ->]); simpl in Hd'.
  - destruct Hd' as [-> _ _ -> _ _ ->]. split; [done|by left].
  - destruct Hd as [_ _ _ _ Hle _ _], Hd' as [_ _ _ _ Hl' _ _ ->]. split; [done|right].
    destruct Hq as [_ [Heq|Heq]]; [|done]. rewrite Hle in Heq. by destruct Hl' as [Hl'|Hl']; [congruence|].
Qed.

(** C36: no error of the driver, no private marker and no deadline of AnyIO
    escapes a query, a stream or a nested context: a caller sees the library's
    own exceptions, or its cancellation. *)
Theorem only_public_errors s t o e :
  reachable s -> (t, o, inr e) ∈ sys_history s -> is_enter o = false -> is_exit o = false ->
  public e = true.
Proof.
  intros Hr Hin H1 H2. induction Hr as [|s s' Hr IH Hstep]; [by apply not_elem_of_nil in Hin|].
  destruct (reachable_simulated _ Hr) as (sp & _ & Hok).
  destruct Hstep as [x pending h t0 o0 x' Ht Hck|x pending h t0 o0 x' e0 Ht Hck
    |x pending h t0 o0 script r x' Ht Hl Hh H|x pending h t0 o0 _ _ _ _|x pending h t0 o0 _ _ _];
    simpl in *; [by apply IH| | | |];
    (apply elem_of_cons in Hin as [Heq|Hin]; [simplify_eq|by apply IH]); try done.
  - destruct Hok as [Hd Hw _ _ _]. by destruct (op_checked _ _ _ _ _ _ Hck Hd Hw) as [_ _ _ He%refusal_public _ _].
  - destruct Hok as [Hd Hw Hp _ _]. eapply op_public; [exact H|done|done| | |by destruct Hw|done].
    + by apply (Hp t0).
    + by apply describes_feed.
Qed.

(** an exit that finds the transaction open and its lock free always ends
    it: whatever the driver answers, the transaction is closed and its
    connection released or discarded. *)
Theorem exit_gives_back x pending h t exc script :
  reachable (System x pending h) -> pending !! t = Some (OpExit exc) ->
  sm_lock (tx_stream x) = None -> owned_by t x = true -> lc_connection (tx_life x) = true ->
  Forall honest script ->
  let x' := snd (op_body policy mode read_only isolation settings t (OpExit exc) (feed script x)) in
  lc_closed (tx_life x') = true /\ (tx_lease x' = Released \/ tx_lease x' = Discarded).
Proof.
  intros (sp & _ & [Hd Hw _ _ _])%reachable_simulated Ht Hl Ho Hc Hh. simpl in *.
  destruct (close_body t exc (feed script x)) as [r x'] eqn:H. simpl. unfold close_body in H.
  rewrite owner_pass, get_then, require_pass in H by done.
  destruct (close_simulated settings t _ sp _ _ _ H) as [((sp' & _ & Hd') & _) Hcl]; try done.
  { by apply describes_feed. }
  { by destruct Hw. }
  split; [done|]. destruct sp'; simpl in Hd'; [by destruct Hd'; congruence| | |by destruct Hd'].
  - by destruct Hd' as [[] _ _ _ _]; congruence.
  - by destruct Hd'; congruence.
Qed.
End system.

(** ** Concrete schedules *)

(** [db.transaction()] with its defaults, on connections with both settings off. *)
Definition default_settings : pragma -> bool := fun _ => false.
Definition default_after : list move -> system :=
  after DEFAULT_BUSY_RETRY_POLICY Deferred None None default_settings.
Definition default_reachable : system -> Prop :=
  sys_reachable DEFAULT_BUSY_RETRY_POLICY Deferred None None default_settings.

(** One task calls [o] and the call runs undisturbed. *)
Definition calling (t : task) (o : op) : list move := [Start t o; Run t []].

Lemma calling_honest t o : Forall honest_move (calling t o).
Proof. by repeat constructor. Qed.

(** A statement, another in a nested context that raises, a third one, commit. *)
Definition nested_rollback_schedule : list move :=
  calling 1 OpEnter ++ calling 1 (OpQuery (Some 10)) ++ calling 1 (OpNestedEnter 0) ++
  calling 1 (OpQuery (Some 11)) ++ calling 1 (OpNestedExit 0 true) ++
  calling 1 (OpQuery (Some 12)) ++ calling 1 (OpExit false).

(** A statement is cancelled by its deadline after SQLite rolled back. *)
Definition timeout_schedule : list move :=
  calling 1 OpEnter ++ [Start 1 (OpQuery (Some 10)); Run 1 [Fault FDeadline RolledBack]].

(** Task 1 waits for the lock to enter a nested context when task 2 leaves the
    transaction's block. *)
Definition leak_schedule : list move :=
  calling 2 OpEnter ++ [Start 1 (OpNestedEnter 0); Start 2 (OpExit false); Run 1 []; Run 2 []].

Lemma schedules_honest :
  Forall honest_move nested_rollback_schedule /\ Forall honest_move timeout_schedule /\
  Forall honest_move leak_schedule.
Proof. split; [|split]; repeat constructor. Qed.

Lemma transaction_refines_witness :
  let s := default_after nested_rollback_schedule in
  length (sys_history s) = 7 /\
  exists sp, spec_run (SpecIdle true) (calls (sys_history s)) sp /\
    describes default_settings sp (sys_tx s) /\ well (sys_tx s).
Proof.
  split; [reflexivity|].
  apply (transaction_refines DEFAULT_BUSY_RETRY_POLICY Deferred None None default_settings).
  apply after_reachable, schedules_honest.
Defined.

Lemma commit_outcome_truthful_witness :
  let s := default_after nested_rollback_schedule in
  tx_outcome (sys_tx s) = Committed /\ replay (calls (sys_history s)) = [[10; 12]] /\
  match tx_outcome (sys_tx s) with
  | Committed => replay (calls (sys_history s)) = [en_durable (ad_engine (tx_adapter (sys_tx s)))]
  | _ => False
  end.
Proof.
  split; [reflexivity|]. split; [reflexivity|].
  exact (commit_outcome_truthful DEFAULT_BUSY_RETRY_POLICY Deferred None None default_settings _
    (after_reachable _ _ _ _ _ _ (proj1 schedules_honest))).
Defined.

Lemma lease_discipline_witness :
  let x := sys_tx (default_after nested_rollback_schedule) in
  tx_lease x = Released /\ en_open (ad_engine (tx_adapter x)) = None.
Proof.
  assert (H : tx_lease (sys_tx (default_after nested_rollback_schedule)) = Released) by reflexivity.
  split; [exact H|].
  apply (lease_discipline DEFAULT_BUSY_RETRY_POLICY Deferred None None default_settings).
  - apply after_reachable, schedules_honest.
  - exact H.
Defined.

(** After the timeout the next query is refused and sends nothing. *)
Lemma unsafe_is_final_witness :
  let s := default_after timeout_schedule in
  lc_reusable (tx_life (sys_tx s)) = false /\
  exists s', quiet_sent (sys_tx s) (sys_tx s') /\ sys_pending s' !! 2%positive = Some (OpQuery (Some 11)).
Proof.
  split; [reflexivity|].
  exists (System (sys_tx (default_after timeout_schedule))
           (<[2%positive := OpQuery (Some 11)]> (sys_pending (default_after timeout_schedule)))
           (sys_history (default_after timeout_schedule))).
  split; [|reflexivity].
  apply (unsafe_is_final DEFAULT_BUSY_RETRY_POLICY Deferred None None default_settings).
  - apply after_reachable, schedules_honest.
  - reflexivity.
  - reflexivity.
  - apply start_step; [vm_compute; reflexivity|]. vm_compute. reflexivity.
Defined.

Lemma only_public_errors_witness :
  let s := default_after timeout_schedule in
  exists e, (1%positive, OpQuery (Some 10), inr e) ∈ sys_history s /\ public e = true.
Proof.
  exists operation_timeout.
  assert (H : (1%positive, OpQuery (Some 10), inr operation_timeout) ∈
              sys_history (default_after timeout_schedule)) by apply list_elem_of_here.
  split; [exact H|].
  apply (only_public_errors DEFAULT_BUSY_RETRY_POLICY Deferred None None default_settings _ _ _ _
    (after_reachable _ _ _ _ _ _ (proj1 (proj2 schedules_honest))) H); reflexivity.
Defined.

(** The rollback fails: the connection is discarded. *)
Lemma exit_gives_back_witness :
  let s := default_after (calling 1 OpEnter ++ [Start 1 (OpExit true)]) in
  let x' := snd (op_body DEFAULT_BUSY_RETRY_POLICY Deferred None None default_settings 1 (OpExit true)
                   (feed [Fault (FDriver (DriverFailure OperationalError None "disk I/O error")) NoChange]
                      (sys_tx s))) in
  tx_lease x' = Discarded /\
  lc_closed (tx_life x') = true /\ (tx_lease x' = Released \/ tx_lease x' = Discarded).
Proof.
  split; [reflexivity|].
  apply (exit_gives_back DEFAULT_BUSY_RETRY_POLICY Deferred None None default_settings _ 
    (sys_pending (default_after (calling 1 OpEnter ++ [Start 1 (OpExit true)])))
    (sys_history (default_after (calling 1 OpEnter ++ [Start 1 (OpExit true)])))).
  - apply reachable_eta, after_reachable. by repeat constructor.
  - vm_compute. reflexivity.
  - vm_compute. reflexivity.
  - vm_compute. reflexivity.
  - vm_compute. reflexivity.
  - by repeat constructor.
Defined.

(** an exit that waits for the lock while another task enters a nested
    context fails, and no later call can close the transaction: its connection
    is never given back. *)
Theorem failed_close_leaks :
  exists s, default_reachable s /\ sys_pending s = ∅ /\
    sys_history s !! 0 = Some (2%positive, OpExit false, inr (py TransactionStateError
      "nested transaction must be used by its owning task")) /\
    forall s', rtc (sys_step DEFAULT_BUSY_RETRY_POLICY Deferred None None default_settings) s s' ->
      tx_lease (sys_tx s') = Leased.
Proof.
  exists (default_after leak_schedule).
  assert (Hr : default_reachable (default_after leak_schedule))
    by apply after_reachable, schedules_honest.
  split; [done|]. split; [reflexivity|]. split; [reflexivity|].
  assert (Hl : leaked default_settings (default_after leak_schedule)).
  { destruct (reachable_simulated _ _ _ _ _ _ Hr) as (sp & _ & Hok). split; [|done|done].
    exists sp. split; [done|]. by rewrite (entered_described _ _ _ (so_described _ _ _ Hok)). }
  intros s' Hs. assert (Hl' : leaked default_settings s').
  { induction Hs as [|s s1 s2 Hstep _ IH]; [done|]. apply IH; [|by eapply leaked_step].
    by eapply ReachStep. }
  destruct Hl' as [(sp & [Hd _ _ _ _] & He) _ _]. by eapply entered_leased.
Qed.
