(* ===== verification/Calendar.v ===== *)
(** * Python's [datetime]: civil fields, instants and ISO text

    What [_temporal.py] and [storage.py] use of the standard library's
    [datetime]: the proleptic Gregorian calendar (years 1 to 9999), conversions
    between civil fields and a count of microseconds, [isoformat] with
    microseconds.  Instants are integers; no bound is left implicit. *)

From S2P Require Export Prelude.
From Stdlib Require Import Ascii.
Local Open Scope Z_scope.

Record civil := Civil {
  year : Z; month : Z; day : Z; hour : Z; minute : Z; second : Z; microsecond : Z }.
#[export] Instance civil_eq_dec : EqDecision civil.
Proof. solve_decision. Defined.

(** ** Dates and ordinals *)

Definition is_leap (y : Z) : bool :=
  (y mod 4 =? 0) && (negb (y mod 100 =? 0) || (y mod 400 =? 0)).

Definition leap_day (leap : bool) : Z := if leap then 1 else 0.

(** The length of a month, and the days before it in its year. *)
Definition days_in_month (leap : bool) (m : Z) : Z :=
  match m with
  | 2 => 28 + leap_day leap
  | 4 | 6 | 9 | 11 => 30
  | _ => 31
  end.
Definition days_before_month (leap : bool) (m : Z) : Z :=
  nth (Z.to_nat (m - 1)) [0; 31; 59; 90; 120; 151; 181; 212; 243; 273; 304; 334] 0
  + (if 2 <? m then leap_day leap else 0).
Definition days_before_year (y : Z) : Z :=
  let y := y - 1 in y * 365 + y / 4 - y / 100 + y / 400.

(** [date.toordinal()]: 1 January of year 1 is day 1. *)
Definition ymd2ord (y m d : Z) : Z := days_before_year y + days_before_month (is_leap y) m + d.

(** The month and day of the [n]-th day of a year, from 0. *)
Definition month_day (leap : bool) (n : Z) : Z * Z :=
  let m := Z.shiftr (n + 50) 5 in
  if n <? days_before_month leap m then (m - 1, n - days_before_month leap (m - 1) + 1)
  else (m, n - days_before_month leap m + 1).

(** [date.fromordinal(n)] *)
Definition ord2ymd (n : Z) : Z * Z * Z :=
  let n := n - 1 in
  let n400 := n / 146097 in let n := n mod 146097 in
  let n100 := n / 36524 in let n := n mod 36524 in
  let n4 := n / 1461 in let n := n mod 1461 in
  let n1 := n / 365 in let n := n mod 365 in
  let y := n400 * 400 + 1 + n100 * 100 + n4 * 4 + n1 in
  if (n1 =? 4) || (n100 =? 4) then (y - 1, 12, 31)
  else let leap := (n1 =? 3) && (negb (n4 =? 24) || (n100 =? 3)) in
       let '(m, d) := month_day leap n in (y, m, d).

(** ** Instants *)

Definition day_micros : Z := 86400 * 1000000.
Definition max_ordinal : Z := 3652059.

(** The microseconds from the first representable midnight to a civil time. *)
Definition micros_of (c : civil) : Z :=
  (ymd2ord (year c) (month c) (day c) - 1) * day_micros
  + ((hour c * 60 + minute c) * 60 + second c) * 1000000 + microsecond c.

Definition civil_of (t : Z) : civil :=
  let '(y, m, d) := ord2ymd (t / day_micros + 1) in
  let r := t mod day_micros in
  Civil y m d (r / 3600000000) (r / 60000000 mod 60) (r / 1000000 mod 60) (r mod 1000000).

(** The arguments [datetime(...)] accepts. *)
Definition valid_civil (c : civil) : bool :=
  (1 <=? year c) && (year c <=? 9999) && (1 <=? month c) && (month c <=? 12) &&
  (1 <=? day c) && (day c <=? days_in_month (is_leap (year c)) (month c)) &&
  (0 <=? hour c) && (hour c <=? 23) && (0 <=? minute c) && (minute c <=? 59) &&
  (0 <=? second c) && (second c <=? 59) && (0 <=? microsecond c) && (microsecond c <=? 999999).

Definition in_range (t : Z) : bool := (0 <=? t) && (t <? max_ordinal * day_micros).

(** ** Text *)

Definition digit (n : Z) : string := String (Ascii.ascii_of_N (Z.to_N (48 + n))) EmptyString.

(** [n] in decimal on [w] digits. *)
Fixpoint digits (w : nat) (n : Z) : string :=
  match w with O => EmptyString | S w => digits w (n / 10) +:+ digit (n mod 10) end.

(** [isoformat(sep, timespec="microseconds")] of a datetime without offset *)
Definition isoformat (sep : string) (c : civil) : string :=
  digits 4 (year c) +:+ "-" +:+ digits 2 (month c) +:+ "-" +:+ digits 2 (day c) +:+ sep +:+
  digits 2 (hour c) +:+ ":" +:+ digits 2 (minute c) +:+ ":" +:+ digits 2 (second c) +:+ "." +:+
  digits 6 (microsecond c).

Definition digit_value (c : Ascii.ascii) : option Z :=
  let n := Z.of_N (Ascii.N_of_ascii c) - 48 in
  if (0 <=? n) && (n <=? 9) then Some n else None.

(** [w] digits at the head of a text. *)
Fixpoint take_digits (w : nat) (acc : Z) (s : string) : option (Z * string) :=
  match w, s with
  | O, _ => Some (acc, s)
  | S w, String c s => d ← digit_value c; take_digits w (acc * 10 + d) s
  | S _, EmptyString => None
  end.

Definition take_char (c : Ascii.ascii) (s : string) : option string :=
  match s with
  | String c' s => if Ascii.eqb c c' then Some s else None
  | EmptyString => None
  end.

(** A civil time as [isoformat("T")] writes it, and what follows it. *)
Definition take_civil (s : string) : option (civil * string) :=
  '(y, s) ← take_digits 4 0 s; s ← take_char "-"%char s;
  '(m, s) ← take_digits 2 0 s; s ← take_char "-"%char s;
  '(d, s) ← take_digits 2 0 s; s ← take_char "T"%char s;
  '(h, s) ← take_digits 2 0 s; s ← take_char ":"%char s;
  '(mi, s) ← take_digits 2 0 s; s ← take_char ":"%char s;
  '(sec, s) ← take_digits 2 0 s; s ← take_char "."%char s;
  '(us, s) ← take_digits 6 0 s;
  Some (Civil y m d h mi sec us, s).

(** ** Ordinals and dates *)

Ltac div_lia := Z.to_euclidean_division_equations; lia.

(** The days of a year, checked one by one. *)
Definition month_day_ok (leap : bool) (n : Z) : bool :=
  let '(m, d) := month_day leap n in
  (1 <=? m) && (m <=? 12) && (1 <=? d) && (d <=? days_in_month leap m) &&
  (days_before_month leap m + d - 1 =? n).

Lemma month_days_checked :
  forallb (fun n => month_day_ok false (Z.of_nat n)) (seq 0 365) &&
  forallb (fun n => month_day_ok true (Z.of_nat n)) (seq 0 366) = true.
Proof. vm_compute. reflexivity. Qed.

Lemma month_day_spec leap n : 0 <= n < 365 + leap_day leap -> month_day_ok leap n = true.
Proof.
  intros Hn. pose proof month_days_checked as [H1 H2]%andb_true_iff.
  rewrite <- (Z2Nat.id n) by lia.
  destruct leap; [eapply (proj1 (forallb_forall _ _) H2)|eapply (proj1 (forallb_forall _ _) H1)];
    apply in_seq; unfold leap_day in Hn; lia.
Qed.

Lemma days_before_year_split a b c e :
  0 <= b <= 3 -> 0 <= c <= 24 -> 0 <= e <= 3 ->
  days_before_year (a * 400 + 1 + b * 100 + c * 4 + e) =
  a * 146097 + b * 36524 + c * 1461 + e * 365.
Proof. intros. unfold days_before_year. div_lia. Qed.

Lemma is_leap_split a b c e :
  0 <= b <= 3 -> 0 <= c <= 24 -> 0 <= e <= 3 ->
  is_leap (a * 400 + 1 + b * 100 + c * 4 + e) = (e =? 3) && (negb (c =? 24) || (b =? 3)).
Proof.
  intros. unfold is_leap.
  set (y := a * 400 + 1 + b * 100 + c * 4 + e).
  assert (H4 : y mod 4 = 0 <-> e = 3) by (unfold y; div_lia).
  assert (H100 : y mod 100 = 0 <-> e = 3 /\ c = 24) by (unfold y; div_lia).
  assert (H400 : y mod 400 = 0 <-> e = 3 /\ c = 24 /\ b = 3) by (unfold y; div_lia).
  destruct (Z.eqb_spec (y mod 4) 0), (Z.eqb_spec (y mod 100) 0), (Z.eqb_spec (y mod 400) 0),
    (Z.eqb_spec e 3), (Z.eqb_spec c 24), (Z.eqb_spec b 3); simpl; tauto || lia.
Qed.

Lemma year_length y : days_before_year (y + 1) = days_before_year y + 365 + leap_day (is_leap y).
Proof.
  unfold days_before_year, is_leap, leap_day.
  destruct (Z.eqb_spec (y mod 4) 0), (Z.eqb_spec (y mod 100) 0), (Z.eqb_spec (y mod 400) 0); simpl; div_lia.
Qed.

Definition valid_date (y m d : Z) : Prop :=
  1 <= y <= 9999 /\ 1 <= m <= 12 /\ 1 <= d <= days_in_month (is_leap y) m.

(** The last day of a leap year. *)
Lemma leap_year_end a b c :
  0 <= a -> 0 <= b <= 3 -> 0 <= c <= 24 -> a * 400 + 1 + b * 100 + c * 4 + 3 <= 9999 -> negb (c =? 24) || (b =? 3) = true ->
  valid_date (a * 400 + 1 + b * 100 + c * 4 + 3) 12 31 /\
  ymd2ord (a * 400 + 1 + b * 100 + c * 4 + 3) 12 31 =
    a * 146097 + b * 36524 + c * 1461 + 3 * 365 + 366.
Proof.
  intros Ha Hb Hc Hy Hl. unfold valid_date, ymd2ord.
  rewrite days_before_year_split, is_leap_split, Hl by lia. simpl. unfold days_before_month. simpl. lia.
Qed.

(** Every representable day has a date, and [toordinal] finds it again. *)
Lemma ord2ymd_spec n : 1 <= n <= max_ordinal ->
  let '(y, m, d) := ord2ymd n in valid_date y m d /\ ymd2ord y m d = n.
Proof.
  intros Hn. unfold ord2ymd, max_ordinal in *.
  set (k := n - 1). set (a := k / 146097). set (k1 := k mod 146097).
  set (b := k1 / 36524). set (k2 := k1 mod 36524). set (c := k2 / 1461). set (k3 := k2 mod 1461).
  set (e := k3 / 365). set (k4 := k3 mod 365). cbv zeta.
  assert (Hk : n = a * 146097 + b * 36524 + c * 1461 + e * 365 + k4 + 1 /\ 0 <= a <= 24 /\
               0 <= b <= 4 /\ 0 <= c <= 24 /\ 0 <= e <= 4 /\ 0 <= k4 < 365 /\
               (b = 4 -> c = 0 /\ e = 0 /\ k4 = 0) /\
               (e = 4 -> k4 = 0) /\ (e = 4 -> b <> 4 -> ~ (c = 24 /\ b <> 3))).
  { subst k4 e k3 c k2 b k1 a k. div_lia. }
  clearbody k4 e k3 c k2 b k1 a k. destruct Hk as (-> & Ha & Hb & Hc & He & Hk4 & Hb4 & He4 & Hl).
  destruct (Z.eqb_spec e 4) as [->|Hne]; [|destruct (Z.eqb_spec b 4) as [->|Hnb]]; simpl.
  - assert (Hb3 : b <> 4) by lia. specialize (Hl eq_refl Hb3). rewrite (He4 eq_refl).
    replace (a * 400 + 1 + b * 100 + c * 4 + 4 - 1) with (a * 400 + 1 + b * 100 + c * 4 + 3) by lia.
    destruct (leap_year_end a b c) as [Hv Ho]; [lia|lia|lia|lia| |split; [done|lia]].
    destruct (Z.eqb_spec c 24), (Z.eqb_spec b 3); simpl; tauto.
  - destruct (Hb4 eq_refl) as (-> & -> & ->).
    replace (a * 400 + 1 + 4 * 100 + 0 * 4 + 0 - 1) with (a * 400 + 1 + 3 * 100 + 24 * 4 + 3) by lia.
    destruct (leap_year_end a 3 24) as [Hv Ho]; [lia|lia|lia|lia|done|split; [done|lia]].
  - rewrite <- (is_leap_split a b c e) by lia.
    pose proof (month_day_spec (is_leap (a * 400 + 1 + b * 100 + c * 4 + e)) k4) as Hmd.
    unfold month_day_ok in Hmd. destruct (month_day _ k4) as [m d].
    specialize (Hmd ltac:(unfold leap_day; destruct (is_leap _); lia)).
    rewrite !andb_true_iff, !Z.leb_le, Z.eqb_eq in Hmd. unfold valid_date, ymd2ord.
    rewrite days_before_year_split by lia. split; [|lia]. split; [lia|]. split; lia.
Qed.

(** *** Dates and days are in the same order *)

(** A boolean check of every month. *)
Lemma months_check (P : bool -> Z -> bool) leap m :
  forallb (fun l => forallb (fun i => P l (Z.of_nat i)) (seq 1 12)) [false; true] = true ->
  1 <= m <= 12 -> P leap m = true.
Proof.
  intros H Hm. rewrite forallb_forall in H. specialize (H leap ltac:(destruct leap; simpl; auto)).
  rewrite forallb_forall in H. specialize (H (Z.to_nat m) ltac:(apply in_seq; lia)).
  by rewrite Z2Nat.id in H by lia.
Qed.

Lemma month_end leap m d m' d' : 1 <= m <= 12 -> 1 <= d <= days_in_month leap m ->
  1 <= m' <= 12 -> 1 <= d' <= days_in_month leap m' ->
  (m < m' \/ m = m' /\ d < d') -> days_before_month leap m + d < days_before_month leap m' + d'.
Proof.
  intros Hm Hd Hm' Hd' [H|[-> H]]; [|lia].
  pose proof (months_check (fun l i => (12 <=? i) ||
    (days_before_month l i + days_in_month l i =? days_before_month l (i + 1))) leap m eq_refl Hm) as H1.
  assert (Hmono : forall k, m + 1 + Z.of_nat k <= 12 ->
            days_before_month leap (m + 1) <= days_before_month leap (m + 1 + Z.of_nat k)).
  { induction k as [|k IH]; intros Hk; [rewrite Z.add_0_r; lia|].
    pose proof (months_check (fun l i => (12 <=? i) || (days_before_month l i <=? days_before_month l (i + 1)))
                  leap (m + 1 + Z.of_nat k) eq_refl ltac:(lia)) as Hs.
    apply orb_true_iff in Hs as [Hs%Z.leb_le|Hs%Z.leb_le]; [lia|].
    replace (m + 1 + Z.of_nat (S k)) with (m + 1 + Z.of_nat k + 1) by lia. specialize (IH ltac:(lia)). lia. }
  specialize (Hmono (Z.to_nat (m' - m - 1)) ltac:(lia)).
  replace (m + 1 + Z.of_nat (Z.to_nat (m' - m - 1))) with m' in Hmono by lia.
  apply orb_true_iff in H1 as [H1%Z.leb_le|H1%Z.eqb_eq]; lia.
Qed.

Lemma year_end y m d : valid_date y m d ->
  days_before_year y < ymd2ord y m d <= days_before_year (y + 1).
Proof.
  intros (Hy & Hm & Hd). rewrite year_length. unfold ymd2ord.
  assert (Hb : days_before_month (is_leap y) m + d <= 365 + leap_day (is_leap y) /\
               0 <= days_before_month (is_leap y) m).
  { pose proof (months_check (fun l i => (days_before_month l i + days_in_month l i <=? 365 + leap_day l)
                && (0 <=? days_before_month l i)) (is_leap y) m eq_refl Hm) as H.
    rewrite andb_true_iff, !Z.leb_le in H. lia. }
  lia.
Qed.

Lemma days_before_year_mono y y' : y < y' -> days_before_year (y + 1) <= days_before_year y'.
Proof. intros H. unfold days_before_year. div_lia. Qed.

Definition date_before (y m d y' m' d' : Z) : Prop :=
  y < y' \/ y = y' /\ (m < m' \/ m = m' /\ d < d').

Lemma ordinals_ordered y m d y' m' d' : valid_date y m d -> valid_date y' m' d' ->
  date_before y m d y' m' d' -> ymd2ord y m d < ymd2ord y' m' d'.
Proof.
  intros Hv Hv' [H|[-> H]].
  - pose proof (year_end _ _ _ Hv). pose proof (year_end _ _ _ Hv').
    pose proof (days_before_year_mono _ _ H). lia.
  - destruct Hv as (_ & Hm & Hd), Hv' as (_ & Hm' & Hd'). unfold ymd2ord.
    pose proof (month_end _ _ _ _ _ Hm Hd Hm' Hd' H). lia.
Qed.

Lemma ordinal_range y m d : valid_date y m d -> 1 <= ymd2ord y m d <= max_ordinal.
Proof.
  intros Hv. pose proof (year_end _ _ _ Hv) as H. destruct Hv as (Hy & _).
  pose proof (days_before_year_mono 0 y ltac:(lia)) as H1. change (0 + 1) with 1 in H1.
  assert (days_before_year (y + 1) <= days_before_year 10000).
  { destruct (decide (y = 9999)) as [->|]; [done|]. apply days_before_year_mono. lia. }
  change (days_before_year 1) with 0 in *. change (days_before_year 10000) with max_ordinal in *. lia.
Qed.

Lemma date_trichotomy y m d y' m' d' :
  date_before y m d y' m' d' \/ (y = y' /\ m = m' /\ d = d') \/ date_before y' m' d' y m d.
Proof. unfold date_before. lia. Qed.

(** ** Instants and civil times *)

Lemma valid_civil_iff c : valid_civil c = true <->
  valid_date (year c) (month c) (day c) /\ 0 <= hour c <= 23 /\ 0 <= minute c <= 59 /\
  0 <= second c <= 59 /\ 0 <= microsecond c <= 999999.
Proof. unfold valid_civil, valid_date. rewrite !andb_true_iff, !Z.leb_le. lia. Qed.

Lemma in_range_iff t : in_range t = true <-> 0 <= t < max_ordinal * day_micros.
Proof. unfold in_range. rewrite andb_true_iff, Z.leb_le, Z.ltb_lt. done. Qed.

(** The civil times are the instants of the range, one to one. *)
Lemma civil_of_spec t : in_range t = true -> valid_civil (civil_of t) = true /\ micros_of (civil_of t) = t.
Proof.
  rewrite in_range_iff, valid_civil_iff. unfold civil_of, day_micros. intros Ht.
  pose proof (ord2ymd_spec (t / (86400 * 1000000) + 1)) as Ho. unfold max_ordinal in *.
  destruct (ord2ymd _) as [[y m] d].
  destruct Ho as [Hv Hord]; [div_lia|]. unfold micros_of, day_micros. simpl. split.
  - split; [done|]. clear. div_lia.
  - rewrite Hord. clear. div_lia.
Qed.

Lemma micros_of_range c : valid_civil c = true -> in_range (micros_of c) = true.
Proof.
  rewrite in_range_iff, valid_civil_iff. intros (Hv & Ht). pose proof (ordinal_range _ _ _ Hv).
  unfold micros_of, day_micros, max_ordinal in *. lia.
Qed.

(** Lexicographic comparison of the fields. *)
Definition fields (c : civil) : list Z :=
  [year c; month c; day c; hour c; minute c; second c; microsecond c].

Fixpoint lex_compare (l l' : list Z) : comparison :=
  match l, l' with
  | x :: l, y :: l' => match x ?= y with Eq => lex_compare l l' | c => c end
  | [], [] => Eq
  | [], _ => Lt
  | _, [] => Gt
  end.

Lemma micros_before c c' : valid_civil c = true -> valid_civil c' = true ->
  date_before (year c) (month c) (day c) (year c') (month c') (day c') ->
  micros_of c < micros_of c'.
Proof.
  rewrite !valid_civil_iff. intros (Hv & Ht) (Hv' & Ht') H.
  pose proof (ordinals_ordered _ _ _ _ _ _ Hv Hv' H). unfold micros_of, day_micros. lia.
Qed.

(** Chronological order is the order of the fields, from the year down. *)
Lemma micros_compare c c' : valid_civil c = true -> valid_civil c' = true ->
  (micros_of c ?= micros_of c') = lex_compare (fields c) (fields c').
Proof.
  intros Hc Hc'.
  pose proof (micros_before c c' Hc Hc') as Hlt. pose proof (micros_before c' c Hc' Hc) as Hgt.
  unfold date_before in *. rewrite valid_civil_iff in Hc, Hc'. unfold fields. simpl.
  destruct (Z.compare_spec (year c) (year c')) as [Hy|Hy|Hy];
    [|apply Z.compare_lt_iff; apply Hlt; lia|apply Z.compare_gt_iff; apply Hgt; lia].
  destruct (Z.compare_spec (month c) (month c')) as [Hm|Hm|Hm];
    [|apply Z.compare_lt_iff; apply Hlt; lia|apply Z.compare_gt_iff; apply Hgt; lia].
  destruct (Z.compare_spec (day c) (day c')) as [Hd|Hd|Hd];
    [|apply Z.compare_lt_iff; apply Hlt; lia|apply Z.compare_gt_iff; apply Hgt; lia].
  clear Hlt Hgt. destruct Hc as (_ & Hc), Hc' as (_ & Hc'). unfold micros_of. rewrite Hy, Hm, Hd.
  destruct (Z.compare_spec (hour c) (hour c')) as [Hh|Hh|Hh];
    [|apply Z.compare_lt_iff; lia|apply Z.compare_gt_iff; lia].
  destruct (Z.compare_spec (minute c) (minute c')) as [Hmi|Hmi|Hmi];
    [|apply Z.compare_lt_iff; lia|apply Z.compare_gt_iff; lia].
  destruct (Z.compare_spec (second c) (second c')) as [Hs|Hs|Hs];
    [|apply Z.compare_lt_iff; lia|apply Z.compare_gt_iff; lia].
  destruct (Z.compare_spec (microsecond c) (microsecond c')) as [Hu|Hu|Hu];
    [apply Z.compare_eq_iff|apply Z.compare_lt_iff|apply Z.compare_gt_iff]; lia.
Qed.

Lemma lex_compare_eq l l' : lex_compare l l' = Eq -> l = l'.
Proof.
  revert l'. induction l as [|x l IH]; intros [|y l']; simpl; try done.
  destruct (Z.compare_spec x y); [|done|done]. subst. intros H. f_equal. by apply IH.
Qed.

Lemma micros_of_inj c c' : valid_civil c = true -> valid_civil c' = true ->
  micros_of c = micros_of c' -> c = c'.
Proof.
  intros Hc Hc' H. assert (Hf : fields c = fields c').
  { apply lex_compare_eq. rewrite <- micros_compare by done. by apply Z.compare_eq_iff. }
  destruct c, c'. unfold fields in Hf. simpl in Hf. congruence.
Qed.

Lemma civil_of_micros c : valid_civil c = true -> civil_of (micros_of c) = c.
Proof.
  intros Hc. destruct (civil_of_spec _ (micros_of_range _ Hc)) as [Hv Hm]. by apply micros_of_inj.
Qed.

(** ** Fixed-width digits *)

Lemma digit_value_digit n : 0 <= n <= 9 ->
  digit_value (Ascii.ascii_of_N (Z.to_N (48 + n))) = Some n.
Proof.
  intros Hn. unfold digit_value. rewrite Ascii.N_ascii_embedding by lia. rewrite Z2N.id by lia.
  replace (48 + n - 48) with n by lia.
  destruct (Z.leb_spec 0 n); [|lia]. by destruct (Z.leb_spec n 9); [|lia].
Qed.

Lemma string_length_digits w n : String.length (digits w n) = w.
Proof.
  revert n. induction w as [|w IH]; intros n; [done|]. simpl. rewrite string_length_app, IH. simpl. lia.
Qed.

Lemma take_digits_add w v acc s :
  take_digits (w + v) acc s = '(n, s) ← take_digits w acc s; take_digits v n s.
Proof.
  revert acc s. induction w as [|w IH]; intros acc s; [done|]. simpl.
  destruct s as [|c s]; [done|]. destruct (digit_value c); simpl; [apply IH|done].
Qed.

Lemma take_digits_exact w acc n rest :
  0 <= n < 10 ^ Z.of_nat w ->
  take_digits w acc (digits w n +:+ rest) = Some (acc * 10 ^ Z.of_nat w + n, rest).
Proof.
  revert acc n rest. induction w as [|w IH]; intros acc n rest Hn.
  - simpl. change (10 ^ Z.of_nat 0) with 1 in *. repeat f_equal. lia.
  - rewrite Nat2Z.inj_succ, Z.pow_succ_r in Hn |- * by lia.
    replace (S w) with (w + 1)%nat by lia. rewrite take_digits_add.
    replace (w + 1)%nat with (S w) by lia. simpl. rewrite string_app_assoc.
    rewrite IH by div_lia. cbn [mbind option_bind]. cbn [digit]. unfold digit. rewrite string_app_cons.
    cbn [take_digits]. rewrite digit_value_digit by div_lia. cbn [mbind option_bind].
    rewrite string_app_nil_l. do 2 f_equal. div_lia.
Qed.

(** *** Texts in order *)

Lemma compare_app a b x y : String.length a = String.length b ->
  String.compare (a +:+ x) (b +:+ y) =
  match String.compare a b with Eq => String.compare x y | c => c end.
Proof.
  revert b. induction a as [|c a IH]; intros [|c' b] H; try discriminate; [done|].
  simpl in H. rewrite !string_app_cons. simpl. rewrite IH by lia. by destruct (Ascii.compare c c').
Qed.

Lemma compare_refl s : String.compare s s = Eq.
Proof.
  induction s as [|c s IH]; [done|]. simpl. unfold Ascii.compare. by rewrite N.compare_refl.
Qed.

Lemma compare_digit n n' : 0 <= n <= 9 -> 0 <= n' <= 9 ->
  String.compare (digit n) (digit n') = (n ?= n').
Proof.
  intros Hn Hn'. unfold digit. simpl. unfold Ascii.compare.
  rewrite !Ascii.N_ascii_embedding by lia. rewrite <- N2Z.inj_compare, !Z2N.id by lia.
  replace (48 + n ?= 48 + n') with (n ?= n').
  - by destruct (n ?= n').
  - by rewrite Zcompare_plus_compat.
Qed.

(** Numbers written on as many digits are ordered as their texts. *)
Lemma compare_digits w n n' : 0 <= n < 10 ^ Z.of_nat w -> 0 <= n' < 10 ^ Z.of_nat w ->
  String.compare (digits w n) (digits w n') = (n ?= n').
Proof.
  revert n n'. induction w as [|w IH]; intros n n' Hn Hn'.
  - change (10 ^ Z.of_nat 0) with 1 in *. simpl. symmetry. apply Z.compare_eq_iff. lia.
  - rewrite Nat2Z.inj_succ, Z.pow_succ_r in Hn, Hn' by lia. simpl.
    rewrite compare_app by by rewrite !string_length_digits.
    rewrite IH by div_lia. rewrite compare_digit by div_lia.
    destruct (Z.compare_spec (n / 10) (n' / 10)) as [H|H|H]; symmetry.
    + destruct (Z.compare_spec (n mod 10) (n' mod 10)) as [H'|H'|H'];
        [apply Z.compare_eq_iff|apply Z.compare_lt_iff|apply Z.compare_gt_iff]; div_lia.
    + apply Z.compare_lt_iff. div_lia.
    + apply Z.compare_gt_iff. div_lia.
Qed.

(** A field and a separator that both texts share. *)
Lemma compare_field w n n' sep x y : 0 <= n < 10 ^ Z.of_nat w -> 0 <= n' < 10 ^ Z.of_nat w ->
  String.compare (digits w n +:+ sep +:+ x) (digits w n' +:+ sep +:+ y) =
  match n ?= n' with Eq => String.compare x y | c => c end.
Proof.
  intros Hn Hn'. rewrite compare_app by by rewrite !string_length_digits.
  rewrite compare_digits by done. destruct (n ?= n'); [|done|done].
  by rewrite compare_app, compare_refl.
Qed.

Lemma days_in_month_bound leap m : days_in_month leap m <= 31.
Proof. unfold days_in_month. destruct leap; repeat case_match; simpl; lia. Qed.

(** Every field fits the digits it is written on. *)
Lemma fields_fit c : valid_civil c = true ->
  0 <= year c < 10 ^ 4 /\ 0 <= month c < 10 ^ 2 /\ 0 <= day c < 10 ^ 2 /\ 0 <= hour c < 10 ^ 2 /\
  0 <= minute c < 10 ^ 2 /\ 0 <= second c < 10 ^ 2 /\ 0 <= microsecond c < 10 ^ 6.
Proof.
  rewrite valid_civil_iff. intros ((Hy & Hm & Hd) & Ht).
  pose proof (days_in_month_bound (is_leap (year c)) (month c)). lia.
Qed.

Lemma isoformat_compare sep suffix c c' : valid_civil c = true -> valid_civil c' = true ->
  String.compare (isoformat sep c +:+ suffix) (isoformat sep c' +:+ suffix) =
  (micros_of c ?= micros_of c').
Proof.
  intros Hc Hc'. rewrite micros_compare by done.
  apply fields_fit in Hc as (H1 & H2 & H3 & H4 & H5 & H6 & H7).
  apply fields_fit in Hc' as (H1' & H2' & H3' & H4' & H5' & H6' & H7').
  unfold isoformat. rewrite !string_app_assoc. rewrite !compare_field by done.
  rewrite compare_app by by rewrite !string_length_digits.
  rewrite compare_digits, compare_refl by done. done.
Qed.

(** What [isoformat] writes is read back. *)
Lemma take_civil_isoformat c rest : valid_civil c = true ->
  take_civil (isoformat "T" c +:+ rest) = Some (c, rest).
Proof.
  intros Hc. apply fields_fit in Hc as (H1 & H2 & H3 & H4 & H5 & H6 & H7).
  unfold take_civil, isoformat. rewrite !string_app_assoc.
  repeat (rewrite take_digits_exact by done; cbn [mbind option_bind];
          rewrite ?string_app_cons, ?string_app_nil_l; cbn [take_char];
          rewrite ?Ascii.eqb_refl; cbn [mbind option_bind]).
  by destruct c.
Qed.

#[global] Arguments digits : simpl never.
#[global] Arguments isoformat : simpl never.
#[global] Arguments civil_of : simpl never.
#[global] Arguments micros_of : simpl never.
#[global] Arguments valid_civil : simpl never.
#[global] Arguments in_range : simpl never.
#[global] Arguments take_civil : simpl never.
