(* ===== verification/Temporal.v ===== *)
(** * Temporal values

    [_temporal.py]: UTC instants, civil datetimes and zoned datetimes, with
    their canonical texts. *)

From S2P Require Export SqlText Calendar.
From Stdlib Require Import Ascii DecimalString DecimalZ.
Local Open Scope Z_scope.

(** ** Python's [datetime] objects

    A [tzinfo] is a fixed offset (in microseconds), an IANA zone or any other
    object.  The zone database and foreign [tzinfo] classes are parameters:
    [zone_offset] and [foreign_offset] are [utcoffset], [zone_fromutc] is
    [fromutc] with the fold it sets. *)

Section temporal.
Context {zone : Type} (zone_key : zone -> option string)
  (zone_offset : zone -> civil -> bool -> Z) (zone_fromutc : zone -> civil -> res (civil * bool))
  (foreign_offset : positive -> civil -> bool -> option Z).

Inductive tzinfo := TzNone | TzFixed (offset : Z) | TzZone (z : zone) | TzForeign (id : positive).

Record datetime := Datetime { dt_civil : civil; dt_fold : bool; dt_tz : tzinfo }.

Definition naive (c : civil) : datetime := Datetime c false TzNone.
Definition utc (c : civil) : datetime := Datetime c false (TzFixed 0).

Definition utcoffset (d : datetime) : option Z :=
  match dt_tz d with
  | TzNone => None
  | TzFixed o => Some o
  | TzZone z => Some (zone_offset z (dt_civil d) (dt_fold d))
  | TzForeign i => foreign_offset i (dt_civil d) (dt_fold d)
  end.

(** [civil - offset], with the range of [datetime] arithmetic. *)
Definition shift_civil (c : civil) (micros : Z) : res civil :=
  let t := micros_of c + micros in
  if in_range t then Ok (civil_of t) else raise OverflowError "date value out of range".

(** [d.astimezone(UTC)], for an aware [d]. *)
Definition astimezone_utc (d : datetime) (offset : Z) : res civil := shift_civil (dt_civil d) (- offset).

(** The instant of an aware datetime. *)
Definition instant (d : datetime) : option Z :=
  o ← utcoffset d; Some (micros_of (dt_civil d) - o).

(** ISO text in the grammar of [fromisoformat] other than civil time with
    microseconds and no offset or the UTC one: [other_iso] reads it. *)
Context (other_iso : string -> res datetime).

Definition fromisoformat (text : string) : res datetime :=
  match take_civil text with
  | Some (c, EmptyString) => if valid_civil c then Ok (naive c) else other_iso text
  | Some (c, "Z") | Some (c, "+00:00") => if valid_civil c then Ok (utc c) else other_iso text
  | _ => other_iso text
  end.

(** [except (ValueError, OverflowError) as e: raise DatetimeError(msg)]; a
    [DatetimeError] is a [ValueError]. *)
Definition as_datetime_error {A} (msg : string) (r : res A) : res A :=
  match r with
  | Ok a => Ok a
  | Raise e => if decide (exn_class e ∈ [ValueError; OverflowError; DatetimeError; ZonedDatetimeError])
               then raise DatetimeError msg else Raise e
  end.

(** ** [UtcDatetime]

    A value is its UTC civil time.  [None] is an object that is no datetime. *)

Definition utc_datetime (v : option datetime) : res civil :=
  match v with
  | None => raise DatetimeError "UtcDatetime requires an aware datetime"
  | Some d =>
      match utcoffset d with
      | None => raise DatetimeError "UtcDatetime requires an aware datetime"
      | Some o => as_datetime_error "UtcDatetime requires a representable UTC instant"
                    (astimezone_utc d o)
      end
  end.

(** [UtcDatetime._serialize]: [isoformat] ends in [+00:00], which gives way to [Z]. *)
Definition utc_serialize (c : civil) : string := isoformat "T" c +:+ "Z".

(** [UtcDatetime._from_wire] *)
Definition utc_from_wire (value : string) : res civil :=
  c ← as_datetime_error "invalid UtcDatetime canonical text"
        (d ← fromisoformat value; utc_datetime (Some d));
  _ ← guardR (String.eqb (utc_serialize c) value) DatetimeError
        "noncanonical UtcDatetime text; migrate the stored representation";
  Ok c.

(** ** [LocalDatetime] *)

Definition local_datetime (v : option datetime) : res civil :=
  match v with
  | Some (Datetime c false TzNone) => Ok c
  | _ => raise DatetimeError "LocalDatetime requires timezone-free civil fields without a fold"
  end.

Definition local_serialize (c : civil) : string := isoformat "T" c.

(** [LocalDatetime._from_wire] *)
Definition local_from_wire (value : string) : res civil :=
  c ← as_datetime_error "invalid LocalDatetime canonical text"
        (d ← fromisoformat value; local_datetime (Some d));
  _ ← guardR (String.eqb (local_serialize c) value) DatetimeError
        "noncanonical LocalDatetime text; migrate the stored representation";
  Ok c.

(** ** [ZonedDatetime] *)

(** The constructor: the datetime itself, when it is accepted. *)
Definition zoned_datetime (v : option datetime) : res datetime :=
  match v with
  | None => raise ZonedDatetimeError "ZonedDatetime requires an aware datetime"
  | Some d =>
      match utcoffset d with
      | None => raise ZonedDatetimeError "ZonedDatetime requires an aware datetime"
      | Some o =>
          match dt_tz d with
          | TzFixed _ =>
              match astimezone_utc d o with
              | Ok _ => Ok d
              | Raise _ => raise ZonedDatetimeError
                             "ZonedDatetime requires an instant within the UTC datetime range"
              end
          | TzZone z =>
              match astimezone_utc d o with
              | Raise _ => raise ZonedDatetimeError
                             "ZonedDatetime requires an instant within the UTC datetime range"
              | Ok instant =>
                  _ ← guardR (match zone_key z with Some (String _ _) => true | _ => false end)
                        ZonedDatetimeError "ZonedDatetime requires an IANA zone with a persistent key";
                  '(c, fold) ← zone_fromutc z instant;
                  _ ← guardR (bool_decide (c = dt_civil d) && Bool.eqb fold (dt_fold d))
                        ZonedDatetimeError "ZonedDatetime requires an existing IANA civil time and fold";
                  Ok d
              end
          | _ => raise ZonedDatetimeError "ZonedDatetime requires an IANA zone or fixed UTC offset"
          end
      end
  end.

(** [_zoned_timezone_identity] *)
Inductive timezone_identity := IdIana (key : option string) | IdOffset (offset : option Z).
#[local] Instance timezone_identity_eq_dec : EqDecision timezone_identity.
Proof. solve_decision. Defined.
Definition zoned_timezone_identity (d : datetime) : timezone_identity :=
  match dt_tz d with
  | TzZone z => IdIana (zone_key z)
  | _ => IdOffset (utcoffset d)
  end.

(** [ZonedDatetime.__eq__] *)
Definition zoned_eq (d d' : datetime) : bool :=
  bool_decide (instant d = instant d') &&
  bool_decide (zoned_timezone_identity d = zoned_timezone_identity d').

(** *** JSON text

    [json.dumps] of ASCII text without quotes, backslashes or control
    characters is the text between quotes; [json_escape] writes any other text.
    [other_json] is [json.loads] of a text that is not written that way. *)

Inductive json := JInt (z : Z) | JStr (s : string) | JOther.

Context (json_escape : string -> string) (other_json : string -> res (option (list json))).

Definition plain_char (c : ascii) : bool :=
  let n := N_of_ascii c in
  (32 <=? n)%N && (n <=? 126)%N && negb (Ascii.eqb c c_dquote) && negb (Ascii.eqb c (ascii_of_nat 92)).
Fixpoint plain (s : string) : bool :=
  match s with EmptyString => true | String c s => plain_char c && plain s end.

Definition dquote : string := String c_dquote EmptyString.
Definition json_string (s : string) : string :=
  if plain s then dquote +:+ s +:+ dquote else json_escape s.
Definition json_int (z : Z) : string := NilZero.string_of_int (Z.to_int z).

(** [dumps([1, instant, kind, value], ensure_ascii=True, separators=(",", ":"))] *)
Definition zoned_text (instant_text kind value : string) : string :=
  "[1," +:+ json_string instant_text +:+ "," +:+ json_string kind +:+ "," +:+ value +:+ "]".

(** The text up to a character, and after it. *)
Fixpoint until (stop : ascii) (s : string) : option (string * string) :=
  match s with
  | EmptyString => None
  | String c s => if Ascii.eqb c stop then Some (EmptyString, s)
                  else '(head, rest) ← until stop s; Some (String c head, rest)
  end.

Definition read_string (s : string) : option (string * string) :=
  s ← take_char c_dquote s; '(text, rest) ← until c_dquote s;
  if plain text then Some (text, rest) else None.

(** The last item of an array, and its end. *)
Definition read_last (s : string) : option json :=
  match read_string s with
  | Some (text, "]") => Some (JStr text)
  | Some _ => None
  | None =>
      '(text, rest) ← until "]" s;
      match NilZero.int_of_string text, rest with
      | Some i, EmptyString => let z := Z.of_int i in
                               if String.eqb (json_int z) text then Some (JInt z) else None
      | _, _ => None
      end
  end.

Definition read_zoned (s : string) : option (list json) :=
  s ← take_char "[" s; s ← take_char "1" s; s ← take_char "," s;
  '(instant_text, s) ← read_string s; s ← take_char "," s;
  '(kind, s) ← read_string s; s ← take_char "," s;
  value ← read_last s;
  Some [JInt 1; JStr instant_text; JStr kind; value].

(** [json.loads]; [None] is a value that is not a list. *)
Definition json_loads (text : string) : res (option (list json)) :=
  match read_zoned text with Some l => Ok (Some l) | None => other_json text end.

(** *** Canonical text of a zoned datetime *)

(** [ZonedDatetime._serialize] *)
Definition zoned_serialize (d : datetime) : res string :=
  match utcoffset d with
  | None => raise ZonedDatetimeError "ZonedDatetime lost its fixed UTC offset"
  | Some o =>
      c ← astimezone_utc d o;
      match dt_tz d with
      | TzZone z => Ok (zoned_text (utc_serialize c) "iana" (json_string (default EmptyString (zone_key z))))
      | _ => Ok (zoned_text (utc_serialize c) "offset" (json_int o))
      end
  end.

(** [ZoneInfo(key)] *)
Context (zone_named : string -> res zone).

(** [timezone(timedelta(microseconds=offset))] *)
Definition fixed_timezone (offset : Z) : res tzinfo :=
  if (- day_micros <? offset) && (offset <? day_micros) then Ok (TzFixed offset)
  else raise ValueError "offset must be a timedelta strictly between -24 and 24 hours".

(** [instant.astimezone(tz)], for a UTC instant. *)
Definition from_utc (c : civil) (tz : tzinfo) : res datetime :=
  match tz with
  | TzFixed o => c' ← shift_civil c o; Ok (Datetime c' false tz)
  | TzZone z => '(c', fold) ← zone_fromutc z c; Ok (Datetime c' fold tz)
  | _ => raise TypeError "tz argument must be an instance of tzinfo"
  end.

(** [text.removesuffix("Z")], for a text that ends in [Z]. *)
Fixpoint strip_z (text : string) : option string :=
  match text with
  | EmptyString => None
  | String c EmptyString => if Ascii.eqb c "Z" then Some EmptyString else None
  | String c s => s ← strip_z s; Some (String c s)
  end.

(** The four items of a payload.  An item that is neither text nor an integer is
    refused at once: whatever it equals, the text would not be the canonical one. *)
Definition zoned_fields (payload : option (list json)) : res (string * string * json) :=
  match payload with
  | None => raise TypeError "payload is not a list"
  | Some [JInt 1; JStr instant_text; JStr kind; value] => Ok (instant_text, kind, value)
  | Some _ => raise ValueError "payload"
  end.

Definition payload_timezone (kind : string) (value : json) : res tzinfo :=
  match value with
  | JStr key => if String.eqb kind "iana" then z ← zone_named key; Ok (TzZone z)
                else raise ValueError "timezone"
  | JInt offset => if String.eqb kind "offset" then fixed_timezone offset
                   else raise ValueError "timezone"
  | JOther => raise ValueError "timezone"
  end.

(** The body of [ZonedDatetime._from_wire]. *)
Definition zoned_parse (value : string) : res datetime :=
  payload ← json_loads value;
  '(instant_text, kind, item) ← zoned_fields payload;
  civil_text ← match strip_z instant_text with
               | Some t => Ok t
               | None => raise ValueError "instant"
               end;
  instant ← fromisoformat (civil_text +:+ "+00:00");
  tz ← payload_timezone kind item;
  d ← match utcoffset instant with
      | Some o => c ← astimezone_utc instant o; from_utc c tz
      | None => raise ValueError "the text carries an offset"
      end;
  result ← zoned_datetime (Some d);
  text ← zoned_serialize result;
  _ ← guardR (String.eqb text value) ValueError "noncanonical";
  Ok result.

(** [ZonedDatetime._from_wire] *)
Definition zoned_from_wire (value : string) : res datetime :=
  match zoned_parse value with
  | Ok d => Ok d
  | Raise e => if decide (exn_class e ∈ [ValueError; OverflowError; TypeError; KeyError;
                                          DatetimeError; ZonedDatetimeError])
               then raise ValueError "invalid ZonedDatetime canonical text" else Raise e
  end.

(** ** The canonical texts *)

Lemma shift_civil_valid c m c' : shift_civil c m = Ok c' ->
  valid_civil c' = true /\ micros_of c' = micros_of c + m.
Proof. unfold shift_civil. destruct (in_range _) eqn:Hr; [|done]. intros [= <-]. by apply civil_of_spec. Qed.

Lemma as_datetime_error_Ok {A} msg (r : res A) x : as_datetime_error msg r = Ok x <-> r = Ok x.
Proof. destruct r as [a|e]; simpl; [done|]. by case_decide. Qed.

(** What the constructor keeps: the instant, at UTC. *)
Lemma utc_datetime_instant v c : utc_datetime v = Ok c ->
  exists d, v = Some d /\ valid_civil c = true /\ instant d = Some (micros_of c).
Proof.
  destruct v as [d|]; [|done]. simpl. destruct (utcoffset d) as [o|] eqn:Ho; [|done].
  intros H%as_datetime_error_Ok%shift_civil_valid. exists d. destruct H as [Hv Hm].
  repeat split; [done|]. unfold instant. rewrite Ho, Hm. done.
Qed.

Lemma fromisoformat_utc c : valid_civil c = true -> fromisoformat (utc_serialize c) = Ok (utc c).
Proof.
  intros Hc. unfold fromisoformat, utc_serialize. rewrite take_civil_isoformat by done. by rewrite Hc.
Qed.

Lemma fromisoformat_local c : valid_civil c = true -> fromisoformat (local_serialize c) = Ok (naive c).
Proof.
  intros Hc. unfold fromisoformat, local_serialize.
  rewrite <- (string_app_nil_r (isoformat "T" c)), take_civil_isoformat by done. by rewrite Hc.
Qed.

Lemma utc_datetime_utc c : valid_civil c = true -> utc_datetime (Some (utc c)) = Ok c.
Proof.
  intros Hc. simpl. apply as_datetime_error_Ok. unfold astimezone_utc, shift_civil. simpl.
  rewrite Z.add_0_r, micros_of_range by done. by rewrite civil_of_micros.
Qed.

(** UTC instants have exactly one stored text.  Whatever the rest of the
    grammar of [fromisoformat] reads, a text is accepted from the database
    exactly when it is the text written for some instant, and reading it gives
    that instant back. *)
Theorem utc_wire_exact text c :
  utc_from_wire text = Ok c <-> valid_civil c = true /\ text = utc_serialize c.
Proof.
  unfold utc_from_wire. split.
  - intros H. bind_inv H as c' Hc. bind_inv H as u Hu. injection H as ->.
    apply guardR_Ok, String.eqb_eq in Hu. apply as_datetime_error_Ok in Hc.
    bind_inv Hc as d Hd. by apply utc_datetime_instant in Hc as (? & _ & Hv & _).
  - intros [Hc ->]. rewrite fromisoformat_utc by done. cbn [mbind res_bind].
    rewrite utc_datetime_utc by done.
    cbn [mbind res_bind as_datetime_error]. by rewrite String.eqb_refl.
Qed.

(** C28: stored UTC text sorts by time.  Two aware datetimes, whatever their
    timezones, are stored as texts whose byte order is the order of their
    instants; so they are stored as equal texts exactly when they are the same
    instant. *)
Theorem utc_text_chronological d d' c c'
  (Hc : utc_datetime (Some d) = Ok c) (Hc' : utc_datetime (Some d') = Ok c') :
  exists t t', instant d = Some t /\ instant d' = Some t' /\
    String.compare (utc_serialize c) (utc_serialize c') = (t ?= t') /\
    (utc_serialize c = utc_serialize c' <-> t = t').
Proof.
  apply utc_datetime_instant in Hc as (? & [= <-] & Hv & Ht).
  apply utc_datetime_instant in Hc' as (? & [= <-] & Hv' & Ht').
  exists (micros_of c), (micros_of c'). repeat (split; [done|]).
  assert (Hcmp : String.compare (utc_serialize c) (utc_serialize c') = (micros_of c ?= micros_of c'))
    by (unfold utc_serialize; rewrite isoformat_compare by assumption; reflexivity).
  split; [exact Hcmp|]. rewrite <- Z.compare_eq_iff, <- Hcmp. split; [intros ->; apply compare_refl|].
  apply String.compare_eq_iff.
Qed.

(** civil datetimes have exactly one stored text, in field order. *)
Theorem local_wire_exact text c c' (Hc : valid_civil c = true) (Hc' : valid_civil c' = true) :
  (text = local_serialize c -> local_from_wire text = Ok c) /\
  (local_from_wire text = Ok c -> text = local_serialize c) /\
  String.compare (local_serialize c) (local_serialize c') = lex_compare (fields c) (fields c').
Proof.
  unfold local_from_wire. repeat split.
  - intros ->. rewrite fromisoformat_local by done. cbn [mbind res_bind local_datetime naive as_datetime_error].
    by rewrite String.eqb_refl.
  - intros H. bind_inv H as x Hx. bind_inv H as u Hu. injection H as ->.
    by apply guardR_Ok, String.eqb_eq in Hu.
  - rewrite <- micros_compare by done. unfold local_serialize.
    rewrite <- (string_app_nil_r (isoformat "T" c)), <- (string_app_nil_r (isoformat "T" c')).
    by apply isoformat_compare.
Qed.
(** *** Zoned text *)

Fixpoint avoids (stop : ascii) (s : string) : bool :=
  match s with EmptyString => true | String c s => negb (Ascii.eqb c stop) && avoids stop s end.

Lemma until_app stop s rest : avoids stop s = true ->
  until stop (s +:+ String stop rest) = Some (s, rest).
Proof.
  induction s as [|c s IH]; simpl; intros H; [by rewrite Ascii.eqb_refl|].
  apply andb_true_iff in H as [Hc Hs]. apply negb_true_iff in Hc. by rewrite Hc, IH.
Qed.

Lemma plain_app a b : plain (a +:+ b) = plain a && plain b.
Proof. induction a as [|c a IH]; [done|]. rewrite string_app_cons. simpl. by rewrite IH, andb_assoc. Qed.

Lemma plain_avoids s : plain s = true -> avoids c_dquote s = true.
Proof.
  induction s as [|c s IH]; [done|]. simpl. intros [Hc Hs]%andb_true_iff. rewrite IH by done.
  unfold plain_char in Hc. rewrite !andb_true_iff in Hc. by destruct Hc as [[_ ->] _].
Qed.

Lemma plain_digits w n : 0 <= n -> plain (digits w n) = true.
Proof.
  revert n. induction w as [|w IH]; intros n Hn; [done|]. 
  change (digits (S w) n) with (digits w (n / 10) +:+ digit (n mod 10)). rewrite plain_app, IH by div_lia.
  unfold digit. simpl. rewrite andb_true_r. unfold plain_char.
  assert (Hm : 0 <= n mod 10 <= 9) by div_lia. generalize dependent (n mod 10). intros m Hm.
  assert (m = 0 \/ m = 1 \/ m = 2 \/ m = 3 \/ m = 4 \/ m = 5 \/ m = 6 \/ m = 7 \/ m = 8 \/ m = 9) by lia.
  by destruct_or!; subst m.
Qed.

Lemma plain_utc c : valid_civil c = true -> plain (utc_serialize c) = true.
Proof.
  intros Hc%fields_fit. unfold utc_serialize, isoformat.
  rewrite !plain_app, !plain_digits by lia. done.
Qed.

Lemma read_string_json s rest : plain s = true ->
  read_string (json_string s +:+ rest) = Some (s, rest).
Proof.
  intros Hs. unfold json_string. rewrite Hs. unfold dquote, read_string.
  rewrite !string_app_assoc, !string_app_cons, !string_app_nil_l. cbn [take_char].
  rewrite Ascii.eqb_refl. cbn [mbind option_bind].
  rewrite until_app by by apply plain_avoids. cbn [mbind option_bind]. by rewrite Hs.
Qed.

Lemma digit_strings d : avoids "]" (NilEmpty.string_of_uint d) = true /\
  avoids c_dquote (NilEmpty.string_of_uint d) = true.
Proof. induction d; simpl; [done|..]; tauto. Qed.

Lemma json_int_chars z : avoids "]" (json_int z) = true /\ avoids c_dquote (json_int z) = true /\
  json_int z <> EmptyString.
Proof.
  unfold json_int. assert (H : forall d, avoids "]" (NilZero.string_of_uint d) = true /\
    avoids c_dquote (NilZero.string_of_uint d) = true /\ NilZero.string_of_uint d <> EmptyString).
  { intros d. destruct (digit_strings d) as [H1 H2]. destruct d; [done|..]; by split; [|split]. }
  destruct (Z.to_int z) as [d|d]; simpl; [apply H|]. by destruct (H d) as (-> & -> & _).
Qed.

Lemma int_of_json_int z : NilZero.int_of_string (json_int z) = Some (Z.to_int z).
Proof.
  unfold json_int. pose proof (DecimalZ.of_to z) as Hz.
  apply NilZero.isi; intros H; rewrite H in Hz; simpl in Hz; subst z; discriminate H.
Qed.

Lemma read_last_int z : read_last (json_int z +:+ "]") = Some (JInt z).
Proof.
  destruct (json_int_chars z) as (Hb & Hq & Hne). unfold read_last.
  assert (Hnone : read_string (json_int z +:+ "]") = None).
  { unfold read_string. destruct (json_int z) as [|c s]; [done|]. rewrite string_app_cons. cbn [take_char].
    cbn [avoids] in Hq. apply andb_true_iff in Hq as [Hc _]. apply negb_true_iff in Hc.
    rewrite Ascii.eqb_sym in Hc. by rewrite Hc. }
  rewrite Hnone, (until_app "]" (json_int z) EmptyString) by done. cbn [mbind option_bind].
  rewrite int_of_json_int. cbn [mbind option_bind]. rewrite DecimalZ.of_to. by rewrite String.eqb_refl.
Qed.

Lemma read_last_string s : plain s = true -> read_last (json_string s +:+ "]") = Some (JStr s).
Proof. intros Hs. unfold read_last. by rewrite read_string_json. Qed.

Lemma json_loads_zoned i k v item : plain i = true -> plain k = true ->
  read_last (v +:+ "]") = Some item ->
  json_loads (zoned_text i k v) = Ok (Some [JInt 1; JStr i; JStr k; item]).
Proof.
  intros Hi Hk Hv. unfold json_loads, read_zoned, zoned_text.
  rewrite !string_app_cons, !string_app_nil_l.
  repeat first [rewrite read_string_json by done | rewrite Ascii.eqb_refl
               | progress cbn [take_char mbind option_bind]].
  by rewrite Hv.
Qed.

Lemma strip_z_app s : strip_z (s +:+ "Z") = Some s.
Proof.
  induction s as [|c s IH]; [done|]. rewrite string_app_cons. cbn [strip_z]. rewrite IH.
  by destruct s.
Qed.

Lemma fromisoformat_offset c : valid_civil c = true ->
  fromisoformat (isoformat "T" c +:+ "+00:00") = Ok (utc c).
Proof. intros Hc. unfold fromisoformat. rewrite take_civil_isoformat by done. by rewrite Hc. Qed.

(** What an accepted zoned datetime satisfies. *)
Lemma zoned_datetime_inv d d' : zoned_datetime (Some d) = Ok d' ->
  d' = d /\ exists o c, utcoffset d = Some o /\ shift_civil (dt_civil d) (- o) = Ok c /\
    (dt_tz d = TzFixed o \/
     exists z, dt_tz d = TzZone z /\ zone_fromutc z c = Ok (dt_civil d, dt_fold d) /\
       exists key, zone_key z = Some key /\ key <> EmptyString).
Proof.
  simpl. destruct (utcoffset d) as [o|] eqn:Ho; [|done]. intros H.
  destruct (dt_tz d) as [|f|z|i] eqn:Htz; try done; unfold astimezone_utc in H;
    destruct (shift_civil (dt_civil d) (- o)) as [c|] eqn:Hs; try done.
  - injection H as <-. split; [done|]. exists o, c. repeat (split; [done|]). left.
    unfold utcoffset in Ho. rewrite Htz in Ho. by injection Ho as ->.
  - bind_inv H as u Hu. bind_inv H as r Hr. destruct r as [c' fold]. bind_inv H as u' Hu'.
    injection H as <-. split; [done|]. exists o, c. repeat (split; [done|]). right. exists z.
    split; [done|]. apply guardR_Ok in Hu, Hu'.
    apply andb_true_iff in Hu' as [->%bool_decide_eq_true ->%eqb_prop]. split; [done|].
    destruct (zone_key z) as [[|]|]; try done. by eexists.
Qed.

(** The instant of an accepted zoned datetime, converted back to its zone, is
    the same datetime, but for the fold of a fixed offset. *)
Lemma from_utc_instant d o c tz :
  utcoffset d = Some o -> shift_civil (dt_civil d) (- o) = Ok c -> valid_civil (dt_civil d) = true ->
  tz = dt_tz d ->
  (tz = TzFixed o -> from_utc c tz = Ok (Datetime (dt_civil d) false tz)) /\
  (forall z, tz = TzZone z -> zone_fromutc z c = Ok (dt_civil d, dt_fold d) -> from_utc c tz = Ok d).
Proof.
  intros Ho Hs Hv ->. split.
  - intros Htz. rewrite Htz. simpl. apply shift_civil_valid in Hs as [Hc Hm]. unfold shift_civil.
    rewrite Hm. replace (micros_of (dt_civil d) + - o + o) with (micros_of (dt_civil d)) by lia.
    rewrite micros_of_range by done. simpl. by rewrite civil_of_micros.
  - intros z Htz Hz. rewrite Htz. simpl. rewrite Hz. simpl. rewrite <- Htz. by destruct d.
Qed.

Lemma zoned_parse_text d o c kind item value tz :
  utcoffset d = Some o -> valid_civil c = true -> plain kind = true ->
  read_last (value +:+ "]") = Some item ->
  payload_timezone kind item = Ok tz ->
  from_utc c tz = Ok d -> zoned_datetime (Some d) = Ok d ->
  zoned_serialize d = Ok (zoned_text (utc_serialize c) kind value) ->
  zoned_from_wire (zoned_text (utc_serialize c) kind value) = Ok d.
Proof.
  intros Ho Hc Hk Hv Htz Hd Hz Hs. unfold zoned_from_wire, zoned_parse.
  rewrite (json_loads_zoned _ _ _ item) by (done || by apply plain_utc). cbn [mbind res_bind zoned_fields].
  assert (Hstrip : strip_z (utc_serialize c) = Some (isoformat "T" c)) by apply strip_z_app.
  rewrite Hstrip. cbn [mbind res_bind]. rewrite fromisoformat_offset by done. cbn [mbind res_bind].
  rewrite Htz. cbn [mbind res_bind utcoffset utc dt_tz].
  assert (Ha : astimezone_utc (utc c) 0 = Ok c).
  { unfold astimezone_utc, shift_civil. simpl. rewrite Z.add_0_r, micros_of_range by done.
    by rewrite civil_of_micros. }
  rewrite Ha. cbn [mbind res_bind]. rewrite Hd. cbn [mbind res_bind].
  rewrite Hz. cbn [mbind res_bind]. rewrite Hs. cbn [mbind res_bind].
  rewrite String.eqb_refl. done.
Qed.

(** C29: a zoned datetime survives storage, instant and zone.  Every datetime the
    constructor accepts (with an offset of less than a day, or an IANA zone whose
    key is plain text naming it) has a text; reading the text gives an equal
    value, the very same one for an IANA zone; and only the text written for a
    value is ever read as that value. *)
Theorem zoned_round_trip d d'
  (Hd : zoned_datetime (Some d) = Ok d') (Hv : valid_civil (dt_civil d) = true)
  (Hfixed : forall o, dt_tz d = TzFixed o -> - day_micros < o < day_micros)
  (Hzone : forall z key, dt_tz d = TzZone z -> zone_key z = Some key ->
             plain key = true /\ zone_named key = Ok z) :
  (exists text d'', zoned_serialize d = Ok text /\ zoned_from_wire text = Ok d'' /\
     zoned_eq d d'' = true /\ (forall z, dt_tz d = TzZone z -> d'' = d)) /\
  (forall text, zoned_from_wire text = Ok d -> zoned_serialize d = Ok text).
Proof.
  split.
  - pose proof Hd as Hd0. apply zoned_datetime_inv in Hd as (-> & o & c & Ho & Hs & Hkind).
    destruct (from_utc_instant d o c (dt_tz d) Ho Hs Hv eq_refl) as [Hf Hz].
    pose proof (shift_civil_valid _ _ _ Hs) as [Hc _].
    destruct Hkind as [Htz|(z & Htz & Hfrom & key & Hkey & Hne)].
    + set (d1 := Datetime (dt_civil d) false (TzFixed o)).
      exists (zoned_text (utc_serialize c) "offset" (json_int o)), d1.
      split; [unfold zoned_serialize, astimezone_utc; by rewrite Ho, Hs, Htz|].
      split; [|split; [|intros z Hz1; by rewrite Htz in Hz1]].
      * apply (zoned_parse_text d1 o c _ (JInt o) _ (TzFixed o)); try done.
        -- apply read_last_int.
        -- simpl. unfold fixed_timezone. destruct (Hfixed o Htz) as [H1 H2].
           by rewrite (proj2 (Z.ltb_lt _ _) H1), (proj2 (Z.ltb_lt _ _) H2).
        -- unfold d1. rewrite <- Htz. apply Hf. done.
        -- simpl. unfold astimezone_utc. simpl. by rewrite Hs.
        -- unfold zoned_serialize, astimezone_utc. simpl. by rewrite Hs.
      * unfold zoned_eq, instant, zoned_timezone_identity, d1. rewrite Ho, Htz. simpl.
        by rewrite !bool_decide_true.
    + destruct (Hzone z key Htz Hkey) as [Hplain Hnamed].
      exists (zoned_text (utc_serialize c) "iana" (json_string key)), d.
      assert (Hser : zoned_serialize d = Ok (zoned_text (utc_serialize c) "iana" (json_string key)))
        by (unfold zoned_serialize, astimezone_utc; by rewrite Ho, Hs, Htz, Hkey).
      split; [done|]. split; [|split; [|done]].
      * apply (zoned_parse_text d o c _ (JStr key) _ (TzZone z)); try done.
        -- by apply read_last_string.
        -- simpl. by rewrite Hnamed.
        -- rewrite <- Htz. by apply (Hz z).
      * unfold zoned_eq. by rewrite !bool_decide_true.
  - intros text H. unfold zoned_from_wire in H. destruct (zoned_parse text) as [d1|] eqn:Hp;
      [|by destruct (decide _)]. injection H as ->. unfold zoned_parse in Hp.
    bind_inv Hp as payload Hpay. bind_inv Hp as fields Hfields. destruct fields as [[i k] item].
    bind_inv Hp as t Ht. bind_inv Hp as inst Hinst. bind_inv Hp as tz Htz. bind_inv Hp as d2 Hd2.
    bind_inv Hp as result Hresult. bind_inv Hp as text' Htext. bind_inv Hp as u Hu. injection Hp as <-.
    apply guardR_Ok, String.eqb_eq in Hu. by subst.
Qed.
End temporal.

(** ** Concrete instances

    One zone, an hour ahead of UTC; the texts written are the only ones read. *)

Section demo_temporal.
Definition hour_micros : Z := 3600000000.
Definition demo_fromutc (_ : string) (c : civil) : res (civil * bool) :=
  c ← shift_civil c hour_micros; Ok (c, false).
Definition demo_iso (_ : string) : res (datetime (zone:=string)) := raise ValueError "Invalid isoformat string".
Definition noon : civil := Civil 2026 1 1 12 0 0 500.

Abbreviation demo_utc_datetime := (utc_datetime (zone:=string) (fun _ _ _ => hour_micros) (fun _ _ _ => None)).

(** Noon an hour ahead of UTC, and half past eleven at UTC. *)
Lemma utc_text_chronological_witness :
  String.compare (utc_serialize (Civil 2026 1 1 11 0 0 500)) (utc_serialize (Civil 2026 1 1 11 30 0 500)) = Lt.
Proof.
  destruct (utc_text_chronological (zone:=string) (fun _ _ _ => hour_micros) (fun _ _ _ => None)
              (Datetime noon false (TzZone "Europe/Paris"))
              (Datetime (Civil 2026 1 1 11 30 0 500) false (TzFixed 0))
              (Civil 2026 1 1 11 0 0 500) (Civil 2026 1 1 11 30 0 500)
              ltac:(vm_compute; reflexivity) ltac:(vm_compute; reflexivity))
    as (t & t' & Ht & Ht' & Hcmp & _).
  vm_compute in Ht, Ht'. injection Ht as <-. injection Ht' as <-. exact Hcmp.
Defined.

Lemma local_wire_exact_witness :
  local_from_wire (zone:=string) demo_iso (local_serialize noon) = Ok noon.
Proof.
  exact (proj1 (local_wire_exact demo_iso (local_serialize noon) noon noon
                  ltac:(vm_compute; reflexivity) ltac:(vm_compute; reflexivity)) eq_refl).
Defined.

Lemma zoned_round_trip_witness :
  zoned_from_wire Some (fun _ _ _ => hour_micros) demo_fromutc (fun _ _ _ => None) demo_iso id
    (fun _ => raise ValueError "json") Ok
    (zoned_text id (utc_serialize (Civil 2026 1 1 11 0 0 500)) "iana" (json_string id "Europe/Paris"))
  = Ok (Datetime noon false (TzZone "Europe/Paris")).
Proof.
  destruct (zoned_round_trip Some (fun _ _ _ => hour_micros) demo_fromutc (fun _ _ _ => None)
              demo_iso id (fun _ => raise ValueError "json") Ok
              (Datetime noon false (TzZone "Europe/Paris")) (Datetime noon false (TzZone "Europe/Paris"))
              ltac:(vm_compute; reflexivity) ltac:(vm_compute; reflexivity)
              ltac:(intros o H; discriminate H))
    as [(text & d & Hs & Hw & _ & Hd) _].
  - intros z key Hz Hk. injection Hz as <-. injection Hk as <-. split; [vm_compute; reflexivity|reflexivity].
  - rewrite (Hd "Europe/Paris" eq_refl) in Hw. vm_compute in Hs. injection Hs as <-. exact Hw.
Defined.
End demo_temporal.
