(* ===== verification/Decimals.v ===== *)
(** * DECIMAL columns and durations

    [Attr._encode_decimal] of [storage.py] over Python's [Decimal], and the
    millisecond durations of the same file: which values a column stores
    exactly, and which ones it refuses. *)

From S2P Require Export Prelude.
Local Open Scope Z_scope.

(** ** Python's [Decimal]

    [as_tuple()] of a finite decimal: a sign, the digits of the coefficient from
    the most significant, an exponent; [DSpecial] is an infinity or a NaN. *)

Inductive decimal := DFinite (negative : bool) (digits : list Z) (exponent : Z) | DSpecial.
#[export] Instance decimal_eq_dec : EqDecision decimal.
Proof. solve_decision. Defined.

Definition coefficient (digits : list Z) : Z := fold_left (fun n d => n * 10 + d) digits 0.

(** [Decimal] keeps no leading zero; zero itself is the digit 0. *)
Definition valid_digits (digits : list Z) : bool :=
  forallb (fun d => (0 <=? d) && (d <=? 9)) digits &&
  match digits with [] => false | [_] => true | d :: _ => negb (d =? 0) end.

(** [decimal.adjusted()] *)
Definition adjusted (digits : list Z) (exponent : Z) : Z := exponent + Z.of_nat (length digits) - 1.

(** [while digits[significant - 1] == 0: significant -= 1; exponent += 1], on the
    digits from the least significant. *)
Fixpoint skip_zeros (reversed : list Z) (exponent : Z) : Z :=
  match reversed with
  | d :: rest => if d =? 0 then skip_zeros rest (exponent + 1) else exponent
  | [] => exponent
  end.

(** [Attr._encode_decimal], from the precision and scale of the column. *)
Definition encode_decimal (precision scale : option Z) (value : decimal) : res decimal :=
  match precision, scale with
  | Some precision, Some scale =>
      match value with
      | DSpecial => raise ModelValidationError "non-finite decimal values cannot be stored"
      | DFinite negative digits exponent =>
          if coefficient digits =? 0 then Ok value
          else
            let integer_digits := Z.max (adjusted digits exponent + 1) 0 in
            let fractional_digits := Z.max (- skip_zeros (rev digits) exponent) 0 in
            if (precision - scale <? integer_digits) || (scale <? fractional_digits)
            then raise ModelValidationError "decimal value does not fit DECIMAL"
            else Ok value
      end
  | _, _ => raise ModelValidationError "missing decimal precision metadata"
  end.

(** A value is stored exactly by DECIMAL(precision, scale) when it is an integer
    of at most [precision] digits, scaled. *)
Definition fits_decimal (precision scale : Z) (value : decimal) : Prop :=
  match value with
  | DSpecial => False
  | DFinite _ digits exponent =>
      exists k, 0 <= k < 10 ^ precision /\
        coefficient digits * 10 ^ Z.max 0 (exponent + scale) = k * 10 ^ Z.max 0 (- (exponent + scale))
  end.

(** The same number, with any exponent. *)
Definition same_number (a b : decimal) : Prop :=
  match a, b with
  | DFinite na da ea, DFinite nb db eb =>
      (if na then -1 else 1) * coefficient da * 10 ^ Z.max 0 (ea - eb) =
      (if nb then -1 else 1) * coefficient db * 10 ^ Z.max 0 (eb - ea)
  | _, _ => a = b
  end.

(** ** Digits *)

Lemma coefficient_from n digits :
  fold_left (fun n d => n * 10 + d) digits n = n * 10 ^ Z.of_nat (length digits) + coefficient digits.
Proof.
  unfold coefficient. revert n. induction digits as [|d digits IH]; intros n; cbn [fold_left length].
  - lia.
  - rewrite (IH (n * 10 + d)), (IH (0 * 10 + d)), Nat2Z.inj_succ, Z.pow_succ_r by lia. lia.
Qed.

Lemma coefficient_snoc digits d : coefficient (digits ++ [d]) = coefficient digits * 10 + d.
Proof. unfold coefficient. by rewrite fold_left_app. Qed.

Lemma coefficient_bound digits : Forall (fun d => 0 <= d <= 9) digits ->
  0 <= coefficient digits < 10 ^ Z.of_nat (length digits).
Proof.
  induction 1 as [|d digits Hd _ IH]; [done|].
  unfold coefficient. simpl. rewrite coefficient_from, Nat2Z.inj_succ, Z.pow_succ_r by lia. nia.
Qed.

Lemma valid_digits_spec digits : valid_digits digits = true -> coefficient digits <> 0 ->
  Forall (fun d => 0 <= d <= 9) digits /\
  10 ^ (Z.of_nat (length digits) - 1) <= coefficient digits < 10 ^ Z.of_nat (length digits).
Proof.
  unfold valid_digits. rewrite andb_true_iff. intros [H Hh] Hc.
  assert (Hd : Forall (fun d => 0 <= d <= 9) digits).
  { rewrite forallb_forall in H. apply Forall_forall. intros d Hin.
    specialize (H d (proj1 (list_elem_of_In _ _) Hin)). rewrite andb_true_iff, !Z.leb_le in H. done. }
  split; [done|]. pose proof (coefficient_bound _ Hd) as Hb. split; [|lia].
  destruct digits as [|d digits]; [done|].
  assert (Hne : d <> 0) by (destruct digits; [unfold coefficient in Hc; simpl in Hc; lia|by apply negb_true_iff, Z.eqb_neq in Hh]).
  apply Forall_cons in Hd as [Hd Hds]. unfold coefficient. simpl fold_left. rewrite coefficient_from.
  pose proof (coefficient_bound _ Hds). rewrite length_cons, Nat2Z.inj_succ.
  replace (Z.succ (Z.of_nat (length digits)) - 1) with (Z.of_nat (length digits)) by lia. nia.
Qed.

(** Dropping trailing zeros. *)
Lemma skip_zeros_spec digits exponent : coefficient digits <> 0 ->
  exists z c, 0 <= z /\ skip_zeros (rev digits) exponent = exponent + z /\
    coefficient digits = c * 10 ^ z /\ c mod 10 <> 0 \/
    exists d, d ∈ digits /\ ~ 0 <= d <= 9.
Proof.
  revert exponent. induction digits as [|d digits IH] using rev_ind; intros exponent Hc; [done|].
  rewrite coefficient_snoc in Hc |- *. rewrite rev_unit. simpl.
  destruct (Z.eqb_spec d 0) as [->|Hd].
  - destruct (IH (exponent + 1) ltac:(lia)) as (z & c & [(Hz & Hs & He & Hm)|(d & Hin & Hd)]).
    + exists (z + 1), c. left. split; [lia|]. split; [lia|]. split; [|done].
      rewrite He, Z.pow_add_r by lia. lia.
    + exists 0, 0. right. exists d. split; [|done]. apply elem_of_app. by left.
  - destruct (decide (0 <= d <= 9)) as [Hr|Hr].
    + exists 0, (coefficient digits * 10 + d). left. split; [lia|]. split; [lia|]. split; [lia|].
      rewrite Z.add_comm, Z.mod_add by lia. rewrite Z.mod_small; lia.
    + exists 0, 0. right. exists d. split; [|done]. apply elem_of_app. right. by left.
Qed.

Lemma max_parts x : Z.max 0 x = x + Z.max 0 (- x).
Proof. lia. Qed.

Lemma encode_decimal_fits precision scale value
  (Hs : 0 <= scale <= precision)
  (Hv : match value with DFinite _ digits _ => valid_digits digits = true | DSpecial => True end) :
  encode_decimal (Some precision) (Some scale) value = Ok value <-> fits_decimal precision scale value.
Proof.
  destruct value as [negative digits exponent|]; simpl; [|done].
  destruct (Z.eqb_spec (coefficient digits) 0) as [Hc|Hc].
  { split; [|done]. intros _. exists 0. split; [|by rewrite Hc]. split; [lia|]. apply Z.pow_pos_nonneg; lia. }
  destruct (valid_digits_spec _ Hv Hc) as [Hd Hb].
  destruct (skip_zeros_spec digits exponent Hc) as (z & c & [(Hz & -> & He & Hm)|(d & Hin & Hbad)]);
    [|by rewrite Forall_forall in Hd; destruct (Hbad (Hd d Hin))].
  unfold adjusted. set (L := Z.of_nat (length digits)) in *.
  set (m := Z.max 0 (- (exponent + scale))). rewrite max_parts. fold m.
  assert (Hrefused : forall b, (if b : bool then raise ModelValidationError "decimal value does not fit DECIMAL"
                                else Ok (DFinite negative digits exponent)) =
                               Ok (DFinite negative digits exponent) <-> b = false) by by intros [].
  rewrite Hrefused, orb_false_iff, !Z.ltb_ge. split.
  - intros [Hint Hfrac]. exists (c * 10 ^ (exponent + z + scale)).
    assert (Heq : coefficient digits * 10 ^ (exponent + scale + m) =
                  c * 10 ^ (exponent + z + scale) * 10 ^ m).
    { rewrite He, <- !Z.mul_assoc, <- !Z.pow_add_r by lia. do 2 f_equal. lia. }
    split; [|done]. assert (Hpos : 0 < 10 ^ m) by (apply Z.pow_pos_nonneg; lia).
    assert (Hlt : coefficient digits * 10 ^ (exponent + scale + m) < 10 ^ precision * 10 ^ m).
    { rewrite <- Z.pow_add_r by lia.
      apply Z.lt_le_trans with (10 ^ L * 10 ^ (exponent + scale + m)).
      - apply Z.mul_lt_mono_pos_r; [apply Z.pow_pos_nonneg; lia|lia].
      - rewrite <- Z.pow_add_r by lia. apply Z.pow_le_mono_r; lia. }
    assert (Hge : 0 <= coefficient digits * 10 ^ (exponent + scale + m)).
    { apply Z.mul_nonneg_nonneg; [|apply Z.pow_nonneg; lia].
      apply Z.le_trans with (10 ^ (L - 1)); [apply Z.pow_nonneg; lia|lia]. }
    rewrite Heq in Hlt, Hge. nia.
  - intros (k & Hk & Heq). assert (Hpos : 0 < 10 ^ m) by (apply Z.pow_pos_nonneg; lia). split.
    + assert (Hlt : 10 ^ (L - 1 + (exponent + scale + m)) < 10 ^ (precision + m)).
      { rewrite (Z.pow_add_r 10 precision m) by lia. apply Z.le_lt_trans with (k * 10 ^ m); [|nia].
        rewrite <- Heq. destruct (decide (0 <= L - 1)) as [HL|HL].
        - rewrite Z.pow_add_r by lia. apply Z.mul_le_mono_nonneg_r; [apply Z.pow_nonneg; lia|lia].
        - exfalso. assert (HL0 : L = 0) by lia. rewrite HL0 in Hb. change (10 ^ 0) with 1 in Hb.
          change (10 ^ (0 - 1)) with 0 in Hb. lia. }
      apply Z.pow_lt_mono_r_iff in Hlt; lia.
    + destruct (decide (exponent + z + scale < 0)) as [Hneg|]; [exfalso|lia].
      apply Hm. replace (exponent + scale + m) with 0 in Heq by lia.
      rewrite He in Heq. change (10 ^ 0) with 1 in Heq. rewrite Z.mul_1_r in Heq.
      replace m with (m - z - 1 + 1 + z) in Heq by lia. rewrite !(Z.pow_add_r 10 _ z), (Z.pow_add_r 10 _ 1) in Heq by lia.
      assert (Hz0 : 0 < 10 ^ z) by (apply Z.pow_pos_nonneg; lia).
      assert (c = k * 10 ^ (m - z - 1) * 10) as -> by nia. by rewrite Z.mod_mul.
Qed.

(** C27: a DECIMAL column accepts exactly the values it stores without change.
    [_encode_decimal] returns a finite value, unchanged, when and only when it is
    an integer of at most [precision] digits over [10 ^ scale]; trailing zeros of
    the coefficient and negative adjusted exponents do not matter. *)
Theorem decimal_fit_exact precision scale value
  (Hs : 0 <= scale <= precision)
  (Hv : match value with DFinite _ digits _ => valid_digits digits = true | DSpecial => True end) :
  encode_decimal (Some precision) (Some scale) value = Ok value <-> fits_decimal precision scale value.
Proof. by apply encode_decimal_fits. Qed.

Lemma decimal_fit_exact_witness :
  encode_decimal (Some 6) (Some 2) (DFinite true [1; 2; 3; 4; 5; 0; 0] (-5)) <>
    Ok (DFinite true [1; 2; 3; 4; 5; 0; 0] (-5)) /\
  encode_decimal (Some 6) (Some 2) (DFinite false [1; 2; 3; 4; 5; 0; 0] (-3)) =
    Ok (DFinite false [1; 2; 3; 4; 5; 0; 0] (-3)).
Proof.
  split; [vm_compute; discriminate|].
  apply (proj2 (decimal_fit_exact 6 2 (DFinite false [1; 2; 3; 4; 5; 0; 0] (-3)) ltac:(lia) eq_refl)).
  exists 123450. split; [lia|reflexivity].
Defined.

(** ** Durations

    A [timedelta] is a number of microseconds; its [microseconds] attribute is
    the remainder modulo a second, never negative. *)

(** [_decode_duration_milliseconds], on an integer. *)
Definition decode_duration_milliseconds (value : Z) : Z := value * 1000.
(** [_normalize_duration_milliseconds] *)
Definition normalize_duration_milliseconds (value : Z) : Z := value - (value mod 1000000) mod 1000.
(** [_serialize_duration_milliseconds], on a [timedelta]. *)
Definition serialize_duration_milliseconds (value : Z) : Z := value / 1000.

(** a duration is stored as a whole number of milliseconds, rounded down.
    Reading back the stored integer gives the normalized duration, which is the
    duration itself when it is whole; the order of durations is kept; and a
    negative duration is rounded away from zero, not truncated. *)
Theorem duration_round_trip value value' :
  decode_duration_milliseconds (serialize_duration_milliseconds value) =
    normalize_duration_milliseconds value /\
  normalize_duration_milliseconds value <= value < normalize_duration_milliseconds value + 1000 /\
  (value <= value' -> serialize_duration_milliseconds value <= serialize_duration_milliseconds value') /\
  (value < 0 -> value mod 1000 <> 0 -> normalize_duration_milliseconds value < Z.quot value 1000 * 1000).
Proof.
  unfold decode_duration_milliseconds, serialize_duration_milliseconds, normalize_duration_milliseconds.
  repeat split; try intros; Z.to_euclidean_division_equations; lia.
Qed.
