(* ===== verification/ColumnCodec.v ===== *)
(** * Column codecs

    The encoding and decoding half of [Attr] in [storage.py]: what is sent to the
    driver for a logical value, and what a driver value becomes, on both backends.
    pydantic's adapter of the column's annotation is a parameter ([adapter]); so
    are the facts the annotation states, which are fields of [column]. *)

From S2P Require Export QueryState Temporal Decimals.
From Stdlib Require Import Ascii SpecFloat.
Local Open Scope Z_scope.

Section codec.
(** The parameters of [Temporal]: the zone database, foreign [tzinfo] classes, the
    rest of the ISO grammar. *)
Context {zone : Type} (zone_offset : zone -> civil -> bool -> Z)
  (foreign_offset : positive -> civil -> bool -> option Z)
  (other_iso : string -> res (datetime (zone:=zone))).

Abbreviation utcoffset_ := (utcoffset zone_offset foreign_offset).
Abbreviation utc_datetime_ := (utc_datetime zone_offset foreign_offset).

(** ** Values

    A logical or a driver value.  [OPending] is the marker of a value the
    database will generate; text is UTF-8. *)

Inductive pyobj :=
  | ONone | OPending
  | OBool (b : bool) | OInt (z : Z) | OFloat (f : spec_float) | ODecimal (d : decimal)
  | OStr (s : string) | OBytes (s : string) | OBytearray (s : string) | OMemoryview (s : string)
  | OUuid (bytes : string)
  | ODate (y m d : Z) | ODatetime (d : datetime (zone:=zone))
  | OUtc (c : civil) | OLocal (c : civil) | OZoned (d : datetime (zone:=zone))
  | OOther (id : positive).

Inductive temporal_kind := KindUtc | KindLocal | KindZoned.

(** The core types of a resolved annotation ([_annotation_core_types]). *)
Inductive core_type :=
  | CtUtc | CtLocal | CtZoned | CtDate | CtDatetime | CtAwareDatetime | CtInt | CtBool | CtStr
  | CtOther (id : positive).
#[local] Instance core_type_eq_dec : EqDecision core_type.
Proof. solve_decision. Defined.

(** The facts of a column the codec reads: declared metadata and what its
    annotation says. *)
Record column := Column {
  col_name : option string;
  col_owned : bool;
  col_nullable : bool;
  col_generated : bool;
  col_storage_class : string;
  col_type_name : string;
  col_decimal_precision : option Z;
  col_decimal_scale : option Z;
  col_text_length : option Z;
  col_datetime_precision : option Z;
  col_json_marker : bool;
  col_order_preserving : bool;
  col_types : option (list core_type);
  col_server_now : bool
}.

(** pydantic's [TypeAdapter] of a column, and [json.loads]. *)
Record adapter := Adapter {
  validate_strict : column -> pyobj -> res pyobj;
  validate_lax : column -> pyobj -> res pyobj;
  validate_json : column -> string -> res pyobj;
  dump_python : column -> pyobj -> res pyobj;
  dump_python_json : column -> pyobj -> res pyobj;
  dump_json : column -> pyobj -> res string;
  json_value : string -> res pyobj;
  utf8_valid : string -> bool
}.
Context (A : adapter).

(** ** Backend codecs *)

Record backend_codec := BackendCodec {
  json_accepts_bytes : bool; max_text_chars : option Z; max_blob_bytes : option Z }.

Definition BACKEND_CODECS (b : backend) : backend_codec :=
  match b with
  | BSqlite => BackendCodec false None None
  | BMariadb => BackendCodec true (Some 255) (Some 65535)
  end.

(** [_require_name] *)
Definition require_name (c : column) : res string :=
  match col_name c with
  | Some n => Ok n
  | None => raise ModelDeclarationError "column descriptor is not bound"
  end.

(** [raise ModelValidationError(msg)], whose text names the column. *)
Definition invalid {B} (c : column) (msg : string) : res B :=
  _ ← require_name c; raise ModelValidationError msg.

(** [_decode_mariadb_datetime] and [_decode_unreachable_sqlite_datetime] *)
Definition decode_datetime (b : backend) (c : column) (value : pyobj) : res (datetime (zone:=zone)) :=
  match b with
  | BSqlite => invalid c "SQLite has no DateTime storage type"
  | BMariadb =>
      let tagged (d : datetime) := match dt_tz d with
                                   | TzNone => Datetime (dt_civil d) (dt_fold d) (TzFixed 0)
                                   | _ => d
                                   end in
      match value with
      | ODatetime d => Ok (tagged d)
      | OStr s =>
          match fromisoformat other_iso (replace_char " " "T" s) with
          | Ok d => Ok (tagged d)
          | Raise e => if decide (exn_class e = ValueError)
                       then invalid c "timestamp is not valid MariaDB text" else Raise e
          end
      | _ => invalid c "database value must be a datetime"
      end
  end.

(** [_temporal_type]: [None] for an unbound or unresolved column too. *)
Definition column_temporal_type (c : column) : option temporal_kind :=
  match col_types c with
  | Some types =>
      if col_owned c && bool_decide (is_Some (col_name c)) then
        if bool_decide (CtUtc ∈ types) then Some KindUtc
        else if bool_decide (CtLocal ∈ types) then Some KindLocal
        else if bool_decide (CtZoned ∈ types) then Some KindZoned
        else None
      else None
  | None => None
  end.

Definition kind_type (k : temporal_kind) : core_type :=
  match k with KindUtc => CtUtc | KindLocal => CtLocal | KindZoned => CtZoned end.

(** ** Logical validation *)

(** [_is_json_column] *)
Definition is_json_column (c : column) : bool :=
  String.eqb (col_type_name c) "Json" || col_owned c && col_json_marker c.

(** [_logical_adapter]: a call on the adapter of a bound column. *)
Definition with_adapter {B} (c : column) (call : res B) : res B :=
  _ ← require_name c;
  _ ← guardR (col_owned c) ModelDeclarationError "column descriptor is not bound";
  call.

(** [except ValidationError: raise ModelValidationError] *)
Definition or_invalid {B} (c : column) (msg : string) (r : res B) : res B :=
  match r with
  | Raise e => if decide (exn_class e = ValidationError) then invalid c msg else Raise e
  | Ok v => Ok v
  end.

Definition coerce_null_value (c : column) : res unit :=
  if col_nullable c then Ok tt else invalid c "cannot be null".

Definition coerce_pending_generation (c : column) (fetched : bool) : res pyobj :=
  if col_generated c && negb fetched then Ok OPending else invalid c "pending generated value".

Definition coerce_int_column_bool (c : column) (value : pyobj) : pyobj :=
  match value with
  | OBool b => if bool_decide (col_types c = Some [CtInt]) then OInt (if b then 1 else 0) else value
  | _ => value
  end.

(** [_validate_logical_value] *)
Definition validate_logical_value (c : column) (value : pyobj) (fetched : bool) : res pyobj :=
  match value with
  | OPending => coerce_pending_generation c fetched
  | ONone => _ ← coerce_null_value c; Ok ONone
  | _ => with_adapter c (or_invalid c "failed type validation"
           (validate_strict A c (coerce_int_column_bool c value)))
  end.

(** ** Decoding *)

(** [_json_text] *)
Definition json_text (c : column) (value : pyobj) (accepts_bytes : bool) : res string :=
  match value with
  | OStr s => Ok s
  | OBytes s | OBytearray s =>
      if accepts_bytes
      then (if utf8_valid A s then Ok s else raise ValueError "invalid start byte")
      else invalid c "database value must be JSON text"
  | _ => invalid c "database value must be JSON text"
  end.

(** [_decode_json] *)
Definition decode_json (c : column) (value : pyobj) (b : backend) (validate : bool) : res pyobj :=
  match value with
  | ONone => _ ← (if validate then coerce_null_value c else Ok tt); Ok ONone
  | _ =>
      text ← json_text c value (json_accepts_bytes (BACKEND_CODECS b));
      if validate
      then with_adapter c (or_invalid c "failed type validation" (validate_json A c text))
      else match json_value A text with
           | Ok v => Ok v
           | Raise e => if decide (exn_class e = JSONDecodeError)
                        then invalid c "database value is not valid JSON" else Raise e
           end
  end.

(** [value == n], for a driver value. *)
Definition equals_int (value : pyobj) (n : Z) : bool :=
  match value with
  | OInt z => z =? n
  | OBool b => (if b then 1 else 0) =? n
  | OFloat f => SFeqb f (float_of_int n)
  | ODecimal (DFinite negative digits exponent) =>
      let m := (if negative then -1 else 1) * coefficient digits in
      m * 10 ^ Z.max 0 exponent =? n * 10 ^ Z.max 0 (- exponent)
  | _ => false
  end.

(** [_decode_boolean] *)
Definition decode_boolean (c : column) (value : pyobj) : res bool :=
  if equals_int value 0 then Ok false
  else if equals_int value 1 then Ok true
  else invalid c "database value must be 0 or 1".

(** [_decode_native_datetime] *)
Definition decode_native_datetime (c : column) (value : pyobj) (b : backend) : res pyobj :=
  decoded ← decode_datetime b c value;
  match column_temporal_type c with
  | Some KindLocal => v ← local_datetime (zone:=zone) (Some (Datetime (dt_civil decoded) (dt_fold decoded) TzNone));
                      Ok (OLocal v)
  | _ => v ← utc_datetime_ (Some decoded); Ok (OUtc v)
  end.

Definition is_text_type (c : column) : bool :=
  String.eqb (col_type_name c) "Text" || String.eqb (col_type_name c) "LongText".

(** [value != text], for what a date is dumped as. *)
Definition same_scalar (a b : pyobj) : bool :=
  match a, b with
  | OStr s, OStr s' | OBytes s, OBytes s' => String.eqb s s'
  | OInt z, OInt z' => z =? z'
  | OFloat f, OFloat f' => SFeqb f f'
  | _, _ => false
  end.

(** [_decode_primitive] *)
Definition decode_primitive (c : column) (value : pyobj) : res pyobj :=
  let value := match value with
               | OMemoryview s | OBytearray s =>
                   if String.eqb (col_storage_class c) "BLOB" then OBytes s else value
               | _ => value
               end in
  decoded ← with_adapter c (or_invalid c "failed type validation" (validate_lax A c value));
  match decoded with
  | ODate _ _ _ =>
      if is_text_type c then
        text ← dump_python_json A c decoded;
        if same_scalar value text then Ok decoded
        else raise ModelValidationError "noncanonical date text; migrate the stored representation"
      else Ok decoded
  | _ => Ok decoded
  end.

(** [validate_temporal_declaration] *)
Definition validate_temporal_declaration (c : column) (b : backend) : res unit :=
  match col_types c with
  | None => Ok tt
  | Some types =>
      let native := String.eqb (col_type_name c) "Date" || String.eqb (col_type_name c) "DateTime" in
      let temporal := column_temporal_type c in
      _ ← guardR (negb (native && (bool_decide (b <> BMariadb) || is_json_column c)))
            ModelDeclarationError
            "native temporal storage requires MariaDB and a non-JSON logical type";
      if is_json_column c then Ok tt
      else
        _ ← guardR (match temporal with Some k => bool_decide (types = [kind_type k]) | None => true end)
              ModelDeclarationError "a temporal column requires one meaning, optionally nullable";
        _ ← guardR (negb (String.eqb (col_type_name c) "DateTime")
                    || match temporal with Some KindUtc | Some KindLocal => true | _ => false end)
              ModelDeclarationError "DateTime requires UtcDatetime or LocalDatetime";
        _ ← guardR (negb (String.eqb (col_type_name c) "Date") || bool_decide (types = [CtDate]))
              ModelDeclarationError "Date requires the date logical type";
        _ ← guardR (negb (is_text_type c
                          && existsb (fun t => bool_decide (t = CtDatetime \/ t = CtAwareDatetime)) types
                          && negb (col_order_preserving c)))
              ModelDeclarationError
              "datetime text requires UtcDatetime or LocalDatetime, or an explicit order-preserving codec";
        _ ← guardR (match temporal with None => true | Some _ =>
                      is_text_type c || String.eqb (col_type_name c) "DateTime" end)
              ModelDeclarationError
              "datetime values require canonical text or compatible native DateTime storage";
        guardR (negb (col_server_now c)
                || match temporal with Some KindUtc => true | _ => false end)
          ModelDeclarationError "CurrentTimestamp requires a UtcDatetime column"
  end.

(** The exceptions the package raises on purpose. *)
Definition is_snekql_error (e : exn) : bool :=
  negb (bool_decide (exn_class e ∈
    [ValueError; IndexError; KeyError; OverflowError; AssertionError; TypeError; AttributeError; NameError;
     ValidationError; PydanticSerializationError; JSONDecodeError; StopIteration; RuntimeError;
     UnicodeError; RecursionError; OtherError])).

(** [except SnekqlError: raise / except Exception: raise ModelValidationError] *)
Definition or_model_error {B} (c : column) (msg : string) (r : res B) : res B :=
  match r with
  | Raise e => if is_snekql_error e then Raise e else invalid c msg
  | Ok v => Ok v
  end.

(** [Attr.decode] *)
Definition decode (c : column) (value : pyobj) (b : backend) (validate : bool) : res pyobj :=
  or_model_error c "invalid database value"
    (if is_json_column c then decode_json c value b validate
     else if String.eqb (col_type_name c) "Boolean" then
       decoded ← match value with
                 | ONone => Ok ONone
                 | _ => x ← decode_boolean c value; Ok (OBool x)
                 end;
       if validate then validate_logical_value c decoded true else Ok decoded
     else if String.eqb (col_type_name c) "DateTime" then
       decoded ← match value with
                 | ONone => Ok ONone
                 | _ => decode_native_datetime c value b
                 end;
       if validate then validate_logical_value c decoded true else Ok decoded
     else match value with
          | ONone => _ ← (if validate then coerce_null_value c else Ok tt); Ok ONone
          | _ => if validate then decode_primitive c value else Ok value
          end).

(** ** Encoding *)

(** [1 if value else 0] *)
Definition truthy (value : pyobj) : bool :=
  match value with
  | ONone => false
  | OBool b => b
  | OInt z => negb (z =? 0)
  | OFloat f => negb (SFeqb f (S754_zero false))
  | ODecimal (DFinite _ digits _) => negb (coefficient digits =? 0)
  | OStr s | OBytes s | OBytearray s | OMemoryview s => negb (String.eqb s EmptyString)
  | _ => true
  end.

(** [date.isoformat()] *)
Definition date_text (y m d : Z) : string :=
  digits 4 y +:+ "-" +:+ digits 2 m +:+ "-" +:+ digits 2 d.

Definition native_date_min_year : Z := 1000.

(** The fields of a [DateTime] column's text. *)
Definition encode_native_datetime (c : column) (t : civil) (write : bool) : res pyobj :=
  _ ← guardR (native_date_min_year <=? year t) ModelValidationError
        "DateTime requires a year in the native range 1000 through 9999";
  match col_datetime_precision c with
  | None => raise ModelValidationError "DateTime lost its precision metadata"
  | Some precision =>
      _ ← guardR (negb (write && negb (microsecond t mod 10 ^ (6 - precision) =? 0)))
            ModelValidationError "DateTime cannot store this value without losing precision";
      Ok (OStr (isoformat " " t))
  end.

(** [_encode_native_temporal] *)
Definition encode_native_temporal (c : column) (value : pyobj) (write : bool) : res pyobj :=
  if String.eqb (col_type_name c) "Date" then
    match value with
    | ODate y m d =>
        if y <? native_date_min_year
        then raise ModelValidationError
               "Date requires a calendar date in the native range 1000 through 9999"
        else Ok (OStr (date_text y m d))
    | _ => raise ModelValidationError
             "Date requires a calendar date in the native range 1000 through 9999"
    end
  else
    match value with
    | OUtc t | OLocal t => encode_native_datetime c t write
    | _ => raise ModelValidationError "DateTime requires a UtcDatetime or LocalDatetime value"
    end.

(** [_encode_decimal]: an object without [is_finite] is no [Decimal]. *)
Definition encode_decimal_value (c : column) (value : pyobj) : res pyobj :=
  match value with
  | ODecimal d =>
      match encode_decimal (col_decimal_precision c) (col_decimal_scale c) d with
      | Ok d => Ok (ODecimal d)
      | Raise e => _ ← require_name c; Raise e
      end
  | _ => raise AttributeError "is_finite"
  end.

Definition int64_min : Z := - 2 ^ 63.
Definition int64_max : Z := 2 ^ 63 - 1.

(** [len(s)] of a text: its bytes that do not continue a character. *)
Fixpoint char_count (s : string) : Z :=
  match s with
  | EmptyString => 0
  | String c s => let n := N_of_ascii c in
                  (if ((128 <=? n) && (n <=? 191))%N then 0 else 1) + char_count s
  end.

(** The checks of [_encode_primitive] on what pydantic wrote. *)
Definition check_primitive (c : column) (codec : backend_codec) (integer_sum : bool)
    (encoded : pyobj) : res pyobj :=
  match encoded with
  | OFloat f => if float_isfinite f then Ok encoded
                else invalid c "non-finite float values cannot be stored"
  | OInt z =>
      if String.eqb (col_type_name c) "Integer" && negb integer_sum
         && negb ((int64_min <=? z) && (z <=? int64_max))
      then invalid c "integer value exceeds the 64-bit range" else Ok encoded
  | OStr s =>
      match max_text_chars codec with
      | Some limit =>
          if String.eqb (col_type_name c) "Text"
             && match col_text_length c with None => true | Some l => l <=? limit end
             && (limit <? char_count s)
          then invalid c "text value exceeds the character limit for this backend" else Ok encoded
      | None => Ok encoded
      end
  | _ => Ok encoded
  end.

(** [_encode_primitive] *)
Definition encode_primitive (c : column) (value : pyobj) (codec : backend_codec)
    (integer_sum : bool) : res pyobj :=
  if String.eqb (col_storage_class c) "BLOB" then
    encoded ← with_adapter c (dump_python A c value);
    let encoded := match encoded with OUuid bytes => OBytes bytes | _ => encoded end in
    match encoded, max_blob_bytes codec with
    | OBytes s, Some limit | OBytearray s, Some limit =>
        if limit <? Z.of_nat (String.length s)
        then invalid c "binary value exceeds the byte limit for this backend" else Ok encoded
    | _, _ => Ok encoded
    end
  else
    _ ← with_adapter c (Ok tt);
    _ ← match value with
        | ODatetime d =>
            match utcoffset_ d with
            | Some o => if o mod 60000000 =? 0 then Ok tt
                        else invalid c "datetime has a sub-minute UTC offset"
            | None => Ok tt
            end
        | _ => Ok tt
        end;
    encoded ← dump_python_json A c value;
    check_primitive c codec integer_sum encoded.

(** [_encode_json] *)
Definition encode_json (c : column) (value : pyobj) : res pyobj :=
  match with_adapter c (dump_json A c value) with
  | Ok text => Ok (OStr text)
  | Raise e => if decide (exn_class e = PydanticSerializationError)
               then invalid c "is not JSON serializable" else Raise e
  end.

(** [isinstance(value, temporal)] *)
Definition has_kind (k : temporal_kind) (value : pyobj) : bool :=
  match k, value with
  | KindUtc, OUtc _ | KindLocal, OLocal _ | KindZoned, OZoned _ => true
  | _, _ => false
  end.

(** [_encode_value] after the NULL and JSON cases. *)
Definition encode_scalar (c : column) (value : pyobj) (codec : backend_codec)
    (integer_sum write : bool) : res pyobj :=
  _ ← guardR (match column_temporal_type c with Some k => has_kind k value | None => true end)
        ModelValidationError "comparison or assignment value has an incompatible temporal meaning";
  if String.eqb (col_type_name c) "Boolean" then Ok (OInt (if truthy value then 1 else 0))
  else if String.eqb (col_type_name c) "Decimal" then encode_decimal_value c value
  else if String.eqb (col_type_name c) "Date" || String.eqb (col_type_name c) "DateTime"
  then encode_native_temporal c value write
  else encode_primitive c value codec integer_sum.

(** [_encode_value] *)
Definition encode_value (c : column) (value : pyobj) (codec : backend_codec)
    (integer_sum write : bool) : res pyobj :=
  match value with
  | ONone => Ok ONone
  | _ =>
      if is_json_column c then encode_json c value
      else encode_scalar c value codec integer_sum write
  end.

(** [Attr.encode] *)
Definition encode (c : column) (value : pyobj) (b : backend) (integer_sum write : bool) : res pyobj :=
  match value with
  | OPending => Ok OPending
  | _ => or_model_error c "invalid model value"
           (encode_value c value (BACKEND_CODECS b)
              (integer_sum && bool_decide (b = BMariadb)) write)
  end.

(** [Attr.validate_model_value] *)
Definition validate_model_value (c : column) (value : pyobj) : res pyobj :=
  or_model_error c "invalid model value" (validate_logical_value c value false).

(** ** Errors *)

Lemma invalid_raises {B} c msg : exists e, invalid (B:=B) c msg = Raise e /\ is_snekql_error e = true.
Proof. unfold invalid, require_name. destruct (col_name c); simpl; eexists; (split; [reflexivity|done]). Qed.

Lemma or_model_error_public {B} c msg (r : res B) e :
  or_model_error c msg r = Raise e -> is_snekql_error e = true.
Proof.
  destruct r as [v|e']; simpl; [done|]. destruct (is_snekql_error e') eqn:He; [by intros [= <-]|].
  destruct (invalid_raises (B:=B) c msg) as (e1 & -> & H1). by intros [= <-].
Qed.

(** the codec fails with the package's own exceptions only.  Whatever pydantic
    raises, and whatever object is given, encoding, decoding and validating a
    value either return or raise a snekql error. *)
Theorem codec_errors_public c v b sum write validate e :
  (encode c v b sum write = Raise e -> is_snekql_error e = true) /\
  (decode c v b validate = Raise e -> is_snekql_error e = true) /\
  (validate_model_value c v = Raise e -> is_snekql_error e = true).
Proof.
  split; [|split; apply or_model_error_public].
  unfold encode. destruct v; try apply or_model_error_public. done.
Qed.

(** ** What is stored *)

Lemma or_model_error_Ok {B} c msg (r : res B) v : or_model_error c msg r = Ok v <-> r = Ok v.
Proof.
  destruct r as [x|e]; simpl; [done|]. destruct (is_snekql_error e); [done|].
  destruct (invalid_raises (B:=B) c msg) as (e1 & -> & _). done.
Qed.

Lemma invalid_Ok {B} c msg (v : B) : invalid c msg <> Ok v.
Proof. by destruct (invalid_raises (B:=B) c msg) as (e & -> & _). Qed.

Lemma with_adapter_Ok {B} c (r : res B) v : with_adapter c r = Ok v ->
  r = Ok v /\ is_Some (col_name c) /\ col_owned c = true.
Proof.
  unfold with_adapter, require_name. intros H. destruct (col_name c); [|done]. simpl in H.
  bind_inv H as u Hu. by apply guardR_Ok in Hu.
Qed.

Definition digits_ok (d : decimal) : Prop :=
  match d with DFinite _ digits _ => valid_digits digits = true | DSpecial => True end.

(** What a driver value must satisfy to be stored unchanged, as far as the codec
    answers for it: the length a [Text] column declares is left to the server. *)
Definition storable (c : column) (b : backend) (integer_sum write : bool) (w : pyobj) : Prop :=
  (forall z, w = OInt z -> col_type_name c = "Integer" -> col_storage_class c <> "BLOB" ->
     integer_sum && bool_decide (b = BMariadb) = false -> int64_min <= z <= int64_max) /\
  (forall f, w = OFloat f -> col_storage_class c <> "BLOB" -> float_isfinite f = true) /\
  (forall s, w = OStr s -> b = BMariadb -> col_type_name c = "Text" -> col_storage_class c <> "BLOB" ->
     match col_text_length c with None => True | Some l => l <= 255 end -> char_count s <= 255) /\
  (forall s, w = OBytes s \/ w = OBytearray s -> b = BMariadb -> col_storage_class c = "BLOB" ->
     Z.of_nat (String.length s) <= 65535) /\
  (col_type_name c = "Boolean" -> w = ONone \/ w = OInt 0 \/ w = OInt 1) /\
  (col_type_name c = "Decimal" -> w = ONone \/
     exists d precision scale, w = ODecimal d /\ col_decimal_precision c = Some precision /\
       col_decimal_scale c = Some scale /\
       (0 <= scale <= precision -> digits_ok d -> fits_decimal precision scale d)) /\
  (col_type_name c = "Date" -> w = ONone \/
     exists y m d, w = OStr (date_text y m d) /\ native_date_min_year <= y) /\
  (col_type_name c = "DateTime" -> w = ONone \/
     exists t precision, w = OStr (isoformat " " t) /\ native_date_min_year <= year t /\
       col_datetime_precision c = Some precision /\
       (write = true -> microsecond t mod 10 ^ (6 - precision) = 0)).

Lemma encode_decimal_same p s d d' : encode_decimal p s d = Ok d' -> d' = d.
Proof.
  unfold encode_decimal. destruct p, s; try done. destruct d; [|done].
  destruct (_ =? 0); [by intros [= <-]|]. destruct (_ || _); [done|by intros [= <-]].
Qed.

Lemma encode_decimal_fitting p s d d' : encode_decimal p s d = Ok d' ->
  exists precision scale, p = Some precision /\ s = Some scale /\
    (0 <= scale <= precision -> digits_ok d -> fits_decimal precision scale d).
Proof.
  intros H. destruct p as [precision|], s as [scale|]; try done. exists precision, scale. split_and!; [done..|].
  intros Hs Hd. apply encode_decimal_fits; [done|done|]. pose proof (encode_decimal_same _ _ _ _ H). congruence.
Qed.

Lemma check_primitive_Ok c codec sum x w : check_primitive c codec sum x = Ok w ->
  w = x /\
  (forall z, x = OInt z -> col_type_name c = "Integer" -> sum = false -> int64_min <= z <= int64_max) /\
  (forall f, x = OFloat f -> float_isfinite f = true) /\
  (forall s limit, x = OStr s -> max_text_chars codec = Some limit -> col_type_name c = "Text" ->
     match col_text_length c with None => True | Some l => l <= limit end -> char_count s <= limit).
Proof.
  intros H. unfold check_primitive in H.
  destruct x as [| |bb|z|f|d|s|s|s|s|s|y m d|dt|t|t|dt|i]; try (injection H as <-; by repeat split).
  - destruct (String.eqb _ _ && _ && _) eqn:Hb; [by apply invalid_Ok in H|]. injection H as <-.
    repeat split; try done; injection H as <-; rewrite H0, H1 in Hb; simpl in Hb;
      apply negb_false_iff, andb_true_iff in Hb; rewrite !Z.leb_le in Hb; lia.
  - destruct (float_isfinite f) eqn:Hf; [|by apply invalid_Ok in H]. injection H as <-.
    repeat split; try done. by intros f' [= <-].
  - destruct (max_text_chars codec) as [limit|]; [|by injection H as <-].
    destruct (String.eqb _ _ && _ && _) eqn:Hb; [by apply invalid_Ok in H|]. injection H as <-.
    repeat split; try done. intros s' l' [= <-] [= <-] Ht Hl. rewrite Ht in Hb. simpl in Hb.
    destruct (Z.ltb_spec limit (char_count s)); [|done]. rewrite andb_true_r in Hb.
    destruct (col_text_length c) as [l|]; [|done]. apply Z.leb_gt in Hb. lia.
Qed.

Lemma storable_none c b sum write : storable c b sum write ONone.
Proof. unfold storable. split_and!; intros; try (left; done); destruct_or?; congruence. Qed.

Lemma primitive_storable c v b sum write w :
  col_type_name c <> "Boolean" -> col_type_name c <> "Decimal" -> col_type_name c <> "Date" ->
  col_type_name c <> "DateTime" ->
  encode_primitive c v (BACKEND_CODECS b) (sum && bool_decide (b = BMariadb)) = Ok w ->
  storable c b sum write w.
Proof.
  intros H1 H2 H3 H4 H. unfold encode_primitive in H.
  destruct (String.eqb_spec (col_storage_class c) "BLOB") as [Hb|Hb].
  - bind_inv H as x Hx. set (y := match x with OUuid s => OBytes s | _ => x end) in *.
    unfold storable. split_and!; try (intros; congruence).
    intros s Hw -> _. destruct y as [| |bb|z|f|d|s'|s'|s'|s'|s'|yy m d|dt|t|t|dt|i]; simpl in H;
      try (injection H as <-; by destruct Hw).
    all: destruct (Z.ltb_spec 65535 (Z.of_nat (String.length s'))); [by apply invalid_Ok in H|];
      injection H as <-; destruct Hw; simplify_eq; lia.
  - bind_inv H as u Hu. bind_inv H as u' Hu'. bind_inv H as x Hx.
    apply check_primitive_Ok in H as (-> & Hi & Hf & Ht). unfold storable.
    split_and!; try (intros; congruence).
    + intros z Hz Hn _ Hs. by eapply Hi.
    + intros f Hz _. by eapply Hf.
    + intros s Hz -> Hn _ Hl. by eapply Ht.
Qed.

Lemma native_storable c v b sum write w :
  col_type_name c = "Date" \/ col_type_name c = "DateTime" ->
  encode_native_temporal c v write = Ok w -> storable c b sum write w.
Proof.
  intros Hn H. unfold encode_native_temporal in H.
  assert (Hgo : (col_type_name c = "Date" /\ exists y m d, w = OStr (date_text y m d) /\ native_date_min_year <= y) \/
                exists t, encode_native_datetime c t write = Ok w /\ col_type_name c <> "Date").
  { destruct (String.eqb_spec (col_type_name c) "Date") as [Hd|Hd]; destruct v; try done; eauto.
    left. split; [done|]. destruct (Z.ltb_spec y native_date_min_year); [done|]. injection H as <-. eauto. }
  clear H. destruct Hgo as [[Hd (y & m & d & -> & Hy)]|(t & Hgo & Hd)].
  { unfold storable. split_and!; try (intros; destruct_or?; congruence). intros _. right. eauto 6. }
  destruct Hn as [Hn|Hn]; [done|]. unfold encode_native_datetime in Hgo. bind_inv Hgo as u Hu.
  destruct (col_datetime_precision c) as [p|] eqn:Hp; [|done].
  bind_inv Hgo as u' Hu'. injection Hgo as <-. apply guardR_Ok in Hu, Hu'. apply Z.leb_le in Hu.
  unfold storable. split_and!; try (intros; destruct_or?; congruence). intros _.
  right. exists t, p. repeat (split; [done|]). intros ->. simpl in Hu'.
  by apply negb_true_iff, negb_false_iff, Z.eqb_eq in Hu'.
Qed.

(** C30: what is sent to the driver is within the bounds the codec sets.  For every
    column that is not JSON: an Integer within 64 bits (but for a value compared
    with a MariaDB SUM), finite floats, 0 or 1 for a boolean, at most 65535 bytes of
    a MariaDB Blob and 255 characters of a MariaDB Text that declares no greater
    length, a finite DECIMAL that is an integer of at most [precision] digits over
    [10 ^ scale], and for a native date or datetime the text of a year the backend
    accepts, with the column's precision when the value is written (not when it is
    compared).  A shorter length a Text declares is not enforced here. *)
Theorem encoded_storable c v b sum write w
  (Hj : is_json_column c = false) (Hv : v <> OPending)
  (He : encode c v b sum write = Ok w) :
  storable c b sum write w.
Proof.
  unfold encode in He.
  assert (H : encode_value c v (BACKEND_CODECS b) (sum && bool_decide (b = BMariadb)) write = Ok w)
    by (destruct v; try done; by apply or_model_error_Ok in He).
  clear He. unfold encode_value in H. rewrite Hj in H.
  assert (Hcase : w = ONone \/
    encode_scalar c v (BACKEND_CODECS b) (sum && bool_decide (b = BMariadb)) write = Ok w).
  { destruct v; auto. left. by injection H. }
  destruct Hcase as [->|H']; [apply storable_none|].
  clear H. unfold encode_scalar in H'. bind_inv H' as u Hu.
  destruct (String.eqb_spec (col_type_name c) "Boolean") as [Hb|Hb].
  { injection H' as <-. unfold storable. split_and!; try (intros; destruct_or?; congruence).
    intros _. right. destruct (truthy v); auto. }
  destruct (String.eqb_spec (col_type_name c) "Decimal") as [Hd|Hd].
  { unfold encode_decimal_value in H'. destruct v as [| |bb|z|f|d|s|s|s|s|s|y m d|dt|t|t|dt|i]; try done.
    destruct (encode_decimal _ _ d) as [d'|e] eqn:Hed; [|by bind_inv H' as n Hn]. injection H' as <-.
    unfold storable. split_and!; try (intros; destruct_or?; congruence).
    intros _. right. pose proof (encode_decimal_same _ _ _ _ Hed) as ->.
    destruct (encode_decimal_fitting _ _ _ _ Hed) as (precision & scale & Hprecision & Hscale & Hfit). by exists d, precision, scale. }
  destruct (String.eqb_spec (col_type_name c) "Date") as [Hda|Hda];
    [eapply native_storable; [by left|exact H']|].
  destruct (String.eqb_spec (col_type_name c) "DateTime") as [Hdt|Hdt];
    [eapply native_storable; [by right|exact H']|].
  eapply primitive_storable; [exact Hb|exact Hd|exact Hda|exact Hdt|exact H'].

Qed.

(** ** Round trip *)

(** What pydantic itself does with the values of a column: what it writes, as the
    column's storage asks it to, ... *)
Definition adapter_dump (c : column) (v : pyobj) : res pyobj :=
  if is_json_column c then t ← dump_json A c v; Ok (OStr t)
  else if String.eqb (col_storage_class c) "BLOB" then dump_python A c v
  else dump_python_json A c v.

(** ... and what it makes of a value from the driver: JSON of its text, a BLOB of
    its bytes. *)
Definition adapter_load (c : column) (w : pyobj) : res pyobj :=
  if is_json_column c then
    match w with
    | OStr t | OBytes t | OBytearray t => validate_json A c t
    | _ => raise TypeError "JSON input should be string or bytes"
    end
  else validate_lax A c match w with
                        | OMemoryview s | OBytearray s =>
                            if String.eqb (col_storage_class c) "BLOB" then OBytes s else w
                        | _ => w
                        end.

(** The value [w] comes back as [w']: the bytes of a BLOB in any kind of buffer, a
    flag as an integer and an integer of a Real column as a float. *)
Definition buffer_of (s : string) (w : pyobj) : Prop := w = OBytes s \/ w = OBytearray s \/ w = OMemoryview s.
Definition stored_as (c : column) (w w' : pyobj) : Prop :=
  w' = w \/
  (exists s, col_storage_class c = "BLOB" /\ buffer_of s w /\ buffer_of s w') \/
  (exists x, w = OBool x /\ w' = OInt (if x then 1 else 0)) \/
  (exists z, w = OInt z /\ col_type_name c = "Real" /\ w' = OFloat (float_of_int z)).

(** What [w'] comes back for what pydantic wrote as [x]: the text of a JSON value,
    on MariaDB possibly as bytes; a UUID in a BLOB as its 16 bytes. *)
Definition carried (c : column) (b : backend) (x w' : pyobj) : Prop :=
  if is_json_column c then
    exists t, x = OStr t /\
      (w' = OStr t \/ b = BMariadb /\ utf8_valid A t = true /\ (w' = OBytes t \/ w' = OBytearray t))
  else if String.eqb (col_storage_class c) "BLOB" then
    stored_as c match x with OUuid s => OBytes s | _ => x end w'
  else stored_as c x w'.

(** [_temporal_schema] of the two kinds that are stored as they are: an instance
    is accepted as itself, text through [_from_wire], and JSON mode writes
    [_serialize]. *)
Record temporal_schema (c : column) : Prop := TemporalSchema {
  ts_utc_dump : forall t, dump_python_json A c (OUtc t) = Ok (OStr (utc_serialize t));
  ts_local_dump : forall t, dump_python_json A c (OLocal t) = Ok (OStr (local_serialize t));
  ts_utc_load : forall s t, column_temporal_type c = Some KindUtc ->
    utc_from_wire zone_offset foreign_offset other_iso s = Ok t -> validate_lax A c (OStr s) = Ok (OUtc t);
  ts_local_load : forall s t, column_temporal_type c = Some KindLocal ->
    local_from_wire (zone:=zone) other_iso s = Ok t -> validate_lax A c (OStr s) = Ok (OLocal t)
}.

(** A DECIMAL comes back at the scale of its column. *)
Inductive same_value : pyobj -> pyobj -> Prop :=
  | same_itself v : same_value v v
  | same_rescaled d d' : same_number d d' -> same_value (ODecimal d) (ODecimal d').

(** An instance of the annotation validates as itself, strictly or not. *)
Definition instance_kept (c : column) (v : pyobj) : Prop :=
  forall v', same_value v v' -> validate_strict A c v' = Ok v' /\ validate_lax A c v' = Ok v'.

(** The columns whose representation is the package's own, not pydantic's. *)
Definition own_storage (c : column) : bool :=
  negb (is_json_column c) &&
  (String.eqb (col_type_name c) "Boolean" || String.eqb (col_type_name c) "Decimal" ||
   String.eqb (col_type_name c) "Date" || String.eqb (col_type_name c) "DateTime" ||
   match column_temporal_type c with Some KindUtc | Some KindLocal => true | _ => false end).

(** Python objects in range. *)
Definition valid_value (v : pyobj) : Prop :=
  match v with
  | OUtc t | OLocal t => valid_civil t = true
  | ODate y m d => valid_date y m d
  | _ => True
  end.

(** What the driver returns for a stored value.  MariaDB hands native temporal
    columns back as date and datetime objects with the fields stored, a DECIMAL
    with all the digits of its scale, and JSON as text or bytes. *)
Definition driver_returns (c : column) (b : backend) (w w' : pyobj) : Prop :=
  w = ONone /\ w' = ONone \/ w <> ONone /\
  if is_json_column c then
    exists t, w = OStr t /\
      (w' = OStr t \/ b = BMariadb /\ utf8_valid A t = true /\ (w' = OBytes t \/ w' = OBytearray t))
  else if String.eqb (col_type_name c) "DateTime" then
    exists t, valid_civil t = true /\ w = OStr (isoformat " " t) /\ w' = ODatetime (naive t)
  else if String.eqb (col_type_name c) "Date" then
    exists y m d, valid_date y m d /\ w = OStr (date_text y m d) /\ w' = ODate y m d
  else if String.eqb (col_type_name c) "Decimal" then
    exists d negative digits scale, w = ODecimal d /\ col_decimal_scale c = Some scale /\
      w' = ODecimal (DFinite negative digits (- scale)) /\ same_number d (DFinite negative digits (- scale))
  else stored_as c w w'.

(** A bound column whose declaration was accepted. *)
Record declared (c : column) (b : backend) : Prop := Declared {
  decl_name : is_Some (col_name c);
  decl_owned : col_owned c = true;
  decl_types : is_Some (col_types c);
  decl_temporal : validate_temporal_declaration c b = Ok tt;
  decl_boolean : col_type_name c = "Boolean" -> col_types c <> Some [CtInt];
  decl_blob : col_storage_class c = "BLOB" ->
    is_text_type c = false /\ col_type_name c <> "Date" /\ col_type_name c <> "Decimal"
}.

Lemma with_adapter_bound {B} c b (r : res B) : declared c b -> with_adapter c r = r.
Proof.
  intros [[n Hn] Ho _ _ _ _]. unfold with_adapter, require_name. rewrite Hn. simpl. by rewrite Ho.
Qed.

Lemma isoformat_inj sep t t' : valid_civil t = true -> valid_civil t' = true ->
  isoformat sep t = isoformat sep t' -> t = t'.
Proof.
  intros Ht Ht' H. apply micros_of_inj; [done|done|]. apply Z.compare_eq_iff.
  rewrite <- (isoformat_compare sep EmptyString) by done. rewrite H. apply compare_refl.
Qed.

Lemma date_text_inj y m d y' m' d' : valid_date y m d -> valid_date y' m' d' ->
  date_text y m d = date_text y' m' d' -> y = y' /\ m = m' /\ d = d'.
Proof.
  intros Hv Hv' H. pose (c := Civil y m d 0 0 0 0). pose (c' := Civil y' m' d' 0 0 0 0).
  assert (Hc : valid_civil c = true) by (apply valid_civil_iff; simpl; split; [done|lia]).
  assert (Hc' : valid_civil c' = true) by (apply valid_civil_iff; simpl; split; [done|lia]).
  assert (Heq : isoformat "T" c = isoformat "T" c').
  { unfold isoformat, c, c'. simpl. unfold date_text in H.
    apply (f_equal (fun s => s +:+ "T00:00:00.000000")) in H. by rewrite !string_app_assoc in H. }
  apply isoformat_inj in Heq; [|done|done]. unfold c, c' in Heq. by injection Heq.
Qed.

(** Validating a fetched value that is already the logical one. *)
Lemma validate_same c b v : declared c b -> validate_strict A c v = Ok v ->
  (v = ONone -> col_nullable c = true) -> v <> OPending ->
  (forall x, v = OBool x -> col_types c <> Some [CtInt]) ->
  validate_logical_value c v true = Ok v.
Proof.
  intros Hd Hl Hn Hp Hb. destruct v as [| |x|z|f|d|s|s|s|s|s|y m d|dt|t|t|dt|i]; try done;
    cbn [validate_logical_value];
    try (rewrite (with_adapter_bound _ _ _ Hd); simpl; by rewrite Hl).
  - unfold coerce_null_value. by rewrite Hn.
  - rewrite (with_adapter_bound _ _ _ Hd). simpl. rewrite bool_decide_false by by apply (Hb x). by rewrite Hl.
Qed.

(** Reading through pydantic is its own reading, but for the text of a date, which
    has to be the one it writes. *)
Definition canonical_date (c : column) (w r : pyobj) : Prop :=
  match r with
  | ODate _ _ _ => is_json_column c = false -> is_text_type c = true ->
      exists text, dump_python_json A c r = Ok text /\ same_scalar w text = true
  | _ => True
  end.

Lemma or_invalid_Ok {B} c msg (r : res B) v : or_invalid c msg r = Ok v <-> r = Ok v.
Proof.
  destruct r as [x|e]; simpl; [done|]. destruct (decide _); [|done].
  destruct (invalid_raises (B:=B) c msg) as (e' & -> & _). done.
Qed.

Lemma decode_primitive_load c b w r : declared c b -> is_json_column c = false ->
  col_storage_class c <> "BLOB" \/ is_text_type c = false ->
  decode_primitive c w = Ok r <-> adapter_load c w = Ok r /\ canonical_date c w r.
Proof.
  intros Hd Hj Hb. unfold decode_primitive, adapter_load. rewrite Hj, (with_adapter_bound _ _ _ Hd).
  set (w0 := match w with OMemoryview s | OBytearray s => _ | _ => _ end).
  assert (Hw : is_text_type c = true -> w0 = w).
  { intros Ht. destruct Hb as [Hb|Hb]; [|congruence]. apply String.eqb_neq in Hb.
    unfold w0. rewrite Hb. by destruct w. }
  destruct (validate_lax A c w0) as [v|e] eqn:Hv.
  2:{ split; [|by intros []]. intros H. destruct (or_invalid _ _ _) eqn:Ho; [|done]. by apply or_invalid_Ok in Ho. }
  cbn [or_invalid mbind res_bind]. unfold canonical_date.
  destruct v as [| |x|z|f|d|s|s|s|s|s|y m d|dt|t|t|dt|i]; try (split; [by intros [= <-]|by intros [[= <-] _]]).
  destruct (is_text_type c) eqn:Ht; [|split; [by intros [= <-]|by intros [[= <-] _]]].
  rewrite (Hw eq_refl). split.
  - intros H. destruct (dump_python_json A c _) as [t|e] eqn:Hdump; [|done]. cbn [mbind res_bind] in H.
    destruct (same_scalar w t) eqn:Hs; [|done]. injection H as <-. eauto.
  - intros [[= <-] Hc]. destruct (Hc Hj eq_refl) as (t & -> & Hs). cbn [mbind res_bind]. by rewrite Hs.
Qed.

Lemma decode_datetime_same c b v t : declared c b -> col_type_name c = "DateTime" ->
  is_json_column c = false ->
  (match column_temporal_type c with Some k => has_kind k v | None => true end) = true ->
  v = OUtc t \/ v = OLocal t -> valid_civil t = true ->
  decode_native_datetime c (ODatetime (naive t)) b = Ok v.
Proof.
  intros Hd Hn Hj Hk Hv Ht. pose proof (decl_temporal _ _ Hd) as Hdecl.
  destruct (decl_types _ _ Hd) as [types Htypes]. unfold validate_temporal_declaration in Hdecl.
  rewrite Htypes, Hn, Hj in Hdecl. bind_inv Hdecl as u Hu. cbv beta iota in Hdecl.
  bind_inv Hdecl as u1 Hu1. bind_inv Hdecl as u2 Hu2. apply guardR_Ok in Hu, Hu2. simpl in Hu, Hu2.
  assert (Hb : b = BMariadb) by by destruct b. subst b.
  unfold decode_native_datetime.
  change (decode_datetime BMariadb c (ODatetime (naive t))) with (Ok (utc (zone:=zone) t)).
  cbn [mbind res_bind]. destruct (column_temporal_type c) as [[]|]; try done.
  - destruct Hv as [-> | ->]; [|done]. by rewrite utc_datetime_utc.
  - destruct Hv as [-> | ->]; done.
Qed.

(** What is sent for a value that is not NULL. *)
Lemma encode_sent c v b w : v <> ONone -> v <> OPending -> encode c v b false true = Ok w ->
  (if is_json_column c then encode_json c v else encode_scalar c v (BACKEND_CODECS b) false true) = Ok w.
Proof.
  intros Hn Hp H. assert (H' : encode_value c v (BACKEND_CODECS b) false true = Ok w)
    by (unfold encode in H; destruct v; try done; by apply or_model_error_Ok in H).
  by destruct v.
Qed.

(** pydantic's half of [_encode_primitive]. *)
Lemma encode_primitive_dump c v codec w : is_json_column c = false ->
  encode_primitive c v codec false = Ok w ->
  exists x, adapter_dump c v = Ok x /\
    w = if String.eqb (col_storage_class c) "BLOB" then match x with OUuid s => OBytes s | _ => x end else x.
Proof.
  intros Hj H. unfold encode_primitive in H. unfold adapter_dump. rewrite Hj.
  destruct (String.eqb (col_storage_class c) "BLOB").
  - bind_inv H as x Hx. apply with_adapter_Ok in Hx as (Hx & _). exists x. split; [done|].
    set (y := match x with OUuid s => OBytes s | _ => x end) in *. clearbody y.
    destruct y, (max_blob_bytes codec); try (by injection H as <-);
      (destruct (_ <? _); [by apply invalid_Ok in H|by injection H as <-]).
  - bind_inv H as u Hu. bind_inv H as u2 Hu2. bind_inv H as x Hx.
    apply check_primitive_Ok in H as [-> _]. by exists x.
Qed.

(** The package's own representations that pydantic reads back, one by one. *)
Definition reads_back (c : column) (v w' : pyobj) : Prop :=
  w' <> ONone /\ exists v', same_value v v' /\ decode_primitive c w' = Ok v'.

Lemma not_blob c b n : declared c b -> col_type_name c = n -> n = "Date"%string \/ n = "Decimal"%string ->
  col_storage_class c <> "BLOB"%string.
Proof. intros Hd <- Hor Hb. destruct (decl_blob _ _ Hd Hb) as (_ & H1 & H2). by destruct Hor. Qed.

Lemma decimal_reads_back c v b w w' : declared c b -> is_json_column c = false -> instance_kept c v ->
  col_type_name c = "Decimal"%string -> encode_decimal_value c v = Ok w -> driver_returns c b w w' ->
  reads_back c v w'.
Proof.
  intros Hd Hj Hk He H Hw. unfold encode_decimal_value in H.
  destruct v as [| |x|z|f|d|s|s|s|s|s|y m d|dt|t|t|dt|i]; try done.
  destruct (encode_decimal _ _ d) as [d'|e] eqn:Hed; [|by bind_inv H as n Hname]. injection H as <-.
  apply encode_decimal_same in Hed as ->. destruct Hw as [[? _]|[_ Hw]]; [done|].
  rewrite Hj, He in Hw. simpl in Hw. destruct Hw as (d' & negative & digits & scale & [= <-] & _ & -> & Hsame).
  split; [done|]. exists (ODecimal (DFinite negative digits (- scale))). split; [by constructor|].
  apply (decode_primitive_load c b); [done|done|by left; eapply not_blob; eauto|]. split; [|done].
  unfold adapter_load. rewrite Hj. by apply Hk; constructor.
Qed.

Lemma date_reads_back c v b w w' : declared c b -> is_json_column c = false -> valid_value v ->
  instance_kept c v -> col_type_name c = "Date"%string -> encode_native_temporal c v true = Ok w ->
  driver_returns c b w w' -> reads_back c v w'.
Proof.
  intros Hd Hj Hv Hk Ha H Hw. unfold encode_native_temporal in H. rewrite Ha in H. simpl in H.
  destruct v as [| |x|z|f|d|s|s|s|s|s|y m d|dt|t|t|dt|i]; try done.
  destruct (Z.ltb_spec y native_date_min_year); [done|]. injection H as <-.
  destruct Hw as [[? _]|[_ Hw]]; [done|]. rewrite Hj, Ha in Hw. simpl in Hw.
  destruct Hw as (y' & m' & d' & Hv' & Heq & ->). assert (Htext : date_text y m d = date_text y' m' d') by congruence.
  apply date_text_inj in Htext as (<- & <- & <-); [|done|done]. split; [done|].
  exists (ODate y m d). split; [constructor|].
  apply (decode_primitive_load c b); [done|done|by left; eapply not_blob; eauto|]. split.
  - unfold adapter_load. rewrite Hj. apply Hk; constructor.
  - simpl. unfold is_text_type. by rewrite Ha.
Qed.

(** A temporal column is text or a native [DateTime]. *)
Lemma temporal_not_blob c b : declared c b -> is_json_column c = false -> col_type_name c <> "DateTime"%string ->
  is_Some (column_temporal_type c) -> col_storage_class c <> "BLOB"%string.
Proof.
  intros Hd Hj Hn [k Hk] Hbl. destruct (decl_blob _ _ Hd Hbl) as (Htext & _). pose proof (decl_temporal _ _ Hd) as Hdecl.
  destruct (decl_types _ _ Hd) as [types Htypes]. unfold validate_temporal_declaration in Hdecl.
  rewrite Htypes, Hj in Hdecl. bind_inv Hdecl as u1 Hu1. cbv beta iota in Hdecl.
  do 4 (bind_inv Hdecl as u2 Hu2; clear u2 Hu2). bind_inv Hdecl as u3 Hu3. apply guardR_Ok in Hu3.
  by rewrite Htext, Hk, (proj2 (String.eqb_neq _ "DateTime")) in Hu3.
Qed.

Lemma temporal_text_reads_back c v b w w' k : declared c b -> is_json_column c = false -> valid_value v ->
  temporal_schema c -> col_type_name c ∉ ["Date"; "DateTime"; "Decimal"]%string ->
  column_temporal_type c = Some k -> k = KindUtc \/ k = KindLocal -> has_kind k v = true ->
  encode_primitive c v (BACKEND_CODECS b) false = Ok w -> driver_returns c b w w' -> reads_back c v w'.
Proof.
  intros Hd Hj Hv Hs Hn Hk Hor Hkind H Hw.
  assert (Hnames : (col_type_name c <> "Date" /\ col_type_name c <> "DateTime" /\ col_type_name c <> "Decimal")%string)
    by (rewrite !not_elem_of_cons in Hn; tauto). destruct Hnames as (H1 & H2 & H3).
  assert (Hclass : col_storage_class c <> "BLOB"%string) by (eapply temporal_not_blob; eauto).
  apply String.eqb_neq in Hclass as Hclass'.
  apply encode_primitive_dump in H as (x & Hx & ->); [|done]. rewrite Hclass' in Hw.
  unfold adapter_dump in Hx. rewrite Hj, Hclass' in Hx.
  assert (Hone : exists text, x = OStr text /\ validate_lax A c (OStr text) = Ok v).
  { destruct Hor as [-> | ->], v; try done; simpl in Hv;
      [rewrite (ts_utc_dump c Hs) in Hx|rewrite (ts_local_dump c Hs) in Hx]; injection Hx as <-;
      (eexists; split; [reflexivity|]).
    - apply (ts_utc_load c Hs); [done|]. by apply utc_wire_exact.
    - apply (ts_local_load c Hs); [done|]. by apply (proj1 (local_wire_exact other_iso _ c0 c0 Hv Hv)). }
  destruct Hone as (text & -> & Hload). destruct Hw as [[? _]|[_ Hw]]; [done|].
  rewrite Hj, !(proj2 (String.eqb_neq _ _)) in Hw by done.
  assert (w' = OStr text) as -> by (destruct Hw as [->|[(s & ? & _)|[(y & ? & _)|(z & ? & _)]]]; done).
  split; [done|]. exists v. split; [constructor|]. apply (decode_primitive_load c b); [done|done|by left|].
  split; [unfold adapter_load; by rewrite Hj|by destruct Hor as [-> | ->], v].
Qed.

(** A value that is not NULL comes back as one that is not. *)
Lemma driver_value c b w w' : driver_returns c b w w' -> w <> ONone -> w' <> ONone.
Proof.
  intros [[? _]|[_ Hw]] Hn; [done|]. unfold stored_as, buffer_of in Hw. repeat case_match; naive_solver.
Qed.

(** What pydantic reads is what it wrote, carried by the codec and the database. *)
Lemma foreign_reads_back c v b w w' : declared c b -> own_storage c = false -> v <> ONone -> w <> ONone ->
  (if is_json_column c then encode_json c v else encode_scalar c v (BACKEND_CODECS b) false true) = Ok w ->
  driver_returns c b w w' -> exists x, adapter_dump c v = Ok x /\ carried c b x w'.
Proof.
  intros Hd Ho Hn Hnw H [[? _]|[_ Hw]]; [done|]. unfold own_storage in Ho. unfold adapter_dump, carried.
  destruct (is_json_column c) eqn:Hj.
  - unfold encode_json in H. rewrite (with_adapter_bound _ _ _ Hd) in H.
    destruct (dump_json A c v) as [t|e]; [|destruct (decide _); [by apply invalid_Ok in H|done]].
    injection H as <-. destruct Hw as (t' & [= <-] & Hw). exists (OStr t). split; [done|]. exists t. naive_solver.
  - simpl in Ho. rewrite !orb_false_iff in Ho. destruct Ho as [[[[Hb Hde] Hda] Hdt] _].
    unfold encode_scalar in H. rewrite Hb, Hde, Hda, Hdt in H. simpl in H. bind_inv H as u Hu.
    rewrite Hda, Hde, Hdt in Hw. apply encode_primitive_dump in H as (x & Hx & ->); [|done].
    unfold adapter_dump in Hx. rewrite Hj in Hx. exists x. split; [done|]. by destruct (String.eqb _ "BLOB").
Qed.

Lemma decode_null c b w w' : col_nullable c = true -> encode c ONone b false true = Ok w ->
  driver_returns c b w w' -> decode c w' b true = Ok ONone.
Proof.
  intros Hn [= <-] [[_ ->]|[? _]]; [|done]. unfold decode. apply or_model_error_Ok.
  unfold validate_logical_value, decode_json, coerce_null_value. rewrite Hn. simpl.
  by repeat case_match.
Qed.

Lemma own_reads_back c v b w w' : declared c b -> valid_value v -> v <> ONone -> v <> OPending ->
  (col_type_name c = "Boolean"%string -> is_json_column c = false -> v = ONone \/ exists x, v = OBool x) ->
  own_storage c = true -> instance_kept c v -> temporal_schema c ->
  (if is_json_column c then encode_json c v else encode_scalar c v (BACKEND_CODECS b) false true) = Ok w ->
  driver_returns c b w w' -> exists v', same_value v v' /\ decode c w' b true = Ok v'.
Proof.
  intros Hd Hv Hn Hp Hbool Ho Hk Hs H Hw. unfold decode. destruct (is_json_column c) eqn:Hj;
    [by unfold own_storage in Ho; rewrite Hj in Ho|].
  destruct (Hk v ltac:(constructor)) as [Hstrict _]. assert (Hw0 := Hw).
  unfold encode_scalar in H. bind_inv H as u Hu. apply guardR_Ok in Hu.
  destruct (String.eqb_spec (col_type_name c) "Boolean") as [Hb|Hb].
  { injection H as <-. destruct (Hbool Hb eq_refl) as [|[x ->]]; [done|].
    exists (OBool x). split; [constructor|]. apply or_model_error_Ok.
    destruct Hw as [[? _]|[_ Hw]]; [by destruct x|]. rewrite Hj, Hb in Hw. simpl in Hw.
    assert (w' = OInt (if x then 1 else 0)) as ->.
    { unfold stored_as in Hw. rewrite Hb in Hw. destruct Hw as [->|[(s & _ & [?|[?|?]] & _)|[(y & ? & _)|(z & _ & ? & _)]]]; done || by destruct x. }
    assert (Hx : decode_boolean c (OInt (if x then 1 else 0)) = Ok x) by by destruct x.
    rewrite Hx. cbn [mbind res_bind]. apply (validate_same c b); try done.
    intros _ _. by apply (decl_boolean _ _ Hd). }
  destruct (decide (col_type_name c = "DateTime"%string)) as [Hdt|Hdt].
  { assert (Ht : exists t, (v = OUtc t \/ v = OLocal t) /\ valid_civil t = true /\ w = OStr (isoformat " " t)).
    { rewrite Hdt in H. simpl in H. unfold encode_native_temporal in H. rewrite Hdt in H. simpl in H.
      destruct v; try done; exists c0; (split; [auto|split; [done|]]); unfold encode_native_datetime in H;
        bind_inv H as u1 Hu1; (destruct (col_datetime_precision c); [|done]); bind_inv H as u2 Hu2;
        by injection H as <-. }
    destruct Ht as (t & Hvt & Htv & ->). destruct Hw as [[? _]|[_ Hw]]; [done|].
    rewrite Hj, Hdt in Hw. simpl in Hw. destruct Hw as (t' & Htv' & Heq & ->).
    assert (Htext : isoformat " " t = isoformat " " t') by congruence.
    apply isoformat_inj in Htext as <-; [|done|done]. exists v. split; [constructor|]. apply or_model_error_Ok.
    rewrite Hdt. simpl. rewrite (decode_datetime_same c b v t Hd Hdt Hj Hu Hvt Htv). cbn [mbind res_bind].
    apply (validate_same c b); try done. intros x ->. by destruct Hvt. }
  assert (Hr : reads_back c v w').
  { destruct (String.eqb_spec (col_type_name c) "Decimal") as [He|He]; [by eapply decimal_reads_back|].
    destruct (String.eqb_spec (col_type_name c) "Date") as [Ha|Ha]; [by eapply date_reads_back|].
    rewrite (proj2 (String.eqb_neq _ "DateTime")) in H by done. cbn [orb] in H.
    unfold own_storage in Ho. rewrite Hj, !(proj2 (String.eqb_neq _ _)) in Ho by done. simpl in Ho.
    destruct (column_temporal_type c) as [k|] eqn:Hk'; [|done].
    eapply (temporal_text_reads_back c v b w w' k); eauto; [|by destruct k; auto].
    rewrite !not_elem_of_cons. split_and!; try done. apply not_elem_of_nil. }
  destruct Hr as [Hn' (v' & Hsame & Hr)]. exists v'. split; [done|]. apply or_model_error_Ok.
  rewrite (proj2 (String.eqb_neq _ "DateTime")) by done. by destruct w'.
Qed.

Lemma foreign_decode c b x w r : declared c b -> own_storage c = false -> carried c b x w -> w <> ONone ->
  decode c w b true = Ok r <-> adapter_load c w = Ok r /\ canonical_date c w r.
Proof.
  intros Hd Ho Hc Hn. unfold decode. rewrite or_model_error_Ok. unfold carried in Hc.
  destruct (is_json_column c) eqn:Hj.
  - destruct Hc as (t & -> & Hc).
    assert (Hdate : canonical_date c w r) by (unfold canonical_date; rewrite Hj; by destruct r).
    assert (Hload : decode_json c w b true = or_invalid c "failed type validation" (adapter_load c w)).
    { unfold decode_json, adapter_load. rewrite Hj.
      destruct Hc as [->|(-> & Hu & [->| ->])]; simpl; rewrite ?Hu; simpl; by rewrite (with_adapter_bound _ _ _ Hd). }
    rewrite Hload, or_invalid_Ok. tauto.
  - unfold own_storage in Ho. rewrite Hj in Ho. simpl in Ho. rewrite !orb_false_iff in Ho.
    destruct Ho as [[[[Hb Hde] Hda] Hdt] _]. rewrite Hb, Hdt.
    replace (match w with ONone => _ | _ => _ end) with (decode_primitive c w) by by destruct w.
    apply (decode_primitive_load c b); [done|done|].
    destruct (decide (col_storage_class c = "BLOB"%string)) as [Hbl|]; [|by left].
    right. by apply (decl_blob _ _ Hd).
Qed.

(** C26: what is written is read back, and the codec adds nothing to pydantic's own
    round trip.  For a column whose declaration was accepted and a value written to it
    (a [bool], for a Boolean column): NULL reads as NULL.  A column whose representation is
    the package's own (a boolean, a DECIMAL, a native date or datetime, the text of an instant
    or of a civil datetime) reads back as the value, a DECIMAL as the same number at the
    scale of its column, if pydantic keeps instances of the annotation.
    In every other column (JSON, BLOB, the primitives) what reading returns for what the
    driver hands over is what pydantic makes of its own output, carried by the database
    unchanged (JSON text as bytes on MariaDB, the bytes of a BLOB in any buffer, a UUID as its
    16 bytes, a flag as an integer), and reading refuses only what pydantic
    refuses and text of a date that pydantic would write otherwise. *)
Theorem column_round_trip c v b w w'
  (Hd : declared c b) (Hv : valid_value v)
  (Hnull : v = ONone -> col_nullable c = true) (Hp : v <> OPending)
  (Hbool : col_type_name c = "Boolean" -> is_json_column c = false ->
             v = ONone \/ exists x, v = OBool x)
  (He : encode c v b false true = Ok w) (Hw : driver_returns c b w w') :
  (v = ONone -> decode c w' b true = Ok ONone) /\
  (v <> ONone -> own_storage c = true -> instance_kept c v -> temporal_schema c ->
     exists v', same_value v v' /\ decode c w' b true = Ok v') /\
  (v <> ONone -> own_storage c = false -> w <> ONone ->
     exists x, adapter_dump c v = Ok x /\ carried c b x w' /\
       forall r, decode c w' b true = Ok r <-> adapter_load c w' = Ok r /\ canonical_date c w' r).
Proof.
  split_and!.
  - intros ->. by apply (decode_null c b w w'); [apply Hnull|..].
  - intros Hn Ho Hk Hs. apply encode_sent in He; [|done|done]. by apply (own_reads_back c v b w w').
  - intros Hn Ho Hnw. apply encode_sent in He; [|done|done].
    destruct (foreign_reads_back c v b w w' Hd Ho Hn Hnw He Hw) as (x & Hx & Hc).
    exists x. split; [done|]. split; [done|]. intros r.
    apply (foreign_decode c b x w'); [done|done|done|by eapply driver_value].
Qed.

(** How a constant is encoded: a flag as 0 or 1, anything else as pydantic writes it,
    an integer within 64 bits. *)
Lemma encode_constant c v b w : is_json_column c = false ->
  col_type_name c ∈ ["Integer"; "Boolean"; "Text"; "LongText"]%string -> col_storage_class c <> "BLOB" ->
  v <> ONone -> v <> OPending -> encode c v b false false = Ok w ->
  w = OInt 0 \/ w = OInt 1 \/
  col_type_name c <> "Boolean" /\ dump_python_json A c v = Ok w /\ (forall z, w = OInt z -> col_type_name c = "Integer" -> int64_min <= z <= int64_max).
Proof.
  intros Hj Hty Hcls Hn Hp H. unfold encode in H.
  assert (H' : encode_value c v (BACKEND_CODECS b) (false && bool_decide (b = BMariadb)) false = Ok w)
    by (destruct v; try done; by apply or_model_error_Ok in H).
  clear H. unfold encode_value in H'. rewrite Hj in H'.
  assert (H : encode_scalar c v (BACKEND_CODECS b) (false && bool_decide (b = BMariadb)) false = Ok w) by by destruct v.
  clear H'. unfold encode_scalar in H. bind_inv H as u Hu.
  destruct (String.eqb_spec (col_type_name c) "Boolean") as [Hb|Hb].
  { injection H as <-. destruct (truthy v); auto. }
  assert (Hnames : col_type_name c <> "Decimal" /\ col_type_name c <> "Date" /\ col_type_name c <> "DateTime")
    by (repeat (apply elem_of_cons in Hty as [->|Hty]); [done..|by apply elem_of_nil in Hty]).
  destruct Hnames as (H1 & H2 & H3). rewrite !(proj2 (String.eqb_neq _ _)) in H by done. cbn [orb] in H.
  unfold encode_primitive in H. rewrite (proj2 (String.eqb_neq _ "BLOB")) in H by done.
  bind_inv H as u' Hu'. bind_inv H as u2 Hu2. bind_inv H as x Hx. apply check_primitive_Ok in H as (-> & Hi & _).
  right. right. split_and!; [done..|]. intros z -> Hz. by eapply Hi.
Qed.

End codec.

(** ** Concrete instances

    A [DateTime(3)] column holding UTC instants, and an [Integer] column. *)

Section demo_codec.
Definition demo_adapter : adapter (zone:=unit) :=
  Adapter (fun _ v => Ok v) (fun _ v => Ok v) (fun _ s => Ok (OStr s)) (fun _ v => Ok v) (fun _ v => Ok v)
    (fun _ _ => raise PydanticSerializationError "unserializable") (fun s => Ok (OStr s)) (fun _ => true).
Definition demo_iso_text (_ : string) : res (datetime (zone:=unit)) := raise ValueError "Invalid isoformat string".
Definition at_column : column :=
  Column (Some "at") true false false "TEXT" "DateTime" None None None (Some 3) false false
    (Some [CtUtc]) false.
Definition count_column : column :=
  Column (Some "count") true false false "INTEGER" "Integer" None None None None false false
    (Some [CtInt]) false.
Definition at_noon : civil := Civil 2026 1 1 12 0 0 250000.

(** pydantic with [_temporal_schema] and UUIDs read from their 16 bytes. *)
Definition no_zone (_ : unit) (_ : civil) (_ : bool) : Z := 0.
Definition no_foreign (_ : positive) (_ : civil) (_ : bool) : option Z := None.
Definition schema_adapter : adapter (zone:=unit) :=
  Adapter (fun _ v => Ok v)
    (fun c v => match v, column_temporal_type c with
                | OStr s, Some KindUtc => t ← utc_from_wire no_zone no_foreign demo_iso_text s; Ok (OUtc t)
                | OStr s, Some KindLocal => t ← local_from_wire (zone:=unit) demo_iso_text s; Ok (OLocal t)
                | OBytes s, _ => if String.eqb (col_type_name c) "Blob" then Ok (OUuid s) else Ok v
                | _, _ => Ok v
                end)
    (fun _ s => Ok (OStr s)) (fun _ v => Ok v)
    (fun _ v => match v with
                | OUtc t => Ok (OStr (utc_serialize t))
                | OLocal t => Ok (OStr (local_serialize t))
                | _ => Ok v
                end)
    (fun _ _ => raise PydanticSerializationError "unserializable") (fun s => Ok (OStr s)) (fun _ => true).
Definition price_column : column :=
  Column (Some "price") true false false "TEXT" "Decimal" (Some 6) (Some 2) None None false false
    (Some [CtOther 1]) false.
Definition token_column : column :=
  Column (Some "token") true false false "BLOB" "Blob" None None None None false false
    (Some [CtOther 2]) false.

(** 1.5 comes back from DECIMAL(6, 2) as 1.50, and a UUID from its
    bytes in a memoryview. *)
Lemma column_round_trip_witness :
  (exists v', same_value (ODecimal (DFinite false [1; 5] (-1))) v' /\
     decode no_zone no_foreign demo_iso_text schema_adapter price_column
       (ODecimal (DFinite false [1; 5; 0] (-2))) BMariadb true = Ok v') /\
  decode no_zone no_foreign demo_iso_text schema_adapter token_column (OMemoryview "0123456789abcdef") BSqlite true =
    Ok (OUuid "0123456789abcdef").
Proof.
  split.
  - apply (column_round_trip no_zone no_foreign demo_iso_text schema_adapter price_column
             (ODecimal (DFinite false [1; 5] (-1))) BMariadb (ODecimal (DFinite false [1; 5] (-1)))
             (ODecimal (DFinite false [1; 5; 0] (-2)))); try discriminate; try reflexivity.
    + split; try (vm_compute; eauto; fail); intros H; vm_compute in H; discriminate.
    + right. split; [discriminate|]. exists (DFinite false [1; 5] (-1)), false, [1; 5; 0], 2. by vm_compute.
    + intros v' Hv. inversion Hv; subst; split; reflexivity.
    + split; intros; try reflexivity; try discriminate.
  - destruct (column_round_trip no_zone no_foreign demo_iso_text schema_adapter token_column
             (OUuid "0123456789abcdef") BSqlite (OBytes "0123456789abcdef") (OMemoryview "0123456789abcdef"))
      as (_ & _ & H); [|exact I|discriminate|discriminate|discriminate|reflexivity| |].
    + split; try (vm_compute; eauto; fail); [intros H; discriminate|]. intros _. vm_compute. repeat split; discriminate.
    + right. split; [discriminate|]. right. left. exists "0123456789abcdef"%string.
      split; [reflexivity|]. split; [left; reflexivity|right; right; reflexivity].
    + destruct (H ltac:(discriminate) eq_refl ltac:(discriminate)) as (x & Hx & _ & Hr).
      apply Hr. split; reflexivity.
Defined.

Lemma encoded_storable_witness :
  storable count_column BSqlite false true (OInt (2 ^ 63 - 1) : pyobj (zone:=unit)).
Proof.
  apply (encoded_storable (fun _ _ _ => 0) (fun _ _ _ => None) demo_adapter count_column
           (OInt (2 ^ 63 - 1)) BSqlite false true (OInt (2 ^ 63 - 1)));
    [reflexivity|discriminate|vm_compute; reflexivity].
Defined.

(** One more does not fit. *)
Example int64_overflow :
  is_ok (encode (fun _ _ _ => 0) (fun _ _ _ => None) demo_adapter count_column
           (OInt (2 ^ 63)) BSqlite false true) = false.
Proof. vm_compute. reflexivity. Qed.
End demo_codec.
