(* ===== verification/Sha256.v ===== *)
(** * SHA-256

    [hashlib.sha256(data).hexdigest()] of the Python standard library (FIPS
    180-4), which names the body of a migration.  Words are integers below
    [2 ^ 32], data is a list of bytes. *)

From S2P Require Export Prelude.

Open Scope Z_scope.

Definition word32 (x : Z) : Z := Z.land x (Z.ones 32).
Definition add32 (x y : Z) : Z := word32 (x + y).
Definition rotr (n x : Z) : Z := Z.lor (Z.shiftr x n) (word32 (Z.shiftl x (32 - n))).

Definition ch (x y z : Z) : Z := Z.lxor (Z.land x y) (Z.land (Z.ones 32 - x) z).
Definition maj (x y z : Z) : Z := Z.lxor (Z.lxor (Z.land x y) (Z.land x z)) (Z.land y z).
Definition big_sigma0 (x : Z) : Z := Z.lxor (Z.lxor (rotr 2 x) (rotr 13 x)) (rotr 22 x).
Definition big_sigma1 (x : Z) : Z := Z.lxor (Z.lxor (rotr 6 x) (rotr 11 x)) (rotr 25 x).
Definition small_sigma0 (x : Z) : Z := Z.lxor (Z.lxor (rotr 7 x) (rotr 18 x)) (Z.shiftr x 3).
Definition small_sigma1 (x : Z) : Z := Z.lxor (Z.lxor (rotr 17 x) (rotr 19 x)) (Z.shiftr x 10).

Definition round_constants : list Z :=
  [0x428a2f98; 0x71374491; 0xb5c0fbcf; 0xe9b5dba5; 0x3956c25b; 0x59f111f1; 0x923f82a4; 0xab1c5ed5;
   0xd807aa98; 0x12835b01; 0x243185be; 0x550c7dc3; 0x72be5d74; 0x80deb1fe; 0x9bdc06a7; 0xc19bf174;
   0xe49b69c1; 0xefbe4786; 0x0fc19dc6; 0x240ca1cc; 0x2de92c6f; 0x4a7484aa; 0x5cb0a9dc; 0x76f988da;
   0x983e5152; 0xa831c66d; 0xb00327c8; 0xbf597fc7; 0xc6e00bf3; 0xd5a79147; 0x06ca6351; 0x14292967;
   0x27b70a85; 0x2e1b2138; 0x4d2c6dfc; 0x53380d13; 0x650a7354; 0x766a0abb; 0x81c2c92e; 0x92722c85;
   0xa2bfe8a1; 0xa81a664b; 0xc24b8b70; 0xc76c51a3; 0xd192e819; 0xd6990624; 0xf40e3585; 0x106aa070;
   0x19a4c116; 0x1e376c08; 0x2748774c; 0x34b0bcb5; 0x391c0cb3; 0x4ed8aa4a; 0x5b9cca4f; 0x682e6ff3;
   0x748f82ee; 0x78a5636f; 0x84c87814; 0x8cc70208; 0x90befffa; 0xa4506ceb; 0xbef9a3f7; 0xc67178f2].

Record digest := Digest { da : Z; db : Z; dc : Z; dd : Z; de : Z; df : Z; dg : Z; dh : Z }.

Definition initial_digest : digest :=
  Digest 0x6a09e667 0xbb67ae85 0x3c6ef372 0xa54ff53a 0x510e527f 0x9b05688c 0x1f83d9ab 0x5be0cd19.

(** One round on the working variables, with [K_t + W_t]. *)
Definition sha_round (v : digest) (kw : Z) : digest :=
  let t1 := add32 (add32 (add32 (dh v) (big_sigma1 (de v))) (ch (de v) (df v) (dg v))) kw in
  let t2 := add32 (big_sigma0 (da v)) (maj (da v) (db v) (dc v)) in
  Digest (add32 t1 t2) (da v) (db v) (dc v) (add32 (dd v) t1) (de v) (df v) (dg v).

(** The message schedule, latest word first. *)
Definition schedule_next (w : list Z) : list Z :=
  add32 (add32 (small_sigma1 (nth 1 w 0)) (nth 6 w 0))
    (add32 (small_sigma0 (nth 14 w 0)) (nth 15 w 0)) :: w.
Definition schedule (block : list Z) : list Z := rev (Nat.iter 48 schedule_next (rev block)).

Definition compress (h : digest) (block : list Z) : digest :=
  let v := foldl sha_round h
             (map (fun kw => add32 (fst kw) (snd kw)) (combine round_constants (schedule block))) in
  Digest (add32 (da h) (da v)) (add32 (db h) (db v)) (add32 (dc h) (dc v)) (add32 (dd h) (dd v))
    (add32 (de h) (de v)) (add32 (df h) (df v)) (add32 (dg h) (dg v)) (add32 (dh h) (dh v)).

(** Big-endian bytes of [n] bytes width. *)
Fixpoint be_bytes (n : nat) (x : Z) : list Z :=
  match n with O => [] | S n => Z.land (Z.shiftr x (8 * Z.of_nat n)) 255 :: be_bytes n x end.

Definition pad (data : list Z) : list Z :=
  let len := Z.of_nat (length data) in
  data ++ [128] ++ repeat 0 (Z.to_nat ((55 - len) mod 64)) ++ be_bytes 8 (8 * len).

Fixpoint words (bytes : list Z) : list Z :=
  match bytes with
  | a :: b :: c :: d :: rest =>
      Z.lor (Z.lor (Z.shiftl a 24) (Z.shiftl b 16)) (Z.lor (Z.shiftl c 8) d) :: words rest
  | _ => []
  end.

Fixpoint blocks (fuel : nat) (ws : list Z) : list (list Z) :=
  match fuel, ws with
  | S fuel, _ :: _ => take 16 ws :: blocks fuel (drop 16 ws)
  | _, _ => []
  end.

Definition sha256 (data : list Z) : digest :=
  let ws := words (pad data) in foldl compress initial_digest (blocks (length ws) ws).

Definition hex_char (n : Z) : Ascii.ascii :=
  Ascii.ascii_of_nat (Z.to_nat (if n <? 10 then 48 + n else 87 + n)).
Fixpoint hex (bytes : list Z) : string :=
  match bytes with
  | [] => ""
  | b :: rest => String (hex_char (Z.land (Z.shiftr b 4) 15)) (String (hex_char (Z.land b 15)) (hex rest))
  end.

Definition hexdigest (h : digest) : string :=
  hex (be_bytes 4 (da h) ++ be_bytes 4 (db h) ++ be_bytes 4 (dc h) ++ be_bytes 4 (dd h)
       ++ be_bytes 4 (de h) ++ be_bytes 4 (df h) ++ be_bytes 4 (dg h) ++ be_bytes 4 (dh h)).

(** The two published test vectors of one block, and one of two blocks. *)
Example sha256_abc : hexdigest (sha256 [97; 98; 99]) =
  "ba7816bf8f01cfea414140de5dae2223b00361a396177a9cb410ff61f20015ad".
Proof. vm_compute. reflexivity. Qed.

Example sha256_empty : hexdigest (sha256 []) =
  "e3b0c44298fc1c149afbf4c8996fb92427ae41e4649b934ca495991b7852b855".
Proof. vm_compute. reflexivity. Qed.

Example sha256_two_blocks : hexdigest (sha256 (repeat 97 64)) =
  "ffe054fe7ae0cb6dc65c3af9b61d5209f439851db43d0ba5997337df154668eb".
Proof. vm_compute. reflexivity. Qed.

(** ** The shape of a digest *)

Definition is_lower_hex (c : Ascii.ascii) : bool :=
  let n := Ascii.nat_of_ascii c in
  ((48 <=? n)%nat && (n <=? 57)%nat) || ((97 <=? n)%nat && (n <=? 102)%nat).
Fixpoint all_lower_hex (s : string) : bool :=
  match s with EmptyString => true | String c s => is_lower_hex c && all_lower_hex s end.

Lemma hex_char_lower x : is_lower_hex (hex_char (Z.land x 15)) = true.
Proof.
  assert (H : 0 <= Z.land x 15 < 16).
  { change 15 with (Z.ones 4). rewrite Z.land_ones by lia. apply Z.mod_pos_bound. lia. }
  generalize dependent (Z.land x 15). intros n H.
  assert (Hn : n ∈ map Z.of_nat (seq 0 16)).
  { apply list_elem_of_In, in_map_iff. exists (Z.to_nat n). split; [lia|]. apply in_seq. lia. }
  revert Hn. generalize n. apply Forall_forall. repeat constructor.
Qed.

Lemma hex_lower bytes :
  all_lower_hex (hex bytes) = true /\ String.length (hex bytes) = (2 * length bytes)%nat.
Proof.
  induction bytes as [|b bytes [IH1 IH2]]; [done|]. simpl. rewrite !hex_char_lower, IH1, IH2.
  split; [done|]. lia.
Qed.

Lemma length_be_bytes n x : length (be_bytes n x) = n.
Proof. induction n; simpl; auto. Qed.

(** A hex digest is 64 lower-case hexadecimal digits. *)
Lemma hexdigest_shape h :
  String.length (hexdigest h) = 64%nat /\ all_lower_hex (hexdigest h) = true.
Proof.
  unfold hexdigest. destruct (hex_lower (be_bytes 4 (da h) ++ be_bytes 4 (db h)
    ++ be_bytes 4 (dc h) ++ be_bytes 4 (dd h) ++ be_bytes 4 (de h) ++ be_bytes 4 (df h)
    ++ be_bytes 4 (dg h) ++ be_bytes 4 (dh h))) as [H1 H2].
  split; [|done]. rewrite H2, !length_app, !length_be_bytes. done.
Qed.

Close Scope Z_scope.
