(* ===== verification/Migrations.v ===== *)
(** * Migration declarations and history comparison

    [_migrations.py]: [prepare_migrations], [validate_history_prefix] and
    [validate_legacy_history].  Python text is a list of code points; dict
    items keep their order. *)

From S2P Require Export Sha256.

Abbreviation utext := (list Z) (only parsing).

(** ** Text *)

(** [str.isspace] of one character: bidirectional type or category of a
    whitespace character (the set [str.strip] removes). *)
Definition py_isspace (c : Z) : bool :=
  bool_decide (c ∈ [9; 10; 11; 12; 13; 28; 29; 30; 31; 32; 133; 160; 5760; 8192; 8193; 8194; 8195;
                    8196; 8197; 8198; 8199; 8200; 8201; 8202; 8232; 8233; 8239; 8287; 12288]%Z).

Fixpoint lstrip (s : utext) : utext :=
  match s with c :: s' => if py_isspace c then lstrip s' else s | [] => [] end.
Definition strip (s : utext) : utext := rev (lstrip (rev (lstrip s))).

Definition surrogate (c : Z) : bool := (55296 <=? c)%Z && (c <=? 57343)%Z.

Definition utf8_char (c : Z) : option (list Z) :=
  (if surrogate c then None
   else if c <? 128 then Some [c]
   else if c <? 2048 then Some [Z.lor 192 (Z.shiftr c 6); Z.lor 128 (Z.land c 63)]
   else if c <? 65536 then
     Some [Z.lor 224 (Z.shiftr c 12); Z.lor 128 (Z.land (Z.shiftr c 6) 63); Z.lor 128 (Z.land c 63)]
   else Some [Z.lor 240 (Z.shiftr c 18); Z.lor 128 (Z.land (Z.shiftr c 12) 63);
              Z.lor 128 (Z.land (Z.shiftr c 6) 63); Z.lor 128 (Z.land c 63)])%Z.

(** [s.encode("utf-8")]; [None] is [UnicodeEncodeError]. *)
Definition utf8 (s : utext) : option (list Z) := @concat Z <$> mapM utf8_char s.

(** ** Declarations *)

Record migration_record := MigrationRecord {
  rec_position : Z; rec_name : utext; rec_checksum : string }.
#[export] Instance migration_record_eq_dec : EqDecision migration_record.
Proof. solve_decision. Defined.

Record migration := Migration {
  mig_position : Z; mig_name : utext; mig_checksum : string; mig_sql : utext }.

Definition history_record (m : migration) : migration_record :=
  MigrationRecord (mig_position m) (mig_name m) (mig_checksum m).

(** The result and status records of a run. *)
Record migration_result := MigrationResult {
  res_applied : list utext; res_already_applied : list utext; res_legacy_adopted : bool }.
Record migration_status := MigrationStatus {
  sta_applied : list utext; sta_history_present : bool; sta_pending : list utext }.

(** A key or value of the declaration: an exact [str], or any other object. *)
Inductive declared := ExactStr (s : utext) | OtherObject.
(** The argument of [prepare_migrations]. *)
Inductive declaration := NotExactDict | ExactDict (items : list (declared * declared)).

Definition max_migration_name_length : nat := 255.

Definition require_str (d : declared) (msg : string) : res utext :=
  match d with ExactStr s => Ok s | OtherObject => raise MigrationDeclarationError msg end.

(** One iteration of the loop, at [position]. *)
Definition prepare_item (position : Z) (item : declared * declared) : res migration :=
  name ← require_str (fst item) "migration name must be an exact str";
  _ ← guardR (bool_decide (name <> [])) MigrationDeclarationError
        "migration name must not be empty";
  _ ← guardR (length name <=? max_migration_name_length) MigrationDeclarationError
        "migration name exceeds 255 characters";
  sql ← require_str (snd item) "migration body must be an exact str";
  _ ← guardR (bool_decide (strip sql <> [])) MigrationDeclarationError
        "migration body must contain SQL";
  _ ← guardR (bool_decide (0%Z ∉ name /\ 0%Z ∉ sql)) MigrationDeclarationError
        "migration contains a NUL character";
  match utf8 name, utf8 sql with
  | Some _, Some sql_bytes => Ok (Migration position name (hexdigest (sha256 sql_bytes)) sql)
  | _, _ => raise MigrationDeclarationError "migration must contain valid UTF-8 text"
  end.

(** [enumerate(l, start=n)] *)
Fixpoint enumerate {A} (n : Z) (l : list A) : list (Z * A) :=
  match l with [] => [] | x :: l' => (n, x) :: enumerate (n + 1) l' end.

Definition prepare_migrations (migrations : declaration) : res (list migration) :=
  match migrations with
  | NotExactDict => raise MigrationDeclarationError "migrations must be an exact dict[str, str]"
  | ExactDict items => mapR (fun x => prepare_item (fst x) (snd x)) (enumerate 1 items)
  end.

(** ** History *)

(** [expected[ordinal - 1]] *)
Definition nth_expected (expected : list migration) (ordinal : Z) : res migration :=
  match expected !! Z.to_nat (ordinal - 1) with
  | Some m => Ok m
  | None => raise IndexError "tuple index out of range"
  end.

Definition check_record (expected : list migration) (x : Z * migration_record) : res unit :=
  let '(ordinal, record) := x in
  _ ← guardR (Z.eqb (rec_position record) ordinal) MigrationHistoryError
        "Migration History position is invalid";
  m ← nth_expected expected ordinal;
  guardR (bool_decide (record = history_record m)) MigrationHistoryError
    "Migration History diverges".

Definition validate_history_prefix (actual : list migration_record) (expected : list migration)
    (require_head : bool) (minimum_applied : Z) : res unit :=
  _ ← guardR (length actual <=? length expected) MigrationHistoryError
        "Migration History is longer than the declaration";
  _ ← iterR (check_record expected) (enumerate 1 actual);
  let minimum_applied :=
    if require_head then Z.of_nat (length expected) else minimum_applied in
  if (Z.of_nat (length actual) <? minimum_applied)%Z then
    _ ← nth_expected expected (Z.of_nat (length actual) + 1);
    raise MigrationHistoryError "Migration History is behind the declaration"
  else Ok tt.

Definition names_of (ms : list migration) : gset utext := list_to_set (map mig_name ms).

Definition validate_legacy_history (legacy_names : gset utext) (expected : list migration)
    : res nat :=
  _ ← guardR (size legacy_names <=? length expected) MigrationHistoryError
        "legacy Migration History is longer than the declaration";
  let prefix_length := size legacy_names in
  _ ← guardR (bool_decide (legacy_names = names_of (take prefix_length expected)))
        MigrationHistoryError "legacy Migration History is not the declared prefix";
  Ok prefix_length.

(** ** What a plan is *)

(** A name and a body [prepare_migrations] accepts. *)
Definition acceptable (name sql : utext) : Prop :=
  name <> [] /\ length name <= 255 /\ strip sql <> [] /\ 0%Z ∉ name /\ 0%Z ∉ sql /\
  is_Some (utf8 name) /\ is_Some (utf8 sql).

Definition plan_entry (k : nat) (m : migration) : Prop :=
  mig_position m = (Z.of_nat k + 1)%Z /\ acceptable (mig_name m) (mig_sql m) /\
  exists bytes, utf8 (mig_sql m) = Some bytes /\ mig_checksum m = hexdigest (sha256 bytes).

(** Positions [1..n] in order, acceptable entries, distinct names. *)
Definition well_formed_plan (plan : list migration) : Prop :=
  (forall k m, plan !! k = Some m -> plan_entry k m) /\ NoDup (map mig_name plan).

Definition item_of (m : migration) : declared * declared :=
  (ExactStr (mig_name m), ExactStr (mig_sql m)).

(** ** Lemmas *)

Lemma prepare_item_Ok position item m :
  prepare_item position item = Ok m <->
  item = item_of m /\ mig_position m = position /\ acceptable (mig_name m) (mig_sql m) /\
  exists bytes, utf8 (mig_sql m) = Some bytes /\ mig_checksum m = hexdigest (sha256 bytes).
Proof.
  split.
  - intros H. unfold prepare_item in H. destruct item as [[name|] d2]; [|discriminate].
    res_inv. destruct d2 as [sql|]; [|discriminate]. res_inv.
    repeat match goal with
    | H : match ?o with _ => _ end = Ok _ |- _ => destruct o eqn:?; [|discriminate H]
    end. res_inv.
    repeat match goal with H : bool_decide _ = true |- _ => apply bool_decide_eq_true in H end.
    match goal with H : (_ <=? _) = true |- _ => apply Nat.leb_le in H end.
    unfold item_of, acceptable. simpl.
    repeat match goal with H : _ /\ _ |- _ => destruct H end.
    split_and!; eauto.
  - intros (-> & <- & (H1 & H2 & H3 & H4 & H5 & (nb & Hn) & _) & sb & Hs & Hc).
    unfold prepare_item, item_of, max_migration_name_length. simpl.
    rewrite (bool_decide_eq_true_2 _ H1). simpl.
    rewrite (proj2 (Nat.leb_le _ _) H2). simpl.
    rewrite (bool_decide_eq_true_2 _ H3). simpl.
    rewrite bool_decide_eq_true_2 by done. simpl. rewrite Hn, Hs.
    destruct m. simpl in *. by subst.
Qed.

Lemma enumerate_lookup {A} (l : list A) n k :
  enumerate n l !! k = (fun x => ((n + Z.of_nat k)%Z, x)) <$> l !! k.
Proof.
  revert n k. induction l as [|x l IH]; intros n [|k]; simpl; [done..| |].
  - do 2 f_equal. lia.
  - rewrite IH. destruct (l !! k); simpl; [|done]. do 2 f_equal. lia.
Qed.

Lemma enumerate_length {A} (l : list A) n : length (enumerate n l) = length l.
Proof. revert n. induction l; intros n; simpl; auto. Qed.

Lemma check_record_Ok expected ordinal record :
  check_record expected (ordinal, record) = Ok tt <->
  rec_position record = ordinal /\
  exists m, expected !! Z.to_nat (ordinal - 1) = Some m /\ record = history_record m.
Proof.
  unfold check_record, nth_expected. split.
  - intros H. res_inv. destruct (expected !! _) as [m'|] eqn:Hm; res_inv.
    repeat match goal with
    | H : bool_decide _ = true |- _ => apply bool_decide_eq_true in H
    | H : (_ =? _)%Z = true |- _ => apply Z.eqb_eq in H
    end. eauto.
  - intros (Hp & m & Hm & Hr). rewrite (proj2 (Z.eqb_eq _ _) Hp). simpl. rewrite Hm. simpl.
    by rewrite bool_decide_eq_true_2.
Qed.

Lemma iterR_Ok_iff {A} (f : A -> res unit) l :
  iterR f l = Ok tt <-> forall x, x ∈ l -> f x = Ok tt.
Proof.
  induction l as [|x l IH]; rewrite ?iterR_cons.
  - split; [intros _ x []%not_elem_of_nil|done].
  - split.
    + intros H. res_inv. intros y [->|Hy]%elem_of_cons; [done|]. by apply IH.
    + intros H. rewrite (H x) by left. simpl. apply IH. intros; apply H; by right.
Qed.

(** The recorded rows are the declared ones, position by position. *)
Lemma check_records_prefix plan actual :
  (forall k m, plan !! k = Some m -> mig_position m = (Z.of_nat k + 1)%Z) ->
  length actual <= length plan ->
  iterR (check_record plan) (enumerate 1 actual) = Ok tt <->
  actual = map history_record (take (length actual) plan).
Proof.
  intros Hpos Hlen. rewrite iterR_Ok_iff. split.
  - intros H. apply list_eq. intros k. rewrite list_lookup_fmap.
    destruct (actual !! k) as [r|] eqn:Hr.
    + assert (Hin : ((1 + Z.of_nat k)%Z, r) ∈ enumerate 1 actual).
      { apply (list_elem_of_lookup_2 _ k). by rewrite enumerate_lookup, Hr. }
      apply H, check_record_Ok in Hin as (_ & m & Hm & ->).
      replace (Z.to_nat (1 + Z.of_nat k - 1)) with k in Hm by lia.
      rewrite lookup_take_lt, Hm; [done|]. by eapply lookup_lt_Some.
    + apply lookup_ge_None in Hr. rewrite (proj2 (lookup_ge_None _ k)); [done|].
      rewrite length_take. lia.
  - intros Hact [o r] Hin. apply list_elem_of_lookup_1 in Hin as (k & Hk).
    rewrite enumerate_lookup in Hk. apply fmap_Some in Hk as (r' & Hr & [= -> <-]).
    assert (Hlt : k < length actual) by (by eapply lookup_lt_Some).
    rewrite Hact, list_lookup_fmap, lookup_take_lt in Hr by done.
    apply fmap_Some in Hr as (m & Hm & ->). apply check_record_Ok. split.
    + simpl. rewrite (Hpos _ _ Hm). lia.
    + exists m. by replace (Z.to_nat (1 + Z.of_nat k - 1)) with k by lia.
Qed.

Lemma prepare_lookup items plan :
  prepare_migrations (ExactDict items) = Ok plan ->
  length plan = length items /\
  forall k m, plan !! k = Some m -> items !! k = Some (item_of m) /\ plan_entry k m.
Proof.
  intros H. apply mapR_Ok in H. split.
  - apply Forall2_length in H. by rewrite enumerate_length in H.
  - intros k m Hm. eapply Forall2_lookup_r in H as ((p & item) & Hi & Hp); [|done].
    rewrite enumerate_lookup in Hi. apply fmap_Some in Hi as (item' & Hi & [= -> <-]).
    cbn [fst snd] in Hp. apply prepare_item_Ok in Hp as (-> & Hpos & Hacc & Hb). split; [done|].
    split_and!; [lia|done|done].
Qed.

Lemma names_of_size ms : NoDup (map mig_name ms) -> size (names_of ms) = length ms.
Proof. intros H. unfold names_of. rewrite size_list_to_set by done. apply length_map. Qed.

Lemma well_formed_take n plan : well_formed_plan plan -> NoDup (map mig_name (take n plan)).
Proof.
  intros [_ H]. rewrite <- (take_drop n plan), map_app in H. by apply NoDup_app in H as (H & _ & _).
Qed.

(** An accepted declaration is the plan, and the plan is well formed. *)
Lemma prepare_sound items plan : NoDup (map fst items) ->
  prepare_migrations (ExactDict items) = Ok plan ->
  items = map item_of plan /\ well_formed_plan plan.
Proof.
  intros Hkeys H. destruct (prepare_lookup _ _ H) as [Hlen Hlook].
  assert (Hitems : items = map item_of plan).
  { apply list_eq_same_length with (length plan); [rewrite length_map|done|]; [done|].
    intros k x y _ Hx Hy. apply list_lookup_fmap_Some in Hy as (m & -> & Hm).
    destruct (Hlook _ _ Hm). congruence. }
  split; [done|]. split; [by apply Hlook|].
  rewrite Hitems, map_map in Hkeys. simpl in Hkeys.
  rewrite <- (map_map mig_name ExactStr) in Hkeys. by eapply NoDup_fmap_1 in Hkeys.
Qed.

(** ** Properties *)

(** the declaration is kept exactly.  [prepare_migrations] accepts a dict
    iff every name and body is acceptable text, and then the plan lists the very
    same names and bodies in declaration order, numbered from one, each with the
    SHA-256 of its UTF-8 body; from a dict, whose keys are distinct, the names
    are distinct. *)
Theorem prepare_migrations_exact items plan
  (Hkeys : NoDup (map fst items)) :
  prepare_migrations (ExactDict items) = Ok plan <->
  items = map item_of plan /\ well_formed_plan plan.
Proof.
  split.
  - by apply prepare_sound.
  - intros [-> [Hplan _]]. apply mapR_Ok.
    apply Forall2_same_length_lookup. split; [by rewrite enumerate_length, length_map|].
    intros k [p item] m Hi Hm. rewrite enumerate_lookup, list_lookup_fmap, Hm in Hi.
    simpl in Hi. injection Hi as <- <-. destruct (Hplan _ _ Hm) as (Hpos & Hacc & Hb).
    apply prepare_item_Ok. split_and!; [done|simpl; lia|done|done].
Qed.

(** history comparison is exact.  For a well-formed plan the check passes
    iff the recorded rows are an unchanged prefix of the declaration that
    contains every mandatory migration: no gap, no reordering, no edited body
    (up to its checksum), no unknown row. *)
Theorem history_prefix_exact actual plan require_head minimum_applied
  (Hplan : well_formed_plan plan) :
  validate_history_prefix actual plan require_head minimum_applied = Ok tt <->
  actual = map history_record (take (length actual) plan) /\
  (if require_head then length actual = length plan
   else (minimum_applied <= Z.of_nat (length actual))%Z).
Proof.
  destruct Hplan as [Hentries _].
  assert (Hpos : forall k m, plan !! k = Some m -> mig_position m = (Z.of_nat k + 1)%Z)
    by (intros k m Hm; by destruct (Hentries k m Hm)).
  unfold validate_history_prefix. split.
  - intros H. res_inv. match goal with H : (_ <=? _) = true |- _ => apply Nat.leb_le in H as Hlen end.
    match goal with H : iterR _ _ = Ok _ |- _ => apply check_records_prefix in H as Hpre; [|done..] end.
    split; [done|]. destruct (Z.ltb_spec (Z.of_nat (length actual))
      (if require_head then Z.of_nat (length plan) else minimum_applied)) as [Hlt|Hge];
      [by destruct (nth_expected _ _) in *|]. destruct require_head; lia.
  - intros [Hpre Hmin]. assert (Hlen : length actual <= length plan).
    { rewrite Hpre at 1. rewrite length_map, length_take. lia. }
    rewrite (proj2 (Nat.leb_le _ _) Hlen). simpl.
    rewrite (proj2 (check_records_prefix _ _ Hpos Hlen) Hpre). simpl.
    rewrite (proj2 (Z.ltb_ge _ _)); [done|]. destruct require_head; lia.
Qed.

(** ** Concrete declarations *)

Definition ascii_text (s : string) : utext :=
  map (fun c => Z.of_nat (Ascii.nat_of_ascii c)) (String.list_ascii_of_string s).

Definition demo_items : list (declared * declared) :=
  [(ExactStr (ascii_text "one"), ExactStr (ascii_text "CREATE TABLE t(a);"));
   (ExactStr (ascii_text "two"), ExactStr (ascii_text "INSERT INTO t VALUES (1);"))].

Definition demo_plan : list migration :=
  match prepare_migrations (ExactDict demo_items) with Ok plan => plan | Raise _ => [] end.

Lemma demo_items_distinct : NoDup (map fst demo_items).
Proof. repeat constructor; vm_compute; intros H; repeat (apply elem_of_cons in H as [[=]|H]); by apply not_elem_of_nil in H. Qed.

Lemma demo_plan_well_formed : well_formed_plan demo_plan.
Proof. apply (prepare_sound demo_items); [exact demo_items_distinct|vm_compute; reflexivity]. Qed.

Lemma prepare_migrations_exact_witness :
  demo_items = map item_of demo_plan /\ well_formed_plan demo_plan.
Proof.
  apply (prepare_migrations_exact demo_items demo_plan demo_items_distinct).
  vm_compute. reflexivity.
Defined.

Lemma history_prefix_exact_witness :
  validate_history_prefix (map history_record (take 1 demo_plan)) demo_plan false 1 = Ok tt.
Proof.
  apply (history_prefix_exact _ _ _ _ demo_plan_well_formed). split.
  - vm_compute. reflexivity.
  - vm_compute. discriminate.
Defined.
