(* ===== verification/Utf8.v ===== *)
(** * Decoding UTF-8

    [bytes.decode("utf-8")] of the Python standard library, strict: no
    overlong form, no surrogate, nothing above U+10FFFF.  It inverts [utf8]. *)

From S2P Require Export Migrations.

Definition continuation (b : Z) : bool := ((128 <=? b) && (b <=? 191))%Z.
Definition in_range (low high b : Z) : bool := ((low <=? b) && (b <=? high))%Z.

(** Code points of a Python string that can be encoded. *)
Definition scalar (c : Z) : Prop := (0 <= c <= 1114111)%Z /\ surrogate c = false.

Fixpoint utf8_decode (b : list Z) : option utext :=
  match b with
  | [] => Some []
  | b0 :: b =>
      if in_range 0 127 b0 then cons b0 <$> utf8_decode b
      else match b with
      | [] => None
      | b1 :: b =>
          if negb (continuation b1) then None
          else if in_range 194 223 b0 then
            cons ((b0 - 192) * 64 + (b1 - 128))%Z <$> utf8_decode b
          else match b with
          | [] => None
          | b2 :: b =>
              if negb (continuation b2) then None
              else if in_range 224 239 b0 then
                let c := ((b0 - 224) * 4096 + (b1 - 128) * 64 + (b2 - 128))%Z in
                if (c <? 2048)%Z || surrogate c then None else cons c <$> utf8_decode b
              else match b with
              | [] => None
              | b3 :: b =>
                  if negb (continuation b3) then None
                  else if in_range 240 244 b0 then
                    let c := ((b0 - 240) * 262144 + (b1 - 128) * 4096 + (b2 - 128) * 64
                              + (b3 - 128))%Z in
                    if in_range 65536 1114111 c then cons c <$> utf8_decode b else None
                  else None
              end
          end
      end
  end.

(** ** The bits of a code point *)

Lemma high_bits_add high k c : (0 <= c < 2 ^ k)%Z -> (0 <= k)%Z -> (high mod 2 ^ k = 0)%Z ->
  Z.lor high c = (high + c)%Z.
Proof.
  intros Hc Hk Hh. assert (Hland : Z.land high c = 0%Z).
  { apply Z.bits_inj'. intros n Hn. rewrite Z.land_spec, Z.bits_0.
    destruct (Z.lt_ge_cases n k).
    - rewrite <- (Z.mod_pow2_bits_low high k) by done. by rewrite Hh, Z.bits_0.
    - rewrite <- (Z.mod_small c (2 ^ k)) by done.
      rewrite (Z.mod_pow2_bits_high c k) by lia. apply andb_false_r. }
  rewrite Z.add_nocarry_lxor by done. symmetry. by apply Z.lxor_lor.
Qed.

Lemma low_bits c : Z.land c 63 = (c mod 64)%Z.
Proof. change 63%Z with (Z.ones 6). by rewrite Z.land_ones. Qed.

Lemma tail_byte c : Z.lor 128 (Z.land c 63) = (128 + c mod 64)%Z.
Proof.
  rewrite low_bits. apply (high_bits_add _ 6); [|lia|done].
  apply Z.mod_pos_bound. lia.
Qed.

Lemma utf8_char_arith c : scalar c ->
  utf8_char c =
  Some (if (c <? 128)%Z then [c]
        else if (c <? 2048)%Z then [192 + c / 64; 128 + c mod 64]%Z
        else if (c <? 65536)%Z then
          [224 + c / 4096; 128 + (c / 64) mod 64; 128 + c mod 64]%Z
        else [240 + c / 262144; 128 + (c / 4096) mod 64; 128 + (c / 64) mod 64; 128 + c mod 64]%Z).
Proof.
  intros [Hc Hs]. unfold utf8_char. rewrite Hs, !tail_byte, !Z.shiftr_div_pow2 by lia.
  change (2 ^ 6)%Z with 64%Z. change (2 ^ 12)%Z with 4096%Z. change (2 ^ 18)%Z with 262144%Z.
  destruct (Z.ltb_spec c 128); [done|]. destruct (Z.ltb_spec c 2048).
  { rewrite (high_bits_add 192 5); [done| |lia|done]. split; [apply Z.div_pos; lia|].
    apply Z.div_lt_upper_bound; lia. }
  destruct (Z.ltb_spec c 65536).
  { rewrite (high_bits_add 224 4); [done| |lia|done]. split; [apply Z.div_pos; lia|].
    apply Z.div_lt_upper_bound; lia. }
  rewrite (high_bits_add 240 3); [done| |lia|done]. split; [apply Z.div_pos; lia|].
  apply Z.div_lt_upper_bound; lia.
Qed.

Lemma in_range_true low high b : (low <= b <= high)%Z -> in_range low high b = true.
Proof. intros H. unfold in_range. rewrite andb_true_iff, !Z.leb_le. lia. Qed.
Lemma in_range_false low high b : (b < low \/ high < b)%Z -> in_range low high b = false.
Proof. intros H. unfold in_range. rewrite andb_false_iff, !Z.leb_gt. lia. Qed.
Lemma continuation_tail c : continuation (128 + c mod 64) = true.
Proof.
  pose proof (Z.mod_pos_bound c 64 ltac:(lia)). by apply in_range_true; lia.
Qed.

(** One character is read back. *)
Lemma utf8_decode_char c bytes rest : scalar c -> utf8_char c = Some bytes ->
  utf8_decode (bytes ++ rest) = cons c <$> utf8_decode rest.
Proof.
  intros Hc. rewrite utf8_char_arith by done. intros [= <-]. destruct Hc as [Hc Hs].
  pose proof (Z.div_mod c 64 ltac:(lia)) as H0.
  pose proof (Z.div_mod (c / 64) 64 ltac:(lia)) as H1. rewrite Z.div_div in H1 by lia.
  pose proof (Z.div_mod (c / 4096) 64 ltac:(lia)) as H2. rewrite Z.div_div in H2 by lia.
  change (64 * 64)%Z with 4096%Z in *. change (4096 * 64)%Z with 262144%Z in *.
  pose proof (Z.mod_pos_bound c 64 ltac:(lia)). pose proof (Z.mod_pos_bound (c / 64) 64 ltac:(lia)).
  pose proof (Z.mod_pos_bound (c / 4096) 64 ltac:(lia)).
  destruct (Z.ltb_spec c 128); cbn [app utf8_decode].
  { by rewrite in_range_true by lia. }
  destruct (Z.ltb_spec c 2048); cbn [app utf8_decode]; rewrite ?continuation_tail;
    cbn [negb].
  { rewrite in_range_false, in_range_true by lia. do 2 f_equal. lia. }
  destruct (Z.ltb_spec c 65536); cbn [app utf8_decode]; rewrite ?continuation_tail;
    cbn [negb].
  { rewrite !in_range_false, in_range_true by lia. cbv zeta.
    replace ((224 + c / 4096 - 224) * 4096 + (128 + (c / 64) mod 64 - 128) * 64
             + (128 + c mod 64 - 128))%Z with c by lia.
    rewrite Hs, (proj2 (Z.ltb_ge _ _)) by lia. done. }
  rewrite !in_range_false, in_range_true by lia. cbv zeta.
  replace ((240 + c / 262144 - 240) * 262144 + (128 + (c / 4096) mod 64 - 128) * 4096
           + (128 + (c / 64) mod 64 - 128) * 64 + (128 + c mod 64 - 128))%Z with c by lia.
  rewrite in_range_true by lia. done.
Qed.

(** What [utf8] encodes, [utf8_decode] reads back. *)
Theorem utf8_round_trip s bytes :
  Forall (fun c => 0 <= c <= 1114111)%Z s -> utf8 s = Some bytes -> utf8_decode bytes = Some s.
Proof.
  intros Hs. revert bytes. induction Hs as [|c s Hc Hs IH]; intros bytes.
  - by intros [= <-].
  - unfold utf8. simpl. intros H. apply fmap_Some in H as (chars & H & ->).
    apply bind_Some in H as (b & Hb & H). apply bind_Some in H as (bs & Hbs & H). injection H as <-.
    cbn [concat]. rewrite (utf8_decode_char c b).
    + rewrite (IH (concat bs)); [done|]. unfold utf8. by rewrite Hbs.
    + split; [done|]. unfold utf8_char in Hb. by destruct (surrogate c).
    + done.
Qed.

Example utf8_decode_strict :
  utf8_decode [192; 128]%Z = None /\ utf8_decode [237; 160; 128]%Z = None /\
  utf8_decode [226; 130; 172; 65]%Z = Some [8364; 65]%Z.
Proof. split_and!; reflexivity. Qed.
