(* ===== verification/SqlTokens.v ===== *)
(** * Splitting and screening SQLite migration bodies

    The lexical half of [sqlite/migrations.py]: [_sql_tokens], the target of a
    statement, [_validate_sqlite_statement], [_sqlite_statements] and
    [_migration_authorizer].  Python's Unicode tables ([isalpha], [isalnum],
    [upper], [casefold]) and SQLite's [complete_statement] are parameters. *)

From S2P Require Export Migrations.

(** ASCII text as code points. *)
Abbreviation u := ascii_text (only parsing).

Class unicode := Unicode {
  py_isalpha : Z -> bool;
  py_isalnum : Z -> bool;
  py_upper : utext -> utext;
  py_casefold : utext -> utext
}.

Definition ascii_alpha (c : Z) : bool :=
  ((65 <=? c) && (c <=? 90) || (97 <=? c) && (c <=? 122))%Z.
Definition is_digit (c : Z) : bool := (48 <=? c)%Z && (c <=? 57)%Z.

(** Python's Unicode tables on the characters of ASCII, and tables for these. *)
Class ascii_laws `(U : unicode) : Prop := AsciiLaws {
  isalpha_law : forall c, (0 <= c < 128)%Z -> py_isalpha c = ascii_alpha c;
  isalnum_law : forall c, (0 <= c < 128)%Z -> py_isalnum c = ascii_alpha c || is_digit c;
  upper_law : forall s, Forall (fun c => 0 <= c < 128)%Z s ->
    py_upper s = map (fun c => if (97 <=? c) && (c <=? 122) then c - 32 else c)%Z s
}.

Definition ascii_unicode : unicode :=
  Unicode ascii_alpha (fun c => ascii_alpha c || (48 <=? c) && (c <=? 57))%Z
    (map (fun c => if (97 <=? c) && (c <=? 122) then c - 32 else c)%Z)
    (map (fun c => if (65 <=? c) && (c <=? 90) then c + 32 else c)%Z).
#[export] Instance ascii_unicode_laws : ascii_laws ascii_unicode.
Proof. by split. Qed.

Section tokens.
Context `{U : unicode}.

Definition starts_with (p s : utext) : bool := bool_decide (take (length p) s = p).

(** What follows the first occurrence of [p], or nothing. *)
Fixpoint after_first (p s : utext) : utext :=
  match s with
  | [] => []
  | _ :: s' => if starts_with p s then drop (length p) s else after_first p s'
  end.

(** From just after an opening quote: the raw text before the closing quote (a
    doubled closing quote stays in it), and what follows.  Without a closing
    quote the slice [quoted_start : index - 1] loses its last character. *)
Fixpoint quoted (closing : Z) (fuel : nat) (body s : utext) : utext * utext :=
  match fuel, s with
  | O, _ | _, [] => (removelast body, [])
  | S fuel, c :: s' =>
      if (c =? closing)%Z then
        match s' with
        | c' :: s'' =>
            if negb (closing =? 93)%Z && (c' =? closing)%Z
            then quoted closing fuel (body ++ [c; c']) s''
            else (body, s')
        | [] => (body, [])
        end
      else quoted closing fuel (body ++ [c]) s'
  end.

Fixpoint span (f : Z -> bool) (s : utext) : utext * utext :=
  match s with
  | c :: s' => if f c then let '(a, b) := span f s' in (c :: a, b) else ([], s)
  | [] => ([], [])
  end.

Definition is_quote (c : Z) : bool := bool_decide (c ∈ [39; 34; 96; 91]%Z).
Definition word_char (c : Z) : bool := py_isalnum c || (c =? 95)%Z.

Fixpoint tokens_from (fuel : nat) (s : utext) : list utext :=
  match fuel, s with
  | O, _ | _, [] => []
  | S fuel, c :: s' =>
      if py_isspace c then tokens_from fuel s'
      else if starts_with (u "--") s then tokens_from fuel (after_first [10%Z] (drop 2 s))
      else if starts_with (u "/*") s then tokens_from fuel (after_first (u "*/") (drop 2 s))
      else if is_quote c then
        let '(body, rest) := quoted (if (c =? 91)%Z then 93 else c) (length s') [] s' in
        py_upper body :: tokens_from fuel rest
      else if py_isalpha c || (c =? 95)%Z then
        let '(word, rest) := span word_char s' in
        py_upper (c :: word) :: tokens_from fuel rest
      else [c] :: tokens_from fuel s'
  end.

(** Every step of the loop consumes a character, so [length sql] steps do. *)
Definition sql_tokens (sql : utext) : list utext := tokens_from (length sql) sql.

(** ** The operation and the target of a statement *)

Definition token_at (tokens : list utext) (i : nat) : utext := default [] (tokens !! i).

Fixpoint cte_operation (tokens : list utext) (candidate : nat) (depth : Z) (completed : bool)
    : option nat :=
  match tokens with
  | [] => None
  | t :: rest =>
      let next := cte_operation rest (S candidate) in
      if bool_decide (t = u "(") then next (depth + 1)%Z completed
      else if bool_decide (t = u ")") then
        next (depth - 1)%Z (completed || (depth - 1 =? 0)%Z)
      else if completed && (depth =? 0)%Z && bool_decide (t = u ",") then next depth false
      else if completed && (depth =? 0)%Z
              && bool_decide (t ∈ [u "DELETE"; u "INSERT"; u "REPLACE"; u "SELECT"; u "UPDATE"])
      then Some candidate
      else next depth completed
  end.

Definition operation_index (tokens : list utext) : nat :=
  let index :=
    if bool_decide (token_at tokens 0 = u "EXPLAIN") && (1 <? length tokens) then
      if bool_decide (take 2 (drop 1 tokens) = [u "QUERY"; u "PLAN"]) then 3 else 1
    else 0 in
  if negb (index <? length tokens) || negb (bool_decide (token_at tokens index = u "WITH"))
  then Nat.min index (length tokens - 1)
  else default index (cte_operation (drop (S index) tokens) (S index) 0 false).

Definition operation_keyword (tokens : list utext) : utext :=
  token_at tokens (operation_index tokens).

(** [tokens.index(keyword, start)] *)
Fixpoint index_from (tokens : list utext) (keyword : utext) (i : nat) : option nat :=
  match tokens with
  | [] => None
  | t :: rest => if bool_decide (t = keyword) then Some i else index_from rest keyword (S i)
  end.

Definition name_index_after (tokens : list utext) (keyword : utext) (start : nat) : option nat :=
  match index_from (drop start tokens) keyword start with
  | None => None
  | Some i =>
      let index := S i in
      let index :=
        if bool_decide (take 3 (drop index tokens) = [u "IF"; u "NOT"; u "EXISTS"])
        then index + 3
        else if bool_decide (take 2 (drop index tokens) = [u "IF"; u "EXISTS"])
        then index + 2 else index in
      if index <? length tokens then Some index else None
  end.

Fixpoint first_name (tokens : list utext) (start : nat) (object_types : list utext)
    : option nat :=
  match object_types with
  | [] => None
  | t :: rest =>
      match name_index_after tokens t start with
      | Some i => Some i
      | None => first_name tokens start rest
      end
  end.

Definition created_or_dropped_name_index (tokens : list utext) : option nat :=
  first_name tokens (operation_index tokens) [u "TABLE"; u "INDEX"; u "TRIGGER"; u "VIEW"].

Definition target_keyword (operation : utext) : option utext :=
  if bool_decide (operation = u "ALTER") then Some (u "TABLE")
  else if bool_decide (operation = u "DELETE") then Some (u "FROM")
  else if bool_decide (operation = u "INSERT") then Some (u "INTO")
  else if bool_decide (operation = u "REPLACE") then Some (u "INTO")
  else None.

Definition object_name_index (tokens : list utext) : option nat :=
  let i := operation_index tokens in
  let operation := token_at tokens i in
  if bool_decide (operation ∈ [u "CREATE"; u "DROP"]) then created_or_dropped_name_index tokens
  else if bool_decide (operation = u "UPDATE") then
    let name_index :=
      if bool_decide (take 1 (drop (S i) tokens) = [u "OR"]) then S i + 2 else S i in
    if name_index <? length tokens then Some name_index else None
  else
    match target_keyword operation with
    | None => None
    | Some k => name_index_after tokens k i
    end.

Definition uses_temp_schema (tokens : list utext) : bool :=
  match object_name_index tokens with
  | None => false
  | Some i => bool_decide (take 2 (drop i tokens) = [u "TEMP"; u "."])
  end.

Definition restricted_first_keywords : list utext :=
  [u "ATTACH"; u "BEGIN"; u "COMMIT"; u "DETACH"; u "END"; u "PRAGMA"; u "RELEASE";
   u "ROLLBACK"; u "SAVEPOINT"; u "VACUUM"].

Definition validate_sqlite_statement (sql : utext) : res unit :=
  let tokens := sql_tokens sql in
  _ ← guardR (bool_decide (tokens <> [])) MigrationDeclarationError
        "SQLite migration must contain SQL";
  _ ← guardR (negb (bool_decide (operation_keyword tokens ∈ restricted_first_keywords)))
        MigrationDeclarationError "SQLite migration cannot execute statement";
  _ ← guardR (negb ((1 <? length tokens) && bool_decide (token_at tokens 0 = u "CREATE")
                    && bool_decide (token_at tokens 1 ∈ [u "TEMP"; u "TEMPORARY"])))
        MigrationDeclarationError "SQLite migration cannot create temporary objects";
  guardR (negb (uses_temp_schema tokens)) MigrationDeclarationError
    "SQLite migration cannot use temporary objects".

(** ** Statements of a body *)

Context (complete_statement : utext -> bool).

(** The loop over the characters: the finished segments and the remainder. *)
Fixpoint split_segments (current s : utext) : list utext * utext :=
  match s with
  | [] => ([], current)
  | c :: s' =>
      let current := current ++ [c] in
      if (c =? 59)%Z && complete_statement current
      then let '(segments, remainder) := split_segments [] s' in (current :: segments, remainder)
      else split_segments current s'
  end.

(** [any(part != ";" for part in _sql_tokens(statement))] *)
Definition has_sql (statement : utext) : bool :=
  existsb (fun t => negb (bool_decide (t = u ";"))) (sql_tokens statement).

Definition sqlite_statements (sql : utext) : res (list utext) :=
  let '(segments, remainder) := split_segments [] sql in
  _ ← guardR (complete_statement (remainder ++ u (String (Ascii.ascii_of_nat 10) ";")))
        MigrationDeclarationError "SQLite migration is not a complete statement";
  let candidates := filter (fun s => has_sql s = true) (segments ++ [remainder]) in
  _ ← iterR validate_sqlite_statement candidates;
  _ ← guardR (bool_decide (candidates <> [])) MigrationDeclarationError
        "SQLite migration must contain SQL";
  Ok candidates.

Definition validate_sqlite_migrations (migrations : list migration) : res unit :=
  iterR (fun m => _ ← sqlite_statements (mig_sql m); Ok tt) migrations.

(** ** The authorizer *)

Inductive action :=
  | AlterTable | Attach | CreateIndex | CreateTable | CreateTempIndex | CreateTempTable
  | CreateTempTrigger | CreateTempView | CreateTrigger | CreateView | CreateVtable | Delete
  | Detach | DropIndex | DropTable | DropTempIndex | DropTempTable | DropTempTrigger
  | DropTempView | DropTrigger | DropView | DropVtable | Insert | Read | Savepoint
  | Transaction | Update | OtherAction (code : Z).
#[local] Instance action_eq_dec : EqDecision action.
Proof using Type. solve_decision. Defined.

Definition temp_actions : list action :=
  [CreateTempIndex; CreateTempTable; CreateTempTrigger; CreateTempView;
   DropTempIndex; DropTempTable; DropTempTrigger; DropTempView].
Definition connection_actions : list action := [Attach; Detach; Savepoint; Transaction].
Definition mutation_actions : list action := [Delete; Insert; Update].
Definition history_first_argument_actions : list action :=
  [CreateTable; CreateView; CreateVtable; Delete; DropTable; DropView; DropVtable; Insert; Read;
   Update].
Definition history_second_argument_actions : list action :=
  [AlterTable; CreateIndex; CreateTrigger; DropIndex; DropTrigger].

Definition history_table : utext := u "snekql_migrations".
Definition is_history (argument : option utext) : bool :=
  match argument with
  | None => false
  | Some a => bool_decide (py_casefold a = py_casefold history_table)
  end.

(** [true] is [SQLITE_OK], [false] is [SQLITE_DENY]. *)
Definition migration_authorizer (a : action) (first second database_name : option utext)
    (allow_temp_catalog_update : bool) : bool :=
  if bool_decide (a ∈ connection_actions) || bool_decide (a ∈ temp_actions) then false
  else if bool_decide (a ∈ history_first_argument_actions) && is_history first
          || bool_decide (a ∈ history_second_argument_actions) && is_history second then false
  else if bool_decide (a = AlterTable) && negb (bool_decide (first = Some (u "main"))) then false
  else if bool_decide (a ∈ mutation_actions)
          && negb (bool_decide (database_name ∈ [None; Some (u "main")])) then
    allow_temp_catalog_update && bool_decide (a = Update)
    && bool_decide (database_name = Some (u "temp"))
    && bool_decide (first = Some (u "sqlite_temp_master"))
  else true.

(** ** SQLite's own reading of a statement

    What SQLite's tokenizer makes of the start of a text, written from its
    documentation and not from the screen: blanks and comments (a byte order mark is
    a blank anywhere), keywords and unquoted names in ASCII letters, quoted names,
    and the marks between them. *)
Definition ascii_upper (w : utext) : utext :=
  map (fun c => if (97 <=? c) && (c <=? 122) then c - 32 else c)%Z w.
Definition sqlite_id_char (c : Z) : bool :=
  ascii_alpha c || is_digit c || bool_decide (c ∈ [95; 36]%Z) || negb ((0 <=? c) && (c <? 128))%Z.
Definition byte_order_mark : Z := 65279.

Inductive sqlite_blank : utext -> Prop :=
  | blank_none : sqlite_blank []
  | blank_char c s : c ∈ [9; 10; 12; 13; 32; byte_order_mark]%Z -> sqlite_blank s -> sqlite_blank (c :: s)
  | blank_line text s : 10%Z ∉ text -> sqlite_blank s -> sqlite_blank (u "--" ++ text ++ 10%Z :: s)
  | blank_comment text s : (forall a b, text ++ u "*/" = a ++ u "*/" ++ b -> b = []) ->
      sqlite_blank s -> sqlite_blank (u "/*" ++ text ++ u "*/" ++ s).

Inductive lexeme := LWord (w : utext) | LName (w : utext) | LMark (c : Z).

Inductive sqlite_reads : utext -> list lexeme -> Prop :=
  | reads_nothing s : sqlite_reads s []
  | reads_word b w s l : sqlite_blank b -> w <> [] -> Forall (fun c => ascii_alpha c = true) w ->
      match s with c :: _ => sqlite_id_char c = false | [] => True end ->
      sqlite_reads s l -> sqlite_reads (b ++ w ++ s) (LWord w :: l)
  | reads_name b q w s l : sqlite_blank b -> q ∈ [39; 34; 96; 91]%Z ->
      Forall (fun c => ascii_alpha c = true) w ->
      match s with c :: _ => q = 91%Z \/ c <> q | [] => True end ->
      sqlite_reads s l ->
      sqlite_reads (b ++ q :: w ++ (if (q =? 91)%Z then 93%Z else q) :: s) (LName w :: l)
  | reads_mark b c s l : sqlite_blank b -> c ∈ [40; 41; 44; 46; 59]%Z ->
      sqlite_reads s l -> sqlite_reads (b ++ c :: s) (LMark c :: l).

(** The words before the name of the table that a statement is about. *)
Definition conflict_words : list utext := map u ["ROLLBACK"; "ABORT"; "REPLACE"; "FAIL"; "IGNORE"]%string.
Inductive table_target : list utext -> Prop :=
  | target_plain ws : ws ∈ map (map u) [["CREATE"; "TABLE"]; ["CREATE"; "TABLE"; "IF"; "NOT"; "EXISTS"];
      ["DROP"; "TABLE"]; ["DROP"; "TABLE"; "IF"; "EXISTS"]; ["ALTER"; "TABLE"]; ["DELETE"; "FROM"];
      ["INSERT"; "INTO"]; ["REPLACE"; "INTO"]; ["UPDATE"]]%string -> table_target ws
  | target_insert_or x : x ∈ conflict_words -> table_target [u "INSERT"; u "OR"; x; u "INTO"]
  | target_update_or x : x ∈ conflict_words -> table_target [u "UPDATE"; u "OR"; x].

Definition names_temp (x : lexeme) : Prop :=
  match x with LWord w | LName w => ascii_upper w = u "TEMP" | LMark _ => False end.

(** A statement that controls the transaction or the connection, creates a temporary
    object, or is about a table of the temporary schema. *)
Inductive unsafe_statement : list lexeme -> Prop :=
  | controls_connection w l :
      ascii_upper w ∈ map u ["BEGIN"; "COMMIT"; "END"; "ROLLBACK"; "SAVEPOINT"; "RELEASE"; "ATTACH";
                             "DETACH"; "PRAGMA"; "VACUUM"]%string ->
      unsafe_statement (LWord w :: l)
  | creates_temporary w w' l : ascii_upper w = u "CREATE" ->
      ascii_upper w' ∈ [u "TEMP"; u "TEMPORARY"] -> unsafe_statement (LWord w :: LWord w' :: l)
  | targets_temporary ws name l : table_target (map ascii_upper ws) -> names_temp name ->
      unsafe_statement (map LWord ws ++ name :: LMark 46 :: l).

(** ** Lemmas *)

Lemma split_segments_concat current s :
  let '(segments, remainder) := split_segments current s in
  concat segments ++ remainder = current ++ s.
Proof using Type.
  revert current. induction s as [|c s IH]; intros current; simpl; [by rewrite app_nil_r|].
  destruct (_ && _).
  - specialize (IH []). destruct (split_segments [] s) as [segments remainder]. simpl in *.
    by rewrite <- app_assoc, IH, <- app_assoc.
  - specialize (IH (current ++ [c])). destruct (split_segments _ s) as [segments remainder].
    by rewrite IH, <- app_assoc.
Qed.

Lemma split_segments_complete current s seg :
  seg ∈ fst (split_segments current s) -> complete_statement seg = true /\ last seg = Some 59%Z.
Proof using Type.
  revert current. induction s as [|c s IH]; intros current; simpl; [by intros H%not_elem_of_nil|].
  destruct (_ && _) eqn:Hc; [|apply IH].
  specialize (IH []). destruct (split_segments [] s) as [segments remainder]. simpl in *.
  apply andb_true_iff in Hc as [Hc%Z.eqb_eq Hcomp]. intros [->|H]%elem_of_cons; [|auto].
  split; [done|]. by rewrite last_snoc, Hc.
Qed.

Lemma filter_sublist (f : utext -> bool) (l : list utext) :
  sublist (filter (fun s => f s = true) l) l.
Proof using Type.
  induction l as [|x l IH]; [done|]. rewrite filter_cons. case_decide.
  - by apply sublist_skip.
  - by apply sublist_cons.
Qed.

(** ** Fuel *)

Lemma after_first_length p s : length (after_first p s) <= length s.
Proof using Type.
  induction s as [|c s IH]; [done|]. cbn [after_first]. destruct (starts_with p (c :: s)).
  - rewrite length_drop. lia.
  - simpl. lia.
Qed.

Lemma quoted_length closing fuel body s : length (snd (quoted closing fuel body s)) <= length s.
Proof using Type.
  revert body s. induction fuel as [|fuel IH]; intros body s; [simpl; lia|].
  destruct s as [|c s]; [done|]. simpl. destruct (c =? closing)%Z.
  - destruct s as [|c' s]; simpl; [lia|].
    destruct (_ && _); [|simpl; lia]. specialize (IH (body ++ [c; c']) s). lia.
  - specialize (IH (body ++ [c]) s). lia.
Qed.

Lemma span_length f s : length (snd (span f s)) <= length s.
Proof using Type.
  induction s as [|c s IH]; simpl; [done|]. destruct (f c); simpl; [|lia].
  destruct (span f s). simpl in *. lia.
Qed.

(** More fuel than characters changes nothing: the loop of [_sql_tokens] ends
    within [length sql] rounds. *)
Lemma tokens_from_enough fuel s : length s <= fuel -> tokens_from fuel s = sql_tokens s.
Proof using Type.
  unfold sql_tokens. remember (length s) as n eqn:Hn. assert (Hle : length s <= n) by lia. clear Hn.
  revert s n Hle. induction fuel as [|fuel IH]; intros s n Hs Hf.
  - assert (n = 0) as -> by lia. by destruct s.
  - destruct s as [|c s]; [by destruct n|]. destruct n as [|n]; [simpl in Hs; lia|].
    simpl in Hs. cbn [tokens_from].
    assert (Hrec : forall s', length s' <= length s -> tokens_from fuel s' = tokens_from n s')
      by (intros s' Hs'; apply IH; lia).
    destruct (py_isspace c); [by apply Hrec|].
    assert (Hdrop : length (drop 2 (c :: s)) <= length s) by (rewrite length_drop; simpl; lia).
    destruct (starts_with (u "--") _).
    { apply Hrec. pose proof (after_first_length [10%Z] (drop 2 (c :: s))). lia. }
    destruct (starts_with (u "/*") _).
    { apply Hrec. pose proof (after_first_length (u "*/") (drop 2 (c :: s))). lia. }
    destruct (is_quote c).
    { pose proof (quoted_length (if (c =? 91)%Z then 93 else c) (length s) [] s).
      destruct (quoted _ _ _ _) as [body rest]. f_equal. by apply Hrec. }
    destruct (_ || _).
    { pose proof (span_length word_char s). destruct (span _ _) as [word rest].
      f_equal. by apply Hrec. }
    f_equal. by apply Hrec.
Qed.

Lemma validate_statement_sound s : validate_sqlite_statement s = Ok tt ->
  operation_keyword (sql_tokens s) ∉ restricted_first_keywords /\
  uses_temp_schema (sql_tokens s) = false /\
  ~ (token_at (sql_tokens s) 0 = u "CREATE" /\
     token_at (sql_tokens s) 1 ∈ [u "TEMP"; u "TEMPORARY"]).
Proof using Type.
  unfold validate_sqlite_statement. generalize (sql_tokens s). intros tokens H. res_inv.
  repeat match goal with
  | H : negb _ = true |- _ => apply negb_true_iff in H
  | H : bool_decide _ = false |- _ => apply bool_decide_eq_false in H
  end. split_and!; [done|done|]. intros [H0 H1].
  rewrite H0, (bool_decide_eq_true_2 _ eq_refl), (bool_decide_eq_true_2 _ H1) in *.
  destruct tokens as [|t0 [|t1 rest]]; [done| |done].
  unfold token_at in H1. simpl in H1. apply elem_of_cons in H1 as [H1|H1]; [done|].
  by apply list_elem_of_singleton in H1.
Qed.

(** The two kinds of test of the authorizer. *)
Lemma deny_iff (b c : bool) (P Q : Prop) : (b = true <-> P) -> (c = true <-> Q) ->
  (if b then false else c) = true <-> ~ P /\ Q.
Proof using Type. destruct b; naive_solver. Qed.
Lemma allow_iff (b c : bool) (P Q : Prop) : (b = true <-> P) -> (c = true <-> Q) ->
  (if b then c else true) = true <-> (P -> Q).
Proof using Type. destruct b; naive_solver. Qed.

(** ** Properties *)

(** the authorizer keeps a body inside the main schema and away from the
    history.  It allows an action iff the action neither controls the
    connection nor touches temporary objects, does not name the history table
    (ignoring case) where that action names its table, alters main only, and
    mutates main only - or SQLite's own temporary catalog while an ALTER runs. *)
Theorem authorizer_exact a first second database_name allow :
  migration_authorizer a first second database_name allow = true <->
  a ∉ connection_actions /\ a ∉ temp_actions /\
  ~ (a ∈ history_first_argument_actions /\ is_history first = true) /\
  ~ (a ∈ history_second_argument_actions /\ is_history second = true) /\
  (a = AlterTable -> first = Some (u "main")) /\
  (a ∈ mutation_actions -> database_name ∈ [None; Some (u "main")] \/
     allow = true /\ a = Update /\ database_name = Some (u "temp") /\
     first = Some (u "sqlite_temp_master")).
Proof using Type.
  unfold migration_authorizer. etransitivity.
  { apply deny_iff; [rewrite orb_true_iff, !bool_decide_eq_true; reflexivity|].
    apply deny_iff; [rewrite orb_true_iff, !andb_true_iff, !bool_decide_eq_true; reflexivity|].
    apply deny_iff;
      [rewrite andb_true_iff, negb_true_iff, bool_decide_eq_true, bool_decide_eq_false; reflexivity|].
    apply allow_iff;
      [rewrite andb_true_iff, negb_true_iff, bool_decide_eq_true, bool_decide_eq_false; reflexivity|].
    rewrite !andb_true_iff, !bool_decide_eq_true. reflexivity. }
  destruct (decide (first = Some (u "main"))), (decide (database_name ∈ [None; Some (u "main")]));
    tauto.
Qed.
End tokens.

(** ** The screen sees what SQLite reads *)

Section screen.
Context `{U : unicode} `{!ascii_laws U}.

Lemma sqlite_tokens_round c s : sql_tokens (c :: s) =
  if py_isspace c then sql_tokens s
  else if starts_with (u "--") (c :: s) then sql_tokens (after_first [10%Z] (drop 2 (c :: s)))
  else if starts_with (u "/*") (c :: s) then sql_tokens (after_first (u "*/") (drop 2 (c :: s)))
  else if is_quote c then
    let '(body, rest) := quoted (if (c =? 91)%Z then 93 else c) (length s) [] s in
    py_upper body :: sql_tokens rest
  else if py_isalpha c || (c =? 95)%Z then
    let '(word, rest) := span word_char s in py_upper (c :: word) :: sql_tokens rest
  else [c] :: sql_tokens s.
Proof using All.
  unfold sql_tokens at 1. cbn [length tokens_from].
  assert (He : forall s', length s' <= length s -> tokens_from (length s) s' = sql_tokens s')
    by (intros; by apply tokens_from_enough).
  pose proof (after_first_length [10%Z] (drop 2 (c :: s))) as H1.
  pose proof (after_first_length (u "*/") (drop 2 (c :: s))) as H2.
  rewrite length_drop in H1, H2. simpl length in H1, H2.
  rewrite (He s), (He (after_first [10%Z] _)), (He (after_first (u "*/") _)) by (simpl in *; lia).
  destruct (is_quote c).
  - pose proof (quoted_length (if (c =? 91)%Z then 93 else c) (length s) [] s).
    destruct (quoted _ _ _ _). by rewrite He.
  - pose proof (span_length word_char s). destruct (span _ _). by rewrite He.
Qed.

Lemma after_first_found p text s : p <> [] -> (forall a b, text ++ p = a ++ p ++ b -> b = []) ->
  after_first p (text ++ p ++ s) = s.
Proof using All.
  intros Hp. induction text as [|c text IH]; intros Hfirst.
  - destruct p as [|x p]; [done|]. cbn [app after_first]. unfold starts_with.
    change (x :: p ++ s) with ((x :: p) ++ s). rewrite take_app_length, bool_decide_eq_true_2 by done.
    by rewrite drop_app_length.
  - cbn [app after_first]. rewrite IH.
    + destruct (starts_with p (c :: text ++ p ++ s)) eqn:Hs; [|done]. exfalso.
      unfold starts_with in Hs. apply bool_decide_eq_true in Hs.
      assert (Hpre : take (length p) (c :: text ++ p) = p).
      { rewrite app_assoc in Hs. change (c :: (text ++ p) ++ s) with ((c :: text ++ p) ++ s) in Hs.
        rewrite take_app_le in Hs; [done|]. simpl. rewrite length_app. lia. }
      assert (Hb : drop (length p) (c :: text ++ p) = []).
      { apply (Hfirst []). cbn [app]. rewrite <- (take_drop (length p) (c :: text ++ p)) at 1. by rewrite Hpre. }
      apply (f_equal length) in Hb. rewrite length_drop in Hb. simpl in Hb.
      rewrite length_app in Hb. destruct p; [done|]. simpl in *. lia.
    + intros a b H. apply (Hfirst (c :: a) b). cbn [app]. by rewrite H.
Qed.

Lemma starts_with_prefix p s : starts_with p (p ++ s) = true.
Proof using All. unfold starts_with. rewrite take_app_length. by apply bool_decide_eq_true_2. Qed.

Lemma starts_with_head p d c s : c <> d -> starts_with (d :: p) (c :: s) = false.
Proof using All.
  intros H. unfold starts_with. apply bool_decide_eq_false_2. cbn [length take]. by intros [= ? _].
Qed.

Lemma blank_skipped b s : sqlite_blank b -> byte_order_mark ∉ b -> sql_tokens (b ++ s) = sql_tokens s.
Proof using All.
  induction 1 as [|c b Hc _ IH|text b Ht _ IH|text b Ht _ IH]; intros Hbom; [done|..].
  - apply not_elem_of_cons in Hbom as [Hne Hbom]. cbn [app]. rewrite sqlite_tokens_round.
    replace (py_isspace c) with true; [by apply IH|]. symmetry. unfold py_isspace.
    apply bool_decide_eq_true_2. set_solver.
  - rewrite <- app_assoc. change (u "--" ++ (text ++ 10%Z :: b) ++ s) with (45%Z :: 45%Z :: (text ++ 10%Z :: b) ++ s).
    rewrite sqlite_tokens_round. change (py_isspace 45) with false.
    change (45%Z :: 45%Z :: ?x) with (u "--" ++ x). rewrite starts_with_prefix.
    change (drop 2 (u "--" ++ ?x)) with x. rewrite <- app_assoc. cbn [app].
    change (text ++ 10%Z :: b ++ s) with (text ++ [10%Z] ++ b ++ s). rewrite after_first_found.
    + apply IH. set_solver.
    + done.
    + intros x y Hxy. destruct y as [|z y] using rev_ind; [done|]. exfalso. apply Ht.
      rewrite !app_assoc in Hxy. apply app_inj_tail in Hxy as [-> _]. set_solver.
  - rewrite <- !app_assoc. change (u "/*" ++ ?x) with (47%Z :: 42%Z :: x). rewrite sqlite_tokens_round.
    change (py_isspace 47) with false. change (u "--") with [45; 45]%Z.
    rewrite (starts_with_head [45%Z] 45 47) by done.
    change (47%Z :: 42%Z :: ?x) with (u "/*" ++ x). rewrite starts_with_prefix.
    change (drop 2 (u "/*" ++ ?x)) with x. rewrite after_first_found by done. apply IH. set_solver.
Qed.

Lemma letter_range c : ascii_alpha c = true -> (65 <= c <= 122)%Z /\ c ∉ [91; 96; 95]%Z.
Proof using All.
  unfold ascii_alpha. rewrite orb_true_iff, !andb_true_iff, !Z.leb_le. intros Hc.
  split; [lia|]. rewrite !not_elem_of_cons. split_and!; [lia..|apply not_elem_of_nil].
Qed.

Lemma letters_upper w : Forall (fun c => ascii_alpha c = true) w -> py_upper w = ascii_upper w.
Proof using All.
  intros H. apply upper_law. eapply Forall_impl; [exact H|]. intros c Hc%letter_range. lia.
Qed.

(** No mark, letter or quote begins a blank or a comment. *)
Lemma no_blank_here c s : c ∉ [45; 47]%Z -> (33 <= c <= 126)%Z ->
  py_isspace c = false /\ starts_with (u "--") (c :: s) = false /\ starts_with (u "/*") (c :: s) = false.
Proof using All.
  intros Hc Hr. rewrite !not_elem_of_cons in Hc. destruct Hc as (H1 & H2 & _). split_and!.
  - unfold py_isspace. apply bool_decide_eq_false_2. rewrite !not_elem_of_cons.
    split_and!; [lia..|apply not_elem_of_nil].
  - by apply (starts_with_head [45%Z]).
  - by apply (starts_with_head [42%Z]).
Qed.

Lemma word_read w s : w <> [] -> Forall (fun c => ascii_alpha c = true) w ->
  match s with c :: _ => sqlite_id_char c = false | [] => True end ->
  sql_tokens (w ++ s) = ascii_upper w :: sql_tokens s.
Proof using All.
  intros Hw Hl Hs. destruct w as [|c w]; [done|]. rewrite <- (letters_upper _ Hl).
  apply Forall_cons in Hl as [Hc Hl]. destruct (letter_range c Hc) as [Hr Hq]. cbn [app].
  rewrite sqlite_tokens_round.
  destruct (no_blank_here c (w ++ s)) as (-> & -> & ->); [rewrite !not_elem_of_cons; split_and!; [lia..|apply not_elem_of_nil]|lia|].
  replace (is_quote c) with false.
  2:{ symmetry. apply bool_decide_eq_false_2. rewrite !not_elem_of_cons in *. split_and!; try lia; [naive_solver..|apply not_elem_of_nil]. }
  rewrite isalpha_law, Hc by lia. cbn [orb].
  assert (Hspan : span word_char (w ++ s) = (w, s)); [|by rewrite Hspan].
  clear Hw Hc Hr Hq. induction Hl as [|d w Hd Hl IH].
  - destruct s as [|d s]; [done|]. cbn [app span]. unfold sqlite_id_char in Hs.
    rewrite !orb_false_iff, negb_false_iff, andb_true_iff, Z.leb_le, Z.ltb_lt in Hs.
    destruct Hs as [[[Ha Hdig] Hin%bool_decide_eq_false] Hascii]. unfold word_char.
    rewrite isalnum_law, Ha, Hdig by lia. rewrite !not_elem_of_cons in Hin.
    by rewrite (proj2 (Z.eqb_neq d 95)) by tauto.
  - cbn [app span]. apply letter_range in Hd as Hr. unfold word_char at 1.
    rewrite isalnum_law, Hd by lia. cbn [orb]. by rewrite IH.
Qed.

Lemma quoted_letters closing w s fuel body : Forall (fun c => ascii_alpha c = true) w ->
  closing ∈ [39; 34; 96; 93]%Z -> length w < fuel ->
  match s with c :: _ => closing = 93%Z \/ c <> closing | [] => True end ->
  quoted closing fuel body (w ++ closing :: s) = (body ++ w, s).
Proof using All.
  intros Hw Hq Hf Hs. revert fuel body Hf. induction Hw as [|c w Hc _ IH]; intros fuel body Hf.
  - destruct fuel as [|fuel]; [simpl in Hf; lia|]. cbn [app quoted]. rewrite Z.eqb_refl, app_nil_r.
    destruct s as [|d s]; [done|]. destruct Hs as [->|Hs]; [done|].
    by rewrite (proj2 (Z.eqb_neq d closing)), andb_false_r by done.
  - destruct fuel as [|fuel]; [simpl in Hf; lia|]. cbn [app quoted].
    destruct (letter_range c Hc) as [Hr Hne]. rewrite !not_elem_of_cons in Hne.
    rewrite (proj2 (Z.eqb_neq c closing)).
    2:{ intros ->. unfold ascii_alpha in Hc. rewrite orb_true_iff, !andb_true_iff, !Z.leb_le in Hc.
        rewrite !elem_of_cons in Hq. destruct Hq as [->|[->|[->|[->|Hq%not_elem_of_nil]]]]; lia || done. }
    rewrite IH by (simpl in Hf; lia). by rewrite <- app_assoc.
Qed.

Lemma name_read q w s : q ∈ [39; 34; 96; 91]%Z -> Forall (fun c => ascii_alpha c = true) w ->
  match s with c :: _ => q = 91%Z \/ c <> q | [] => True end ->
  sql_tokens (q :: w ++ (if (q =? 91)%Z then 93%Z else q) :: s) = ascii_upper w :: sql_tokens s.
Proof using All.
  intros Hq Hw Hs. rewrite sqlite_tokens_round.
  assert (Hr : (34 <= q <= 126)%Z /\ q ∉ [45; 47]%Z).
  { rewrite !elem_of_cons in Hq. destruct Hq as [->|[->|[->|[->|Hq%not_elem_of_nil]]]]; try done;
      (split; [lia|]; rewrite !not_elem_of_cons; split_and!; [lia..|apply not_elem_of_nil]). }
  destruct (no_blank_here q (w ++ (if (q =? 91)%Z then 93%Z else q) :: s)) as (-> & -> & ->); [tauto|lia|].
  unfold is_quote. rewrite bool_decide_eq_true_2 by set_solver.
  rewrite (quoted_letters _ w s); [by rewrite app_nil_l, letters_upper|done| | |].
  - rewrite !elem_of_cons in Hq. destruct Hq as [->|[->|[->|[->|Hq%not_elem_of_nil]]]]; try done; set_solver.
  - rewrite length_app. simpl. lia.
  - destruct s as [|c s]; [done|]. destruct (Z.eqb_spec q 91) as [->|]; [by left|]. destruct Hs; [done|by right].
Qed.

Lemma mark_read c s : c ∈ [40; 41; 44; 46; 59]%Z -> sql_tokens (c :: s) = [c] :: sql_tokens s.
Proof using All.
  intros Hc. rewrite sqlite_tokens_round.
  rewrite !elem_of_cons in Hc. destruct Hc as [->|[->|[->|[->|[->|Hc%not_elem_of_nil]]]]]; try done;
    by rewrite isalpha_law by lia.
Qed.

(** Whatever lexemes SQLite reads at the start of a text, the screen reads as
    tokens. *)
Definition lexeme_token (x : lexeme) : utext :=
  match x with LWord w | LName w => ascii_upper w | LMark c => [c] end.

Lemma reads_tokens s l : sqlite_reads s l -> byte_order_mark ∉ s ->
  exists rest, sql_tokens s = map lexeme_token l ++ rest.
Proof using All.
  induction 1 as [s|b w s l Hb Hw Hl Hs _ IH|b q w s l Hb Hq Hl Hs _ IH|b c s l Hb Hc _ IH];
    intros Hbom; [by eexists| | |]; rewrite blank_skipped by (done || set_solver);
    destruct IH as [rest IH]; try (set_solver); exists rest.
  - by rewrite word_read, IH by done.
  - by rewrite name_read, IH by done.
  - by rewrite mark_read, IH by done.
Qed.

(** ** What the screen refuses *)

Lemma operation_keyword_first t rest : t <> u "EXPLAIN" -> t <> u "WITH" ->
  operation_keyword (t :: rest) = t.
Proof using All.
  intros H1 H2. unfold operation_keyword, operation_index, token_at. cbn [lookup list_lookup default].
  rewrite bool_decide_eq_false_2 by done. cbn [andb]. rewrite bool_decide_eq_false_2 by done.
  by rewrite orb_true_r.
Qed.

Lemma refused_statement tokens l rest : tokens = map lexeme_token l ++ rest -> unsafe_statement l ->
  operation_keyword tokens ∈ restricted_first_keywords \/ uses_temp_schema tokens = true \/
  (token_at tokens 0 = u "CREATE" /\ token_at tokens 1 ∈ [u "TEMP"; u "TEMPORARY"]).
Proof using All.
  intros -> [w l' Hw|w w' l' Hw Hw'|ws name l' Ht Hn].
  - left. cbn [map lexeme_token app]. rewrite operation_keyword_first.
    + unfold restricted_first_keywords. cbn [map] in Hw. rewrite !elem_of_cons in Hw |- *. tauto.
    + intros Heq. rewrite Heq in Hw. by refine (bool_decide_eq_false_1 _ _ Hw).
    + intros Heq. rewrite Heq in Hw. by refine (bool_decide_eq_false_1 _ _ Hw).
  - right. right. by cbn [map lexeme_token app token_at lookup list_lookup default].
  - right. left. rewrite map_app, map_map. cbn [map]. rewrite <- app_assoc. cbn [app].
    change (map (fun x => lexeme_token (LWord x)) ws) with (map ascii_upper ws).
    replace (lexeme_token name) with (u "TEMP") by (destruct name; done).
    generalize (map lexeme_token l' ++ rest). intros tail.
    destruct Ht as [ws' Ht|x Hx|x Hx].
    + cbn [map] in Ht. rewrite !elem_of_cons in Ht. repeat destruct Ht as [->|Ht]; try reflexivity.
      by apply not_elem_of_nil in Ht.
    + unfold conflict_words in Hx. cbn [map] in Hx. rewrite !elem_of_cons in Hx.
      by destruct Hx as [->|[->|[->|[->|[->|Hx%not_elem_of_nil]]]]].
    + unfold conflict_words in Hx. cbn [map] in Hx. rewrite !elem_of_cons in Hx.
      by destruct Hx as [->|[->|[->|[->|[->|Hx%not_elem_of_nil]]]]].
Qed.

Lemma only_semicolons s l : byte_order_mark ∉ s -> (forall t, t ∈ sql_tokens s -> t = u ";") ->
  sqlite_reads s l -> Forall (eq (LMark 59)) l.
Proof using All.
  intros Hbom Hs Hl. destruct (reads_tokens s l Hl Hbom) as [rest Ht]. apply Forall_forall. intros x Hx.
  assert (H : lexeme_token x = u ";").
  { apply Hs. rewrite Ht. apply elem_of_app. left. by apply list_elem_of_fmap_2. }
  assert (Hletters : match x with LWord w | LName w => Forall (fun c => ascii_alpha c = true) w | _ => True end).
  { clear -Hl Hx. revert Hx. induction Hl; [by intros ?%not_elem_of_nil|..]; intros [->|Hx]%elem_of_cons; done || by apply IHHl. }
  assert (Hw : forall w, ascii_upper w = u ";" -> Forall (fun c => ascii_alpha c = true) w -> False).
  { intros [|c w] Hw Hc; [done|]. change (u ";") with [59%Z] in Hw. unfold ascii_upper in Hw. cbn [map] in Hw.
    injection Hw as Hw _. apply Forall_cons in Hc as [Hc _]. apply letter_range in Hc as [Hr _].
    destruct (_ && _) eqn:He in Hw; [|lia]. apply andb_true_iff in He. rewrite !Z.leb_le in He. lia. }
  destruct x as [w|w|c]; [by destruct (Hw w)|by destruct (Hw w)|by injection H as ->].
Qed.

Context (complete_statement : utext -> bool).

End screen.

(** ** Concrete bodies *)

(** A scanner that takes any text ending in [;] for complete. *)
Definition ends_in_semicolon (s : utext) : bool := bool_decide (last s = Some 59%Z).

Example sql_tokens_example :
  sql_tokens (U := ascii_unicode)
    (u "WITH a AS (SELECT 1) /* x */ delete FROM [my table] -- done") =
  map u ["WITH"; "A"; "AS"; "("; "SELECT"; "1"; ")"; "DELETE"; "FROM"; "MY TABLE"].
Proof. vm_compute. reflexivity. Qed.

Example operation_example :
  operation_keyword (sql_tokens (U := ascii_unicode)
    (u "EXPLAIN WITH a AS (SELECT 1) delete FROM t")) = u "DELETE".
Proof. vm_compute. reflexivity. Qed.


(** The byte order mark hides a word that SQLite reads: the screen takes the mark
    for the operation. *)
Example byte_order_mark_hides :
  sqlite_reads (byte_order_mark :: u "PRAGMA a") [LWord (u "PRAGMA")] /\
  sqlite_statements (U := ascii_unicode) ends_in_semicolon (byte_order_mark :: u "PRAGMA a;") =
    Ok [byte_order_mark :: u "PRAGMA a;"].
Proof.
  split; [|vm_compute; reflexivity].
  apply (reads_word [byte_order_mark] (u "PRAGMA") (u " a")).
  - apply blank_char; [set_solver|constructor].
  - discriminate.
  - apply (bool_decide_unpack _). vm_compute. exact I.
  - reflexivity.
  - constructor.
Qed.
