(* ===== verification/MariadbTokens.v ===== *)
(** * Screening MariaDB migration bodies

    The lexical half of [mariadb/migrations.py]: [_read_quoted],
    [_sql_tokens] with the executable comments, [_statement_starts],
    [validate_mariadb_migrations] and [build_migration_lock_name].  The
    screen is checked against a grammar of lexical elements: whatever text the
    elements spell, the screen sees exactly the words that MariaDB would. *)

From S2P Require Export SqlTokens.

Section mariadb_tokens.
Context `{U : unicode}.

(** The text before the first [p] and the text after it. *)
Fixpoint find_split (p s : utext) : option (utext * utext) :=
  if starts_with p s then Some ([], drop (length p) s)
  else match s with
       | [] => None
       | c :: s' => '(before, after) ← find_split p s'; Some (c :: before, after)
       end.

(** From just after the opening quote: the value and what follows.  Only text
    outside backticks knows backslash escapes. *)
Fixpoint read_quoted (quote : Z) (s : utext) : utext * utext :=
  match s with
  | [] => ([], [])
  | c :: s' =>
      let other :=
        if negb (c =? quote)%Z then
          let '(value, rest) := read_quoted quote s' in (c :: value, rest)
        else match s' with
             | c' :: s'' =>
                 if (c' =? quote)%Z then
                   let '(value, rest) := read_quoted quote s'' in (quote :: value, rest)
                 else ([], s')
             | [] => ([], [])
             end in
      if negb (quote =? 96)%Z && (c =? 92)%Z then
        match s' with
        | c' :: s'' => let '(value, rest) := read_quoted quote s'' in (c' :: value, rest)
        | [] => other
        end
      else other
  end.

Fixpoint strip_left (f : Z -> bool) (s : utext) : utext :=
  match s with c :: s' => if f c then strip_left f s' else s | [] => [] end.

(** The SQL that MariaDB executes out of a comment with this inside. *)
Definition executable_sql (inside : utext) : option utext :=
  let content :=
    if starts_with (u "!") inside then Some (drop 1 inside)
    else if starts_with (u "M!") inside then Some (drop 2 inside)
    else None in
  (fun s => strip_left py_isspace (strip_left is_digit (strip_left py_isspace s))) <$> content.

Definition word_start (c : Z) : bool := py_isalpha c || bool_decide (c ∈ [95; 64]%Z).
Definition word_part (c : Z) : bool := py_isalnum c || bool_decide (c ∈ [95; 64]%Z).
Definition word_token (word : utext) : utext := strip_left (Z.eqb 64) (py_upper word).

Definition dash_comment (s : utext) : bool :=
  starts_with (u "--") s && match drop 2 s with [] => true | c :: _ => py_isspace c end.

Definition newline : utext := [10%Z].

(** A round of the loop at the character [c], before [s]; [next] tokenizes. *)
Definition tokens_round (next : utext -> list utext) (c : Z) (s : utext) : list utext :=
  if py_isspace c then next s
  else if (c =? 35)%Z then next (after_first newline s)
  else if dash_comment (c :: s) then next (after_first newline (drop 1 s))
  else if starts_with (u "/*") (c :: s) then
    match find_split (u "*/") (drop 1 s) with
    | None => []
    | Some (inside, rest) =>
        match executable_sql inside with Some sql => next sql | None => [] end ++ next rest
    end
  else if (c =? 96)%Z then
    let '(identifier, rest) := read_quoted c s in py_upper identifier :: next rest
  else if (c =? 39)%Z || (c =? 34)%Z then next (snd (read_quoted c s))
  else if word_start c then
    let '(word, rest) := span word_part s in word_token (c :: word) :: next rest
  else if (c =? 59)%Z then [c] :: next s
  else next s.

Fixpoint tokens_from (fuel : nat) (s : utext) : list utext :=
  match fuel, s with
  | O, _ | _, [] => []
  | S fuel, c :: s' => tokens_round (tokens_from fuel) c s'
  end.

(** Every call is on a shorter text, so [length sql] is enough fuel. *)
Definition sql_tokens (sql : utext) : list utext := tokens_from (length sql) sql.

(** The non-empty runs of tokens between semicolons. *)
Fixpoint statement_starts_from (current : list utext) (tokens : list utext) : list (list utext) :=
  match tokens with
  | [] => if bool_decide (current = []) then [] else [current]
  | t :: rest =>
      if bool_decide (t = u ";") then
        if bool_decide (current = []) then statement_starts_from [] rest
        else current :: statement_starts_from [] rest
      else statement_starts_from (current ++ [t]) rest
  end.
Definition statement_starts (tokens : list utext) : list (list utext) :=
  statement_starts_from [] tokens.

Definition restricted_body_tokens : list utext :=
  map u ["AUTOCOMMIT"; "CALL"; "CHARACTER_SET_CLIENT"; "CHARACTER_SET_CONNECTION";
         "CHARACTER_SET_RESULTS"; "CHECK_CONSTRAINT_CHECKS"; "COLLATION_CONNECTION"; "COMMIT";
         "EXECUTE"; "FOREIGN_KEY_CHECKS"; "GET_LOCK"; "NAMES"; "PREPARE"; "RELEASE_ALL_LOCKS";
         "RELEASE_LOCK"; "ROLLBACK"; "SAVEPOINT"; "SQL_MODE"; "TIME_ZONE"; "TRANSACTION";
         "UNIQUE_CHECKS"; "USE"]%string.

Definition invalid_start (statement : list utext) : bool :=
  bool_decide (take 1 statement ∈ [[u "BEGIN"]; [u "XA"]])
  || bool_decide (take 2 statement ∈ [[u "LOCK"; u "TABLES"]; [u "START"; u "TRANSACTION"]])
  || bool_decide (take 2 statement = [u "UNLOCK"; u "TABLES"]).

Definition validate_mariadb_body (sql : utext) : res unit :=
  let tokens := sql_tokens sql in
  let restricted := filter (fun t => t ∈ tokens) restricted_body_tokens in
  guardR (bool_decide (restricted = []) && negb (existsb invalid_start (statement_starts tokens)))
    MigrationDeclarationError
    "MariaDB migration cannot change transaction or advisory-lock state".

Definition validate_mariadb_migrations (migrations : list migration) : res unit :=
  iterR (fun m => validate_mariadb_body (mig_sql m)) migrations.

(** ** The name of the lock *)

Definition lock_name_prefix : utext := u "snekql_migrations.".
Definition lock_name_max : nat := 64.

Definition build_migration_lock_name (database : utext) : res utext :=
  let candidate := lock_name_prefix ++ database in
  if length candidate <=? lock_name_max then Ok candidate
  else match utf8 database with
       | None => raise ValueError "surrogates not allowed"
       | Some bytes => Ok (lock_name_prefix ++ take 16 (u (hexdigest (sha256 bytes))))
       end.

(** ** MariaDB's grammar of lexical elements

    What MariaDB's lexer makes of a body (with backslash escapes, the default), for
    text that is ASCII and without [$] outside comments and quotes.  The body of an
    executable comment is lexed in place, after a version that is taken as met: its
    comment ends at the first [*/] that is an element of its own, not inside a string,
    an identifier, a comment or another executable comment. *)

Inductive string_char := Plain (c : Z) | Backslash (c : Z) | DoubledQuote.

Inductive element :=
  | EBlank (c : Z)
  | EHash (text : utext)
  | EDash (text : utext)
  | EComment (text : utext)
  | EExecutable (mariadb : bool) (version : utext) (body : list element)
  | EIdentifier (name : utext)
  | EString (quote : Z) (chars : list string_char)
  | EWord (word : utext)
  | ESemicolon
  | EOther (c : Z).

Definition spell_char (quote : Z) (x : string_char) : utext :=
  match x with Plain c => [c] | Backslash c => [92%Z; c] | DoubledQuote => [quote; quote] end.
Definition double_backtick (c : Z) : utext := if (c =? 96)%Z then [96; 96]%Z else [c].

Fixpoint spell_element (e : element) : utext :=
  match e with
  | EBlank c | EOther c => [c]
  | EHash text => 35%Z :: text ++ newline
  | EDash text => u "--" ++ text ++ newline
  | EComment text => u "/*" ++ text ++ u "*/"
  | EExecutable mariadb version body =>
      u "/*" ++ ((if mariadb then u "M!" else u "!") ++ version ++ flat_map spell_element body) ++ u "*/"
  | EIdentifier name => 96%Z :: flat_map double_backtick name ++ [96%Z]
  | EString quote chars => quote :: flat_map (spell_char quote) chars ++ [quote]
  | EWord word => word
  | ESemicolon => [59%Z]
  end.
Definition spell (els : list element) : utext := flat_map spell_element els.

(** The words of a text: those of its identifiers, plain words and executable
    comments, and its semicolons. *)
Fixpoint element_words (e : element) : list utext :=
  match e with
  | EIdentifier name => [py_upper name]
  | EWord word => [word_token word]
  | ESemicolon => [[59%Z]]
  | EExecutable _ _ body => flat_map element_words body
  | _ => []
  end.
Definition words (els : list element) : list utext := flat_map element_words els.

Definition starts (f : Z -> bool) (s : utext) : bool :=
  match s with c :: _ => f c | [] => false end.
Definition closed_by_star_slash (text : utext) : bool :=
  bool_decide (find_split (u "*/") (text ++ u "*/") = Some (text, [])).
Definition plain_char (quote : Z) (x : string_char) : bool :=
  match x with Plain c => negb (c =? quote)%Z && negb (c =? 92)%Z | _ => true end.

Definition all_in_context {A} (f : A -> utext -> bool) (spelling : A -> utext)
    : list A -> utext -> bool :=
  fix go l rest :=
    match l with [] => true | x :: l' => f x (flat_map spelling l' ++ rest) && go l' rest end.

(** MariaDB's blanks, the characters of a plain word and those that it may not
    touch, and the sign of a comment to the end of the line. *)
Definition mariadb_blank (c : Z) : bool := bool_decide (c ∈ [9; 10; 11; 12; 13; 32]%Z).
Definition plain_start (c : Z) : bool := ascii_alpha c || bool_decide (c ∈ [95; 64]%Z).
Definition plain_part (c : Z) : bool := plain_start c || is_digit c.
Definition word_touches (c : Z) : bool :=
  plain_part c || (c =? 36)%Z || negb ((0 <=? c) && (c <? 128))%Z.
Definition dashes (s : utext) : bool :=
  starts_with (u "--") s &&
  match drop 2 s with [] => true | c :: _ => (c <=? 32)%Z || (127 <=? c)%Z || (c =? 42)%Z end.

(** The element is one of MariaDB's when [rest] follows it. *)
Fixpoint element_before (e : element) (rest : utext) : bool :=
  match e with
  | EBlank c => mariadb_blank c
  | EHash text => negb (bool_decide (10%Z ∈ text))
  | EDash text =>
      negb (bool_decide (10%Z ∈ text)) && (bool_decide (text = []) || starts mariadb_blank text)
  | EComment text =>
      closed_by_star_slash text && negb (starts_with (u "!") text)
      && negb (starts_with (u "M!") text)
  | EExecutable mariadb version body =>
      forallb is_digit version && bool_decide (length version ∈ [0; 5; 6])
      && negb (starts is_digit (flat_map spell_element body))
      && all_in_context element_before spell_element body (u "*/" ++ rest)
  | EIdentifier name => negb (starts (Z.eqb 96) rest)
  | EString quote chars =>
      bool_decide (quote ∈ [39; 34]%Z) && forallb (plain_char quote) chars
      && negb (starts (Z.eqb quote) rest)
  | EWord word =>
      starts plain_start word && forallb plain_part word && negb (starts word_touches rest)
  | ESemicolon => true
  | EOther c =>
      (33 <=? c)%Z && (c <=? 126)%Z && negb (plain_start c)
      && negb (bool_decide (c ∈ [35; 36; 96; 39; 34; 59]%Z))
      && negb (is_digit c && starts (fun d => word_touches d && negb (is_digit d)) rest)
      && negb (dashes (c :: rest)) && negb (starts_with (u "/*") (c :: rest))
      && negb (starts_with (u "*/") (c :: rest))
  end.
Definition lexes (els : list element) (rest : utext) : bool :=
  all_in_context element_before spell_element els rest.

(** No executable comment holds a [*/] before its own: in none of its strings,
    identifiers, comments and nested executable comments. *)
Fixpoint closes_once (e : element) : bool :=
  match e with
  | EExecutable mariadb version body =>
      closed_by_star_slash ((if mariadb then u "M!" else u "!") ++ version ++ flat_map spell_element body)
      && forallb closes_once body
  | _ => true
  end.

(** The conditions under which the screen's loop reads an element when [rest] follows
    it in the text it is given; the text of an executable comment is a text of its own. *)
Fixpoint scanned_before (e : element) (rest : utext) : bool :=
  match e with
  | EBlank c => py_isspace c
  | EHash text => negb (bool_decide (10%Z ∈ text))
  | EDash text =>
      negb (bool_decide (10%Z ∈ text)) && (bool_decide (text = []) || starts py_isspace text)
  | EComment text =>
      closed_by_star_slash text && negb (starts_with (u "!") text)
      && negb (starts_with (u "M!") text)
  | EExecutable mariadb version body =>
      closed_by_star_slash ((if mariadb then u "M!" else u "!") ++ version ++ flat_map spell_element body)
      && forallb is_digit version
      && all_in_context scanned_before spell_element body []
  | EIdentifier name => negb (starts (Z.eqb 96) rest)
  | EString quote chars =>
      bool_decide (quote ∈ [39; 34]%Z) && forallb (plain_char quote) chars
      && negb (starts (Z.eqb quote) rest)
  | EWord word =>
      starts word_start word && negb (starts py_isspace word) && forallb word_part (tail word)
      && negb (starts word_part rest)
  | ESemicolon => true
  | EOther c =>
      negb (py_isspace c) && negb (bool_decide (c ∈ [35; 96; 39; 34; 59]%Z)) && negb (word_start c)
      && negb (dash_comment (c :: rest)) && negb (starts_with (u "/*") (c :: rest))
  end.
Definition scanned (els : list element) (rest : utext) : bool :=
  all_in_context scanned_before spell_element els rest.

(** ** Fuel *)

Lemma starts_with_nil p : p <> [] -> starts_with p [] = false.
Proof using Type. intros H. unfold starts_with. rewrite take_nil. by apply bool_decide_eq_false_2. Qed.

Lemma find_split_length p s before after :
  find_split p s = Some (before, after) -> length before + length p + length after <= length s.
Proof using Type.
  revert before. induction s as [|c s IH]; intros before; cbn [find_split];
    destruct (starts_with p _) eqn:Hs; intros H; simplify_eq/=;
    try (unfold starts_with in Hs; apply bool_decide_eq_true in Hs;
         apply (f_equal length) in Hs; rewrite length_take in Hs; rewrite length_drop; simpl in *; lia).
  destruct (find_split p s) as [[b a]|] eqn:Hf; simplify_eq/=. specialize (IH _ eq_refl). lia.
Qed.

Lemma read_quoted_length quote s : length (snd (read_quoted quote s)) <= length s.
Proof using Type.
  assert (Hn : forall n s, length s <= n -> length (snd (read_quoted quote s)) <= length s);
    [|by apply (Hn (length s))].
  clear s. induction n as [|n IH]; intros [|c s] Hs; simpl in Hs; try (simpl; lia).
  pose proof (IH s ltac:(lia)) as H1.
  assert (H2 : forall c' s'', s = c' :: s'' -> length (snd (read_quoted quote s'')) <= length s'')
    by (intros c' s'' ->; apply IH; simpl in Hs; lia).
  cbn [read_quoted].
  destruct s as [|c' s'']; [|specialize (H2 _ _ eq_refl)];
    repeat case_match; simplify_eq/=; lia.
Qed.

Lemma strip_left_length f s : length (strip_left f s) <= length s.
Proof using Type. induction s as [|c s IH]; simpl; [done|]. destruct (f c); simpl; lia. Qed.

Lemma executable_sql_length inside sql :
  executable_sql inside = Some sql -> length sql <= length inside.
Proof using Type.
  unfold executable_sql. intros H. apply fmap_Some in H as (content & Hc & ->).
  do 3 (etransitivity; [apply strip_left_length|]).
  repeat case_match; simplify_eq/=; rewrite length_drop; lia.
Qed.

Lemma tokens_round_ext f g c s : (forall s', length s' <= length s -> f s' = g s') ->
  tokens_round f c s = tokens_round g c s.
Proof using Type.
  intros Hfg. unfold tokens_round.
  assert (Hafter : forall k, length (after_first newline (drop k s)) <= length s)
    by (intros k; pose proof (after_first_length newline (drop k s)); rewrite length_drop in *; lia).
  destruct (py_isspace c); [by apply Hfg|].
  destruct (c =? 35)%Z; [apply Hfg, (Hafter 0)|].
  destruct (dash_comment _); [apply Hfg, (Hafter 1)|].
  destruct (starts_with (u "/*") _).
  { destruct (find_split _ _) as [[inside rest]|] eqn:Hfind; [|done].
    apply find_split_length in Hfind. simpl in Hfind. rewrite length_drop in Hfind. f_equal.
    - destruct (executable_sql inside) as [sql|] eqn:He; [|done].
      apply Hfg. apply executable_sql_length in He. lia.
    - apply Hfg. lia. }
  pose proof (read_quoted_length c s) as Hq.
  destruct (c =? 96)%Z; [destruct (read_quoted c s); f_equal; by apply Hfg|].
  destruct (_ || _)%bool; [by apply Hfg|].
  destruct (word_start c); [|by destruct (c =? 59)%Z; rewrite Hfg].
  pose proof (span_length word_part s). destruct (span _ _) as [word rest].
  f_equal. by apply Hfg.
Qed.

(** More fuel than characters changes nothing. *)
Lemma tokens_from_enough_mariadb fuel s :
  length s <= fuel -> tokens_from fuel s = sql_tokens s.
Proof using Type.
  unfold sql_tokens. remember (length s) as n eqn:Hn. assert (Hle : length s <= n) by lia. clear Hn.
  revert s n Hle. induction fuel as [|fuel IH]; intros s n Hs Hf.
  - assert (n = 0) as -> by lia. by destruct s.
  - destruct s as [|c s]; [by destruct n|]. destruct n as [|n]; [simpl in Hs; lia|].
    simpl in Hs. apply tokens_round_ext. intros s' Hs'. apply IH; lia.
Qed.

Lemma sql_tokens_cons c s : sql_tokens (c :: s) = tokens_round sql_tokens c s.
Proof using Type. apply tokens_round_ext. intros. by apply tokens_from_enough_mariadb. Qed.

(** ** Reading back each element *)

#[local] Arguments Z.eqb : simpl never.

Lemma starts_with_app p s s' : length p <= length s -> starts_with p (s ++ s') = starts_with p s.
Proof using Type. intros H. unfold starts_with. by rewrite take_app_le. Qed.

Lemma starts_with_self p s : starts_with p (p ++ s) = true.
Proof using Type. unfold starts_with. rewrite take_app_length. by apply bool_decide_eq_true_2. Qed.

Lemma find_split_app p text rest : find_split p (text ++ p) = Some (text, []) ->
  find_split p (text ++ p ++ rest) = Some (text, rest).
Proof using Type.
  induction text as [|c text IH]; intros H.
  - simpl. destruct p as [|x p]; [by destruct rest|]. cbn [app find_split].
    change (x :: p ++ rest) with ((x :: p) ++ rest). by rewrite starts_with_self, drop_app_length.
  - cbn [app find_split] in *.
    assert (Hs : starts_with p (c :: text ++ p) = false).
    { destruct (starts_with p (c :: text ++ p)); [|done]. simplify_eq. }
    rewrite Hs in H. rewrite app_assoc.
    change (c :: (text ++ p) ++ rest) with ((c :: text ++ p) ++ rest).
    rewrite starts_with_app, Hs by (simpl; rewrite length_app; lia).
    rewrite <- app_assoc. destruct (find_split p (text ++ p)) as [[b a]|]; simplify_eq/=.
    by rewrite IH.
Qed.

Lemma after_newline text rest : 10%Z ∉ text -> after_first newline (text ++ newline ++ rest) = rest.
Proof using Type.
  induction text as [|c text IH]; intros H; [by destruct rest|].
  apply not_elem_of_cons in H as [Hne Hin]. cbn [app after_first]. unfold starts_with at 1. simpl.
  rewrite bool_decide_eq_false_2 by (intros [= ->]; done). by apply IH.
Qed.

Lemma starts_app_r f a s : starts f s = false -> starts f (a ++ s) = starts f a.
Proof using Type. by destruct a. Qed.

Lemma span_word word rest : forallb word_part word = true -> starts word_part rest = false ->
  span word_part (word ++ rest) = (word, rest).
Proof using Type.
  intros Hw Hr. induction word as [|c word IH]; simpl in *.
  - destruct rest as [|c rest]; [done|]. simpl in *. by rewrite Hr.
  - apply andb_true_iff in Hw as [-> Hw]. by rewrite IH.
Qed.

Lemma read_identifier name rest : starts (Z.eqb 96) rest = false ->
  read_quoted 96 (flat_map double_backtick name ++ 96%Z :: rest) = (name, rest).
Proof using Type.
  intros Hr. induction name as [|c name IH].
  - cbn [flat_map app read_quoted]. rewrite Z.eqb_refl. simpl.
    destruct rest as [|c rest]; [done|]. simpl in Hr. by rewrite Z.eqb_sym, Hr.
  - cbn [flat_map]. unfold double_backtick at 1. destruct (Z.eqb_spec c 96) as [->|Hc];
      cbn [app read_quoted]; rewrite ?Z.eqb_refl; simpl;
      [|rewrite (proj2 (Z.eqb_neq _ _) Hc); simpl]; by rewrite IH.
Qed.

Lemma read_string quote chars rest : quote ∈ [39; 34]%Z -> forallb (plain_char quote) chars = true ->
  starts (Z.eqb quote) rest = false ->
  snd (read_quoted quote (flat_map (spell_char quote) chars ++ quote :: rest)) = rest.
Proof using Type.
  intros Hq Hc Hr.
  assert (Hq' : (quote =? 96)%Z = false /\ (quote =? 92)%Z = false)
    by (rewrite !elem_of_cons, elem_of_nil in Hq; destruct Hq as [->|[->|[]]]; done).
  destruct Hq' as [H96 H92]. induction chars as [|x chars IH]; simpl in Hc.
  - cbn [flat_map app read_quoted]. rewrite H96, H92, Z.eqb_refl. simpl.
    destruct rest as [|c rest]; [done|]. simpl in Hr. by rewrite Z.eqb_sym, Hr.
  - apply andb_true_iff in Hc as [Hx Hc]. specialize (IH Hc). destruct x as [c|c|]; cbn [flat_map app spell_char].
    + simpl in Hx. apply andb_true_iff in Hx as [Hc1%negb_true_iff Hc2%negb_true_iff].
      cbn [read_quoted]. rewrite H96, Hc1, Hc2. simpl. by destruct (read_quoted _ _).
    + cbn [read_quoted]. rewrite H96. simpl. by destruct (read_quoted _ _).
    + cbn [read_quoted]. rewrite H96, H92, Z.eqb_refl. simpl. by destruct (read_quoted _ _).
Qed.

Lemma element_induction (P : element -> Prop) :
  (forall e, (forall m v body x, e = EExecutable m v body -> x ∈ body -> P x) -> P e) ->
  forall e, P e.
Proof using Type.
  intros H. fix IH 1. intros e. apply H. destruct e; intros m v body' x Heq; try discriminate.
  injection Heq as _ _ <-. induction body as [|y body IHb].
  - intros []%not_elem_of_nil.
  - intros [->|Hx]%elem_of_cons; [apply IH|by apply IHb].
Qed.

Context `{!ascii_laws U}.

Lemma not_word_start c : (0 <= c < 128)%Z -> ascii_alpha c = false -> c ∉ [95; 64]%Z ->
  word_start c = false.
Proof using All.
  intros Hr Ha Hn. unfold word_start. rewrite isalpha_law, Ha by done.
  by rewrite bool_decide_eq_false_2.
Qed.

(** A character that begins no element is passed over. *)
Lemma skip_other c s : scanned_before (EOther c) s = true -> sql_tokens (c :: s) = sql_tokens s.
Proof using Type.
  cbn [scanned_before]. rewrite !andb_true_iff, !negb_true_iff, bool_decide_eq_false.
  intros [[[[Hsp Hq] Hw] Hd] Hc]. rewrite !not_elem_of_cons in Hq.
  destruct Hq as (H35 & H96 & H39 & H34 & H59 & _).
  rewrite sql_tokens_cons. unfold tokens_round. rewrite Hsp, Hd, Hc, Hw.
  rewrite !(proj2 (Z.eqb_neq _ _)) by done. done.
Qed.

Lemma first_char_differs p c d s : c <> d -> starts_with (d :: p) (c :: s) = false.
Proof using Type.
  intros H. unfold starts_with. apply bool_decide_eq_false_2. cbn [length take].
  intros [= Heq _]. done.
Qed.

Lemma skip_digit c s : is_digit c = true -> sql_tokens (c :: s) = sql_tokens s.
Proof using All.
  unfold is_digit. rewrite andb_true_iff, !Z.leb_le. intros Hc. apply skip_other.
  assert (Hd : starts_with (u "--") (c :: s) = false)
    by (apply (first_char_differs [45%Z] c 45%Z); lia).
  assert (Hs : starts_with (u "/*") (c :: s) = false)
    by (apply (first_char_differs [42%Z] c 47%Z); lia).
  assert (forall l, Forall (fun d => d < 48 \/ 57 < d)%Z l -> c ∉ l) as Hout.
  { intros l Hl Hin. rewrite Forall_forall in Hl. specialize (Hl _ Hin). lia. }
  cbn [scanned_before]. unfold dash_comment, py_isspace. rewrite Hd, Hs.
  rewrite !bool_decide_eq_false_2 by (apply Hout; repeat (constructor; [lia|]); constructor).
  rewrite not_word_start; [done|lia| |apply Hout; repeat (constructor; [lia|]); constructor].
  unfold ascii_alpha. apply orb_false_iff. rewrite !andb_false_iff, !Z.leb_gt. lia.
Qed.

Lemma sql_tokens_strip f s : (forall c s', f c = true -> sql_tokens (c :: s') = sql_tokens s') ->
  sql_tokens (strip_left f s) = sql_tokens s.
Proof using Type.
  intros Hf. induction s as [|c s IH]; simpl; [done|]. destruct (f c) eqn:Hc; [|done].
  by rewrite Hf.
Qed.

Lemma skip_space c s : py_isspace c = true -> sql_tokens (c :: s) = sql_tokens s.
Proof using Type. intros H. rewrite sql_tokens_cons. unfold tokens_round. by rewrite H. Qed.

Lemma sql_tokens_executable m text : exists sql,
  executable_sql ((if m : bool then u "M!" else u "!") ++ text) = Some sql /\
  sql_tokens sql = sql_tokens text.
Proof using All.
  exists (strip_left py_isspace (strip_left is_digit (strip_left py_isspace text))). split.
  - unfold executable_sql. destruct m; rewrite starts_with_self; [|done].
    assert (Hs : starts_with (u "!") (u "M!" ++ text) = false)
      by (apply (first_char_differs [] 77%Z 33%Z); lia).
    by rewrite Hs.
  - rewrite !sql_tokens_strip; auto using skip_space, skip_digit.
Qed.

Lemma skip_version version s : forallb is_digit version = true -> sql_tokens (version ++ s) = sql_tokens s.
Proof using All.
  induction version as [|c version IH]; [done|]. cbn [forallb]. rewrite andb_true_iff. intros [Hc Hv].
  cbn [app]. rewrite skip_digit by done. by apply IH.
Qed.

Lemma elements_read els : forall rest,
  (forall e rest, e ∈ els -> scanned_before e rest = true ->
     sql_tokens (spell_element e ++ rest) = element_words e ++ sql_tokens rest) ->
  scanned els rest = true -> sql_tokens (spell els ++ rest) = words els ++ sql_tokens rest.
Proof using Type.
  induction els as [|e els IH]; intros rest He Hl; [done|].
  unfold scanned in Hl. cbn [all_in_context] in Hl. apply andb_true_iff in Hl as [Hb Hl].
  unfold spell, words. cbn [flat_map]. rewrite <- !app_assoc.
  rewrite (He e) by (done || by left). f_equal. apply IH; [|done].
  intros e' rest' Hin. apply He. by right.
Qed.

Lemma after_dashes c s : starts_with (u "--") (45%Z :: c :: s) = Z.eqb c 45.
Proof using Type.
  unfold starts_with. simpl. destruct (Z.eqb_spec c 45) as [->|Hc]; [done|].
  apply bool_decide_eq_false_2. intros [= ->]. done.
Qed.

Lemma read_comment text rest : closed_by_star_slash text = true ->
  sql_tokens (u "/*" ++ text ++ u "*/" ++ rest) =
  match executable_sql text with Some sql => sql_tokens sql | None => [] end ++ sql_tokens rest.
Proof using Type.
  intros H%bool_decide_eq_true. apply (find_split_app _ _ rest) in H.
  change (u "/*" ++ text ++ u "*/" ++ rest) with (47%Z :: 42%Z :: text ++ u "*/" ++ rest).
  rewrite sql_tokens_cons. unfold tokens_round, dash_comment.
  rewrite (first_char_differs [45%Z] 47 45%Z) by done.
  change (47%Z :: 42%Z :: text ++ u "*/" ++ rest) with (u "/*" ++ text ++ u "*/" ++ rest).
  rewrite starts_with_self. change (drop 1 (42%Z :: text ++ u "*/" ++ rest)) with (text ++ u "*/" ++ rest).
  by rewrite H.
Qed.

Lemma read_dash text rest : 10%Z ∉ text -> text = [] \/ starts py_isspace text = true ->
  sql_tokens (u "--" ++ text ++ newline ++ rest) = sql_tokens rest.
Proof using Type.
  intros Hn Ht. rewrite <- (after_newline text rest) at 2 by done.
  change (u "--" ++ text ++ newline ++ rest) with (45%Z :: 45%Z :: text ++ newline ++ rest).
  rewrite sql_tokens_cons. unfold tokens_round, dash_comment. rewrite after_dashes.
  change (drop 2 (45%Z :: 45%Z :: text ++ newline ++ rest)) with (text ++ newline ++ rest).
  change (drop 1 (45%Z :: text ++ newline ++ rest)) with (text ++ newline ++ rest).
  destruct text as [|c text]; [done|]. destruct Ht as [|Ht]; [done|]. simpl in Ht.
  cbn [app]. by rewrite Ht.
Qed.

Lemma word_start_differs c d : word_start c = true -> d ∈ [35; 45; 47; 96; 39; 34; 59]%Z -> c <> d.
Proof using All.
  intros Hw Hd ->. rewrite !elem_of_cons, elem_of_nil in Hd.
  assert (Hn : word_start d = false); [|congruence].
  apply not_word_start.
  - repeat destruct Hd as [->|Hd]; done.
  - repeat destruct Hd as [->|Hd]; done.
  - rewrite !not_elem_of_cons. split_and!; [lia..|apply not_elem_of_nil].
Qed.

Lemma read_word word rest : scanned_before (EWord word) rest = true ->
  sql_tokens (word ++ rest) = word_token word :: sql_tokens rest.
Proof using All.
  cbn [scanned_before]. rewrite !andb_true_iff, !negb_true_iff. intros [[[Hw Hsp] Hp] Hr].
  destruct word as [|c word]; [done|]. simpl in Hw, Hsp, Hp. cbn [app].
  assert (Hne : forall d, d ∈ [35; 45; 47; 96; 39; 34; 59]%Z -> c <> d)
    by (intros d Hd; by apply word_start_differs).
  rewrite sql_tokens_cons. unfold tokens_round, dash_comment.
  change (u "--") with [45; 45]%Z. change (u "/*") with [47; 42]%Z.
  rewrite !first_char_differs by (apply Hne; rewrite !elem_of_cons; tauto).
  rewrite Hsp, Hw, !(proj2 (Z.eqb_neq _ _)) by (apply Hne; rewrite !elem_of_cons; tauto). simpl.
  by rewrite span_word.
Qed.

Lemma element_read e : forall rest, scanned_before e rest = true ->
  sql_tokens (spell_element e ++ rest) = element_words e ++ sql_tokens rest.
Proof using All.
  induction e as [e IH] using element_induction. intros rest H. pose proof H as H0.
  destruct e as [c|text|text|text|m version body|name|quote chars|word| |c]; simpl in H;
    rewrite ?andb_true_iff, ?negb_true_iff in H; cbn [spell_element element_words app].
  - by apply skip_space.
  - apply bool_decide_eq_false in H. rewrite sql_tokens_cons. unfold tokens_round.
    change (py_isspace 35) with false. cbn [Z.eqb]. rewrite <- app_assoc. by rewrite after_newline.
  - destruct H as [Hn%bool_decide_eq_false Ht%orb_true_iff]. rewrite <- !app_assoc.
    apply read_dash; [done|]. by rewrite bool_decide_eq_true in Ht.
  - destruct H as [[Hc H1] H2]. rewrite <- !app_assoc, read_comment by done.
    unfold executable_sql. by rewrite H1, H2.
  - destruct H as [[Hc Hv] Hb]. rewrite <- !app_assoc.
    destruct (sql_tokens_executable m (version ++ flat_map spell_element body)) as (sql & Hx & Hsql).
    rewrite (app_assoc version), (app_assoc _ (version ++ _)), read_comment by done.
    rewrite Hx, Hsql, skip_version by done. f_equal.
    pose proof (elements_read body [] (fun e' rest' Hin => IH m version body e' eq_refl Hin rest') Hb) as Hr.
    unfold spell in Hr. by rewrite !app_nil_r in Hr.
  - rewrite sql_tokens_cons. unfold tokens_round. change (py_isspace 96) with false.
    rewrite <- app_assoc. cbn [app]. rewrite read_identifier by done. done.
  - destruct H as [[Hq%bool_decide_eq_true Hc] Hr]. rewrite sql_tokens_cons.
    rewrite <- app_assoc. cbn [app]. unfold tokens_round. rewrite read_string by done.
    rewrite !elem_of_cons, elem_of_nil in Hq. destruct Hq as [->|[->|[]]]; done.
  - by apply read_word, H0.
  - rewrite sql_tokens_cons. unfold tokens_round. rewrite not_word_start; [done|lia|done|].
    by apply (bool_decide_eq_false_1 _).
  - by apply skip_other, H0.
Qed.

(** ** MariaDB's elements are scanned as such

    What ends a piece of text for the screen: its end, or the [*/] at which the
    screen cut an executable comment out of the text around it. *)
Definition cut (tail : utext) : Prop := tail = [] \/ exists rest, tail = u "*/" ++ rest.

Lemma starts_cut f s tail : starts f (s ++ tail) = false -> starts f s = false.
Proof using All. by destruct s. Qed.

Lemma plain_start_law c : (0 <= c < 128)%Z -> word_start c = plain_start c.
Proof using All. intros H. unfold word_start, plain_start. by rewrite isalpha_law. Qed.
Lemma plain_part_law c : (0 <= c < 128)%Z -> word_part c = plain_part c.
Proof using All.
  intros H. unfold word_part, plain_part, plain_start. rewrite isalnum_law by done.
  by destruct (ascii_alpha c), (is_digit c), (bool_decide _).
Qed.

Lemma plain_part_range c : plain_part c = true -> (48 <= c < 128)%Z.
Proof using All.
  unfold plain_part, plain_start, ascii_alpha, is_digit. rewrite !orb_true_iff, !andb_true_iff, !Z.leb_le, bool_decide_eq_true.
  intros [[Hc|Hc]|Hc]; try lia. rewrite !elem_of_cons in Hc. destruct Hc as [->|[->|Hc%not_elem_of_nil]]; lia || done.
Qed.

Lemma touches_part c : word_touches c = false -> word_part c = false.
Proof using All.
  unfold word_touches. rewrite !orb_false_iff, negb_false_iff, andb_true_iff, Z.leb_le, Z.ltb_lt.
  intros [[Hp _] Hr]. by rewrite plain_part_law.
Qed.

Lemma not_space c : (33 <= c < 128)%Z -> py_isspace c = false.
Proof using All.
  intros H. unfold py_isspace. apply bool_decide_eq_false_2. rewrite !not_elem_of_cons.
  split_and!; [lia..|apply not_elem_of_nil].
Qed.

Lemma blank_space c : mariadb_blank c = true -> py_isspace c = true.
Proof using All. unfold mariadb_blank, py_isspace. rewrite !bool_decide_eq_true. set_solver. Qed.

Lemma word_scanned word s tail : element_before (EWord word) (s ++ tail) = true ->
  scanned_before (EWord word) s = true.
Proof using All.
  cbn [element_before scanned_before]. rewrite !andb_true_iff, !negb_true_iff. intros [[Hw Hp] Hs].
  apply starts_cut in Hs. destruct word as [|c word]; [done|]. cbn [starts forallb tl] in *.
  apply andb_true_iff in Hp as [Hc Hp]. pose proof (plain_part_range c Hc) as Hr. split_and!.
  - by rewrite plain_start_law by lia.
  - apply not_space. unfold plain_start, ascii_alpha in Hw. lia.
  - apply forallb_forall. intros d Hd. rewrite forallb_forall in Hp. specialize (Hp d Hd).
    pose proof (plain_part_range d Hp). by rewrite plain_part_law by lia.
  - destruct s as [|d s]; [done|]. by apply touches_part.
Qed.

Lemma starts_with_more p s tail : starts_with p s = true -> starts_with p (s ++ tail) = true.
Proof using All.
  unfold starts_with. rewrite !bool_decide_eq_true. intros H. rewrite take_app_le; [done|].
  apply (f_equal length) in H. rewrite length_take in H. lia.
Qed.

Lemma other_scanned c s tail : cut tail -> element_before (EOther c) (s ++ tail) = true ->
  scanned_before (EOther c) s = true.
Proof using All.
  intros Ht. cbn [element_before scanned_before]. rewrite !andb_true_iff, !negb_true_iff, !Z.leb_le, !bool_decide_eq_false.
  intros (((((((H1 & H2) & Hs) & Hq) & _) & Hd) & Hc) & _). split_and!.
  - apply not_space. lia.
  - intros Hin. apply Hq. rewrite !elem_of_cons in *. tauto.
  - by rewrite plain_start_law by lia.
  - apply not_true_is_false. intros Hdash. apply not_true_iff_false in Hd. apply Hd.
    unfold dash_comment in Hdash. unfold dashes. apply andb_true_iff in Hdash as [Hdash Hnext].
    change (c :: s ++ tail) with ((c :: s) ++ tail). rewrite (starts_with_more _ _ tail Hdash). cbn [andb].
    destruct s as [|d s]; [by apply bool_decide_eq_true in Hdash|]. cbn [app drop] in *.
    destruct s as [|d' s]; cbn [app] in *.
    + by destruct Ht as [->|(rest & ->)].
    + rewrite drop_0 in Hnext |- *. rewrite !orb_true_iff, !Z.leb_le. unfold py_isspace in Hnext. apply bool_decide_eq_true in Hnext.
      assert (Hall : Forall (fun x => x <= 32 \/ 127 <= x)%Z
        [9; 10; 11; 12; 13; 28; 29; 30; 31; 32; 133; 160; 5760; 8192; 8193; 8194; 8195;
         8196; 8197; 8198; 8199; 8200; 8201; 8202; 8232; 8233; 8239; 8287; 12288]%Z)
        by (repeat (constructor; [lia|]); constructor).
      rewrite Forall_forall in Hall. specialize (Hall _ Hnext). tauto.
  - apply not_true_is_false. intros Hslash. apply (starts_with_more _ _ tail) in Hslash.
    cbn [app] in Hslash. by rewrite Hc in Hslash.
Qed.

Lemma context_scanned els rest :
  (forall e s tail, e ∈ els -> cut tail -> element_before e (s ++ tail) = true ->
     closes_once e = true -> scanned_before e s = true) ->
  cut rest -> lexes els rest = true -> forallb closes_once els = true -> scanned els [] = true.
Proof using All.
  intros He Hrest. unfold lexes, scanned. induction els as [|e els IH]; [done|].
  cbn [all_in_context forallb]. rewrite !andb_true_iff. intros [H1 H2] [Hc1 Hc2]. split.
  - rewrite app_nil_r. apply (He e _ rest); [left|done|done|done].
  - apply IH; [|done|done]. intros e' s tail Hin. apply He. by right.
Qed.

Lemma element_scanned e : forall s tail, cut tail -> element_before e (s ++ tail) = true ->
  closes_once e = true -> scanned_before e s = true.
Proof using All.
  induction e as [e IH] using element_induction. intros s tail Ht H Hc.
  destruct e as [c|text|text|text|m version body|name|quote chars|word| |c]; try done.
  - by apply blank_space.
  - cbn [element_before scanned_before] in *. apply andb_true_iff in H as [H1 H2]. rewrite H1. simpl.
    destruct text as [|c text]; [done|]. simpl in *. by apply blank_space.
  - cbn [element_before scanned_before closes_once] in *. rewrite !andb_true_iff in *.
    destruct H as [[[Hv Hl] Hd] Hb], Hc as [Hclosed Hcs]. split; [done|].
    apply (context_scanned body (u "*/" ++ s ++ tail)); [|right; by eexists|done|done].
    intros e' s' tail' Hin. by apply (IH m version body e' eq_refl Hin).
  - cbn [element_before scanned_before] in *. apply negb_true_iff in H. by rewrite (starts_cut _ _ _ H).
  - cbn [element_before scanned_before] in *. rewrite !andb_true_iff, !negb_true_iff in *.
    destruct H as [H1 H2]. by rewrite (starts_cut _ _ _ H2).
  - by eapply word_scanned.
  - by eapply other_scanned.
Qed.

(** ** Statements *)

(** Runs of tokens with a semicolon between two of them. *)
Fixpoint join_runs (runs : list (list utext)) : list utext :=
  match runs with
  | [] => []
  | [r] => r
  | r :: runs => r ++ u ";" :: join_runs runs
  end.

Lemma starts_from_run current r tokens : u ";" ∉ r ->
  statement_starts_from current (r ++ tokens) = statement_starts_from (current ++ r) tokens.
Proof using Type.
  revert current. induction r as [|t r IH]; intros current H; [by rewrite app_nil_r|].
  apply not_elem_of_cons in H as [Ht Hr]. cbn [app statement_starts_from].
  rewrite bool_decide_eq_false_2 by congruence. rewrite IH by done. by rewrite <- app_assoc.
Qed.

Lemma statement_starts_join runs : Forall (fun r => u ";" ∉ r) runs ->
  statement_starts (join_runs runs) = filter (fun r => r <> []) runs.
Proof using Type.
  unfold statement_starts. induction 1 as [|r runs Hr Hruns IH]; [done|].
  rewrite filter_cons. destruct runs as [|r' runs].
  - cbn [join_runs]. rewrite <- (app_nil_r r) at 1. rewrite starts_from_run by done. simpl.
    by destruct r.
  - change (join_runs (r :: r' :: runs)) with (r ++ u ";" :: join_runs (r' :: runs)).
    rewrite starts_from_run by done. cbn [app]. unfold statement_starts_from at 1.
    fold statement_starts_from. rewrite (bool_decide_eq_true_2 (u ";" = u ";")) by done.
    rewrite IH. by destruct r.
Qed.

Lemma invalid_start_runs runs : Forall (fun r => u ";" ∉ r) runs ->
  existsb invalid_start (statement_starts (join_runs runs)) = existsb invalid_start runs.
Proof using Type.
  intros H. rewrite statement_starts_join by done. clear H.
  induction runs as [|r runs IH]; [done|]. rewrite filter_cons. destruct r as [|t r].
  - by rewrite decide_False by (by intros []).
  - rewrite decide_True by done. simpl. by rewrite IH.
Qed.

(** ** Properties *)


(** the name of the advisory lock fits what [GET_LOCK] takes, and two
    databases whose names fit have different locks. *)
Theorem lock_name_fits database name :
  build_migration_lock_name database = Ok name ->
  length name <= lock_name_max /\
  forall database' name', build_migration_lock_name database' = Ok name' ->
    length (lock_name_prefix ++ database) <= lock_name_max ->
    length (lock_name_prefix ++ database') <= lock_name_max ->
    name = name' -> database = database'.
Proof using Type.
  unfold build_migration_lock_name, lock_name_max. intros H. split.
  - destruct (Nat.leb_spec (length (lock_name_prefix ++ database)) 64); [by simplify_eq|].
    destruct (utf8 database) as [bytes|]; [|done]. injection H as <-.
    pose proof (length_take (u (hexdigest (sha256 bytes))) 16). simpl in *. lia.
  - intros d' n' H' Hl Hl' ->. rewrite (proj2 (Nat.leb_le _ _) Hl) in H.
    rewrite (proj2 (Nat.leb_le _ _) Hl') in H'. simplify_eq. done.
Qed.
End mariadb_tokens.

(** ** A concrete body *)

Definition screened_body : list element :=
  [EWord (u "UPDATE"); EBlank 32; EIdentifier (u "a`;COMMIT"); EBlank 32; EWord (u "SET"); EBlank 32;
   EWord (u "x"); EOther 61; EString 39 [Plain 59; Backslash 39; DoubledQuote]; EBlank 32;
   EDash (u " COMMIT"); EComment (u " COMMIT "); ESemicolon; EHash (u "'");
   EExecutable true (u "100100") [EBlank 32; EWord (u "DROP"); EBlank 32];
   EBlank 32; EWord (u "TABLE"); EBlank 32; EWord (u "t")].


Example hidden_commit_refused :
  validate_mariadb_body (U := ascii_unicode) (u "SELECT 1 /*!50003 ; cOmmit */") =
  raise MigrationDeclarationError
    "MariaDB migration cannot change transaction or advisory-lock state".
Proof. vm_compute. reflexivity. Qed.

(** What the hypothesis on executable comments leaves out: [/*! SELECT '*/' ; COMMIT */].
    MariaDB reads the first [*/] inside the string and executes the COMMIT; the screen
    ends the comment there, reads the rest as a string literal and accepts the body. *)
Definition cut_short : list element :=
  [EExecutable false [] [EBlank 32; EWord (u "SELECT"); EBlank 32; EString 39 [Plain 42; Plain 47];
                         EBlank 32; ESemicolon; EBlank 32; EWord (u "COMMIT"); EBlank 32]].
Example cut_short_accepted :
  lexes cut_short [] = true /\ u "COMMIT" ∈ words (U := ascii_unicode) cut_short /\
  validate_mariadb_body (U := ascii_unicode) (spell cut_short) = Ok tt.
Proof.
  split_and!; [vm_compute; reflexivity| |vm_compute; reflexivity].
  apply (bool_decide_unpack _). vm_compute. exact I.
Qed.

(** Nor does the grammar know a [--] before a space outside ASCII, for MariaDB two
    minus signs before an identifier; Python's [isspace] makes it a comment. *)
Example wide_space_hides :
  validate_mariadb_body (U := ascii_unicode) (u "SELECT a --" ++ [160%Z] ++ u "b FROM t; COMMIT") = Ok tt.
Proof. vm_compute. reflexivity. Qed.
