(* ===== verification/CatalogRows.v ===== *)
(** * Values of catalog rows

    What a driver hands back for a column of INFORMATION_SCHEMA, of a PRAGMA or
    of [sqlite_master], and [str] of it. *)

From S2P Require Export SqlTokens.
From stdpp Require Import pretty.

Inductive cell := CText (s : utext) | CInt (n : Z) | CNull.
#[export] Instance cell_eq_dec : EqDecision cell.
Proof. solve_decision. Defined.

Definition py_str (c : cell) : utext :=
  match c with CText s => s | CInt n => u (pretty n) | CNull => u "None" end.

Lemma ascii_text_inj s t : ascii_text s = ascii_text t -> s = t.
Proof.
  revert t. induction s as [|c s IH]; intros [|d t] H; try done. unfold ascii_text in H.
  cbn [String.list_ascii_of_string map] in H. injection H as Hc H. f_equal; [|by apply IH].
  apply Nat2Z.inj in Hc. by rewrite <- (Ascii.ascii_nat_embedding c), Hc, Ascii.ascii_nat_embedding.
Qed.
Lemma ascii_text_app s t : ascii_text (s ++ t) = ascii_text s ++ ascii_text t.
Proof. induction s as [|c s IH]; [done|]. unfold ascii_text in *. simpl. by rewrite IH. Qed.

(** [str] tells integers apart. *)
Lemma py_str_int_inj n m : py_str (CInt n) = py_str (CInt m) -> n = m.
Proof. intros H%ascii_text_inj. by apply (inj pretty). Qed.
