(* ===== verification/SqliteMigrations.v ===== *)
(** * Applying SQLite migrations

    The transactional half of [sqlite/migrations.py].  A database is its
    migration history, the legacy staging table and the rest of its contents
    (the world, which only migration bodies change: the authorizer keeps them
    off the history).  One iteration of [apply_sqlite_migrations] holds the
    writer lock from [BEGIN IMMEDIATE] to [COMMIT], so it is one atomic step;
    any number of migrators interleave their iterations. *)

From S2P Require Export SqlTokens.

Section migrations.
Context `{U : unicode} (complete_statement : utext -> bool).

(** The database engine: what a statement does to the rest of the database. *)
Context {world : Type}.
Inductive statement_result :=
  | StmtDone (w : world)
  | StmtRaised                     (* an error, which leaves the transaction to roll back *)
  | StmtEndedTransaction (w : world).
Context (run_statement : utext -> world -> statement_result).

(** ** The history table *)

Record history_row := HistoryRow { row_record : migration_record; row_applied_at : utext }.

Inductive history :=
  | HAbsent
  | HUnknown
  | HV1 (rows : gmap utext utext)         (* name, applied_at *)
  | HV2 (rows : list history_row).        (* in rowid order: [position] is the rowid *)

Record database := Database {
  db_history : history;
  db_staging : bool;                      (* [_snekql_migrations_v1] exists *)
  db_world : world
}.

Definition set_history (h : history) (db : database) : database :=
  Database h (db_staging db) (db_world db).
Definition set_world (w : world) (db : database) : database :=
  Database (db_history db) (db_staging db) w.

(** The CHECK constraints of [_CREATE_HISTORY_SQL]. *)
Definition history_checks (r : migration_record) : bool :=
  (0 <? rec_position r)%Z
  && ((1 <=? length (rec_name r)) && (length (rec_name r) <=? 255)
      && bool_decide (0%Z ∉ rec_name r))
  && ((String.length (rec_checksum r) =? 64) && all_lower_hex (rec_checksum r)).

(** Row order is rowid order. *)
Fixpoint insert_row (r : history_row) (rows : list history_row) : list history_row :=
  match rows with
  | [] => [r]
  | x :: rest =>
      if (rec_position (row_record r) <? rec_position (row_record x))%Z then r :: rows
      else x :: insert_row r rest
  end.

(** INSERT under the CHECK constraints, the primary key and the UNIQUE name;
    [None] is a constraint error. *)
Definition insert_history (r : history_row) (rows : list history_row)
    : option (list history_row) :=
  if history_checks (row_record r)
     && forallb (fun x => negb (Z.eqb (rec_position (row_record x)) (rec_position (row_record r)))
                          && negb (bool_decide (rec_name (row_record x) = rec_name (row_record r))))
          rows
  then Some (insert_row r rows) else None.

(** [_fetch_history]: ORDER BY position. *)
Definition fetch_history (rows : list history_row) : list migration_record := map row_record rows.

(** ** One transaction *)

(** The rows [_upgrade_legacy_history] inserts; [KeyError] is the lookup
    [legacy_history[migration.name]]. *)
Definition adopt_row (legacy : gmap utext utext) (rows : list history_row) (m : migration)
    : res (list history_row) :=
  match legacy !! mig_name m with
  | None => raise KeyError "legacy history"
  | Some applied_at =>
      match insert_history (HistoryRow (history_record m) applied_at) rows with
      | Some rows => Ok rows
      | None => raise OtherError "IntegrityError"
      end
  end.

Definition upgrade_legacy_history (legacy : gmap utext utext) (db : database)
    (migrations : list migration) (adopt_legacy : bool) : res (database * bool) :=
  _ ← guardR (bool_decide (legacy = ∅) || adopt_legacy) MigrationHistoryError
        "non-empty legacy Migration History requires migrate(..., adopt_legacy=True)";
  prefix_length ← validate_legacy_history (dom legacy) migrations;
  _ ← guardR (negb (db_staging db)) MigrationHistoryError "unexpected legacy staging object";
  rows ← foldR (adopt_row legacy) [] (take prefix_length migrations);
  Ok (set_history (HV2 rows) db, negb (bool_decide (legacy = ∅))).

Definition ensure_v2_history (db : database) (migrations : list migration) (adopt_legacy : bool)
    : res (database * bool) :=
  match db_history db with
  | HAbsent => Ok (set_history (HV2 []) db, false)
  | HV2 _ => Ok (db, false)
  | HV1 legacy => upgrade_legacy_history legacy db migrations adopt_legacy
  | HUnknown => raise MigrationHistoryError "Migration History has an unknown SQLite schema"
  end.

(** The statements of a body in turn; the flag says whether the transaction is
    still open. *)
Fixpoint run_statements (statements : list utext) (w : world) (open : bool) : res (world * bool) :=
  match statements with
  | [] => Ok (w, open)
  | s :: rest =>
      match run_statement s w with
      | StmtDone w => run_statements rest w open
      | StmtRaised => raise MigrationError "migration failed"
      | StmtEndedTransaction w => run_statements rest w false
      end
  end.

(** [_apply_body]; an invalid body is reported as a failed migration. *)
Definition apply_body (m : migration) (w : world) : res world :=
  match sqlite_statements complete_statement (mig_sql m) with
  | Raise _ => raise MigrationError "migration failed"
  | Ok statements =>
      '(w, open) ← run_statements statements w true;
      _ ← guardR open MigrationError "migration ended the transaction owned by snekql";
      Ok w
  end.

Definition record_history (m : migration) (now : utext) (rows : list history_row)
    : res (list history_row) :=
  match insert_history (HistoryRow (history_record m) now) rows with
  | Some rows => Ok rows
  | None => raise MigrationHistoryError "could not record migration"
  end.

(** [already_applied] grows by the recorded names not seen so far. *)
Definition note_already (applied already : list utext) (history : list migration_record)
    : list utext :=
  foldl (fun already r =>
           if bool_decide (rec_name r ∈ applied) || bool_decide (rec_name r ∈ already)
           then already else already ++ [rec_name r]) already history.

(** What an iteration commits. *)
Inductive outcome :=
  | Finished
  | Applied (m : migration).

(** The local variables of a call. *)
Record locals := Locals {
  l_applied : list utext; l_already : list utext; l_legacy_adopted : bool }.
Definition no_locals : locals := Locals [] [] false.

(** One iteration, from [BEGIN IMMEDIATE] up to and including [COMMIT]. *)
Definition iteration (migrations : list migration) (adopt_legacy : bool) (now : utext)
    (l : locals) (db : database) : res (database * locals * outcome) :=
  '(db, adopted) ← ensure_v2_history db migrations adopt_legacy;
  let rows := match db_history db with HV2 rows => rows | _ => [] end in
  let history := fetch_history rows in
  _ ← validate_history_prefix history migrations false 0;
  let l := Locals (l_applied l) (note_already (l_applied l) (l_already l) history)
             (adopted || l_legacy_adopted l) in
  match migrations !! length history with
  | None => Ok (db, l, Finished)
  | Some m =>
      w ← apply_body m (db_world db);
      rows ← record_history m now rows;
      Ok (set_world w (set_history (HV2 rows) db),
          Locals (l_applied l ++ [mig_name m]) (l_already l) (l_legacy_adopted l), Applied m)
  end.

Definition result_of (l : locals) : migration_result :=
  MigrationResult (l_applied l) (l_already l) (l_legacy_adopted l).

(** [apply_sqlite_migrations] without interference, [clock] giving the
    timestamps.  [None]: out of fuel. *)
Fixpoint apply_loop (fuel : nat) (migrations : list migration) (adopt_legacy : bool)
    (clock : nat -> utext) (l : locals) (db : database)
    : option (database * res migration_result) :=
  match fuel with
  | O => None
  | S fuel =>
      match iteration migrations adopt_legacy (clock fuel) l db with
      | Raise e => Some (db, Raise e)
      | Ok (db, l, Finished) => Some (db, Ok (result_of l))
      | Ok (db, l, Applied _) => apply_loop fuel migrations adopt_legacy clock l db
      end
  end.

(** The number of transactions is at most one more than the pending bodies. *)
Definition apply_sqlite_migrations (migrations : list migration) (adopt_legacy : bool)
    (clock : nat -> utext) (db : database) : option (database * res migration_result) :=
  apply_loop (S (length migrations)) migrations adopt_legacy clock no_locals db.

(** [verify_sqlite_migrations]: reads only. *)
Definition verify_sqlite_migrations (db : database) (migrations : list migration)
    (minimum_applied : option Z) : res migration_status :=
  let minimum_applied := default (Z.of_nat (length migrations)) minimum_applied in
  match db_history db with
  | HAbsent =>
      _ ← guardR (Z.eqb minimum_applied 0) MigrationHistoryError "Migration History is missing";
      Ok (MigrationStatus [] false (map mig_name migrations))
  | HV2 rows =>
      let history := fetch_history rows in
      _ ← validate_history_prefix history migrations false minimum_applied;
      Ok (MigrationStatus (map rec_name history) true
            (map mig_name (drop (length history) migrations)))
  | _ => raise MigrationHistoryError "Migration History uses unsupported SQLite shape"
  end.

(** ** Concurrent migrators *)

Inductive status := Running | Returned (r : migration_result) | Failed.
Record migrator := Migrator {
  mg_plan : list migration; mg_adopt : bool; mg_locals : locals; mg_status : status }.

(** The committed database, the migrators, and (for the statements only) the
    bodies committed so far. *)
Record system := System {
  sys_db : database; sys_migrators : gmap nat migrator; sys_log : list (nat * migration) }.

Definition after_commit (o : outcome) (l : locals) : status :=
  match o with Finished => Returned (result_of l) | Applied _ => Running end.
Definition logged (i : nat) (o : outcome) : list (nat * migration) :=
  match o with Finished => [] | Applied m => [(i, m)] end.

Inductive system_step : system -> system -> Prop :=
  | SyStart db ms log i plan adopt :
      ms !! i = None -> well_formed_plan plan ->
      system_step (System db ms log)
        (System db (<[i := Migrator plan adopt no_locals Running]> ms) log)
  | SyIterate db ms log i plan adopt l now db' l' o :
      ms !! i = Some (Migrator plan adopt l Running) ->
      iteration plan adopt now l db = Ok (db', l', o) ->
      system_step (System db ms log)
        (System db' (<[i := Migrator plan adopt l' (after_commit o l')]> ms) (log ++ logged i o))
  | SyRaise db ms log i plan adopt l :
      (* the iteration raised, or anything else before the commit did (a busy
         lock, a failed statement, an I/O error, a cancellation): the
         transaction rolls back *)
      ms !! i = Some (Migrator plan adopt l Running) ->
      system_step (System db ms log) (System db (<[i := Migrator plan adopt l Failed]> ms) log)
  | SyCommitThenRaise db ms log i plan adopt l now db' l' o :
      (* cancelled at the checkpoint after the commit *)
      ms !! i = Some (Migrator plan adopt l Running) ->
      iteration plan adopt now l db = Ok (db', l', o) ->
      system_step (System db ms log)
        (System db' (<[i := Migrator plan adopt l Failed]> ms) (log ++ logged i o)).

(** A statement that ended the transaction without raising would leave the
    database in any state ([_apply_body] can only report it). *)
Inductive system_escape : system -> system -> Prop :=
  | SyEscape db ms log i plan adopt l m statements w db' :
      ms !! i = Some (Migrator plan adopt l Running) -> m ∈ plan ->
      sqlite_statements complete_statement (mig_sql m) = Ok statements ->
      run_statements statements (db_world db) true = Ok (w, false) ->
      system_escape (System db ms log)
        (System db' (<[i := Migrator plan adopt l Failed]> ms) log).

Inductive system_reachable (db : database) : system -> Prop :=
  | sr_init : system_reachable db (System db ∅ [])
  | sr_step s s' : system_reachable db s -> system_step s s' \/ system_escape s s' ->
      system_reachable db s'.

(** ** The history table *)

Lemma plan_checks plan k m : well_formed_plan plan -> plan !! k = Some m ->
  history_checks (history_record m) = true.
Proof.
  intros [Hplan _] Hm. destruct (Hplan _ _ Hm) as (Hpos & (Hne & Hlen & _ & Hnul & _) & b & _ & Hc).
  unfold history_checks. cbn [history_record rec_position rec_name rec_checksum].
  rewrite Hpos, Hc. destruct (hexdigest_shape (sha256 b)) as [-> ->].
  rewrite (bool_decide_eq_true_2 _ Hnul).
  rewrite (proj2 (Z.ltb_lt _ _)) by lia. rewrite (proj2 (Nat.leb_le _ 255) Hlen).
  rewrite (proj2 (Nat.leb_le 1 _)); [done|]. destruct (mig_name m); [done|simpl; lia].
Qed.

Lemma insert_row_last r rows :
  (forall x, x ∈ rows -> (rec_position (row_record x) < rec_position (row_record r))%Z) ->
  insert_row r rows = rows ++ [r].
Proof.
  induction rows as [|x rows IH]; intros H; [done|]. simpl.
  rewrite (proj2 (Z.ltb_ge _ _)); [|specialize (H x ltac:(left)); lia].
  f_equal. apply IH. intros; apply H; by right.
Qed.

(** The recorded rows are the first ones of the plan. *)
Definition recorded_prefix (plan : list migration) (rows : list history_row) : Prop :=
  length rows <= length plan /\
  fetch_history rows = map history_record (take (length rows) plan).

Lemma prefix_row plan rows x : well_formed_plan plan -> recorded_prefix plan rows -> x ∈ rows ->
  exists k m, plan !! k = Some m /\ k < length rows /\ row_record x = history_record m.
Proof.
  intros _ [_ Hpre] Hx. apply list_elem_of_lookup in Hx as (k & Hk).
  assert (Hf : fetch_history rows !! k = Some (row_record x))
    by (unfold fetch_history; by rewrite list_lookup_fmap, Hk).
  assert (Hlt : k < length rows) by (by eapply lookup_lt_Some).
  rewrite Hpre, list_lookup_fmap, lookup_take_lt in Hf by done.
  apply fmap_Some in Hf as (m & Hm & Hr). by exists k, m.
Qed.

(** The next migration of the plan is inserted last, without a constraint
    error. *)
Lemma insert_next plan rows m at_ : well_formed_plan plan -> recorded_prefix plan rows ->
  plan !! length rows = Some m ->
  insert_history (HistoryRow (history_record m) at_) rows
  = Some (rows ++ [HistoryRow (history_record m) at_]).
Proof.
  intros Hwf Hpre Hm. unfold insert_history. cbn [row_record].
  rewrite (plan_checks _ _ _ Hwf Hm). cbn [andb history_record rec_position rec_name].
  pose proof Hwf as [Hplan Hnames].
  assert (Hrow : forall x, x ∈ rows ->
    (rec_position (row_record x) < mig_position m)%Z /\ rec_name (row_record x) <> mig_name m).
  { intros x Hx. destruct (prefix_row _ _ _ Hwf Hpre Hx) as (k & m' & Hk & Hlt & ->). simpl.
    destruct (Hplan _ _ Hk) as (-> & _). destruct (Hplan _ _ Hm) as (-> & _).
    split; [lia|]. intros Heq. assert (k = length rows); [|lia].
    eapply (NoDup_lookup (map mig_name plan)); [done|by rewrite list_lookup_fmap, Hk|].
    by rewrite list_lookup_fmap, Hm, Heq. }
  assert (Hall : forallb (fun x => negb (Z.eqb (rec_position (row_record x)) (mig_position m))
      && negb (bool_decide (rec_name (row_record x) = mig_name m))) rows = true).
  { apply forallb_forall. intros x Hx. apply list_elem_of_In, Hrow in Hx as [Hlt Hne].
    rewrite (proj2 (Z.eqb_neq _ _)), bool_decide_eq_false_2 by (done || lia). done. }
  rewrite Hall. f_equal. apply insert_row_last. intros x Hx. by apply Hrow.
Qed.

Lemma recorded_next plan rows m at_ : recorded_prefix plan rows -> plan !! length rows = Some m ->
  recorded_prefix plan (rows ++ [HistoryRow (history_record m) at_]).
Proof.
  intros [Hlen Hpre] Hm. pose proof (lookup_lt_Some _ _ _ Hm) as Hlt. split.
  - rewrite length_app. simpl. lia.
  - unfold fetch_history in *. rewrite map_app, Hpre, length_app. simpl.
    rewrite Nat.add_1_r, (take_S_r _ _ _ Hm), map_app. done.
Qed.

Lemma validate_rows plan rows minimum : well_formed_plan plan ->
  validate_history_prefix (fetch_history rows) plan false minimum = Ok tt <->
  recorded_prefix plan rows /\ (minimum <= Z.of_nat (length rows))%Z.
Proof.
  intros Hwf. destruct Hwf as [Hentries _].
  assert (Hpos : forall k m, plan !! k = Some m -> mig_position m = (Z.of_nat k + 1)%Z)
    by (intros k m Hm; by destruct (Hentries k m Hm)).
  assert (Hl : length (fetch_history rows) = length rows) by apply length_map.
  unfold validate_history_prefix, recorded_prefix. rewrite Hl. split.
  - intros H. bind_inv H as x Hlen. bind_inv H as y Hit.
    apply guardR_Ok, Nat.leb_le in Hlen. destruct y.
    apply check_records_prefix in Hit as Hpre; [|done|by rewrite Hl]. rewrite Hl in Hpre.
    destruct (Z.ltb_spec (Z.of_nat (length rows)) minimum); [by destruct (nth_expected _ _)|done].
  - intros [[Hlen Hpre] Hmin]. rewrite (proj2 (Nat.leb_le _ _) Hlen).
    cbn [guardR mbind res_bind].
    rewrite (proj2 (check_records_prefix _ _ Hpos ltac:(by rewrite Hl))) by (by rewrite Hl).
    cbn [mbind res_bind]. by rewrite (proj2 (Z.ltb_ge _ _) Hmin).
Qed.

(** ** What one transaction does *)

(** The rows found, created or adopted at the start of a transaction. *)
Definition starting_rows (db : database) (plan : list migration) (adopt_legacy : bool)
    (rows : list history_row) (adopted : bool) : Prop :=
  match db_history db with
  | HAbsent => rows = [] /\ adopted = false
  | HV2 rows' => rows = rows' /\ adopted = false
  | HUnknown => False
  | HV1 legacy =>
      (legacy = ∅ \/ adopt_legacy = true) /\ adopted = negb (bool_decide (legacy = ∅)) /\
      dom legacy = list_to_set (map rec_name (fetch_history rows)) /\
      recorded_prefix plan rows /\
      forall r, r ∈ rows -> legacy !! rec_name (row_record r) = Some (row_applied_at r)
  end.

Lemma adopt_rows plan legacy n : well_formed_plan plan -> n <= length plan ->
  forall rows, foldR (adopt_row legacy) [] (take n plan) = Ok rows ->
  recorded_prefix plan rows /\ length rows = n /\
  forall r, r ∈ rows -> legacy !! rec_name (row_record r) = Some (row_applied_at r).
Proof.
  intros Hwf. induction n as [|n IH]; intros Hn rows H.
  { injection H as <-. split_and!; [split; [simpl; lia|done]|done|by intros r Hr%not_elem_of_nil]. }
  destruct (lookup_lt_is_Some_2 plan n) as (m & Hm); [lia|].
  rewrite (take_S_r _ _ _ Hm), foldR_app in H. bind_inv H as rows0 H0.
  destruct (IH ltac:(lia) _ H0) as (Hpre & Hlen & Hat). rewrite foldR_cons in H. bind_inv H as rows1 H1.
  injection H as <-. unfold adopt_row in H1. destruct (legacy !! mig_name m) as [at_|] eqn:Hl; [|done].
  rewrite (insert_next plan) in H1 by (done || by rewrite Hlen). injection H1 as <-. split_and!.
  - apply recorded_next; [done|]. by rewrite Hlen.
  - rewrite length_app. simpl. lia.
  - intros r [Hr|Hr]%elem_of_app; [by apply Hat|]. by apply list_elem_of_singleton in Hr as ->.
Qed.

Lemma adopt_rows_total plan legacy n : well_formed_plan plan -> n <= length plan ->
  dom legacy = names_of (take n plan) ->
  is_ok (foldR (adopt_row legacy) [] (take n plan)) = true.
Proof.
  intros Hwf Hn Hdom.
  assert (Hall : forall k, k <= n -> is_ok (foldR (adopt_row legacy) [] (take k plan)) = true); [|by apply Hall].
  induction k as [|k IH]; intros Hk; [done|].
  destruct (lookup_lt_is_Some_2 plan k) as (m & Hm); [lia|].
  rewrite (take_S_r _ _ _ Hm), foldR_app.
  destruct (foldR _ _ (take k plan)) as [rows|] eqn:Hrows; [|specialize (IH ltac:(lia)); done].
  destruct (adopt_rows plan legacy k Hwf ltac:(lia) _ Hrows) as (Hpre & Hlen & _).
  cbn [mbind res_bind]. rewrite foldR_cons. unfold adopt_row.
  assert (is_Some (legacy !! mig_name m)) as (at_ & ->).
  { apply elem_of_dom. rewrite Hdom. apply elem_of_list_to_set, list_elem_of_fmap.
    exists m. split; [done|]. apply list_elem_of_lookup. exists k. by rewrite lookup_take_lt. }
  rewrite (insert_next plan) by (done || by rewrite Hlen). done.
Qed.

Lemma names_of_rows plan rows : recorded_prefix plan rows ->
  map rec_name (fetch_history rows) = map mig_name (take (length rows) plan).
Proof. intros [_ ->]. by rewrite map_map. Qed.

Lemma ensure_v2_spec db plan adopt db' adopted : well_formed_plan plan ->
  ensure_v2_history db plan adopt = Ok (db', adopted) ->
  exists rows, db' = set_history (HV2 rows) db /\ starting_rows db plan adopt rows adopted.
Proof.
  intros Hwf H. unfold ensure_v2_history in H. unfold starting_rows.
  destruct db as [[| |legacy|rows] staging w]; simpl in *; [| |..].
  - injection H as <- <-. by exists [].
  - discriminate.
  - unfold upgrade_legacy_history in H. bind_inv H as x Hc. bind_inv H as n Hn.
    bind_inv H as y Hs. bind_inv H as rows Hr. injection H as <- <-.
    apply guardR_Ok, orb_true_iff in Hc. unfold validate_legacy_history in Hn.
    bind_inv Hn as z Hle. bind_inv Hn as t Hdom. injection Hn as <-.
    apply guardR_Ok, Nat.leb_le in Hle. apply guardR_Ok, bool_decide_eq_true in Hdom.
    destruct (adopt_rows plan legacy _ Hwf Hle _ Hr) as (Hpre & Hlen & Hat).
    exists rows. split_and!; try done.
    + destruct Hc as [Hc|Hc]; [left; by apply bool_decide_eq_true in Hc|by right].
    + by rewrite (names_of_rows _ _ Hpre), Hlen.
  - injection H as <- <-. by exists rows.
Qed.

(** What an iteration found and what it committed. *)
Record iteration_spec (plan : list migration) (adopt : bool) (now : utext) (l : locals)
    (db db' : database) (l' : locals) (o : outcome) (rows : list history_row) (adopted : bool)
    : Prop := {
  is_start : starting_rows db plan adopt rows adopted;
  is_prefix : recorded_prefix plan rows;
  is_already : l_already l' = note_already (l_applied l) (l_already l) (fetch_history rows);
  is_legacy : l_legacy_adopted l' = adopted || l_legacy_adopted l;
  is_outcome : match o with
    | Finished => length rows = length plan /\ l_applied l' = l_applied l /\
                  db' = set_history (HV2 rows) db
    | Applied m => plan !! length rows = Some m /\ l_applied l' = l_applied l ++ [mig_name m] /\
        exists w, apply_body m (db_world db) = Ok w /\
          db' = Database (HV2 (rows ++ [HistoryRow (history_record m) now])) (db_staging db) w
    end
}.

Lemma iteration_inv plan adopt now l db db' l' o : well_formed_plan plan ->
  iteration plan adopt now l db = Ok (db', l', o) ->
  exists rows adopted, iteration_spec plan adopt now l db db' l' o rows adopted.
Proof.
  intros Hwf H. unfold iteration in H. bind_inv H as x Hens. destruct x as [db1 adopted].
  destruct (ensure_v2_spec _ _ _ _ _ Hwf Hens) as (rows & -> & Hstart).
  cbn [set_history db_history db_world db_staging] in H.
  bind_inv H as y Hval. destruct y. apply (validate_rows _ _ _ Hwf) in Hval as [Hpre _].
  exists rows, adopted. assert (Hl : length (fetch_history rows) = length rows) by apply length_map.
  rewrite Hl in H.
  destruct (plan !! length rows) as [m|] eqn:Hm.
  - bind_inv H as w Hw. bind_inv H as rows' Hr. injection H as <- <- <-.
    unfold record_history in Hr. rewrite (insert_next plan) in Hr by done. injection Hr as <-.
    split; simpl; try done. by eauto.
  - injection H as <- <- <-. split; simpl; try done. split_and!; try done.
    apply lookup_ge_None in Hm. destruct Hpre. lia.
Qed.

(** ** Invariants of the system *)

Definition hist_rows (db : database) : list history_row :=
  match db_history db with HV2 rows => rows | _ => [] end.
Definition hist_names (db : database) : list utext := map rec_name (fetch_history (hist_rows db)).

(** The bodies of [ms], one after the other. *)
Definition replay (w : world) (ms : list migration) : res world :=
  foldR (fun w m => apply_body m w) w ms.

(** What was in the history before the first body of this system ran. *)
Definition base_rows (db0 : database) (base : list history_row) : Prop :=
  match db_history db0 with
  | HAbsent => base = []
  | HV2 rows => base = rows
  | HUnknown => False
  | HV1 legacy =>
      dom legacy = list_to_set (map rec_name (fetch_history base)) /\
      forall r, r ∈ base -> legacy !! rec_name (row_record r) = Some (row_applied_at r)
  end.

Definition history_ok (db0 : database) (s : system) : Prop :=
  (sys_db s = db0 /\ sys_log s = []) \/
  exists base rows, base_rows db0 base /\ db_history (sys_db s) = HV2 (base ++ rows) /\
    fetch_history rows = map (fun x => history_record (snd x)) (sys_log s) /\
    exists plan, well_formed_plan plan /\ recorded_prefix plan (base ++ rows).

(** The locals of a call that has not failed agree with the log and the
    history. *)
Record call_ok (db : database) (log : list (nat * migration)) (i : nat) (l : locals) : Prop := {
  co_applied : l_applied l
    = map (fun x => mig_name (snd x)) (filter (fun x => fst x = i) log);
  co_recorded : forall name, name ∈ l_applied l ++ l_already l -> name ∈ hist_names db;
  co_distinct : NoDup (l_applied l ++ l_already l)
}.

Definition migrator_ok (db : database) (log : list (nat * migration)) (i : nat) (g : migrator)
    : Prop :=
  well_formed_plan (mg_plan g) /\
  match mg_status g with
  | Failed => True
  | Running => call_ok db log i (mg_locals g)
  | Returned r =>
      res_applied r = map (fun x => mig_name (snd x)) (filter (fun x => fst x = i) log) /\
      res_applied r ++ res_already_applied r ≡ₚ map mig_name (mg_plan g) /\
      take (length (mg_plan g)) (fetch_history (hist_rows db))
        = map history_record (mg_plan g)
  end.

Record system_ok (db0 : database) (s : system) : Prop := {
  so_history : history_ok db0 s;
  so_world : replay (db_world db0) (map snd (sys_log s)) = Ok (db_world (sys_db s));
  so_started : forall i m, (i, m) ∈ sys_log s -> is_Some (sys_migrators s !! i);
  so_migrators : forall i g, sys_migrators s !! i = Some g ->
    migrator_ok (sys_db s) (sys_log s) i g
}.

Lemma note_already_spec applied hist already :
  NoDup (applied ++ already) ->
  NoDup (applied ++ note_already applied already hist) /\
  forall x, x ∈ note_already applied already hist
            <-> x ∈ already \/ (x ∈ map rec_name hist /\ x ∉ applied).
Proof.
  revert already. induction hist as [|r hist IH]; intros already Hnd; simpl.
  { split; [done|]. intros x. split; [by left|]. intros [H|[H%not_elem_of_nil _]]; done. }
  destruct (decide (rec_name r ∈ applied)) as [Ha|Ha];
    [|destruct (decide (rec_name r ∈ already)) as [Hb|Hb]].
  - rewrite (bool_decide_eq_true_2 _ Ha). simpl. destruct (IH already Hnd) as [H1 H2].
    split; [done|]. intros x. rewrite H2, elem_of_cons. naive_solver.
  - rewrite (bool_decide_eq_true_2 _ Hb), orb_true_r. destruct (IH already Hnd) as [H1 H2].
    split; [done|]. intros x. rewrite H2, elem_of_cons. naive_solver.
  - rewrite (bool_decide_eq_false_2 _ Ha), (bool_decide_eq_false_2 _ Hb). simpl.
    destruct (IH (already ++ [rec_name r])) as [H1 H2].
    + rewrite app_assoc. apply NoDup_app. split; [done|]. split; [|apply NoDup_singleton].
      intros x Hx ->%list_elem_of_singleton. apply elem_of_app in Hx as [Hx|Hx]; done.
    + split; [done|]. intros x. rewrite H2, elem_of_app, list_elem_of_singleton, elem_of_cons.
      naive_solver.
Qed.

(** A commit only appends to the history. *)
Lemma iteration_grows plan adopt now l db db' l' o rows adopted :
  iteration_spec plan adopt now l db db' l' o rows adopted ->
  hist_rows db `prefix_of` rows /\ rows `prefix_of` hist_rows db'.
Proof.
  intros [Hst _ _ _ Ho]. split.
  - unfold starting_rows, hist_rows in *. destruct (db_history db); try apply prefix_nil.
    destruct Hst as [-> _]. done.
  - destruct o; [destruct Ho as (_ & _ & ->)|destruct Ho as (_ & _ & w & _ & ->)]; simpl.
    + done.
    + by apply prefix_app_r.
Qed.

Lemma prefix_names db db' : hist_rows db `prefix_of` hist_rows db' ->
  forall name, name ∈ hist_names db -> name ∈ hist_names db'.
Proof.
  intros [k Hk] name Hn. unfold hist_names, fetch_history in *. rewrite Hk, !map_app.
  apply elem_of_app. by left.
Qed.

(** The other migrators only see the history grow. *)
Lemma migrator_grows db db' log log' i g :
  hist_rows db `prefix_of` hist_rows db' ->
  filter (fun x => fst x = i) log' = filter (fun x => fst x = i) log ->
  migrator_ok db log i g -> migrator_ok db' log' i g.
Proof.
  intros Hpre Hlog [Hwf Hst]. split; [done|]. rewrite Hlog.
  destruct (mg_status g) as [|r|]; [|destruct Hst as (H1 & H2 & H3)|done].
  - destruct Hst as [H1 H2 H3]. split; [by rewrite Hlog| |done].
    intros name Hn. eapply prefix_names; [done|by apply H2].
  - split_and!; try done. destruct Hpre as [k ->]. unfold fetch_history in *.
    rewrite map_app, take_app_le; [done|].
    apply (f_equal length) in H3. rewrite length_take, !length_map in H3. rewrite length_map. lia.
Qed.

(** ** A commit keeps the invariants *)

Lemma recorded_committed plan adopt now l db db' l' o rows adopted :
  iteration_spec plan adopt now l db db' l' o rows adopted -> recorded_prefix plan (hist_rows db').
Proof.
  intros [_ Hpre _ _ Ho]. destruct o as [|m].
  - by destruct Ho as (_ & _ & ->).
  - destruct Ho as (Hm & _ & w & _ & ->). by apply recorded_next.
Qed.

Lemma commit_history db0 db ms log ms' i plan adopt now l db' l' o rows adopted :
  well_formed_plan plan -> iteration_spec plan adopt now l db db' l' o rows adopted ->
  history_ok db0 (System db ms log) -> history_ok db0 (System db' ms' (log ++ logged i o)).
Proof.
  intros Hwf Hspec Hh. pose proof (recorded_committed _ _ _ _ _ _ _ _ _ _ Hspec) as Hrec.
  destruct Hspec as [Hst Hpre _ _ Ho]. right.
  assert (Hbase : exists base rows0, rows = base ++ rows0 /\ base_rows db0 base /\
    fetch_history rows0 = map (fun x => history_record (snd x)) log).
  { destruct Hh as [[Hdb Hlog]|(base & rows0 & Hb & Hdb & Hf & _)]; simpl in *; subst.
    - exists rows, []. rewrite app_nil_r. split_and!; try done.
      unfold starting_rows in Hst. unfold base_rows. destruct (db_history db0); naive_solver.
    - exists base, rows0. unfold starting_rows in Hst. rewrite Hdb in Hst.
      destruct Hst as [-> _]. done. }
  destruct Hbase as (base & rows0 & -> & Hb & Hf). destruct o as [|m].
  - destruct Ho as (_ & _ & ->). exists base, rows0. simpl. rewrite app_nil_r.
    split_and!; try done. eauto.
  - destruct Ho as (_ & _ & w & _ & ->).
    exists base, (rows0 ++ [HistoryRow (history_record m) now]). simpl. rewrite app_assoc.
    split_and!; try done; [|eauto]. unfold fetch_history in *. by rewrite !map_app, Hf.
Qed.

Lemma commit_world w0 db log i plan adopt now l db' l' o rows adopted :
  iteration_spec plan adopt now l db db' l' o rows adopted ->
  replay w0 (map snd log) = Ok (db_world db) ->
  replay w0 (map snd (log ++ logged i o)) = Ok (db_world db').
Proof.
  intros [_ _ _ _ Ho] Hw. unfold replay in *. rewrite map_app, foldR_app, Hw.
  destruct o as [|m].
  - by destruct Ho as (_ & _ & ->).
  - destruct Ho as (_ & _ & w & Hm & ->). simpl. rewrite foldR_cons, Hm. done.
Qed.

Lemma filter_logged log i o :
  filter (fun x : nat * migration => fst x = i) (log ++ logged i o)
  = filter (fun x => fst x = i) log ++ logged i o.
Proof.
  rewrite filter_app. f_equal. destruct o; simpl; [done|].
  rewrite filter_cons_True by done. done.
Qed.

Lemma filter_logged_other log i j o : j <> i ->
  filter (fun x : nat * migration => fst x = j) (log ++ logged i o)
  = filter (fun x => fst x = j) log.
Proof.
  intros Hne. rewrite filter_app. destruct o; simpl; [by rewrite app_nil_r|].
  rewrite filter_cons_False by (simpl; congruence). by rewrite filter_nil, app_nil_r.
Qed.

Lemma filter_unstarted log (i : nat) : (forall m : migration, (i, m) ∉ log) ->
  filter (fun x => fst x = i) log = [].
Proof.
  induction log as [|[j m] log IH]; intros H; [done|]. rewrite filter_cons_False.
  - apply IH. intros m' Hm. apply (H m'). by right.
  - simpl. intros ->. apply (H m). left.
Qed.

Lemma names_start plan rows : well_formed_plan plan -> recorded_prefix plan rows ->
  forall k m, plan !! k = Some m -> length rows <= k ->
  mig_name m ∉ map rec_name (fetch_history rows).
Proof.
  intros [_ Hnd] Hpre k m Hm Hk Hin. rewrite (names_of_rows _ _ Hpre) in Hin.
  apply list_elem_of_lookup in Hin as (j & Hj).
  assert (Hlt : j < length rows).
  { apply lookup_lt_Some in Hj. rewrite length_map, length_take in Hj. lia. }
  rewrite list_lookup_fmap, lookup_take_lt in Hj by done.
  assert (j = k); [|lia]. eapply NoDup_lookup; [exact Hnd| |].
  - rewrite list_lookup_fmap. exact Hj.
  - by rewrite list_lookup_fmap, Hm.
Qed.

Lemma commit_call db log i plan adopt now l db' l' o rows adopted :
  well_formed_plan plan -> iteration_spec plan adopt now l db db' l' o rows adopted ->
  call_ok db log i l -> call_ok db' (log ++ logged i o) i l'.
Proof.
  intros Hwf Hspec [Ha Hr Hd]. destruct (iteration_grows _ _ _ _ _ _ _ _ _ _ Hspec) as [Hg1 Hg2].
  pose proof Hspec as [_ Hpre Hal _ Ho].
  destruct (note_already_spec (l_applied l) (fetch_history rows) (l_already l) Hd) as [Hnd Helem].
  rewrite <- Hal in Hnd, Helem.
  assert (Hin : forall name, name ∈ l_applied l ++ l_already l' ->
                  name ∈ map rec_name (fetch_history rows)).
  { assert (Hold : forall name, name ∈ hist_names db -> name ∈ map rec_name (fetch_history rows)).
    { destruct Hg1 as [k ->]. intros name Hn. unfold fetch_history. rewrite !map_app.
      apply elem_of_app. by left. }
    intros name [Hn|Hn]%elem_of_app; [apply Hold, Hr, elem_of_app; by left|].
    apply Helem in Hn as [Hn|[Hn _]]; [apply Hold, Hr, elem_of_app; by right|done]. }
  assert (Hrows : forall name, name ∈ map rec_name (fetch_history rows) -> name ∈ hist_names db').
  { intros name Hn. unfold hist_names, fetch_history in *. destruct Hg2 as [k ->].
    rewrite !map_app. apply elem_of_app. by left. }
  destruct o as [|m].
  - destruct Ho as (_ & Happ & _). split; rewrite ?Happ; simpl; rewrite ?app_nil_r; auto.
  - destruct Ho as (Hm & Happ & w & _ & Hdb).
    assert (Hnew : mig_name m ∉ l_applied l ++ l_already l').
    { intros Hm'. apply Hin in Hm'. by eapply names_start in Hm'. }
    split; rewrite Happ.
    + by rewrite filter_logged, map_app, Ha.
    + intros name Hn. rewrite <- app_assoc in Hn. apply elem_of_app in Hn as [Hn|Hn].
      * apply Hrows, Hin, elem_of_app. by left.
      * apply elem_of_cons in Hn as [->|Hn]; [|apply Hrows, Hin, elem_of_app; by right].
        unfold hist_names, fetch_history, hist_rows. rewrite Hdb. simpl. rewrite !map_app.
        apply elem_of_app. right. left.
    + rewrite <- app_assoc. simpl. rewrite <- Permutation_middle. by constructor.
Qed.

Lemma commit_returned db log i plan adopt now l db' l' rows adopted :
  well_formed_plan plan -> iteration_spec plan adopt now l db db' l' Finished rows adopted ->
  call_ok db log i l ->
  l_applied l' ++ l_already l' ≡ₚ map mig_name plan /\
  take (length plan) (fetch_history (hist_rows db')) = map history_record plan.
Proof.
  intros Hwf Hspec Hcall. pose proof (commit_call _ _ _ _ _ _ _ _ _ _ _ _ Hwf Hspec Hcall) as Hcall'.
  destruct Hspec as [_ Hpre Hal _ (Hlen & Happ & ->)]. destruct Hcall as [_ _ Hd].
  destruct (note_already_spec (l_applied l) (fetch_history rows) (l_already l) Hd) as [_ Helem].
  rewrite <- Hal in Helem. pose proof (names_of_rows _ _ Hpre) as Hnames.
  rewrite Hlen, take_ge in Hnames by done. split.
  - apply NoDup_Permutation; [apply Hcall'|apply Hwf|]. intros name. split.
    + intros Hn. apply (co_recorded _ _ _ _ Hcall') in Hn. unfold hist_names in Hn. simpl in Hn.
      by rewrite <- Hnames.
    + intros Hn. rewrite <- Hnames in Hn. apply elem_of_app. rewrite Happ.
      destruct (decide (name ∈ l_applied l)) as [|Hna]; [by left|].
      right. apply Helem. by right.
  - change (take (length plan) (fetch_history rows) = map history_record plan).
    destruct Hpre as [_ Hpre]. rewrite Hpre, Hlen, !take_ge; rewrite ?length_map, ?length_take;
      try done; lia.
Qed.

Lemma commit_system db0 db ms log i plan adopt l now db' l' o l'' st :
  ms !! i = Some (Migrator plan adopt l Running) ->
  iteration plan adopt now l db = Ok (db', l', o) ->
  (st = Failed \/ (l'' = l' /\ st = after_commit o l')) ->
  system_ok db0 (System db ms log) ->
  system_ok db0 (System db' (<[i := Migrator plan adopt l'' st]> ms) (log ++ logged i o)).
Proof.
  intros Hi Hit Hs [Hh Hw Hst Hm]. simpl in *. destruct (Hm _ _ Hi) as [Hwf Hcall]. simpl in *.
  destruct (iteration_inv _ _ _ _ _ _ _ _ Hwf Hit) as (rows & adopted & Hspec).
  destruct (iteration_grows _ _ _ _ _ _ _ _ _ _ Hspec) as [Hg1 Hg2].
  split; simpl.
  - by eapply commit_history.
  - by eapply commit_world.
  - intros j m [Hj|Hj]%elem_of_app.
    + destruct (decide (j = i)) as [->|Hne]; [by rewrite lookup_insert_eq|].
      rewrite lookup_insert_ne by done. eauto.
    + destruct o; simpl in Hj; [by apply not_elem_of_nil in Hj|].
      apply list_elem_of_singleton in Hj as [= -> ->]. by rewrite lookup_insert_eq.
  - intros j g Hj. destruct (decide (j = i)) as [->|Hne].
    + rewrite lookup_insert_eq in Hj. injection Hj as <-. split; [done|]. simpl.
      destruct Hs as [-> | [-> ->]]; [done|].
      destruct o as [|m]; cbn [after_commit mg_status mg_plan].
      * destruct (commit_returned _ _ _ _ _ _ _ _ _ _ _ Hwf Hspec Hcall) as [H1 H2].
        pose proof (commit_call _ _ _ _ _ _ _ _ _ _ _ _ Hwf Hspec Hcall) as [H3 _ _]. done.
      * by eapply commit_call.
    + rewrite lookup_insert_ne in Hj by done. eapply migrator_grows; [|by apply filter_logged_other|by apply Hm].
      by etrans.
Qed.

(** The contract of the engine under [_migration_authorizer]: no statement of
    a body ends the transaction and succeeds (BEGIN, COMMIT, ROLLBACK, SAVEPOINT
    and RELEASE are denied; ON CONFLICT ROLLBACK raises). *)
Definition keeps_transaction : Prop :=
  forall s w w', run_statement s w <> StmtEndedTransaction w'.

Lemma run_statements_open statements w : keeps_transaction ->
  forall w', run_statements statements w true <> Ok (w', false).
Proof.
  intros Hk. revert w. induction statements as [|s rest IH]; intros w w'; simpl; [done|].
  destruct (run_statement s w) eqn:Hs; [apply IH|done|by apply Hk in Hs].
Qed.

Lemma system_reachable_ok db0 s : keeps_transaction ->
  system_reachable db0 s -> system_ok db0 s.
Proof.
  intros Hkeep. induction 1 as [|s s' _ IH Hst].
  { split; simpl; [by left|done| |].
    - intros i m H%not_elem_of_nil. done.
    - intros i g H. by rewrite lookup_empty in H. }
  destruct Hst as [Hst|Hst]; [|destruct Hst; by eapply run_statements_open in Hkeep].
  destruct Hst as [db ms log i plan adopt Hi Hwf|db ms log i plan adopt l now db' l' o Hi Hit
    |db ms log i plan adopt l Hi|db ms log i plan adopt l now db' l' o Hi Hit].
  - destruct IH as [Hh Hw Hs Hm]. simpl in *. split; simpl; [done|done| |].
    + intros j m Hj. destruct (decide (j = i)) as [->|Hne]; [by rewrite lookup_insert_eq|].
      rewrite lookup_insert_ne by done. eauto.
    + intros j g Hj. destruct (decide (j = i)) as [->|Hne].
      * rewrite lookup_insert_eq in Hj. injection Hj as <-. split; [done|]. simpl.
        split; simpl; [|by intros name H%not_elem_of_nil|constructor].
        rewrite filter_unstarted; [done|]. intros m Hk. destruct (Hs _ _ Hk). congruence.
      * rewrite lookup_insert_ne in Hj by done. by apply Hm.
  - eapply commit_system; [done|done|by right|done].
  - destruct IH as [Hh Hw Hs Hm]. simpl in *. split; simpl; [done|done| |].
    + intros j m Hj. destruct (decide (j = i)) as [->|Hne]; [by rewrite lookup_insert_eq|].
      rewrite lookup_insert_ne by done. eauto.
    + intros j g Hj. destruct (decide (j = i)) as [->|Hne].
      * rewrite lookup_insert_eq in Hj. injection Hj as <-. split; [|done].
        by destruct (Hm _ _ Hi).
      * rewrite lookup_insert_ne in Hj by done. by apply Hm.
  - eapply commit_system; [done|done|by left|done].
Qed.

Lemma recorded_positions plan rows : well_formed_plan plan -> recorded_prefix plan rows ->
  (forall k r, fetch_history rows !! k = Some r -> rec_position r = (Z.of_nat k + 1)%Z) /\
  NoDup (map rec_name (fetch_history rows)).
Proof.
  intros Hwf Hpre. split.
  - intros k r Hk. destruct Hpre as [Hlen Hpre].
    assert (Hlt : k < length rows).
    { apply lookup_lt_Some in Hk. unfold fetch_history in Hk. by rewrite length_map in Hk. }
    rewrite Hpre, list_lookup_fmap, lookup_take_lt in Hk by done.
    apply fmap_Some in Hk as (m & Hm & ->). destruct Hwf as [Hwf _].
    by destruct (Hwf _ _ Hm).
  - rewrite (names_of_rows _ _ Hpre). by apply well_formed_take.
Qed.

(** ** One migrator alone *)

Lemma note_already_fresh applied already hist :
  NoDup (map rec_name hist) ->
  (forall r, r ∈ hist -> rec_name r ∉ applied /\ rec_name r ∉ already) ->
  note_already applied already hist = already ++ map rec_name hist.
Proof.
  revert already. induction hist as [|r hist IH]; intros already Hnd Hno; simpl;
    [by rewrite app_nil_r|]. simpl in Hnd. apply NoDup_cons in Hnd as [Hr Hnd].
  destruct (Hno r) as [H1 H2]; [left|].
  rewrite (bool_decide_eq_false_2 _ H1), (bool_decide_eq_false_2 _ H2). simpl.
  rewrite IH; [by rewrite <- app_assoc|done|]. intros r' Hr'.
  destruct (Hno r') as [H3 H4]; [by right|]. split; [done|].
  intros [H5|H5]%elem_of_app; [done|]. apply list_elem_of_singleton in H5. apply Hr.
  rewrite <- H5. apply list_elem_of_fmap. eauto.
Qed.

Lemma note_already_grows applied already hist x :
  x ∈ already -> x ∈ note_already applied already hist.
Proof.
  revert already. induction hist as [|r hist IH]; intros already H; [done|]. simpl.
  destruct (_ || _); apply IH; [done|]. apply elem_of_app. by left.
Qed.

Lemma note_already_covers applied already hist r : r ∈ hist ->
  rec_name r ∈ applied \/ rec_name r ∈ note_already applied already hist.
Proof.
  revert already. induction hist as [|r' hist IH]; intros already; [by intros H%not_elem_of_nil|].
  intros [->|H]%elem_of_cons; [|by apply IH]. simpl.
  destruct (decide (rec_name r' ∈ applied)) as [|Ha]; [by left|]. right.
  rewrite (bool_decide_eq_false_2 _ Ha). apply note_already_grows. simpl.
  case_bool_decide; [done|]. apply elem_of_app. right. left.
Qed.

Lemma note_already_seen applied already hist :
  (forall r, r ∈ hist -> rec_name r ∈ applied \/ rec_name r ∈ already) ->
  note_already applied already hist = already.
Proof.
  induction hist as [|r hist IH]; intros H; [done|]. simpl.
  assert (bool_decide (rec_name r ∈ applied) || bool_decide (rec_name r ∈ already) = true) as ->.
  { destruct (H r) as [Hr|Hr]; [left| |]; rewrite (bool_decide_eq_true_2 _ Hr); [done|].
    by rewrite orb_true_r. }
  apply IH. intros; apply H; by right.
Qed.

Lemma loop_total plan adopt clock fuel : well_formed_plan plan ->
  forall l db, length plan - length (hist_rows db) < fuel ->
  apply_loop fuel plan adopt clock l db <> None.
Proof.
  intros Hwf. induction fuel as [|fuel IH]; intros l db Hf; [lia|]. simpl.
  destruct (iteration plan adopt (clock fuel) l db) as [[[db' l'] o]|] eqn:Hit; [|done].
  destruct (iteration_inv _ _ _ _ _ _ _ _ Hwf Hit) as (rows & adopted & Hspec).
  destruct (iteration_grows _ _ _ _ _ _ _ _ _ _ Hspec) as [Hg _].
  destruct Hspec as [_ _ _ _ Ho]. destruct o as [|m]; [done|].
  destruct Ho as (Hm & _ & w & _ & ->). apply IH. unfold hist_rows at 1. simpl.
  rewrite length_app. simpl. apply prefix_length in Hg. apply lookup_lt_Some in Hm. lia.
Qed.

(** The tables a fresh or migrated database starts from. *)
Definition holds_rows (db : database) (rows : list history_row) : Prop :=
  db_history db = HV2 rows \/ (db_history db = HAbsent /\ rows = []).

Lemma iteration_ready plan adopt now l db rows : well_formed_plan plan ->
  holds_rows db rows -> recorded_prefix plan rows ->
  iteration plan adopt now l db =
    let l' := Locals (l_applied l) (note_already (l_applied l) (l_already l) (fetch_history rows))
                (l_legacy_adopted l) in
    match plan !! length rows with
    | None => Ok (set_history (HV2 rows) db, l', Finished)
    | Some m =>
        w ← apply_body m (db_world db);
        Ok (Database (HV2 (rows ++ [HistoryRow (history_record m) now])) (db_staging db) w,
            Locals (l_applied l ++ [mig_name m]) (l_already l') (l_legacy_adopted l), Applied m)
    end.
Proof.
  intros Hwf Hrows Hpre. unfold iteration.
  assert (ensure_v2_history db plan adopt = Ok (set_history (HV2 rows) db, false)) as ->.
  { unfold ensure_v2_history. destruct db as [h s w]. destruct Hrows as [Hh|[Hh ->]]; simpl in *;
      by subst. }
  cbn [mbind res_bind set_history db_history db_world db_staging].
  rewrite (proj2 (validate_rows plan rows 0 Hwf)) by (split; [done|lia]).
  cbn [mbind res_bind]. assert (Hl : length (fetch_history rows) = length rows) by apply length_map.
  rewrite Hl. cbn [orb]. destruct (plan !! length rows) as [m|] eqn:Hm; [|done].
  destruct (apply_body m (db_world db)) as [w|e]; [|done]. cbn [mbind res_bind].
  unfold record_history. by rewrite (insert_next plan).
Qed.

Lemma loop_alone plan adopt clock fuel : well_formed_plan plan ->
  forall l db rows w', length plan - length rows < fuel ->
  holds_rows db rows -> recorded_prefix plan rows ->
  replay (db_world db) (drop (length rows) plan) = Ok w' ->
  exists db' rows', apply_loop fuel plan adopt clock l db = Some (db', Ok (MigrationResult
      (l_applied l ++ map mig_name (drop (length rows) plan))
      (note_already (l_applied l) (l_already l) (fetch_history rows)) (l_legacy_adopted l))) /\
    db_history db' = HV2 (rows ++ rows') /\ db_world db' = w' /\
    fetch_history (rows ++ rows') = map history_record plan.
Proof.
  intros Hwf. induction fuel as [|fuel IH]; intros l db rows w' Hf Hrows Hpre Hw; [lia|].
  cbn [apply_loop]. rewrite (iteration_ready _ _ _ _ _ _ Hwf Hrows Hpre). cbv zeta.
  destruct (plan !! length rows) as [m|] eqn:Hm.
  - rewrite (drop_S _ _ _ Hm) in Hw |- *. unfold replay in Hw. rewrite foldR_cons in Hw.
    bind_inv Hw as w1 Hw1. rewrite Hw1. cbn [mbind res_bind].
    pose proof (recorded_next plan rows m (clock fuel) Hpre Hm) as Hpre'.
    pose proof (lookup_lt_Some _ _ _ Hm) as Hlt.
    edestruct IH as (db' & rows' & -> & Hh & Hworld & Hfetch);
      [| |exact Hpre'| |]; [rewrite length_app; simpl; lia|by left|
        by rewrite length_app; simpl; rewrite Nat.add_1_r|].
    exists db', (HistoryRow (history_record m) (clock fuel) :: rows').
    rewrite (app_assoc rows [_] rows' : rows ++ _ :: rows' = _).
    split_and!; try done. do 3 f_equal. cbn [l_applied l_already l_legacy_adopted].
    rewrite length_app, Nat.add_1_r, <- app_assoc. f_equal.
    apply note_already_seen. intros r Hr.
    unfold fetch_history in Hr. rewrite map_app in Hr. apply elem_of_app in Hr as [Hr|Hr].
    + destruct (note_already_covers (l_applied l) (l_already l) _ _ Hr) as [Ha|Ha]; [|by right].
      left. apply elem_of_app. by left.
    + apply list_elem_of_singleton in Hr as ->. left. apply elem_of_app. right. left.
  - exists (set_history (HV2 rows) db), []. rewrite app_nil_r.
    apply lookup_ge_None in Hm. destruct Hpre as [Hlen Hpre].
    rewrite drop_ge in Hw |- * by done. injection Hw as <-. simpl. rewrite app_nil_r.
    split_and!; try done. rewrite Hpre, take_ge; [done|lia].
Qed.

(** ** Properties *)

(** C3: every body runs exactly once, in order.  Whatever migrators run
    concurrently, with whatever declarations, and wherever they fail: the
    committed history is the one found at first (adopted from v1 under the
    recorded names and times, if legacy) followed by exactly the bodies committed
    since, in commit order; replaying those bodies on the original contents
    gives the current contents; positions count from one without gap and names
    are distinct, so no body is recorded or run twice. *)
Theorem migrations_exactly_once db0 s (Hkeep : keeps_transaction)
  (Hs : system_reachable db0 s) :
  replay (db_world db0) (map snd (sys_log s)) = Ok (db_world (sys_db s)) /\
  (sys_db s = db0 /\ sys_log s = [] \/
   exists base rows, base_rows db0 base /\ db_history (sys_db s) = HV2 (base ++ rows) /\
     fetch_history rows = map (fun x => history_record (snd x)) (sys_log s) /\
     (forall k r, fetch_history (base ++ rows) !! k = Some r ->
        rec_position r = (Z.of_nat k + 1)%Z) /\
     NoDup (map rec_name (fetch_history (base ++ rows)))).
Proof.
  destruct (system_reachable_ok _ _ Hkeep Hs) as [Hh Hw _ _]. split; [done|].
  destruct Hh as [Hh|(base & rows & H1 & H2 & H3 & plan & Hwf & Hpre)]; [by left|]. right.
  exists base, rows. destruct (recorded_positions _ _ Hwf Hpre). done.
Qed.

(** a call that returns is complete.  [applied] are the names of the
    bodies this call committed, in order; together with [already_applied] they
    are the names of the declaration, each once; and the history starts with
    the whole declaration, at the return and ever after. *)
Theorem migrate_complete db0 s i g r (Hkeep : keeps_transaction)
  (Hs : system_reachable db0 s) (Hg : sys_migrators s !! i = Some g)
  (Hr : mg_status g = Returned r) :
  res_applied r = map (fun x => mig_name (snd x)) (filter (fun x => fst x = i) (sys_log s)) /\
  res_applied r ++ res_already_applied r ≡ₚ map mig_name (mg_plan g) /\
  take (length (mg_plan g)) (fetch_history (hist_rows (sys_db s)))
    = map history_record (mg_plan g).
Proof.
  destruct (system_reachable_ok _ _ Hkeep Hs) as [_ _ _ Hm].
  destruct (Hm _ _ Hg) as [_ Hst]. by rewrite Hr in Hst.
Qed.

(** a lone call ends, and does what it should.  The loop ends within its
    fuel on every database.  From a fresh database or one that holds a prefix of
    the declaration, if the pending bodies run, it returns with exactly the
    pending names applied and the recorded ones already applied, the contents
    are those the pending bodies produce and the history is the declaration;
    a second call then applies nothing. *)
Theorem migrate_alone plan adopt clock db (Hwf : well_formed_plan plan) :
  apply_sqlite_migrations plan adopt clock db <> None /\
  forall rows w', holds_rows db rows -> recorded_prefix plan rows ->
  replay (db_world db) (drop (length rows) plan) = Ok w' ->
  exists db', apply_sqlite_migrations plan adopt clock db = Some (db', Ok (MigrationResult
      (map mig_name (drop (length rows) plan)) (map mig_name (take (length rows) plan)) false)) /\
    db_world db' = w' /\ fetch_history (hist_rows db') = map history_record plan /\
    apply_sqlite_migrations plan adopt clock db' = Some (db', Ok (MigrationResult []
      (map mig_name plan) false)).
Proof.
  split.
  { apply loop_total; [done|]. lia. }
  intros rows w' Hrows Hpre Hw. unfold apply_sqlite_migrations.
  destruct (loop_alone plan adopt clock (S (length plan)) Hwf no_locals db rows w')
    as (db' & rows' & -> & Hh & Hworld & Hfetch); [lia|done..|].
  assert (Hfresh : forall rs, recorded_prefix plan rs ->
    note_already [] [] (fetch_history rs) = map mig_name (take (length rs) plan)).
  { intros rs Hrs. destruct (recorded_positions _ _ Hwf Hrs) as [_ Hnd].
    rewrite note_already_fresh, (names_of_rows _ _ Hrs); [done..|].
    intros r _. by split; intros H%not_elem_of_nil. }
  exists db'. simpl. rewrite (Hfresh _ Hpre). split_and!; try done.
  { unfold hist_rows. by rewrite Hh. }
  assert (Hlen : length (rows ++ rows') = length plan).
  { apply (f_equal length) in Hfetch. unfold fetch_history in Hfetch. by rewrite !length_map in Hfetch. }
  assert (Hpre' : recorded_prefix plan (rows ++ rows')).
  { split; [lia|]. by rewrite Hlen, take_ge. }
  rewrite (iteration_ready _ _ _ _ _ (rows ++ rows') Hwf) by (done || by left).
  rewrite (proj2 (lookup_ge_None plan _)) by lia. cbv zeta. cbn [l_applied l_already l_legacy_adopted no_locals].
  unfold result_of. simpl. rewrite (Hfresh _ Hpre'), Hlen, take_ge by done.
  do 2 f_equal. destruct db' as [h st w]. simpl in *. by subst.
Qed.

(** verification is exact and read-only.  [verify_sqlite_migrations]
    succeeds iff the history is a declared prefix with at least the mandatory
    rows, or is absent with none mandatory, and then reports the recorded and
    the pending names, which together are the declaration. *)
Theorem verify_exact db plan minimum st (Hwf : well_formed_plan plan) :
  verify_sqlite_migrations db plan minimum = Ok st <->
  let mandatory := default (Z.of_nat (length plan)) minimum in
  match db_history db with
  | HAbsent => mandatory = 0%Z /\ st = MigrationStatus [] false (map mig_name plan)
  | HV2 rows =>
      recorded_prefix plan rows /\ (mandatory <= Z.of_nat (length rows))%Z /\
      st = MigrationStatus (map mig_name (take (length rows) plan)) true
             (map mig_name (drop (length rows) plan))
  | _ => False
  end.
Proof.
  unfold verify_sqlite_migrations. cbv zeta.
  set (mandatory := default _ minimum). clearbody mandatory.
  destruct (db_history db) as [| |legacy|rows]; [|done..|].
  - destruct (Z.eqb_spec mandatory 0) as [->|Hne]; simpl; [|naive_solver].
    split; [by intros [= <-]|by intros [_ ->]].
  - assert (Hl : length (fetch_history rows) = length rows) by apply length_map.
    rewrite Hl. split.
    + intros H. bind_inv H as x Hv. destruct x. apply (validate_rows _ _ _ Hwf) in Hv as [Hpre Hmin].
      injection H as <-. by rewrite (names_of_rows _ _ Hpre).
    + intros (Hpre & Hmin & ->). rewrite (proj2 (validate_rows _ _ _ Hwf)) by done.
      cbn [mbind res_bind]. by rewrite (names_of_rows _ _ Hpre).
Qed.
End migrations.

(** ** Concrete migrators

    The contents are the list of executed statements. *)

Definition log_statement (s : utext) (w : list utext) : statement_result := StmtDone (w ++ [s]).

Abbreviation demo_step :=
  (system_step (U := ascii_unicode) ends_in_semicolon log_statement) (only parsing).
Abbreviation demo_reached :=
  (system_reachable (U := ascii_unicode) ends_in_semicolon log_statement) (only parsing).

Definition fresh_database : database (world := list utext) := Database HAbsent false [].

Lemma log_statement_keeps : keeps_transaction log_statement.
Proof. intros s w w'. discriminate. Qed.

Definition first_migration : migration := default (Migration 0 [] "" []) (demo_plan !! 0).
Definition second_migration : migration := default (Migration 0 [] "" []) (demo_plan !! 1).

(** Two migrators interleave: 0 commits the first body, 1 the second, 0 returns. *)
Definition raced_system : system (world := list utext) :=
  System
    (Database (HV2 [HistoryRow (history_record first_migration) [];
                    HistoryRow (history_record second_migration) []]) false
       [u "CREATE TABLE t(a);"; u "INSERT INTO t VALUES (1);"])
    (<[0 := Migrator demo_plan false (Locals [u "one"] [u "two"] false)
              (Returned (MigrationResult [u "one"] [u "two"] false))]>
     (<[1 := Migrator demo_plan false (Locals [u "two"] [u "one"] false) Running]> ∅))
    [(0, first_migration); (1, second_migration)].

Lemma raced_reachable : demo_reached fresh_database raced_system.
Proof.
  pose proof (sr_init (U := ascii_unicode) ends_in_semicolon log_statement fresh_database) as H.
  eapply sr_step in H; [|left; apply (SyStart _ _ _ _ _ 0 demo_plan false);
                         [reflexivity|exact demo_plan_well_formed]].
  eapply sr_step in H; [|left; apply (SyStart _ _ _ _ _ 1 demo_plan false);
                         [reflexivity|exact demo_plan_well_formed]].
  eapply sr_step in H; [|left; eapply (SyIterate _ _ _ _ _ 0 demo_plan false _ []);
                         [reflexivity|vm_compute; reflexivity]].
  eapply sr_step in H; [|left; eapply (SyIterate _ _ _ _ _ 1 demo_plan false _ []);
                         [reflexivity|vm_compute; reflexivity]].
  eapply sr_step in H; [|left; eapply (SyIterate _ _ _ _ _ 0 demo_plan false _ []);
                         [reflexivity|vm_compute; reflexivity]].
  match type of H with demo_reached _ ?s => replace raced_system with s; [exact H|] end.
  vm_compute. reflexivity.
Qed.

Lemma migrations_exactly_once_witness :
  replay (U := ascii_unicode) ends_in_semicolon log_statement [] [first_migration; second_migration]
  = Ok (db_world (sys_db raced_system)).
Proof.
  apply (migrations_exactly_once (U := ascii_unicode) ends_in_semicolon log_statement
           fresh_database raced_system log_statement_keeps raced_reachable).
Defined.

Lemma migrate_complete_witness : [u "one"] ++ [u "two"] ≡ₚ map mig_name demo_plan.
Proof.
  apply (migrate_complete (U := ascii_unicode) ends_in_semicolon log_statement
           fresh_database raced_system 0 _ (MigrationResult [u "one"] [u "two"] false)
           log_statement_keeps raced_reachable eq_refl eq_refl).
Defined.

Lemma migrate_alone_witness : exists db',
  apply_sqlite_migrations (U := ascii_unicode) ends_in_semicolon log_statement demo_plan false
    (fun _ => []) fresh_database
  = Some (db', Ok (MigrationResult [u "one"; u "two"] [] false)).
Proof.
  destruct (proj2 (migrate_alone (U := ascii_unicode) ends_in_semicolon log_statement demo_plan false
              (fun _ => []) fresh_database demo_plan_well_formed) []
              [u "CREATE TABLE t(a);"; u "INSERT INTO t VALUES (1);"]) as (db' & H & _).
  - right. split; reflexivity.
  - split; [simpl; lia|reflexivity].
  - vm_compute. reflexivity.
  - exists db'. exact H.
Defined.

Lemma verify_exact_witness :
  verify_sqlite_migrations fresh_database demo_plan (Some 0%Z)
  = Ok (MigrationStatus [] false [u "one"; u "two"]).
Proof.
  apply (verify_exact fresh_database demo_plan (Some 0%Z) _ demo_plan_well_formed).
  split; reflexivity.
Defined.
