(* ===== verification/MariadbMigrations.v ===== *)
(** * The MariaDB migration runner

    [mariadb/migrations.py]: the history table and its shapes, the adoption of
    legacy history, the advisory lock and the runner, as programs over one
    connection.  MariaDB is modelled as far as they rely on it: a transaction
    that DDL commits implicitly, a lock counted per connection, and a session
    that may die at any command.  What the driver answers is a script, so a
    theorem for every script covers every failure and cancellation.

    The statements of a body, and what INFORMATION_SCHEMA reports after a DDL
    statement on the history table, are parameters. *)

From S2P Require Export MariadbTokens Utf8 CatalogRows Effects.

(** ** The history table *)

(** The rows of the six queries of [_fetch_history_shape]. *)
Record catalog := Catalog {
  cat_tables : list (list cell);
  cat_columns : list (list cell);
  cat_indexes : list (utext * Z * Z * utext * cell);
  cat_checks : list (utext * utext);
  cat_constraints : list (utext * utext);
  cat_triggers : list (list cell)
}.

Inductive shape := Absent | StagingShape | UnknownShape | V1 | V2.
#[export] Instance shape_eq_dec : EqDecision shape.
Proof. solve_decision. Defined.

Definition name_unique_key : utext := u "uq_snekql_migrations_name".
Definition position_check : utext := u "chk_snekql_migrations_position".
Definition name_check : utext := u "chk_snekql_migrations_name".
Definition checksum_check : utext := u "chk_snekql_migrations_checksum".
Definition mariadb_history_table : utext := u "snekql_migrations".
Definition text_collation : utext := u "utf8mb4_bin".

Definition expected_checks : gmap utext utext :=
  {[ checksum_check :=
       u "octet_length(`checksum`) = 64 and !(`checksum` regexp cast('[^0-9a-f]' as char charset binary))";
     name_check :=
       u "octet_length(`name`) between 1 and 1020 and char_length(convert(`name` using utf8mb4)) between 1 and 255";
     position_check := u "`position` > 0" ]}.

Definition text_row (name type nullable key : string) (charset collation precision : cell)
    (default_ : cell) : list cell :=
  [CText (u name); CText (u type); CText (u nullable); CText (u key); charset; collation; precision;
   default_; CText []].

Definition legacy_name_column : list cell :=
  text_row "name" "varchar(255)" "NO" "PRI" (CText (u "utf8mb4")) (CText text_collation) CNull CNull.
Definition applied_at_column : list cell :=
  text_row "applied_at" "datetime(3)" "NO" EmptyString CNull CNull (CInt 3) CNull.
Definition staging_position_column : list cell :=
  text_row "position" "bigint(20) unsigned" "YES" EmptyString CNull CNull CNull (CText (u "NULL")).
Definition staging_checksum_column : list cell :=
  text_row "checksum" "varbinary(64)" "YES" EmptyString CNull CNull CNull (CText (u "NULL")).
Definition position_column : list cell :=
  text_row "position" "bigint(20) unsigned" "NO" "PRI" CNull CNull CNull CNull.
Definition name_column : list cell :=
  text_row "name" "varbinary(1020)" "NO" "UNI" CNull CNull CNull CNull.
Definition checksum_column : list cell :=
  text_row "checksum" "varbinary(64)" "NO" EmptyString CNull CNull CNull CNull.

(** Equality of two sets given by lists. *)
Definition same_set {A} `{EqDecision A} (l k : list A) : bool :=
  forallb (fun x => bool_decide (x ∈ k)) l && forallb (fun x => bool_decide (x ∈ l)) k.

Definition legacy_indexes : list (utext * Z * Z * utext * cell) :=
  [(u "PRIMARY", 0%Z, 1%Z, u "name", CNull)].
Definition legacy_constraints : list (utext * utext) := [(u "PRIMARY", u "PRIMARY KEY")].
Definition expected_indexes : list (utext * Z * Z * utext * cell) :=
  [(u "PRIMARY", 0%Z, 1%Z, u "position", CNull); (name_unique_key, 0%Z, 1%Z, u "name", CNull)].
Definition expected_constraints : list (utext * utext) :=
  [(u "PRIMARY", u "PRIMARY KEY"); (name_unique_key, u "UNIQUE"); (checksum_check, u "CHECK");
   (name_check, u "CHECK"); (position_check, u "CHECK")].

Definition has_v1_columns (column_rows : list (list cell)) : bool :=
  bool_decide (take 2 column_rows = [legacy_name_column; applied_at_column]).

Section mariadb_migrations.
Context `{U : unicode} {W : Type}.
Context (py_lower : utext -> utext).

(** [" ".join(str(value).lower().split())] *)
Fixpoint split_words (s : utext) (current : utext) : list utext :=
  let flush := if bool_decide (current = []) then [] else [current] in
  match s with
  | [] => flush
  | c :: s' => if py_isspace c then flush ++ split_words s' [] else split_words s' (current ++ [c])
  end.
Fixpoint join_spaces (l : list utext) : utext :=
  match l with [] => [] | [w] => w | w :: l' => w ++ 32%Z :: join_spaces l' end.
Definition normalize_check_clause (value : utext) : utext :=
  join_spaces (split_words (py_lower value) []).

(** [{str(name): normalize(clause) for ...}]: a later entry replaces an earlier
    one. *)
Definition catalog_checks (rows : list (utext * utext)) : gmap utext utext :=
  foldl (fun m x => <[fst x := normalize_check_clause (snd x)]> m) ∅ rows.

Definition history_shape (c : catalog) : shape :=
  match cat_tables c with
  | [] => Absent
  | tables =>
      if negb (bool_decide (tables =
           [[CText mariadb_history_table; CText (u "BASE TABLE"); CText (u "InnoDB")]]))
      then UnknownShape
      else
        let column_names := map (fun row => py_str (default CNull (head row))) (cat_columns c) in
        let checks := catalog_checks (cat_checks c) in
        let legacy_keys :=
          same_set (cat_indexes c) legacy_indexes
          && same_set (cat_constraints c) legacy_constraints && bool_decide (checks = ∅) in
        if negb (bool_decide (cat_triggers c = [])) then UnknownShape
        else if bool_decide (column_names = [u "name"; u "applied_at"]) then
          if has_v1_columns (cat_columns c) && legacy_keys then V1 else UnknownShape
        else if bool_decide (column_names = [u "name"; u "applied_at"; u "position"; u "checksum"])
        then
          if has_v1_columns (cat_columns c)
             && bool_decide (drop 2 (cat_columns c) =
                               [staging_position_column; staging_checksum_column])
             && legacy_keys
          then StagingShape else UnknownShape
        else if bool_decide (column_names = [u "position"; u "name"; u "checksum"; u "applied_at"])
                && bool_decide (cat_columns c =
                     [position_column; name_column; checksum_column; applied_at_column])
                && same_set (cat_indexes c) expected_indexes
                && same_set (cat_constraints c) expected_constraints
                && bool_decide (checks = expected_checks)
        then V2 else UnknownShape
  end.

(** A row as stored: text columns are bytes. *)
Record history_row := HistoryRow {
  hr_name : list Z; hr_applied_at : utext; hr_position : option Z; hr_checksum : option (list Z) }.

Record database := Database {
  db_catalog : catalog; db_rows : list history_row; db_world : W }.

(** ** MariaDB *)

Inductive ddl := CreateHistory | AddStagingColumns | FinalizeStaging.

(** [_HISTORY_OBJECT_SQL] and so on. *)
Inductive catalog_query :=
  | ObjectQuery | ColumnsQuery | IndexesQuery | ChecksQuery | ConstraintsQuery | TriggersQuery.

Inductive command :=
  | GetLock | ReleaseLock
  | Begin | Commit | Rollback
  | Quiet   (* fetching, closing a cursor, a checkpoint *)
  | ReadCatalog (q : catalog_query)
  | SelectHistory | SelectLegacy | SelectStaging
  | Ddl (d : ddl)
  | UpdateStaging (position : Z) (checksum name : list Z)
  | InsertHistory (position : Z) (name checksum : list Z)
  | Body (sql : utext).

(** [sv_working]: the database as an open transaction sees it; [sv_held]: how
    often this connection has taken the lock; [sv_other_holder]: another
    session has it. *)
Record server := Server {
  sv_durable : database; sv_working : option database;
  sv_held : nat; sv_other_holder : bool; sv_alive : bool; sv_now : utext }.

Definition current (sv : server) : database := default (sv_durable sv) (sv_working sv).

Definition with_data (durable : database) (working : option database) (sv : server) : server :=
  Server durable working (sv_held sv) (sv_other_holder sv) (sv_alive sv) (sv_now sv).
Definition with_held (n : nat) (sv : server) : server :=
  Server (sv_durable sv) (sv_working sv) n (sv_other_holder sv) (sv_alive sv) (sv_now sv).

(** The constraints of the v2 table on one row, and between two. *)
Definition lower_hex_byte (b : Z) : bool := in_range 48 57 b || in_range 97 102 b.
Definition row_checks (r : history_row) : bool :=
  match hr_position r, hr_checksum r with
  | Some p, Some checksum =>
      (0 <? p)%Z && (1 <=? length (hr_name r)) && (length (hr_name r) <=? 1020)
      && match utf8_decode (hr_name r) with
         | Some name => (1 <=? length name) && (length name <=? 255)
         | None => false
         end
      && (length checksum =? 64) && forallb lower_hex_byte checksum
  | _, _ => false
  end.
Definition rows_conflict (r r' : history_row) : bool :=
  bool_decide (hr_position r = hr_position r') || bool_decide (hr_name r = hr_name r').
Fixpoint table_checks (rows : list history_row) : bool :=
  match rows with
  | [] => true
  | r :: rows' => row_checks r && negb (existsb (rows_conflict r) rows') && table_checks rows'
  end.

Context (after_ddl : ddl -> catalog -> catalog).

(** What a DDL statement on the history table makes of the database, where it
    is accepted. *)
Definition run_ddl (d : ddl) (db : database) : option database :=
  let accepted :=
    match d with
    | CreateHistory => bool_decide (cat_tables (db_catalog db) = [])
    | AddStagingColumns => negb (bool_decide (cat_tables (db_catalog db) = []))
    | FinalizeStaging =>
        negb (bool_decide (cat_tables (db_catalog db) = [])) && table_checks (db_rows db)
    end in
  let rows :=
    match d with
    | CreateHistory => []
    | AddStagingColumns =>
        map (fun r => HistoryRow (hr_name r) (hr_applied_at r) None None) (db_rows db)
    | FinalizeStaging => db_rows db
    end in
  if accepted then Some (Database (after_ddl d (db_catalog db)) rows (db_world db)) else None.

Definition update_staging (position : Z) (checksum name : list Z) (r : history_row) : history_row :=
  match hr_position r, hr_checksum r with
  | None, None =>
      if bool_decide (hr_name r = name)
      then HistoryRow name (hr_applied_at r) (Some position) (Some checksum) else r
  | _, _ => r
  end.

Definition map_rows (f : list history_row -> list history_row) (db : database) : database :=
  Database (db_catalog db) (f (db_rows db)) (db_world db).

(** A statement of a body: whether it commits implicitly, and the database it
    makes; [None] if it fails, which undoes it alone. *)
Context (statements : utext -> list (database -> option (bool * database))).

(** The statements in turn, up to a failing one: the durable database, the open
    transaction, and whether all of them succeeded. *)
Fixpoint run_statements (l : list (database -> option (bool * database))) (durable : database)
    (working : option database) : database * option database * bool :=
  match l with
  | [] => (durable, working, true)
  | f :: l' =>
      match f (default durable working) with
      | None => (durable, working, false)
      | Some (true, db) => run_statements l' db None
      | Some (false, db) => run_statements l' durable (Some db)
      end
  end.

Definition run_body (l : list (database -> option (bool * database))) (sv : server)
    : server * bool :=
  let '(durable, working, ok) := run_statements l (sv_durable sv) (sv_working sv) in
  (with_data durable working sv, ok).

(** What a command does, and whether it succeeds. *)
Definition serve (c : command) (sv : server) : server * bool :=
  let db := current sv in
  match c with
  | GetLock => ((if sv_other_holder sv then sv else with_held (S (sv_held sv)) sv), true)
  | ReleaseLock => (with_held (Nat.pred (sv_held sv)) sv, true)
  | Begin => (with_data db (Some db) sv, true)
  | Commit => (with_data db None sv, true)
  | Rollback => (with_data (sv_durable sv) None sv, true)
  | Quiet | ReadCatalog _ => (sv, true)
  | SelectHistory | SelectLegacy | SelectStaging =>
      (sv, negb (bool_decide (cat_tables (db_catalog db) = [])))
  | Ddl d =>
      match run_ddl d db with
      | Some db' => (with_data db' None sv, true)
      | None => (with_data db None sv, false)
      end
  | UpdateStaging position checksum name =>
      (with_data (sv_durable sv)
         (Some (map_rows (map (update_staging position checksum name)) db)) sv, true)
  | InsertHistory position name checksum =>
      let r := HistoryRow name (sv_now sv) (Some position) (Some checksum) in
      if negb (bool_decide (cat_tables (db_catalog db) = []))
         && row_checks r && negb (existsb (rows_conflict r) (db_rows db))
      then (with_data (sv_durable sv) (Some (map_rows (fun rows => rows ++ [r]) db)) sv, true)
      else (sv, false)
  | Body sql => run_body (statements sql) sv
  end.

(** The single row of a lock function. *)
Definition lock_reply (c : command) (sv : server) : option Z :=
  match c with
  | GetLock => Some (if sv_other_holder sv then 0 else 1)%Z
  | ReleaseLock =>
      match sv_held sv with
      | S _ => Some 1%Z
      | O => if sv_other_holder sv then Some 0%Z else None
      end
  | _ => None
  end.

(** ** The driver *)

Inductive failure := FPython (e : exn) | FDriver | FCancelled | FOutOfFuel.

(** What a command that fails has done before. *)
Inductive effect :=
  | NoChange
  | Happened
  | SomeStatements (n : nat)   (* of a body *)
  | RolledBack
  | Killed (other_holder : bool).

Inductive answer := Done | NullReply | Fault (cancelled : bool) (e : effect).

Record conn := Conn {
  cn_server : server;
  cn_reusable : bool;
  cn_sent : list (command * bool);   (* with: is the lock held when it is sent *)
  cn_script : list answer
}.

Definition after_effect (e : effect) (c : command) (sv : server) : server :=
  match e with
  | NoChange => sv
  | Happened => fst (serve c sv)
  | SomeStatements n =>
      match c with Body sql => fst (run_body (take n (statements sql)) sv) | _ => sv end
  | RolledBack => with_data (sv_durable sv) None sv
  | Killed other => Server (sv_durable sv) None 0 other false (sv_now sv)
  end.

Definition program := eff conn failure.

Definition driver (c : command) : program (option Z) := fun s =>
  let sv := cn_server s in
  if negb (sv_alive sv) then (inr FDriver, s)
  else
    let sent := cn_sent s ++ [(c, negb (Nat.eqb (sv_held sv) 0))] in
    let next sv := Conn sv (cn_reusable s) sent (tail (cn_script s)) in
    match head (cn_script s), c with
    | Some (Fault cancelled e), _ =>
        (inr (if cancelled then FCancelled else FDriver), next (after_effect e c sv))
    | Some NullReply, GetLock => (inl None, next sv)
    | _, _ =>
        let '(sv', ok) := serve c sv in
        (if ok then inl (lock_reply c sv) else inr FDriver, next sv')
    end.

(** ** Statements of the runner *)

Definition lift {A} (r : res A) : program A :=
  match r with Ok a => mret a | Raise e => throw (FPython e) end.

Definition close_cursor : program unit := _ ← driver Quiet; mret tt.

(** [_execute] *)
Definition execute (c : command) : program unit :=
  try_finally (_ ← driver c; mret tt) close_cursor.

(** [_fetch_all]: the rows are those of the moment the query runs. *)
Definition fetch_all {A} (c : command) (rows : database -> A) : program A :=
  try_finally
    (_ ← driver c; s ← get; _ ← driver Quiet; mret (rows (current (cn_server s)))) close_cursor.

(** [_fetch_one], for the lock functions. *)
Definition fetch_one (c : command) : program (option Z) :=
  try_finally (row ← driver c; _ ← driver Quiet; mret row) close_cursor.

Definition rollback : program unit := _ ← driver Rollback; _ ← driver Quiet; mret tt.
Definition commit : program unit := _ ← driver Commit; _ ← driver Quiet; mret tt.

(** A text column as a driver may return it. *)
Inductive driver_text (A : Type) := DBytes (b : list Z) | DStr (s : A) | DOther.
Arguments DBytes {_} _. Arguments DStr {_} _. Arguments DOther {_}.

Definition decode_name (value : driver_text utext) : res utext :=
  match value with
  | DBytes b =>
      match utf8_decode b with
      | Some name => Ok name
      | None =>
          raise MigrationHistoryError "Migration History contains a name that is not valid UTF-8"
      end
  | DStr name => Ok name
  | DOther => raise MigrationHistoryError "Migration History contains a non-text name"
  end.

Definition ascii_string (b : list Z) : string :=
  foldr (fun c s => String (Ascii.ascii_of_nat (Z.to_nat c)) s) EmptyString b.

Definition decode_checksum (value : driver_text string) : res string :=
  match value with
  | DBytes b =>
      if forallb (in_range 0 127) b then Ok (ascii_string b)
      else raise MigrationHistoryError "Migration History contains a non-ASCII checksum"
  | DStr checksum => Ok checksum
  | DOther => raise MigrationHistoryError "Migration History contains an invalid checksum"
  end.

(** ORDER BY position; a NULL comes first. *)
Definition position_of (r : history_row) : Z := default 0%Z (hr_position r).
Fixpoint insert_by_position (r : history_row) (l : list history_row) : list history_row :=
  match l with
  | [] => [r]
  | r' :: l' =>
      if (position_of r <=? position_of r')%Z then r :: l else r' :: insert_by_position r l'
  end.
Definition by_position (rows : list history_row) : list history_row :=
  foldr insert_by_position [] rows.

(** [int(position)] of a NULL is a TypeError. *)
Definition decode_row (r : history_row) : res migration_record :=
  p ← match hr_position r with
      | Some p => Ok p
      | None => raise TypeError "int() argument must be a string or a real number"
      end;
  name ← decode_name (DBytes (hr_name r));
  checksum ← decode_checksum (match hr_checksum r with Some c => DBytes c | None => DOther end);
  Ok (MigrationRecord p name checksum).

Definition decode_history (db : database) : res (list migration_record) :=
  mapR decode_row (by_position (db_rows db)).

Definition fetch_history : program (list migration_record) :=
  rows ← fetch_all SelectHistory id;
  lift (decode_history rows).

Definition query_rows (q : catalog_query) : program catalog :=
  fetch_all (ReadCatalog q) db_catalog.

(** [_fetch_history_shape]: six reads unless the first one decides. *)
Definition fetch_history_shape : program shape :=
  tables ← query_rows ObjectQuery;
  if bool_decide (cat_tables tables = []) then mret Absent
  else if negb (bool_decide (cat_tables tables =
    [[CText mariadb_history_table; CText (u "BASE TABLE"); CText (u "InnoDB")]]))
  then mret UnknownShape
  else
    columns ← query_rows ColumnsQuery;
    indexes ← query_rows IndexesQuery;
    checks ← query_rows ChecksQuery;
    constraints ← query_rows ConstraintsQuery;
    triggers ← query_rows TriggersQuery;
    mret (history_shape
      (Catalog (cat_tables tables) (cat_columns columns) (cat_indexes indexes)
         (cat_checks checks) (cat_constraints constraints) (cat_triggers triggers))).

(** ** Adoption of legacy history *)

Definition encode_utf8 (s : utext) : res (list Z) :=
  match utf8 s with Some b => Ok b | None => raise ValueError "surrogates not allowed" end.

Definition decode_names (rows : list history_row) : res (list utext) :=
  mapR (fun r => decode_name (DBytes (hr_name r))) rows.

(** One row of the loop of [_fill_staging_history]. *)
Definition fill_row (expected_by_name : list migration) (r : history_row) : program unit :=
  name ← lift (decode_name (DBytes (hr_name r)));
  m ← lift (match list_find (fun m => mig_name m = name) expected_by_name with
            | Some (_, m) => Ok m
            | None => raise KeyError "name"
            end);
  match hr_position r, hr_checksum r with
  | None, None =>
      bytes ← lift (encode_utf8 name);
      execute (UpdateStaging (mig_position m) (u (mig_checksum m)) bytes)
  | Some p, Some c =>
      if negb (Z.eqb p (mig_position m)) then
        throw (FPython (Exn MigrationHistoryError "legacy staging row differs from the declaration"))
      else
        checksum ← lift (decode_checksum (DBytes c));
        require (bool_decide (checksum = mig_checksum m))
          (FPython (Exn MigrationHistoryError "legacy staging row differs from the declaration"))
  | _, _ =>
      throw (FPython (Exn MigrationHistoryError "legacy staging row is only partially populated"))
  end.

Fixpoint fill_rows (expected_by_name : list migration) (rows : list history_row) : program unit :=
  match rows with
  | [] => mret tt
  | r :: rows => _ ← fill_row expected_by_name r; fill_rows expected_by_name rows
  end.

Definition fill_staging_history (migrations : list migration) : program bool :=
  rows ← fetch_all SelectStaging db_rows;
  names ← lift (decode_names rows);
  prefix_length ← lift (validate_legacy_history (list_to_set names) migrations);
  _ ← fill_rows (take prefix_length migrations) rows;
  _ ← commit;
  _ ← execute (Ddl FinalizeStaging);
  shape ← fetch_history_shape;
  _ ← require (bool_decide (shape = V2))
        (FPython (Exn MigrationHistoryError
           "could not finalize exact MariaDB Migration History v2"));
  mret (negb (bool_decide (rows = []))).

Definition ensure_v2_history (migrations : list migration) (adopt_legacy : bool) : program bool :=
  shape ← fetch_history_shape;
  match shape with
  | Absent =>
      _ ← execute (Ddl CreateHistory);
      shape ← fetch_history_shape;
      _ ← require (bool_decide (shape = V2))
            (FPython (Exn MigrationHistoryError
               "could not create exact MariaDB Migration History v2"));
      mret false
  | V2 => mret false
  | UnknownShape =>
      throw (FPython (Exn MigrationHistoryError "Migration History has an unknown MariaDB schema"))
  | V1 =>
      legacy_rows ← fetch_all SelectLegacy db_rows;
      legacy_names ← lift (decode_names legacy_rows);
      _ ← require (bool_decide (legacy_names = []) || adopt_legacy)
            (FPython (Exn MigrationHistoryError
               "non-empty legacy Migration History requires adopt_legacy"));
      _ ← lift (validate_legacy_history (list_to_set legacy_names) migrations);
      _ ← execute (Ddl AddStagingColumns);
      fill_staging_history migrations
  | StagingShape => fill_staging_history migrations
  end.

(** ** The lock *)

Definition set_reusable (b : bool) (s : conn) : conn :=
  Conn (cn_server s) b (cn_sent s) (cn_script s).

(** [except BaseException]: a cancellation is raised again, anything else
    becomes the given error. *)
Definition or_raise {A} (m : program A) (e : exn) : program A :=
  try_except m (fun x => match x with FCancelled => throw x | _ => throw (FPython e) end).

Definition acquire_lock : program bool :=
  row ← or_raise (fetch_one GetLock)
          (Exn MigrationLockError "could not acquire migration lock");
  if bool_decide (row = Some 1%Z) then mret true
  else if bool_decide (row = Some 0%Z) then mret false
  else throw (FPython (Exn MigrationLockError
                         "could not confirm acquisition of migration lock")).

(** [while True]: each round but the last gives one acquisition back. *)
Fixpoint release_rounds (fuel : nat) (released : bool) : program unit :=
  match fuel with
  | O => throw FOutOfFuel
  | S fuel =>
      row ← or_raise (fetch_one ReleaseLock)
              (Exn MigrationLockError "could not release migration lock");
      if bool_decide (row = Some 1%Z) then release_rounds fuel true
      else if released && bool_decide (row ∈ [Some 0%Z; None]) then mret tt
      else throw (FPython (Exn MigrationLockError
                             "could not confirm release of migration lock"))
  end.
Definition release_lock : program unit := fun s => release_rounds (sv_held (cn_server s) + 2) false s.

Definition migration_lock {A} (body : program A) : program A :=
  acquired ← acquire_lock;
  if negb acquired then
    _ ← modify (set_reusable true);
    throw (FPython (Exn MigrationLockTimeoutError "timed out acquiring migration lock"))
  else
    try_finally body
      (_ ← release_lock; _ ← modify (set_reusable true); _ ← driver Quiet; mret tt).

(** ** The runner *)

Definition reraise_after_rollback {A} (m : program A) (e : option exn) : program A :=
  try_except m (fun x =>
    _ ← rollback;
    match x, e with
    | FCancelled, _ | _, None => throw x
    | _, Some e => throw (FPython e)
    end).

Definition apply_body_and_history (m : migration) (expected_history : list migration)
    : program unit :=
  _ ← driver Begin;
  _ ← reraise_after_rollback (execute (Body (mig_sql m))) (Some (Exn MigrationError "migration failed"));
  reraise_after_rollback
    (name ← lift (encode_utf8 (mig_name m));
     _ ← execute (InsertHistory (mig_position m) name (u (mig_checksum m)));
     shape ← fetch_history_shape;
     _ ← require (bool_decide (shape = V2))
           (FPython (Exn MigrationHistoryError
              "migration changed the owned Migration History schema"));
     history ← fetch_history;
     _ ← lift (validate_history_prefix history expected_history true 0);
     commit)
    (Some (Exn MigrationHistoryError "could not record migration")).

Fixpoint apply_pending (migrations pending : list migration) (applied : list utext)
    : program (list utext) :=
  match pending with
  | [] => mret applied
  | m :: pending =>
      _ ← apply_body_and_history m (take (Z.to_nat (mig_position m)) migrations);
      apply_pending migrations pending (applied ++ [mig_name m])
  end.

Definition apply_mariadb_migrations (migrations : list migration) (adopt_legacy : bool)
    : program migration_result :=
  migration_lock
    (reraise_after_rollback
       (legacy_adopted ← ensure_v2_history migrations adopt_legacy;
        history ← fetch_history;
        _ ← lift (validate_history_prefix history migrations false 0);
        _ ← rollback;
        applied ← apply_pending migrations (drop (length history) migrations) [];
        mret (MigrationResult applied (map rec_name history) legacy_adopted))
       None).

Definition verify_mariadb_migrations (migrations : list migration) (minimum_applied : option Z)
    : program migration_status :=
  let minimum_applied := default (Z.of_nat (length migrations)) minimum_applied in
  try_finally
    (shape ← fetch_history_shape;
     match shape with
     | Absent =>
         _ ← require (Z.eqb minimum_applied 0)
               (FPython (Exn MigrationHistoryError "Migration History is missing"));
         mret (MigrationStatus [] false (map mig_name migrations))
     | V2 =>
         history ← fetch_history;
         _ ← lift (validate_history_prefix history migrations false minimum_applied);
         mret (MigrationStatus (map rec_name history) true
                 (map mig_name (drop (length history) migrations)))
     | _ =>
         throw (FPython (Exn MigrationHistoryError
                           "Migration History uses unsupported MariaDB shape"))
     end)
    rollback.

End mariadb_migrations.
