(* ===== verification/MariadbMigrationFacts.v ===== *)
(** * What the steps of the MariaDB migration runner do

    Lemmas on the programs of [MariadbMigrations.v], for every script of
    answers: what reading leaves alone, what the history decodes to, who holds
    the lock when a command is sent. *)

From S2P Require Export MariadbMigrations.

Section facts.
Context `{U : unicode} {W : Type}.
Context (py_lower : utext -> utext) (after_ddl : ddl -> catalog -> catalog).
Context (statements : utext -> list (database (W := W) -> option (bool * database (W := W)))).

#[local] Abbreviation database := (@database W).
#[local] Abbreviation conn := (@conn W).
#[local] Abbreviation server := (@server W).
#[local] Abbreviation program := (@program W).
#[local] Abbreviation driver := (driver after_ddl statements).
#[local] Abbreviation execute := (execute after_ddl statements).
#[local] Abbreviation fetch_all := (fetch_all after_ddl statements).
#[local] Abbreviation fetch_history := (fetch_history after_ddl statements).
#[local] Abbreviation fetch_history_shape := (fetch_history_shape py_lower after_ddl statements).
#[local] Abbreviation serve := (serve after_ddl statements).

(** ** Commands *)

Definition durable (s : conn) : database := sv_durable (cn_server s).
Definition working (s : conn) : option database := sv_working (cn_server s).
Definition seen (s : conn) : database := current (cn_server s).

(** Commands that change neither the data nor the lock. *)
Definition reading (c : command) : bool :=
  match c with
  | Quiet | ReadCatalog _ | SelectHistory | SelectLegacy | SelectStaging => true
  | _ => false
  end.

(** Where a failed command that reads may leave a connection. *)
Definition dropped (s s' : conn) : Prop :=
  durable s' = durable s /\ (working s' = working s \/ working s' = None).

Lemma dropped_refl s : dropped s s.
Proof using Type. split; auto. Qed.
Lemma dropped_trans s1 s2 s3 : dropped s1 s2 -> dropped s2 s3 -> dropped s1 s3.
Proof using Type. intros [H1 H2] [H3 H4]. split; [congruence|]. destruct H4 as [-> | ->]; auto. Qed.

(** A driver call that returns ran its command on a live session. *)
Lemma driver_inl c s r s' : driver c s = (inl r, s') ->
  sv_alive (cn_server s) = true /\
  ((cn_server s' = fst (serve c (cn_server s)) /\ snd (serve c (cn_server s)) = true /\
    r = lock_reply c (cn_server s)) \/
   (c = GetLock /\ r = None /\ cn_server s' = cn_server s)).
Proof using Type.
  unfold MariadbMigrations.driver. destruct (sv_alive _); [|done]. simpl. intros H. split; [done|].
  destruct (serve c (cn_server s)) as [sv ok] eqn:Hsv.
  destruct (head (cn_script s)) as [[| |x e]|]; [destruct ok| |done|destruct ok];
    try (simplify_eq/=; auto; fail).
  destruct c; try destruct ok; simplify_eq/=; auto.
Qed.

(** Any driver call: nothing on a dead session; otherwise what the answer says. *)
Lemma driver_ran c s r s' : driver c s = (r, s') ->
  (cn_server s' = cn_server s \/ cn_server s' = fst (serve c (cn_server s)) \/
   exists e, cn_server s' = after_effect after_ddl statements e c (cn_server s)) /\
  cn_reusable s' = cn_reusable s /\
  (sv_alive (cn_server s) = false /\ s' = s \/
   sv_alive (cn_server s) = true /\
   cn_sent s' = cn_sent s ++ [(c, negb (Nat.eqb (sv_held (cn_server s)) 0))]).
Proof using Type.
  unfold MariadbMigrations.driver. destruct (sv_alive _); [|intros [= <- <-]; auto].
  cbn [negb]. intros H. destruct (serve c (cn_server s)) as [sv ok] eqn:Hsv.
  destruct (head (cn_script s)) as [[| |x e]|]; [|destruct c| |];
    simplify_eq/=; (split_and!; [|done|by right]); eauto.
Qed.

Lemma reading_serve c sv : reading c = true -> fst (serve c sv) = sv.
Proof using Type. by destruct c. Qed.

Lemma reading_effect c e sv : reading c = true ->
  sv_durable (after_effect after_ddl statements e c sv) = sv_durable sv /\
  (sv_working (after_effect after_ddl statements e c sv) = sv_working sv \/
   sv_working (after_effect after_ddl statements e c sv) = None).
Proof using Type.
  intros Hc. destruct e; simpl; auto.
  - rewrite reading_serve by done. auto.
  - destruct c; auto; done.
Qed.

(** ** Programs that only read *)

Definition reader {A} (m : program A) : Prop := forall s r s', m s = (r, s') ->
  dropped s s' /\ (forall a, r = inl a -> cn_server s' = cn_server s).

Lemma reader_ret {A} (a : A) : reader (mret a).
Proof using Type. intros s r s' [= <- <-]. auto using dropped_refl. Qed.
Lemma reader_throw {A} x : reader (throw x : program A).
Proof using Type. intros s r s' [= <- <-]. split; [apply dropped_refl|done]. Qed.
Lemma reader_get : reader (get : program conn).
Proof using Type. intros s r s' [= <- <-]. auto using dropped_refl. Qed.
Lemma reader_require b x : reader (require b x : program unit).
Proof using Type. destruct b; [apply reader_ret|apply reader_throw]. Qed.
Lemma reader_lift {A} (x : res A) : reader (lift x : program A).
Proof using Type. destruct x; [apply reader_ret|apply reader_throw]. Qed.

Lemma reader_driver c : reading c = true -> reader (driver c).
Proof using Type.
  intros Hc s r s' H. split.
  - apply driver_ran in H as [[H|[H|(e & H)]] _]; unfold dropped, durable, working; rewrite H.
    + auto.
    + rewrite reading_serve by done. auto.
    + by apply reading_effect.
  - intros a ->. apply driver_inl in H as [_ [(H & _)|(-> & _)]]; [|done].
    by rewrite H, reading_serve.
Qed.

Lemma reader_bind {A B} (m : program A) (f : A -> program B) :
  reader m -> (forall a, reader (f a)) -> reader (m ≫= f).
Proof using Type.
  intros Hm Hf s r s' H. apply bind_cases in H as [(a & s1 & H1 & H2)|(x & H1 & ->)].
  - apply Hm in H1 as [Hd1 Hs1]. apply Hf in H2 as [Hd2 Hs2]. split.
    + by eapply dropped_trans.
    + intros b Hb. rewrite (Hs2 b Hb). by apply (Hs1 a).
  - split; [|done]. by apply Hm in H1 as [H1 _].
Qed.

Lemma reader_finally {A} (m : program A) f : reader m -> reader f -> reader (try_finally m f).
Proof using Type.
  intros Hm Hf s r s' H. apply finally_cases in H as (r1 & s1 & H1 & [(H2 & ->)|(x & H2 & ->)]);
    apply Hm in H1 as [Hd1 Hs1]; apply Hf in H2 as [Hd2 Hs2];
    (split; [by eapply dropped_trans|intros b Hb; simplify_eq]).
  rewrite (Hs2 tt eq_refl). by apply (Hs1 b).
Qed.

#[local] Hint Resolve reader_ret reader_throw reader_get reader_require reader_lift reader_driver
  reader_bind reader_finally : readers.
Ltac reader := repeat first
  [ apply reader_bind; [|intros] | apply reader_finally
  | solve [auto with readers] | case_match ].

Lemma reader_close_cursor : reader (close_cursor after_ddl statements).
Proof using Type. unfold close_cursor. reader. Qed.
#[local] Hint Resolve reader_close_cursor : readers.

Lemma reader_fetch_all {A} c (f : database -> A) : reading c = true -> reader (fetch_all c f).
Proof using Type. intros H. unfold MariadbMigrations.fetch_all. reader. Qed.
#[local] Hint Resolve reader_fetch_all : readers.

Lemma reader_history : reader fetch_history.
Proof using Type. unfold MariadbMigrations.fetch_history. reader. Qed.
Lemma reader_shape : reader fetch_history_shape.
Proof using Type. unfold MariadbMigrations.fetch_history_shape, query_rows. reader. Qed.
#[local] Hint Resolve reader_history reader_shape : readers.

(** *** What they return *)

Lemma bind_value {A B} (m : program A) (f : A -> program B) s b s' :
  (m ≫= f) s = (inl b, s') -> exists a s1, m s = (inl a, s1) /\ f a s1 = (inl b, s').
Proof using Type. intros H. apply bind_cases in H as [(a & s1 & H1 & H2)|(x & _ & H)]; [eauto|done]. Qed.

Lemma finally_value {A} (m : program A) f s a s' :
  try_finally m f s = (inl a, s') -> exists s1, m s = (inl a, s1) /\ f s1 = (inl tt, s').
Proof using Type.
  intros H. apply finally_cases in H as (r & s1 & H1 & [(H2 & H3)|(x & _ & H3)]); simplify_eq; eauto.
Qed.

Lemma fetch_all_value {A} c (f : database -> A) s a s' : reading c = true ->
  fetch_all c f s = (inl a, s') -> a = f (seen s) /\ cn_server s' = cn_server s.
Proof using Type.
  intros Hc H. split; [|by eapply reader_fetch_all in H as [_ H]; eauto].
  apply finally_value in H as (s1 & H & _). apply bind_value in H as (x & s2 & H1 & H).
  apply bind_value in H as (x2 & s3 & Hg & H). injection Hg as <- <-.
  apply bind_value in H as (y & s4 & _ & H). injection H as <- _.
  apply (reader_driver c Hc) in H1 as [_ Hs]. unfold seen. by rewrite (Hs _ eq_refl).
Qed.

Lemma lift_value {A} (x : res A) s a s' : (lift x : program A) s = (inl a, s') -> x = Ok a /\ s' = s.
Proof using Type. destruct x; intros [= <- <-]; auto. Qed.

Lemma require_value b x s a s' : (require b x : program unit) s = (inl a, s') -> b = true /\ s' = s.
Proof using Type. destruct b; intros [= <- <-]; auto. Qed.

Lemma history_value s h s' : fetch_history s = (inl h, s') ->
  decode_history (seen s) = Ok h /\ cn_server s' = cn_server s.
Proof using Type.
  intros H. apply bind_value in H as (rows & s1 & H1 & H2).
  apply fetch_all_value in H1 as [-> Hs]; [|done]. by apply lift_value in H2 as [H2 ->].
Qed.

Lemma shape_value s h s' : fetch_history_shape s = (inl h, s') ->
  h = history_shape py_lower (db_catalog (seen s)) /\ cn_server s' = cn_server s.
Proof using Type.
  intros H. split; [|by eapply reader_shape in H as [_ H]; eauto].
  apply bind_value in H as (tables & s1 & H1 & H). apply fetch_all_value in H1 as [-> Hs1]; [|done].
  destruct (seen s) as [[t c i k x g] rows w] eqn:Hseen. simpl in *.
  destruct t as [|t0 t]; [by injection H as <- _|].
  rewrite bool_decide_eq_false_2 in H by done.
  destruct (negb (bool_decide (t0 :: t = _))) eqn:Hb in H.
  { injection H as <- _. unfold history_shape. cbn [cat_tables]. by rewrite Hb. }
  assert (Hsame : forall s', cn_server s' = cn_server s -> db_catalog (seen s') = Catalog (t0 :: t) c i k x g)
    by (intros s2 Hs2; unfold seen in *; by rewrite Hs2, Hseen).
  do 5 (let Hq := fresh "Hq" in apply bind_value in H as (? & ? & Hq & H);
        apply fetch_all_value in Hq as [-> Hq]; [|done]; rewrite Hsame in H by congruence).
  injection H as <- _. done.
Qed.

(** ** Holding the lock *)

(** What is done on behalf of the migrations, rather than about the lock. *)
Definition owned (c : command) : bool :=
  match c with GetLock | ReleaseLock | Quiet => false | _ => true end.

Definition locked (s : conn) : Prop := sv_alive (cn_server s) = true -> 0 < sv_held (cn_server s).
Definition flagged (s : conn) : Prop :=
  Forall (fun x => owned (fst x) = true -> snd x = true) (cn_sent s).

(** Keeps the lock, sends nothing without it, and ends in no made-up way. *)
Definition guarded {A} (m : program A) : Prop := forall s r s', m s = (r, s') ->
  locked s -> flagged s ->
  locked s' /\ flagged s' /\ cn_reusable s' = cn_reusable s /\ r <> inr FOutOfFuel.

Lemma run_body_lock l (sv : server) : sv_held (fst (run_body l sv)) = sv_held sv /\
  sv_alive (fst (run_body l sv)) = sv_alive sv.
Proof using Type. unfold run_body. by destruct (run_statements _ _ _) as [[d w] ok]. Qed.

Lemma serve_lock c (sv : server) : c <> ReleaseLock ->
  sv_held sv <= sv_held (fst (serve c sv)) /\ sv_alive (fst (serve c sv)) = sv_alive sv.
Proof using Type.
  intros Hc. destruct c; try done; cbn [MariadbMigrations.serve];
    try (repeat case_match; simpl; (split; [lia|done])).
  destruct (run_body_lock (statements sql) sv) as [-> ->]. auto.
Qed.

Lemma effect_lock e c (sv : server) : c <> ReleaseLock ->
  sv_alive (after_effect after_ddl statements e c sv) = true ->
  sv_held sv <= sv_held (after_effect after_ddl statements e c sv) /\ sv_alive sv = true.
Proof using Type.
  intros Hc. destruct e as [| |n| |o]; simpl; intros Ha; auto; try done.
  - destruct (serve_lock c sv Hc) as [H1 H2]. by rewrite <- H2.
  - destruct c; auto. destruct (run_body_lock (take n (statements sql)) sv) as [-> H].
    by rewrite <- H.
Qed.

Lemma driver_failure c s x s' : driver c s = (inr x, s') -> x <> FOutOfFuel.
Proof using Type.
  unfold MariadbMigrations.driver. destruct (sv_alive _); [|by intros [= <- _]]. cbn [negb].
  destruct (serve c (cn_server s)) as [sv ok].
  destruct (head (cn_script s)) as [[| |[] e]|]; [|destruct c| | |]; try destruct ok; intros; simplify_eq/=;
    done.
Qed.

Lemma guarded_driver c : c <> ReleaseLock -> guarded (driver c).
Proof using Type.
  intros Hc s r s' H Hl Hf. split_and!.
  - intros Ha. apply driver_ran in H as [[H|[H|(e & H)]] _]; rewrite H in *; [by apply Hl| |].
    + destruct (serve_lock c (cn_server s) Hc) as [H1 H2]. rewrite H2 in Ha. specialize (Hl Ha). lia.
    + apply effect_lock in Ha as [H1 H2]; [|done]. specialize (Hl H2). lia.
  - apply driver_ran in H as (_ & _ & [[_ ->]|[Ha Hs]]); [done|]. unfold flagged. rewrite Hs.
    apply Forall_app. split; [done|]. constructor; [|done]. intros _. simpl.
    specialize (Hl Ha). destruct (sv_held _); [lia|done].
  - by apply driver_ran in H as (_ & H & _).
  - intros ->. by apply driver_failure in H.
Qed.

Lemma guarded_ret {A} (a : A) : guarded (mret a).
Proof using Type. intros s r s' [= <- <-]. done. Qed.
Lemma guarded_throw {A} x : x <> FOutOfFuel -> guarded (throw x : program A).
Proof using Type. intros Hx s r s' [= <- <-] ??. split_and!; [done..|]. congruence. Qed.
Lemma guarded_get : guarded (get : program conn).
Proof using Type. intros s r s' [= <- <-]. done. Qed.
Lemma guarded_require b e : guarded (require b (FPython e) : program unit).
Proof using Type. destruct b; [apply guarded_ret|by apply guarded_throw]. Qed.
Lemma guarded_lift {A} (x : res A) : guarded (lift x : program A).
Proof using Type. destruct x; [apply guarded_ret|by apply guarded_throw]. Qed.

Ltac guard_split := split_and!; solve [assumption | congruence | intros [= ->]; congruence].

Lemma guarded_bind {A B} (m : program A) (f : A -> program B) :
  guarded m -> (forall a, guarded (f a)) -> guarded (m ≫= f).
Proof using Type.
  intros Hm Hf s r s' H Hl Hg. apply bind_cases in H as [(a & s1 & H1 & H2)|(x & H1 & ->)];
    destruct (Hm _ _ _ H1 Hl Hg) as (Hl1 & Hg1 & Hr1 & Hx1).
  - destruct (Hf _ _ _ _ H2 Hl1 Hg1) as (Hl2 & Hg2 & Hr2 & Hx2). guard_split.
  - guard_split.
Qed.

Lemma guarded_except {A} (m : program A) h :
  guarded m -> (forall x, x <> FOutOfFuel -> guarded (h x)) -> guarded (try_except m h).
Proof using Type.
  intros Hm Hh s r s' H Hl Hg. apply except_cases in H as [(a & H1 & ->)|(x & s1 & H1 & H2)];
    destruct (Hm _ _ _ H1 Hl Hg) as (Hl1 & Hg1 & Hr1 & Hx1); [by split_and!|].
  destruct (Hh x ltac:(congruence) _ _ _ H2 Hl1 Hg1) as (Hl2 & Hg2 & Hr2 & Hx2).
  guard_split.
Qed.

Lemma guarded_finally {A} (m : program A) f : guarded m -> guarded f -> guarded (try_finally m f).
Proof using Type.
  intros Hm Hf s r s' H Hl Hg. apply finally_cases in H as (r1 & s1 & H1 & H2).
  destruct (Hm _ _ _ H1 Hl Hg) as (Hl1 & Hg1 & Hr1 & Hx1).
  destruct H2 as [(H2 & ->)|(x & H2 & ->)];
    destruct (Hf _ _ _ H2 Hl1 Hg1) as (Hl2 & Hg2 & Hr2 & Hx2); guard_split.
Qed.

#[local] Hint Resolve guarded_ret guarded_get guarded_require guarded_lift : guards.
Ltac guarded := repeat first
  [ apply guarded_bind; [|intros] | apply guarded_finally
  | apply guarded_except; [|intros] | solve [auto with guards]
  | apply guarded_driver; done | apply guarded_throw; congruence | case_match ].

Lemma guarded_execute c : c <> ReleaseLock -> guarded (execute c).
Proof using Type. intros H. unfold MariadbMigrations.execute, close_cursor. guarded. Qed.
Lemma guarded_fetch_all {A} c (f : database -> A) : c <> ReleaseLock -> guarded (fetch_all c f).
Proof using Type. intros H. unfold MariadbMigrations.fetch_all, close_cursor. guarded. Qed.
Lemma guarded_rollback : guarded (rollback after_ddl statements).
Proof using Type. unfold rollback. guarded. Qed.
Lemma guarded_commit : guarded (commit after_ddl statements).
Proof using Type. unfold commit. guarded. Qed.
#[local] Hint Resolve guarded_execute guarded_fetch_all guarded_rollback guarded_commit : guards.

Lemma guarded_shape : guarded fetch_history_shape.
Proof using Type.
  unfold MariadbMigrations.fetch_history_shape, query_rows.
  guarded; try (apply guarded_fetch_all; done).
Qed.
Lemma guarded_history : guarded fetch_history.
Proof using Type. unfold MariadbMigrations.fetch_history. guarded; by apply guarded_fetch_all. Qed.
#[local] Hint Resolve guarded_shape guarded_history : guards.

Lemma guarded_reraise {A} (m : program A) e :
  guarded m -> guarded (reraise_after_rollback after_ddl statements m e).
Proof using Type.
  intros Hm. unfold reraise_after_rollback. guarded.
Qed.

#[local] Hint Resolve guarded_reraise : guards.

Lemma guarded_fill_rows expected rows : guarded (fill_rows after_ddl statements expected rows).
Proof using Type.
  induction rows as [|r rows IH]; simpl; [apply guarded_ret|]. apply guarded_bind; [|by intros].
  unfold fill_row. guarded; by apply guarded_execute.
Qed.
#[local] Hint Resolve guarded_fill_rows : guards.

Lemma guarded_fill_staging plan :
  guarded (fill_staging_history py_lower after_ddl statements plan).
Proof using Type.
  unfold fill_staging_history.
  guarded; (by apply guarded_fetch_all) || (by apply guarded_execute).
Qed.
#[local] Hint Resolve guarded_fill_staging : guards.

Lemma guarded_ensure plan adopt :
  guarded (ensure_v2_history py_lower after_ddl statements plan adopt).
Proof using Type.
  unfold ensure_v2_history. guarded; (by apply guarded_fetch_all) || (by apply guarded_execute).
Qed.

Lemma guarded_unit m expected :
  guarded (apply_body_and_history py_lower after_ddl statements m expected).
Proof using Type. unfold apply_body_and_history. guarded; by apply guarded_execute. Qed.
#[local] Hint Resolve guarded_ensure guarded_unit : guards.

Lemma guarded_pending plan pending : forall applied,
  guarded (apply_pending py_lower after_ddl statements plan pending applied).
Proof using Type. induction pending as [|m pending IH]; intros applied; simpl; guarded. Qed.
#[local] Hint Resolve guarded_pending : guards.

(** ** Taking and giving back the lock *)

Lemma fetch_one_value c s row s' :
  fetch_one after_ddl statements c s = (inl row, s') ->
  exists s1, driver c s = (inl row, s1) /\ cn_server s' = cn_server s1.
Proof using Type.
  intros H. apply finally_value in H as (s2 & H & Hclose).
  apply bind_value in H as (row' & s1 & H1 & H). apply bind_value in H as (x & s3 & H2 & H).
  injection H as <- <-. exists s1. split; [done|].
  apply (reader_driver Quiet eq_refl) in H2 as [_ H2].
  apply reader_close_cursor in Hclose as [_ H3].
  by rewrite (H3 _ eq_refl), (H2 _ eq_refl).
Qed.

Lemma or_raise_value {A} (m : program A) e s a s' :
  or_raise m e s = (inl a, s') -> m s = (inl a, s').
Proof using Type.
  intros H. apply except_cases in H as [(b & H1 & H2)|(x & s1 & _ & H)]; [congruence|].
  by destruct x.
Qed.

(** Programs that send nothing the migrations need the lock for. *)
Definition lock_step (s s' : conn) : Prop :=
  (flagged s -> flagged s') /\ cn_reusable s' = cn_reusable s.
#[local] Instance lock_step_preorder : PreOrder lock_step.
Proof using Type.
  split; [by intros s|]. intros s1 s2 s3 [H1 H2] [H3 H4]. split; [auto|congruence].
Qed.
#[local] Abbreviation lock_only := (moves lock_step).

Lemma lock_only_driver c : owned c = false -> lock_only (driver c).
Proof using Type.
  intros Hc s r s' H. apply driver_ran in H as (_ & Hr & [[_ ->]|[_ Hs]]); [done|].
  split; [|done]. intros Hf. unfold flagged. rewrite Hs. apply Forall_app. split; [done|].
  constructor; [|done]. simpl. by rewrite Hc.
Qed.

Lemma lock_only_fetch c e : owned c = false ->
  lock_only (or_raise (fetch_one after_ddl statements c) e).
Proof using Type.
  intros Hc. apply moves_except; [apply _| |intros []; apply moves_throw, _].
  apply moves_finally; [apply _|..];
    repeat (apply moves_bind; [apply _|by apply lock_only_driver|intros]); apply moves_ret, _.
Qed.

Lemma lock_only_rounds fuel : forall released, lock_only (release_rounds after_ddl statements fuel released).
Proof using Type.
  induction fuel as [|fuel IH]; intros released; simpl; [apply moves_throw, _|].
  apply moves_bind; [apply _|by apply lock_only_fetch|]. intros row.
  repeat case_match; [apply IH|apply moves_ret, _|apply moves_throw, _].
Qed.

Lemma or_raise_failure {A} (m : program A) e s x s' :
  or_raise m e s = (inr x, s') -> x <> FOutOfFuel.
Proof using Type.
  intros H. apply except_cases in H as [(b & _ & H2)|(y & s1 & _ & H)]; [done|].
  destruct y; by injection H as <- _.
Qed.

Lemma release_round_value e s row s' :
  or_raise (fetch_one after_ddl statements ReleaseLock) e s = (inl row, s') ->
  sv_held (cn_server s') = Nat.pred (sv_held (cn_server s)) /\
  (row = Some 1%Z <-> 0 < sv_held (cn_server s)).
Proof using Type.
  intros H. apply or_raise_value, fetch_one_value in H as (s1 & H & ->).
  apply driver_inl in H as [_ [(-> & _ & ->)|(? & _)]]; [|done]. simpl. split; [done|].
  destruct (sv_held (cn_server s)), (sv_other_holder (cn_server s)); simpl; split; (done || lia).
Qed.

(** The loop of [_release_lock] ends, and only when the lock is drained. *)
Lemma release_rounds_spec fuel : forall released s r s',
  release_rounds after_ddl statements fuel released s = (r, s') -> sv_held (cn_server s) < fuel ->
  match r with inl _ => sv_held (cn_server s') = 0 | inr x => x <> FOutOfFuel end.
Proof using Type.
  induction fuel as [|fuel IH]; intros released s r s' H Hf; [lia|]. simpl in H.
  apply bind_cases in H as [(row & s1 & H1 & H2)|(x & H1 & ->)]; [|by eapply or_raise_failure].
  apply release_round_value in H1 as [Hheld Hrow]. case_bool_decide as Hone.
  - apply IH in H2; [done|]. apply Hrow in Hone. lia.
  - assert (sv_held (cn_server s) = 0) by (destruct (decide (0 < sv_held (cn_server s))); naive_solver lia).
    destruct (_ && _); injection H2 as <- <-; [lia|done].
Qed.

Lemma acquire_lock_spec s r s' : acquire_lock after_ddl statements s = (r, s') -> flagged s ->
  flagged s' /\ cn_reusable s' = cn_reusable s /\
  match r with
  | inl true => locked s'
  | inl false => sv_held (cn_server s') = sv_held (cn_server s)
  | inr x => x <> FOutOfFuel
  end.
Proof using Type.
  intros H Hg. apply bind_cases in H as [(row & s1 & H1 & H2)|(x & H1 & ->)];
    pose proof (lock_only_fetch GetLock _ eq_refl _ _ _ H1) as [Hg1 Hr1]; specialize (Hg1 Hg);
    [|by eauto using or_raise_failure].
  apply or_raise_value, fetch_one_value in H1 as (s2 & H1 & Hs1).
  apply driver_inl in H1 as [_ [(H1 & _ & ->)|(_ & -> & H1)]].
  - simpl in H1, H2. destruct (sv_other_holder (cn_server s)); injection H2 as <- <-;
      split_and!; auto; [by rewrite Hs1, H1|].
    intros _. rewrite Hs1, H1. simpl. lia.
  - by injection H2 as <- <-.
Qed.

Lemma quiet_held s r s' : driver Quiet s = (r, s') ->
  sv_held (cn_server s') = sv_held (cn_server s) \/ sv_held (cn_server s') = 0.
Proof using Type.
  intros H. apply driver_ran in H as [[->|[->|(e & ->)]] _]; auto. destruct e; simpl; auto.
Qed.

(** A lock context around a body that behaves: its commands hold the lock, and
    the connection is declared reusable only without it. *)
Lemma migration_lock_spec {A} (body : program A) s r s' : guarded body ->
  flagged s -> cn_reusable s = false -> sv_held (cn_server s) = 0 ->
  migration_lock after_ddl statements body s = (r, s') ->
  flagged s' /\ (cn_reusable s' = true -> sv_held (cn_server s') = 0) /\ r <> inr FOutOfFuel.
Proof using Type.
  intros Hbody Hg Hr Hh H.
  apply bind_cases in H as [(acquired & s1 & H1 & H2)|(x & H1 & ->)];
    apply acquire_lock_spec in H1 as (Hg1 & Hr1 & H1); [|done| |done];
    [|split_and!; [done|congruence|congruence]].
  destruct acquired; simpl in H2.
  - apply finally_cases in H2 as (rb & s2 & Hb & Hrel).
    destruct (Hbody _ _ _ Hb H1 Hg1) as (Hl2 & Hg2 & Hr2 & Hx2).
    assert (Hexit : forall re s3, (_ ← release_lock after_ddl statements; _ ← modify (set_reusable true);
        _ ← driver Quiet; mret tt) s2 = (re, s3) ->
      flagged s3 /\ (cn_reusable s3 = true -> sv_held (cn_server s3) = 0) /\ re <> inr FOutOfFuel).
    { intros re s3 H. apply bind_cases in H as [([] & s4 & H4 & H)|(x & H4 & ->)];
        pose proof (lock_only_rounds _ _ _ _ _ H4) as [Hg4 Hr4]; specialize (Hg4 Hg2);
        apply release_rounds_spec in H4; [|lia| |lia].
      2: { split_and!; [done|congruence|congruence]. }
      apply bind_cases in H as [([] & s5 & H5 & H)|(x & H5 & _)]; [|done]. injection H5 as <-.
      apply bind_cases in H as [(y & s6 & H6 & H)|(x & H6 & ->)];
        [injection H as <- <-|]; pose proof (quiet_held _ _ _ H6) as Hq; simpl in Hq;
        pose proof (lock_only_driver Quiet eq_refl _ _ _ H6) as [Hg6 _]; specialize (Hg6 Hg4);
        (split_and!; [done|destruct Hq; congruence|]); [done|].
      apply driver_failure in H6. congruence. }
    destruct Hrel as [(Hrel & ->)|(x & Hrel & ->)]; apply Hexit in Hrel as (? & ? & ?); split_and!; auto.
    congruence.
  - injection H2 as <- <-. split_and!; [done| |done]. simpl. congruence.
Qed.

End facts.
