(* ===== verification/MariadbMigrationProps.v ===== *)
(** * Properties of the MariaDB migration runner

    What [mariadb/migrations.py] promises about the recorded history and the
    bodies, for every script of answers, and that an undisturbed call ends well. *)

From S2P Require Export MariadbMigrationFacts.

Section properties.
Context `{U : unicode} {W : Type}.
Context (py_lower : utext -> utext) (after_ddl : ddl -> catalog -> catalog).
Context (statements : utext -> list (database (W := W) -> option (bool * database (W := W)))).

#[local] Abbreviation database := (@database W).
#[local] Abbreviation conn := (@conn W).
#[local] Abbreviation server := (@server W).
#[local] Abbreviation program := (@program W).
#[local] Abbreviation driver := (driver after_ddl statements).
#[local] Abbreviation execute := (execute after_ddl statements).
#[local] Abbreviation fetch_history := (fetch_history after_ddl statements).
#[local] Abbreviation fetch_history_shape := (fetch_history_shape py_lower after_ddl statements).
#[local] Abbreviation reraise := (reraise_after_rollback after_ddl statements).
#[local] Abbreviation apply_unit := (apply_body_and_history py_lower after_ddl statements).
#[local] Abbreviation apply_pending := (apply_pending py_lower after_ddl statements).
#[local] Abbreviation apply := (apply_mariadb_migrations py_lower after_ddl statements).

(** ** What the history says *)

Definition shape_of (db : database) : shape := history_shape py_lower (db_catalog db).

(** The first [n] migrations are recorded, in a table of the final shape. *)
Definition recorded (plan : list migration) (n : nat) (db : database) : Prop :=
  n <= length plan /\ shape_of db = V2 /\
  decode_history db = Ok (map history_record (take n plan)).

Definition add_row (m : migration) (bytes : list Z) (now : utext) (db : database) : database :=
  map_rows (fun rows => rows ++ [HistoryRow bytes now (Some (mig_position m)) (Some (u (mig_checksum m)))])
    db.

(** From [db], the bodies [n], ..., [n' - 1] ran to the end, each once, in
    order, and each with its row. *)
Inductive units (plan : list migration) (n : nat) (db : database) : nat -> database -> Prop :=
  | units_none : units plan n db n db
  | units_one k db1 m durable working bytes now :
      units plan n db k db1 -> plan !! k = Some m ->
      run_statements (statements (mig_sql m)) db1 (Some db1) = (durable, working, true) ->
      utf8 (mig_name m) = Some bytes ->
      units plan n db (S k) (add_row m bytes now (default durable working)).

(** The bodies leave the history table alone. *)
Definition keeps_history (plan : list migration) : Prop :=
  forall m f db b db', m ∈ plan -> f ∈ statements (mig_sql m) -> f db = Some (b, db') ->
  db_catalog db' = db_catalog db /\ db_rows db' = db_rows db.

(** The bodies have no statement that commits implicitly. *)
Definition transactional (plan : list migration) : Prop :=
  forall m f db db', m ∈ plan -> f ∈ statements (mig_sql m) -> f db <> Some (true, db').

(** INFORMATION_SCHEMA reports the history table as it was declared. *)
Definition reports_declared : Prop :=
  (forall c, cat_tables c = [] -> history_shape py_lower (after_ddl CreateHistory c) = V2) /\
  (forall c, history_shape py_lower c = V1 ->
     history_shape py_lower (after_ddl AddStagingColumns c) = StagingShape) /\
  (forall c, history_shape py_lower c = StagingShape ->
     history_shape py_lower (after_ddl FinalizeStaging c) = V2).

(** ** One migration *)

Lemma recorded_same plan n (db db' : database) :
  db_catalog db' = db_catalog db -> db_rows db' = db_rows db ->
  recorded plan n db -> recorded plan n db'.
Proof using Type.
  intros Hc Hr. unfold recorded, shape_of, decode_history. by rewrite Hc, Hr.
Qed.

(** However far a body gets, the history is as before, in both versions of the
    database. *)
Lemma run_statements_same (l : list (database -> option (bool * database))) (db : database) : forall d w d' w' ok,
  (forall f (x : database) b x', f ∈ l -> f x = Some (b, x') ->
     db_catalog x' = db_catalog x /\ db_rows x' = db_rows x) ->
  run_statements l d w = (d', w', ok) ->
  db_catalog d = db_catalog db -> db_rows d = db_rows db ->
  db_catalog (default d w) = db_catalog db -> db_rows (default d w) = db_rows db ->
  db_catalog d' = db_catalog db /\ db_rows d' = db_rows db.
Proof using Type.
  induction l as [|f l IH]; intros d w d' w' ok Hl H H1 H2 H3 H4; simpl in H; [by simplify_eq|].
  destruct (f (default d w)) as [[b x]|] eqn:Hf; [|by simplify_eq].
  destruct (Hl f _ _ _ ltac:(by left) Hf) as [Hc Hr].
  destruct b; (eapply IH; [|done|simpl; congruence..]; intros; eapply Hl; [by right|done]).
Qed.

(** ... and after the last statement in what the connection sees. *)
Lemma run_statements_full_same (l : list (database -> option (bool * database))) (db : database) d' w' :
  (forall f (x : database) b x', f ∈ l -> f x = Some (b, x') ->
     db_catalog x' = db_catalog x /\ db_rows x' = db_rows x) ->
  run_statements l db (Some db) = (d', w', true) ->
  db_catalog (default d' w') = db_catalog db /\ db_rows (default d' w') = db_rows db.
Proof using Type.
  intros Hl. assert (Hgen : forall d w, db_catalog (default d w) = db_catalog db ->
    db_rows (default d w) = db_rows db -> run_statements l d w = (d', w', true) ->
    db_catalog (default d' w') = db_catalog db /\ db_rows (default d' w') = db_rows db); [|by apply Hgen].
  induction l as [|f l IH]; intros d w Hc Hr H; simpl in H; [by simplify_eq|].
  destruct (f (default d w)) as [[b x]|] eqn:Hf; [|by simplify_eq].
  destruct (Hl f _ _ _ ltac:(by left) Hf) as [Hcx Hrx].
  destruct b; (eapply IH; [..|done]; [intros; eapply Hl; [by right|done]|simpl; congruence..]).
Qed.

Lemma run_statements_durable (l : list (database -> option (bool * database))) : forall d w d' w' ok,
  (forall f x x', f ∈ l -> f x <> Some (true, x')) ->
  run_statements l d w = (d', w', ok) -> d' = d.
Proof using Type.
  induction l as [|f l IH]; intros d w d' w' ok Hl H; simpl in H; [by simplify_eq|].
  destruct (f (default d w)) as [[[] x]|] eqn:Hf; [|eapply IH; [|done]|by simplify_eq].
  - exfalso. by eapply (Hl f); [left|].
  - intros. apply Hl. by right.
Qed.
(** What any answer to a command leaves of the data. *)
Lemma driver_data c s r s' : driver c s = (r, s') ->
  dropped s s' \/ cn_server s' = fst (serve after_ddl statements c (cn_server s)) \/
  exists n sql, c = Body sql /\ cn_server s' = fst (run_body (take n (statements sql)) (cn_server s)).
Proof using Type.
  intros H. apply driver_ran in H as [[H|[H|(e & H)]] _]; [|by auto|].
  - left. unfold dropped, durable, working. rewrite H. auto.
  - unfold dropped, durable, working. rewrite H. destruct e as [| |n| |o]; simpl; auto.
    destruct c; auto. right; right. eauto.
Qed.

Lemma execute_data c s r s' : execute c s = (r, s') ->
  exists r1 s1, driver c s = (r1, s1) /\ dropped s1 s' /\
    (r = inl tt -> (exists a, r1 = inl a) /\ cn_server s' = cn_server s1).
Proof using Type.
  intros H. apply finally_cases in H as (r2 & s1 & H1 & H2).
  assert (Hd : exists r1, driver c s = (r1, s1) /\ (r2 = inl tt -> exists a, r1 = inl a)).
  { apply bind_cases in H1 as [(a & s2 & H1 & H3)|(x & H1 & ->)]; [injection H3 as <- <-|]; eauto.
    by exists (inr x). }
  destruct Hd as (r1 & Hd & Hr1). exists r1, s1. split; [done|].
  destruct H2 as [(H2 & ->)|(x & H2 & ->)]; apply reader_close_cursor in H2 as [Hdrop Hs];
    (split; [done|]); [|done]. intros ->. eauto.
Qed.

Lemma dropped_durable (s s' : conn) : dropped s s' -> durable s' = durable s.
Proof using Type. by intros []. Qed.

Lemma quiet_data s r s' : driver Quiet s = (r, s') ->
  dropped s s' /\ (forall a, r = inl a -> cn_server s' = cn_server s).
Proof using Type. by apply reader_driver. Qed.

Lemma rollback_data s r s' : rollback after_ddl statements s = (r, s') ->
  durable s' = durable s /\ (r = inl tt -> working s' = None).
Proof using Type.
  intros H. apply bind_cases in H as [(a & s1 & H1 & H)|(x & H1 & ->)].
  - pose proof H1 as H1'. apply driver_inl in H1' as [_ [(Hs1 & _)|(? & _)]]; [|done].
    apply bind_cases in H as [(b & s2 & H2 & H)|(x & H2 & ->)]; [injection H as <- <-|];
      apply quiet_data in H2 as [[Hd Hw] Hs2]; unfold durable, working in *; rewrite Hs1 in *;
      simpl in *; (split; [done|]); [|done]. intros _. by destruct Hw.
  - split; [|done]. apply driver_data in H1 as [[Hd _]|[Hs|(n & sql & ? & _)]]; [done| |done].
    unfold durable. by rewrite Hs.
Qed.

Lemma commit_data s r s' : commit after_ddl statements s = (r, s') ->
  (durable s' = durable s \/ durable s' = seen s) /\
  (r = inl tt -> durable s' = seen s /\ working s' = None).
Proof using Type.
  intros H. apply bind_cases in H as [(a & s1 & H1 & H)|(x & H1 & ->)].
  - apply driver_inl in H1 as [_ [(Hs1 & _)|(? & _)]]; [|done].
    apply bind_cases in H as [(b & s2 & H2 & H)|(x & H2 & ->)]; [injection H as <- <-|];
      apply quiet_data in H2 as [[Hd Hw] Hs2]; unfold durable, working in *; rewrite Hs1 in *;
      simpl in *; (split; [auto|]); [|done]. intros _. split; [done|]. by destruct Hw.
  - split; [|done]. apply driver_data in H1 as [[Hd _]|[Hs|(n & sql & ? & _)]]; [auto| |done].
    unfold durable. rewrite Hs. auto.
Qed.

Lemma reraise_data {A} (m : program A) e s r s' : reraise m e s = (r, s') ->
  (exists a, m s = (inl a, s') /\ r = inl a) \/
  (exists x y s1, m s = (inr x, s1) /\ durable s' = durable s1 /\ r = inr y).
Proof using Type.
  intros H. apply except_cases in H as [(a & H & ->)|(x & s1 & H1 & H)]; [eauto|]. right.
  apply bind_cases in H as [([] & s2 & H2 & H)|(y & H2 & ->)]; apply rollback_data in H2 as [Hd _].
  - assert (exists y, r = inr y /\ s' = s2) as (y & -> & ->)
      by (destruct x, e; injection H as <- <-; eauto). eauto 6.
  - eauto 6.
Qed.

(** [BEGIN] with nothing uncommitted. *)
Lemma begin_data s r s' : driver Begin s = (r, s') -> seen s = durable s ->
  durable s' = durable s /\
  (forall a, r = inl a -> cn_server s' = with_data (durable s) (Some (durable s)) (cn_server s)).
Proof using Type.
  intros H Hseen. split.
  - apply driver_data in H as [[Hd _]|[Hs|(n & sql & ? & _)]]; [done| |done].
    unfold durable. rewrite Hs. done.
  - intros a ->. apply driver_inl in H as [_ [(Hs & _)|(? & _)]]; [|done]. rewrite Hs. simpl.
    unfold seen in Hseen. by rewrite Hseen.
Qed.

Lemma run_body_data l (sv : server) durable working ok :
  run_statements l (sv_durable sv) (sv_working sv) = (durable, working, ok) ->
  run_body l sv = (with_data durable working sv, ok).
Proof using Type. intros H. unfold run_body. by rewrite H. Qed.

(** A body from just after [BEGIN]. *)
Lemma body_data sql s r s' (P : database -> Prop) :
  execute (Body sql) s = (r, s') -> working s = Some (durable s) -> P (durable s) ->
  (forall k d w ok, run_statements (take k (statements sql)) (durable s) (Some (durable s)) = (d, w, ok) ->
     P d) ->
  P (durable s') /\
  (r = inl tt -> run_statements (statements sql) (durable s) (Some (durable s)) =
                   (durable s', working s', true)).
Proof using Type.
  intros H Hw HP Hall.
  assert (Hrun : forall k sv ok, run_body (take k (statements sql)) (cn_server s) = (sv, ok) ->
    run_statements (take k (statements sql)) (durable s) (Some (durable s)) =
      (sv_durable sv, sv_working sv, ok)).
  { intros k sv ok Hb. unfold run_body in Hb. fold (durable s) in Hb. fold (working s) in Hb.
    rewrite Hw in Hb. destruct (run_statements _ _ _) as [[d w] o]. by injection Hb as <- <-. }
  assert (Hfull : take (length (statements sql)) (statements sql) = statements sql)
    by (apply take_ge; lia).
  apply execute_data in H as (r1 & s1 & H1 & [Hd _] & Hr). split.
  - rewrite Hd. apply driver_data in H1 as [[Hs1 _]|[Hs1|(n & sql' & [= <-] & Hs1)]].
    + by rewrite Hs1.
    + unfold durable at 1. rewrite Hs1. simpl. rewrite <- Hfull.
      destruct (run_body _ _) as [sv ok] eqn:Hb. by eapply Hall, Hrun.
    + unfold durable at 1. rewrite Hs1. destruct (run_body _ _) as [sv ok] eqn:Hb.
      by eapply Hall, Hrun.
  - intros Hri. destruct (Hr Hri) as [(a & ->) Hs']. apply driver_inl in H1 as [_ [(Hs1 & Hok & _)|(? & _)]];
      [|done]. simpl in Hs1, Hok. rewrite <- Hfull in Hs1, Hok.
    destruct (run_body _ _) as [sv ok] eqn:Hb. apply Hrun in Hb. rewrite Hfull in Hb. simpl in Hs1, Hok.
    subst ok. unfold durable at 3. unfold working. by rewrite Hs', Hs1.
Qed.

(** The history row of a migration. *)
Lemma insert_data m bytes s r s' :
  execute (InsertHistory (mig_position m) bytes (u (mig_checksum m))) s = (r, s') ->
  durable s' = durable s /\
  (r = inl tt -> working s' = Some (add_row m bytes (sv_now (cn_server s)) (seen s))).
Proof using Type.
  intros H. apply execute_data in H as (r1 & s1 & H1 & [Hd _] & Hr). split.
  - rewrite Hd. apply driver_data in H1 as [[Hs1 _]|[Hs1|(n & sql' & ? & _)]]; [done| |done].
    unfold durable. rewrite Hs1. simpl. by destruct (_ && _).
  - intros Hri. destruct (Hr Hri) as [(a & ->) Hs']. apply driver_inl in H1 as [_ [(Hs1 & Hok & _)|(? & _)]];
      [|done]. simpl in Hs1, Hok. unfold working. rewrite Hs', Hs1. by destruct (_ && _).
Qed.

Lemma well_formed_prefix plan n : well_formed_plan plan -> well_formed_plan (take n plan).
Proof using Type.
  intros Hwf. split; [|by apply well_formed_take]. destruct Hwf as [Hwf _].
  intros k m Hm. apply lookup_take_Some in Hm as [Hm _]. by apply Hwf.
Qed.

Lemma slice_position plan n m : well_formed_plan plan -> plan !! n = Some m ->
  take (Z.to_nat (mig_position m)) plan = take (S n) plan.
Proof using Type. intros [Hwf _] Hm. destruct (Hwf _ _ Hm) as [-> _]. f_equal. lia. Qed.

Lemma validated_full plan history : well_formed_plan plan ->
  validate_history_prefix history plan true 0 = Ok tt -> history = map history_record plan.
Proof using Type.
  intros Hwf [H Hlen]%history_prefix_exact; [|done]. by rewrite Hlen, firstn_all in H.
Qed.

Section one_plan.
Context (plan : list migration) (Hwf : well_formed_plan plan) (Hkeeps : keeps_history plan).
Context (n0 : nat) (db0 : database).

(** A database reached after the first [n] migrations. *)
Definition reached (n : nat) (db : database) : Prop :=
  recorded plan n db /\ (transactional plan -> units plan n0 db0 n db).

Lemma reached_during n m d k d' w ok : plan !! n = Some m -> reached n d ->
  run_statements (take k (statements (mig_sql m))) d (Some d) = (d', w, ok) -> reached n d'.
Proof using Hkeeps.
  intros Hm [Hr Hu] H. assert (Hin : m ∈ plan) by (by eapply list_elem_of_lookup_2).
  assert (Hsub : forall f, f ∈ take k (statements (mig_sql m)) -> f ∈ statements (mig_sql m)).
  { intros f (i & Hf)%list_elem_of_lookup. apply lookup_take_Some in Hf as [Hf _].
    by eapply list_elem_of_lookup_2. }
  split.
  - eapply run_statements_same in H as [Hc Hrows]; [eapply recorded_same; [done..|exact Hr]| |done..].
    intros f x b x' Hf. by apply (Hkeeps m), Hsub.
  - intros Ht. apply run_statements_durable in H as ->; [by apply Hu|].
    intros f x x' Hf. by apply (Ht m), Hsub.
Qed.

Lemma recorded_follows plan' db history : length plan' <= length plan ->
  plan' = take (length plan') plan ->
  shape_of db = V2 -> decode_history db = Ok history ->
  validate_history_prefix history plan' true 0 = Ok tt ->
  recorded plan (length plan') db.
Proof using Hwf.
  intros Hlen Hp Hs Hd Hv. apply validated_full in Hv as ->.
  - split_and!; [done..|]. by rewrite Hd, <- Hp.
  - rewrite Hp. by apply well_formed_prefix.
Qed.

(** Everything after the body, up to the commit. *)
Definition record_stage (m : migration) (expected : list migration) : program unit :=
  name ← lift (encode_utf8 (mig_name m));
  _ ← execute (InsertHistory (mig_position m) name (u (mig_checksum m)));
  shape ← fetch_history_shape;
  _ ← require (bool_decide (shape = V2))
        (FPython (Exn MigrationHistoryError
           "migration changed the owned Migration History schema"));
  history ← fetch_history;
  _ ← lift (validate_history_prefix history expected true 0);
  commit after_ddl statements.

(** It commits nothing but the data it found with one more row, and only if the
    table then says exactly what is expected. *)
Lemma record_commits n m s r s' : plan !! n = Some m ->
  record_stage m (take (S n) plan) s = (r, s') ->
  let committed := fun x => exists bytes now, utf8 (mig_name m) = Some bytes /\
    x = add_row m bytes now (seen s) /\ recorded plan (S n) x in
  (durable s' = durable s \/ committed (durable s')) /\
  (r = inl tt -> committed (durable s') /\ working s' = None).
Proof using Hwf.
  intros Hm H committed. pose proof (lookup_lt_Some _ _ _ Hm) as Hlt.
  assert (Hstay : forall s3 x, durable s3 = durable s -> r = inr x ->
    (durable s3 = durable s \/ committed (durable s3)) /\
    (r = inl tt -> committed (durable s3) /\ working s3 = None)).
  { intros s3 x Hs3 ->. split; [by left|done]. }
  apply bind_cases in H as [(bytes & s1 & H1 & H)|(x & H1 & ->)].
  2: { eapply Hstay; [|done]. by destruct (encode_utf8 _); injection H1 as _ <-. }
  apply lift_value in H1 as [Henc ->].
  apply bind_cases in H as [([] & s1 & H1 & H)|(x & H1 & ->)]; apply insert_data in H1 as [Hd1 Hw1];
    [|by eapply Hstay]. specialize (Hw1 eq_refl).
  apply bind_cases in H as [(sh & s2 & H2 & H)|(x & H2 & ->)].
  2: { apply reader_shape in H2 as [[Hd2 _] _]. eapply Hstay; [congruence|done]. }
  apply shape_value in H2 as [-> Hs2].
  assert (Hsame2 : durable s2 = durable s) by (unfold durable in *; by rewrite Hs2).
  apply bind_cases in H as [([] & s3 & H3 & H)|(x & H3 & ->)].
  2: { apply require_cases in H3 as [-> _]. by eapply Hstay. }
  apply require_value in H3 as [Hshape%bool_decide_eq_true ->].
  apply bind_cases in H as [(history & s3 & H3 & H)|(x & H3 & ->)].
  2: { apply reader_history in H3 as [[Hd3 _] _]. eapply Hstay; [congruence|done]. }
  apply history_value in H3 as [Hdec Hs3].
  apply bind_cases in H as [([] & s4 & H4 & H)|(x & H4 & ->)].
  2: { assert (s' = s3) as -> by (by destruct (validate_history_prefix _ _ _ _); injection H4 as _ <-).
       eapply Hstay; [|done]. unfold durable in *. congruence. }
  apply lift_value in H4 as [Hval ->]. apply commit_data in H as [Hany Hok].
  assert (Hseen1 : seen s1 = add_row m bytes (sv_now (cn_server s)) (seen s))
    by (unfold seen at 1, current; fold (working s1); by rewrite Hw1).
  assert (Hx : committed (seen s3)).
  { exists bytes, (sv_now (cn_server s)). split_and!.
    - unfold encode_utf8 in Henc. by destruct (utf8 _); simplify_eq/=.
    - unfold seen in *. congruence.
    - assert (Hl : length (take (S n) plan) = S n) by (rewrite length_take; lia).
      assert (Hc : seen s3 = seen s1) by (unfold seen in *; congruence).
      assert (Hc2 : seen s2 = seen s1) by (unfold seen in *; congruence).
      rewrite <- Hl, Hc. rewrite Hc2 in Hdec.
      by eapply recorded_follows; [lia|rewrite Hl|..]. }
  split.
  - destruct Hany as [Hd | ->]; [left|by right].
    unfold durable in *. by rewrite Hd, Hs3, Hsame2.
  - intros Hri. by destruct (Hok Hri) as [-> Hw'].
Qed.

Lemma record_spec n m (d : database) d1 w1 s r s' : plan !! n = Some m -> reached n d -> reached n d1 ->
  run_statements (statements (mig_sql m)) d (Some d) = (d1, w1, true) ->
  durable s = d1 -> working s = w1 -> record_stage m (take (S n) plan) s = (r, s') ->
  (reached n (durable s') \/ reached (S n) (durable s')) /\
  (r = inl tt -> reached (S n) (durable s') /\ working s' = None).
Proof using Hwf Hkeeps.
  intros Hm Hr Hr1 Hrun Hd Hw H. destruct (record_commits _ _ _ _ _ Hm H) as [Hany Hok].
  assert (Hnext : forall x, (exists bytes now, utf8 (mig_name m) = Some bytes /\
      x = add_row m bytes now (seen s) /\ recorded plan (S n) x) -> reached (S n) x).
  { intros x (bytes & now & Hb & -> & Hrec). split; [done|]. intros Ht.
    unfold seen, current. fold (durable s) (working s). rewrite Hd, Hw.
    eapply units_one; [by apply Hr|done|exact Hrun|done]. }
  split.
  - destruct Hany as [-> |Hc]; [left; by rewrite Hd|right; by apply Hnext].
  - intros Hri. destruct (Hok Hri) as [Hc ->]. split; [by apply Hnext|done].
Qed.

Lemma unit_spec n m s r s' : seen s = durable s -> reached n (durable s) -> plan !! n = Some m ->
  apply_unit m (take (Z.to_nat (mig_position m)) plan) s = (r, s') ->
  (reached n (durable s') \/ reached (S n) (durable s')) /\
  (r = inl tt -> reached (S n) (durable s') /\ working s' = None).
Proof using Hwf Hkeeps.
  intros Hseen Hr Hm H. rewrite (slice_position plan n m) in H by done.
  apply bind_cases in H as [(a & s1 & H1 & H)|(x & H1 & ->)];
    apply begin_data in H1 as [Hd1 Hs1]; [|done| |done]; [|by rewrite Hd1; split; [left|]].
  specialize (Hs1 _ eq_refl).
  assert (Hbody : forall rb s2, execute (Body (mig_sql m)) s1 = (rb, s2) ->
    reached n (durable s2) /\ (rb = inl tt -> run_statements (statements (mig_sql m)) (durable s)
                                  (Some (durable s)) = (durable s2, working s2, true))).
  { intros rb s2 H2. rewrite <- Hd1. apply (body_data (mig_sql m)); [done| |by rewrite Hd1|].
    - unfold working. rewrite Hs1, Hd1. done.
    - intros k d w ok. rewrite Hd1. by apply reached_during. }
  apply bind_cases in H as [([] & s2 & H2 & H)|(x & H2 & ->)];
    apply reraise_data in H2 as [(b & H2 & Hb)|(x' & y & s3 & H2 & Hd & Hx)]; try done;
    apply Hbody in H2 as [Hr2 Hrun]; [|by subst; rewrite Hd; split; [left|]].
  injection Hb as <-. specialize (Hrun eq_refl).
  apply reraise_data in H as [([] & H & ->)|(x' & y & s3 & H & Hd & ->)];
    destruct (record_spec _ _ _ _ _ _ _ _ Hm Hr Hr2 Hrun eq_refl eq_refl H) as [Hany Hok]; [done|].
  by rewrite Hd.
Qed.

Lemma pending_spec k : forall n applied s r s',
  length plan - n = k -> n <= length plan -> seen s = durable s -> reached n (durable s) ->
  apply_pending plan (drop n plan) applied s = (r, s') ->
  (exists n', n <= n' /\ reached n' (durable s')) /\
  (forall l, r = inl l -> l = applied ++ map mig_name (drop n plan) /\
     reached (length plan) (durable s') /\ (working s = None -> working s' = None)).
Proof using Hwf Hkeeps.
  induction k as [|k IH]; intros n applied s r s' Hk Hn Hseen Hr H.
  - rewrite drop_ge in H by lia. injection H as <- <-. split; [eauto|].
    intros l [= <-]. rewrite drop_ge by lia. rewrite app_nil_r.
    by replace (length plan) with n by lia.
  - destruct (lookup_lt_is_Some_2 plan n) as (m & Hm); [lia|].
    rewrite (drop_S _ _ _ Hm) in H. simpl in H.
    apply bind_cases in H as [([] & s1 & H1 & H)|(x & H1 & ->)];
      eapply unit_spec in H1 as [Hany Hok]; try done.
    + destruct (Hok eq_refl) as [Hr1 Hw1].
      apply IH in H as [(n' & Hn' & Hr') Hl]; [|lia|lia| |done].
      * split; [exists n'; split; [lia|done]|]. intros l Hl'. destruct (Hl l Hl') as (-> & Hlast & Hwork).
        rewrite (drop_S _ _ _ Hm). simpl. rewrite <- app_assoc. auto.
      * unfold seen, current. fold (working s1). by rewrite Hw1.
    + split; [|done]. destruct Hany; eauto.
Qed.
End one_plan.

(** ** The history table at the start of a call *)

Lemma ddl_data d s r s' : execute (Ddl d) s = (r, s') ->
  (r = inl tt -> run_ddl after_ddl d (seen s) = Some (durable s') /\ working s' = None) /\
  (seen s = durable s -> durable s' = durable s \/ run_ddl after_ddl d (durable s) = Some (durable s')).
Proof using Type.
  intros H. apply execute_data in H as (r1 & s1 & H1 & [Hd _] & Hr). split.
  - intros Hri. destruct (Hr Hri) as [(a & ->) Hs']. apply driver_inl in H1 as [_ [(Hs1 & Hok & _)|(? & _)]];
      [|done]. simpl in Hs1, Hok. unfold durable, working, seen. rewrite Hs', Hs1.
    by destruct (run_ddl _ _ _).
  - intros Hseen. rewrite Hd. apply driver_data in H1 as [[Hs1 _]|[Hs1|(n & sql & ? & _)]]; [auto| |done].
    unfold durable at 1 4. rewrite Hs1. simpl. fold (seen s). rewrite Hseen.
    destruct (run_ddl _ _ _); simpl; auto.
Qed.

Lemma unchanged_seen (s s' : conn) : cn_server s' = cn_server s -> seen s = durable s -> seen s' = durable s'.
Proof using Type. intros H. unfold seen, durable. by rewrite H. Qed.
Lemma closed_seen (s : conn) : working s = None -> seen s = durable s.
Proof using Type. unfold seen, current, working. by intros ->. Qed.

Lemma fill_staging_clean plan (s : conn) b s' :
  fill_staging_history py_lower after_ddl statements plan s = (inl b, s') ->
  seen s' = durable s' /\ shape_of (durable s') = V2.
Proof using Type.
  intros H. apply bind_value in H as (rows & s1 & _ & H). apply bind_value in H as (names & s2 & _ & H).
  apply bind_value in H as (k & s3 & _ & H). apply bind_value in H as ([] & s4 & _ & H).
  apply bind_value in H as ([] & s5 & _ & H). apply bind_value in H as ([] & s6 & H6 & H).
  apply ddl_data in H6 as [H6 _]. destruct (H6 eq_refl) as [_ Hw]. apply closed_seen in Hw.
  apply bind_value in H as (sh & s7 & H7 & H). apply shape_value in H7 as [-> Hs7].
  apply bind_value in H as ([] & s8 & H8 & H). apply require_value in H8 as [Hv%bool_decide_eq_true ->].
  injection H as _ <-. apply (unchanged_seen _ _ Hs7) in Hw as Hw'. split; [done|].
  rewrite <- Hw'. unfold seen. by rewrite Hs7.
Qed.

Lemma ensure_clean plan adopt (s : conn) b s' : seen s = durable s ->
  ensure_v2_history py_lower after_ddl statements plan adopt s = (inl b, s') ->
  seen s' = durable s' /\ shape_of (durable s') = V2.
Proof using Type.
  intros Hseen H. apply bind_value in H as (sh & s1 & H1 & H). apply shape_value in H1 as [-> Hs1].
  apply (unchanged_seen _ _ Hs1) in Hseen as Hseen1.
  destruct (history_shape _ _) eqn:Hshape.
  - apply bind_value in H as ([] & s2 & H2 & H). apply ddl_data in H2 as [H2 _].
    destruct (H2 eq_refl) as [_ Hw]. apply closed_seen in Hw.
    apply bind_value in H as (sh & s3 & H3 & H). apply shape_value in H3 as [-> Hs3].
    apply bind_value in H as ([] & s4 & H4 & H). apply require_value in H4 as [Hv%bool_decide_eq_true ->].
    injection H as _ <-. apply (unchanged_seen _ _ Hs3) in Hw as Hw'. split; [done|].
    rewrite <- Hw'. unfold seen. by rewrite Hs3.
  - by apply fill_staging_clean in H.
  - done.
  - apply bind_value in H as (rows & s2 & _ & H). apply bind_value in H as (names & s3 & _ & H).
    apply bind_value in H as ([] & s4 & _ & H). apply bind_value in H as (k & s5 & _ & H).
    apply bind_value in H as ([] & s6 & _ & H). by apply fill_staging_clean in H.
  - injection H as _ <-. split; [done|]. rewrite <- Hseen1. unfold shape_of, seen. by rewrite Hs1.
Qed.

(** A database without history, or with the first [n] migrations recorded. *)
Definition starts (plan : list migration) (n : nat) (db : database) : Prop :=
  recorded plan n db \/ (cat_tables (db_catalog db) = [] /\ n = 0).

Definition created (db : database) : database :=
  Database (after_ddl CreateHistory (db_catalog db)) [] (db_world db).

Lemma created_recorded plan (db : database) : reports_declared -> cat_tables (db_catalog db) = [] ->
  recorded plan 0 (created db).
Proof using Type. intros (H & _) Ht. split_and!; [lia|by apply H|done]. Qed.

Lemma absent_tables c : history_shape py_lower c = Absent -> cat_tables c = [].
Proof using Type.
  unfold history_shape. destruct (cat_tables c) as [|t l]; [done|].
  intros H. exfalso. revert H. repeat case_match; discriminate.
Qed.

Lemma ensure_starts plan n adopt (s : conn) r s' : reports_declared -> starts plan n (durable s) ->
  seen s = durable s ->
  ensure_v2_history py_lower after_ddl statements plan adopt s = (r, s') ->
  durable s' = durable s \/
  (cat_tables (db_catalog (durable s)) = [] /\ durable s' = created (durable s)).
Proof using Type.
  intros Hrep Hst Hseen H. apply bind_cases in H as [(sh & s1 & H1 & H)|(x & H1 & ->)].
  2: { left. by apply reader_shape in H1 as [[H1 _] _]. }
  apply shape_value in H1 as [-> Hs1].
  assert (Hd1 : durable s1 = durable s) by (unfold durable; by rewrite Hs1).
  rewrite Hseen in H. apply (unchanged_seen _ _ Hs1) in Hseen as Hseen1.
  destruct Hst as [(_ & Hv & _)|[Ht _]].
  { unfold shape_of in Hv. rewrite Hv in H. injection H as <- <-. by left. }
  assert (Ha : history_shape py_lower (db_catalog (durable s)) = Absent)
    by (unfold history_shape; by rewrite Ht). rewrite Ha in H.
  assert (Hddl : forall s2 r2, execute (Ddl CreateHistory) s1 = (r2, s2) ->
    durable s2 = durable s \/ durable s2 = created (durable s)).
  { intros s2 r2 H2. apply ddl_data in H2 as [_ H2]. destruct (H2 Hseen1) as [->|H2']; [by left|right].
    unfold run_ddl in H2'. rewrite Hd1 in H2'. case_match; [|done]. by injection H2' as <-. }
  assert (Hgoal : forall d, d = durable s \/ d = created (durable s) -> d = durable s \/
    cat_tables (db_catalog (durable s)) = [] /\ d = created (durable s)) by naive_solver.
  apply Hgoal. apply bind_cases in H as [([] & s2 & H2 & H)|(x & H2 & ->)]; apply Hddl in H2; [|done].
  assert (Hrest : durable s' = durable s2); [|by rewrite Hrest].
  apply bind_cases in H as [(sh & s3 & H3 & H)|(x & H3 & ->)];
    apply reader_shape in H3 as [[H3 _] _]; [|done].
  rewrite <- H3. apply bind_cases in H as [([] & s4 & H4 & H)|(x & H4 & ->)];
    apply require_cases in H4 as [-> _]; [injection H as <- <-|]; done.
Qed.

(** ** Under the lock *)

#[local] Instance dropped_preorder : PreOrder (dropped (W := W)).
Proof using Type. split; [exact dropped_refl|exact dropped_trans]. Qed.

Lemma dropped_seen (s s' : conn) : dropped s s' -> seen s = durable s -> seen s' = durable s'.
Proof using Type.
  unfold dropped, seen, durable, working, current. intros [Hd [Hw|Hw]]; by rewrite Hw, Hd.
Qed.

Lemma lock_driver_still c : owned c = false -> moves dropped (driver c).
Proof using Type.
  intros Hc s r s' H. apply driver_data in H as [H|[Hs|(n & sql & -> & _)]]; [done| |done].
  unfold dropped, durable, working. rewrite Hs.
  destruct c; try discriminate Hc; simpl; auto. by destruct (sv_other_holder _); auto.
Qed.

Lemma lock_fetch_still c e : owned c = false ->
  moves dropped (or_raise (fetch_one after_ddl statements c) e).
Proof using Type.
  intros Hc. apply moves_except; [apply _| |intros []; apply moves_throw, _].
  apply moves_finally; [apply _|..];
    repeat (apply moves_bind; [apply _|by apply lock_driver_still|intros]); apply moves_ret, _.
Qed.

Lemma acquire_still : moves dropped (acquire_lock after_ddl statements).
Proof using Type.
  apply moves_bind; [apply _|by apply lock_fetch_still|]. intros row.
  repeat case_match; [apply moves_ret, _|apply moves_ret, _|apply moves_throw, _].
Qed.

Lemma release_still fuel : forall released, moves dropped (release_rounds after_ddl statements fuel released).
Proof using Type.
  induction fuel as [|fuel IH]; intros released; simpl; [apply moves_throw, _|].
  apply moves_bind; [apply _|by apply lock_fetch_still|]. intros row.
  repeat case_match; [apply IH|apply moves_ret, _|apply moves_throw, _].
Qed.

Lemma exit_still : moves dropped (_ ← release_lock after_ddl statements; _ ← modify (set_reusable true);
  _ ← driver Quiet; mret tt).
Proof using Type.
  apply moves_bind; [apply _|intros s r s'; apply release_still|]. intros _.
  apply moves_bind; [apply _| |intros _].
  - intros s r s' [= <- <-]. unfold dropped, durable, working. simpl. auto.
  - apply moves_bind; [apply _|by apply lock_driver_still|]. intros. apply moves_ret, _.
Qed.

(** A call is its body, run from and leaving the same data, or nothing. *)
Lemma migration_lock_data {A} (body : program A) s r s' :
  migration_lock after_ddl statements body s = (r, s') ->
  (dropped s s' /\ (forall a, r <> inl a)) \/
  exists s1 r1 s2, dropped s s1 /\ body s1 = (r1, s2) /\ dropped s2 s' /\
    (forall a, r = inl a -> r1 = inl a).
Proof using Type.
  intros H. apply bind_cases in H as [(acquired & s1 & H1 & H)|(x & H1 & ->)].
  2: { left. split; [by eapply acquire_still|done]. }
  apply acquire_still in H1. destruct acquired; simpl in H.
  - right. apply finally_cases in H as (r1 & s2 & Hb & Hexit). exists s1, r1, s2.
    destruct Hexit as [(H & ->)|(x & H & ->)]; apply exit_still in H; done.
  - left. injection H as <- <-. split; [done|]. by intros a.
Qed.

(** What a call does while it holds the lock. *)
Definition call_body (plan : list migration) (adopt_legacy : bool) : program migration_result :=
  legacy_adopted ← ensure_v2_history py_lower after_ddl statements plan adopt_legacy;
  history ← fetch_history;
  _ ← lift (validate_history_prefix history plan false 0);
  _ ← rollback after_ddl statements;
  applied ← apply_pending plan (drop (length history) plan) [];
  mret (MigrationResult applied (map rec_name history) legacy_adopted).

Lemma call_data plan adopt s r s' : apply plan adopt s = (r, s') ->
  (durable s' = durable s /\ (forall a, r <> inl a)) \/
  exists s1 r1 s2, dropped s s1 /\ call_body plan adopt s1 = (r1, s2) /\ durable s' = durable s2 /\
    (forall a, r = inl a -> r1 = inl a /\ dropped s2 s').
Proof using Type.
  intros H. apply migration_lock_data in H as [[[H _] ?]|(s1 & r1 & s3 & Hd1 & Hb & Hd3 & Hr)]; [by left|].
  right. pose proof Hd3 as [Hd _].
  apply reraise_data in Hb as [(a & Hb & ->)|(x & y & s2 & Hb & Hd2 & ->)].
  - exists s1, (inl a), s3. split_and!; [done|exact Hb|done|]. intros a0 Ha. split; [by apply Hr|done].
  - exists s1, (inr x), s2. split_and!; [done|exact Hb|congruence|].
    intros a Ha. by apply Hr in Ha.
Qed.

Lemma call_body_cases plan adopt s r s' : seen s = durable s -> call_body plan adopt s = (r, s') ->
  (exists r1 s1, ensure_v2_history py_lower after_ddl statements plan adopt s = (r1, s1) /\
     durable s' = durable s1 /\ forall a, r <> inl a) \/
  exists b s1 history s2 r2,
    ensure_v2_history py_lower after_ddl statements plan adopt s = (inl b, s1) /\
    shape_of (durable s1) = V2 /\ decode_history (durable s1) = Ok history /\
    validate_history_prefix history plan false 0 = Ok tt /\
    durable s2 = durable s1 /\ working s2 = None /\
    apply_pending plan (drop (length history) plan) [] s2 = (r2, s') /\
    (forall a, r = inl a -> exists applied, r2 = inl applied /\
       a = MigrationResult applied (map rec_name history) b).
Proof using Type.
  intros Hseen H. apply bind_cases in H as [(b & s1 & H1 & H)|(x & H1 & ->)].
  2: { left. by exists (inr x), s'. }
  destruct (ensure_clean _ _ _ _ _ Hseen H1) as [Hseen1 Hv].
  assert (Hstop : forall s2 x, durable s2 = durable s1 -> r = inr x -> s2 = s' ->
    exists r1 s1, ensure_v2_history py_lower after_ddl statements plan adopt s = (r1, s1) /\
      durable s' = durable s1 /\ forall a, r <> inl a)
    by (intros s2 x Hs2 -> ->; exists (inl b), s1; done).
  apply bind_cases in H as [(history & s2 & H2 & H)|(x & H2 & ->)].
  2: { left. eapply Hstop; [|done|done]. by apply reader_history in H2 as [[H2 _] _]. }
  apply history_value in H2 as [Hdec Hs2]. rewrite Hseen1 in Hdec.
  assert (Hd2 : durable s2 = durable s1) by (unfold durable; by rewrite Hs2).
  apply bind_cases in H as [([] & s3 & H3 & H)|(x & H3 & ->)].
  2: { left. eapply Hstop; [exact Hd2|done|]. by destruct (validate_history_prefix _ _ _ _); injection H3 as _ <-. }
  apply lift_value in H3 as [Hval ->].
  apply bind_cases in H as [([] & s3 & H3 & H)|(x & H3 & ->)]; apply rollback_data in H3 as [Hd3 Hw3].
  2: { left. eapply Hstop; [|done|done]. congruence. }
  right. specialize (Hw3 eq_refl).
  apply bind_cases in H as [(applied & s4 & H4 & H)|(x & H4 & ->)].
  - injection H as <- <-. exists b, s1, history, s3, (inl applied). split_and!; auto; [congruence|].
    intros a [= <-]. eauto.
  - exists b, s1, history, s3, (inr x). split_and!; auto; [congruence|done].
Qed.

Lemma validated_prefix plan history : well_formed_plan plan ->
  validate_history_prefix history plan false 0 = Ok tt ->
  length history <= length plan /\ history = map history_record (take (length history) plan).
Proof using Type.
  intros Hwf [H _]%history_prefix_exact; [|done]. split; [|done].
  apply (f_equal length) in H. rewrite length_map, length_take in H. lia.
Qed.

Lemma pending_success plan (Hwf : well_formed_plan plan) k : forall n applied s l s',
  length plan - n = k -> n <= length plan -> recorded plan n (durable s) -> working s = None ->
  apply_pending plan (drop n plan) applied s = (inl l, s') ->
  l = applied ++ map mig_name (drop n plan) /\ recorded plan (length plan) (durable s') /\
  working s' = None.
Proof using Type.
  induction k as [|k IH]; intros n applied s l s' Hk Hn Hr Hw H.
  - rewrite drop_ge in H |- * by lia. injection H as <- <-. rewrite app_nil_r.
    split_and!; [done| |done]. by replace (length plan) with n by lia.
  - destruct (lookup_lt_is_Some_2 plan n) as (m & Hm); [lia|].
    rewrite (drop_S _ _ _ Hm) in H |- *. simpl in H. apply bind_value in H as ([] & s1 & H1 & H).
    unfold apply_body_and_history in H1. rewrite (slice_position plan n m) in H1 by done.
    apply bind_value in H1 as (x & s2 & _ & H1). apply bind_value in H1 as ([] & s3 & _ & H1).
    apply reraise_data in H1 as [([] & H1 & _)|(? & ? & ? & _ & _ & ?)]; [|done].
    destruct (record_commits plan Hwf n m s3 (inl tt) s1 Hm H1) as [_ Hok].
    destruct (Hok eq_refl) as [(_ & _ & _ & _ & Hr1) Hw1].
    apply IH in H as (-> & Hr' & Hw'); [|lia|lia|done|done].
    split_and!; [|done|done]. simpl. by rewrite <- app_assoc.
Qed.

Lemma units_trans plan n db n1 db1 n2 db2 :
  units plan n db n1 db1 -> units plan n1 db1 n2 db2 -> units plan n db n2 db2.
Proof using Type. intros H. induction 1; [done|]. by eapply units_one. Qed.

(** What the migrations of a call start from: the recorded history, or the one
    the call creates. *)
Definition based (plan : list migration) (n : nat) (db base : database) : Prop :=
  (recorded plan n db /\ base = db) \/
  (cat_tables (db_catalog db) = [] /\ n = 0 /\ base = created db).

(** One call, however it ends. *)
Lemma call_safe plan n adopt s r s' : well_formed_plan plan -> reports_declared ->
  keeps_history plan -> starts plan n (durable s) -> seen s = durable s ->
  apply plan adopt s = (r, s') ->
  durable s' = durable s \/
  exists n' base, n <= n' /\ recorded plan n' (durable s') /\ based plan n (durable s) base /\
    (transactional plan -> units plan n base n' (durable s')).
Proof using Type.
  intros Hwf Hrep Hkeeps Hst Hseen H.
  apply call_data in H as [[Hd _]|(s1 & r1 & s2 & Hd1 & Hb & Hd & _)]; [by left|].
  apply (dropped_seen _ _ Hd1) in Hseen as Hseen1. destruct Hd1 as [Hd1 _]. rewrite <- Hd1 in *.
  assert (Hens : forall r3 s3, ensure_v2_history py_lower after_ddl statements plan adopt s1 = (r3, s3) ->
    durable s3 = durable s1 \/
    (based plan n (durable s1) (durable s3) /\ recorded plan n (durable s3))).
  { intros r3 s3 H3. eapply (ensure_starts plan n) in H3 as [H3|[Ht H3]]; [by left| |done..].
    right. destruct Hst as [(_ & Hv & _)|[_ ->]].
    - exfalso. unfold shape_of, history_shape in Hv. by rewrite Ht in Hv.
    - rewrite H3. split; [by right|by apply created_recorded]. }
  apply call_body_cases in Hb as [(r3 & s3 & H3 & Hd3 & _)|Hb]; [| |done].
  - apply Hens in H3 as [H3|[Hbase Hrec]]; [left; congruence|]. right.
    exists n, (durable s3). rewrite Hd, Hd3. split_and!; auto. intros _. constructor.
  - right. destruct Hb as (b & s3 & history & s4 & r4 & H3 & Hv & Hdec & Hval & Hd4 & Hw4 & Hp & _).
    assert (Hrec : based plan n (durable s1) (durable s3) /\ recorded plan n (durable s3)).
    { apply Hens in H3 as [H3|H3]; [|done]. rewrite H3 in *. destruct Hst as [Hst|[Ht _]].
      - split; [by left|done].
      - exfalso. unfold shape_of, history_shape in Hv. by rewrite Ht in Hv. }
    destruct Hrec as [Hbase Hrec].
    assert (Hlen : length history = n).
    { destruct Hrec as (Hle & _ & Hrec). rewrite Hrec in Hdec. injection Hdec as <-.
      rewrite length_map, length_take. lia. }
    rewrite Hlen in Hp.
    eapply (pending_spec plan Hwf Hkeeps n (durable s3)) in Hp as [(n' & Hn' & Hst' & Hu') _].
    + exists n', (durable s3). by rewrite Hd.
    + done.
    + by destruct Hrec.
    + by apply closed_seen.
    + rewrite Hd4. split; [done|]. intros _. constructor.
Qed.

(** Any number of calls, one after the other (the lock keeps them apart), each
    on a connection with nothing uncommitted, and cut short anywhere. *)
Inductive calls (plan : list migration) (db : database) : database -> Prop :=
  | calls_none : calls plan db db
  | calls_one adopt s r s' : calls plan db (durable s) -> seen s = durable s ->
      apply plan adopt s = (r, s') -> calls plan db (durable s').

(** C4: with MariaDB too a failing migration is safe to retry.  From a database
    without history, after any number of calls that fail, are cancelled or lose
    their connection at any command, either nothing has happened or the history
    is a prefix of the declaration; and if the bodies commit nothing implicitly,
    the data are those of running exactly the recorded bodies, each once, to the
    end and in order. *)
Theorem mariadb_migrations_exactly_once plan db db'
  (Hwf : well_formed_plan plan) (Hrep : reports_declared) (Hkeeps : keeps_history plan)
  (Hempty : cat_tables (db_catalog db) = []) (Hcalls : calls plan db db') :
  db' = db \/
  exists n, recorded plan n db' /\ (transactional plan -> units plan 0 (created db) n db').
Proof using Type.
  induction Hcalls as [|adopt s r s' Hcalls IH Hseen H]; [by left|].
  destruct IH as [Hd|(n & Hrec & Hu)].
  - eapply (call_safe plan 0) in H as [H|(n & base & _ & Hrec & [[Hb _]|(_ & _ & ->)] & Hu)];
      [left; congruence| |right; rewrite Hd in Hu; eauto|done..|by right; rewrite Hd|done].
    exfalso. rewrite Hd in Hb. destruct Hb as (_ & Hv & _). unfold shape_of, history_shape in Hv.
    by rewrite Hempty in Hv.
  - right. eapply (call_safe plan n) in H as [H|(n' & base & _ & Hrec' & [[_ ->]|(Ht & _ & _)] & Hu')];
      [rewrite H; eauto| | |done..|by left|done].
    + exists n'. split; [done|]. intros Htr. eapply units_trans; eauto.
    + exfalso. destruct Hrec as (_ & Hv & _). unfold shape_of, history_shape in Hv. by rewrite Ht in Hv.
Qed.

(** success means the head of the declaration, whatever the bodies do and
    whatever history the call found, legacy history included: the durable table
    has the final shape and says exactly the declaration, nothing is left
    uncommitted, and the migrations reported as found and as applied are, in
    order, all of them. *)
Theorem mariadb_migrate_success plan adopt s result s' (Hwf : well_formed_plan plan)
  (Hseen : seen s = durable s) (Hok : apply plan adopt s = (inl result, s')) :
  recorded plan (length plan) (durable s') /\ seen s' = durable s' /\
  res_already_applied result ++ res_applied result = map mig_name plan.
Proof using Type.
  apply call_data in Hok as [[_ H]|(s1 & r1 & s2 & Hd1 & Hb & Hd & Hr)]; [by destruct (H result)|].
  destruct (Hr _ eq_refl) as [-> Hd2]. apply (dropped_seen _ _ Hd1) in Hseen as Hseen1.
  apply call_body_cases in Hb as [(r3 & s3 & _ & _ & H)|Hb]; [by destruct (H result)| |done].
  destruct Hb as (b & s3 & history & s4 & r4 & H3 & Hv & Hdec & Hval & Hd4 & Hw4 & Hp & Hres).
  destruct (Hres _ eq_refl) as (applied & -> & ->).
  destruct (validated_prefix _ _ Hwf Hval) as [Hlen Hhist].
  eapply (pending_success plan Hwf) in Hp as (Happ & Hrec & Hw2); [|done|done| |done].
  - split_and!; [by rewrite Hd| |].
    + by apply (dropped_seen _ _ Hd2), closed_seen.
    + simpl. rewrite Happ, Hhist at 1. simpl. rewrite map_map. simpl.
      by rewrite <- map_app, take_drop.
  - rewrite Hd4. split_and!; [done..|]. by rewrite Hdec, Hhist at 1.
Qed.

(** C5: the advisory lock brackets the work.  Every command of a call that
    reads or changes the history, runs a body or ends a transaction is sent
    while this connection holds the lock; the connection is offered for reuse
    only once its server reports the lock given back as often as it was taken;
    and the loop that gives it back ends. *)
Theorem mariadb_lock_discipline plan adopt s r s'
  (Hfresh : cn_sent s = [] /\ cn_reusable s = false /\ sv_held (cn_server s) = 0)
  (Hrun : apply plan adopt s = (r, s')) :
  Forall (fun x => owned (fst x) = true -> snd x = true) (cn_sent s') /\
  (cn_reusable s' = true -> sv_held (cn_server s') = 0) /\ r <> inr FOutOfFuel.
Proof using Type.
  destruct Hfresh as (Hsent & Hre & Hh). eapply migration_lock_spec in Hrun; [exact Hrun|..|done|done].
  - apply guarded_reraise.
    apply guarded_bind; [apply guarded_ensure|intros b].
    apply guarded_bind; [apply guarded_history|intros history].
    apply guarded_bind; [apply guarded_lift|intros ?].
    apply guarded_bind; [apply guarded_rollback|intros ?].
    apply guarded_bind; [apply guarded_pending|intros ?]. apply guarded_ret.
  - unfold flagged. by rewrite Hsent.
Qed.

End properties.
