(* ===== verification/MariadbMigrationRuns.v ===== *)
(** * Undisturbed calls of the MariaDB migration runner

    With a driver that answers every command, and bodies that succeed and leave
    the history alone, [apply_mariadb_migrations] returns; and a concrete
    MariaDB for the witnesses. *)

From S2P Require Export MariadbMigrationProps.

(** ** Rows *)

Lemma ascii_string_text s : ascii_string (ascii_text s) = s.
Proof.
  induction s as [|c s IH]; [done|]. unfold ascii_string, ascii_text in *. simpl.
  by rewrite Nat2Z.id, Ascii.ascii_nat_embedding, IH.
Qed.

Lemma ascii_text_length s : length (ascii_text s) = String.length s.
Proof. induction s as [|c s IH]; [done|]. unfold ascii_text in *. simpl. by rewrite IH. Qed.

Lemma hex_text s : all_lower_hex s = true ->
  forallb lower_hex_byte (ascii_text s) = true /\ forallb (in_range 0 127) (ascii_text s) = true.
Proof.
  induction s as [|c s IH]; [done|].
  change (ascii_text (String c s)) with (Z.of_nat (Ascii.nat_of_ascii c) :: ascii_text s).
  cbn [forallb all_lower_hex]. rewrite andb_true_iff. intros [Hc Hs].
  destruct (IH Hs) as [-> ->]. rewrite !andb_true_r. unfold is_lower_hex in Hc.
  unfold lower_hex_byte, in_range. rewrite orb_true_iff, !andb_true_iff, !Z.leb_le.
  rewrite orb_true_iff, !andb_true_iff, !Nat.leb_le in Hc. lia.
Qed.

Lemma utf8_char_length c b : utf8_char c = Some b -> length b <= 4.
Proof. unfold utf8_char. intros H. repeat case_match; simplify_eq/=; lia. Qed.

Lemma utf8_length s : forall b, utf8 s = Some b -> length s <= length b -> length b <= 4 * length s.
Proof.
  unfold utf8. induction s as [|c s IH]; intros b H _; [by injection H as <-|].
  simpl in H. apply fmap_Some in H as (l & H & ->). apply bind_Some in H as (x & Hx & H).
  apply bind_Some in H as (xs & Hxs & H). injection H as <-. simpl. rewrite length_app.
  apply utf8_char_length in Hx. destruct (Nat.le_gt_cases (length s) (length (concat xs))).
  - specialize (IH (concat xs) ltac:(by rewrite Hxs) ltac:(lia)). lia.
  - lia.
Qed.

Lemma utf8_nonempty c s b : utf8 (c :: s) = Some b -> 1 <= length b.
Proof.
  unfold utf8. simpl. intros H. apply fmap_Some in H as (l & H & ->).
  apply bind_Some in H as (x & Hx & H). apply bind_Some in H as (xs & Hxs & H). injection H as <-.
  simpl. rewrite length_app. unfold utf8_char in Hx. repeat case_match; simplify_eq/=; lia.
Qed.

(** A Python string. *)
Definition python_text (s : utext) : Prop := Forall (fun c => 0 <= c <= 1114111)%Z s.

Definition row_of (m : migration) (bytes : list Z) (now : utext) : history_row :=
  HistoryRow bytes now (Some (mig_position m)) (Some (ascii_text (mig_checksum m))).

Section rows.
Context (plan : list migration) (Hwf : well_formed_plan plan).
Context (Hpy : forall m, m ∈ plan -> python_text (mig_name m)).

Lemma plan_bytes n m : plan !! n = Some m -> exists bytes, utf8 (mig_name m) = Some bytes /\
  utf8_decode bytes = Some (mig_name m).
Proof using Hwf Hpy.
  intros Hm. destruct Hwf as [Hp _]. destruct (Hp _ _ Hm) as (_ & (_ & _ & _ & _ & _ & (b & Hb) & _) & _).
  exists b. split; [done|]. eapply utf8_round_trip; [|done]. apply Hpy. by eapply list_elem_of_lookup_2.
Qed.

Lemma row_decodes n m bytes now : plan !! n = Some m -> utf8 (mig_name m) = Some bytes ->
  decode_row (row_of m bytes now) = Ok (history_record m).
Proof using Hwf Hpy.
  intros Hm Hb. destruct (plan_bytes _ _ Hm) as (b & Hb' & Hdec).
  assert (b = bytes) as -> by congruence.
  destruct Hwf as [Hp _]. destruct (Hp _ _ Hm) as (_ & _ & sb & _ & Hc).
  unfold decode_row, row_of, decode_name, decode_checksum. cbn [hr_position hr_name hr_checksum mbind res_bind].
  rewrite Hdec. cbn [mbind res_bind]. rewrite Hc.
  destruct (hexdigest_shape (sha256 sb)) as [_ Hx]. destruct (hex_text _ Hx) as [_ ->].
  rewrite ascii_string_text. cbn [mbind res_bind]. unfold history_record. by rewrite Hc.
Qed.

Lemma row_is_checked n m bytes now : plan !! n = Some m -> utf8 (mig_name m) = Some bytes ->
  row_checks (row_of m bytes now) = true.
Proof using Hwf Hpy.
  intros Hm Hb. destruct (plan_bytes _ _ Hm) as (b & Hb' & Hdec).
  assert (b = bytes) as -> by congruence.
  destruct Hwf as [Hp _]. destruct (Hp _ _ Hm) as (Hpos & (Hne & Hlen & _) & sb & _ & Hc).
  unfold row_checks, row_of. cbn [hr_position hr_name hr_checksum].
  rewrite Hdec, Hc, ascii_text_length. destruct (hexdigest_shape (sha256 sb)) as [-> Hx].
  destruct (hex_text _ Hx) as [-> _].
  assert (H1 : 1 <= length bytes) by (destruct (mig_name m); [done|by eapply utf8_nonempty]).
  assert (H2 : length bytes <= 1020).
  { destruct (Nat.le_gt_cases (length (mig_name m)) (length bytes)); [|lia].
    pose proof (utf8_length _ _ Hb ltac:(done)). lia. }
  assert (H3 : 1 <= length (mig_name m)) by (destruct (mig_name m); [done|simpl; lia]).
  rewrite !andb_true_iff, Z.ltb_lt, !Nat.leb_le, Nat.eqb_eq. lia.
Qed.

Lemma in_by_position (rows : list history_row) r : r ∈ rows -> r ∈ by_position rows.
Proof using Type.
  induction rows as [|x rows IH]; [done|]. simpl.
  assert (Hin : forall l y, y = x \/ y ∈ l -> y ∈ insert_by_position x l).
  { induction l as [|z l IHl]; intros y; simpl; rewrite ?elem_of_cons; [tauto|].
    destruct (_ <=? _)%Z; rewrite !elem_of_cons; [tauto|]. intros [->|[->|Hy]]; auto. }
  intros [->|H]%elem_of_cons; apply Hin; auto.
Qed.

Lemma by_position_last (rows : list history_row) r :
  (forall x, x ∈ rows -> (position_of x < position_of r)%Z) ->
  by_position (rows ++ [r]) = by_position rows ++ [r].
Proof using Type.
  intros H. induction rows as [|x rows IH]; [done|]. simpl.
  rewrite IH by (intros; apply H; by right). generalize (by_position rows). intros l.
  assert (Hx : (position_of x < position_of r)%Z) by (apply H; by left). clear -Hx.
  induction l as [|y l IH]; simpl.
  - by rewrite (proj2 (Z.leb_le _ _)) by lia.
  - destruct (_ <=? _)%Z; [done|]. simpl. by rewrite IH.
Qed.

(** The rows of a recorded prefix are about its migrations. *)
Lemma recorded_row {W} n (db : database (W := W)) x :
  decode_history db = Ok (map history_record (take n plan)) -> x ∈ db_rows db ->
  exists k m, k < n /\ plan !! k = Some m /\ hr_position x = Some (mig_position m) /\
    utf8_decode (hr_name x) = Some (mig_name m).
Proof using Type.
  intros Hdec Hx. apply in_by_position, list_elem_of_lookup in Hx as (k & Hk).
  apply mapR_Ok in Hdec. eapply Forall2_lookup_l in Hdec as (rec & Hrec & Hr); [|done].
  rewrite list_lookup_fmap in Hrec. apply fmap_Some in Hrec as (m & Hm & ->).
  apply lookup_take_Some in Hm as [Hm Hlt]. exists k, m. split_and!; [done|done|..];
    unfold decode_row, decode_name in Hr; destruct (hr_position x); [|done| |done]; simpl in Hr;
    destruct (utf8_decode (hr_name x)) as [name|]; try done; simpl in Hr;
    bind_inv Hr as cks Hc; injection Hr as H1 H2 _; congruence.
Qed.

(** The next migration's row is accepted, and read back last. *)
Lemma next_row {W} n m bytes now (db : database (W := W)) : plan !! n = Some m ->
  utf8 (mig_name m) = Some bytes ->
  decode_history db = Ok (map history_record (take n plan)) ->
  existsb (rows_conflict (row_of m bytes now)) (db_rows db) = false /\
  decode_history (map_rows (fun rows => rows ++ [row_of m bytes now]) db) =
    Ok (map history_record (take (S n) plan)).
Proof using Hwf Hpy.
  intros Hm Hb Hdec. pose proof Hwf as [Hp Hnames].
  assert (Hrow : forall x, x ∈ db_rows db ->
    (exists p, hr_position x = Some p /\ (p < mig_position m)%Z) /\ hr_name x <> bytes).
  { intros x Hx. destruct (recorded_row _ _ _ Hdec Hx) as (k & m' & Hk & Hm' & Hpos & Hname).
    destruct (Hp _ _ Hm) as [-> _]. destruct (Hp _ _ Hm') as [Hpm' _]. split.
    - exists (mig_position m'). split; [done|lia].
    - intros Heq. destruct (plan_bytes _ _ Hm) as (b & Hb' & Hd'). assert (b = bytes) by congruence.
      assert (Hsame : mig_name m = mig_name m') by congruence. assert (k = n); [|lia].
      eapply (NoDup_lookup (map mig_name plan)); [done|by rewrite list_lookup_fmap, Hm'|].
      rewrite list_lookup_fmap, Hm. simpl. by rewrite Hsame. }
  split.
  - apply not_true_is_false. intros (x & Hx & Hc)%existsb_exists.
    apply list_elem_of_In, Hrow in Hx as [(p & Hpx & Hlt) Hne]. unfold rows_conflict in Hc.
    apply orb_true_iff in Hc as [Hc%bool_decide_eq_true|Hc%bool_decide_eq_true]; simpl in Hc.
    + rewrite Hpx in Hc. injection Hc as Hc. lia.
    + congruence.
  - unfold decode_history, map_rows. cbn [db_rows]. rewrite by_position_last.
    + apply mapR_Ok. rewrite (take_S_r _ _ _ Hm), map_app. apply mapR_Ok in Hdec.
      apply Forall2_app; [done|]. constructor; [|constructor]. by eapply row_decodes.
    + intros x Hx. destruct (Hrow _ Hx) as [(p & Hpx & Hlt) _]. unfold position_of. by rewrite Hpx.
Qed.
End rows.

(** ** A driver that answers *)

Section undisturbed.
Context `{U : unicode} {W : Type}.
Context (py_lower : utext -> utext) (after_ddl : ddl -> catalog -> catalog).
Context (statements : utext -> list (database (W := W) -> option (bool * database (W := W)))).

#[local] Abbreviation server := (@server W).
#[local] Abbreviation program := (@program W).
#[local] Abbreviation driver := (driver after_ddl statements).
#[local] Abbreviation execute := (execute after_ddl statements).
#[local] Abbreviation serve := (serve after_ddl statements).
#[local] Abbreviation recorded := (recorded (W := W) py_lower).

(** From the server state [sv], with nothing going wrong, [m] returns [a] and
    leaves [sv']. *)
Definition runs {A} (m : program A) (sv : server) (a : A) (sv' : server) : Prop :=
  forall s, cn_script s = [] -> cn_server s = sv ->
  exists s', m s = (inl a, s') /\ cn_script s' = [] /\ cn_server s' = sv'.

Lemma runs_driver c sv : sv_alive sv = true -> snd (serve c sv) = true ->
  runs (driver c) sv (lock_reply c sv) (fst (serve c sv)).
Proof using Type.
  intros Ha Hok s Hs <-. unfold MariadbMigrations.driver. rewrite Ha, Hs.
  cbn [negb head tail]. destruct (serve c (cn_server s)) as [sv' ok]. simpl in *. subst ok.
  destruct c; eauto.
Qed.

Lemma runs_ret {A} (a : A) sv : runs (mret a) sv a sv.
Proof using Type. intros s Hs <-. by exists s. Qed.
Lemma runs_lift {A} (x : res A) a sv : x = Ok a -> runs (lift x) sv a sv.
Proof using Type. intros ->. apply runs_ret. Qed.
Lemma runs_require (b : bool) x sv : b = true -> runs (require b x) sv tt sv.
Proof using Type. intros ->. apply runs_ret. Qed.

Lemma runs_bind {A B} (m : program A) (f : A -> program B) sv a sv1 b sv2 :
  runs m sv a sv1 -> runs (f a) sv1 b sv2 -> runs (m ≫= f) sv b sv2.
Proof using Type.
  intros Hm Hf s Hs Hsv. destruct (Hm s Hs Hsv) as (s1 & H1 & Hs1 & Hsv1).
  destruct (Hf s1 Hs1 Hsv1) as (s2 & H2 & Hs2). exists s2. split; [|done].
  unfold mbind, eff_bind. by rewrite H1.
Qed.

Lemma runs_get {B} (f : conn -> program B) sv b sv2 :
  (forall s, cn_server s = sv -> runs (f s) sv b sv2) -> runs (get ≫= f) sv b sv2.
Proof using Type. intros Hf s Hs Hsv. by apply (Hf s Hsv s). Qed.

Lemma runs_finally {A} (m : program A) f sv a sv1 sv2 :
  runs m sv a sv1 -> runs f sv1 tt sv2 -> runs (try_finally m f) sv a sv2.
Proof using Type.
  intros Hm Hf s Hs Hsv. destruct (Hm s Hs Hsv) as (s1 & H1 & Hs1 & Hsv1).
  destruct (Hf s1 Hs1 Hsv1) as (s2 & H2 & Hs2). exists s2. split; [|done].
  unfold try_finally. by rewrite H1, H2.
Qed.

Lemma runs_except {A} (m : program A) h sv a sv1 : runs m sv a sv1 -> runs (try_except m h) sv a sv1.
Proof using Type.
  intros Hm s Hs Hsv. destruct (Hm s Hs Hsv) as (s1 & H1 & Hs1). exists s1. split; [|done].
  unfold try_except. by rewrite H1.
Qed.

Lemma runs_quiet sv : sv_alive sv = true -> runs (driver Quiet) sv None sv.
Proof using Type. intros Ha. by apply (runs_driver Quiet). Qed.

Lemma runs_close sv : sv_alive sv = true -> runs (close_cursor after_ddl statements) sv tt sv.
Proof using Type. intros Ha. eapply runs_bind; [by apply runs_quiet|apply runs_ret]. Qed.

Lemma runs_execute c sv sv' : sv_alive sv = true -> c <> ReleaseLock -> serve c sv = (sv', true) ->
  runs (execute c) sv tt sv'.
Proof using Type.
  intros Ha Hc Hserve. destruct (serve_lock after_ddl statements c sv Hc) as [_ Halive].
  rewrite Hserve in Halive. simpl in Halive. eapply runs_finally.
  - pose proof (runs_driver c sv Ha) as H. rewrite Hserve in H.
    eapply runs_bind; [by apply H|apply runs_ret].
  - apply runs_close. by rewrite Halive.
Qed.

Lemma runs_fetch_all {A} c (f : database -> A) sv : sv_alive sv = true -> reading c = true ->
  snd (serve c sv) = true -> runs (fetch_all after_ddl statements c f) sv (f (current sv)) sv.
Proof using Type.
  intros Ha Hc Hok. eapply runs_finally; [|by apply runs_close].
  eapply runs_bind; [by apply runs_driver|]. rewrite reading_serve by done.
  apply runs_get. intros s <-. eapply runs_bind; [by apply runs_quiet|apply runs_ret].
Qed.

Lemma runs_fetch_one c sv : sv_alive sv = true -> snd (serve c sv) = true ->
  sv_alive (fst (serve c sv)) = true ->
  runs (fetch_one after_ddl statements c) sv (lock_reply c sv) (fst (serve c sv)).
Proof using Type.
  intros Ha Hok Ha'. eapply runs_finally; [|by apply runs_close].
  eapply runs_bind; [by apply runs_driver|].
  eapply runs_bind; [by apply runs_quiet|apply runs_ret].
Qed.

Lemma runs_rollback sv : sv_alive sv = true ->
  runs (rollback after_ddl statements) sv tt (with_data (sv_durable sv) None sv).
Proof using Type.
  intros Ha. eapply runs_bind; [by apply runs_driver|].
  eapply runs_bind; [by apply runs_quiet|apply runs_ret].
Qed.

Lemma runs_commit sv : sv_alive sv = true ->
  runs (commit after_ddl statements) sv tt (with_data (current sv) None sv).
Proof using Type.
  intros Ha. eapply runs_bind; [by apply runs_driver|].
  eapply runs_bind; [by apply runs_quiet|apply runs_ret].
Qed.

Lemma runs_shape sv : sv_alive sv = true ->
  runs (fetch_history_shape py_lower after_ddl statements) sv
    (history_shape py_lower (db_catalog (current sv))) sv.
Proof using Type.
  intros Ha s Hs Hsv.
  assert (Hq : forall q, runs (query_rows after_ddl statements q) sv (db_catalog (current sv)) sv)
    by (intros q; by apply runs_fetch_all).
  assert (Hex : exists h, runs (fetch_history_shape py_lower after_ddl statements) sv h sv).
  { set (tables := cat_tables (db_catalog (current sv))).
    destruct (bool_decide (tables = [])) eqn:Hnone;
      [|destruct (negb (bool_decide (tables =
        [[CText mariadb_history_table; CText (u "BASE TABLE"); CText (u "InnoDB")]]))) eqn:Hother];
      eexists; (eapply runs_bind; [apply Hq|]); cbv beta; fold tables;
      rewrite Hnone, ?Hother; [apply runs_ret..|].
    do 5 (eapply runs_bind; [apply Hq|]). apply runs_ret. }
  destruct Hex as [h Hh]. destruct (Hh s Hs Hsv) as (s' & H & Hs'). exists s'. split; [|done].
  apply shape_value in H as Hv. destruct Hv as [-> _]. unfold seen in H. by rewrite Hsv in H.
Qed.
(** ** A whole call *)

Lemma v2_tables c : history_shape py_lower c = V2 -> cat_tables c <> [].
Proof using Type. unfold history_shape. by destruct (cat_tables c). Qed.

Lemma runs_history sv history : sv_alive sv = true ->
  history_shape py_lower (db_catalog (current sv)) = V2 ->
  decode_history (current sv) = Ok history ->
  runs (fetch_history after_ddl statements) sv history sv.
Proof using Type.
  intros Ha Hv Hdec. eapply runs_bind.
  - apply runs_fetch_all; [done|done|]. simpl. apply negb_true_iff, bool_decide_eq_false.
    by eapply v2_tables.
  - by apply runs_lift.
Qed.

Context (plan : list migration) (Hwf : well_formed_plan plan).
Context (Hpy : forall m, m ∈ plan -> python_text (mig_name m)).
Context (Hkeeps : keeps_history statements plan).
Context (Hbodies : forall m (d : database (W := W)), m ∈ plan -> exists d' w',
  run_statements (statements (mig_sql m)) d (Some d) = (d', w', true)).

(** Between two migrations. *)
Definition ready (n : nat) (sv : server) : Prop :=
  sv_alive sv = true /\ sv_working sv = None /\ recorded plan n (sv_durable sv) /\
  sv_held sv = 1 /\ sv_other_holder sv = false.

Lemma runs_record n m (sv : server) : plan !! n = Some m -> sv_alive sv = true ->
  recorded plan n (current sv) ->
  exists x, runs (record_stage py_lower after_ddl statements m (take (S n) plan)) sv tt
              (with_data x None sv) /\ recorded plan (S n) x.
Proof using Hwf Hpy.
  intros Hm Ha (_ & Hv & Hdec). pose proof (lookup_lt_Some _ _ _ Hm) as Hlt.
  destruct (plan_bytes _ Hwf Hpy _ _ Hm) as (bytes & Hb & _).
  destruct (next_row _ Hwf Hpy n m bytes (sv_now sv) _ Hm Hb Hdec) as [Hnoc Hnext].
  set (x := map_rows (fun rows => rows ++ [row_of m bytes (sv_now sv)]) (current sv)) in *.
  set (sv1 := with_data (sv_durable sv) (Some x) sv).
  assert (Hserve : serve (InsertHistory (mig_position m) bytes (u (mig_checksum m))) sv = (sv1, true)).
  { simpl. fold (row_of m bytes (sv_now sv)). rewrite Hnoc, (row_is_checked _ Hwf Hpy _ _ _ _ Hm Hb).
    rewrite bool_decide_eq_false_2; [done|]. by apply v2_tables in Hv. }
  assert (Hrec : recorded plan (S n) x) by (split_and!; [lia|exact Hv|exact Hnext]).
  exists x. split; [|done].
  eapply runs_bind; [apply runs_lift; unfold encode_utf8; by rewrite Hb|].
  eapply runs_bind.
  { by apply (runs_execute _ _ sv1). }
  eapply runs_bind; [by apply runs_shape|].
  eapply runs_bind; [apply runs_require, bool_decide_eq_true; exact Hv|].
  eapply runs_bind; [by eapply runs_history; [|exact Hv|exact Hnext]|].
  eapply runs_bind; [apply runs_lift|].
  - apply history_prefix_exact; [by apply well_formed_prefix|].
    rewrite length_map, !length_take, !Nat.min_l by lia. split; [|done].
    by rewrite take_take, Nat.min_id.
  - exact (runs_commit sv1 Ha).
Qed.

Lemma runs_unit n m (sv : server) : plan !! n = Some m -> ready n sv ->
  exists sv', runs (apply_body_and_history py_lower after_ddl statements m
                      (take (Z.to_nat (mig_position m)) plan)) sv tt sv' /\ ready (S n) sv'.
Proof using Hwf Hpy Hkeeps Hbodies.
  intros Hm (Ha & Hw & Hrec & Hh & Ho). rewrite (slice_position plan n m) by done.
  destruct (Hbodies m (sv_durable sv)) as (d' & w' & Hrun); [by eapply list_elem_of_lookup_2|].
  set (sv1 := with_data (current sv) (Some (current sv)) sv).
  set (sv2 := with_data d' w' sv).
  assert (Hcur : current sv = sv_durable sv) by (unfold current; by rewrite Hw).
  assert (Hbody : serve (Body (mig_sql m)) sv1 = (sv2, true)).
  { simpl. rewrite (run_body_data _ _ d' w' true); [done|]. simpl. by rewrite Hcur. }
  assert (Hsame : recorded plan n (current sv2)).
  { apply (run_statements_full_same _ (sv_durable sv)) in Hrun as [Hc Hr]; [by eapply recorded_same|].
    intros f x b x'. apply Hkeeps. by eapply list_elem_of_lookup_2. }
  destruct (runs_record n m sv2 Hm Ha Hsame) as (x & Hx & Hrec').
  exists (with_data x None sv2). split; [|done].
  eapply runs_bind; [by apply (runs_driver Begin)|].
  eapply runs_bind; [|by apply runs_except].
  by apply runs_except, (runs_execute _ _ sv2).
Qed.

Lemma runs_pending k : forall n applied (sv : server), length plan - n = k -> n <= length plan ->
  ready n sv ->
  exists l sv', runs (apply_pending py_lower after_ddl statements plan (drop n plan) applied) sv l sv' /\
    ready (length plan) sv'.
Proof using Hwf Hpy Hkeeps Hbodies.
  induction k as [|k IH]; intros n applied sv Hk Hn Hr.
  - rewrite drop_ge by lia. exists applied, sv. split; [apply runs_ret|].
    by replace (length plan) with n by lia.
  - destruct (lookup_lt_is_Some_2 plan n) as (m & Hm); [lia|]. rewrite (drop_S _ _ _ Hm).
    destruct (runs_unit n m sv Hm Hr) as (sv1 & H1 & Hr1).
    destruct (IH (S n) (applied ++ [mig_name m]) sv1) as (l & sv2 & H2 & Hr2); [lia|lia|done|].
    exists l, sv2. split; [|done]. simpl. by eapply runs_bind.
Qed.

Lemma runs_ensure n adopt (sv : server) : reports_declared py_lower after_ddl ->
  sv_alive sv = true -> sv_working sv = None -> starts py_lower plan n (sv_durable sv) ->
  exists sv', runs (ensure_v2_history py_lower after_ddl statements plan adopt) sv false sv' /\
    recorded plan n (sv_durable sv') /\ sv_working sv' = None /\ sv_alive sv' = true /\
    sv_held sv' = sv_held sv /\ sv_other_holder sv' = sv_other_holder sv.
Proof using Type.
  intros Hrep Ha Hw Hst. assert (Hcur : current sv = sv_durable sv) by (unfold current; by rewrite Hw).
  destruct Hst as [Hrec|[Ht ->]].
  - exists sv. split; [|done]. eapply runs_bind; [by apply runs_shape|]. rewrite Hcur.
    destruct Hrec as (_ & Hv & _). unfold shape_of in Hv. rewrite Hv. apply runs_ret.
  - pose proof (created_recorded py_lower after_ddl plan _ Hrep Ht) as Hrec.
    exists (with_data (created after_ddl (sv_durable sv)) None sv). split; [|done].
    eapply runs_bind; [by apply runs_shape|]. rewrite Hcur.
    assert (Habs : history_shape py_lower (db_catalog (sv_durable sv)) = Absent)
      by (unfold history_shape; by rewrite Ht). rewrite Habs.
    assert (Hserve : serve (Ddl CreateHistory) sv =
      (with_data (created after_ddl (sv_durable sv)) None sv, true)).
    { simpl. unfold run_ddl. rewrite Hcur, Ht. done. }
    eapply runs_bind.
    { by eapply runs_execute. }
    eapply runs_bind; [by apply runs_shape|].
    eapply runs_bind; [apply runs_require, bool_decide_eq_true|apply runs_ret].
    by destruct Hrec as (_ & Hv & _).
Qed.

Lemma runs_or_raise {A} (m : program A) e sv a sv' : runs m sv a sv' -> runs (or_raise m e) sv a sv'.
Proof using Type. apply runs_except. Qed.

Lemma runs_acquire (sv : server) : sv_alive sv = true -> sv_other_holder sv = false ->
  runs (acquire_lock after_ddl statements) sv true (with_held (S (sv_held sv)) sv).
Proof using Type.
  intros Ha Ho. pose proof (runs_fetch_one GetLock sv Ha eq_refl) as H. simpl in H. rewrite Ho in H.
  eapply runs_bind; [by apply runs_or_raise, H|]. apply runs_ret.
Qed.

Lemma runs_release (sv : server) : sv_alive sv = true -> sv_other_holder sv = false ->
  sv_held sv = 1 -> runs (release_lock after_ddl statements) sv tt (with_held 0 sv).
Proof using Type.
  intros Ha Ho Hh s Hs Hsv. unfold release_lock. rewrite Hsv, Hh. revert s Hs Hsv.
  change (runs (release_rounds after_ddl statements 3 false) sv tt (with_held 0 sv)).
  pose proof (runs_fetch_one ReleaseLock sv Ha eq_refl Ha) as H1. simpl in H1. rewrite Hh in H1.
  pose proof (runs_fetch_one ReleaseLock (with_held 0 sv) Ha eq_refl Ha) as H2. simpl in H2.
  rewrite Ho in H2. eapply runs_bind; [by apply runs_or_raise, H1|].
  eapply runs_bind; [by apply runs_or_raise, H2|]. apply runs_ret.
Qed.

(** C40: an undisturbed call returns.  If nobody else holds the lock, the driver
    answers every command, the bodies run and leave the history alone, then
    [apply_mariadb_migrations] returns from a database without history as from
    one where any number of the migrations is recorded. *)
Theorem mariadb_migrate_completes n adopt s (Hrep : reports_declared py_lower after_ddl)
  (Hst : starts py_lower plan n (durable s))
  (Hfree : sv_held (cn_server s) = 0 /\ sv_other_holder (cn_server s) = false)
  (Hcalm : cn_script s = [] /\ sv_alive (cn_server s) = true /\ working s = None) :
  exists result s',
    apply_mariadb_migrations py_lower after_ddl statements plan adopt s = (inl result, s').
Proof using Hwf Hpy Hkeeps Hbodies.
  destruct Hfree as [Hh Ho], Hcalm as (Hs & Ha & Hw). set (sv := cn_server s) in *.
  set (sv1 := with_held 1 sv).
  destruct (runs_ensure n adopt sv1 Hrep Ha Hw Hst) as (sv2 & H2 & Hrec & Hw2 & Ha2 & Hh2 & Ho2).
  assert (Hr2 : ready n sv2) by exact (conj Ha2 (conj Hw2 (conj Hrec (conj Hh2 (eq_trans Ho2 Ho))))).
  assert (Hcur2 : current sv2 = sv_durable sv2) by (unfold current; by rewrite Hw2).
  pose proof Hrec as (Hn & Hv & Hdec).
  set (history := map history_record (take n plan)).
  assert (Hlen : length history = n) by (unfold history; rewrite length_map, length_take; lia).
  assert (Hval : validate_history_prefix history plan false 0 = Ok tt).
  { apply history_prefix_exact; [done|]. rewrite Hlen. split; [done|lia]. }
  set (sv3 := with_data (sv_durable sv2) None sv2).
  assert (Hr3 : ready n sv3) by exact (conj Ha2 (conj eq_refl (conj Hrec (conj Hh2 (eq_trans Ho2 Ho))))).
  destruct (runs_pending (length plan - n) n [] sv3 eq_refl Hn Hr3) as (l & sv4 & H4 & Hr4).
  destruct Hr4 as (Ha4 & _ & _ & Hh4 & Ho4).
  assert (Hrun : runs (apply_mariadb_migrations py_lower after_ddl statements plan adopt) sv
    (MigrationResult l (map rec_name history) false) (with_held 0 sv4)).
  { eapply runs_bind; [by apply runs_acquire|]. rewrite Hh. simpl. eapply runs_finally.
    - apply runs_except. eapply runs_bind; [exact H2|].
      eapply runs_bind; [by eapply runs_history; [|rewrite Hcur2; exact Hv|rewrite Hcur2; exact Hdec]|].
      eapply runs_bind; [by apply runs_lift|]. eapply runs_bind; [by apply runs_rollback|].
      fold history. rewrite Hlen. eapply runs_bind; [exact H4|apply runs_ret].
    - eapply runs_bind; [by apply runs_release|].
      eapply runs_bind; [|eapply runs_bind; [by apply (runs_quiet (with_held 0 sv4))|apply runs_ret]].
      intros s5 Hs5 Hsv5. exists (set_reusable true s5). done. }
  destruct (Hrun s Hs eq_refl) as (s' & H & _). eauto.
Qed.
End undisturbed.

(** ** A concrete MariaDB *)

Definition ascii_lower (s : utext) : utext :=
  map (fun c => if (65 <=? c)%Z && (c <=? 90)%Z then (c + 32)%Z else c) s.

Definition history_object : list (list cell) :=
  [[CText mariadb_history_table; CText (u "BASE TABLE"); CText (u "InnoDB")]].
Definition demo_catalog (d : ddl) (c : catalog) : catalog :=
  match d with
  | AddStagingColumns =>
      Catalog history_object
        [legacy_name_column; applied_at_column; staging_position_column; staging_checksum_column]
        legacy_indexes [] legacy_constraints []
  | _ =>
      Catalog history_object [position_column; name_column; checksum_column; applied_at_column]
        expected_indexes
        (map (fun x => (fst x, map (fun c => if (97 <=? c)%Z && (c <=? 122)%Z then (c - 32)%Z else c)
                                 (snd x))) (map_to_list expected_checks))
        expected_constraints []
  end.

Lemma demo_reports : reports_declared ascii_lower demo_catalog.
Proof. split_and!; intros; vm_compute; reflexivity. Qed.

(** Each body is one transactional statement that notes it in the data. *)
Definition demo_statements (sql : utext)
    : list (database (W := list utext) -> option (bool * database (W := list utext))) :=
  [fun db => Some (false, Database (db_catalog db) (db_rows db) (db_world db ++ [sql]))].

Definition empty_database : database (W := list utext) :=
  Database (Catalog [] [] [] [] [] []) [] [].
Definition fresh_conn (db : database (W := list utext)) (script : list answer) : conn :=
  Conn (Server db None 0 false true (u "2026-01-01 00:00:00.000")) false [] script.

Abbreviation demo_apply := (apply_mariadb_migrations ascii_lower demo_catalog demo_statements).

Lemma demo_keeps : keeps_history demo_statements demo_plan.
Proof.
  intros m f db b db' _ Hf%list_elem_of_singleton Heq. subst f. by injection Heq as _ <-.
Qed.

Lemma demo_text m : m ∈ demo_plan -> python_text (mig_name m).
Proof.
  revert m. apply Forall_forall. repeat constructor; vm_compute; discriminate.
Qed.

(** The whole declaration from nothing. *)
Definition demo_result : migration_result :=
  MigrationResult (map mig_name demo_plan) [] false.
Definition demo_after : conn := snd (demo_apply demo_plan false (fresh_conn empty_database [])).

Lemma demo_migration_run :
  demo_apply demo_plan false (fresh_conn empty_database []) = (inl demo_result, demo_after).
Proof.
  assert (H : fst (demo_apply demo_plan false (fresh_conn empty_database [])) = inl demo_result)
    by (vm_compute; reflexivity).
  rewrite <- H. apply surjective_pairing.
Qed.

Lemma mariadb_migrate_completes_witness : exists result s',
  demo_apply demo_plan true (fresh_conn empty_database []) = (inl result, s').
Proof.
  apply (mariadb_migrate_completes ascii_lower demo_catalog demo_statements demo_plan
    demo_plan_well_formed demo_text demo_keeps) with (n := 0).
  - intros m d _. eexists _, _. reflexivity.
  - exact demo_reports.
  - right. split; reflexivity.
  - split; reflexivity.
  - split_and!; reflexivity.
Defined.

Lemma mariadb_migrate_success_witness :
  res_already_applied demo_result ++ res_applied demo_result = map mig_name demo_plan.
Proof.
  apply (mariadb_migrate_success ascii_lower demo_catalog demo_statements demo_plan false
    (fresh_conn empty_database []) demo_result demo_after demo_plan_well_formed eq_refl demo_migration_run).
Defined.

(** A call that loses its connection while it records the second migration,
    and a second call: the first body ran once. *)
Definition interrupted : list answer := repeat Done 60 ++ [Fault false (Killed false)].
Definition demo_halfway : conn := snd (demo_apply demo_plan false (fresh_conn empty_database interrupted)).

Lemma demo_halfway_run : exists r,
  demo_apply demo_plan false (fresh_conn empty_database interrupted) = (r, demo_halfway).
Proof. eexists. apply surjective_pairing. Qed.

Lemma mariadb_lock_discipline_witness :
  Forall (fun x => owned (fst x) = true -> snd x = true) (cn_sent demo_halfway).
Proof.
  destruct demo_halfway_run as [r H].
  apply (mariadb_lock_discipline ascii_lower demo_catalog demo_statements demo_plan false
    (fresh_conn empty_database interrupted) r demo_halfway); [split_and!; reflexivity|exact H].
Defined.

Lemma mariadb_migrations_exactly_once_witness : exists n,
  recorded ascii_lower demo_plan n (durable demo_halfway) /\
  units demo_statements demo_plan 0 (created demo_catalog empty_database) n (durable demo_halfway).
Proof.
  destruct demo_halfway_run as [r H].
  destruct (mariadb_migrations_exactly_once ascii_lower demo_catalog demo_statements demo_plan
    empty_database (durable demo_halfway) demo_plan_well_formed demo_reports demo_keeps eq_refl)
    as [Hd|(n & Hrec & Hu)].
  - exact (calls_one _ _ _ _ _ false (fresh_conn empty_database interrupted) r demo_halfway
      (calls_none _ _ _ _ _) eq_refl H).
  - exfalso. apply (f_equal (fun db => length (db_rows db))) in Hd. vm_compute in Hd. discriminate.
  - exists n. split; [exact Hrec|]. apply Hu. intros m f db db' _ Hf Heq.
    apply list_elem_of_singleton in Hf. subst f. discriminate.
Defined.

Example demo_halfway_data :
  length (db_rows (durable demo_halfway)) = 1 /\ db_world (durable demo_halfway) = [u "CREATE TABLE t(a);"].
Proof. split; vm_compute; reflexivity. Qed.
