(* ===== verification/CheckExpr.v ===== *)
(** * CHECK expressions

    [CheckExpression] of [_checks.py] and [normalize_check] of
    [_check_catalog.py], with the three-valued meaning SQL gives to such an
    expression.  Normalization ends, is idempotent, and keeps the meaning of
    every expression whose comparisons are between columns and literals; a
    double negation inside a comparison it does not keep. *)

From S2P Require Export SqlTokens.

(** ** Data *)

(** The operators, a string in the source. *)
Inductive check_operator :=
  | Col | Lit | Not | And | Or
  | Eq_ | Ne_ | Gt_ | Gte_ | Lt_ | Lte_
  | IsNull | IsNotNull | In_ | NotIn | Between.
#[export] Instance check_operator_eq_dec : EqDecision check_operator.
Proof. solve_decision. Defined.

(** [str | int | None] *)
Inductive check_value := VNone | VInt (n : Z) | VStr (s : utext).
#[export] Instance check_value_eq_dec : EqDecision check_value.
Proof. solve_decision. Defined.

Inductive check_expression :=
  CheckExpression (operator : check_operator) (arguments : list check_expression)
    (value : check_value).

Definition ce_operator '(CheckExpression o _ _) := o.
Definition ce_arguments '(CheckExpression _ a _) := a.
Definition ce_value '(CheckExpression _ _ v) := v.

Definition column_ (name : utext) : check_expression := CheckExpression Col [] (VStr name).
Definition literal (v : check_value) : check_expression := CheckExpression Lit [] v.
Definition node (o : check_operator) (args : list check_expression) : check_expression :=
  CheckExpression o args VNone.

Section check_expression_ind.
Variable P : check_expression -> Prop.
Hypothesis H : forall o args v, Forall P args -> P (CheckExpression o args v).
Fixpoint check_expression_induction (e : check_expression) : P e :=
  match e with
  | CheckExpression o args v =>
      H o args v ((fix go l : Forall P l :=
        match l with
        | [] => Forall_nil_2 _
        | x :: l' => Forall_cons_2 _ _ _ (check_expression_induction x) (go l')
        end) args)
  end.
End check_expression_ind.

#[export] Instance check_expression_eq_dec : EqDecision check_expression.
Proof.
  refine (fix go x y :=
    let _ : EqDecision check_expression := go in
    match x, y with
    | CheckExpression o args v, CheckExpression o' args' v' =>
        cast_if_and3 (decide (o = o')) (decide (args = args')) (decide (v = v'))
    end); abstract congruence.
Defined.

(** The columns that an expression mentions. *)
Fixpoint columns_within (names : list utext) (e : check_expression) : Prop :=
  match e with
  | CheckExpression o args v =>
      match o, v with
      | Col, VStr name => args = [] /\ name ∈ names
      | _, _ => foldr (fun x P => columns_within names x /\ P) True args
      end
  end.

(** ** [normalize_check] *)

(** The operator a negation is pushed into. *)
Definition complement (o : check_operator) : option check_operator :=
  match o with
  | Eq_ => Some Ne_ | Ne_ => Some Eq_ | Gt_ => Some Lte_ | Gte_ => Some Lt_
  | Lt_ => Some Gte_ | Lte_ => Some Gt_ | IsNull => Some IsNotNull | IsNotNull => Some IsNull
  | In_ => Some NotIn | NotIn => Some In_ | _ => None
  end.

Definition boolean_dual (o : check_operator) : option check_operator :=
  match o with And => Some Or | Or => Some And | _ => None end.

(** One member of a conjunction or disjunction, spliced when it is one itself. *)
Definition members (o : check_operator) (child : check_expression) : list check_expression :=
  if bool_decide (ce_operator child = o) then ce_arguments child else [child].

(** The body after its first line; [next] is the recursive call.  A negation
    without an argument is never built: the source would raise on [NOT] of one. *)
Definition normalize_node (next : check_expression -> check_expression) (o : check_operator)
    (arguments : list check_expression) (v : check_value) : check_expression :=
  match o, arguments with
  | Not, child :: _ =>
      match boolean_dual (ce_operator child) with
      | Some dual => next (node dual (map (fun member => node Not [member]) (ce_arguments child)))
      | None =>
          match complement (ce_operator child) with
          | Some operator => node operator (ce_arguments child)
          | None =>
              match ce_operator child, ce_arguments child with
              | Not, grandchild :: _ => grandchild
              | _, _ => CheckExpression Not arguments v
              end
          end
      end
  | And, _ | Or, _ => CheckExpression o (flat_map (members o) arguments) v
  | _, _ => CheckExpression o arguments v
  end.

Fixpoint normalize_from (fuel : nat) (e : check_expression) : check_expression :=
  match fuel with
  | O => e
  | S fuel =>
      normalize_node (normalize_from fuel) (ce_operator e)
        (map (normalize_from fuel) (ce_arguments e)) (ce_value e)
  end.

(** A measure that every recursive call decreases: a negation weighs more than
    the two nodes De Morgan's rule swaps. *)
Fixpoint weight (e : check_expression) : nat :=
  match e with
  | CheckExpression o args _ =>
      let inner := list_max (map weight args) in
      match o with Not => S (2 * inner) | _ => S inner end
  end.

Definition normalize_check (e : check_expression) : check_expression := normalize_from (weight e) e.

(** ** Fuel *)

Lemma list_max_Forall l n : list_max l <= n <-> Forall (fun k => k <= n) l.
Proof. apply list_max_le. Qed.

Lemma weight_pos e : 0 < weight e.
Proof. destruct e as [o args v]. cbn [weight]. destruct o; lia. Qed.

Lemma arguments_weight (args : list check_expression) :
  Forall (fun x => weight x <= list_max (map weight args)) args.
Proof. pose proof (proj1 (list_max_Forall (map weight args) _) (Nat.le_refl _)) as H. by apply Forall_map in H. Qed.

Lemma weight_bound o args v n : Forall (fun x => weight x <= n) args ->
  weight (CheckExpression o args v) <= match o with Not => S (2 * n) | _ => S n end.
Proof.
  intros H. assert (Hm : list_max (map weight args) <= n) by (apply list_max_Forall; by apply Forall_map).
  cbn [weight]. destruct o; lia.
Qed.

Lemma weight_children e : Forall (fun x => S (weight x) <= weight e) (ce_arguments e).
Proof.
  destruct e as [o args v]. eapply Forall_impl; [apply (arguments_weight args)|].
  intros x Hx. cbn [weight] in *. destruct o; lia.
Qed.

Lemma children_weight e n : weight e <= n -> Forall (fun x => weight x <= pred n) (ce_arguments e).
Proof. intros H. eapply Forall_impl; [apply weight_children|]. simpl. lia. Qed.

Lemma members_weight o args n : Forall (fun x => weight x <= n) args ->
  Forall (fun x => weight x <= n) (flat_map (members o) args).
Proof.
  induction 1 as [|x args Hx _ IH]; simpl; [done|]. apply Forall_app. split; [|done].
  unfold members. case_bool_decide; [|by constructor].
  eapply Forall_impl; [by apply children_weight|]. simpl. lia.
Qed.

Lemma dual_not o dual : boolean_dual o = Some dual -> dual <> Not.
Proof. by destruct o; intros [= <-]. Qed.
Lemma complement_not o o' : complement o = Some o' -> o' <> Not.
Proof. by destruct o; intros [= <-]. Qed.

(** De Morgan's rule makes the expression lighter. *)
Lemma dual_weight dual ms n : dual <> Not -> Forall (fun x => weight x <= n) ms ->
  weight (node dual (map (fun member => node Not [member]) ms)) <= S (S (2 * n)).
Proof.
  intros Hd H. etrans; [apply (weight_bound _ _ _ (S (2 * n)))|by destruct dual].
  apply Forall_map. eapply Forall_impl; [done|]. intros x Hx. simpl.
  apply (weight_bound Not [x] VNone n). by constructor.
Qed.

Lemma map_agree {A B} (f g : A -> B) l : Forall (fun x => f x = g x) l -> map f l = map g l.
Proof. induction 1; simpl; congruence. Qed.

(** The calls of a round are on lighter expressions, and their result is not
    heavier: so the rounds end, and more fuel changes nothing. *)
Lemma normalize_from_enough n : forall e m, weight e <= n -> weight e <= m ->
  normalize_from n e = normalize_from m e /\ weight (normalize_from n e) <= weight e.
Proof.
  induction n as [|n IH]; intros [o args v] m Hn Hm; [pose proof (weight_pos (CheckExpression o args v)); lia|].
  destruct m as [|m]; [pose proof (weight_pos (CheckExpression o args v)); lia|].
  cbn [normalize_from ce_operator ce_arguments ce_value].
  pose proof (children_weight _ _ Hn) as Ha. pose proof (children_weight _ _ Hm) as Hb.
  cbn [ce_arguments pred] in Ha, Hb.
  assert (Hmap : map (normalize_from n) args = map (normalize_from m) args).
  { apply map_agree. rewrite Forall_forall in *. intros x Hx. by apply IH; [apply Ha|apply Hb]. }
  rewrite <- Hmap. set (W := list_max (map weight args)).
  assert (HW : Forall (fun x => weight x <= W) (map (normalize_from n) args)).
  { apply Forall_map. pose proof (arguments_weight args) as HF. rewrite Forall_forall in *.
    intros x Hx. destruct (IH x n) as [_ Hle]; [by apply Ha..|]. specialize (HF x Hx).
    fold W in HF. lia. }
  assert (He : weight (CheckExpression o args v) = match o with Not => S (2 * W) | _ => S W end)
    by (by destruct o). rewrite He in *.
  generalize (map (normalize_from n) args) HW. clear Ha Hb Hmap HW He. intros args' HW.
  assert (Hkeep : forall o' args'' v', o' <> Not -> Forall (fun x => weight x <= W) args'' ->
    weight (CheckExpression o' args'' v') <= S W).
  { intros o' args'' v' Ho' HF. etrans; [by apply (weight_bound _ _ _ W)|]. by destruct o'. }
  destruct o; cbn [normalize_node];
    try (split; [done|apply Hkeep; [done|try apply members_weight; done]]).
  destruct args' as [|c args']; [split; [done|]; cbn; lia|].
  apply Forall_cons in HW as HW'. destruct HW' as [Hc _].
  pose proof (children_weight _ _ Hc) as Hcs. pose proof (weight_pos c).
  destruct (boolean_dual (ce_operator c)) as [dual|] eqn:Hd.
  - assert (Hw : weight (node dual (map (fun x => node Not [x]) (ce_arguments c))) <= S (S (2 * pred W))).
    { apply dual_weight; [|done]. by eapply dual_not. }
    destruct (IH (node dual (map (fun x => node Not [x]) (ce_arguments c))) m) as [Heq Hle]; [lia..|].
    split; [done|]. lia.
  - destruct (complement (ce_operator c)) as [o'|] eqn:Ho.
    + split; [done|]. etrans; [apply Hkeep|lia]; [by eapply complement_not|].
      eapply Forall_impl; [done|]. simpl. lia.
    + assert (Hsame : weight (CheckExpression Not (c :: args') v) <= S (2 * W))
        by (by apply (weight_bound Not)).
      destruct (ce_operator c), (ce_arguments c) as [|g gs] eqn:Hg; try done.
      apply Forall_cons in Hcs as [Hg' _]. split; [done|]. lia.
Qed.

Lemma normalize_weight e : weight (normalize_check e) <= weight e.
Proof. by apply (normalize_from_enough _ e (weight e)). Qed.

Lemma normalize_node_ext f g o args v :
  (forall x, weight x <= weight (CheckExpression o args v) -> f x = g x) ->
  normalize_node f o args v = normalize_node g o args v.
Proof.
  intros H. destruct o; try done. destruct args as [|c args]; [done|]. cbn [normalize_node].
  destruct (boolean_dual (ce_operator c)) as [dual|] eqn:Hd; [|done]. apply H.
  etrans; [apply (dual_weight _ _ (pred (weight c)))|].
  - by eapply dual_not.
  - by apply children_weight.
  - pose proof (weight_pos c). pose proof (arguments_weight (c :: args)) as HF.
    apply Forall_cons in HF as [HF _]. cbn [weight]. lia.
Qed.

(** [normalize_check] is the recursion of the source. *)
Lemma normalize_check_unfold o args v :
  normalize_check (CheckExpression o args v) =
  normalize_node normalize_check o (map normalize_check args) v.
Proof.
  set (e := CheckExpression o args v).
  pose proof (weight_children e) as Hc. cbn [ce_arguments e] in Hc.
  assert (Hall : forall x, weight x <= weight e -> normalize_from (weight e) x = normalize_check x).
  { intros x Hx. by apply normalize_from_enough. }
  transitivity (normalize_from (S (weight e)) e); [symmetry; apply normalize_from_enough; lia|].
  cbn [normalize_from e ce_operator ce_arguments ce_value]. fold e.
  rewrite (map_agree (normalize_from (weight e)) normalize_check).
  2: { eapply Forall_impl; [done|]. intros x Hx. apply Hall. cbv beta in Hx. lia. }
  apply normalize_node_ext. intros x Hx. apply Hall. etrans; [done|].
  assert (HF : Forall (fun x => weight x <= list_max (map weight args)) (map normalize_check args)).
  { apply Forall_map. eapply Forall_impl; [apply arguments_weight|]. intros y Hy. cbv beta in Hy.
    pose proof (normalize_weight y). lia. }
  etrans; [by apply (weight_bound o _ v)|]. subst e. by destruct o.
Qed.

(** ** The meaning of an expression

    A value of the database is [VNone] for NULL.  How the backend orders two
    values that are not NULL, and which of them count as true, are its own:
    [compare_values] and [text_truth]. *)

Section semantics.
Context (compare_values : check_value -> check_value -> comparison) (text_truth : utext -> bool).

(** Kleene's three values; [None] is unknown. *)
Definition truth (v : check_value) : option bool :=
  match v with
  | VNone => None
  | VInt n => Some (negb (n =? 0)%Z)
  | VStr s => Some (text_truth s)
  end.
Definition of_truth (t : option bool) : check_value :=
  match t with None => VNone | Some b => VInt (if b then 1 else 0) end.
Definition not3 (t : option bool) : option bool := negb <$> t.
Definition and3 (s t : option bool) : option bool :=
  match s, t with
  | Some false, _ | _, Some false => Some false
  | Some true, Some true => Some true
  | _, _ => None
  end.
Definition or3 (s t : option bool) : option bool :=
  match s, t with
  | Some true, _ | _, Some true => Some true
  | Some false, Some false => Some false
  | _, _ => None
  end.

Definition compare3 (test : comparison -> bool) (x y : check_value) : option bool :=
  match x, y with
  | VNone, _ | _, VNone => None
  | _, _ => Some (test (compare_values x y))
  end.
Definition is_eq (c : comparison) := match c with Eq => true | _ => false end.
Definition is_gt (c : comparison) := match c with Gt => true | _ => false end.
Definition is_lt (c : comparison) := match c with Lt => true | _ => false end.
Definition in3 (x : check_value) (ys : list check_value) : option bool :=
  foldr (fun y t => or3 (compare3 is_eq x y) t) (Some false) ys.

(** The meaning of an operator; [None] when it has other operands. *)
Definition apply_check (o : check_operator) (xs : list check_value) : option bool :=
  match o, xs with
  | Not, [x] => not3 (truth x)
  | And, _ => foldr (fun x t => and3 (truth x) t) (Some true) xs
  | Or, _ => foldr (fun x t => or3 (truth x) t) (Some false) xs
  | Eq_, [x; y] => compare3 is_eq x y
  | Ne_, [x; y] => compare3 (fun c => negb (is_eq c)) x y
  | Gt_, [x; y] => compare3 is_gt x y
  | Gte_, [x; y] => compare3 (fun c => negb (is_lt c)) x y
  | Lt_, [x; y] => compare3 is_lt x y
  | Lte_, [x; y] => compare3 (fun c => negb (is_gt c)) x y
  | IsNull, [x] => Some (bool_decide (x = VNone))
  | IsNotNull, [x] => Some (negb (bool_decide (x = VNone)))
  | In_, x :: ys => in3 x ys
  | NotIn, x :: ys => not3 (in3 x ys)
  | Between, [x; low; high] =>
      and3 (compare3 (fun c => negb (is_lt c)) x low) (compare3 (fun c => negb (is_gt c)) x high)
  | _, _ => None
  end.

(** [row] gives the value of each column. *)
Fixpoint eval (row : utext -> check_value) (e : check_expression) : check_value :=
  match e with
  | CheckExpression o args v =>
      match o, v with
      | Col, VStr name => row name
      | Col, _ => VNone
      | Lit, _ => v
      | _, _ => of_truth (apply_check o (map (eval row) args))
      end
  end.

(** A CHECK holds of a row unless it is false. *)
Definition passes (row : utext -> check_value) (e : check_expression) : bool :=
  negb (bool_decide (truth (eval row e) = Some false)).

(** The expressions that tables declare: comparisons are between columns and
    literals. *)
Definition scalar (e : check_expression) : bool := bool_decide (ce_operator e = Col \/ ce_operator e = Lit).
Fixpoint bounded (e : check_expression) : bool :=
  match e with
  | CheckExpression o args v =>
      match o with
      | Col | Lit => true
      | And | Or => forallb bounded args
      | Not => match args with [x] => bounded x | _ => false end
      | _ => forallb scalar args
      end
  end.

Lemma truth_of_truth t : truth (of_truth t) = t.
Proof using Type. by destruct t as [[]|]. Qed.
Lemma of_truth_null t : bool_decide (of_truth t = VNone) = bool_decide (t = None).
Proof using Type. by destruct t as [[]|]. Qed.
Lemma and3_assoc s t r : and3 (and3 s t) r = and3 s (and3 t r).
Proof using Type. by destruct s as [[]|], t as [[]|], r as [[]|]. Qed.
Lemma or3_assoc s t r : or3 (or3 s t) r = or3 s (or3 t r).
Proof using Type. by destruct s as [[]|], t as [[]|], r as [[]|]. Qed.
Lemma not3_and s t : not3 (and3 s t) = or3 (not3 s) (not3 t).
Proof using Type. by destruct s as [[]|], t as [[]|]. Qed.
Lemma not3_or s t : not3 (or3 s t) = and3 (not3 s) (not3 t).
Proof using Type. by destruct s as [[]|], t as [[]|]. Qed.
Lemma not3_twice t : not3 (not3 t) = t.
Proof using Type. by destruct t as [[]|]. Qed.

(** Conjunction and disjunction, as one operation. *)
Definition bool3 (o : check_operator) : option bool -> option bool -> option bool :=
  match o with And => and3 | _ => or3 end.
Definition unit3 (o : check_operator) : option bool := Some (bool_decide (o = And)).
Definition all3 (o : check_operator) (ts : list (option bool)) : option bool :=
  foldr (bool3 o) (unit3 o) ts.

Lemma all3_app o ts ts' : all3 o (ts ++ ts') = bool3 o (all3 o ts) (all3 o ts').
Proof using Type.
  induction ts as [|t ts IH]; simpl.
  - unfold unit3. destruct o; by destruct (all3 _ ts') as [[]|].
  - rewrite IH. destruct o; simpl; by rewrite ?and3_assoc, ?or3_assoc.
Qed.

Lemma all3_dual o dual ts : boolean_dual o = Some dual ->
  all3 dual (map not3 ts) = not3 (all3 o ts).
Proof using Type.
  intros Hd. induction ts as [|t ts IH]; simpl.
  - by destruct o; simplify_eq/=.
  - rewrite IH. destruct o; simplify_eq/=; by rewrite ?not3_and, ?not3_or.
Qed.

Definition holds (row : utext -> check_value) (e : check_expression) : option bool := truth (eval row e).

Lemma holds_bool row o args v : boolean_dual o <> None ->
  holds row (CheckExpression o args v) = all3 o (map (holds row) args).
Proof using Type.
  intros Ho. unfold holds. destruct o; try done; cbn [eval]; rewrite truth_of_truth; simpl; clear Ho;
    (induction args as [|x args IH]; simpl; [done|]); by rewrite IH.
Qed.

Lemma holds_not row x v : holds row (CheckExpression Not [x] v) = not3 (holds row x).
Proof using Type. unfold holds. cbn [eval]. by rewrite truth_of_truth. Qed.

Lemma holds_complement row o o' args v v' : complement o = Some o' ->
  holds row (CheckExpression o' args v') = not3 (holds row (CheckExpression o args v)).
Proof using Type.
  intros Ho. unfold holds.
  destruct o; simplify_eq/=; rewrite !truth_of_truth; generalize (map (eval row) args); intros xs;
    destruct xs as [|x [|y [|z xs]]]; try done; simpl; rewrite ?not3_twice, ?negb_involutive; try done;
    by destruct x, y; simpl; try done; destruct (compare_values _ _).
Qed.

Lemma holds_members row o args : boolean_dual o <> None ->
  all3 o (map (holds row) (flat_map (members o) args)) = all3 o (map (holds row) args).
Proof using Type.
  intros Ho. induction args as [|x args IH]; [done|].
  cbn [flat_map map]. rewrite map_app, all3_app, IH. simpl. f_equal. unfold members.
  case_bool_decide as Hx.
  - destruct x as [ox xs vx]. simpl in Hx. subst ox. simpl. by rewrite holds_bool.
  - simpl. unfold unit3. by destruct o, (holds row x) as [[]|].
Qed.

Lemma scalar_children args : forallb scalar args = true ->
  forallb scalar (map normalize_check args) = true /\
  forall row, map (eval row) (map normalize_check args) = map (eval row) args.
Proof using Type.
  induction args as [|[o xs v] args IH]; simpl; [done|]. rewrite andb_true_iff. intros [Ho H].
  destruct (IH H) as [-> IHe]. unfold scalar in *. apply bool_decide_eq_true in Ho.
  destruct Ho as [Ho | Ho]; simpl in Ho; subst o; rewrite normalize_check_unfold;
    (split; [done|]); intros row; by rewrite IHe.
Qed.

Lemma bounded_members o args : boolean_dual o <> None -> forallb bounded args = true ->
  forallb bounded (flat_map (members o) args) = true.
Proof using Type.
  intros Hd. induction args as [|[ox xs v] args IH]; [done|]. cbn [flat_map forallb].
  rewrite andb_true_iff, forallb_app, andb_true_iff. intros [Hx H]. split; [|by apply IH].
  unfold members. simpl. case_bool_decide as Ho; [|by cbn [forallb]; rewrite Hx].
  subst ox. by destruct o.
Qed.

Lemma bounded_bool o args v : boolean_dual o <> None ->
  bounded (CheckExpression o args v) = forallb bounded args.
Proof using Type. by destruct o. Qed.

Lemma bounded_complement o o' args v v' : complement o = Some o' ->
  bounded (CheckExpression o args v) = bounded (CheckExpression o' args v').
Proof using Type. by destruct o; intros [= <-]. Qed.

Lemma dual_some o dual : boolean_dual o = Some dual -> boolean_dual o <> None /\ boolean_dual dual <> None.
Proof using Type. by destruct o; intros [= <-]. Qed.

(** Normalization keeps the truth of an expression in every row. *)
Lemma normalize_holds n : forall e, weight e <= n -> bounded e = true ->
  bounded (normalize_check e) = true /\
  forall row, holds row (normalize_check e) = holds row e.
Proof using Type.
  induction n as [|n IH]; intros [o args v] Hn Hb; [pose proof (weight_pos (CheckExpression o args v)); lia|].
  pose proof (children_weight _ _ Hn) as Hw. cbn [ce_arguments pred] in Hw.
  rewrite normalize_check_unfold.
  destruct (decide (boolean_dual o = None)) as [Ho|Ho].
  2: { assert (Hargs : forallb bounded (map normalize_check args) = true /\
         forall row, map (holds row) (map normalize_check args) = map (holds row) args).
       { rewrite bounded_bool in Hb by done. clear Hn. induction Hw as [|x args Hx _ IHargs]; [done|].
         simpl in *. apply andb_true_iff in Hb as [Hbx Hb].
         destruct (IH x Hx Hbx) as [-> Hh]. destruct (IHargs Hb) as [-> Hh'].
         split; [done|]. intros row. by rewrite Hh, Hh'. }
       destruct Hargs as [Hba Hha].
       assert (Hnode : forall next xs, normalize_node next o xs v =
         CheckExpression o (flat_map (members o) xs) v) by (by destruct o).
       rewrite Hnode. split; [by rewrite bounded_bool; [apply bounded_members|]|].
       intros row. by rewrite !holds_bool, holds_members, Hha. }
  destruct (decide (o = Not)) as [-> | Hnot].
  2: { assert (Hnode : forall next xs, normalize_node next o xs v = CheckExpression o xs v)
         by (by destruct o).
       rewrite Hnode. destruct (decide (o = Col \/ o = Lit)) as [[-> | ->]|Hs]; [done..|].
       assert (Hbs : forall xs w, bounded (CheckExpression o xs w) = forallb scalar xs)
         by (intros; destruct o; naive_solver).
       rewrite Hbs in Hb. destruct (scalar_children args Hb) as [Hs' He].
       split; [by rewrite Hbs|]. intros row. unfold holds.
       assert (Hev : forall xs, eval row (CheckExpression o xs v) =
         of_truth (apply_check o (map (eval row) xs))) by (intros; destruct o; naive_solver).
       by rewrite !Hev, He. }
  simpl in Hb. destruct args as [|x [|y args]]; try done.
  apply Forall_cons in Hw as [Hx _]. destruct (IH x Hx Hb) as [Hbc Hc].
  pose proof (normalize_weight x) as Hwc. cbn [map normalize_node].
  destruct (normalize_check x) as [oc cs vc] eqn:Hnx. cbn [ce_operator ce_arguments].
  assert (Hnot : forall row, holds row (CheckExpression Not [x] v) = not3 (holds row (CheckExpression oc cs vc))).
  { intros row. by rewrite holds_not, Hc. }
  destruct (boolean_dual oc) as [dual|] eqn:Hd.
  - destruct (dual_some _ _ Hd) as [Hoc Hdual].
    destruct (IH (node dual (map (fun m => node Not [m]) cs))) as [Hbn Hhn].
    + etrans; [apply (dual_weight _ _ (pred (weight x)))|].
      * by eapply dual_not.
      * eapply (children_weight (CheckExpression oc cs vc)). done.
      * pose proof (weight_pos x). cbn [weight map list_max foldr] in Hn. lia.
    + unfold node at 1. rewrite bounded_bool in * by done. rewrite <- Hbc. clear.
      induction cs as [|m cs IHcs]; simpl; [done|]. by rewrite IHcs.
    + split; [done|]. intros row. rewrite Hhn, Hnot. unfold node. rewrite !holds_bool by done.
      rewrite <- (all3_dual _ _ _ Hd), !map_map. f_equal. apply map_ext. intros m. apply holds_not.
  - destruct (complement oc) as [o'|] eqn:Hco.
    + split; [unfold node; by rewrite <- (bounded_complement oc o' cs vc)|]. intros row.
      rewrite Hnot. by apply holds_complement.
    + assert (Hkeep : bounded (CheckExpression Not [CheckExpression oc cs vc] v) = true /\
        forall row, holds row (CheckExpression Not [CheckExpression oc cs vc] v) =
          holds row (CheckExpression Not [x] v)).
      { split; [done|]. intros row. by rewrite Hnot, holds_not. }
      destruct (decide (oc = Not)) as [-> | Hoc]; [|by destruct oc].
      destruct cs as [|g [|]]; try done. split; [done|].
      intros row. by rewrite Hnot, holds_not, not3_twice.
Qed.

(** C16: normalizing a CHECK keeps its meaning.  For a CHECK that compares columns
    and literals ([bounded]: conditions joined by AND, OR and NOT, with no condition
    inside a comparison; tables declare no others), on every row, and under any
    ordering of the values and any truth of texts, the expression and its normal
    form are both true, both false or both unknown.  (Inside a comparison a
    double negation is removed although that changes the value.) *)
Theorem normalize_check_sound e row (Hb : bounded e = true) :
  holds row (normalize_check e) = holds row e.
Proof using Type. by apply (normalize_holds (weight e)). Qed.
End semantics.

(** ** Normal forms *)

(** Negations are only above what has no complement, and nested conjunctions
    and disjunctions are spliced. *)
Definition normal_here (e : check_expression) : bool :=
  match ce_operator e, ce_arguments e with
  | And, args | Or, args => forallb (fun x => negb (bool_decide (ce_operator x = ce_operator e))) args
  | Not, c :: _ =>
      match boolean_dual (ce_operator c), complement (ce_operator c), ce_operator c, ce_arguments c with
      | None, None, Not, _ :: _ => false
      | None, None, _, _ => true
      | _, _, _, _ => false
      end
  | _, _ => true
  end.
Fixpoint normal (e : check_expression) : bool :=
  match e with CheckExpression o args v => normal_here e && forallb normal args end.

Lemma normal_members o args : boolean_dual o <> None -> forallb normal args = true ->
  normal (CheckExpression o (flat_map (members o) args) VNone) = true.
Proof.
  intros Ho. induction args as [|x args IH]; [by destruct o|]. cbn [forallb]. rewrite andb_true_iff.
  intros [Hx H]. specialize (IH H).
  assert (Hnode : forall xs, normal (CheckExpression o xs VNone) =
    forallb (fun x => negb (bool_decide (ce_operator x = o))) xs && forallb normal xs) by (by destruct o).
  rewrite Hnode in *. cbn [flat_map]. rewrite !forallb_app. apply andb_true_iff in IH as [-> ->].
  rewrite !andb_true_r. unfold members. case_bool_decide as Hop.
  - destruct x as [ox xs v]. simpl in Hop. subst ox. by destruct o.
  - simpl. rewrite bool_decide_eq_false_2 by done. by rewrite Hx.
Qed.

Lemma normal_value o args v v' : normal (CheckExpression o args v) = normal (CheckExpression o args v').
Proof. done. Qed.

Lemma normal_children e : normal e = true -> forallb normal (ce_arguments e) = true.
Proof. destruct e as [o args v]. cbn [normal ce_arguments]. by rewrite andb_true_iff; intros [_ H]. Qed.

Lemma normalize_normal n : forall e, weight e <= n -> normal (normalize_check e) = true.
Proof.
  induction n as [|n IH]; intros [o args v] Hn; [pose proof (weight_pos (CheckExpression o args v)); lia|].
  pose proof (children_weight _ _ Hn) as Hw. cbn [ce_arguments pred] in Hw.
  rewrite normalize_check_unfold.
  assert (Hargs : forallb normal (map normalize_check args) = true).
  { apply forallb_forall. intros y Hy. apply in_map_iff in Hy as (x & <- & Hx).
    apply IH. rewrite Forall_forall in Hw. by apply Hw, list_elem_of_In. }
  destruct o; cbn [normalize_node]; try (by rewrite normal_value with (v' := VNone); apply normal_members);
    try exact Hargs.
  destruct args as [|x args]; [done|]. apply Forall_cons in Hw as [Hx _]. cbn [map] in *.
  pose proof (normalize_weight x) as Hwc. cbn [forallb] in Hargs. apply andb_true_iff in Hargs as [Hc Hrest].
  destruct (normalize_check x) as [oc cs vc] eqn:Hnx. cbn [ce_operator ce_arguments].
  pose proof (normal_children _ Hc) as Hcs. cbn [ce_arguments] in Hcs.
  destruct (boolean_dual oc) as [dual|] eqn:Hd.
  - apply IH. etrans; [apply (dual_weight _ _ (pred (weight x)))|].
    + by eapply dual_not.
    + by eapply (children_weight (CheckExpression oc cs vc)).
    + pose proof (weight_pos x). pose proof (arguments_weight (x :: args)) as HF.
      apply Forall_cons in HF as [HF _]. cbn [weight] in Hn. lia.
  - destruct (complement oc) as [o'|] eqn:Hco.
    + cbn [node normal]. rewrite Hcs. by destruct oc; simplify_eq/=.
    + destruct (decide (oc = Not)) as [-> | Hoc].
      * destruct cs as [|g cs]; [|by cbn [forallb] in Hcs; apply andb_true_iff in Hcs as [Hg _]].
        cbn [normal forallb]. by rewrite Hrest.
      * assert (Hk : normal_here (CheckExpression Not (CheckExpression oc cs vc :: map normalize_check args) v) = true)
          by (unfold normal_here; cbn [ce_operator ce_arguments]; rewrite Hd, Hco; by destruct oc).
        assert (Hsame : (match oc, cs with Not, g :: _ => g
          | _, _ => CheckExpression Not (CheckExpression oc cs vc :: map normalize_check args) v end)
          = CheckExpression Not (CheckExpression oc cs vc :: map normalize_check args) v) by (by destruct oc).
        rewrite Hsame. change (normal_here (CheckExpression Not (CheckExpression oc cs vc :: map normalize_check args) v)
          && (normal (CheckExpression oc cs vc) && forallb normal (map normalize_check args)) = true).
        by rewrite Hk, Hc, Hrest.
Qed.

Lemma normal_fixed e : normal e = true -> normalize_check e = e.
Proof.
  induction e as [o args v IH] using check_expression_induction. intros H.
  pose proof (normal_children _ H) as Hargs. cbn [ce_arguments] in Hargs.
  rewrite normalize_check_unfold.
  assert (Hm : map normalize_check args = args).
  { clear H. induction IH as [|x args Hx _ IHargs]; [done|]. simpl in *.
    apply andb_true_iff in Hargs as [Hnx Hargs]. by rewrite Hx, IHargs. }
  rewrite Hm. cbn [normal] in H. apply andb_true_iff in H as [H _]. unfold normal_here in H.
  cbn [ce_operator ce_arguments] in H.
  assert (Hflat : forallb (fun x => negb (bool_decide (ce_operator x = o))) args = true ->
    flat_map (members o) args = args).
  { clear. induction args as [|x args IH]; [done|]. simpl. rewrite andb_true_iff. intros [Hx H].
    rewrite IH by done. unfold members. by case_bool_decide. }
  destruct o; cbn [normalize_node]; try done; try (by rewrite Hflat).
  destruct args as [|[oc cs vc] args]; [done|]. cbn [ce_operator ce_arguments] in *.
  destruct (boolean_dual oc); [done|]. destruct (complement oc); [done|]. by destruct oc, cs.
Qed.

(** Normalizing again changes nothing, and the result has no negation
    above a comparison, a conjunction, a disjunction or a negation. *)
Theorem normalize_check_idempotent e :
  normal (normalize_check e) = true /\ normalize_check (normalize_check e) = normalize_check e.
Proof.
  assert (H : normal (normalize_check e) = true) by (by apply (normalize_normal (weight e))).
  split; [done|]. by apply normal_fixed.
Qed.

(** ** A double negation inside a comparison *)

Definition integer_order (x y : check_value) : comparison :=
  match x, y with VInt m, VInt n => (m ?= n)%Z | _, _ => Eq end.

(** [(NOT (NOT a)) = 5], which no row satisfies, and [a = 5]. *)
Definition double_negation : check_expression :=
  node Eq_ [node Not [node Not [column_ (u "a")]]; literal (VInt 5)].
Definition plain_comparison : check_expression := node Eq_ [column_ (u "a"); literal (VInt 5)].
Definition five_row (name : utext) : check_value := if bool_decide (name = u "a") then VInt 5 else VNone.

(** normalization takes [(NOT (NOT a)) = 5] for [a = 5]; the row [a = 5]
    passes the second and fails the first. *)
Theorem double_negation_normalizes : forall text_truth,
  normalize_check double_negation = normalize_check plain_comparison /\
  passes integer_order text_truth five_row plain_comparison = true /\
  passes integer_order text_truth five_row double_negation = false.
Proof. intros text_truth. split_and!; vm_compute; reflexivity. Qed.

Definition declared_check : check_expression :=
  node Not [node Or [node And [node Gt_ [column_ (u "a"); literal (VInt 0)]; node IsNull [column_ (u "b")]];
                     node In_ [column_ (u "a"); literal (VInt 7); literal VNone]]].

Example declared_check_normal :
  normalize_check declared_check =
  node And [node Or [node Lte_ [column_ (u "a"); literal (VInt 0)]; node IsNotNull [column_ (u "b")]];
            node NotIn [column_ (u "a"); literal (VInt 7); literal VNone]].
Proof. vm_compute. reflexivity. Qed.

Lemma normalize_check_sound_witness :
  holds integer_order (fun _ => false) five_row (normalize_check declared_check) =
  holds integer_order (fun _ => false) five_row declared_check.
Proof. apply (normalize_check_sound integer_order (fun _ => false) declared_check five_row). vm_compute. reflexivity. Defined.
