(* ===== verification/CheckCatalog.v ===== *)
(** * Reading CHECK expressions from a catalog

    [_check_catalog.py]: [_tokens], [_Parser], [parse_check], [sqlite_checks],
    [parse_default_literal] and [sqlite_index_predicate].  What the grammar does
    not know raises, and its callers answer [None]: unknown, never a match. *)

From S2P Require Export CheckExpr MariadbTokens Utf8.

(** ** Tokens *)

Inductive token_kind := KWord | KIdentifier | KLiteral | KNumber | KSymbol.
#[export] Instance token_kind_eq_dec : EqDecision token_kind.
Proof. solve_decision. Defined.

Record token := Token { tk_kind : token_kind; tk_text : utext }.
#[export] Instance token_eq_dec : EqDecision token.
Proof. solve_decision. Defined.

(** A catalog name can be known even when the expression is not. *)
Record check_shape := CheckShape {
  cs_name : option utext; cs_expression : option check_expression }.
#[export] Instance check_shape_eq_dec : EqDecision check_shape.
Proof. solve_decision. Defined.

(** [_UnsupportedCheckError] *)
Definition unsupported {A} : res A := raise UnsupportedCheckError EmptyString.

(** [" \t\n\r\f"] *)
Definition blank (c : Z) : bool := bool_decide (c ∈ [32; 9; 10; 13; 12]%Z).

(** From just after an opening quote: the value and what follows it. *)
Fixpoint read_body (closing : Z) (doubling : bool) (s : utext) : option (utext * utext) :=
  match s with
  | [] => None
  | c :: s' =>
      if negb (c =? closing)%Z then
        '(value, rest) ← read_body closing doubling s'; Some (c :: value, rest)
      else match s' with
           | c' :: s'' =>
               if (c' =? closing)%Z && doubling then
                 '(value, rest) ← read_body closing doubling s''; Some (closing :: value, rest)
               else Some ([], s')
           | [] => Some ([], [])
           end
  end.

Definition pairs : list utext := map u [">="; "<="; "<>"; "!="; "=="]%string.
Definition is_pair (s : utext) : bool := existsb (fun p => bool_decide (take 2 s = p)) pairs.
Definition is_ascii (s : utext) : bool := forallb (fun c => (c <? 128)%Z) s.

Section tokens.
Context `{U : unicode}.

Definition name_part (c : Z) : bool := py_isalnum c || bool_decide (c ∈ [95; 36]%Z).

(** A round of the loop at [c], before [s]. *)
Definition check_round (mariadb : bool) (next : utext -> res (list token)) (c : Z) (s : utext)
    : res (list token) :=
  if blank c then next s
  else if starts_with (u "--") (c :: s)
          && (negb mariadb || match drop 1 s with [] => true | d :: _ => blank d end) then
    next (after_first newline (drop 1 s))
  else if starts_with (u "/*") (c :: s) then
    match find_split (u "*/") (drop 1 s) with
    | None => unsupported
    | Some (inside, rest) =>
        if starts_with (u "/*!") (c :: s) || starts_with (u "/*M!") (c :: s)
        then unsupported else next rest
    end
  else if bool_decide (c ∈ [39; 34; 96; 91]%Z) then
    match read_body (if (c =? 91)%Z then 93 else c) (negb (c =? 91)%Z) s with
    | None => unsupported
    | Some (value, rest) =>
        ts ← next rest; Ok (Token (if (c =? 39)%Z then KLiteral else KIdentifier) value :: ts)
    end
  else if py_isalpha c || (c =? 95)%Z then
    let '(word, rest) := span name_part s in
    ts ← next rest; Ok (Token (if is_ascii (c :: word) then KWord else KIdentifier) (c :: word) :: ts)
  else if is_digit c then
    let '(digits, rest) := span is_digit s in
    ts ← next rest; Ok (Token KNumber (c :: digits) :: ts)
  else if is_pair (c :: s) then
    ts ← next (drop 1 s); Ok (Token KSymbol (take 2 (c :: s)) :: ts)
  else ts ← next s; Ok (Token KSymbol [c] :: ts).

Fixpoint check_tokens_from (mariadb : bool) (fuel : nat) (s : utext) : res (list token) :=
  match s, fuel with
  | [], _ => Ok []
  | _, O => raise RecursionError "out of fuel"
  | c :: s', S fuel => check_round mariadb (check_tokens_from mariadb fuel) c s'
  end.

(** Every round consumes a character, so [length sql] rounds do. *)
Definition check_tokens (mariadb : bool) (sql : utext) : res (list token) :=
  check_tokens_from mariadb (length sql) sql.

(** ** The parser

    Its position is the list of the tokens left. *)

Definition accept (text : utext) (ts : list token) : option (list token) :=
  match ts with
  | t :: ts' =>
      if (bool_decide (tk_kind t = KWord) || bool_decide (tk_kind t = KSymbol))
         && bool_decide (py_upper (tk_text t) = text)
      then Some ts' else None
  | [] => None
  end.

Definition require (text : utext) (ts : list token) : res (list token) :=
  match accept text ts with Some ts' => Ok ts' | None => unsupported end.

(** [self._accept(text)] as a truth value, and the tokens left. *)
Definition accepted (text : utext) (ts : list token) : bool * list token :=
  match accept text ts with Some ts' => (true, ts') | None => (false, ts) end.

Definition parsed : Type := check_expression * list token.

(** [while self._accept(operator)]: after at most [n] rounds. *)
Fixpoint boolean_rest (child : list token -> res parsed) (operator : check_operator) (word : utext)
    (n : nat) (expression : check_expression) (ts : list token) : res parsed :=
  match accept word ts with
  | None => Ok (expression, ts)
  | Some ts' =>
      match n with
      | O => raise RecursionError "out of fuel"
      | S n =>
          '(other, rest) ← child ts';
          boolean_rest child operator word n (node operator [expression; other]) rest
      end
  end.

Definition parse_boolean (child : list token -> res parsed) (operator : check_operator)
    (word : utext) (ts : list token) : res parsed :=
  '(expression, rest) ← child ts;
  boolean_rest child operator word (length rest) expression rest.

(** The operands after a comma. *)
Fixpoint more_operands (operand : list token -> res parsed) (n : nat) (ts : list token)
    : res (list check_expression * list token) :=
  match accept (u ",") ts with
  | None => Ok ([], ts)
  | Some ts' =>
      match n with
      | O => raise RecursionError "out of fuel"
      | S n =>
          '(value, rest) ← operand ts';
          '(values, rest) ← more_operands operand n rest;
          Ok (value :: values, rest)
      end
  end.

Definition spellings : list (utext * check_operator) :=
  [(u "=", Eq_); (u "==", Eq_); (u "<>", Ne_); (u "!=", Ne_);
   (u ">", Gt_); (u ">=", Gte_); (u "<", Lt_); (u "<=", Lte_)].

Fixpoint accept_spelling (table : list (utext * check_operator)) (ts : list token)
    : option (check_operator * list token) :=
  match table with
  | [] => None
  | (spelling, operator) :: table' =>
      match accept spelling ts with
      | Some ts' => Some (operator, ts')
      | None => accept_spelling table' ts
      end
  end.

Definition parse_is (lhs : check_expression) (ts : list token) : res parsed :=
  let '(negated, ts) := accepted (u "NOT") ts in
  ts ← require (u "NULL") ts; Ok (node (if negated then IsNotNull else IsNull) [lhs], ts).

Definition parse_in (operand : list token -> res parsed) (negated : bool) (lhs : check_expression)
    (ts : list token) : res parsed :=
  ts ← require (u "(") ts;
  '(first, ts) ← operand ts;
  '(values, ts) ← more_operands operand (length ts) ts;
  ts ← require (u ")") ts;
  Ok (node (if negated then NotIn else In_) (lhs :: first :: values), ts).

Definition parse_between (operand : list token -> res parsed) (negated : bool)
    (lhs : check_expression) (ts : list token) : res parsed :=
  '(low, ts) ← operand ts;
  ts ← require (u "AND") ts;
  '(high, ts) ← operand ts;
  let expression := node Between [lhs; low; high] in
  Ok (if negated then node Not [expression] else expression, ts).

(** [_comparison] after [NOT] and the lhs operand. *)
Definition parse_tail (operand : list token -> res parsed) (lhs : check_expression)
    (ts : list token) : res parsed :=
  match accept (u "IS") ts with
  | Some ts => parse_is lhs ts
  | None =>
      let '(negated, ts) := accepted (u "NOT") ts in
      match accept (u "IN") ts with
      | Some ts => parse_in operand negated lhs ts
      | None =>
          match accept (u "BETWEEN") ts with
          | Some ts => parse_between operand negated lhs ts
          | None =>
              if negated then unsupported
              else match accept_spelling spellings ts with
                   | Some (operator, ts) =>
                       '(other, ts) ← operand ts; Ok (node operator [lhs; other], ts)
                   | None => Ok (lhs, ts)
                   end
          end
      end
  end.

Definition parse_comparison (self operand : list token -> res parsed) (ts : list token) : res parsed :=
  match accept (u "NOT") ts with
  | Some ts => '(expression, ts) ← self ts; Ok (node Not [expression], ts)
  | None => '(lhs, ts) ← operand ts; parse_tail operand lhs ts
  end.

(** [int(text)] of ASCII digits, which Python bounds at 4300 of them. *)
Definition digits_value (s : utext) : Z := foldl (fun n c => 10 * n + (c - 48))%Z 0%Z s.
Definition int_of_digits (s : utext) : res Z :=
  if 4300 <? length s then raise ValueError "Exceeds the limit for integer string conversion"
  else Ok (digits_value s).

Definition hex_value (c : Z) : option Z :=
  if is_digit c then Some (c - 48)%Z
  else if ((97 <=? c) && (c <=? 102))%Z then Some (c - 87)%Z
  else if ((65 <=? c) && (c <=? 70))%Z then Some (c - 55)%Z
  else None.
(** [bytes.fromhex], which skips ASCII white space between bytes. *)
Fixpoint fromhex (s : utext) : option (list Z) :=
  match s with
  | [] => Some []
  | c :: s' =>
      if bool_decide (c ∈ [32; 9; 10; 11; 12; 13]%Z) then fromhex s'
      else match hex_value c, s' with
           | Some high, c' :: s'' =>
               match hex_value c' with
               | Some low => cons (16 * high + low)%Z <$> fromhex s''
               | None => None
               end
           | _, _ => None
           end
  end.

(** [bytes.fromhex(encoded).decode("utf-8")] *)
Definition hex_text (encoded : utext) : res utext :=
  match fromhex encoded with
  | None => raise ValueError "non-hexadecimal number found in fromhex() arg"
  | Some bytes =>
      match utf8_decode bytes with
      | Some text => Ok text
      | None => raise UnicodeError "codec can't decode"
      end
  end.

(** After [CONVERT] or [CAST]. *)
Definition parse_converted (convert : bool) (ts : list token) : res parsed :=
  ts ← require (u "(") ts;
  ts ← require (u "X") ts;
  match ts with
  | Token KLiteral encoded :: ts =>
      ts ← require (u (if convert then "USING" else "AS")) ts;
      ts ← require (u (if convert then "UTF8MB4" else "TEXT")) ts;
      ts ← require (u ")") ts;
      text ← hex_text encoded;
      Ok (literal (VStr text), ts)
  | _ => unsupported
  end.

Definition reserved_operands : list utext :=
  map u ["TRUE"; "FALSE"; "NULL"; "CURRENT_DATE"; "CURRENT_TIME"; "CURRENT_TIMESTAMP";
         "CURRENT_USER"; "SESSION_USER"; "SYSTEM_USER"]%string.

Definition keyword_literal (word : utext) : option check_value :=
  if bool_decide (word = u "TRUE") then Some (VInt 1)
  else if bool_decide (word = u "FALSE") then Some (VInt 0)
  else if bool_decide (word = u "NULL") then Some VNone
  else None.

(** [_operand] at a token that is not a parenthesis, after its sign. *)
Definition parse_atom (literal_keywords signed negative : bool) (t : token) (ts : list token) : res parsed :=
  match tk_kind t with
  | KNumber =>
      n ← int_of_digits (tk_text t); Ok (literal (VInt (if negative then - n else n)%Z), ts)
  | kind =>
      if signed then unsupported
      else match kind with
           | KLiteral => Ok (literal (VStr (tk_text t)), ts)
           | KIdentifier => Ok (column_ (tk_text t), ts)
           | KWord =>
               let word := py_upper (tk_text t) in
               if bool_decide (word = u "CONVERT") then parse_converted true ts
               else if bool_decide (word = u "CAST") then parse_converted false ts
               else match (if literal_keywords then keyword_literal word else None) with
                    | Some v => Ok (literal v, ts)
                    | None =>
                        if bool_decide (word ∈ reserved_operands) then unsupported
                        else Ok (column_ (tk_text t), ts)
                    end
           | _ => unsupported
           end
  end.

Definition parse_operand (literal_keywords : bool) (nested : list token -> res parsed)
    (ts : list token) : res parsed :=
  match accept (u "(") ts with
  | Some ts => '(expression, ts) ← nested ts; ts ← require (u ")") ts; Ok (expression, ts)
  | None =>
      let '(negative, ts) := accepted (u "-") ts in
      let '(explicit_plus, ts) := if negative then (false, ts) else accepted (u "+") ts in
      match ts with
      | [] => unsupported
      | t :: ts => parse_atom literal_keywords (negative || explicit_plus) negative t ts
      end
  end.

Inductive level := LOr | LAnd | LComparison | LOperand.

Fixpoint parse_at (literal_keywords : bool) (fuel : nat) (l : level) (ts : list token) : res parsed :=
  match fuel with
  | O => raise RecursionError "out of fuel"
  | S fuel =>
      let parse := parse_at literal_keywords fuel in
      match l with
      | LOr => parse_boolean (parse LAnd) Or (u "OR") ts
      | LAnd => parse_boolean (parse LComparison) And (u "AND") ts
      | LComparison => parse_comparison (parse LComparison) (parse LOperand) ts
      | LOperand => parse_operand literal_keywords (parse LOr) ts
      end
  end.

(** The levels below one another, and the calls that consume a token first. *)
Definition rank (l : level) : nat :=
  match l with LOr => 4 | LAnd => 3 | LComparison => 2 | LOperand => 1 end.
Definition parse_fuel (l : level) (ts : list token) : nat := 4 * length ts + rank l.

(** [_Parser(tokens).parse()] *)
Definition parse (literal_keywords : bool) (ts : list token) : res check_expression :=
  '(expression, rest) ← parse_at literal_keywords (parse_fuel LOr ts) LOr ts;
  _ ← guardR (bool_decide (rest = [])) UnsupportedCheckError EmptyString;
  Ok expression.

(** [except _UnsupportedCheckError, ValueError, UnicodeError, RecursionError] *)
Definition unknown_class (c : exc_class) : bool :=
  match c with
  | UnsupportedCheckError | ValueError | UnicodeError | RecursionError => true
  | _ => false
  end.
Definition or_none {A} (r : res (option A)) : res (option A) :=
  match r with
  | Ok a => Ok a
  | Raise e => if unknown_class (exn_class e) then Ok None else Raise e
  end.

Definition has_backslash (ts : list token) : bool :=
  existsb (fun t => bool_decide (tk_kind t = KLiteral) && bool_decide (92%Z ∈ tk_text t)) ts.

Definition parse_check (sql : utext) : res (option check_expression) :=
  or_none (ts ← check_tokens true sql;
           if has_backslash ts then Ok None else (e ← parse false ts; Ok (Some e))).

(** ** The CHECKs of a stored CREATE TABLE *)

Definition opening : token := Token KSymbol (u "(").
Definition closing : token := Token KSymbol (u ")").
Definition is_word (word : utext) (t : token) : bool :=
  bool_decide (tk_kind t = KWord) && bool_decide (py_upper (tk_text t) = word).

(** The tokens before the parenthesis that closes [nested] of them. *)
Fixpoint enclosed (nested : nat) (ts : list token) : option (list token) :=
  match ts with
  | [] => None
  | t :: ts =>
      if bool_decide (t = opening) then cons t <$> enclosed (S nested) ts
      else if bool_decide (t = closing) then
        match nested with
        | S (S n) => cons t <$> enclosed (S n) ts
        | _ => Some []
        end
      else cons t <$> enclosed nested ts
  end.

(** [before] are the tokens already passed, the last first; [skip] of the
    tokens left belong to a CHECK that was read. *)
Fixpoint sqlite_checks_from (skip : nat) (before : list token) (depth : Z) (ts : list token)
    : res (option (list check_shape)) :=
  match ts, skip with
  | [], _ => Ok (Some [])
  | t :: ts, S skip => sqlite_checks_from skip (t :: before) depth ts
  | t :: ts, O =>
      if bool_decide (t = opening) then sqlite_checks_from 0 (t :: before) (depth + 1) ts
      else if bool_decide (t = closing) then sqlite_checks_from 0 (t :: before) (depth - 1) ts
      else if (depth =? 1)%Z && is_word (u "CHECK") t then
        let name :=
          match before with
          | name :: c :: _ => if is_word (u "CONSTRAINT") c then Some (tk_text name) else None
          | _ => None
          end in
        match ts with
        | first :: inside =>
            if bool_decide (first = opening) then
              match enclosed 1 inside with
              | None => Ok None
              | Some body =>
                  expression ← or_none (e ← parse false body; Ok (Some e));
                  checks ← sqlite_checks_from (S (S (length body))) (t :: before) depth ts;
                  Ok (option_map (cons (CheckShape name expression)) checks)
              end
            else Ok None
        | [] => Ok None
        end
      else sqlite_checks_from 0 (t :: before) depth ts
  end.

Definition sqlite_checks (sql : option utext) : res (option (list check_shape)) :=
  match sql with
  | None => Ok None
  | Some sql =>
      match check_tokens false sql with
      | Raise e => if bool_decide (exn_class e = UnsupportedCheckError) then Ok None else Raise e
      | Ok tokens => sqlite_checks_from 0 [] 0 tokens
      end
  end.

(** ** Default literals *)

Definition parse_default_literal (mariadb : bool) (sql : utext) : res (option check_value) :=
  or_none (ts ← check_tokens mariadb sql;
           if mariadb && has_backslash ts then Ok None
           else e ← parse true ts;
                Ok (if bool_decide (ce_operator e = Lit) then Some (ce_value e) else None)).

(** ** Predicates of partial indexes *)

Definition ascii_lower : utext -> utext :=
  map (fun c => if ((65 <=? c) && (c <=? 90))%Z then (c + 32)%Z else c).

(** The column with this name up to the case of ASCII letters; the last one
    when there are several. *)
Definition actual_column (column_names : list utext) (name : utext) : option utext :=
  last (filter (fun n => ascii_lower n = ascii_lower name) column_names).

Fixpoint canonical_columns (column_names : list utext) (e : check_expression) : res check_expression :=
  match e with
  | CheckExpression o args v =>
      match o, v with
      | Col, VStr name =>
          match actual_column column_names name with
          | None => unsupported
          | Some name => Ok (column_ name)
          end
      | _, _ => args ← mapR (canonical_columns column_names) args; Ok (CheckExpression o args v)
      end
  end.

Fixpoint index_where (column_names : list utext) (depth : Z) (columns_closed : bool) (ts : list token)
    : res (option check_expression) :=
  match ts with
  | [] => Ok None
  | t :: ts =>
      if bool_decide (t = opening) then index_where column_names (depth + 1) columns_closed ts
      else if bool_decide (t = closing) then
        if (depth - 1 <? 0)%Z then Ok None
        else index_where column_names (depth - 1) (depth - 1 =? 0)%Z ts
      else if (depth =? 0)%Z && columns_closed && is_word (u "WHERE") t then
        e ← parse false ts; e ← canonical_columns column_names e; Ok (Some e)
      else index_where column_names depth columns_closed ts
  end.

Definition without_semicolon (ts : list token) : list token :=
  if bool_decide (last ts = Some (Token KSymbol (u ";"))) then removelast ts else ts.

Definition sqlite_index_predicate (sql : option utext) (column_names : list utext)
    : res (option check_expression) :=
  match sql with
  | None => Ok None
  | Some sql =>
      or_none (ts ← check_tokens false sql;
               index_where column_names 0 false (without_semicolon ts))
  end.
End tokens.
