(* ===== verification/CheckRender.v ===== *)
(** * Rendering CHECK expressions and reading them back

    [render_check] of [_checks.py] and [render_literal_default] of
    [_server_defaults.py].  What they write, the parser of
    [_check_catalog.py] reads as the expression it was written from. *)

From S2P Require Export CheckCatalog QueryState.

(** ** Texts *)

(** [quote_identifier] of [sqlite/identifiers.py] and [mariadb/identifiers.py]. *)
Definition doubled (q c : Z) : utext := if (c =? q)%Z then [q; q] else [c].
Definition quote_with (q : Z) (s : utext) : utext := q :: flat_map (doubled q) s ++ [q].
Definition quote_char (b : backend) : Z := match b with BSqlite => 34 | BMariadb => 96 end.
Definition quote_identifier (b : backend) (s : utext) : utext := quote_with (quote_char b) s.

(** [str] of an integer. *)
Fixpoint decimal_digits (fuel : nat) (n : Z) : utext :=
  match fuel with
  | O => []
  | S fuel => if (n <? 10)%Z then [48 + n]%Z else decimal_digits fuel (n / 10) ++ [48 + n mod 10]%Z
  end.
Definition str_nonneg (n : Z) : utext := decimal_digits (S (Z.to_nat (Z.log2 n))) n.
Definition str_Z (n : Z) : utext := if (n <? 0)%Z then 45%Z :: str_nonneg (- n) else str_nonneg n.

(** [bytes.hex] *)
Definition hex_digit (n : Z) : Z := if (n <? 10)%Z then (48 + n)%Z else (87 + n)%Z.
Definition hex (bytes : list Z) : utext := flat_map (fun b => [hex_digit (b / 16); hex_digit (b mod 16)]) bytes.

(** [s.encode("utf-8").hex()] *)
Definition encoded_hex (s : utext) : res utext :=
  match utf8 s with Some bytes => Ok (hex bytes) | None => raise UnicodeError "surrogates not allowed" end.

(** ** [render_check] *)

Definition render_text (b : backend) (s : utext) : res utext :=
  encoded ← encoded_hex s;
  Ok (match b with
      | BMariadb => u "CONVERT(X'" ++ encoded ++ u "' USING utf8mb4)"
      | BSqlite =>
          if bool_decide (0%Z ∈ s) then u "CAST(X'" ++ encoded ++ u "' AS TEXT)"
          else quote_with 39 s
      end).

Definition value_text (v : check_value) : utext :=
  match v with VNone => u "None" | VInt n => str_Z n | VStr s => s end.

Definition operator_text (o : check_operator) : option utext :=
  u <$> match o with
        | Eq_ => Some "=" | Ne_ => Some "<>" | Gt_ => Some ">" | Gte_ => Some ">="
        | Lt_ => Some "<" | Lte_ => Some "<=" | And => Some "AND" | Or => Some "OR"
        | _ => None
        end%string.

Definition comma : utext := u ", ".
Fixpoint join_text (sep : utext) (l : list utext) : utext :=
  match l with [] => [] | [x] => x | x :: l' => x ++ sep ++ join_text sep l' end.

Definition parenthesized (s : utext) : utext := u "(" ++ s ++ u ")".

(** The children of a node of this operator, already rendered. *)
Definition render_node (o : check_operator) (children : list utext) : res utext :=
  match o, children with
  | IsNull, c :: _ => Ok (c ++ u " IS NULL")
  | IsNotNull, c :: _ => Ok (c ++ u " IS NOT NULL")
  | Not, c :: _ => Ok (u "NOT " ++ parenthesized c)
  | In_, c :: cs => Ok (c ++ u " IN " ++ parenthesized (join_text comma cs))
  | NotIn, c :: cs => Ok (c ++ u " NOT IN " ++ parenthesized (join_text comma cs))
  | Between, c :: low :: high :: _ => Ok (c ++ u " BETWEEN " ++ low ++ u " AND " ++ high)
  | IsNull, _ | IsNotNull, _ | Not, _ | In_, _ | NotIn, _ | Between, _ =>
      raise IndexError "tuple index out of range"
  | _, [x; y] =>
      match operator_text o with
      | None => raise KeyError EmptyString
      | Some symbol =>
          Ok (if bool_decide (boolean_dual o = None) then x ++ u " " ++ symbol ++ u " " ++ y
              else parenthesized x ++ u " " ++ symbol ++ u " " ++ parenthesized y)
      end
  | _, _ => raise ValueError "values to unpack"
  end.

Fixpoint render_check (quote : utext -> utext) (b : backend) (e : check_expression) : res utext :=
  match e with
  | CheckExpression o args v =>
      match o, v with
      | Col, _ => Ok (quote (value_text v))
      | Lit, VStr s => render_text b s
      | Lit, _ => Ok (value_text v)
      | _, _ => children ← mapR (render_check quote b) args; render_node o children
      end
  end.

Definition render_literal_default (b : backend) (v : check_value) : res utext :=
  match v with
  | VNone => Ok (u "NULL")
  | VInt n => Ok (str_Z n)
  | VStr s =>
      match b with
      | BMariadb => encoded ← encoded_hex s; Ok (u "(CONVERT(X'" ++ encoded ++ u "' USING utf8mb4))")
      | BSqlite =>
          if bool_decide (0%Z ∈ s) then encoded ← encoded_hex s; Ok (u "(CAST(X'" ++ encoded ++ u "' AS TEXT))")
          else Ok (quote_with 39 s)
      end
  end.

(** ** Numbers and bytes read back *)

Lemma digits_value_snoc s c : digits_value (s ++ [c]) = (10 * digits_value s + (c - 48))%Z.
Proof. unfold digits_value. by rewrite foldl_app. Qed.

Lemma decimal_digits_value fuel n : (0 <= n < 2 ^ Z.of_nat fuel)%Z ->
  digits_value (decimal_digits fuel n) = n /\ forallb is_digit (decimal_digits fuel n) = true /\
  length (decimal_digits fuel n) <= fuel /\ (0 < fuel -> decimal_digits fuel n <> []).
Proof.
  revert n. induction fuel as [|fuel IH]; intros n Hn.
  - simpl in Hn. assert (n = 0)%Z as -> by lia. simpl. split_and!; lia || done.
  - cbn [decimal_digits]. assert (Hd : is_digit (48 + n mod 10) = true).
    { pose proof (Z.mod_pos_bound n 10 ltac:(lia)). unfold is_digit. rewrite andb_true_iff, !Z.leb_le. lia. }
    destruct (Z.ltb_spec n 10).
    + rewrite Z.mod_small in Hd by lia. split_and!; [unfold digits_value; simpl; lia|simpl; by rewrite Hd|simpl; lia|done].
    + destruct (IH (n / 10)%Z) as (Hv & Hf & Hl & _).
      { rewrite Nat2Z.inj_succ, Z.pow_succ_r in Hn by lia. split; [apply Z.div_pos; lia|].
        apply Z.div_lt_upper_bound; lia. }
      rewrite digits_value_snoc, forallb_app, length_app, Hv, Hf. pose proof (Z.div_mod n 10 ltac:(lia)).
      split_and!; [lia|simpl; by rewrite Hd|simpl; lia|by destruct (decimal_digits fuel (n / 10))].
Qed.

(** More than any column stores; [int_of_digits] takes 4300 digits. *)
Definition int_bound : Z := 2 ^ 4300.

Lemma str_nonneg_value n : (0 <= n < int_bound)%Z ->
  int_of_digits (str_nonneg n) = Ok n /\
  exists c s, str_nonneg n = c :: s /\ is_digit c = true /\ forallb is_digit s = true.
Proof.
  unfold int_bound. intros [Hn Hlt]. unfold str_nonneg. set (fuel := S (Z.to_nat (Z.log2 n))).
  assert (Hfuel : Z.of_nat fuel = Z.succ (Z.log2 n)).
  { unfold fuel. rewrite Nat2Z.inj_succ, Z2Nat.id by apply Z.log2_nonneg. done. }
  destruct (decimal_digits_value fuel n) as (Hv & Hf & Hl & Hne).
  { rewrite Hfuel. destruct (Z.eq_dec n 0) as [-> | ?]; [done|]. split; [done|]. apply Z.log2_spec. lia. }
  split.
  - unfold int_of_digits. rewrite Hv, (proj2 (Nat.ltb_ge _ _)); [done|].
    assert (Z.log2 n < 4300)%Z; [|lia]. destruct (Z.eq_dec n 0) as [-> | ?]; [done|].
    apply Z.log2_lt_pow2; lia.
  - destruct (decimal_digits fuel n) as [|c s]; [by destruct Hne; [unfold fuel; lia|]|].
    exists c, s. simpl in Hf. by apply andb_true_iff in Hf.
Qed.

Lemma hex_digit_value n : (0 <= n < 16)%Z ->
  hex_value (hex_digit n) = Some n /\ bool_decide (hex_digit n ∈ [32; 9; 10; 11; 12; 13]%Z) = false /\
  hex_digit n <> 39%Z.
Proof.
  intros Hn. assert (H : n ∈ seqZ 0 16) by (apply elem_of_seqZ; lia). revert n H Hn.
  apply (Forall_forall (fun n => _ -> _)). vm_compute seqZ. repeat constructor; intros; by vm_compute.
Qed.

Lemma fromhex_hex bytes : Forall (fun b => 0 <= b < 256)%Z bytes ->
  fromhex (hex bytes) = Some bytes /\ 39%Z ∉ hex bytes.
Proof.
  induction 1 as [|b bytes Hb _ [IH Hq]]; [split; [done|apply not_elem_of_nil]|].
  destruct (hex_digit_value (b / 16)) as (Hh & Hs & Hn).
  { split; [apply Z.div_pos; lia|apply Z.div_lt_upper_bound; lia]. }
  destruct (hex_digit_value (b mod 16)) as (Hh' & _ & Hn'); [apply Z.mod_pos_bound; lia|].
  cbn [hex flat_map app fromhex]. fold (hex bytes). rewrite Hs, Hh, Hh', IH. split.
  - simpl. f_equal. f_equal. pose proof (Z.div_mod b 16 ltac:(lia)). lia.
  - intros [? | [? | ?]%elem_of_cons]%elem_of_cons; congruence.
Qed.

Lemma utf8_bytes s bytes : Forall (fun c => 0 <= c <= 1114111)%Z s -> utf8 s = Some bytes ->
  Forall (fun b => 0 <= b < 256)%Z bytes.
Proof.
  intros Hs. revert bytes. induction Hs as [|c s Hc _ IH]; intros bytes.
  - by intros [= <-].
  - unfold utf8. simpl. intros H. apply fmap_Some in H as (chars & H & ->).
    apply bind_Some in H as (b & Hb & H). apply bind_Some in H as (bs & Hbs & H). injection H as <-.
    cbn [concat]. apply Forall_app. split; [|apply IH; unfold utf8; by rewrite Hbs].
    rewrite utf8_char_arith in Hb by (split; [done|]; unfold utf8_char in Hb; by destruct (surrogate c)).
    injection Hb as <-.
    pose proof (Z.div_pos c 64 ltac:(lia) ltac:(lia)). pose proof (Z.div_pos c 4096 ltac:(lia) ltac:(lia)).
    pose proof (Z.div_pos c 262144 ltac:(lia) ltac:(lia)).
    pose proof (Z.mod_pos_bound c 64 ltac:(lia)). pose proof (Z.mod_pos_bound (c / 64) 64 ltac:(lia)).
    pose proof (Z.mod_pos_bound (c / 4096) 64 ltac:(lia)).
    destruct (Z.ltb_spec c 128); [repeat constructor; lia|].
    destruct (Z.ltb_spec c 2048);
      [pose proof (Z.div_lt_upper_bound c 64 32 ltac:(lia) ltac:(lia)); repeat constructor; lia|].
    destruct (Z.ltb_spec c 65536);
      [pose proof (Z.div_lt_upper_bound c 4096 16 ltac:(lia) ltac:(lia)); repeat constructor; lia|].
    pose proof (Z.div_lt_upper_bound c 262144 8 ltac:(lia) ltac:(lia)). repeat constructor; lia.
Qed.

(** The hexadecimal text of a string reads back as the string. *)
Lemma encoded_hex_text s h : Forall (fun c => 0 <= c <= 1114111)%Z s -> encoded_hex s = Ok h ->
  hex_text h = Ok s /\ 39%Z ∉ h.
Proof.
  intros Hs. unfold encoded_hex, hex_text. destruct (utf8 s) as [bytes|] eqn:Hb; [|done].
  intros [= <-]. destruct (fromhex_hex bytes) as [-> Hq]; [by eapply utf8_bytes|].
  by rewrite (utf8_round_trip s bytes).
Qed.
