(* ===== verification/CheckReading.v ===== *)
(** * What the renderer writes, the parser reads

    The tokens of each piece of a rendered CHECK expression, the derivations of
    the parser on them, and the fuel of both. *)

From S2P Require Export CheckRender.

(** ** Tokenizers

    A tokenizer of SQL text, [lex], whose answer for a text is that for the rest
    of it after the tokens of a piece, [emit].  The laws say how it reads the
    pieces that the program writes; the catalog has two tokenizers of its own. *)

(** What may follow any piece: a blank, a parenthesis, a comma or the end; and
    what may follow a word, which is also the quote of [X'...']. *)
Definition clean (rest : utext) : bool :=
  match rest with [] => true | c :: _ => bool_decide (c ∈ [32; 40; 41; 44]%Z) end.
Definition word_ends (rest : utext) : bool :=
  match rest with [] => true | c :: _ => bool_decide (c ∈ [32; 40; 41; 44; 39]%Z) end.

Definition ascii_word (s : utext) : bool :=
  match s with
  | [] => false
  | c :: s => ascii_alpha c && forallb (fun c => ascii_alpha c || is_digit c || bool_decide (c ∈ [95; 36]%Z)) s
  end.

(** A symbol that stands alone before [s]. *)
Definition symbol_here (c : Z) (s : utext) : bool :=
  negb (blank c) && negb (starts_with (u "--") (c :: s)) && negb (starts_with (u "/*") (c :: s))
  && negb (bool_decide (c ∈ [39; 34; 96; 91]%Z)) && negb (ascii_alpha c || (c =? 95)%Z)
  && negb (is_digit c) && in_range 0 127 c.

Class lexer_laws {R : Type} (lex : utext -> R) (emit : list token -> R -> R) : Prop := LexerLaws {
  emit_nil : forall r, emit [] r = r;
  emit_app : forall ts ts' r, emit (ts ++ ts') r = emit ts (emit ts' r);
  lex_blank : forall s, lex (32%Z :: s) = lex s;
  lex_one : forall c s, symbol_here c s && negb (is_pair (c :: s)) = true ->
    lex (c :: s) = emit [Token KSymbol [c]] (lex s);
  lex_pair : forall c s, symbol_here c s && is_pair (c :: s) = true ->
    lex (c :: s) = emit [Token KSymbol (take 2 (c :: s))] (lex (drop 1 s));
  lex_quoted : forall q s rest, q ∈ [39; 34; 96]%Z -> clean rest = true ->
    lex (quote_with q s ++ rest)
    = emit [Token (if (q =? 39)%Z then KLiteral else KIdentifier) s] (lex rest);
  lex_word : forall w rest, ascii_word w = true -> word_ends rest = true ->
    lex (w ++ rest) = emit [Token KWord w] (lex rest);
  lex_digits : forall c s rest, is_digit c = true -> forallb is_digit s = true -> clean rest = true ->
    lex (c :: s ++ rest) = emit [Token KNumber (c :: s)] (lex rest) }.

(** The piece [s] reads as [ts] for every tokenizer. *)
Definition spells (s : utext) (ts : list token) : Prop :=
  forall R (lex : utext -> R) emit, lexer_laws lex emit ->
  forall rest, clean rest = true -> lex (s ++ rest) = emit ts (lex rest).

Section spelling.
#[local] Arguments Z.eqb : simpl never.

Lemma clean_word_ends rest : clean rest = true -> word_ends rest = true.
Proof. destruct rest as [|c rest]; [done|]. simpl. rewrite !bool_decide_eq_true. set_solver. Qed.

Lemma spells_nil : spells [] [].
Proof. intros R lex emit L rest _. by rewrite emit_nil. Qed.

Lemma spells_app s1 ts1 s2 ts2 : spells s1 ts1 -> spells s2 ts2 -> clean s2 = true ->
  spells (s1 ++ s2) (ts1 ++ ts2).
Proof.
  intros H1 H2 Hc R lex emit L rest Hr. rewrite <- app_assoc, (H1 R lex emit L), (H2 R lex emit L) by (by destruct s2).
  by rewrite emit_app.
Qed.

Lemma spells_blank s ts : spells s ts -> spells (32%Z :: s) ts.
Proof. intros H R lex emit L rest Hr. simpl. rewrite lex_blank. by apply H. Qed.

Lemma spells_one c s ts : (forall rest, symbol_here c (s ++ rest) && negb (is_pair (c :: s ++ rest)) = true) ->
  spells s ts -> spells (c :: s) (Token KSymbol [c] :: ts).
Proof.
  intros Hc H R lex emit L rest Hr. cbn [app]. rewrite lex_one by done. rewrite (H R lex emit L) by done.
  by rewrite <- emit_app.
Qed.

Lemma spells_open s ts : spells s ts -> spells (u "(" ++ s) (opening :: ts).
Proof. by apply (spells_one 40). Qed.
Lemma spells_close s ts : spells s ts -> spells (u ")" ++ s) (closing :: ts).
Proof. by apply (spells_one 41). Qed.
Lemma spells_comma s ts : spells s ts -> spells (comma ++ s) (Token KSymbol (u ",") :: ts).
Proof. intros H. by apply (spells_one 44), spells_blank. Qed.

(** A comparison sign, with the blank after it. *)
Lemma spells_sign o sign s ts : operator_text o = Some sign -> boolean_dual o = None ->
  spells s ts -> spells (sign ++ 32%Z :: s) (Token KSymbol sign :: ts).
Proof.
  intros Ho Hd H R lex emit L rest Hr.
  destruct o; vm_compute in Hd; try discriminate Hd; vm_compute in Ho; try discriminate Ho; injection Ho as <-; cbn [app];
    ((rewrite lex_one by done) || (rewrite lex_pair by done)); cbn [drop take];
    rewrite lex_blank, (H R lex emit L) by done; by rewrite <- emit_app.
Qed.

Lemma spells_quoted q s : q ∈ [39; 34; 96]%Z ->
  spells (quote_with q s) [Token (if (q =? 39)%Z then KLiteral else KIdentifier) s].
Proof. intros Hq R lex emit L rest Hr. by apply lex_quoted. Qed.

Lemma spells_word w : ascii_word w = true -> spells w [Token KWord w].
Proof. intros Hw R lex emit L rest Hr. by apply lex_word, clean_word_ends. Qed.

Lemma quote_plain q h : q ∉ h -> quote_with q h = q :: h ++ [q].
Proof.
  intros Hq. unfold quote_with. f_equal. f_equal. induction h as [|c h IH]; [done|]. cbn [flat_map].
  rewrite not_elem_of_cons in Hq. rewrite IH by naive_solver. unfold doubled.
  by rewrite (proj2 (Z.eqb_neq c q)) by naive_solver.
Qed.

(** A hexadecimal literal is a word and a quoted text. *)
Lemma spells_hex h : 39%Z ∉ h -> spells (u "X'" ++ h ++ u "'") [Token KWord (u "X"); Token KLiteral h].
Proof.
  intros Hh R lex emit L rest Hr. pose proof (lex_quoted 39 h rest ltac:(set_solver) Hr) as Hq.
  rewrite quote_plain in Hq by done.
  change ((u "X'" ++ h ++ u "'") ++ rest) with (u "X" ++ ((39%Z :: h ++ [39%Z]) ++ rest)).
  rewrite lex_word, Hq by done. by rewrite <- emit_app.
Qed.

Lemma digit_range c : is_digit c = true -> (48 <= c <= 57)%Z.
Proof. unfold is_digit. rewrite andb_true_iff, !Z.leb_le. lia. Qed.

Lemma spells_digits c s : is_digit c = true -> forallb is_digit s = true ->
  spells (c :: s) [Token KNumber (c :: s)].
Proof. intros Hc Hs R lex emit L rest Hr. by apply lex_digits. Qed.

Lemma spells_minus c s ts : is_digit c = true -> spells (c :: s) ts ->
  spells (45%Z :: c :: s) (Token KSymbol (u "-") :: ts).
Proof.
  intros Hc. apply digit_range in Hc. apply spells_one. intros rest.
  assert (Hdash : starts_with (u "--") (45%Z :: (c :: s) ++ rest) = false).
  { unfold starts_with. apply bool_decide_eq_false_2. vm_compute. intros [=]. lia. }
  unfold symbol_here. rewrite Hdash. reflexivity.
Qed.

(** ** The expressions that are declared, and their tokens *)

Definition text_ok (s : utext) : bool := forallb (fun c => in_range 0 1114111 c && negb (surrogate c)) s.
Definition int_ok (n : Z) : bool := (Z.abs n <? int_bound)%Z.

Definition operand_ok (e : check_expression) : bool :=
  match e with
  | CheckExpression Col [] (VStr _) => true
  | CheckExpression Lit [] (VInt n) => int_ok n
  | CheckExpression Lit [] (VStr s) => text_ok s
  | _ => false
  end.

(** What [bind_checks] makes. *)
Fixpoint declarable (e : check_expression) : bool :=
  match e with
  | CheckExpression o args v =>
      bool_decide (v = VNone) &&
      match o, args with
      | And, [x; y] | Or, [x; y] => declarable x && declarable y
      | Not, [x] => declarable x
      | (Eq_ | Ne_ | Gt_ | Gte_ | Lt_ | Lte_), [x; y] => operand_ok x && operand_ok y
      | (IsNull | IsNotNull), [x] => operand_ok x
      | (In_ | NotIn), x :: y :: ys => operand_ok x && forallb operand_ok (y :: ys)
      | Between, [x; low; high] => operand_ok x && operand_ok low && operand_ok high
      | _, _ => false
      end
  end.

Definition word (w : string) : token := Token KWord (u w).
Definition symbol (w : string) : token := Token KSymbol (u w).

Definition text_tokens (b : backend) (s h : utext) : list token :=
  match b with
  | BMariadb => [word "CONVERT"; opening; word "X"; Token KLiteral h; word "USING"; word "utf8mb4"; closing]
  | BSqlite =>
      if bool_decide (0%Z ∈ s)
      then [word "CAST"; opening; word "X"; Token KLiteral h; word "AS"; word "TEXT"; closing]
      else [Token KLiteral s]
  end.

Definition int_tokens (n : Z) : list token :=
  if (n <? 0)%Z then [symbol "-"; Token KNumber (str_nonneg (- n))] else [Token KNumber (str_nonneg n)].

Definition operand_tokens (b : backend) (e : check_expression) : list token :=
  match e with
  | CheckExpression Col _ (VStr name) => [Token KIdentifier name]
  | CheckExpression Lit _ (VInt n) => int_tokens n
  | CheckExpression Lit _ (VStr s) => text_tokens b s (match encoded_hex s with Ok h => h | Raise _ => [] end)
  | _ => []
  end.

Definition sign_token (o : check_operator) : token := Token KSymbol (default [] (operator_text o)).
Definition comma_tokens (ts : list (list token)) : list token :=
  match ts with [] => [] | t :: ts => t ++ flat_map (cons (symbol ",")) ts end.
Definition in_parentheses (ts : list token) : list token := opening :: ts ++ [closing].

Fixpoint expression_tokens (b : backend) (e : check_expression) : list token :=
  match e with
  | CheckExpression o args _ =>
      match o, args with
      | And, [x; y] =>
          in_parentheses (expression_tokens b x) ++ word "AND" :: in_parentheses (expression_tokens b y)
      | Or, [x; y] =>
          in_parentheses (expression_tokens b x) ++ word "OR" :: in_parentheses (expression_tokens b y)
      | Not, [x] => word "NOT" :: in_parentheses (expression_tokens b x)
      | IsNull, [x] => operand_tokens b x ++ [word "IS"; word "NULL"]
      | IsNotNull, [x] => operand_tokens b x ++ [word "IS"; word "NOT"; word "NULL"]
      | In_, x :: ys =>
          operand_tokens b x ++ word "IN" :: in_parentheses (comma_tokens (map (operand_tokens b) ys))
      | NotIn, x :: ys =>
          operand_tokens b x ++ word "NOT" :: word "IN"
            :: in_parentheses (comma_tokens (map (operand_tokens b) ys))
      | Between, [x; low; high] =>
          operand_tokens b x ++ word "BETWEEN" :: operand_tokens b low ++ word "AND" :: operand_tokens b high
      | _, [x; y] => operand_tokens b x ++ sign_token o :: operand_tokens b y
      | _, _ => []
      end
  end.

Lemma utf8_ok s : text_ok s = true -> Forall (fun c => 0 <= c <= 1114111)%Z s /\ exists h, encoded_hex s = Ok h.
Proof using Type.
  unfold text_ok. intros H. rewrite forallb_forall in H. split.
  - apply Forall_forall. intros c Hc. specialize (H c (proj1 (list_elem_of_In _ _) Hc)).
    unfold in_range in H. rewrite !andb_true_iff, !Z.leb_le in H. lia.
  - unfold encoded_hex, utf8. destruct (mapM utf8_char s) as [bs|] eqn:Hm; [by eexists|].
    exfalso. apply mapM_None_1 in Hm. apply Exists_exists in Hm as (c & Hc & Hn).
    specialize (H c (proj1 (list_elem_of_In _ _) Hc)). rewrite andb_true_iff, negb_true_iff in H.
    destruct H as [_ H]. unfold utf8_char in Hn. rewrite H in Hn. repeat case_match; done.
Qed.

Lemma spells_int n : int_ok n = true -> spells (str_Z n) (int_tokens n).
Proof using Type.
  unfold int_ok. rewrite Z.ltb_lt. intros Hn. unfold str_Z, int_tokens.
  destruct (Z.ltb_spec n 0).
  - destruct (str_nonneg_value (- n)) as (_ & c & s & -> & Hc & Hs); [lia|].
    by apply spells_minus, spells_digits.
  - destruct (str_nonneg_value n) as (_ & c & s & -> & Hc & Hs); [lia|]. by apply spells_digits.
Qed.

(** [CONVERT(X'..' USING utf8mb4)] and [CAST(X'..' AS TEXT)]. *)
Lemma spells_converted f h w1 w2 : ascii_word (u f) = true -> ascii_word (u w1) = true ->
  ascii_word (u w2) = true -> 39%Z ∉ h ->
  spells (u f ++ u "(" ++ (u "X'" ++ h ++ u "'") ++ 32%Z :: u w1 ++ 32%Z :: u w2 ++ u ")" ++ [])
    [word f; opening; word "X"; Token KLiteral h; word w1; word w2; closing].
Proof using Type.
  intros Hf H1 H2 Hh. apply (spells_app (u f) [word f]); [by apply spells_word| |done].
  apply spells_open. apply (spells_app _ [word "X"; Token KLiteral h]); [by apply spells_hex| |done].
  apply spells_blank, (spells_app _ [word w1]); [by apply spells_word| |done].
  apply spells_blank, (spells_app _ [word w2]); [by apply spells_word| |done].
  apply spells_close, spells_nil.
Qed.

Lemma spells_operand b e : operand_ok e = true ->
  exists s, render_check (quote_identifier b) b e = Ok s /\ spells s (operand_tokens b e).
Proof using Type.
  destruct e as [o args v]. intros H. destruct o; try done; destruct args; try done; destruct v as [|n|s]; try done.
  - eexists. split; [done|]. simpl. unfold quote_identifier.
    destruct b; [apply (spells_quoted 34)|apply (spells_quoted 96)]; set_solver.
  - eexists. split; [done|]. by apply spells_int.
  - destruct (utf8_ok s H) as (Hs & h & Hh). simpl. unfold render_text. rewrite Hh. eexists. split; [done|].
    destruct (encoded_hex_text s h Hs Hh) as [_ Hq]. unfold text_tokens.
    destruct b; [case_bool_decide|].
    + pose proof (spells_converted "CAST" h "AS" "TEXT" ltac:(done) ltac:(done) ltac:(done) Hq) as Hsp.
      rewrite <- !app_assoc in Hsp. exact Hsp.
    + by apply (spells_quoted 39); set_solver.
    + pose proof (spells_converted "CONVERT" h "USING" "utf8mb4" ltac:(done) ltac:(done) ltac:(done) Hq) as Hsp.
      rewrite <- !app_assoc in Hsp. exact Hsp.
Qed.

Lemma spells_operands b es : forallb operand_ok es = true ->
  exists ss, mapR (render_check (quote_identifier b) b) es = Ok ss /\
    Forall2 spells ss (map (operand_tokens b) es).
Proof using Type.
  induction es as [|e es IH]; [by exists []|]. cbn [forallb]. rewrite andb_true_iff. intros [He H].
  destruct (spells_operand b e He) as (s & Hr & Hs). destruct (IH H) as (ss & Hss & HF).
  exists (s :: ss). rewrite mapR_cons, Hr. simpl. rewrite Hss. by split; [|constructor].
Qed.

Lemma spells_join ss tss : Forall2 spells ss tss -> spells (join_text comma ss) (comma_tokens tss).
Proof using Type.
  intros H. destruct H as [|s ts ss tss Hs H]; [apply spells_nil|]. revert s ts Hs.
  induction H as [|s' ts' ss tss Hs' _ IH]; intros s ts Hs.
  - simpl. by rewrite app_nil_r.
  - change (join_text comma (s :: s' :: ss)) with (s ++ comma ++ join_text comma (s' :: ss)).
    simpl comma_tokens. apply spells_app; [done| |done]. apply spells_comma. by apply IH.
Qed.

Lemma spells_in_parentheses s ts : spells s ts -> spells (parenthesized s) (in_parentheses ts).
Proof using Type.
  intros H. unfold parenthesized, in_parentheses. apply spells_open, spells_app; [done| |done].
  apply (spells_close []), spells_nil.
Qed.

(** [x ++ " " ++ word ++ " " ++ rest] *)
Lemma spells_infix s ts (w : string) s' ts' : spells s ts -> ascii_word (u w) = true -> spells s' ts' ->
  spells (s ++ 32%Z :: u w ++ 32%Z :: s') (ts ++ word w :: ts').
Proof using Type.
  intros H Hw H'. apply spells_app; [done| |done].
  apply spells_blank, (spells_app _ [word w]); [by apply spells_word| |done]. by apply spells_blank.
Qed.
Lemma spells_prefix (w : string) s' ts' : ascii_word (u w) = true -> spells s' ts' ->
  spells (u w ++ 32%Z :: s') (word w :: ts').
Proof using Type.
  intros Hw H'. apply (spells_app _ [word w]); [by apply spells_word| |done]. by apply spells_blank.
Qed.
Lemma spells_words s ts (w : string) : spells s ts -> ascii_word (u w) = true ->
  spells (s ++ 32%Z :: u w) (ts ++ [word w]).
Proof using Type. intros H Hw. apply spells_app; [done| |done]. by apply spells_blank, spells_word. Qed.

Lemma render_inner q b o args v : o <> Col -> o <> Lit ->
  render_check q b (CheckExpression o args v) =
  (children ← mapR (render_check q b) args; render_node o children).
Proof using Type. by destruct o. Qed.

Ltac operands b := repeat match goal with
  | H : operand_ok ?e = true |- _ =>
      let s := fresh "s" in let Hr := fresh "Hr" in let Hs := fresh "Hs" in
      destruct (spells_operand b e H) as (s & Hr & Hs); clear H
  end.
Ltac rendered := rewrite render_inner by done; rewrite ?mapR_cons;
  repeat match goal with H : _ = Ok _ |- _ => rewrite H; clear H end; cbn [mbind res_bind mapR];
  eexists; (split; [reflexivity|]).

Definition is_comparison (o : check_operator) : bool :=
  match o with Eq_ | Ne_ | Gt_ | Gte_ | Lt_ | Lte_ => true | _ => false end.

Section cases.
Variable b : backend.
Let renders (e : check_expression) : Prop :=
  exists s, render_check (quote_identifier b) b e = Ok s /\ spells s (expression_tokens b e).

Lemma renders_comparison o x y : is_comparison o = true -> operand_ok x = true -> operand_ok y = true ->
  renders (node o [x; y]).
Proof using Type.
  intros Ho Hx Hy. operands b. unfold renders, node.
  assert (Hsign : operator_text o = Some (tk_text (sign_token o)) /\ boolean_dual o = None) by (by destruct o).
  destruct Hsign as [Hsign Hdual].
  exists (s0 ++ 32%Z :: tk_text (sign_token o) ++ 32%Z :: s). split.
  - rewrite render_inner by (by intros ->). rewrite !mapR_cons, Hr0, Hr. cbn [mbind res_bind mapR].
    assert (Hn : forall l, render_node o [s0; s] = l -> render_node o [s0; s] = l) by done.
    destruct o; try done.
  - assert (Ht : expression_tokens b (CheckExpression o [x; y] VNone) =
      operand_tokens b x ++ sign_token o :: operand_tokens b y) by (by destruct o).
    rewrite Ht. apply spells_app; [done| |done]. apply spells_blank.
    by apply (spells_sign o).
Qed.

Lemma renders_boolean o x y : boolean_dual o <> None -> renders x -> renders y -> renders (node o [x; y]).
Proof using Type.
  intros Ho (sx & Hx & Hsx) (sy & Hy & Hsy). unfold renders, node.
  rewrite render_inner by (by intros ->). rewrite !mapR_cons, Hx, Hy. cbn [mbind res_bind mapR].
  destruct o; try done; (eexists; split; [reflexivity|]);
    cbn [expression_tokens]; apply spells_infix; try done; by apply spells_in_parentheses.
Qed.

Lemma renders_not x : renders x -> renders (node Not [x]).
Proof using Type.
  intros (sx & Hx & Hsx). unfold renders, node. rendered.
  cbn [expression_tokens]. apply (spells_prefix "NOT"); [done|]. by apply spells_in_parentheses.
Qed.

Lemma renders_null (negated : bool) x : operand_ok x = true ->
  renders (node (if negated then IsNotNull else IsNull) [x]).
Proof using Type.
  intros Hx. operands b. unfold renders, node. destruct negated; rendered; cbn [expression_tokens].
  - apply (spells_infix s _ "IS" (u "NOT" ++ 32%Z :: u "NULL") [word "NOT"; word "NULL"]); [done..|].
    apply (spells_prefix "NOT" _ [word "NULL"]); [done|]. by apply spells_word.
  - apply (spells_infix s _ "IS" (u "NULL") [word "NULL"]); [done..|]. by apply spells_word.
Qed.

Lemma renders_in (negated : bool) x ys : operand_ok x = true -> forallb operand_ok ys = true ->
  renders (node (if negated then NotIn else In_) (x :: ys)).
Proof using Type.
  intros Hx Hys. destruct (spells_operands b ys Hys) as (ss & Hss & HF). operands b. unfold renders, node.
  pose proof (spells_in_parentheses _ _ (spells_join _ _ HF)) as Hp.
  destruct negated; rendered; cbn [expression_tokens].
  - apply (spells_infix s _ "NOT" (u "IN" ++ 32%Z :: _) (word "IN" :: _)); [done..|].
    by apply (spells_prefix "IN").
  - by apply (spells_infix s _ "IN").
Qed.

Lemma renders_between x low high : operand_ok x = true -> operand_ok low = true -> operand_ok high = true ->
  renders (node Between [x; low; high]).
Proof using Type.
  intros Hx Hl Hh. operands b. unfold renders, node. rendered. cbn [expression_tokens].
  apply (spells_infix _ _ "BETWEEN"); [done..|]. by apply (spells_infix _ _ "AND").
Qed.

(** The tokens of a rendered expression. *)
Lemma spells_expression e : declarable e = true -> renders e.
Proof using Type.
  induction e as [o args v IH] using check_expression_induction. cbn [declarable].
  rewrite andb_true_iff, bool_decide_eq_true. intros [-> H].
  assert (Hsub : forall x, x ∈ args -> declarable x = true -> renders x)
    by (rewrite Forall_forall in IH; naive_solver). clear IH.
  destruct (is_comparison o) eqn:Ho.
  { assert (Ha : match args with [x; y] => operand_ok x && operand_ok y | _ => false end = true)
      by (by destruct o). clear H.
    destruct args as [|x [|y [|]]]; try done. apply andb_true_iff in Ha as [Hx Hy].
    by apply renders_comparison. }
  destruct o; try done.
  - destruct args as [|x [|]]; try done. apply renders_not, Hsub; [left|done].
  - destruct args as [|x [|y [|]]]; try done. apply andb_true_iff in H as [Hx Hy].
    apply (renders_boolean And); [done|by apply Hsub; [left|]|by apply Hsub; [right; left|]].
  - destruct args as [|x [|y [|]]]; try done. apply andb_true_iff in H as [Hx Hy].
    apply (renders_boolean Or); [done|by apply Hsub; [left|]|by apply Hsub; [right; left|]].
  - destruct args as [|x [|]]; try done. by apply (renders_null false).
  - destruct args as [|x [|]]; try done. by apply (renders_null true).
  - destruct args as [|x [|y ys]]; try done. apply andb_true_iff in H as [Hx Hys].
    by apply (renders_in false).
  - destruct args as [|x [|y ys]]; try done. apply andb_true_iff in H as [Hx Hys].
    by apply (renders_in true).
  - destruct args as [|x [|low [|high [|]]]]; try done. rewrite !andb_true_iff in H. destruct H as [[Hx Hl] Hh].
    by apply renders_between.
Qed.
End cases.
End spelling.

Section tokens.
Context `{U : unicode} `{!ascii_laws U}.

Lemma read_body_length closing doubling s value rest :
  read_body closing doubling s = Some (value, rest) -> length rest <= length s.
Proof using Type.
  assert (Hn : forall n s value rest, length s <= n ->
    read_body closing doubling s = Some (value, rest) -> length rest <= length s);
    [|by apply (Hn (length s))].
  clear. induction n as [|n IH]; intros [|c s] value rest Hs H; simpl in Hs; try done; try lia.
  cbn [read_body] in H. destruct (negb (c =? closing)%Z).
  - apply bind_Some in H as ([v r] & Hr & H). injection H as <- <-.
    apply IH in Hr; [simpl; lia|lia].
  - destruct s as [|c' s]; [injection H as <- <-; simpl; lia|].
    destruct (_ && _).
    + apply bind_Some in H as ([v r] & Hr & H). injection H as <- <-.
      simpl in Hs. apply IH in Hr; [simpl; lia|lia].
    + injection H as <- <-. simpl. lia.
Qed.

Lemma check_round_ext m f g c s : (forall s', length s' <= length s -> f s' = g s') ->
  check_round m f c s = check_round m g c s.
Proof using Type.
  intros Hfg. unfold check_round.
  assert (Hafter : length (after_first newline (drop 1 s)) <= length s)
    by (pose proof (after_first_length newline (drop 1 s)); rewrite length_drop in *; lia).
  destruct (blank c); [by apply Hfg|].
  destruct (starts_with (u "--") _ && _); [by apply Hfg|].
  destruct (starts_with (u "/*") _).
  { destruct (find_split _ _) as [[inside rest]|] eqn:Hfind; [|done].
    apply find_split_length in Hfind. simpl in Hfind. rewrite length_drop in Hfind.
    destruct (_ || _); [done|]. apply Hfg. lia. }
  destruct (bool_decide _).
  { destruct (read_body _ _ s) as [[v r]|] eqn:Hr; [|done]. apply read_body_length in Hr.
    by rewrite Hfg. }
  destruct (_ || _).
  { pose proof (span_length name_part s). destruct (span _ _) as [word rest]. by rewrite Hfg. }
  destruct (is_digit c).
  { pose proof (span_length is_digit s). destruct (span _ _) as [word rest]. by rewrite Hfg. }
  destruct (is_pair _); rewrite Hfg; try done. rewrite length_drop. lia.
Qed.

(** More fuel than characters changes nothing. *)
Lemma check_tokens_enough m fuel s : length s <= fuel ->
  check_tokens_from m fuel s = check_tokens m s.
Proof using Type.
  unfold check_tokens. remember (length s) as n eqn:Hn. assert (Hle : length s <= n) by lia. clear Hn.
  revert s n Hle. induction fuel as [|fuel IH]; intros s n Hs Hf.
  - assert (n = 0) as -> by lia. by destruct s.
  - destruct s as [|c s]; [by destruct n|]. destruct n as [|n]; [simpl in Hs; lia|].
    simpl in Hs. apply check_round_ext. intros s' Hs'. apply IH; lia.
Qed.

Lemma check_tokens_cons m c s : check_tokens m (c :: s) = check_round m (check_tokens m) c s.
Proof using Type. apply check_round_ext. intros. by apply check_tokens_enough. Qed.

#[local] Arguments Z.eqb : simpl never.

Lemma read_symbol m c s : symbol_here c s = true ->
  check_tokens m (c :: s) =
  if is_pair (c :: s)
  then ts ← check_tokens m (drop 1 s); Ok (Token KSymbol (take 2 (c :: s)) :: ts)
  else ts ← check_tokens m s; Ok (Token KSymbol [c] :: ts).
Proof using All.
  unfold symbol_here. rewrite !andb_true_iff, !negb_true_iff.
  intros ((((((Hb & Hd) & Hs) & Hq) & Ha) & Hn) & Hr).
  unfold in_range in Hr. rewrite andb_true_iff, !Z.leb_le in Hr.
  rewrite check_tokens_cons. unfold check_round.
  by rewrite Hb, Hd, Hs, Hq, isalpha_law, Ha, Hn by lia.
Qed.

Lemma read_one m c s : symbol_here c s && negb (is_pair (c :: s)) = true ->
  check_tokens m (c :: s) = (ts ← check_tokens m s; Ok (Token KSymbol [c] :: ts)).
Proof using All.
  rewrite andb_true_iff, negb_true_iff. intros [H Hp]. by rewrite read_symbol, Hp.
Qed.
Lemma read_pair m c s : symbol_here c s && is_pair (c :: s) = true ->
  check_tokens m (c :: s) = (ts ← check_tokens m (drop 1 s); Ok (Token KSymbol (take 2 (c :: s)) :: ts)).
Proof using All. rewrite andb_true_iff. intros [H Hp]. by rewrite read_symbol, Hp. Qed.
Lemma read_blank m s : check_tokens m (32%Z :: s) = check_tokens m s.
Proof using Type. by rewrite check_tokens_cons. Qed.

(** Quoted texts. *)
Lemma read_body_quoted q s rest : match rest with [] => true | c :: _ => negb (c =? q)%Z end = true ->
  read_body q true (flat_map (doubled q) s ++ q :: rest) = Some (s, rest).
Proof using Type.
  intros Hr. induction s as [|c s IH]; cbn [flat_map app].
  - cbn [read_body]. rewrite Z.eqb_refl. simpl. destruct rest as [|d rest]; [done|].
    destruct (d =? q)%Z; [done|]. done.
  - unfold doubled at 1. destruct (Z.eqb_spec c q) as [-> | Hc]; cbn [app read_body].
    + rewrite Z.eqb_refl. simpl. by rewrite IH.
    + rewrite (proj2 (Z.eqb_neq c q)) by done. simpl. by rewrite IH.
Qed.

(** Words and numbers. *)
Lemma span_all f s rest : forallb f s = true -> starts f rest = false -> span f (s ++ rest) = (s, rest).
Proof using Type.
  intros Hs Hr. induction s as [|c s IH]; simpl in *.
  - destruct rest as [|d rest]; [done|]. simpl in *. by rewrite Hr.
  - apply andb_true_iff in Hs as [-> Hs]. by rewrite IH.
Qed.

Lemma ascii_alpha_range c : ascii_alpha c = true -> (65 <= c <= 122)%Z.
Proof using Type. unfold ascii_alpha. rewrite orb_true_iff, !andb_true_iff, !Z.leb_le. lia. Qed.
Lemma name_part_ascii c : ascii_alpha c || is_digit c || bool_decide (c ∈ [95; 36]%Z) = true ->
  (0 <= c < 128)%Z /\ name_part c = true.
Proof using All.
  intros H. assert (Hc : (0 <= c < 128)%Z).
  { rewrite !orb_true_iff, bool_decide_eq_true in H.
    destruct H as [[H%ascii_alpha_range | H%digit_range] | H]; [lia..|set_unfold; lia]. }
  split; [done|]. unfold name_part. by rewrite isalnum_law.
Qed.

Lemma ascii_word_ascii w : ascii_word w = true -> Forall (fun c => 0 <= c < 128)%Z w.
Proof using All.
  destruct w as [|c w]; [done|]. cbn [ascii_word]. rewrite andb_true_iff. intros [Hc Hw]. constructor.
  - apply ascii_alpha_range in Hc. lia.
  - apply Forall_forall. intros d Hd. rewrite forallb_forall in Hw.
    by apply name_part_ascii, Hw, list_elem_of_In.
Qed.

Lemma read_ascii_word m w rest : ascii_word w = true -> starts name_part rest = false ->
  check_tokens m (w ++ rest) = (ts ← check_tokens m rest; Ok (Token KWord w :: ts)).
Proof using All.
  intros Hw Hr. pose proof (ascii_word_ascii _ Hw) as Hascii. destruct w as [|c w]; [done|].
  cbn [ascii_word] in Hw. apply andb_true_iff in Hw as [Hc Hw]. apply ascii_alpha_range in Hc as Hcr.
  cbn [app]. rewrite check_tokens_cons. unfold check_round.
  assert (Hblank : blank c = false) by (apply bool_decide_eq_false_2; set_unfold; lia).
  assert (Hdash : starts_with (u "--") (c :: w ++ rest) = false) by (apply (first_char_differs [45%Z]); vm_compute; intros ->; lia).
  assert (Hstar : starts_with (u "/*") (c :: w ++ rest) = false) by (apply (first_char_differs [42%Z]); vm_compute; intros ->; lia).
  assert (Hquote : bool_decide (c ∈ [39; 34; 96; 91]%Z) = false).
  { apply bool_decide_eq_false_2. set_unfold. unfold ascii_alpha in Hc.
    rewrite orb_true_iff, !andb_true_iff, !Z.leb_le in Hc. lia. }
  rewrite Hblank, Hdash, Hstar, Hquote, isalpha_law, Hc by lia. cbn [andb orb].
  rewrite span_all.
  - assert (His : is_ascii (c :: w) = true).
    { apply forallb_forall. intros d Hd. rewrite Forall_forall in Hascii. apply Z.ltb_lt.
      apply Hascii. by apply list_elem_of_In. }
    rewrite His. done.
  - apply forallb_forall. intros d Hd. rewrite forallb_forall in Hw. by apply name_part_ascii, Hw.
  - done.
Qed.

Lemma clean_not_quote q rest : q ∈ [39; 34; 96]%Z -> clean rest = true ->
  match rest with [] => true | c :: _ => negb (c =? q)%Z end = true.
Proof using All.
  intros Hq Hr. destruct rest as [|c rest]; [done|]. simpl in Hr. apply bool_decide_eq_true in Hr.
  apply negb_true_iff, Z.eqb_neq. intros ->. set_unfold. lia.
Qed.

Lemma read_quoted_text m q s rest : q ∈ [39; 34; 96]%Z -> clean rest = true ->
  check_tokens m (quote_with q s ++ rest) =
  (ts ← check_tokens m rest; Ok (Token (if (q =? 39)%Z then KLiteral else KIdentifier) s :: ts)).
Proof using All.
  intros Hq Hr. unfold quote_with. cbn [app]. rewrite <- app_assoc. cbn [app].
  rewrite check_tokens_cons. unfold check_round.
  assert (Hbody : read_body (if (q =? 91)%Z then 93 else q) (negb (q =? 91)%Z)
    (flat_map (doubled q) s ++ q :: rest) = Some (s, rest)).
  { assert (q <> 91)%Z by (set_unfold; lia). rewrite (proj2 (Z.eqb_neq q 91)) by done.
    by apply read_body_quoted, clean_not_quote. }
  rewrite Hbody. set_unfold. by destruct Hq as [-> |[-> |[-> |[]]]].
Qed.

Lemma word_ends_stops rest : word_ends rest = true -> starts name_part rest = false.
Proof using All.
  destruct rest as [|c rest]; [done|]. simpl. rewrite bool_decide_eq_true. intros Hc. unfold name_part.
  set_unfold. by destruct Hc as [-> |[-> |[-> |[-> |[-> |[]]]]]]; rewrite isalnum_law by lia.
Qed.

Lemma read_digits m c s rest : is_digit c = true -> forallb is_digit s = true -> clean rest = true ->
  check_tokens m (c :: s ++ rest) = (ts ← check_tokens m rest; Ok (Token KNumber (c :: s) :: ts)).
Proof using All.
  intros Hc Hs Hr. rewrite check_tokens_cons. unfold check_round.
  apply digit_range in Hc as Hcr.
  assert (Hblank : blank c = false) by (apply bool_decide_eq_false_2; set_unfold; lia).
  assert (Hdash : starts_with (u "--") (c :: s ++ rest) = false) by (apply (first_char_differs [45%Z]); vm_compute; intros ->; lia).
  assert (Hstar : starts_with (u "/*") (c :: s ++ rest) = false) by (apply (first_char_differs [42%Z]); vm_compute; intros ->; lia).
  assert (Hquote : bool_decide (c ∈ [39; 34; 96; 91]%Z) = false)
    by (apply bool_decide_eq_false_2; set_unfold; lia).
  assert (Halpha : ascii_alpha c = false).
  { unfold ascii_alpha. rewrite orb_false_iff, !andb_false_iff, !Z.leb_gt. lia. }
  rewrite Hblank, Hdash, Hstar, Hquote, isalpha_law, Halpha, Hc, (proj2 (Z.eqb_neq c 95)) by lia.
  cbn [andb orb]. rewrite span_all; [by destruct (check_tokens m rest)|done|].
  destruct rest as [|d rest]; [done|]. simpl in *. apply bool_decide_eq_true in Hr.
  set_unfold. by destruct Hr as [-> |[-> |[-> |[-> |[]]]]].
Qed.

(** [_tokens] of [_check_catalog.py] is such a tokenizer. *)
#[export] Instance check_tokens_laws m :
  lexer_laws (check_tokens m) (fun ts r => ts' ← r; Ok (ts ++ ts')).
Proof using All.
  split.
  - by intros [|].
  - intros ts ts' [r|e]; simpl; [by rewrite app_assoc|done].
  - intros s. by rewrite check_tokens_cons.
  - apply read_one.
  - apply read_pair.
  - apply read_quoted_text.
  - intros w rest Hw Hr. by apply read_ascii_word, word_ends_stops.
  - apply read_digits.
Qed.
End tokens.
