(* ===== verification/CheckParsing.v ===== *)
(** * The parser of CHECK expressions

    It consumes tokens and ends; on the tokens of a declared expression it
    returns that expression. *)

From S2P Require Export CheckReading.

Section parser.
Context `{U : unicode} `{!ascii_laws U}.

(** ** Every call consumes a token *)

Definition shrinking {A} (p : list token -> res (A * list token)) : Prop :=
  forall ts a rest, p ts = Ok (a, rest) -> length rest < length ts.

Lemma accept_length w ts rest : accept w ts = Some rest -> length ts = S (length rest).
Proof using Type. destruct ts as [|t ts]; simpl; [done|]. destruct (_ && _); [|done]. by intros [= ->]. Qed.

Lemma require_length w ts rest : require w ts = Ok rest -> length ts = S (length rest).
Proof using Type.
  unfold require. destruct (accept w ts) eqn:H; [|done]. intros [= <-]. by eapply accept_length.
Qed.

Lemma accepted_length w ts b rest : accepted w ts = (b, rest) -> length rest <= length ts.
Proof using Type.
  unfold accepted. destruct (accept w ts) eqn:H; intros [= _ <-]; [apply accept_length in H; lia|done].
Qed.

Lemma accept_spelling_length table ts o rest : accept_spelling table ts = Some (o, rest) ->
  length ts = S (length rest).
Proof using Type.
  induction table as [|[w o'] table IH]; simpl; [done|].
  destruct (accept w ts) eqn:H; [|done]. intros [= _ <-]. by eapply accept_length.
Qed.

(** Take apart a run that succeeded. *)
Ltac run H :=
  repeat match type of H with
  | (?m ≫= ?f) = Ok _ => let a := fresh "a" in let Ha := fresh "Ha" in
      apply bind_Ok in H as (a & Ha & H); try (is_var a; match type of a with prod _ _ => destruct a end)
  | Ok _ = Ok _ => injection H; clear H; intros; subst
  | unsupported = Ok _ => discriminate H
  | Raise _ = Ok _ => discriminate H
  | raise _ _ = Ok _ => discriminate H
  end.
Ltac lengths := repeat match goal with
  | H : accept _ _ = Some _ |- _ => apply accept_length in H
  | H : require _ _ = Ok _ |- _ => apply require_length in H
  | H : accepted _ _ = (_, _) |- _ => apply accepted_length in H
  | H : accept_spelling _ _ = Some _ |- _ => apply accept_spelling_length in H
  | Hp : shrinking ?p, H : ?p _ = Ok _ |- _ => apply Hp in H
  end.

Lemma boolean_rest_length child o w n e ts e' rest : shrinking child ->
  boolean_rest child o w n e ts = Ok (e', rest) -> length rest <= length ts.
Proof using Type.
  intros Hc. revert e ts. induction n as [|n IH]; intros e ts; simpl;
    destruct (accept w ts) as [ts'|] eqn:Ha; intros H; try done; try (injection H as <- <-; lia).
  run H. apply IH in H. lengths. lia.
Qed.

Lemma parse_boolean_shrinking child o w : shrinking child -> shrinking (parse_boolean child o w).
Proof using Type.
  intros Hc ts e rest H. unfold parse_boolean in H. run H. apply boolean_rest_length in H; [|done]. lengths. lia.
Qed.

Lemma more_operands_length operand n ts es rest : shrinking operand ->
  more_operands operand n ts = Ok (es, rest) -> length rest <= length ts.
Proof using Type.
  intros Hc. revert ts es. induction n as [|n IH]; intros ts es; simpl;
    destruct (accept _ ts) as [ts'|] eqn:Ha; intros H; try done; try (injection H as <- <-; lia).
  run H. subst. match goal with H : more_operands _ _ _ = _ |- _ => apply IH in H end. lengths. lia.
Qed.

Lemma parse_is_length lhs ts e rest : parse_is lhs ts = Ok (e, rest) -> length rest <= length ts.
Proof using Type.
  unfold parse_is. intros H. destruct (accepted _ ts) eqn:Ha; run H; simplify_eq; lengths; lia.
Qed.

Lemma parse_in_length operand negated lhs ts e rest : shrinking operand ->
  parse_in operand negated lhs ts = Ok (e, rest) -> length rest <= length ts.
Proof using Type.
  unfold parse_in. intros Hc H. run H. simplify_eq. lengths.
  match goal with H : more_operands _ _ _ = _ |- _ => apply more_operands_length in H; [|done] end. lia.
Qed.

Lemma parse_between_length operand negated lhs ts e rest : shrinking operand ->
  parse_between operand negated lhs ts = Ok (e, rest) -> length rest <= length ts.
Proof using Type. unfold parse_between. intros Hc H. run H. simplify_eq. lengths. lia. Qed.

Lemma parse_tail_length operand lhs ts e rest : shrinking operand ->
  parse_tail operand lhs ts = Ok (e, rest) -> length rest <= length ts.
Proof using Type.
  intros Hc H. unfold parse_tail in H.
  destruct (accept (u "IS") ts) eqn:Hi; [apply parse_is_length in H; lengths; lia|].
  destruct (accepted (u "NOT") ts) as [negated ts'] eqn:Hn.
  destruct (accept (u "IN") ts') eqn:Hin; [apply parse_in_length in H; [lengths; lia|done]|].
  destruct (accept (u "BETWEEN") ts') eqn:Hb; [apply parse_between_length in H; [lengths; lia|done]|].
  destruct negated; [done|]. destruct (accept_spelling _ _) as [[o ts'']|] eqn:Hs; run H; simplify_eq; lengths; lia.
Qed.

Lemma parse_comparison_shrinking self operand : shrinking self -> shrinking operand ->
  shrinking (parse_comparison self operand).
Proof using Type.
  intros Hs Ho ts e rest H. unfold parse_comparison in H.
  destruct (accept _ ts) eqn:Ha; run H; simplify_eq; lengths; [lia|].
  apply parse_tail_length in H; [|done]. lia.
Qed.

Lemma parse_converted_length convert ts e rest : parse_converted convert ts = Ok (e, rest) ->
  length rest < length ts.
Proof using Type.
  unfold parse_converted. intros H. run H. destruct a0 as [|[[] encoded] ts']; try done.
  run H. simplify_eq. lengths. simpl in *. lia.
Qed.

Lemma parse_atom_length lk signed negative t ts e rest : parse_atom lk signed negative t ts = Ok (e, rest) ->
  length rest <= length ts.
Proof using Type.
  unfold parse_atom. intros H.
  repeat (case_match; simplify_eq); try done; try (apply parse_converted_length in H; lia); run H; simplify_eq; done.
Qed.

Lemma parse_operand_shrinking lk nested : shrinking nested -> shrinking (parse_operand lk nested).
Proof using Type.
  intros Hn ts e rest H. unfold parse_operand in H.
  destruct (accept (u "(") ts) eqn:Ha; [run H; simplify_eq; lengths; lia|].
  destruct (accepted (u "-") ts) as [negative ts1] eqn:Hm.
  assert (Hp : exists b ts2, (if negative then (false, ts1) else accepted (u "+") ts1) = (b, ts2) /\
    length ts2 <= length ts1).
  { destruct negative; [by eexists _, _|]. destruct (accepted (u "+") ts1) eqn:Hp. eexists _, _. split; [done|].
    by eapply accepted_length. }
  destruct Hp as (explicit_plus & ts2 & Heq & Hp). rewrite Heq in H. destruct ts2 as [|t ts2]; [done|].
  apply parse_atom_length in H. lengths. simpl in *. lia.
Qed.

Lemma parse_at_shrinking lk fuel l : shrinking (parse_at lk fuel l).
Proof using Type.
  revert l. induction fuel as [|fuel IH]; intros l ts e rest H; [done|]. cbn [parse_at] in H. cbv zeta in H.
  destruct l.
  - by eapply parse_boolean_shrinking.
  - by eapply parse_boolean_shrinking.
  - by eapply parse_comparison_shrinking.
  - by eapply parse_operand_shrinking.
Qed.

(** ** Fuel

    Two runs that agree, and raise nothing but what the callers catch: in
    particular they did not stop for want of fuel. *)

Definition catalog_error (c : exc_class) : bool := unknown_class c && negb (bool_decide (c = RecursionError)).
Definition settled {A} (r r' : res A) : Prop :=
  r = r' /\ match r with Raise e => catalog_error (exn_class e) = true | Ok _ => True end.

Lemma settled_bind {A B} (m m' : res A) (f g : A -> res B) :
  settled m m' -> (forall a, m = Ok a -> settled (f a) (g a)) -> settled (m ≫= f) (m' ≫= g).
Proof using Type. intros [<- Hm] H. destruct m; simpl; [by apply H|by split]. Qed.

Lemma settled_Ok {A} (a : A) : settled (Ok a) (Ok a).
Proof using Type. by split. Qed.
Lemma settled_unsupported {A} : settled (A := A) unsupported unsupported.
Proof using Type. by split. Qed.
Lemma settled_require w ts : settled (require w ts) (require w ts).
Proof using Type. unfold require. by destruct (accept w ts); split. Qed.
Lemma settled_int s : settled (int_of_digits s) (int_of_digits s).
Proof using Type. unfold int_of_digits. by destruct (4300 <? length s); split. Qed.
Lemma settled_hex s : settled (hex_text s) (hex_text s).
Proof using Type. unfold hex_text. destruct (fromhex s) as [b|]; [destruct (utf8_decode b)|]; by split. Qed.

Create HintDb settled.
Hint Resolve settled_Ok settled_unsupported settled_require settled_int settled_hex : settled.

(** Agreement on lists of fewer than [n] tokens. *)
Definition settles {A} (n : nat) (p p' : list token -> res A) : Prop :=
  forall ts, length ts < n -> settled (p ts) (p' ts).

Lemma settles_less {A} n n' (p p' : list token -> res A) : n' <= n -> settles n p p' -> settles n' p p'.
Proof using Type. intros Hn H ts Hts. apply H. lia. Qed.

(** Go through a sequence of calls. *)
Ltac settle := repeat first
  [ progress auto with settled
  | apply settled_bind; [|let a := fresh "a" in let Ha := fresh "Ha" in
      intros a Ha; try (match type of a with prod _ _ => destruct a end)] ].

Lemma settled_boolean_rest child child' o w k : forall e ts, shrinking child -> length ts <= k ->
  settles (S k) child child' ->
  settled (boolean_rest child o w k e ts) (boolean_rest child' o w k e ts).
Proof using Type.
  induction k as [|k IH]; intros e ts Hsh Hk Hc; simpl; destruct (accept w ts) as [ts'|] eqn:Ha; settle;
    try (lengths; lia); try (apply Hc; lengths; lia).
  apply IH; [done|lengths; lia|]. eapply settles_less; [|done]. lia.
Qed.

Lemma settled_parse_boolean child child' o w ts : shrinking child -> settles (S (length ts)) child child' ->
  settled (parse_boolean child o w ts) (parse_boolean child' o w ts).
Proof using Type.
  intros Hsh Hc. unfold parse_boolean. settle; try (apply Hc; lia).
  apply settled_boolean_rest; [done|done|]. eapply settles_less; [|done]. lengths. lia.
Qed.

Lemma settled_more_operands operand operand' k : forall ts, shrinking operand -> length ts <= k ->
  settles (S k) operand operand' ->
  settled (more_operands operand k ts) (more_operands operand' k ts).
Proof using Type.
  induction k as [|k IH]; intros ts Hsh Hk Hc; simpl; destruct (accept _ ts) as [ts'|] eqn:Ha; settle;
    try (lengths; lia); try (apply Hc; lengths; lia).
  apply IH; [done|lengths; lia|]. eapply settles_less; [|done]. lia.
Qed.

Lemma settled_parse_tail operand operand' lhs ts : shrinking operand -> settles (length ts) operand operand' ->
  settled (parse_tail operand lhs ts) (parse_tail operand' lhs ts).
Proof using Type.
  intros Hsh Hc. unfold parse_tail.
  destruct (accept (u "IS") ts); [unfold parse_is; destruct (accepted _ _); settle|].
  destruct (accepted (u "NOT") ts) as [negated ts'] eqn:Hn. apply accepted_length in Hn.
  destruct (accept (u "IN") ts') eqn:Hin.
  { unfold parse_in. settle; lengths; try (apply Hc; lia).
    apply settled_more_operands; [done|done|]. eapply settles_less; [|done]. lia. }
  destruct (accept (u "BETWEEN") ts') eqn:Hb.
  { unfold parse_between. settle; lengths; apply Hc; lia. }
  destruct negated; settle. destruct (accept_spelling _ _) as [[o ts'']|] eqn:Hs; settle.
  apply Hc. lengths. lia.
Qed.

Lemma settled_parse_comparison self self' operand operand' ts : shrinking operand ->
  settles (length ts) self self' -> settles (S (length ts)) operand operand' ->
  settled (parse_comparison self operand ts) (parse_comparison self' operand' ts).
Proof using Type.
  intros Hsh Hs Ho. unfold parse_comparison. destruct (accept (u "NOT") ts) eqn:Ha; settle; try (apply Ho; lia).
  - apply Hs. lengths. lia.
  - apply settled_parse_tail; [done|]. eapply settles_less; [|done]. lengths. lia.
Qed.

Lemma settled_parse_converted convert ts : settled (parse_converted convert ts) (parse_converted convert ts).
Proof using Type.
  unfold parse_converted. settle. destruct a0 as [|[[] encoded] ts']; settle.
Qed.

Lemma settled_parse_atom lk signed negative t ts :
  settled (parse_atom lk signed negative t ts) (parse_atom lk signed negative t ts).
Proof using Type.
  unfold parse_atom. repeat case_match; try apply settled_parse_converted; settle.
Qed.

Lemma settled_parse_operand lk nested nested' ts : settles (length ts) nested nested' ->
  settled (parse_operand lk nested ts) (parse_operand lk nested' ts).
Proof using Type.
  intros Hn. unfold parse_operand. destruct (accept (u "(") ts) eqn:Ha; settle.
  - apply Hn. lengths. lia.
  - destruct (accepted (u "-") ts) as [negative ts1]. destruct (if negative then _ else _) as [plus ts2].
    destruct ts2; [settle|]. apply settled_parse_atom.
Qed.

(** With [parse_fuel] the parser ends, and more fuel changes nothing. *)
Lemma parse_at_settled lk fuel : forall fuel' l ts, parse_fuel l ts <= fuel -> parse_fuel l ts <= fuel' ->
  settled (parse_at lk fuel l ts) (parse_at lk fuel' l ts).
Proof using Type.
  induction fuel as [|fuel IH]; intros fuel' l ts Hf Hf'; [unfold parse_fuel in Hf; destruct l; simpl in Hf; lia|].
  destruct fuel' as [|fuel']; [unfold parse_fuel in Hf'; destruct l; simpl in Hf'; lia|].
  unfold parse_fuel in *. cbn [parse_at]. cbv zeta.
  assert (Hc : forall l' n, (0 < n -> 4 * (n - 1) + rank l' <= Nat.min fuel fuel') ->
    settles n (parse_at lk fuel l') (parse_at lk fuel' l')).
  { intros l' n Hn ts' Hts'. apply IH; unfold parse_fuel; lia. }
  destruct l; simpl in Hf, Hf'.
  - apply settled_parse_boolean; [apply parse_at_shrinking|]. apply Hc. simpl. lia.
  - apply settled_parse_boolean; [apply parse_at_shrinking|]. apply Hc. simpl. lia.
  - apply settled_parse_comparison; [apply parse_at_shrinking| |]; apply Hc; simpl; lia.
  - apply settled_parse_operand. apply Hc. simpl. lia.
Qed.

(** ** Every answer is an answer *)

Lemma check_tokens_settled m s : settled (check_tokens m s) (check_tokens m s).
Proof using Type.
  assert (H : forall n s, length s <= n -> settled (check_tokens m s) (check_tokens m s)); [|by apply (H (length s))].
  clear s. induction n as [|n IH]; intros [|c s] Hs; simpl in Hs; try (by split); try lia.
  rewrite check_tokens_cons. unfold check_round.
  assert (Hafter : length (after_first newline (drop 1 s)) <= length s)
    by (pose proof (after_first_length newline (drop 1 s)); rewrite length_drop in *; lia).
  destruct (blank c); [apply IH; lia|].
  destruct (starts_with (u "--") _ && _); [apply IH; lia|].
  destruct (starts_with (u "/*") _).
  { destruct (find_split _ _) as [[inside rest]|] eqn:Hfind; [|by split].
    apply find_split_length in Hfind. simpl in Hfind. rewrite length_drop in Hfind.
    destruct (_ || _); [by split|]. apply IH. lia. }
  destruct (bool_decide _).
  { destruct (read_body _ _ s) as [[v r]|] eqn:Hr; [|by split]. apply read_body_length in Hr.
    settle. apply IH. lia. }
  destruct (_ || _).
  { pose proof (span_length name_part s). destruct (span _ _) as [w rest]. settle. apply IH. simpl in *. lia. }
  destruct (is_digit c).
  { pose proof (span_length is_digit s). destruct (span _ _) as [w rest]. settle. apply IH. simpl in *. lia. }
  destruct (is_pair _); settle; apply IH; rewrite ?length_drop; lia.
Qed.

Lemma parse_settled lk ts : settled (parse lk ts) (parse lk ts).
Proof using Type.
  unfold parse. settle; [by apply parse_at_settled|]. by destruct (bool_decide _); split.
Qed.

#[local] Hint Resolve check_tokens_settled parse_settled : settled.

Lemma or_none_settled {A} (r : res (option A)) : settled r r -> exists o, or_none r = Ok o /\ (r = Ok o \/ o = None).
Proof using Type.
  intros [_ H]. destruct r as [o|e]; simpl; [by eauto|].
  unfold catalog_error in H. apply andb_true_iff in H as [-> _]. eauto.
Qed.

(** whatever text the catalog holds, [parse_check] answers: it raises
    nothing, and neither its tokenizer nor its parser runs out of fuel. *)
Theorem parse_check_total sql :
  (exists answer, parse_check sql = Ok answer) /\
  (forall e, (ts ← check_tokens true sql; parse false ts) = Raise e -> exn_class e <> RecursionError).
Proof using Type.
  split.
  - unfold parse_check. match goal with |- context [or_none ?r] => destruct (or_none_settled r) as (o & -> & _) end; [|by eexists].
    settle. destruct (has_backslash a); settle.
  - intros e H. assert (Hs : settled (ts ← check_tokens true sql; parse false ts)
      (ts ← check_tokens true sql; parse false ts)) by settle.
    destruct Hs as [_ Hs]. rewrite H in Hs. intros He. by rewrite He in Hs.
Qed.

(** Nor does the reader of a reported default. *)
Lemma parse_default_total mariadb sql : exists v, parse_default_literal mariadb sql = Ok v.
Proof using Type.
  unfold parse_default_literal.
  match goal with |- context [or_none ?r] => destruct (or_none_settled r) as (o & -> & _) end; [|by eexists].
  settle. destruct (mariadb && has_backslash a); settle.
Qed.

(** ** Derivations *)

Definition ascii_upper (s : utext) : utext :=
  map (fun c => if (97 <=? c) && (c <=? 122) then c - 32 else c)%Z s.
Definition ascii_only (s : utext) : bool := forallb (in_range 0 127) s.

Lemma upper_ascii s : ascii_only s = true -> py_upper s = ascii_upper s.
Proof using All.
  intros H. apply upper_law. apply Forall_forall. intros c Hc. unfold ascii_only in H.
  rewrite forallb_forall in H. specialize (H c (proj1 (list_elem_of_In _ _) Hc)).
  unfold in_range in H. rewrite andb_true_iff, !Z.leb_le in H. lia.
Qed.

Definition keyword_token (k : token_kind) : bool := bool_decide (k = KWord) || bool_decide (k = KSymbol).

Lemma accept_hit v k w ts : keyword_token k && ascii_only w && bool_decide (ascii_upper w = v) = true ->
  accept v (Token k w :: ts) = Some ts.
Proof using All.
  rewrite !andb_true_iff, bool_decide_eq_true. intros [[Hk Hw] <-]. simpl. rewrite upper_ascii by done.
  unfold keyword_token in Hk. rewrite Hk. by rewrite bool_decide_eq_true_2.
Qed.
Lemma accept_miss v k w ts : ascii_only w && negb (bool_decide (ascii_upper w = v)) = true ->
  accept v (Token k w :: ts) = None.
Proof using All.
  rewrite andb_true_iff, negb_true_iff. intros [Hw Hv]. simpl. rewrite upper_ascii, Hv by done.
  by rewrite andb_false_r.
Qed.
Lemma accept_other v k w ts : keyword_token k = false -> accept v (Token k w :: ts) = None.
Proof using Type. intros Hk. simpl. unfold keyword_token in Hk. by rewrite Hk. Qed.

End parser.

(** Decide what a concrete token is accepted as. *)
Ltac accepts := unfold word, symbol, opening, closing, require, accepted; repeat first
  [ rewrite accept_hit by reflexivity
  | rewrite accept_miss by reflexivity
  | rewrite accept_other by reflexivity
  | progress cbn [mbind res_bind] ].

Section derivations.
Context `{U : unicode} `{!ascii_laws U}.

Definition derives (lk : bool) (l : level) (ts : list token) (e : check_expression) (rest : list token) : Prop :=
  exists n, forall fuel, n <= fuel -> parse_at lk fuel l ts = Ok (e, rest).

Lemma parse_derives lk ts e : derives lk LOr ts e [] -> parse lk ts = Ok e.
Proof using Type.
  intros [n Hn]. unfold parse. set (fuel := parse_fuel LOr ts).
  destruct (parse_at_settled lk fuel (Nat.max n fuel) LOr ts) as [-> _]; [done|lia|].
  rewrite Hn by lia. done.
Qed.

(** What may follow a comparison. *)
Definition stops (rest : list token) : Prop :=
  rest = [] \/ exists r, rest = closing :: r \/ rest = word "AND" :: r \/ rest = word "OR" :: r.
Definition ends (rest : list token) : Prop := rest = [] \/ exists r, rest = closing :: r.

Lemma ends_stops rest : ends rest -> stops rest.
Proof using Type. intros [-> | [r ->]]; [by left|right; naive_solver]. Qed.
Lemma ends_accept rest w : ends rest -> bool_decide (w = u ")") = false -> accept w rest = None.
Proof using All.
  intros [-> | [r ->]] Hw; [done|]. unfold closing. apply accept_miss. rewrite andb_true_iff, negb_true_iff.
  split; [reflexivity|]. apply bool_decide_eq_false in Hw. by apply bool_decide_eq_false_2.
Qed.

Lemma tail_stops operand lhs rest : stops rest -> parse_tail operand lhs rest = Ok (lhs, rest).
Proof using All.
  intros [-> | [r [-> |[-> | ->]]]]; [done|..]; unfold parse_tail, accept_spelling, spellings; by accepts.
Qed.

Lemma derive_parentheses lk ts e rest : derives lk LOr ts e (closing :: rest) ->
  derives lk LOperand (opening :: ts) e rest.
Proof using All.
  intros [n Hn]. exists (S n). intros [|fuel] Hf; [lia|]. cbn [parse_at]. cbv zeta. unfold parse_operand.
  accepts. rewrite Hn by lia. cbn [mbind res_bind]. by accepts.
Qed.

Lemma derive_comparison lk ts e rest : accept (u "NOT") ts = None -> stops rest ->
  derives lk LOperand ts e rest -> derives lk LComparison ts e rest.
Proof using All.
  intros Ha Hr [n Hn]. exists (S n). intros [|fuel] Hf; [lia|]. cbn [parse_at]. cbv zeta.
  unfold parse_comparison. rewrite Ha, Hn by lia. cbn [mbind res_bind]. by apply tail_stops.
Qed.

Lemma derive_not lk ts e rest : derives lk LComparison ts e rest ->
  derives lk LComparison (word "NOT" :: ts) (node Not [e]) rest.
Proof using All.
  intros [n Hn]. exists (S n). intros [|fuel] Hf; [lia|]. cbn [parse_at]. cbv zeta.
  unfold parse_comparison. accepts. by rewrite Hn by lia.
Qed.

Lemma derive_up lk l ts e rest : l = LOr /\ accept (u "OR") rest = None /\ derives lk LAnd ts e rest \/
    l = LAnd /\ accept (u "AND") rest = None /\ derives lk LComparison ts e rest ->
  derives lk l ts e rest.
Proof using Type.
  intros [(-> & Ha & [n Hn]) | (-> & Ha & [n Hn])]; exists (S n); intros [|fuel] Hf; try lia;
    cbn [parse_at]; cbv zeta; unfold parse_boolean; rewrite Hn by lia; cbn [mbind res_bind];
    destruct (length rest); simpl; by rewrite Ha.
Qed.

Lemma derive_and lk ts x ts' y rest : derives lk LComparison ts x (word "AND" :: ts') ->
  derives lk LComparison ts' y rest -> accept (u "AND") rest = None ->
  derives lk LAnd ts (node And [x; y]) rest.
Proof using All.
  intros [n Hn] [n' Hn'] Ha. exists (S (Nat.max n n')). intros [|fuel] Hf; [lia|].
  cbn [parse_at]. cbv zeta. unfold parse_boolean. rewrite Hn by lia. cbn [mbind res_bind length boolean_rest].
  accepts. rewrite Hn' by lia. cbn [mbind res_bind]. destruct (length ts'); simpl; by rewrite Ha.
Qed.
Lemma derive_or lk ts x ts' y rest : derives lk LAnd ts x (word "OR" :: ts') ->
  derives lk LAnd ts' y rest -> accept (u "OR") rest = None ->
  derives lk LOr ts (node Or [x; y]) rest.
Proof using All.
  intros [n Hn] [n' Hn'] Ha. exists (S (Nat.max n n')). intros [|fuel] Hf; [lia|].
  cbn [parse_at]. cbv zeta. unfold parse_boolean. rewrite Hn by lia. cbn [mbind res_bind length boolean_rest].
  accepts. rewrite Hn' by lia. cbn [mbind res_bind]. destruct (length ts'); simpl; by rewrite Ha.
Qed.

(** A number or a text, wherever it is. *)
Lemma int_operand lk nested n rest : int_ok n = true ->
  parse_operand lk nested (int_tokens n ++ rest) = Ok (literal (VInt n), rest).
Proof using All.
  unfold int_ok, int_tokens. rewrite Z.ltb_lt. intros Hn. unfold parse_operand.
  destruct (Z.ltb_spec n 0); cbn [app]; accepts; unfold parse_atom; cbn [tk_kind tk_text].
  - rewrite (proj1 (str_nonneg_value (- n) ltac:(lia))). simpl. by rewrite Z.opp_involutive.
  - by rewrite (proj1 (str_nonneg_value n ltac:(lia))).
Qed.

Lemma converted_hex convert h s rest : hex_text h = Ok s ->
  parse_converted convert (opening :: word "X" :: Token KLiteral h ::
    (if convert then [word "USING"; word "utf8mb4"] else [word "AS"; word "TEXT"]) ++ closing :: rest) =
  Ok (literal (VStr s), rest).
Proof using All.
  intros Hh. unfold parse_converted. destruct convert; accepts; cbn [app]; accepts; by rewrite Hh.
Qed.

Lemma text_operand lk nested b s h rest : text_ok s = true -> encoded_hex s = Ok h ->
  parse_operand lk nested (text_tokens b s h ++ rest) = Ok (literal (VStr s), rest).
Proof using All.
  intros Hs Hh. destruct (utf8_ok s Hs) as [Hc _]. destruct (encoded_hex_text s h Hc Hh) as [Ht _].
  unfold parse_operand, text_tokens. destruct b; [case_bool_decide|]; cbn [app]; accepts;
    unfold parse_atom; cbn [tk_kind tk_text andb orb]; rewrite ?upper_ascii by done; try done.
  - by apply (converted_hex false).
  - by apply (converted_hex true).
Qed.

Lemma derive_operand lk b e rest : operand_ok e = true ->
  derives lk LOperand (operand_tokens b e ++ rest) e rest.
Proof using All.
  intros He. exists 1. intros [|fuel] Hf; [lia|]. cbn [parse_at]. cbv zeta.
  destruct e as [o args v]. destruct o; try done; destruct args; try done; destruct v as [|n|s]; try done.
  - by apply int_operand.
  - destruct (utf8_ok s He) as (_ & h & Hh). simpl operand_tokens. rewrite Hh. by apply text_operand.
Qed.

Lemma operand_not_negated b e rest : operand_ok e = true ->
  accept (u "NOT") (operand_tokens b e ++ rest) = None.
Proof using All.
  intros He. destruct e as [o args v]. destruct o; try done; destruct args; try done; destruct v as [|n|s]; try done.
  - simpl operand_tokens. unfold int_tokens. destruct (n <? 0)%Z; cbn [app]; by accepts.
  - simpl operand_tokens. unfold text_tokens. destruct b; [case_bool_decide|]; cbn [app]; by accepts.
Qed.

Lemma derive_tail lk b x tail e rest : operand_ok x = true ->
  (exists n, forall fuel, n <= fuel -> parse_tail (parse_at lk fuel LOperand) x tail = Ok (e, rest)) ->
  derives lk LComparison (operand_tokens b x ++ tail) e rest.
Proof using All.
  intros Hx [n Hn]. destruct (derive_operand lk b x tail Hx) as [n' Hn'].
  exists (S (Nat.max n n')). intros [|fuel] Hf; [lia|]. cbn [parse_at]. cbv zeta.
  unfold parse_comparison. rewrite operand_not_negated, Hn' by (done || lia). cbn [mbind res_bind].
  apply Hn. lia.
Qed.

Lemma derive_sign lk b o x y rest : is_comparison o = true -> operand_ok x = true -> operand_ok y = true ->
  derives lk LComparison (operand_tokens b x ++ sign_token o :: operand_tokens b y ++ rest)
    (node o [x; y]) rest.
Proof using All.
  intros Ho Hx Hy. apply derive_tail; [done|]. destruct (derive_operand lk b y rest Hy) as [n Hn].
  exists n. intros fuel Hf. unfold parse_tail, sign_token.
  destruct o; try done; cbn [operator_text fmap option_fmap option_map default from_option spellings accept_spelling];
    accepts; by rewrite Hn.
Qed.

Lemma derive_null lk b (negated : bool) x rest : operand_ok x = true ->
  derives lk LComparison
    (operand_tokens b x ++ (if negated then [word "IS"; word "NOT"; word "NULL"] else [word "IS"; word "NULL"]) ++ rest)
    (node (if negated then IsNotNull else IsNull) [x]) rest.
Proof using All.
  intros Hx. apply derive_tail; [done|]. exists 0. intros fuel _. unfold parse_tail, parse_is.
  destruct negated; cbn [app]; by accepts.
Qed.

Lemma derive_between lk b x low high rest : operand_ok x = true -> operand_ok low = true ->
  operand_ok high = true ->
  derives lk LComparison
    (operand_tokens b x ++ word "BETWEEN" :: operand_tokens b low ++ word "AND" :: operand_tokens b high ++ rest)
    (node Between [x; low; high]) rest.
Proof using All.
  intros Hx Hl Hh. apply derive_tail; [done|].
  destruct (derive_operand lk b low (word "AND" :: operand_tokens b high ++ rest) Hl) as [n Hn].
  destruct (derive_operand lk b high rest Hh) as [n' Hn'].
  exists (Nat.max n n'). intros fuel Hf. unfold parse_tail, parse_between.
  accepts. rewrite Hn by lia. cbn [mbind res_bind]. accepts. by rewrite Hn' by lia.
Qed.

Lemma derive_operands lk b es rest : forallb operand_ok es = true ->
  exists n, forall fuel k, n <= fuel -> length es <= k ->
    more_operands (parse_at lk fuel LOperand) k
      (flat_map (cons (symbol ",")) (map (operand_tokens b) es) ++ closing :: rest) = Ok (es, closing :: rest).
Proof using All.
  induction es as [|e es IH]; cbn [forallb].
  - intros _. exists 0. intros fuel k _ _. cbn [map flat_map app]. destruct k; cbn [more_operands]; by accepts.
  - rewrite andb_true_iff. intros [He Hes]. destruct (IH Hes) as [n Hn].
    destruct (derive_operand lk b e
      (flat_map (cons (symbol ",")) (map (operand_tokens b) es) ++ closing :: rest) He) as [n' Hn'].
    exists (Nat.max n n'). intros fuel k Hf Hk. destruct k as [|k]; simpl in Hk; [lia|].
    cbn [map flat_map app more_operands]. rewrite <- app_assoc.
    assert (Hcomma : forall ts, accept (u ",") (symbol "," :: ts) = Some ts) by (intros; by accepts).
    rewrite Hcomma, Hn' by lia. cbn [mbind res_bind]. by rewrite Hn by lia.
Qed.

Lemma derive_in lk b (negated : bool) x y ys rest : operand_ok x = true -> forallb operand_ok (y :: ys) = true ->
  derives lk LComparison
    (operand_tokens b x ++ (if negated then [word "NOT"; word "IN"] else [word "IN"]) ++
     in_parentheses (comma_tokens (map (operand_tokens b) (y :: ys))) ++ rest)
    (node (if negated then NotIn else In_) (x :: y :: ys)) rest.
Proof using All.
  intros Hx Hys. cbn [forallb] in Hys. apply andb_true_iff in Hys as [Hy Hys].
  apply derive_tail; [done|].
  destruct (derive_operands lk b ys rest Hys) as [n Hn].
  destruct (derive_operand lk b y
      (flat_map (cons (symbol ",")) (map (operand_tokens b) ys) ++ closing :: rest) Hy) as [n' Hn'].
  exists (Nat.max n n'). intros fuel Hf.
  assert (Hin : parse_in (parse_at lk fuel LOperand) negated x
    (in_parentheses (comma_tokens (map (operand_tokens b) (y :: ys))) ++ rest) =
    Ok (node (if negated then NotIn else In_) (x :: y :: ys), rest)).
  { unfold parse_in, in_parentheses. cbn [app map comma_tokens]. rewrite <- !app_assoc. cbn [app].
    assert (Hopen : forall ts, require (u "(") (opening :: ts) = Ok ts) by (intros; by accepts).
    rewrite Hopen. cbn [mbind res_bind]. rewrite Hn' by lia. cbn [mbind res_bind]. rewrite Hn.
    - cbn [mbind res_bind]. by accepts.
    - lia.
    - rewrite length_app. cbn [length]. clear.
      induction ys as [|z ys IH]; cbn [map flat_map length]; [lia|]. cbn [app length].
      rewrite length_app. lia. }
  unfold parse_tail. destruct negated; cbn [app]; accepts; exact Hin.
Qed.

(** The parser reads back the tokens of a declared expression. *)
Lemma derive_expression lk b e : declarable e = true -> forall rest, ends rest ->
  derives lk LOr (expression_tokens b e ++ rest) e rest.
Proof using All.
  induction e as [o args v IH] using check_expression_induction. cbn [declarable].
  rewrite andb_true_iff, bool_decide_eq_true. intros [-> H] rest Hr.
  assert (Hsub : forall x, x ∈ args -> declarable x = true -> forall rest,
    derives lk LOperand (in_parentheses (expression_tokens b x) ++ rest) x rest).
  { intros x Hx Hd rest'. unfold in_parentheses. cbn [app]. rewrite <- app_assoc. cbn [app].
    apply derive_parentheses. rewrite Forall_forall in IH. apply IH; [done..|]. right. by eexists. }
  clear IH.
  assert (Hleaf : forall ts, derives lk LComparison ts (CheckExpression o args VNone) rest ->
    derives lk LOr ts (CheckExpression o args VNone) rest).
  { intros ts Hts. apply derive_up. left. split_and!; [done|by apply ends_accept|].
    apply derive_up. right. split_and!; [done|by apply ends_accept|done]. }
  assert (Hparen : forall x ts rest', stops rest' -> derives lk LOperand (in_parentheses ts ++ rest') x rest' ->
    derives lk LComparison (in_parentheses ts ++ rest') x rest').
  { intros x ts rest' Hs Hd. apply derive_comparison; [|done|done].
    unfold in_parentheses. cbn [app]. by accepts. }
  destruct (is_comparison o) eqn:Ho.
  { assert (Ha : match args with [x; y] => operand_ok x && operand_ok y | _ => false end = true)
      by (by destruct o). clear H.
    destruct args as [|x [|y [|]]]; try done. apply andb_true_iff in Ha as [Hx Hy].
    apply Hleaf. assert (Ht : expression_tokens b (CheckExpression o [x; y] VNone) =
      operand_tokens b x ++ sign_token o :: operand_tokens b y) by (by destruct o).
    rewrite Ht, <- app_assoc. by apply derive_sign. }
  destruct o; try done.
  - destruct args as [|x [|]]; try done. apply Hleaf. cbn [expression_tokens app]. apply derive_not.
    apply Hparen; [by apply ends_stops|]. apply Hsub; [left|done].
  - destruct args as [|x [|y [|]]]; try done. apply andb_true_iff in H as [Hx Hy].
    apply derive_up. left. split_and!; [done|by apply ends_accept|].
    cbn [expression_tokens]. rewrite <- app_assoc. cbn [app].
    eapply derive_and; [| |by apply ends_accept].
    + apply Hparen; [right; naive_solver|]. apply Hsub; [left|done].
    + apply Hparen; [by apply ends_stops|]. apply Hsub; [right; left|done].
  - destruct args as [|x [|y [|]]]; try done. apply andb_true_iff in H as [Hx Hy].
    cbn [expression_tokens]. rewrite <- app_assoc. cbn [app].
    eapply derive_or; [| |by apply ends_accept]; apply derive_up; right; (split; [done|]); split.
    + by accepts.
    + apply Hparen; [right; naive_solver|]. apply Hsub; [left|done].
    + by apply ends_accept.
    + apply Hparen; [by apply ends_stops|]. apply Hsub; [right; left|done].
  - destruct args as [|x [|]]; try done. apply Hleaf. cbn [expression_tokens]. rewrite <- app_assoc.
    by apply (derive_null lk b false).
  - destruct args as [|x [|]]; try done. apply Hleaf. cbn [expression_tokens]. rewrite <- app_assoc.
    by apply (derive_null lk b true).
  - destruct args as [|x [|y ys]]; try done. apply andb_true_iff in H as [Hx Hys]. apply Hleaf.
    cbn [expression_tokens]. rewrite <- app_assoc. by apply (derive_in lk b false).
  - destruct args as [|x [|y ys]]; try done. apply andb_true_iff in H as [Hx Hys]. apply Hleaf.
    cbn [expression_tokens]. rewrite <- app_assoc. by apply (derive_in lk b true).
  - destruct args as [|x [|low [|high [|]]]]; try done. rewrite !andb_true_iff in H. destruct H as [[Hx Hl] Hh].
    apply Hleaf. cbn [expression_tokens]. rewrite <- !app_assoc. cbn [app]. rewrite <- !app_assoc.
    by apply derive_between.
Qed.

(** ** Round trip *)

Lemma hex_no_backslash s h : text_ok s = true -> encoded_hex s = Ok h -> 92%Z ∉ h.
Proof using Type.
  intros Hs. unfold encoded_hex. destruct (utf8 s) as [bytes|] eqn:Hb; [|done]. intros [= <-].
  assert (Hf : Forall (fun b => 0 <= b < 256)%Z bytes).
  { apply (utf8_bytes s); [|done]. apply Forall_forall. intros c Hc. unfold text_ok in Hs.
    rewrite forallb_forall in Hs. specialize (Hs c (proj1 (list_elem_of_In _ _) Hc)).
    unfold in_range in Hs. rewrite !andb_true_iff, !Z.leb_le in Hs. lia. }
  assert (Hd : forall n, (0 <= n < 16)%Z -> hex_digit n <> 92%Z)
    by (intros n Hn; unfold hex_digit; destruct (Z.ltb_spec n 10); lia).
  clear Hb. induction Hf as [|b bytes Hbb _ IH]; [apply not_elem_of_nil|].
  cbn [hex flat_map app]. rewrite !not_elem_of_cons. split_and!.
  - apply not_eq_sym, Hd. split; [apply Z.div_pos; lia|apply Z.div_lt_upper_bound; lia].
  - apply not_eq_sym, Hd, Z.mod_pos_bound. lia.
  - exact IH.
Qed.

Lemma operand_plain b e : b = BMariadb -> operand_ok e = true -> has_backslash (operand_tokens b e) = false.
Proof using Type.
  intros -> He. destruct e as [o args v]. destruct o; try done; destruct args; try done; destruct v as [|n|s]; try done.
  - simpl operand_tokens. unfold int_tokens. by destruct (n <? 0)%Z.
  - destruct (utf8_ok s He) as (_ & h & Hh). simpl operand_tokens. rewrite Hh. unfold has_backslash, text_tokens.
    cbn [existsb tk_kind tk_text word]. rewrite (bool_decide_eq_false_2 (92%Z ∈ h)); [done|].
    by eapply hex_no_backslash.
Qed.

Lemma has_backslash_app ts ts' : has_backslash (ts ++ ts') = has_backslash ts || has_backslash ts'.
Proof using Type. apply existsb_app. Qed.
Lemma has_backslash_cons t ts : tk_kind t <> KLiteral -> has_backslash (t :: ts) = has_backslash ts.
Proof using Type. intros H. unfold has_backslash. cbn [existsb]. by rewrite bool_decide_eq_false_2. Qed.
Lemma operands_plain b es : b = BMariadb -> forallb operand_ok es = true ->
  has_backslash (comma_tokens (map (operand_tokens b) es)) = false.
Proof using Type.
  intros Hb. destruct es as [|e es]; [done|]. cbn [forallb map comma_tokens]. rewrite andb_true_iff, has_backslash_app.
  intros [He Hes]. rewrite operand_plain by done. simpl. induction es as [|e' es IH]; [done|].
  cbn [forallb map flat_map app] in *. apply andb_true_iff in Hes as [He' Hes].
  rewrite has_backslash_cons, has_backslash_app, operand_plain by done. simpl. by apply IH.
Qed.

Ltac plain := rewrite ?has_backslash_app; repeat first
  [ rewrite has_backslash_cons by done | rewrite operand_plain by done | rewrite operands_plain by done
  | progress rewrite ?has_backslash_app | progress cbn [orb app] ]; try done.

Lemma expression_plain b e : b = BMariadb -> declarable e = true ->
  has_backslash (expression_tokens b e) = false.
Proof using All.
  intros Hb. induction e as [o args v IH] using check_expression_induction. cbn [declarable].
  rewrite andb_true_iff, bool_decide_eq_true. intros [-> H]. rewrite Forall_forall in IH.
  destruct (is_comparison o) eqn:Ho.
  { assert (Ha : match args with [x; y] => operand_ok x && operand_ok y | _ => false end = true)
      by (by destruct o). clear H.
    destruct args as [|x [|y [|]]]; try done. apply andb_true_iff in Ha as [Hx Hy].
    assert (Ht : expression_tokens b (CheckExpression o [x; y] VNone) =
      operand_tokens b x ++ sign_token o :: operand_tokens b y) by (by destruct o).
    rewrite Ht. plain. }
  assert (Hin : forall x y ys, operand_ok x && forallb operand_ok (y :: ys) = true ->
    has_backslash (operand_tokens b x) || has_backslash (comma_tokens (map (operand_tokens b) (y :: ys))) = false).
  { intros x y ys [Hx Hys]%andb_true_iff. by rewrite operand_plain, operands_plain. }
  destruct o; try done; cbn [expression_tokens]; unfold in_parentheses.
  - destruct args as [|x [|]]; try done. plain. rewrite (IH x) by (set_solver || done). done.
  - destruct args as [|x [|y [|]]]; try done. apply andb_true_iff in H as [Hx Hy]. plain.
    by rewrite (IH x), (IH y) by (set_solver || done).
  - destruct args as [|x [|y [|]]]; try done. apply andb_true_iff in H as [Hx Hy]. plain.
    by rewrite (IH x), (IH y) by (set_solver || done).
  - destruct args as [|x [|]]; try done. plain.
  - destruct args as [|x [|]]; try done. plain.
  - destruct args as [|x [|y ys]]; try done. specialize (Hin x y ys H).
    rewrite !has_backslash_app. rewrite has_backslash_cons, has_backslash_cons, has_backslash_app by done.
    rewrite orb_assoc, Hin. done.
  - destruct args as [|x [|y ys]]; try done. specialize (Hin x y ys H).
    rewrite !has_backslash_app. rewrite !has_backslash_cons, has_backslash_app by done.
    rewrite orb_assoc, Hin. done.
  - destruct args as [|x [|low [|high [|]]]]; try done. rewrite !andb_true_iff in H. destruct H as [[Hx Hl] Hh]. plain.
Qed.

Lemma expression_reads b e sql : declarable e = true -> render_check (quote_identifier b) b e = Ok sql ->
  (forall m, check_tokens m sql = Ok (expression_tokens b e)) /\ (forall lk, parse lk (expression_tokens b e) = Ok e).
Proof using All.
  intros Hd Hr. destruct (spells_expression b e Hd) as (sql' & Hr' & Hs). assert (sql' = sql) as -> by congruence. split.
  - intros m. pose proof (Hs _ _ _ (check_tokens_laws m) [] eq_refl) as H.
    rewrite !app_nil_r in H. rewrite H. simpl. by rewrite app_nil_r.
  - intros lk. apply parse_derives. pose proof (derive_expression lk b e Hd [] (or_introl eq_refl)) as H.
    by rewrite app_nil_r in H.
Qed.
Lemma mariadb_clause_reads e sql : declarable e = true -> render_check (quote_identifier BMariadb) BMariadb e = Ok sql ->
  parse_check sql = Ok (Some e).
Proof using All.
  intros Hd Hr. destruct (expression_reads _ _ _ Hd Hr) as [Ht Hp]. unfold parse_check. rewrite Ht. simpl.
  rewrite expression_plain by done. by rewrite Hp.
Qed.

(** C15: a CHECK reads back as it was declared.  The text [render_check] writes
    into the DDL tokenizes, under either backend's comment rules, to the tokens
    of the expression, and the parser returns the expression itself; [parse_check]
    so answers for MariaDB's spelling, whose literals hide in hexadecimal. *)
Theorem render_check_round_trip b e (Hd : declarable e = true) :
  exists sql, render_check (quote_identifier b) b e = Ok sql /\
    (forall mariadb lk, (ts ← check_tokens mariadb sql; parse lk ts) = Ok e) /\
    (b = BMariadb -> parse_check sql = Ok (Some e)).
Proof using All.
  destruct (spells_expression b e Hd) as (sql & Hr & _). exists sql. split; [done|].
  destruct (expression_reads b e sql Hd Hr) as [Ht Hp]. split.
  - intros m lk. rewrite Ht. simpl. by rewrite Hp.
  - intros ->. by apply mariadb_clause_reads.
Qed.
End derivations.

(** ** A concrete declaration *)

Definition stored_check : check_expression :=
  node Or [node And [node Gte_ [column_ (u "a b"); literal (VInt (-12))];
                     node Not [node NotIn [column_ (u "c"); literal (VStr [233; 39; 92]%Z); literal (VInt 0)]]];
           node Between [column_ (u "c"); literal (VStr (u "it's")); literal (VStr [0; 8364]%Z)]].

Example stored_check_sql :
  render_check (quote_identifier BSqlite) BSqlite (node Lt_ [column_ (u "a"); literal (VStr (u "it's"))]) =
  Ok ([34; 97; 34; 32; 60; 32; 39; 105; 116; 39; 39; 115; 39]%Z).
Proof. vm_compute. reflexivity. Qed.

Lemma render_check_round_trip_witness :
  exists sql, render_check (quote_identifier BMariadb) BMariadb stored_check = Ok sql /\
    parse_check (U := ascii_unicode) sql = Ok (Some stored_check).
Proof.
  destruct (render_check_round_trip (U := ascii_unicode) BMariadb stored_check ltac:(vm_compute; reflexivity))
    as (sql & Hr & _ & Hp).
  exists sql. split; [exact Hr|exact (Hp eq_refl)].
Defined.
