(* ===== verification/SchemaShape.v ===== *)
(** * Table shapes and their comparison

    [_schema_shape.py], with [compare_literal_default] of [_server_defaults.py]
    and the outcome records of [_schema_verification.py].  Issues are data
    where the source writes a sentence, and the [detail] texts of facts are
    left out.  A dict keeps the order of its first insertions. *)

From S2P Require Export CheckParsing.

(** ** Shapes *)

(** [str | LiteralDefaultShape]; absent is [None]. *)
Inductive server_default := DefaultText (s : utext) | LiteralDefaultShape (b : backend) (v : check_value).
#[export] Instance server_default_eq_dec : EqDecision server_default.
Proof. solve_decision. Defined.

Record column_shape := ColumnShape {
  cl_name : utext; cl_storage_type : utext; cl_nullable : bool; cl_primary_key : bool;
  cl_auto_increment : bool; cl_server_default : option server_default; cl_collation : option utext;
  cl_datetime_precision : option Z; cl_unsigned : option bool }.
#[export] Instance column_shape_eq_dec : EqDecision column_shape.
Proof. solve_decision. Defined.

Record index_shape := IndexShape {
  ix_name : utext; ix_column_names : list utext; ix_unique : bool; ix_partial : option bool;
  ix_prefix_lengths : option (list (option Z)); ix_index_type : option utext;
  ix_where : option check_expression }.
#[export] Instance index_shape_eq_dec : EqDecision index_shape.
Proof. solve_decision. Defined.

Record foreign_key_shape := ForeignKeyShape {
  fk_column_name : utext; fk_target_table : utext; fk_target_column : utext;
  fk_on_delete : utext; fk_on_update : utext;
  fk_constraint_id : option utext; fk_position : Z }.

Record table_shape := TableShape {
  ts_table_name : utext; ts_columns : list column_shape; ts_indexes : list index_shape;
  ts_foreign_keys : list foreign_key_shape; ts_storage_options : list utext;
  ts_checks : option (list check_shape) }.

(** ** Outcomes *)

Inductive fact_status := Matched | Drift | Unchecked.
#[export] Instance fact_status_eq_dec : EqDecision fact_status.
Proof. solve_decision. Defined.

Record fact := Fact {
  fact_table : utext; fact_object : option utext; fact_kind : string; fact_status_of : fact_status }.
#[export] Instance fact_eq_dec : EqDecision fact.
Proof. solve_decision. Defined.

Inductive issue :=
  | StorageOptionsDiffer
  | ColumnMissing (name : utext) | ColumnExtra (name : utext)
  | ColumnDiffers (name : utext) (kinds : list string)
  | IndexMissing (name : utext) | IndexExtra (name : utext)
  | IndexDiffers (name : utext) (kinds : list string)
  | ForeignKeyDiffers (column : utext) (expected found : foreign_key_shape)
  | ForeignKeyMissing (column : utext) (expected : foreign_key_shape)
  | ForeignKeyExtra (column : utext) (found : foreign_key_shape)
  | ForeignKeyGroupsDiffer
  | CheckMissing (name : option utext) | CheckDiffers (name : option utext).

(** ** Dicts and sorting *)

Section dict.
Context {K V : Type} `{!EqDecision K}.
Fixpoint dict_set (k : K) (v : V) (d : list (K * V)) : list (K * V) :=
  match d with
  | [] => [(k, v)]
  | (k', v') :: d => if decide (k' = k) then (k', v) :: d else (k', v') :: dict_set k v d
  end.
Fixpoint dict_get (k : K) (d : list (K * V)) : option V :=
  match d with
  | [] => None
  | (k', v) :: d => if decide (k' = k) then Some v else dict_get k d
  end.
(** [{key(x): x for x in l}] *)
Definition dict_of (key : V -> K) (l : list V) : list (K * V) :=
  foldl (fun d x => dict_set (key x) x d) [] l.
End dict.

(** The order of [str]: by code points. *)
Fixpoint text_le (s t : utext) : bool :=
  match s, t with
  | [], _ => true
  | _ :: _, [] => false
  | c :: s, d :: t => (c <? d)%Z || (c =? d)%Z && text_le s t
  end.
Fixpoint tuple_le (s t : list utext) : bool :=
  match s, t with
  | [], _ => true
  | _ :: _, [] => false
  | x :: s, y :: t => if bool_decide (x = y) then tuple_le s t else text_le x y
  end.

(** [sorted(l, key)], which is stable. *)
Section sorting.
Context {A : Type} (le : A -> A -> bool).
Fixpoint insert_sorted (x : A) (l : list A) : list A :=
  match l with [] => [x] | y :: l' => if le x y then x :: l else y :: insert_sorted x l' end.
Definition sorted (l : list A) : list A := foldr insert_sorted [] l.
End sorting.

(** The keys of a dict or [Counter] filled in this order. *)
Definition unique_keys {K} `{EqDecision K} (keys : list K) : list K := map fst (dict_of (fun k => k) keys).
(** [sorted(keys | keys')] *)
Definition sorted_names (names : list utext) : list utext := sorted text_le (unique_keys names).

(** [Counter(l) == Counter(l')] *)
Definition occurrences {A} `{EqDecision A} (x : A) (l : list A) : nat := count_occ (fun y z => decide (y = z)) l x.
Definition counter_eq {A} `{EqDecision A} (l l' : list A) : bool :=
  forallb (fun x => occurrences x l =? occurrences x l') (l ++ l').

(** ** Comparison *)

Section compare.
Context `{U : unicode}.
Variable table : utext.   (* the table of the comparison *)

Definition check_fact (kind : string) (object : option utext) (matches : bool) : fact :=
  Fact table object kind (if matches then Matched else Drift).
Definition unchecked_fact (kind : string) (object : option utext) : fact :=
  Fact table object kind Unchecked.

(** What a step of the comparison adds to [issues] and to [facts]. *)
Definition findings : Type := list issue * list fact.
Definition both (f g : findings) : findings := (f.1 ++ g.1, f.2 ++ g.2).
Definition both_all (fs : list findings) : findings := (flat_map fst fs, flat_map snd fs).

Definition diff_storage_options (expected actual : table_shape) : findings :=
  let matches := bool_decide (ts_storage_options expected = ts_storage_options actual) in
  (if matches then [] else [StorageOptionsDiffer], [check_fact "table.storage_options" None matches]).

(** [parse_default_literal] never raises ([parse_default_total]). *)
Definition catalog_literal (mariadb : bool) (sql : utext) : option check_value :=
  match parse_default_literal mariadb sql with Ok v => v | Raise _ => None end.

Definition is_mariadb (b : backend) : bool := match b with BMariadb => true | BSqlite => false end.

Definition compare_literal_default (b : backend) (value : check_value) (actual : option server_default)
    (nullable : bool) : fact_status :=
  let status (matches : bool) := if matches then Matched else Drift in
  match actual with
  | None => status (is_mariadb b && bool_decide (value = VNone) && nullable)
  | Some (DefaultText s) =>
      if bool_decide (s = u "CurrentTimestamp") then Drift
      else match catalog_literal (is_mariadb b) s with
           | None => Unchecked
           | Some parsed => status (bool_decide (value = parsed))
           end
  | Some (LiteralDefaultShape _ _) => Unchecked
  end.

(** A property of a column or an index: its kind, whether the two agree, and
    whether both are absent. *)
Definition property : Type := string * bool * bool.
Definition compared {A} `{EqDecision A} (kind : string) (x y : A) : property :=
  (kind, bool_decide (x = y), false).
Definition compared_option {A} `{EqDecision A} (kind : string) (x y : option A) : property :=
  (kind, bool_decide (x = y), bool_decide (x = None) && bool_decide (y = None)).

(** The differences, named by their kinds, and the facts. *)
Definition differences : Type := list string * list fact.
Definition append (d d' : differences) : differences := (d.1 ++ d'.1, d.2 ++ d'.2).

Definition check_property (prefix : string) (name : utext) (p : property) : differences :=
  let '(kind, matches, absent) := p in
  if absent : bool then ([], [])
  else (if matches : bool then [] else [kind], [check_fact (prefix +:+ kind) (Some name) matches]).
Definition check_properties (prefix : string) (name : utext) (ps : list property) : differences :=
  foldr (fun p d => append (check_property prefix name p) d) ([], []) ps.

Definition diff_server_default (expected actual : column_shape) : differences :=
  match cl_server_default expected with
  | Some (LiteralDefaultShape b value) =>
      let status := compare_literal_default b value (cl_server_default actual) (cl_nullable actual) in
      (if bool_decide (status = Drift) then ["server_default"%string] else [],
       Fact table (Some (cl_name expected)) "column.server_default" status ::
       (if is_mariadb b && bool_decide (value = VNone)
           && bool_decide (cl_server_default actual = None) && cl_nullable actual
        then [unchecked_fact "column.server_default_explicitness" (Some (cl_name expected))] else []))
  | expected_default =>
      check_property "column." (cl_name expected)
        (compared "server_default" expected_default (cl_server_default actual))
  end.

Definition column_differences (expected actual : column_shape) : differences :=
  append
    (check_properties "column." (cl_name expected)
       [compared "type" (cl_storage_type expected) (cl_storage_type actual);
        compared "nullable" (cl_nullable expected) (cl_nullable actual);
        compared "primary_key" (cl_primary_key expected) (cl_primary_key actual);
        compared "auto_increment" (cl_auto_increment expected) (cl_auto_increment actual)])
    (append (diff_server_default expected actual)
       (check_properties "column." (cl_name expected)
          [compared_option "collation" (cl_collation expected) (cl_collation actual);
           compared_option "datetime_precision" (cl_datetime_precision expected) (cl_datetime_precision actual);
           compared_option "unsigned" (cl_unsigned expected) (cl_unsigned actual)])).

Definition index_predicate_differences (expected actual : index_shape) : differences :=
  match ix_where expected with
  | None => ([], [])
  | Some where_ =>
      if bool_decide (ix_partial actual = None)
         || bool_decide (ix_partial actual = Some true) && bool_decide (ix_where actual = None)
      then ([], [unchecked_fact "index.predicate" (Some (ix_name expected))])
      else
        let matches := match ix_where actual with
                       | Some found => bool_decide (normalize_check where_ = normalize_check found)
                       | None => false
                       end in
        (if matches then [] else ["predicate"%string],
         [check_fact "index.predicate" (Some (ix_name expected)) matches])
  end.

Definition index_differences (expected actual : index_shape) : differences :=
  append
    (check_properties "index." (ix_name expected)
       [compared "columns" (ix_column_names expected) (ix_column_names actual);
        compared "unique" (ix_unique expected) (ix_unique actual);
        compared_option "partial" (ix_partial expected) (ix_partial actual);
        compared_option "prefix_lengths" (ix_prefix_lengths expected) (ix_prefix_lengths actual);
        compared_option "type" (ix_index_type expected) (ix_index_type actual)])
    (index_predicate_differences expected actual).

(** The comparison of two collections of named objects, columns or indexes. *)
Section named.
Context {A : Type} (name : A -> utext) (differences_of : A -> A -> differences).
Context (presence : string) (missing extra : utext -> issue) (differs : utext -> list string -> issue).

Definition diff_pair (actual_by_name : list (utext * A)) (entry : utext * A) : findings :=
  match dict_get entry.1 actual_by_name with
  | None => ([], [])
  | Some actual =>
      let '(kinds, facts) := differences_of entry.2 actual in
      (if nonempty kinds then [differs entry.1 kinds] else [], facts)
  end.

Definition diff_named (expected actual : list A) : findings :=
  let expected_by_name := dict_of name expected in
  let actual_by_name := dict_of name actual in
  let without (d d' : list (utext * A)) :=
    filter (fun n => dict_get n d' = None) (map fst d) in
  both (map missing (without expected_by_name actual_by_name)
          ++ map extra (without actual_by_name expected_by_name),
        map (fun n => check_fact presence (Some n)
                        (bool_decide (is_Some (dict_get n expected_by_name))
                         && bool_decide (is_Some (dict_get n actual_by_name))))
          (sorted_names (map fst expected_by_name ++ map fst actual_by_name)))
       (both_all (map (diff_pair actual_by_name) expected_by_name)).
End named.

Definition diff_columns (expected actual : table_shape) : findings :=
  diff_named cl_name column_differences "column.presence" ColumnMissing ColumnExtra ColumnDiffers
    (ts_columns expected) (ts_columns actual).
Definition diff_indexes (expected actual : table_shape) : findings :=
  diff_named ix_name index_differences "index.presence" IndexMissing IndexExtra IndexDiffers
    (ts_indexes expected) (ts_indexes actual).

(** ** Foreign keys *)

Definition foreign_key_facts (f : foreign_key_shape) : list utext :=
  [fk_target_table f; fk_target_column f; fk_on_delete f; fk_on_update f].
(** The fields that [==] looks at. *)
Definition foreign_key_scalar (f : foreign_key_shape) : list utext :=
  fk_column_name f :: foreign_key_facts f.
Definition same_foreign_key (f g : foreign_key_shape) : bool :=
  bool_decide (foreign_key_scalar f = foreign_key_scalar g).

(** [dict.setdefault(key, []).append(f)] over the ordinals. *)
Definition group_key (ordinal : nat) (f : foreign_key_shape) : option utext * nat :=
  (fk_constraint_id f, match fk_constraint_id f with None => ordinal | Some _ => 0 end).
Definition group_foreign_keys (fs : list foreign_key_shape) : list (list foreign_key_shape) :=
  let groups := foldl (fun d x => let k := group_key x.1 x.2 in
                          dict_set k (default [] (dict_get k d) ++ [x.2]) d) [] (imap pair fs) in
  map (fun group => sorted (fun f g => (fk_position f <=? fk_position g)%Z) group.2) groups.

Definition foreign_key_groups (fs : list foreign_key_shape) : list (list (list utext)) :=
  map (map foreign_key_scalar) (group_foreign_keys fs).

(** [if fk in remaining: remaining.remove(fk)] *)
Fixpoint remove_foreign_key (f : foreign_key_shape) (l : list foreign_key_shape)
    : option (list foreign_key_shape) :=
  match l with
  | [] => None
  | g :: l => if same_foreign_key f g then Some l else cons g <$> remove_foreign_key f l
  end.
(** The expected and the actual keys that are not matched exactly. *)
Fixpoint match_foreign_keys (expected actual : list foreign_key_shape)
    : list foreign_key_shape * list foreign_key_shape :=
  match expected with
  | [] => ([], actual)
  | f :: expected =>
      match remove_foreign_key f actual with
      | Some actual => match_foreign_keys expected actual
      | None => let '(e, a) := match_foreign_keys expected actual in (f :: e, a)
      end
  end.

Definition on_column (column : utext) (fs : list foreign_key_shape) : list foreign_key_shape :=
  sorted (fun f g => tuple_le (foreign_key_facts f) (foreign_key_facts g))
    (filter (fun f => fk_column_name f = column) fs).

Definition diff_column_keys (expected actual : list foreign_key_shape) (column : utext) : list issue :=
  let '(e, a) := match_foreign_keys (on_column column expected) (on_column column actual) in
  let paired := Nat.min (length e) (length a) in
  zip_with (ForeignKeyDiffers column) (take paired e) (take paired a)
  ++ map (ForeignKeyMissing column) (drop paired e)
  ++ map (ForeignKeyExtra column) (drop paired a).

Definition diff_foreign_keys (expected actual : table_shape) : findings :=
  let e := ts_foreign_keys expected in
  let a := ts_foreign_keys actual in
  let columns := sorted_names (map fk_column_name e ++ map fk_column_name a) in
  let none := if nonempty e || nonempty a then []
              else [check_fact "foreign_key.relationships" None true] in
  let per_column := map (fun c => let issues := diff_column_keys e a c in
    (issues, [check_fact "foreign_key.relationships" (Some c) (negb (nonempty issues))])) columns in
  let scalar := both_all per_column in
  let group_match := counter_eq (foreign_key_groups e) (foreign_key_groups a) in
  both ([], none) (both scalar
    (if negb group_match && negb (nonempty scalar.1) then [ForeignKeyGroupsDiffer] else [],
     [check_fact "foreign_keys.grouping" None group_match])).

(** ** CHECKs *)

Definition diff_check (actual : option (list check_shape)) (expected : check_shape) : findings :=
  let name := cs_name expected in
  match actual with
  | None => ([], [unchecked_fact "check.presence" name])
  | Some checks =>
      let matches := filter (fun c => cs_name c = name) checks in
      both (if nonempty matches then [] else [CheckMissing name],
            [check_fact "check.presence" name (nonempty matches)])
        (match matches with
         | [] => ([], [])
         | [CheckShape _ (Some found)] =>
             let same := match cs_expression expected with
                         | Some e => bool_decide (normalize_check found = normalize_check e)
                         | None => false
                         end in
             (if same then [] else [CheckDiffers name], [check_fact "check.expression" name same])
         | _ => ([], [unchecked_fact "check.expression" name])
         end)
  end.

Definition diff_checks (expected actual : table_shape) : findings :=
  let declared := default [] (ts_checks expected) in
  let unmanaged := unique_keys (filter (fun n => n ∉ map cs_name declared)
                                  (map cs_name (default [] (ts_checks actual)))) in
  both (both_all (map (diff_check (ts_checks actual)) declared))
       ([], map (unchecked_fact "check.unmanaged") unmanaged).
End compare.

Definition COMMON_LIMITS : list string :=
  ["table.check_constraints"; "columns.generated_expressions"; "table.triggers"; "table.views";
   "table.data"; "table.other_options"; "primary_key.structure"; "foreign_keys.names";
   "foreign_keys.match"; "foreign_keys.deferral"; "indexes.expressions"; "indexes.predicates";
   "indexes.sort_direction"; "indexes.collations"]%string.

Definition compare_table_shapes `{unicode} (expected actual : table_shape) : findings :=
  let t := ts_table_name expected in
  both ([], [check_fact t "table.presence" None true])
  (both (diff_storage_options t expected actual)
  (both (diff_columns t expected actual)
  (both (diff_indexes t expected actual)
  (both (diff_foreign_keys t expected actual)
  (both (diff_checks t expected actual)
        ([], map (fun kind => unchecked_fact t kind None) COMMON_LIMITS)))))).

Definition diff_table_shapes `{unicode} (expected actual : table_shape) : list issue :=
  (compare_table_shapes expected actual).1.
