(* ===== verification/SchemaShapeFacts.v ===== *)
(** * What a comparison of table shapes finds

    No issue exactly when the shapes agree, and an issue exactly when some fact
    is a drift. *)

From S2P Require Export SchemaShape.

(** ** Dicts, sorting and counting *)

Section dict.
Context {K V : Type} `{!EqDecision K}.
Implicit Type (d : list (K * V)).

Lemma dict_get_set k k' v d : dict_get k' (dict_set k v d) = if decide (k = k') then Some v else dict_get k' d.
Proof using Type.
  induction d as [|[k0 v0] d IH]; cbn [dict_set dict_get].
  - done.
  - destruct (decide (k0 = k)) as [-> | Hk]; cbn [dict_get].
    + destruct (decide (k = k')); done.
    + rewrite IH. destruct (decide (k0 = k')) as [-> | ?]; [|done].
      destruct (decide (k = k')); [congruence|done].
Qed.

Lemma dict_set_keys k v d k' : k' ∈ map fst (dict_set k v d) <-> k' = k \/ k' ∈ map fst d.
Proof using Type.
  induction d as [|[k0 v0] d IH]; cbn [dict_set map fst]; [by rewrite list_elem_of_singleton, elem_of_nil; naive_solver|].
  destruct (decide (k0 = k)) as [-> | Hk]; cbn [map fst]; rewrite ?elem_of_cons; [|rewrite IH]; naive_solver.
Qed.

Lemma dict_get_None k d : dict_get k d = None <-> k ∉ map fst d.
Proof using Type.
  induction d as [|[k0 v0] d IH]; cbn [dict_get map fst]; [split; [intros _; apply not_elem_of_nil|done]|].
  rewrite not_elem_of_cons. destruct (decide (k0 = k)); naive_solver.
Qed.

Lemma dict_set_NoDup k v d : NoDup (map fst d) -> NoDup (map fst (dict_set k v d)).
Proof using Type.
  induction d as [|[k0 v0] d IH]; cbn [dict_set map fst]; intros Hd; [repeat constructor; apply not_elem_of_nil|].
  apply NoDup_cons in Hd as [Hn Hd]. destruct (decide (k0 = k)) as [-> | Hk]; cbn [map fst]; constructor; try done.
  - rewrite dict_set_keys. naive_solver.
  - by apply IH.
Qed.

Lemma dict_get_elem k v d : NoDup (map fst d) -> (k, v) ∈ d <-> dict_get k d = Some v.
Proof using Type.
  induction d as [|[k0 v0] d IH]; cbn [dict_get map fst]; intros Hd; [by rewrite elem_of_nil|].
  apply NoDup_cons in Hd as [Hn Hd]. rewrite elem_of_cons, IH by done.
  destruct (decide (k0 = k)) as [-> | Hk]; [|naive_solver].
  split; [|by intros [= ->]; left]. intros [[= ->] | H]; [done|]. exfalso.
  apply dict_get_None in Hn. congruence.
Qed.

Lemma dict_of_spec (key : V -> K) l : NoDup (map fst (dict_of key l)) /\
  forall k, dict_get k (dict_of key l) = last (filter (fun x => key x = k) l).
Proof using Type.
  unfold dict_of. induction l as [|x l IH] using rev_ind; [by split; [apply NoDup_nil_2|]|].
  destruct IH as [Hd Hg]. rewrite foldl_app. cbn [foldl]. split; [by apply dict_set_NoDup|].
  intros k. rewrite dict_get_set, Hg, filter_app, last_app. cbn [filter list_filter].
  by destruct (decide (key x = k)).
Qed.

Lemma dict_of_keys (key : V -> K) l k : k ∈ map fst (dict_of key l) <-> exists x, x ∈ l /\ key x = k.
Proof using Type.
  unfold dict_of. induction l as [|x l IH] using rev_ind.
  - simpl. rewrite elem_of_nil. split; [done|]. intros (x & Hx & _). by apply elem_of_nil in Hx.
  - rewrite foldl_app. cbn [foldl]. rewrite dict_set_keys, IH. setoid_rewrite elem_of_app.
    setoid_rewrite list_elem_of_singleton. naive_solver.
Qed.
End dict.

Lemma unique_keys_elem {K} `{EqDecision K} (keys : list K) k : k ∈ unique_keys keys <-> k ∈ keys.
Proof. unfold unique_keys. rewrite dict_of_keys. naive_solver. Qed.

Lemma insert_sorted_perm {A} (le : A -> A -> bool) x l : insert_sorted le x l ≡ₚ x :: l.
Proof.
  induction l as [|y l IH]; simpl; [done|]. destruct (le x y); [done|]. rewrite IH. apply Permutation_swap.
Qed.
Lemma sorted_perm {A} (le : A -> A -> bool) l : sorted le l ≡ₚ l.
Proof. induction l as [|x l IH]; simpl; [done|]. by rewrite insert_sorted_perm, IH. Qed.

Lemma sorted_names_elem names n : n ∈ sorted_names names <-> n ∈ names.
Proof. unfold sorted_names. rewrite (sorted_perm text_le (unique_keys names)). apply unique_keys_elem. Qed.

Lemma counter_eq_perm {A} `{EqDecision A} (l l' : list A) : counter_eq l l' = true <-> l ≡ₚ l'.
Proof.
  unfold counter_eq. rewrite forallb_forall, (Permutation_count_occ (fun y z => decide (y = z))). split.
  - intros H x. destruct (decide (x ∈ l ++ l')) as [Hx | Hx].
    + apply Nat.eqb_eq, H. by apply list_elem_of_In.
    + rewrite elem_of_app in Hx. rewrite !(proj1 (count_occ_not_In _ _ _)); [done|..];
        rewrite <- list_elem_of_In; naive_solver.
  - intros H x _. apply Nat.eqb_eq. apply H.
Qed.

(** ** Issues and drifts *)

Definition drifts (fs : list fact) : Prop := Exists (fun f => fact_status_of f = Drift) fs.

(** A step whose issues and drifts come together. *)
Definition coherent {A} (f : list A * list fact) : Prop := f.1 = [] <-> ~ drifts f.2.

Lemma drifts_app fs fs' : drifts (fs ++ fs') <-> drifts fs \/ drifts fs'.
Proof. apply Exists_app. Qed.

Lemma app_nil_iff {A} (l l' : list A) : l ++ l' = [] <-> l = [] /\ l' = [].
Proof. split; [apply app_nil|by intros [-> ->]]. Qed.

Lemma coherent_pair {A} (f g : list A * list fact) : coherent f -> coherent g ->
  coherent (f.1 ++ g.1, f.2 ++ g.2).
Proof. unfold coherent. cbn [fst snd]. rewrite drifts_app, app_nil_iff. tauto. Qed.
Lemma coherent_both f g : coherent f -> coherent g -> coherent (both f g).
Proof. apply coherent_pair. Qed.
Lemma coherent_append d d' : coherent d -> coherent d' -> coherent (append d d').
Proof. apply coherent_pair. Qed.

Lemma coherent_both_all fs : Forall coherent fs -> coherent (both_all fs).
Proof.
  induction 1 as [|f fs Hf _ IH]; [split; [intros _ H; by apply Exists_nil in H|done]|].
  exact (coherent_both f (both_all fs) Hf IH).
Qed.

Lemma both_nil f g : (both f g).1 = [] <-> f.1 = [] /\ g.1 = [].
Proof. apply app_nil_iff. Qed.
Lemma both_all_nil fs : (both_all fs).1 = [] <-> Forall (fun f => f.1 = []) fs.
Proof.
  induction fs as [|f fs IH]; [by split|]. rewrite Forall_cons, <- IH. exact (both_nil f (both_all fs)).
Qed.

Lemma drifts_nil : ~ drifts [].
Proof. intros H. by apply Exists_nil in H. Qed.
Lemma drifts_cons f fs : drifts (f :: fs) <-> fact_status_of f = Drift \/ drifts fs.
Proof. apply Exists_cons. Qed.

Lemma coherent_quiet {A} fs : ~ drifts fs -> coherent (A := A) ([], fs).
Proof. by split. Qed.
Lemma coherent_if {A} (b : bool) (i : A) t kind o : coherent (if b then [] else [i], [check_fact t kind o b]).
Proof.
  unfold coherent. cbn [fst snd]. rewrite drifts_cons. pose proof drifts_nil. destruct b; simpl; naive_solver.
Qed.

#[export] Hint Resolve coherent_both coherent_append coherent_if coherent_quiet drifts_nil : coherent.

(** ** Properties of columns and indexes *)

Section properties.
Context `{U : unicode} (t : utext).

Lemma append_nil d d' : (append d d').1 = [] <-> d.1 = [] /\ d'.1 = [].
Proof using Type. apply app_nil_iff. Qed.

Lemma check_compared {A} `{EqDecision A} prefix n kind (x y : A) :
  coherent (check_property t prefix n (compared kind x y)) /\
  ((check_property t prefix n (compared kind x y)).1 = [] <-> x = y).
Proof using Type.
  unfold compared, check_property. split; [apply coherent_if|]. cbn [fst]. by case_bool_decide.
Qed.

Lemma check_compared_option {A} `{EqDecision A} prefix n kind (x y : option A) :
  coherent (check_property t prefix n (compared_option kind x y)) /\
  ((check_property t prefix n (compared_option kind x y)).1 = [] <-> x = y).
Proof using Type.
  unfold compared_option, check_property. destruct (bool_decide (x = None) && bool_decide (y = None)) eqn:Hn.
  - rewrite andb_true_iff, !bool_decide_eq_true in Hn. destruct Hn as [-> ->].
    by split; [apply coherent_quiet, drifts_nil|].
  - split; [apply coherent_if|]. cbn [fst]. clear Hn. by case_bool_decide.
Qed.

Lemma check_properties_cons prefix n p ps :
  check_properties t prefix n (p :: ps) =
  append (check_property t prefix n p) (check_properties t prefix n ps).
Proof using Type. done. Qed.

(** A literal default agrees with what the catalog reports unless the
    comparison finds a drift. *)
Definition default_agrees (expected actual : column_shape) : Prop :=
  match cl_server_default expected with
  | Some (LiteralDefaultShape b value) =>
      compare_literal_default b value (cl_server_default actual) (cl_nullable actual) <> Drift
  | d => d = cl_server_default actual
  end.

Lemma diff_server_default_spec expected actual :
  coherent (diff_server_default t expected actual) /\
  ((diff_server_default t expected actual).1 = [] <-> default_agrees expected actual).
Proof using Type.
  unfold diff_server_default, default_agrees.
  destruct (cl_server_default expected) as [[s|b v]|]; try apply check_compared.
  destruct (compare_literal_default _ _ _ _) eqn:Hs; unfold coherent; cbn [fst snd];
    rewrite drifts_cons; cbn [fact_status_of]; (destruct (_ && cl_nullable actual); [rewrite drifts_cons|]);
    pose proof drifts_nil; simpl; naive_solver.
Qed.

Definition column_agrees (expected actual : column_shape) : Prop :=
  cl_storage_type expected = cl_storage_type actual /\
  cl_nullable expected = cl_nullable actual /\
  cl_primary_key expected = cl_primary_key actual /\
  cl_auto_increment expected = cl_auto_increment actual /\
  default_agrees expected actual /\
  cl_collation expected = cl_collation actual /\
  cl_datetime_precision expected = cl_datetime_precision actual /\
  cl_unsigned expected = cl_unsigned actual.

Ltac compared_properties := repeat match goal with
  | |- context [check_property t ?p ?n (compared ?k ?x ?y)] =>
      let H := fresh in let H' := fresh in
      destruct (check_compared p n k x y) as [H H']; revert H H';
      generalize (check_property t p n (compared k x y)); intros ? H H'
  | |- context [check_property t ?p ?n (compared_option ?k ?x ?y)] =>
      let H := fresh in let H' := fresh in
      destruct (check_compared_option p n k x y) as [H H']; revert H H';
      generalize (check_property t p n (compared_option k x y)); intros ? H H'
  end.

Lemma column_differences_spec expected actual :
  coherent (column_differences t expected actual) /\
  ((column_differences t expected actual).1 = [] <-> column_agrees expected actual).
Proof using Type.
  unfold column_differences, column_agrees. rewrite !check_properties_cons.
  destruct (diff_server_default_spec expected actual) as [Hc Hd]. compared_properties.
  assert (Hnil : forall p n, coherent (check_properties t p n [])) by (intros; by apply coherent_quiet, drifts_nil).
  split; [auto 12 with coherent|]. rewrite !append_nil. cbn [check_properties foldr fst]. tauto.
Qed.

Definition predicate_agrees (expected actual : index_shape) : Prop :=
  match ix_where expected with
  | None => True
  | Some where_ =>
      ix_partial actual = None \/ ix_partial actual = Some true /\ ix_where actual = None \/
      exists found, ix_where actual = Some found /\ normalize_check where_ = normalize_check found
  end.

Definition index_agrees (expected actual : index_shape) : Prop :=
  ix_column_names expected = ix_column_names actual /\
  ix_unique expected = ix_unique actual /\
  ix_partial expected = ix_partial actual /\
  ix_prefix_lengths expected = ix_prefix_lengths actual /\
  ix_index_type expected = ix_index_type actual /\
  predicate_agrees expected actual.

Lemma index_predicate_spec expected actual :
  coherent (index_predicate_differences t expected actual) /\
  ((index_predicate_differences t expected actual).1 = [] <-> predicate_agrees expected actual).
Proof using Type.
  unfold index_predicate_differences, predicate_agrees. destruct (ix_where expected) as [w|].
  2: { split; [by apply coherent_quiet, drifts_nil|done]. }
  destruct (_ || _) eqn:Hu.
  - rewrite orb_true_iff, andb_true_iff, !bool_decide_eq_true in Hu. split; [|naive_solver].
    apply coherent_quiet. rewrite drifts_cons. pose proof drifts_nil. simpl. naive_solver.
  - rewrite orb_false_iff, andb_false_iff, !bool_decide_eq_false in Hu. split; [apply coherent_if|].
    cbn [fst]. destruct (ix_where actual) as [found|]; [case_bool_decide|]; naive_solver.
Qed.

Lemma index_differences_spec expected actual :
  coherent (index_differences t expected actual) /\
  ((index_differences t expected actual).1 = [] <-> index_agrees expected actual).
Proof using Type.
  unfold index_differences, index_agrees. rewrite !check_properties_cons.
  destruct (index_predicate_spec expected actual) as [Hc Hd]. compared_properties.
  assert (Hnil : forall p n, coherent (check_properties t p n [])) by (intros; by apply coherent_quiet, drifts_nil).
  split; [auto 12 with coherent|]. rewrite !append_nil. cbn [check_properties foldr fst]. tauto.
Qed.

(** ** Named collections *)

Section keys.
Context {A : Type} (presence : string).

Definition keys_within (d d' : list (utext * A)) : Prop :=
  forall n, is_Some (dict_get n d) -> is_Some (dict_get n d').

Lemma present_key (d : list (utext * A)) n : n ∈ map fst d <-> is_Some (dict_get n d).
Proof using Type.
  rewrite <- not_eq_None_Some, dict_get_None. split; [naive_solver|]. intros H.
  destruct (decide (n ∈ map fst d)); [done|]. by destruct H.
Qed.

Lemma without_nil (d d' : list (utext * A)) :
  filter (fun n => dict_get n d' = None) (map fst d) = [] <-> keys_within d d'.
Proof using Type.
  unfold keys_within. split.
  - intros Hf n Hn. apply not_eq_None_Some. intros Hnone. apply (not_elem_of_nil n). rewrite <- Hf.
    apply list_elem_of_filter. by rewrite present_key.
  - intros H. destruct (filter _ _) as [|n l] eqn:Hf; [done|]. exfalso.
    assert (Hn : n ∈ n :: l) by left. rewrite <- Hf in Hn. apply list_elem_of_filter in Hn as [Hnone Hn].
    apply present_key, H in Hn. rewrite Hnone in Hn. by destruct Hn.
Qed.

Lemma presence_drifts (d d' : list (utext * A)) names :
  (forall n, n ∈ names <-> is_Some (dict_get n d) \/ is_Some (dict_get n d')) ->
  drifts (map (fun n => check_fact t presence (Some n)
    (bool_decide (is_Some (dict_get n d)) && bool_decide (is_Some (dict_get n d')))) names) <->
  ~ (keys_within d d' /\ keys_within d' d).
Proof using Type.
  intros Hnames. unfold drifts. rewrite Exists_map, Exists_exists. split.
  - intros (n & Hn & H) [H1 H2]. apply Hnames in Hn.
    rewrite !bool_decide_eq_true_2 in H by (unfold keys_within in *; naive_solver). done.
  - intros H. destruct (decide (Forall (fun n => is_Some (dict_get n d) /\ is_Some (dict_get n d')) names)) as [Hf | Hx].
    + destruct H. rewrite Forall_forall in Hf. split; intros n Hn; apply Hf, Hnames; auto.
    + apply not_Forall_Exists in Hx; [|intros n; apply _]. apply Exists_exists in Hx as (n & Hn & Hx). simpl in Hx.
      exists n. split; [done|]. cbn [fact_status_of check_fact].
      destruct (bool_decide (is_Some (dict_get n d))) eqn:H1; [|done].
      destruct (bool_decide (is_Some (dict_get n d'))) eqn:H2; [|done].
      apply bool_decide_eq_true in H1, H2. naive_solver.
Qed.
End keys.

Section named.
Context {A : Type} (name : A -> utext) (differences_of : A -> A -> differences) (agrees : A -> A -> Prop).
Context (presence : string) (missing extra : utext -> issue) (differs : utext -> list string -> issue).
Hypothesis differences_spec : forall e a, coherent (differences_of e a) /\
  ((differences_of e a).1 = [] <-> agrees e a).

(** The object a name stands for: the last one that has it. *)
Definition named (n : utext) (l : list A) : option A := last (filter (fun x => name x = n) l).

Definition named_agree (expected actual : list A) : Prop :=
  forall n, match named n expected, named n actual with
            | None, None => True
            | Some e, Some a => agrees e a
            | _, _ => False
            end.

Lemma diff_pair_spec d entry : coherent (diff_pair differences_of differs d entry) /\
  ((diff_pair differences_of differs d entry).1 = [] <->
   forall a, dict_get entry.1 d = Some a -> agrees entry.2 a).
Proof using All.
  unfold diff_pair. destruct (dict_get entry.1 d) as [a|]; [|split; [by apply coherent_quiet, drifts_nil|done]].
  destruct (differences_spec entry.2 a) as [Hc Ha]. destruct (differences_of entry.2 a) as [kinds facts].
  unfold coherent in *. cbn [fst snd] in *. destruct kinds; simpl; naive_solver.
Qed.

Lemma diff_named_spec expected actual :
  coherent (diff_named t name differences_of presence missing extra differs expected actual) /\
  ((diff_named t name differences_of presence missing extra differs expected actual).1 = [] <->
   named_agree expected actual).
Proof using All.
  unfold diff_named. destruct (dict_of_spec name expected) as [Hde Hge].
  destruct (dict_of_spec name actual) as [Hda Hga].
  set (E := dict_of name expected) in *. set (N := dict_of name actual) in *.
  assert (Hkeys : map missing (filter (fun n => dict_get n N = None) (map fst E)) ++
    map extra (filter (fun n => dict_get n E = None) (map fst N)) = [] <->
    keys_within E N /\ keys_within N E).
  { rewrite app_nil_iff. rewrite <- (without_nil E N), <- (without_nil N E).
    destruct (filter _ (map fst E)), (filter _ (map fst N)); simpl; naive_solver. }
  split.
  - apply coherent_both.
    + unfold coherent. cbn [fst snd]. rewrite Hkeys, presence_drifts.
      * destruct (decide (Forall (fun n => is_Some (dict_get n N)) (map fst E) /\
          Forall (fun n => is_Some (dict_get n E)) (map fst N))) as [[H1 H2]|H].
        -- rewrite Forall_forall in H1, H2. split; [naive_solver|]. intros _.
           split; intros n Hn%present_key; auto.
        -- split; [naive_solver|]. intros Hnn. destruct Hnn. intros [H1 H2]. apply H.
           split; apply Forall_forall; intros n Hn%present_key; [by apply H1|by apply H2].
      * intros n. rewrite sorted_names_elem, elem_of_app, !present_key. done.
    + apply coherent_both_all, Forall_map, Forall_forall. intros entry _. apply diff_pair_spec.
  - rewrite both_nil. cbn [fst]. rewrite Hkeys, both_all_nil, Forall_map, Forall_forall.
    assert (Hna : named_agree expected actual <-> forall n,
      match dict_get n E, dict_get n N with
      | None, None => True | Some e, Some a => agrees e a | _, _ => False end).
    { unfold named_agree, named.
      split; intros H n; specialize (H n); rewrite ?Hge, ?Hga in *; exact H. }
    rewrite Hna. clear Hna. split.
    + intros [[H1 H2] Hp] n. specialize (H1 n). specialize (H2 n).
      destruct (dict_get n E) as [e|] eqn:He.
      * destruct H1 as [a Ha]; [done|]. rewrite Ha. apply dict_get_elem in He; [|done].
        specialize (Hp _ He). exact (proj1 (proj2 (diff_pair_spec N (n, e))) Hp a Ha).
      * destruct (dict_get n N); [|done]. by destruct H2.
    + intros H. split_and!.
      * intros n [e He]. specialize (H n). rewrite He in H. by destruct (dict_get n N).
      * intros n [a Ha]. specialize (H n). rewrite Ha in H. by destruct (dict_get n E).
      * intros [n e] He. apply (proj2 (diff_pair_spec N (n, e))). intros a Ha. simpl in *. apply dict_get_elem in He; [|done].
        specialize (H n). by rewrite He, Ha in H.
Qed.
End named.

(** ** Foreign keys *)

Abbreviation scalars := (map foreign_key_scalar) (only parsing).

Lemma remove_foreign_key_spec f l : foreign_key_scalar f ∈ scalars l ->
  exists l', remove_foreign_key f l = Some l' /\ scalars l ≡ₚ foreign_key_scalar f :: scalars l'.
Proof using Type.
  induction l as [|g l IH]; simpl; [by intros H%elem_of_nil|]. rewrite elem_of_cons. unfold same_foreign_key.
  case_bool_decide as Hs; [by rewrite Hs; eauto|]. intros [|H]; [done|].
  destruct (IH H) as (l' & -> & Hp). exists (g :: l'). split; [done|]. simpl. rewrite Hp. apply Permutation_swap.
Qed.

(** Keys with the same scalar parts, counted, leave nothing unmatched. *)
Lemma match_foreign_keys_all expected : forall actual, scalars expected ≡ₚ scalars actual ->
  match_foreign_keys expected actual = ([], []).
Proof using Type.
  induction expected as [|f expected IH]; intros actual H; simpl in *.
  - destruct actual; [done|]. by apply Permutation_nil_cons in H.
  - destruct (remove_foreign_key_spec f actual) as (actual' & -> & Hp); [rewrite <- H; left|].
    apply IH. rewrite Hp in H. by apply Permutation_cons_inv in H.
Qed.

Lemma dict_set_grows {K V} `{EqDecision K} k (x : V) (d : list (K * list V)) :
  concat (map snd (dict_set k (default [] (dict_get k d) ++ [x]) d)) ≡ₚ concat (map snd d) ++ [x].
Proof using Type.
  induction d as [|[k' l] d IH]; cbn [dict_set dict_get map concat snd]; [done|].
  destruct (decide (k' = k)) as [-> | Hk]; cbn [map concat snd default].
  - by rewrite <- !app_assoc, (Permutation_app_comm [x]).
  - by rewrite IH, app_assoc.
Qed.

(** The groups are the keys, each once. *)
Lemma group_foreign_keys_perm fs : concat (group_foreign_keys fs) ≡ₚ fs.
Proof using Type.
  unfold group_foreign_keys.
  assert (Hg : forall l d, concat (map snd (foldl (fun d x => let k := group_key x.1 x.2 in
    dict_set k (default [] (dict_get k d) ++ [x.2]) d) d l)) ≡ₚ concat (map snd d) ++ map snd l).
  { induction l as [|x l IH]; intros d; cbn [foldl map]; [by rewrite app_nil_r|].
    rewrite IH. cbv zeta. rewrite dict_set_grows, <- app_assoc. done. }
  specialize (Hg (imap pair fs) []). simpl in Hg.
  assert (Hsnd : forall n, map snd (imap (fun i => pair (i + n)) fs) = fs).
  { clear. induction fs as [|f fs IH]; intros n; simpl; [done|]. f_equal. rewrite <- (IH (S n)) at 2. f_equal.
    apply imap_ext. intros i x _. simpl. f_equal. lia. }
  specialize (Hsnd 0). rewrite (imap_ext _ pair) in Hsnd by (intros; simpl; by rewrite Nat.add_0_r).
  rewrite Hsnd in Hg. rewrite <- Hg at 2. match goal with |- context [foldl ?f ?i ?l] => generalize (foldl f i l) end.
  clear. intros groups. induction groups as [|g groups IH]; simpl; [done|]. by rewrite IH, sorted_perm.
Qed.

Lemma groups_scalars fs : concat (foreign_key_groups fs) ≡ₚ scalars fs.
Proof using Type.
  unfold foreign_key_groups. rewrite <- concat_map. by rewrite group_foreign_keys_perm.
Qed.

Lemma diff_column_keys_none expected actual column : scalars expected ≡ₚ scalars actual ->
  diff_column_keys expected actual column = [].
Proof using Type.
  intros H. unfold diff_column_keys. rewrite match_foreign_keys_all; [done|].
  unfold on_column. rewrite !sorted_perm.
  assert (Hf : forall fs, scalars (filter (fun f => fk_column_name f = column) fs) =
    filter (fun s => head s = Some column) (scalars fs)).
  { induction fs as [|f fs IH]; [done|]. rewrite filter_cons. cbn [map]. rewrite filter_cons. simpl.
    destruct (decide (fk_column_name f = column)) as [He | Hne].
    - rewrite decide_True by congruence. cbn [map]. by rewrite IH.
    - rewrite decide_False by congruence. done. }
  by rewrite !Hf, H.
Qed.

Lemma diff_foreign_keys_spec expected actual :
  coherent (diff_foreign_keys t expected actual) /\
  ((diff_foreign_keys t expected actual).1 = [] <->
   foreign_key_groups (ts_foreign_keys expected) ≡ₚ foreign_key_groups (ts_foreign_keys actual)).
Proof using Type.
  unfold diff_foreign_keys. set (e := ts_foreign_keys expected). set (a := ts_foreign_keys actual).
  set (per := map _ (sorted_names _)).
  assert (Hper : coherent (both_all per)).
  { apply coherent_both_all, Forall_map, Forall_forall. intros c _. cbv zeta.
    destruct (diff_column_keys e a c); unfold coherent; cbn [fst snd]; rewrite drifts_cons;
      pose proof drifts_nil; simpl; naive_solver. }
  assert (Hnone : coherent (A := issue) ([], if nonempty e || nonempty a then []
    else [check_fact t "foreign_key.relationships" None true])).
  { apply coherent_quiet. destruct (_ || _); [apply drifts_nil|]. rewrite drifts_cons.
    pose proof drifts_nil. simpl. naive_solver. }
  assert (Hsame : foreign_key_groups e ≡ₚ foreign_key_groups a -> (both_all per).1 = []).
  { intros Hg. apply both_all_nil, Forall_map, Forall_forall. intros c _. cbn [fst].
    apply diff_column_keys_none. by rewrite <- !groups_scalars, Hg. }
  rewrite <- counter_eq_perm in *. revert Hper Hsame. generalize (both_all per). intros [issues facts] Hper Hsame.
  destruct (counter_eq _ _).
  - split.
    + apply coherent_both; [done|]. apply coherent_both; [done|]. apply coherent_quiet. rewrite drifts_cons.
      pose proof drifts_nil. simpl. naive_solver.
    + rewrite !both_nil. cbn [fst negb andb]. naive_solver.
  - split.
    + apply coherent_both; [done|]. unfold coherent, both in *. cbn [fst snd] in *.
      rewrite drifts_app, drifts_cons, app_nil_iff. pose proof drifts_nil. destruct issues; simpl; naive_solver.
    + rewrite !both_nil. cbn [fst negb andb]. destruct issues; simpl; naive_solver.
Qed.

(** ** CHECKs *)

Definition check_agrees (actual : option (list check_shape)) (expected : check_shape) : Prop :=
  match actual with
  | None => True
  | Some checks =>
      match filter (fun c => cs_name c = cs_name expected) checks with
      | [] => False
      | [CheckShape _ (Some found)] =>
          match cs_expression expected with
          | Some e => normalize_check found = normalize_check e
          | None => False
          end
      | _ => True
      end
  end.

Lemma diff_check_spec actual expected : coherent (diff_check t actual expected) /\
  ((diff_check t actual expected).1 = [] <-> check_agrees actual expected).
Proof using Type.
  unfold diff_check, check_agrees. destruct actual as [checks|].
  2: { split; [|done]. apply coherent_quiet. rewrite drifts_cons. pose proof drifts_nil. simpl. naive_solver. }
  destruct (filter _ checks) as [|[n [found|]] [|c cs]]; rewrite both_nil; cbn [nonempty];
    (split; [apply coherent_both; [|try (apply coherent_quiet; rewrite ?drifts_cons; pose proof drifts_nil; simpl; naive_solver)]|]);
    try (by unfold coherent; cbn [fst snd]; rewrite ?drifts_cons; pose proof drifts_nil; simpl; naive_solver).
  - apply coherent_if.
  - cbn [fst]. destruct (cs_expression expected); [case_bool_decide|]; naive_solver.
Qed.

Lemma diff_checks_spec expected actual : coherent (diff_checks t expected actual) /\
  ((diff_checks t expected actual).1 = [] <->
   Forall (check_agrees (ts_checks actual)) (default [] (ts_checks expected))).
Proof using Type.
  unfold diff_checks. cbv zeta. split.
  - apply coherent_both.
    + apply coherent_both_all, Forall_map, Forall_forall. intros c _. apply diff_check_spec.
    + apply coherent_quiet. unfold drifts. rewrite Exists_map, Exists_exists. intros (n & _ & H). done.
  - rewrite both_nil, both_all_nil, Forall_map. rewrite !Forall_forall. setoid_rewrite (fun c => proj2 (diff_check_spec (ts_checks actual) c)).
    naive_solver.
Qed.
End properties.

(** ** Agreement of tables *)

Record tables_agree `{unicode} (expected actual : table_shape) : Prop := TablesAgree {
  agree_options : ts_storage_options expected = ts_storage_options actual;
  agree_columns : named_agree cl_name column_agrees (ts_columns expected) (ts_columns actual);
  agree_indexes : named_agree ix_name index_agrees (ts_indexes expected) (ts_indexes actual);
  agree_foreign_keys :
    foreign_key_groups (ts_foreign_keys expected) ≡ₚ foreign_key_groups (ts_foreign_keys actual);
  agree_checks : Forall (check_agrees (ts_checks actual)) (default [] (ts_checks expected))
}.

Section tables.
Context `{unicode}.

Lemma diff_columns_spec t expected actual : coherent (diff_columns t expected actual) /\
  ((diff_columns t expected actual).1 = [] <->
   named_agree cl_name column_agrees (ts_columns expected) (ts_columns actual)).
Proof using All. apply diff_named_spec, column_differences_spec. Qed.
Lemma diff_indexes_spec t expected actual : coherent (diff_indexes t expected actual) /\
  ((diff_indexes t expected actual).1 = [] <->
   named_agree ix_name index_agrees (ts_indexes expected) (ts_indexes actual)).
Proof using All. apply diff_named_spec, index_differences_spec. Qed.
Lemma diff_storage_spec t expected actual : coherent (diff_storage_options t expected actual) /\
  ((diff_storage_options t expected actual).1 = [] <->
   ts_storage_options expected = ts_storage_options actual).
Proof using All. split; [apply coherent_if|]. cbn [fst diff_storage_options]. by case_bool_decide. Qed.

Lemma no_issue_agree expected actual : diff_table_shapes expected actual = [] <-> tables_agree expected actual.
Proof using All.
  unfold diff_table_shapes, compare_table_shapes.
  rewrite !both_nil, (proj2 (diff_storage_spec _ _ _)), (proj2 (diff_columns_spec _ _ _)),
    (proj2 (diff_indexes_spec _ _ _)), (proj2 (diff_foreign_keys_spec _ _ _)), (proj2 (diff_checks_spec _ _ _)).
  split; [intros H'; split; naive_solver|intros []; naive_solver].
Qed.

Lemma comparison_coherent expected actual : coherent (compare_table_shapes expected actual).
Proof using All.
  unfold compare_table_shapes. apply coherent_both.
  { apply coherent_quiet. rewrite drifts_cons. pose proof drifts_nil. simpl. naive_solver. }
  apply coherent_both; [apply diff_storage_spec|]. apply coherent_both; [apply diff_columns_spec|].
  apply coherent_both; [apply diff_indexes_spec|]. apply coherent_both; [apply diff_foreign_keys_spec|].
  apply coherent_both; [apply diff_checks_spec|]. apply coherent_quiet.
  unfold drifts. rewrite Exists_map, Exists_exists. intros (n & _ & H'). done.
Qed.

(** C14: the comparison of a declared table with the live one is exact.  It
    reports no issue iff the storage options are equal, the columns agree name by
    name, so do the indexes, the foreign-key constraints are the same up to their
    order and names but with their multiplicity and the order of their columns,
    and every declared CHECK that could be read is there with the same normal
    form; and it reports an issue iff one of its facts is a drift. *)
Theorem compare_table_shapes_exact expected actual :
  (diff_table_shapes expected actual = [] <-> tables_agree expected actual) /\
  (diff_table_shapes expected actual = [] <->
   forall f, f ∈ (compare_table_shapes expected actual).2 -> fact_status_of f <> Drift).
Proof using All.
  split; [apply no_issue_agree|]. unfold diff_table_shapes.
  pose proof (comparison_coherent expected actual) as Hc. unfold coherent in Hc.
  rewrite Hc. unfold drifts. rewrite Exists_exists. naive_solver.
Qed.

(** a verified CHECK accepts the rows it was declared for.  When the
    comparison reports no issue and the catalog's only CHECK of a declared name was
    read as an expression between columns and literals, the two hold of the same
    rows, under any ordering of the backend's values. *)
Theorem verified_check_same_rows compare_values text_truth expected actual name e found checks row
  (Hno : diff_table_shapes expected actual = [])
  (Hdeclared : CheckShape name (Some e) ∈ default [] (ts_checks expected))
  (Hchecks : ts_checks actual = Some checks)
  (Hfound : filter (fun c => cs_name c = name) checks = [CheckShape name (Some found)])
  (He : bounded e = true) (Hb : bounded found = true) :
  passes compare_values text_truth row found = passes compare_values text_truth row e.
Proof using All.
  apply no_issue_agree in Hno as [_ _ _ _ Hall]. rewrite Forall_forall in Hall.
  specialize (Hall _ Hdeclared). unfold check_agrees in Hall. rewrite Hchecks in Hall.
  cbn [cs_name cs_expression] in Hall. rewrite Hfound in Hall.
  unfold passes. do 2 f_equal. apply bool_decide_ext.
  pose proof (proj2 (normalize_holds compare_values text_truth (weight e) e (Nat.le_refl _) He) row) as H1.
  pose proof (proj2 (normalize_holds compare_values text_truth (weight found) found (Nat.le_refl _) Hb) row) as H2.
  unfold holds in H1, H2. by rewrite <- H1, <- H2, Hall.
Qed.
End tables.

(** ** Concrete tables *)

Definition plain_column (name : utext) : column_shape :=
  ColumnShape name (u "INTEGER") false false false None (Some (u "BINARY")) None None.
Definition checked_table (sql : utext) : res table_shape :=
  checks ← sqlite_checks (U := ascii_unicode) (Some sql);
  Ok (TableShape (u "t") [plain_column (u "a")] [] [] [u "STRICT"] checks).
Definition checked_sql (expression : string) : utext :=
  u "CREATE TABLE t (a INTEGER NOT NULL, CONSTRAINT ck CHECK (" ++ u expression ++ u ")) STRICT".

Definition expected_table : table_shape :=
  TableShape (u "t") [plain_column (u "a")] [] [] [u "STRICT"]
    (Some [CheckShape (Some (u "ck")) (Some (node And [plain_comparison; node IsNotNull [column_ (u "a")]]))]).
Definition live_table : table_shape :=
  match checked_table (checked_sql "NOT (a <> 5 OR a IS NULL)") with Ok t => t | Raise _ => expected_table end.

Lemma verified_check_same_rows_witness :
  passes integer_order (fun _ => false) five_row
    (node Not [node Or [node Ne_ [column_ (u "a"); literal (VInt 5)]; node IsNull [column_ (u "a")]]]) =
  passes integer_order (fun _ => false) five_row (node And [plain_comparison; node IsNotNull [column_ (u "a")]]).
Proof.
  eapply (verified_check_same_rows (H := ascii_unicode) integer_order (fun _ => false)
    expected_table live_table (Some (u "ck"))).
  - vm_compute. reflexivity.
  - left.
  - vm_compute. reflexivity.
  - vm_compute. reflexivity.
  - vm_compute. reflexivity.
  - vm_compute. reflexivity.
Defined.

(** verification misses a CHECK that was weakened by a double negation.
    The live table's CHECK is [(NOT (NOT a)) = 5], which no value satisfies; the
    declared one is [a = 5].  The comparison reports no issue and records the
    expression as matched, and the row [a = 5] passes the one and not the other. *)
Theorem double_negation_unreported : exists actual found,
  checked_table (checked_sql "(NOT (NOT a)) = 5") = Ok actual /\
  ts_checks actual = Some [CheckShape (Some (u "ck")) (Some found)] /\
  let expected := TableShape (u "t") [plain_column (u "a")] [] [] [u "STRICT"]
    (Some [CheckShape (Some (u "ck")) (Some plain_comparison)]) in
  diff_table_shapes (H := ascii_unicode) expected actual = [] /\
  check_fact (u "t") "check.expression" (Some (u "ck")) true
    ∈ (compare_table_shapes (H := ascii_unicode) expected actual).2 /\
  forall text_truth, passes integer_order text_truth five_row plain_comparison = true /\
    passes integer_order text_truth five_row found = false.
Proof.
  eexists _, double_negation. split; [vm_compute; reflexivity|]. split; [vm_compute; reflexivity|].
  cbv zeta. split; [vm_compute; reflexivity|]. split; [apply (bool_decide_unpack _); vm_compute; exact I|].
  intros text_truth. split; vm_compute; reflexivity.
Qed.

(** A clock in the place of a declared literal is a drift on SQLite and goes
    unchecked on MariaDB, whose clocks are spelled with their precision. *)
Example clock_for_literal :
  compare_literal_default (U := ascii_unicode) BSqlite (VStr (u "x")) (Some (DefaultText (u "CurrentTimestamp"))) true
    = Drift /\
  compare_literal_default (U := ascii_unicode) BMariadb (VStr (u "x"))
    (Some (DefaultText (u "CurrentTimestampText(6)"))) true = Unchecked.
Proof. split; vm_compute; reflexivity. Qed.
