(* ===== verification/TableModel.v ===== *)
(** * Table models as schema code reads them

    The attributes of a column descriptor ([storage.py]), the normalized index
    ([indexes.py]), the foreign-key constraint ([constraints.py]), the bound
    CHECK ([_checks.py]) and the class attributes of a table model
    ([model.py]).  A class and a descriptor have identity: they are positives. *)

From S2P Require Export QueryState SchemaShape.

(** [StorageClass] *)
Inductive storage_class := INTEGER | REAL | TEXT | BLOB.
#[export] Instance storage_class_eq_dec : EqDecision storage_class.
Proof. solve_decision. Defined.
Definition storage_class_text (c : storage_class) : utext :=
  u match c with INTEGER => "INTEGER" | REAL => "REAL" | TEXT => "TEXT" | BLOB => "BLOB" end.

(** [ReferentialAction] *)
Inductive referential_action := CASCADE | RESTRICT | SET_NULL | NO_ACTION.
#[export] Instance referential_action_eq_dec : EqDecision referential_action.
Proof. solve_decision. Defined.
Definition action_text (a : referential_action) : utext :=
  u match a with
    | CASCADE => "CASCADE" | RESTRICT => "RESTRICT" | SET_NULL => "SET NULL" | NO_ACTION => "NO ACTION"
    end.

(** [Attr.server_default], once [bind_literal_default] has encoded it. *)
Inductive default_clause := CurrentTimestamp | LiteralDefault (v : check_value).
#[export] Instance default_clause_eq_dec : EqDecision default_clause.
Proof. solve_decision. Defined.

(** A column a foreign key refers to: the descriptor and its [owner]. *)
Record column_reference := ColumnReference { cr_id : positive; cr_owner : option mid }.
#[export] Instance column_reference_eq_dec : EqDecision column_reference.
Proof. solve_decision. Defined.

(** [Attr].  [co_instant]: the logical type is [UtcDatetime]. *)
Record column := Column {
  co_id : positive; co_name : option utext; co_owner : option mid;
  co_storage_class : storage_class; co_storage_type_name : string;
  co_text_collation : option utext; co_text_length : option Z;
  co_decimal_precision : option Z; co_decimal_scale : option Z; co_datetime_precision : option Z;
  co_nullable : bool; co_primary_key : bool; co_unique : bool; co_index : bool;
  co_auto_increment : bool; co_keyable : bool; co_instant : bool;
  co_server_default : option default_clause;
  co_foreign_key_target : option column_reference;
  co_on_delete : option referential_action; co_on_update : option referential_action }.
#[export] Instance column_eq_dec : EqDecision column.
Proof. solve_decision. Defined.

(** [cast("str", column.name)] *)
Definition bound_name (c : column) : utext := default [] (co_name c).

Record normalized_index := NormalizedIndex {
  ni_column_names : list utext; ni_name : utext; ni_unique : bool;
  ni_prefix_lengths : option (list (option Z)); ni_where : option check_expression }.
#[export] Instance normalized_index_eq_dec : EqDecision normalized_index.
Proof. solve_decision. Defined.

Record foreign_key_constraint := ForeignKeyConstraint {
  fc_columns : list column; fc_references : list column;
  fc_on_delete : option referential_action; fc_on_update : option referential_action }.

Record bound_check := BoundCheck { bc_name : utext; bc_expression : check_expression }.
#[export] Instance bound_check_eq_dec : EqDecision bound_check.
Proof. solve_decision. Defined.

(** A table model: [__snekql_backend__], [__tablename__], [__snekql_columns__]
    and the bound [__snekql_indexes__], [__snekql_foreign_keys__] and
    [__snekql_checks__]. *)
Record table_model := TableModel {
  tm_id : mid; tm_backend : backend; tm_table_name : utext;
  tm_columns : list (utext * column);
  tm_indexes : list normalized_index;
  tm_foreign_keys : list foreign_key_constraint;
  tm_checks : list bound_check }.

(** [any(values or ())] of optional integers. *)
Definition any_length (lengths : option (list (option Z))) : bool :=
  existsb (fun l => match l with Some n => negb (n =? 0)%Z | None => false end) (default [] lengths).

(** An index that makes a tuple of columns a key by itself: unique, on whole
    columns and on every row. *)
Definition key_index (names : list utext) (i : normalized_index) : bool :=
  ni_unique i && bool_decide (ni_column_names i = names)
  && negb (any_length (ni_prefix_lengths i)) && bool_decide (ni_where i = None).
