(* ===== verification/SchemaPlan.v ===== *)
(** * Planning the schema of table models

    [_schema_plan.py]: what verification and the scaffold need of the models,
    resolved and validated once. *)

From S2P Require Export TableModel.

(** ** Plans *)

Record planned_column := PlannedColumn {
  pc_column : column; pc_name : utext; pc_composite_pk : bool }.

Record planned_foreign_key := PlannedForeignKey {
  pf_column_names : list utext; pf_target_table : utext; pf_target_columns : list utext;
  pf_on_delete : option referential_action; pf_on_update : option referential_action }.
#[export] Instance planned_foreign_key_eq_dec : EqDecision planned_foreign_key.
Proof. solve_decision. Defined.

Record planned_model := PlannedModel {
  pm_columns : list planned_column; pm_foreign_keys : list planned_foreign_key;
  pm_indexes : list normalized_index; pm_model : table_model;
  pm_table_name : utext; pm_checks : list bound_check }.

(** What the annotation of a foreign-key column resolves to: an error, another
    annotation, or [FKCol[Target, T]] with a target that may not be a model. *)
Inductive annotation := Unresolved | OtherAnnotation | FKCol (target : option mid).

(** [f"{prefix}_{table}_{column}"] *)
Definition index_name (prefix : string) (table name : utext) : utext :=
  u prefix ++ [95%Z] ++ table ++ [95%Z] ++ name.

Definition column_indexes (table_name : utext) (columns : list planned_column) : list normalized_index :=
  flat_map (fun p =>
    if co_unique (pc_column p) then
      [NormalizedIndex [pc_name p] (index_name "ux" table_name (pc_name p)) true None None]
    else if co_index (pc_column p) then
      [NormalizedIndex [pc_name p] (index_name "ix" table_name (pc_name p)) false None None]
    else []) columns.

Definition model_indexes (model : table_model) (table_name : utext) (columns : list planned_column)
    : list normalized_index :=
  column_indexes table_name columns ++ tm_indexes model.

(** [sum(column.primary_key for column in columns.values())] *)
Definition primary_key_count (columns : list (utext * column)) : nat :=
  length (filter (fun e => co_primary_key e.2 = true) columns).

(** The entry whose column [is] the descriptor. *)
Definition entry_of (id : positive) (columns : list (utext * column)) : option (utext * column) :=
  head (filter (fun e => co_id e.2 = id) columns).

Definition resolve_target_column (target_model : table_model) (target_column : positive) : res utext :=
  match entry_of target_column (tm_columns target_model) with
  | None => raise SchemaError "foreign-key column references a column that is not on target table"
  | Some (name, column) =>
      let singleton_primary_key :=
        co_primary_key column && (primary_key_count (tm_columns target_model) =? 1) in
      let singleton_unique_index := existsb (key_index [name]) (tm_indexes target_model) in
      if singleton_primary_key || co_unique column || singleton_unique_index then Ok name
      else raise SchemaError "target must be a single-column primary key or independently unique"
  end.

Definition validate_referential_actions (p : planned_column) : res unit :=
  let c := pc_column p in
  if negb (co_primary_key c || negb (co_nullable c)) then Ok tt
  else if bool_decide (co_on_delete c = Some SET_NULL) then
    raise ModelDeclarationError "cannot use on_delete='SET NULL'"
  else if bool_decide (co_on_update c = Some SET_NULL) then
    raise ModelDeclarationError "cannot use on_update='SET NULL'"
  else Ok tt.

(** A column that identifies the rows of its table by itself. *)
Definition candidate_key (t : table_model) (name : utext) (c : column) : Prop :=
  co_primary_key c = true /\ primary_key_count (tm_columns t) = 1 \/ co_unique c = true \/
  exists i, i ∈ tm_indexes t /\ ni_unique i = true /\ ni_column_names i = [name] /\
    any_length (ni_prefix_lengths i) = false /\ ni_where i = None.

Lemma key_index_spec names i : key_index names i = true <->
  ni_unique i = true /\ ni_column_names i = names /\ any_length (ni_prefix_lengths i) = false /\ ni_where i = None.
Proof.
  unfold key_index. rewrite !andb_true_iff, negb_true_iff, !bool_decide_eq_true. tauto.
Qed.

Lemma resolve_target_column_ok t id n : resolve_target_column t id = Ok n <->
  exists c, entry_of id (tm_columns t) = Some (n, c) /\ candidate_key t n c.
Proof.
  unfold resolve_target_column. destruct (entry_of id (tm_columns t)) as [[name c]|]; [|naive_solver].
  assert (H : candidate_key t name c <->
    co_primary_key c && (primary_key_count (tm_columns t) =? 1) || co_unique c
      || existsb (key_index [name]) (tm_indexes t) = true).
  { unfold candidate_key. rewrite !orb_true_iff, andb_true_iff, Nat.eqb_eq, existsb_exists.
    setoid_rewrite key_index_spec. setoid_rewrite list_elem_of_In. tauto. }
  destruct (_ || _); split; try naive_solver.
Qed.

Lemma referential_actions_ok p : is_ok (validate_referential_actions p) = true <->
  (co_primary_key (pc_column p) = true \/ co_nullable (pc_column p) = false ->
   co_on_delete (pc_column p) <> Some SET_NULL /\ co_on_update (pc_column p) <> Some SET_NULL).
Proof.
  unfold validate_referential_actions.
  destruct (co_primary_key _), (co_nullable _); simpl; repeat case_bool_decide; naive_solver.
Qed.

Section plan.
(** The table models that exist, and the annotation of a column. *)
Context (models : gmap positive table_model) (column_hint : mid -> utext -> annotation).

(** [require_model_table_name], [require_model_columns] *)
Definition require_table_model (m : mid) : res table_model :=
  match models !! m with
  | Some t => Ok t
  | None => raise ModelDeclarationError "schema setup requires snekql table models"
  end.

Definition resolve_target_model (model : mid) (name : utext) : res mid :=
  match column_hint model name with
  | Unresolved => raise SchemaError "cannot resolve foreign-key annotation for column"
  | OtherAnnotation => raise SchemaError "foreign_key column must be annotated as FKCol[Target, T]"
  | FKCol None => raise SchemaError "foreign-key target for column is not a table model"
  | FKCol (Some target) => Ok target
  end.

(** The foreign key of a column that declares one. *)
Definition plan_column_foreign_key (model : mid) (p : planned_column) : res (list planned_foreign_key) :=
  match co_foreign_key_target (pc_column p) with
  | None => Ok []
  | Some target_column =>
      _ ← validate_referential_actions p;
      target ← resolve_target_model model (pc_name p);
      target_model ← require_table_model target;
      name ← resolve_target_column target_model (cr_id target_column);
      Ok [PlannedForeignKey [pc_name p] (tm_table_name target_model) [name]
            (co_on_delete (pc_column p)) (co_on_update (pc_column p))]
  end.

Definition plan_constraint (c : foreign_key_constraint) : res planned_foreign_key :=
  match fc_references c with
  | [] => raise IndexError "tuple index out of range"
  | reference :: _ =>
      match co_owner reference with
      | None => raise ModelDeclarationError "schema setup requires snekql table models"
      | Some target =>
          target_model ← require_table_model target;
          Ok (PlannedForeignKey (map bound_name (fc_columns c)) (tm_table_name target_model)
                (map bound_name (fc_references c)) (fc_on_delete c) (fc_on_update c))
      end
  end.

Definition plan_foreign_keys (m : mid) (model : table_model) (columns : list planned_column)
    : res (list planned_foreign_key) :=
  scalar ← mapR (plan_column_foreign_key m) columns;
  composite ← mapR plan_constraint (tm_foreign_keys model);
  Ok (concat scalar ++ composite).

Definition check_composite_member (c : column) : res unit :=
  if negb (co_primary_key c) then Ok tt
  else if co_auto_increment c then
    raise ModelDeclarationError "column cannot use auto_increment as part of a composite primary key"
  else if co_nullable c then
    raise ModelDeclarationError "column cannot be nullable as part of a composite primary key"
  else Ok tt.

Definition plan_columns (model : table_model) : res (list planned_column) :=
  let composite := 1 <? primary_key_count (tm_columns model) in
  _ ← (if composite then mapR (fun e => check_composite_member e.2) (tm_columns model) else Ok []);
  Ok (map (fun e => PlannedColumn e.2 e.1 (composite && co_primary_key e.2)) (tm_columns model)).

Definition plan_model (m : mid) : res planned_model :=
  model ← require_table_model m;
  columns ← plan_columns model;
  foreign_keys ← plan_foreign_keys m model columns;
  Ok (PlannedModel columns foreign_keys (model_indexes model (tm_table_name model) columns)
        model (tm_table_name model) (tm_checks model)).

(** The second loop of [build_schema_plan]: the names seen so far. *)
Fixpoint check_index_names (index_names : list utext) (indexes : list normalized_index)
    : res (list utext) :=
  match indexes with
  | [] => Ok index_names
  | i :: indexes =>
      if bool_decide (ni_name i ∈ index_names) then raise SchemaError "duplicate index name"
      else check_index_names (ni_name i :: index_names) indexes
  end.

Fixpoint check_names (table_names index_names : list utext) (planned : list planned_model) : res unit :=
  match planned with
  | [] => Ok tt
  | p :: planned =>
      if bool_decide (pm_table_name p ∈ table_names) then raise SchemaError "duplicate table name"
      else index_names ← check_index_names index_names (pm_indexes p);
           check_names (pm_table_name p :: table_names) index_names planned
  end.

Definition build_schema_plan (ms : list mid) : res (list planned_model) :=
  planned ← mapR plan_model ms;
  _ ← check_names [] [] planned;
  Ok planned.

(** ** What planning accepts *)

(** A scalar foreign key refers to such a column of the annotated model, and
    its SET NULL can fire. *)
Definition scalar_fits (m : mid) (e : utext * column) : Prop :=
  forall r, co_foreign_key_target e.2 = Some r ->
  (co_primary_key e.2 = true \/ co_nullable e.2 = false ->
     co_on_delete e.2 <> Some SET_NULL /\ co_on_update e.2 <> Some SET_NULL) /\
  exists target t name c, column_hint m e.1 = FKCol (Some target) /\ models !! target = Some t /\
    entry_of (cr_id r) (tm_columns t) = Some (name, c) /\ candidate_key t name c.

Definition constraint_fits (c : foreign_key_constraint) : Prop :=
  exists r rs target t, fc_references c = r :: rs /\ co_owner r = Some target /\ models !! target = Some t.

Record plannable (m : mid) (t : table_model) : Prop := Plannable {
  plannable_key : 1 < primary_key_count (tm_columns t) -> forall e, e ∈ tm_columns t ->
    co_primary_key e.2 = true -> co_auto_increment e.2 = false /\ co_nullable e.2 = false;
  plannable_scalar : Forall (scalar_fits m) (tm_columns t);
  plannable_constraints : Forall constraint_fits (tm_foreign_keys t) }.

(** The names of the indexes a table gets. *)
Definition table_index_names (t : table_model) : list utext :=
  flat_map (fun e => if co_unique e.2 then [index_name "ux" (tm_table_name t) e.1]
                     else if co_index e.2 then [index_name "ix" (tm_table_name t) e.1] else [])
    (tm_columns t) ++ map ni_name (tm_indexes t).

Definition planned_columns (t : table_model) : list planned_column :=
  map (fun e => PlannedColumn e.2 e.1 ((1 <? primary_key_count (tm_columns t)) && co_primary_key e.2))
    (tm_columns t).

Lemma require_table_model_ok m t : require_table_model m = Ok t <-> models !! m = Some t.
Proof using All. unfold require_table_model. destruct (models !! m); naive_solver. Qed.

Lemma resolve_target_model_ok m n t : resolve_target_model m n = Ok t <-> column_hint m n = FKCol (Some t).
Proof using All. unfold resolve_target_model. destruct (column_hint m n) as [| |[]]; naive_solver. Qed.

Lemma plan_column_foreign_key_ok m e b :
  is_ok (plan_column_foreign_key m (PlannedColumn e.2 e.1 b)) = true <-> scalar_fits m e.
Proof using All.
  unfold plan_column_foreign_key, scalar_fits. cbn [pc_column pc_name].
  destruct (co_foreign_key_target e.2) as [r|]; [|naive_solver].
  repeat setoid_rewrite is_ok_bind. setoid_rewrite resolve_target_column_ok.
  setoid_rewrite resolve_target_model_ok. setoid_rewrite require_table_model_ok.
  pose proof (referential_actions_ok (PlannedColumn e.2 e.1 b)) as Ha.
  rewrite is_ok_Ok in Ha. cbn [pc_column] in Ha. split.
  - intros ([] & Hv & target & Ht & t & Hm & n & (c & He & Hk) & _) r' [= <-].
    split; [by apply Ha; exists tt|]. by exists target, t, n, c.
  - intros H. destruct (H r eq_refl) as (Hv & target & t & n & c & Ht & Hm & He & Hk).
    destruct (proj2 Ha Hv) as [u Hu]. exists u. split; [done|]. exists target. split; [done|].
    exists t. split; [done|]. exists n. split; [by exists c|done].
Qed.

Lemma plan_constraint_ok c : is_ok (plan_constraint c) = true <-> constraint_fits c.
Proof using All.
  unfold plan_constraint, constraint_fits. destruct (fc_references c) as [|r rs]; [naive_solver|].
  destruct (co_owner r) as [target|] eqn:Ho; [|naive_solver].
  rewrite is_ok_bind. setoid_rewrite require_table_model_ok. naive_solver.
Qed.

Lemma composite_member_ok c : is_ok (check_composite_member c) = true <->
  (co_primary_key c = true -> co_auto_increment c = false /\ co_nullable c = false).
Proof using All.
  unfold check_composite_member. destruct (co_primary_key c), (co_auto_increment c), (co_nullable c); naive_solver.
Qed.

Lemma plan_columns_ok t : is_ok (plan_columns t) = true <->
  (1 < primary_key_count (tm_columns t) -> forall e, e ∈ tm_columns t ->
     co_primary_key e.2 = true -> co_auto_increment e.2 = false /\ co_nullable e.2 = false).
Proof using All.
  unfold plan_columns. rewrite is_ok_bind.
  assert (Hm : is_ok (mapR (fun e => check_composite_member e.2) (tm_columns t)) = true <->
    forall e, e ∈ tm_columns t -> co_primary_key e.2 = true ->
      co_auto_increment e.2 = false /\ co_nullable e.2 = false).
  { rewrite is_ok_mapR, Forall_forall. by setoid_rewrite composite_member_ok. }
  rewrite is_ok_Ok in Hm. destruct (Nat.ltb_spec 1 (primary_key_count (tm_columns t))) as [H|H].
  - split; [intros (l & Hl & _) _; apply Hm; by exists l|].
    intros Hall. destruct (proj2 Hm (Hall H)) as [l Hl]. by exists l.
  - split; [lia|]. intros _. by exists [].
Qed.

Lemma plan_columns_value t cs : plan_columns t = Ok cs -> cs = planned_columns t.
Proof using All. intros H. unfold plan_columns in H. bind_inv H as l Hl. by injection H as <-. Qed.

Lemma plan_model_ok m : is_ok (plan_model m) = true <-> exists t, models !! m = Some t /\ plannable m t.
Proof using All.
  unfold plan_model. rewrite is_ok_bind. setoid_rewrite require_table_model_ok.
  match goal with |- (exists t, _ /\ is_ok (@?f t) = true) <-> _ =>
    enough (Hin : forall t, is_ok (f t) = true <-> plannable m t)
      by (split; intros (t & Ht & H); exists t; split; [done|by apply Hin|done|by apply Hin]) end.
  intros t. cbv beta. rewrite is_ok_bind.
  assert (Hfk : is_ok (plan_foreign_keys m t (planned_columns t)) = true <->
    Forall (scalar_fits m) (tm_columns t) /\ Forall constraint_fits (tm_foreign_keys t)).
  { assert (Hs : is_ok (mapR (plan_column_foreign_key m) (planned_columns t)) = true <->
      Forall (scalar_fits m) (tm_columns t)).
    { rewrite is_ok_mapR. unfold planned_columns. rewrite Forall_map. apply Forall_iff.
      intros e. apply plan_column_foreign_key_ok. }
    assert (Hc : is_ok (mapR plan_constraint (tm_foreign_keys t)) = true <->
      Forall constraint_fits (tm_foreign_keys t)).
    { rewrite is_ok_mapR. apply Forall_iff, plan_constraint_ok. }
    unfold plan_foreign_keys. rewrite <- Hs, <- Hc.
    destruct (mapR (plan_column_foreign_key m) _); [|simpl; naive_solver].
    destruct (mapR plan_constraint _); simpl; naive_solver. }
  split.
  - intros (cs & Hcs & Hf). rewrite (plan_columns_value _ _ Hcs) in *. rewrite is_ok_bind in Hf.
    destruct Hf as (fks & Hf & _). destruct Hfk as [[Hs Hc] _]; [by rewrite Hf|].
    split; [|done|done]. apply plan_columns_ok. by rewrite Hcs.
  - intros [Hk Hs Hc]. apply plan_columns_ok, is_ok_Ok in Hk as [cs Hcs].
    exists cs. split; [done|]. rewrite (plan_columns_value _ _ Hcs). rewrite is_ok_bind.
    apply proj2 in Hfk. specialize (Hfk (conj Hs Hc)). apply is_ok_Ok in Hfk as [fks ->]. by exists fks.
Qed.

(** The planned model is about the table model it was made from. *)
Lemma plan_model_value m p : plan_model m = Ok p -> exists t, models !! m = Some t /\
  pm_model p = t /\ pm_table_name p = tm_table_name t /\ pm_columns p = planned_columns t /\
  pm_checks p = tm_checks t /\ plan_foreign_keys m t (planned_columns t) = Ok (pm_foreign_keys p) /\
  pm_indexes p = model_indexes t (tm_table_name t) (planned_columns t).
Proof using All.
  unfold plan_model. intros H. bind_inv H as t Ht. bind_inv H as cs Hcs. bind_inv H as fks Hf.
  injection H as <-. apply plan_columns_value in Hcs as ->. apply require_table_model_ok in Ht. by exists t.
Qed.

Lemma planned_index_names t :
  map ni_name (model_indexes t (tm_table_name t) (planned_columns t)) = table_index_names t.
Proof using Type.
  unfold model_indexes, table_index_names. rewrite map_app. f_equal. unfold column_indexes, planned_columns.
  generalize (1 <? primary_key_count (tm_columns t)) as b. intros b.
  induction (tm_columns t) as [|e es IH]; [done|]. simpl. rewrite map_app, IH. f_equal.
  by destruct (co_unique e.2), (co_index e.2).
Qed.

Lemma check_index_names_ok seen l : is_ok (check_index_names seen l) = true <->
  NoDup (map ni_name l) /\ (forall n, n ∈ map ni_name l -> n ∉ seen).
Proof using Type.
  revert seen. induction l as [|i l IH]; intros seen; simpl.
  { split; [|done]. intros _. split; [constructor|]. intros n Hn. by apply elem_of_nil in Hn. }
  rewrite NoDup_cons. case_bool_decide as Hi.
  - split; [done|]. intros [_ H]. by destruct (H (ni_name i) (list_elem_of_here _ _)).
  - rewrite IH. setoid_rewrite elem_of_cons. naive_solver.
Qed.

Lemma check_index_names_value seen l seen' : check_index_names seen l = Ok seen' ->
  forall n, n ∈ seen' <-> n ∈ map ni_name l \/ n ∈ seen.
Proof using Type.
  revert seen. induction l as [|i l IH]; intros seen; simpl.
  - intros [= <-] n. rewrite elem_of_nil. tauto.
  - case_bool_decide; [done|]. intros Hs n. rewrite (IH _ Hs), !elem_of_cons. tauto.
Qed.

Lemma check_names_ok tables seen l : check_names tables seen l = Ok tt <->
  NoDup (map pm_table_name l) /\ (forall n, n ∈ map pm_table_name l -> n ∉ tables) /\
  let names := flat_map (fun p => map ni_name (pm_indexes p)) l in
  NoDup names /\ (forall n, n ∈ names -> n ∉ seen).
Proof using Type.
  revert tables seen. induction l as [|p l IH]; intros tables seen; simpl.
  { split; [|done]. intros _. split_and!; try constructor; intros n Hn; by apply elem_of_nil in Hn. }
  rewrite NoDup_cons, NoDup_app. case_bool_decide as Hp.
  - split; [done|]. intros (_ & H & _). by destruct (H (pm_table_name p) (list_elem_of_here _ _)).
  - pose proof (check_index_names_ok seen (pm_indexes p)) as Hok.
    destruct (check_index_names seen (pm_indexes p)) as [seen'|e] eqn:Hs; simpl.
    + rewrite IH. pose proof (check_index_names_value _ _ _ Hs) as Hv.
      apply proj1 in Hok. specialize (Hok eq_refl). destruct Hok as [Hnd Hfresh]. cbv zeta.
      setoid_rewrite elem_of_cons. setoid_rewrite elem_of_app. setoid_rewrite Hv. naive_solver.
    + split; [done|]. intros (_ & _ & (Hi & _ & _) & Hn). apply proj2 in Hok.
      exfalso. enough (false = true) by done. apply Hok. split; [done|]. intros n Hin. apply Hn.
      apply elem_of_app. by left.
Qed.

(** What a planned foreign key refers to: a column that is a key by itself, or
    the columns a table-level constraint names. *)
Definition refers (model : table_model) (f : planned_foreign_key) : Prop :=
  exists target t, models !! target = Some t /\ pf_target_table f = tm_table_name t /\
  ((exists n c, pf_target_columns f = [n] /\ (n, c) ∈ tm_columns t /\ candidate_key t n c) \/
   exists k, k ∈ tm_foreign_keys model /\ pf_column_names f = map bound_name (fc_columns k) /\
     pf_target_columns f = map bound_name (fc_references k)).

Lemma entry_of_elem id columns e : entry_of id columns = Some e -> e ∈ columns /\ co_id e.2 = id.
Proof using Type.
  unfold entry_of. intros H. apply head_Some_elem_of in H. by apply list_elem_of_filter in H as [-> ?].
Qed.

Lemma planned_references m t fs : plan_foreign_keys m t (planned_columns t) = Ok fs ->
  Forall (refers t) fs.
Proof using All.
  unfold plan_foreign_keys. intros H. bind_inv H as scalar Hs. bind_inv H as composite Hc.
  injection H as <-. apply Forall_app. split.
  - apply Forall_concat, Forall_forall. intros l Hl.
    apply (mapR_elem_inv _ _ _ _ Hs) in Hl as (p & _ & Hp). unfold plan_column_foreign_key in Hp.
    destruct (co_foreign_key_target _) as [r|]; [|by injection Hp as <-].
    bind_inv Hp as v Hv. bind_inv Hp as target Ht. bind_inv Hp as tt' Hm. bind_inv Hp as n Hn.
    injection Hp as <-. constructor; [|done]. apply require_table_model_ok in Hm.
    apply resolve_target_column_ok in Hn as (c & He & Hk). apply entry_of_elem in He as [He _].
    exists target, tt'. split; [done|]. split; [done|]. left. by exists n, c.
  - apply Forall_forall. intros f Hf. apply (mapR_elem_inv _ _ _ _ Hc) in Hf as (k & Hk & Hp).
    unfold plan_constraint in Hp. destruct (fc_references k) as [|r rs] eqn:Hr; [done|].
    destruct (co_owner r) as [target|]; [|done]. bind_inv Hp as tt' Hm. injection Hp as <-.
    apply require_table_model_ok in Hm. exists target, tt'. split; [done|]. split; [done|].
    right. exists k. rewrite Hr. done.
Qed.

(** What a planned model says of the table model. *)
Record describes (t : table_model) (p : planned_model) : Prop := Describes {
  describes_model : pm_model p = t;
  describes_name : pm_table_name p = tm_table_name t;
  describes_columns : pm_columns p = planned_columns t;
  describes_checks : pm_checks p = tm_checks t;
  describes_indexes : map ni_name (pm_indexes p) = table_index_names t;
  describes_references : Forall (refers t) (pm_foreign_keys p) }.

Lemma plan_model_describes m p : plan_model m = Ok p ->
  exists t, models !! m = Some t /\ describes t p.
Proof using All.
  intros Hm. apply plan_model_value in Hm as (t & Ht & Hmod & Htab & Hcol & Hck & Hfk & Hix).
  exists t. split; [done|]. split; try done; [|by eapply planned_references].
  by rewrite Hix, planned_index_names.
Qed.

Lemma mapR_choice {A B C} (f : A -> res B) (P : A -> C -> Prop) l :
  (forall x, is_ok (f x) = true <-> exists y, P x y) ->
  is_ok (mapR f l) = true <-> exists ys, Forall2 P l ys.
Proof using Type.
  intros Hf. rewrite is_ok_mapR. induction l as [|x l IH].
  { split; intros _; [by exists []|constructor]. }
  rewrite Forall_cons, Hf, IH. split.
  - intros [[y Hy] [ys Hys]]. exists (y :: ys). by constructor.
  - intros [ys H]. inversion H; subst. eauto.
Qed.

Lemma planned_names ms ts planned :
  Forall2 (fun m t => models !! m = Some t) ms ts -> mapR plan_model ms = Ok planned ->
  map pm_table_name planned = map tm_table_name ts /\
  flat_map (fun p => map ni_name (pm_indexes p)) planned = flat_map table_index_names ts.
Proof using All.
  intros Hts. rewrite mapR_Ok. revert planned.
  induction Hts as [|m t ms ts Ht _ IH]; intros planned H; inversion H as [|? p ? ps Hp Hps]; subst; [done|].
  apply plan_model_describes in Hp as (t' & Ht' & Hd). simplify_eq. destruct (IH _ Hps) as [H1 H2]. simpl.
  by rewrite (describes_name _ _ Hd), (describes_indexes _ _ Hd), H1, H2.
Qed.

(** C13: planning accepts exactly the models whose keys and references can be
    enforced: a composite key has no nullable or counting member, a scalar foreign
    key refers to one column that is unique by itself in the annotated model, a SET
    NULL is on a column that admits NULL, and the names of tables and of indexes
    are distinct over all models.  The plan then describes each model in order. *)
Theorem build_schema_plan_exact ms :
  (is_ok (build_schema_plan ms) = true <->
   exists ts, Forall2 (fun m t => models !! m = Some t /\ plannable m t) ms ts /\
     NoDup (map tm_table_name ts) /\ NoDup (flat_map table_index_names ts)) /\
  (forall plan, build_schema_plan ms = Ok plan ->
   Forall2 (fun m p => exists t, models !! m = Some t /\ describes t p) ms plan).
Proof using All.
  pose proof (mapR_choice plan_model _ ms plan_model_ok) as Hok.
  assert (Hn : forall planned, mapR plan_model ms = Ok planned ->
    check_names [] [] planned = Ok tt <->
    NoDup (map pm_table_name planned) /\ NoDup (flat_map (fun p => map ni_name (pm_indexes p)) planned)).
  { intros planned _. rewrite check_names_ok. cbv zeta. setoid_rewrite elem_of_nil. tauto. }
  unfold build_schema_plan. split.
  - rewrite is_ok_bind. setoid_rewrite is_ok_bind. split.
    + intros (planned & Hp & [] & Hc & _). rewrite Hp in Hok. destruct (proj1 Hok eq_refl) as [ts Hts].
      exists ts. split; [done|]. apply (Hn planned Hp) in Hc.
      destruct (planned_names ms ts planned) as [<- <-]; [|done|done].
      eapply Forall2_impl; [exact Hts|naive_solver].
    + intros (ts & Hts & Hd). assert (Hm : is_ok (mapR plan_model ms) = true) by (apply Hok; by exists ts).
      apply is_ok_Ok in Hm as [planned Hp]. exists planned. split; [done|]. exists tt. split; [|done].
      apply (Hn planned Hp). destruct (planned_names ms ts planned) as [-> ->]; [|done|done].
      eapply Forall2_impl; [exact Hts|naive_solver].
  - intros plan H. bind_inv H as planned Hp. bind_inv H as v Hv. injection H as <-.
    apply mapR_Ok in Hp. eapply Forall2_impl; [exact Hp|]. intros m p. apply plan_model_describes.
Qed.
End plan.

Inductive schema_policy := Strict | Warn | UnknownPolicy.
Definition validate_schema_policy (p : schema_policy) : res unit :=
  match p with
  | Strict | Warn => Ok tt
  | UnknownPolicy => raise SchemaError "schema_policy must be 'strict' or 'warn'"
  end.
