(* ===== verification/SchemaCompile.v ===== *)
(** * Compiling a plan: DDL, expected shapes, the scaffold

    [_schema_compile.py] and [_scaffold.py] over [_schema_dialect.py]: what the
    backends share of the text of CREATE TABLE and CREATE INDEX and of the shape
    a model expects of a live table. *)

From S2P Require Export SchemaPlan.

Record schema_dialect := SchemaDialect {
  sd_quote_identifier : utext -> utext;
  sd_compile_column_definition : planned_column -> res utext;
  sd_expected_column_shape : planned_column -> res column_shape;
  sd_expected_index_shape : normalized_index -> index_shape;
  sd_normalize_foreign_key_action : option referential_action -> utext;
  sd_table_suffix : utext;
  sd_verifies_foreign_keys : bool }.

(** [zip(l, k, strict=True)] *)
Definition zip_strict {A B} (l : list A) (k : list B) : res (list (A * B)) :=
  if length l =? length k then Ok (zip l k) else raise ValueError "zip() arguments have different lengths".

Definition space : utext := u " ".

Section compile.
Context (dialect : schema_dialect).
Let quote := sd_quote_identifier dialect.

(** [', '.join(quote(name) for name in names)] *)
Definition quoted_names (names : list utext) : utext := join_text comma (map quote names).

Definition action_clause (clause : string) (action : option referential_action) : utext :=
  match action with Some a => u clause ++ action_text a | None => [] end.

Definition compile_foreign_key_constraint (f : planned_foreign_key) : utext :=
  u "FOREIGN KEY " ++ parenthesized (quoted_names (pf_column_names f))
  ++ u " REFERENCES " ++ quote (pf_target_table f)
  ++ space ++ parenthesized (quoted_names (pf_target_columns f))
  ++ action_clause " ON DELETE " (pf_on_delete f) ++ action_clause " ON UPDATE " (pf_on_update f).

Definition compile_check (b : backend) (c : bound_check) : res utext :=
  expression ← render_check quote b (bc_expression c);
  Ok (u "CONSTRAINT " ++ quote (bc_name c) ++ u " CHECK " ++ parenthesized expression).

(** The definitions of a table in their order. *)
Definition table_definitions (p : planned_model) : res (list utext) :=
  columns ← mapR (sd_compile_column_definition dialect) (pm_columns p);
  let key := map pc_name (filter (fun c => pc_composite_pk c = true) (pm_columns p)) in
  checks ← mapR (compile_check (tm_backend (pm_model p))) (pm_checks p);
  Ok (columns ++ (if nonempty key then [u "PRIMARY KEY " ++ parenthesized (quoted_names key)] else [])
      ++ map compile_foreign_key_constraint (pm_foreign_keys p) ++ checks).

Definition compile_create_table_sql (p : planned_model) : res utext :=
  definitions ← table_definitions p;
  Ok (u "CREATE TABLE " ++ quote (pm_table_name p) ++ space
      ++ parenthesized (join_text comma definitions) ++ space ++ sd_table_suffix dialect).

Definition index_part (part : utext * option Z) : utext :=
  quote part.1 ++ match part.2 with Some n => parenthesized (str_Z n) | None => [] end.

(** [index.prefix_lengths or (None,) * len(index.column_names)] *)
Definition index_prefixes (i : normalized_index) : list (option Z) :=
  match ni_prefix_lengths i with
  | Some (l :: ls) => l :: ls
  | _ => map (fun _ => None) (ni_column_names i)
  end.

Definition compile_create_index_sql (table_name : utext) (i : normalized_index) : res utext :=
  parts ← zip_strict (ni_column_names i) (index_prefixes i);
  predicate ← match ni_where i with
              | None => Ok []
              | Some where_ => e ← render_check quote BSqlite where_; Ok (u " WHERE " ++ e)
              end;
  Ok (u "CREATE " ++ u (if ni_unique i then "UNIQUE " else EmptyString)%string ++ u "INDEX " ++ quote (ni_name i)
      ++ u " ON " ++ quote table_name ++ space
      ++ parenthesized (join_text comma (map index_part parts)) ++ predicate).

Definition expected_foreign_key (constraint_id : nat) (f : planned_foreign_key)
    : res (list foreign_key_shape) :=
  pairs ← zip_strict (pf_column_names f) (pf_target_columns f);
  Ok (imap (fun position names =>
        ForeignKeyShape names.1 (pf_target_table f) names.2
          (sd_normalize_foreign_key_action dialect (pf_on_delete f))
          (sd_normalize_foreign_key_action dialect (pf_on_update f))
          (Some (str_nonneg (Z.of_nat constraint_id))) (Z.of_nat position)) pairs).

Definition expected_table_shape (p : planned_model) : res table_shape :=
  foreign_keys ← (if sd_verifies_foreign_keys dialect
                  then mapR (fun x => expected_foreign_key x.1 x.2) (imap pair (pm_foreign_keys p))
                  else Ok []);
  columns ← mapR (sd_expected_column_shape dialect) (pm_columns p);
  Ok (TableShape (pm_table_name p) columns (map (sd_expected_index_shape dialect) (pm_indexes p))
        (concat foreign_keys) [sd_table_suffix dialect]
        (Some (map (fun c => CheckShape (Some (bc_name c)) (Some (bc_expression c))) (pm_checks p)))).

(** ** The scaffold *)

Section scaffold.
Context (models : gmap positive table_model) (column_hint : mid -> utext -> annotation).

Definition require_scaffold_models (b : backend) (ms : list mid) : res unit :=
  iterR (fun m => t ← require_table_model models m;
                  guardR (bool_decide (tm_backend t = b)) ModelDeclarationError "backend mismatch") ms.

Definition index_statement (table_name : utext) (i : normalized_index) : res (utext * utext) :=
  sql ← compile_create_index_sql table_name i; Ok (u "create_index_" ++ ni_name i, sql).

Definition model_statements (p : planned_model) : res (list (utext * utext)) :=
  table ← compile_create_table_sql p;
  indexes ← mapR (index_statement (pm_table_name p)) (pm_indexes p);
  Ok ((u "create_" ++ pm_table_name p, table) :: indexes).

Definition scaffold_statements (ms : list mid) : res (list (utext * utext)) :=
  plan ← build_schema_plan models column_hint ms;
  statements ← mapR model_statements plan;
  Ok (concat statements).

Definition scaffold_ddl (ms : list mid) : res utext :=
  statements ← scaffold_statements ms;
  match statements with
  | [] => Ok []
  | _ => Ok (join_text (u ";" ++ [10%Z]) (map snd statements) ++ u ";")
  end.
End scaffold.
End compile.
