(* ===== verification/SchemaStartup.v ===== *)
(** * Verifying the live schema

    [_schema_startup.py]: the flow both backends share.  A backend answers with
    the shape a model expects, the limits of its inspection and the shapes of the
    live tables, read inside a transaction of its own; the flow compares them and
    reports the drift under the schema policy. *)

From S2P Require Export Effects SchemaCompile.

(** What a program over a connection ends with, besides a value. *)
Inductive failure := FPython (e : exn) | FDriver | FCancelled.

Definition lift {S A} (r : res A) : eff S failure A :=
  match r with Ok a => mret a | Raise e => throw (FPython e) end.

(** [SchemaDriftIssue]: the table and the detail. *)
Inductive drift := TableMissing | Differs (i : issue).
Record drift_issue := DriftIssue { di_table_name : utext; di_detail : drift }.

Record verification_result := VerificationResult {
  vr_checked_tables : list utext; vr_issues : list drift_issue; vr_facts : list fact }.

(** The protocol [SchemaBackend]. *)
Class schema_backend (S : Type) := SchemaBackend {
  verification_transaction : forall {A}, eff S failure A -> eff S failure A;
  expected_shape : planned_model -> res table_shape;
  verification_limits : planned_model -> list fact;
  inspect_shapes : list planned_model -> eff S failure (list (utext * table_shape)) }.

(** [_schema_drift_messages]: the details by table. *)
Definition schema_drift_messages (r : verification_result) : list (utext * list drift) :=
  filter (fun m => m.2 <> [])
    (map (fun t => (t, map di_detail (filter (fun i => di_table_name i = t) (vr_issues r))))
       (vr_checked_tables r)).

Definition report_schema_drift (p : schema_policy) (r : verification_result) : res unit :=
  match schema_drift_messages r, p with
  | _ :: _, Strict => raise SchemaVerificationError "schema drift detected"
  | _, _ => Ok tt   (* the messages are logged *)
  end.

Section verify.
Context {S : Type} `{B : schema_backend S} `{U : unicode}.
Context (models : gmap positive table_model) (column_hint : mid -> utext -> annotation).

Definition verify_model_schema (p : planned_model) (actual : table_shape) : res findings :=
  expected ← expected_shape p;
  let '(issues, facts) := compare_table_shapes expected actual in
  let compared := map (fun f => (fact_kind f, fact_object f)) facts in
  Ok (issues, facts ++ filter (fun f => (fact_kind f, fact_object f) ∉ compared) (verification_limits p)).

(** The evidence on one model. *)
Definition verify_planned (shapes : list (utext * table_shape)) (p : planned_model)
    : res (list drift_issue * list fact) :=
  match dict_get (pm_table_name p) shapes with
  | None => Ok ([DriftIssue (pm_table_name p) TableMissing],
                [Fact (pm_table_name p) None "table.presence" Drift])
  | Some actual =>
      '(issues, facts) ← verify_model_schema p actual;
      Ok (map (fun i => DriftIssue (pm_table_name p) (Differs i)) issues, facts)
  end.

Definition verify_schema (ms : list mid) (p : schema_policy) : eff S failure verification_result :=
  _ ← lift (validate_schema_policy p);
  plan ← lift (build_schema_plan models column_hint ms);
  match plan with
  | [] => mret (VerificationResult [] [] [])
  | _ =>
      evidence ← verification_transaction
        (shapes ← inspect_shapes plan; lift (mapR (verify_planned shapes) plan));
      let result := VerificationResult (map pm_table_name plan)
                      (concat (map fst evidence)) (concat (map snd evidence)) in
      _ ← lift (report_schema_drift p result);
      mret result
  end.
End verify.
