(* ===== verification/SchemaRows.v ===== *)
(** * Rows read back by schema verification

    What both backends do with the rows of a catalog: taking them apart, reading
    integers and truth values, and collecting entries in a dict. *)

From S2P Require Export CatalogRows SchemaStartup.

Definition row_at (row : list cell) (i : nat) : res cell :=
  match row !! i with Some c => Ok c | None => raise IndexError "tuple index out of range" end.

(** [int(value)]; text is plain decimal digits. *)
Definition py_int (c : cell) : res Z :=
  match c with
  | CInt n => Ok n
  | CText [] => raise ValueError "invalid literal for int()"
  | CText s => if forallb is_digit s then int_of_digits s else raise ValueError "invalid literal for int()"
  | CNull => raise TypeError "int() argument must be a string or a real number"
  end.

(** [bool(value)] *)
Definition py_truth (c : cell) : bool :=
  match c with CInt n => negb (n =? 0)%Z | CText s => nonempty s | CNull => false end.

Definition dict_of_entries {K V} `{EqDecision K} (entries : list (K * V)) : list (K * V) :=
  foldl (fun d e => dict_set e.1 e.2 d) [] entries.

(** [p in s] *)
Definition contains (p s : utext) : bool := bool_decide (is_Some (find_split p s)).
