(* ===== verification/SchemaGroups.v ===== *)
(** * Foreign keys by constraint

    Rows of foreign keys that come group by group, under distinct constraint ids,
    are grouped as they come; with what the shapes of both backends share. *)

From S2P Require Export SchemaRows SchemaShapeFacts.

Definition by_position (f g : foreign_key_shape) : bool := (fk_position f <=? fk_position g)%Z.
Lemma sorted_positions {A} (o : Z) (h : nat -> A -> foreign_key_shape) l :
  (forall k x, fk_position (h k x) = (o + Z.of_nat k)%Z) -> sorted by_position (imap h l) = imap h l.
Proof.
  intros Hpos. assert (Hgen : forall l n, sorted by_position (imap (fun k => h (n + k)) l) = imap (fun k => h (n + k)) l);
    [|by apply (Hgen l 0)]. clear l.
  induction l as [|x l IH]; intros n; [done|]. rewrite imap_cons. cbn [sorted foldr].
  rewrite (imap_ext _ (fun k => h (S n + k))) by (intros k y _; simpl; f_equal; lia).
  change (foldr _ [] ?l) with (sorted by_position l). rewrite IH.
  destruct l as [|y l]; [done|]. rewrite imap_cons. cbn [insert_sorted]. unfold by_position at 1. rewrite !Hpos.
  rewrite (proj2 (Z.leb_le _ _)) by lia. done.
Qed.

Definition grow (d : list (option utext * nat * list foreign_key_shape)) (f : foreign_key_shape) :=
  dict_set (fk_constraint_id f, 0) (default [] (dict_get (fk_constraint_id f, 0) d) ++ [f]) d.

Lemma dict_get_snoc {K V} `{EqDecision K} (d : list (K * V)) k v : k ∉ map fst d -> dict_get k (d ++ [(k, v)]) = Some v.
Proof.
  induction d as [|[k' v'] d IH]; cbn [app map fst dict_get].
  - intros _. by rewrite decide_True.
  - rewrite not_elem_of_cons. intros [Hk Hd]. rewrite decide_False by done. by apply IH.
Qed.
Lemma dict_set_snoc {K V} `{EqDecision K} (d : list (K * V)) k v v' : k ∉ map fst d ->
  dict_set k v' (d ++ [(k, v)]) = d ++ [(k, v')].
Proof.
  induction d as [|[k' w] d IH]; cbn [app map fst dict_set].
  - intros _. by rewrite decide_True.
  - rewrite not_elem_of_cons. intros [Hk Hd]. rewrite decide_False by done. f_equal. by apply IH.
Qed.
Lemma dict_set_new {K V} `{EqDecision K} (d : list (K * V)) k v : k ∉ map fst d -> dict_set k v d = d ++ [(k, v)].
Proof.
  induction d as [|[k' w] d IH]; cbn [app map fst dict_set]; [done|].
  rewrite not_elem_of_cons. intros [Hk Hd]. rewrite decide_False by done. f_equal. by apply IH.
Qed.

Lemma grow_group d id g : g <> [] -> Forall (fun f => fk_constraint_id f = Some id) g -> (Some id, 0) ∉ map fst d ->
  foldl grow d g = d ++ [((Some id, 0), g)].
Proof.
  intros Hne Hg Hd.
  assert (Hgrow : forall g g0, Forall (fun f => fk_constraint_id f = Some id) g ->
    foldl grow (d ++ [((Some id, 0), g0)]) g = d ++ [((Some id, 0), g0 ++ g)]).
  { clear -Hd. induction g as [|f g IH]; intros g0 Hg; [by rewrite app_nil_r|]. inversion_clear Hg as [|? ? Hf Hg'].
    cbn [foldl]. unfold grow at 2. rewrite Hf, dict_get_snoc, dict_set_snoc by done. cbn [default].
    rewrite IH by done. by rewrite <- app_assoc. }
  destruct g as [|f g]; [done|]. inversion_clear Hg as [|? ? Hf Hg']. cbn [foldl]. unfold grow at 2.
  rewrite Hf. apply dict_get_None in Hd as Hget. rewrite Hget, dict_set_new by done. by apply (Hgrow g [f]).
Qed.

Lemma grow_groups ids gs : forall d, Forall2 (fun id g => g <> [] /\ Forall (fun f => fk_constraint_id f = Some id) g) ids gs ->
  NoDup ids -> (forall id, id ∈ ids -> (Some id, 0) ∉ map fst d) ->
  foldl grow d (concat gs) = d ++ zip (map (fun id => (Some id, 0)) ids) gs.
Proof.
  intros d H. revert d. induction H as [|id g ids gs [Hne Hg] _ IH]; intros d Hnd Hd; [by rewrite app_nil_r|].
  apply NoDup_cons in Hnd as [Hid Hnd]. cbn [concat map zip zip_with]. rewrite foldl_app, (grow_group d id) by (done || apply Hd; left).
  rewrite IH; [by rewrite <- app_assoc|done|].
  intros id' Hid'. rewrite map_app, elem_of_app. cbn [map fst]. intros [H|H%list_elem_of_singleton].
  - eapply Hd; [by right|done].
  - by injection H as ->.
Qed.

Lemma group_by_id fs : Forall (fun f => is_Some (fk_constraint_id f)) fs ->
  foldl (fun d x => let k := group_key x.1 x.2 in dict_set k (default [] (dict_get k d) ++ [x.2]) d) [] (imap pair fs)
  = foldl grow [] fs.
Proof.
  assert (Hgen : forall fs n d, Forall (fun f => is_Some (fk_constraint_id f)) fs ->
    foldl (fun d x => let k := group_key x.1 x.2 in dict_set k (default [] (dict_get k d) ++ [x.2]) d) d
      (imap (fun k => pair (n + k)) fs) = foldl grow d fs); [|by apply (Hgen fs 0)].
  clear. induction fs as [|f fs IH]; intros n d Hf; [done|]. inversion_clear Hf as [|? ? [id Hid] Hfs].
  rewrite imap_cons. cbn [foldl]. rewrite (imap_ext _ (fun k => pair (S n + k))) by (intros k y _; simpl; f_equal; lia).
  rewrite IH by done. f_equal. cbn [fst snd]. unfold grow, group_key. by rewrite Hid.
Qed.

(** A group: one id, its members in the order of their positions. *)
Definition key_group (id : utext) (g : list foreign_key_shape) : Prop :=
  g <> [] /\ Forall (fun f => fk_constraint_id f = Some id) g /\ sorted by_position g = g.

Lemma group_foreign_keys_read ids gs : NoDup ids -> Forall2 key_group ids gs -> group_foreign_keys (concat gs) = gs.
Proof.
  intros Hnd HF. unfold group_foreign_keys. change (fun f g => (fk_position f <=? fk_position g)%Z) with by_position.
  rewrite group_by_id.
  - rewrite (grow_groups ids); [|eapply Forall2_impl; [exact HF|by intros id g (? & ? & _)]|done|intros; by apply not_elem_of_nil].
    cbn [app]. clear Hnd. induction HF as [|id g ids gs (_ & _ & Hs) _ IH]; [done|]. cbn [map zip zip_with snd]. by rewrite Hs, IH.
  - apply Forall_concat. clear -HF. induction HF as [|? ? ? ? (_ & Hg & _)]; constructor; [|done].
    eapply Forall_impl; [exact Hg|]. by intros f ->.
Qed.

(** The ids of expected keys are distinct. *)
Lemma str_nonneg_inj n m : (0 <= n)%Z -> (0 <= m)%Z -> str_nonneg n = str_nonneg m -> n = m.
Proof.
  intros Hn Hm H. assert (Hv : forall n, (0 <= n)%Z -> digits_value (str_nonneg n) = n); [|rewrite <- (Hv n), H, Hv by done; done].
  clear. intros n Hn. unfold str_nonneg. apply decimal_digits_value. rewrite Nat2Z.inj_succ, Z2Nat.id by apply Z.log2_nonneg.
  destruct (Z.eq_dec n 0) as [-> | ?]; [done|]. split; [done|]. apply Z.log2_spec. lia.
Qed.

(** ** Results and dicts of rows *)

Lemma mapR_pure {A B} (f : A -> B) l : mapR (fun x => Ok (f x)) l = Ok (map f l).
Proof. induction l as [|x l IH]; [done|]. by rewrite mapR_cons, IH. Qed.

Lemma mapR_imap {A B C} (f : nat -> A -> B) (g : B -> res C) (h : A -> C) l :
  (forall k x, x ∈ l -> g (f k x) = Ok (h x)) -> mapR g (imap f l) = Ok (map h l).
Proof.
  intros H. apply mapR_Ok, Forall2_lookup. intros k. rewrite list_lookup_imap, list_lookup_fmap.
  destruct (l !! k) as [x|] eqn:Hk; [|by constructor]. constructor. apply H. by eapply list_elem_of_lookup_2.
Qed.

Lemma mapR_concat {A B} (g : A -> res B) ls rs : Forall2 (fun l r => mapR g l = Ok r) ls rs ->
  mapR g (concat ls) = Ok (concat rs).
Proof.
  induction 1 as [|l r ls rs Hl _ IH]; [done|]. cbn [concat]. apply mapR_Ok. apply mapR_Ok in Hl, IH. by apply Forall2_app.
Qed.

Lemma mapR_perm {A B} (f : A -> res B) l l' r' : l ≡ₚ l' -> mapR f l' = Ok r' -> exists r, mapR f l = Ok r /\ r ≡ₚ r'.
Proof.
  intros Hl Hr. apply mapR_Ok in Hr. symmetry in Hl. destruct (Permutation_Forall2 Hl Hr) as (r & Hperm & HF).
  exists r. split; [by apply mapR_Ok|done].
Qed.

Lemma concat_perm {A} (l l' : list (list A)) : l ≡ₚ l' -> concat l ≡ₚ concat l'.
Proof.
  induction 1; cbn [concat]; [done|by f_equiv|by rewrite !app_assoc, (Permutation_app_comm y)|by etransitivity].
Qed.

(** A dict filled with distinct keys. *)
Lemma dict_of_entries_from {K V} `{EqDecision K} (entries : list (K * V)) : forall d k, NoDup (map fst entries) ->
  dict_get k (foldl (fun d e => dict_set e.1 e.2 d) d entries)
  = match dict_get k entries with Some v => Some v | None => dict_get k d end.
Proof.
  induction entries as [|[k' v] entries IH]; intros d k Hnd; [done|]. cbn [foldl map fst snd] in *.
  apply NoDup_cons in Hnd as [Hk Hnd]. rewrite IH by done. cbn [dict_get]. rewrite dict_get_set.
  destruct (decide (k' = k)) as [<-|]; [|done]. apply dict_get_None in Hk. by rewrite Hk.
Qed.

Lemma dict_of_entries_get {K V} `{EqDecision K} (entries : list (K * V)) k : NoDup (map fst entries) ->
  dict_get k (dict_of_entries entries) = dict_get k entries.
Proof. intros Hnd. unfold dict_of_entries. rewrite dict_of_entries_from by done. by destruct (dict_get k entries). Qed.

(** A dict of entries with distinct keys, in any order. *)
Lemma dict_of_entries_perm {K V} `{EqDecision K} (entries entries' : list (K * V)) k v : entries ≡ₚ entries' ->
  NoDup (map fst entries') -> (k, v) ∈ entries' -> dict_get k (dict_of_entries entries) = Some v.
Proof.
  intros Hp Hnd Hk. assert (Hnd' : NoDup (map fst entries)) by (by rewrite Hp).
  rewrite dict_of_entries_get by done. apply dict_get_elem; [done|]. by rewrite Hp.
Qed.

Lemma NoDup_flat_map {A B} (f : A -> list B) l x : NoDup (flat_map f l) -> x ∈ l -> NoDup (f x).
Proof.
  intros Hnd Hx. induction l as [|y l IH]; [by apply elem_of_nil in Hx|]. cbn [flat_map] in Hnd.
  apply NoDup_app in Hnd as (H1 & _ & H2). apply elem_of_cons in Hx as [->|Hx]; auto.
Qed.

Lemma no_drift_messages tables facts : schema_drift_messages (VerificationResult tables [] facts) = [].
Proof. unfold schema_drift_messages. cbn. by induction tables. Qed.

(** ** Collections under distinct names *)

Section unique.
Context {A : Type} (name : A -> utext).
Lemma named_here l x : NoDup (map name l) -> x ∈ l -> named name (name x) l = Some x.
Proof.
  intros Hnd Hx. unfold named. by rewrite (filter_unique name).
Qed.
Lemma named_nowhere l n : n ∉ map name l -> named name n l = None.
Proof.
  unfold named. induction l as [|y l IH]; [done|]. cbn [map]. rewrite not_elem_of_cons. intros [Hn Hl].
  rewrite filter_cons_False by done. by apply IH.
Qed.

Lemma named_agree_perm {B} (R : A -> A -> Prop) (e a : B -> A) (l : list B) actual :
  (forall x, name (e x) = name (a x)) -> NoDup (map (fun x => name (e x)) l) -> actual ≡ₚ map a l ->
  (forall x, x ∈ l -> R (e x) (a x)) -> named_agree name R (map e l) actual.
Proof.
  intros Hname Hnd Hperm HR n.
  assert (Hnd' : NoDup (map name actual)).
  { rewrite Hperm, map_map. by rewrite (map_ext _ (fun x => name (e x))) by (intros x; by rewrite Hname). }
  destruct (decide (n ∈ map (fun x => name (e x)) l)) as [Hn|Hn].
  - apply list_elem_of_fmap in Hn as (x & -> & Hx). rewrite (named_here _ (e x)); [|by rewrite map_map|by apply list_elem_of_fmap_2].
    rewrite Hname, (named_here _ (a x)); [by apply HR|done|]. rewrite Hperm. by apply list_elem_of_fmap_2.
  - rewrite (named_nowhere (map e l)) by (by rewrite map_map). rewrite named_nowhere; [done|]. rewrite Hperm, map_map.
    by rewrite (map_ext _ (fun x => name (e x))) by (intros x; by rewrite Hname).
Qed.

(** The same for objects that are related one by one. *)
Lemma named_agree_forall2 (R : A -> A -> Prop) es found actual :
  NoDup (map name es) -> Forall2 (fun e a => name a = name e /\ R e a) es found -> actual ≡ₚ found ->
  named_agree name R es actual.
Proof.
  intros Hnd HF Hperm n.
  assert (Hnames : map name found = map name es).
  { clear -HF. induction HF as [|e a es found [Hn _] _ IH]; [done|]. cbn [map]. by rewrite Hn, IH. }
  assert (Hnd' : NoDup (map name actual)) by (by rewrite Hperm, Hnames).
  destruct (decide (n ∈ map name es)) as [Hn|Hn].
  - apply list_elem_of_fmap in Hn as (e & -> & He). rewrite (named_here _ e) by done.
    apply list_elem_of_lookup in He as [k Hk]. destruct (Forall2_lookup_l _ _ _ _ _ HF Hk) as (a & Ha & Hna & HR).
    rewrite <- Hna, (named_here _ a); [done|done|]. rewrite Hperm. by eapply list_elem_of_lookup_2.
  - rewrite (named_nowhere es) by done. rewrite named_nowhere; [done|]. by rewrite Hperm, Hnames.
Qed.
End unique.

