(* ===== verification/QuietRuns.v ===== *)
(** * Runs that nothing disturbs

    Programs over a session in which no command fails: how they compose, and what
    [verify_schema] ends with on a backend that reads every table as declared. *)

From S2P Require Export SchemaGroups.

Section runs.
Context {S X : Type} (idle : S -> Prop).

(** From an idle session the program returns a value and leaves the session idle. *)
Definition runs {A} (m : eff S X A) (a : A) : Prop := forall s, idle s -> exists s', m s = (inl a, s') /\ idle s'.

Lemma quiet_ret {A} (a : A) : runs (mret a) a.
Proof using Type. intros s Hs. by exists s. Qed.
Lemma quiet_bind {A B} (m : eff S X A) (f : A -> eff S X B) a b : runs m a -> runs (f a) b -> runs (m ≫= f) b.
Proof using Type.
  intros Hm Hf s Hs. destruct (Hm s Hs) as (s1 & H1 & Hs1). destruct (Hf s1 Hs1) as (s2 & H2 & Hs2).
  exists s2. split; [|done]. unfold mbind, eff_bind. by rewrite H1.
Qed.
Lemma quiet_finally {A} (m : eff S X A) f a : runs m a -> runs f tt -> runs (try_finally m f) a.
Proof using Type.
  intros Hm Hf s Hs. destruct (Hm s Hs) as (s1 & H1 & Hs1). destruct (Hf s1 Hs1) as (s2 & H2 & Hs2).
  exists s2. split; [|done]. unfold try_finally. by rewrite H1, H2.
Qed.
Lemma quiet_except {A} (m : eff S X A) h a : runs m a -> runs (try_except m h) a.
Proof using Type.
  intros Hm s Hs. destruct (Hm s Hs) as (s1 & H1 & Hs1). exists s1. split; [|done]. unfold try_except. by rewrite H1.
Qed.
End runs.

Lemma quiet_lift {S A} {idle : S -> Prop} (r : res A) a : r = Ok a -> runs idle (lift r) a.
Proof. intros ->. apply quiet_ret. Qed.

#[global] Arguments quiet_finally {S X idle A}.

(** ** Verification *)

(** A backend whose transaction does not disturb what is read inside of it. *)
Class quiet_backend {S} (idle : S -> Prop) (B : schema_backend S) : Prop := {
  runs_transaction : forall A (body : eff S failure A) a, runs idle body a ->
    runs idle (verification_transaction (schema_backend := B) body) a }.

Section verifying.
Context {S : Type} (idle : S -> Prop) {B : schema_backend S} `{!quiet_backend idle B} `{U : unicode}.
Context (models : gmap positive table_model) (column_hint : mid -> utext -> annotation).

(** The table is found, and as the model expects it. *)
Definition found_as_expected (shapes : list (utext * table_shape)) (p : planned_model) : Prop :=
  exists e shape, expected_shape (schema_backend := B) p = Ok e /\ dict_get (pm_table_name p) shapes = Some shape /\ tables_agree e shape.

Lemma verify_planned_agrees shapes p : found_as_expected shapes p ->
  exists facts, verify_planned (B := B) shapes p = Ok ([], facts).
Proof using Type.
  intros (e & shape & He & Hget & Ha). apply no_issue_agree in Ha. unfold verify_planned, verify_model_schema. rewrite Hget, He.
  cbn [mbind res_bind]. unfold diff_table_shapes in Ha. destruct (compare_table_shapes _ _) as [issues facts]. cbn [fst] in Ha.
  subst issues. by eexists.
Qed.

Lemma plan_evidence plan shapes : (forall p, p ∈ plan -> found_as_expected shapes p) ->
  exists evidence, mapR (verify_planned (B := B) shapes) plan = Ok evidence /\ Forall (fun e => e.1 = []) evidence.
Proof using Type.
  induction plan as [|p plan IH]; intros H; [by exists []|].
  destruct (verify_planned_agrees shapes p) as [facts Hf]; [apply H; left|].
  destruct IH as (evidence & He & HF); [intros q Hq; apply H; by right|].
  exists (([], facts) :: evidence). rewrite mapR_cons, Hf, He. split; [done|by constructor].
Qed.

(** With nothing to disturb it, the flow returns the comparison of every table. *)
Lemma runs_verify ms plan policy shapes : build_schema_plan models column_hint ms = Ok plan ->
  policy <> UnknownPolicy -> runs idle (inspect_shapes (schema_backend := B) plan) shapes ->
  (forall p, p ∈ plan -> found_as_expected shapes p) ->
  exists result, runs idle (verify_schema (B := B) models column_hint ms policy) result /\
    vr_checked_tables result = map pm_table_name plan /\ vr_issues result = [].
Proof using All.
  intros Hplan Hpolicy Hshapes Hfound. destruct (plan_evidence plan shapes Hfound) as (evidence & Hev & Hnone).
  assert (Hissues : concat (map fst evidence) = []) by (clear Hev; induction Hnone as [|e l He _ IH]; [done|cbn; by rewrite He]).
  exists (VerificationResult (map pm_table_name plan) [] (concat (map snd evidence))). split; [|done].
  unfold verify_schema. apply quiet_bind with tt; [apply quiet_lift; by destruct policy|].
  apply quiet_bind with plan; [by apply quiet_lift|]. destruct plan as [|p plan].
  { injection Hev as <-. apply quiet_ret. }
  apply quiet_bind with evidence.
  - apply runs_transaction. apply quiet_bind with shapes; [exact Hshapes|by apply quiet_lift].
  - cbv zeta. rewrite Hissues. apply quiet_bind with tt; [|apply quiet_ret]. apply quiet_lift.
    unfold report_schema_drift. by rewrite no_drift_messages.
Qed.

(** ** The plan *)

Lemma planned_tables ms plan : build_schema_plan models column_hint ms = Ok plan -> NoDup (map pm_table_name plan).
Proof using Type.
  intros Hplan. unfold build_schema_plan in Hplan. bind_inv Hplan as planned Hm. bind_inv Hplan as v Hn.
  injection Hplan as ->. destruct v. by apply check_names_ok in Hn as [? _].
Qed.

Lemma planned_index_sets ms plan p : build_schema_plan models column_hint ms = Ok plan -> p ∈ plan -> NoDup (map ni_name (pm_indexes p)).
Proof using Type.
  intros Hplan Hp. unfold build_schema_plan in Hplan. bind_inv Hplan as planned Hm. bind_inv Hplan as v Hn.
  injection Hplan as ->. destruct v. apply check_names_ok in Hn. cbv zeta in Hn. destruct Hn as (_ & _ & Hix & _).
  by apply (NoDup_flat_map (fun p => map ni_name (pm_indexes p)) plan).
Qed.

Lemma planned_from ms plan p : build_schema_plan models column_hint ms = Ok plan -> p ∈ plan ->
  exists m, m ∈ ms /\ plan_model models column_hint m = Ok p.
Proof using Type.
  intros Hplan Hp. unfold build_schema_plan in Hplan. bind_inv Hplan as planned Hm. bind_inv Hplan as v Hn.
  injection Hplan as ->. by apply (mapR_elem_inv _ _ _ _ Hm) in Hp.
Qed.

(** The scaffold of tables that each can be written. *)
Lemma scaffold_compiles (dialect : schema_dialect) b ms plan : build_schema_plan models column_hint ms = Ok plan ->
  Forall (fun p => tm_backend (pm_model p) = b /\ is_ok (model_statements dialect p) = true) plan ->
  is_ok (_ ← require_scaffold_models models b ms; scaffold_ddl dialect models column_hint ms) = true.
Proof using Type.
  intros Hplan Hall. assert (Hms : require_scaffold_models models b ms = Ok tt).
  { unfold build_schema_plan in Hplan. bind_inv Hplan as planned Hm. bind_inv Hplan as v Hv. injection Hplan as ->.
    apply iterR_Ok, Forall_forall. intros m Hin. destruct (mapR_elem _ _ _ _ Hm Hin) as (p & Hp & Hmodel).
    apply plan_model_value in Hmodel as (t & Ht & Hpt & _). rewrite Forall_forall in Hall. destruct (Hall p Hp) as [Hb _].
    unfold require_table_model. rewrite Ht. cbn [mbind res_bind]. rewrite <- Hpt, Hb. by rewrite bool_decide_eq_true_2. }
  unfold scaffold_ddl, scaffold_statements. rewrite Hms, Hplan. cbn [mbind res_bind].
  assert (Hs : is_ok (mapR (model_statements dialect) plan) = true)
    by (apply is_ok_mapR; eapply Forall_impl; [exact Hall|by intros p [_ H]]).
  destruct (mapR _ plan) as [l|]; [|done]. cbn [mbind res_bind]. by destruct (concat l).
Qed.
End verifying.
