(* ===== verification/DefaultReading.v ===== *)
(** * Literal defaults read back

    A literal default that was rendered for either backend is recognized in a
    catalog, with the parentheses around an expression or without. *)

From S2P Require Export SchemaRows CheckParsing.

Definition value_ok (v : check_value) : bool :=
  match v with VNone => true | VInt n => int_ok n | VStr s => text_ok s end.

(** The text of a default without the parentheses around an expression. *)
Definition bare_default (b : backend) (v : check_value) : res utext :=
  match v with
  | VNone => Ok (u "NULL")
  | v => render_check (quote_identifier b) b (literal v)
  end.
Definition bare_tokens (b : backend) (v : check_value) : list token :=
  match v with VNone => [word "NULL"] | v => operand_tokens b (literal v) end.

(** Unlike [injection], this leaves the texts as they are. *)
Lemma Ok_inj {A} (a b : A) : Ok a = Ok b -> a = b.
Proof. by intros [=]. Qed.

Lemma bare_default_spells b v : value_ok v = true -> exists t, bare_default b v = Ok t /\
  spells t (bare_tokens b v) /\
  (render_literal_default b v = Ok t \/ render_literal_default b v = Ok (parenthesized t)).
Proof.
  intros Hv. assert (Hne : v = VNone \/ operand_ok (literal v) = true) by (destruct v; auto).
  destruct Hne as [-> | Hne]; [exists (u "NULL"); split_and!; [done|by apply spells_word|by left]|].
  destruct (spells_operand b _ Hne) as (t & Ht & Hs). exists t.
  destruct v as [|n|s]; [done|split_and!; try done; left; cbn in Ht; injection Ht as <-; done|].
  split_and!; [done|done|]. change (render_text b s = Ok t) in Ht. unfold render_text in Ht. unfold render_literal_default.
  destruct (encoded_hex s) as [h|]; [|done]. cbn [mbind res_bind] in Ht |- *. apply Ok_inj in Ht. subst t.
  destruct b; [case_bool_decide; [right|by left]|right]; unfold parenthesized.
  - change (u "(CAST(X'") with (u "(" ++ u "CAST(X'").
    change (u "' AS TEXT))") with (u "' AS TEXT)" ++ u ")"). rewrite <- !app_assoc. reflexivity.
  - change (u "(CONVERT(X'") with (u "(" ++ u "CONVERT(X'").
    change (u "' USING utf8mb4))") with (u "' USING utf8mb4)" ++ u ")"). rewrite <- !app_assoc. reflexivity.
Qed.

Section defaults.
Context `{U : unicode} `{!ascii_laws U}.

Lemma derive_bare b v : value_ok v = true -> forall rest, stops rest ->
  derives true LComparison (bare_tokens b v ++ rest) (literal v) rest.
Proof using All.
  intros Hv rest Hr. apply derive_comparison; [|done|].
  - destruct v as [|n|s]; [cbn [bare_tokens app]; by accepts|by apply operand_not_negated..].
  - destruct v as [|n|s]; [|by apply derive_operand..]. exists 1. intros [|fuel] Hf; [lia|].
    cbn [parse_at bare_tokens app]. cbv zeta. unfold parse_operand. accepts. unfold parse_atom, word.
    cbn [tk_kind tk_text andb orb]. rewrite !upper_ascii by done. reflexivity.
Qed.

Lemma derive_whole lk ts e rest : ends rest -> derives lk LComparison ts e rest -> derives lk LOr ts e rest.
Proof using All.
  intros Hr H. apply derive_up. left. split_and!; [done|by apply ends_accept|].
  apply derive_up. right. split_and!; [done|by apply ends_accept|done].
Qed.

Lemma spells_tokens sql ts m : spells sql ts -> check_tokens m sql = Ok ts.
Proof using All.
  intros Hs. pose proof (Hs _ _ _ (check_tokens_laws m) [] eq_refl) as H. rewrite app_nil_r in H.
  rewrite H. simpl. by rewrite app_nil_r.
Qed.

Lemma bare_tokens_plain v : value_ok v = true -> has_backslash (bare_tokens BMariadb v) = false.
Proof using All. intros Hv. destruct v as [|n|s]; [done|by apply operand_plain..]. Qed.

(** A default that was rendered is recognized, with its parentheses or without. *)
Lemma default_recognized b v t : value_ok v = true -> bare_default b v = Ok t ->
  parse_default_literal (is_mariadb b) t = Ok (Some v) /\
  parse_default_literal (is_mariadb b) (parenthesized t) = Ok (Some v).
Proof using All.
  intros Hv Ht. destruct (bare_default_spells b v Hv) as (t' & Ht' & Hs & _).
  rewrite Ht in Ht'. apply Ok_inj in Ht' as <-.
  assert (Hread : forall sql ts, spells sql ts -> derives true LOr ts (literal v) [] ->
    (b = BMariadb -> has_backslash ts = false) -> parse_default_literal (is_mariadb b) sql = Ok (Some v)).
  { intros sql ts Hsql Hd Hb. unfold parse_default_literal. rewrite (spells_tokens _ _ _ Hsql). simpl.
    assert (Hn : is_mariadb b && has_backslash ts = false) by (destruct b; [done|by apply Hb]).
    rewrite Hn, (parse_derives true ts (literal v) Hd). done. }
  assert (Hbare : forall rest, ends rest -> derives true LOr (bare_tokens b v ++ rest) (literal v) rest).
  { intros rest Hr. apply derive_whole; [done|]. by apply derive_bare, ends_stops. }
  split.
  - apply (Hread t (bare_tokens b v)); [done| |intros ->; by apply bare_tokens_plain].
    specialize (Hbare [] (or_introl eq_refl)). by rewrite app_nil_r in Hbare.
  - apply (Hread _ (in_parentheses (bare_tokens b v))); [by apply spells_in_parentheses| |].
    + apply derive_whole; [by left|]. apply derive_comparison; [unfold in_parentheses; by accepts|by left|].
      apply derive_parentheses. apply Hbare. right. by exists [].
    + intros ->. unfold in_parentheses. rewrite has_backslash_cons by done.
      rewrite has_backslash_app, bare_tokens_plain by done. done.
Qed.
End defaults.
