(* ===== verification/SqliteSchema.v ===== *)
(** * The SQLite schema backend

    [sqlite/_schema_ddl.py] and [sqlite/schema.py]: column definitions, the
    shapes a model expects, and the shapes read back from the catalog: PRAGMA
    rows, the stored text of CREATE TABLE (tokenized for collations and
    AUTOINCREMENT; its CHECKs are read by [CheckCatalog]), and partial-index
    predicates. *)

From S2P Require Export SchemaRows.

(** ** DDL *)

Section affinity.
Context `{U : unicode}.
Definition sqlite_type_affinity (declared_type : utext) : utext :=
  let upper := py_upper declared_type in
  if contains (u "INT") upper then u "INTEGER"
  else if contains (u "CHAR") upper || contains (u "CLOB") upper || contains (u "TEXT") upper then u "TEXT"
  else if contains (u "BLOB") upper || negb (nonempty upper) then u "BLOB"
  else if contains (u "REAL") upper || contains (u "FLOA") upper || contains (u "DOUB") upper then u "REAL"
  else u "NUMERIC".
End affinity.

Definition requires_not_null (p : planned_column) : bool :=
  if pc_composite_pk p then true
  else if co_primary_key (pc_column p)
  then negb (bool_decide (co_storage_class (pc_column p) = INTEGER))
  else negb (co_nullable (pc_column p)).

(** [current_timestamp_sql] of [sqlite/_dialect_sql.py]. *)
Definition current_timestamp_text : utext := u "strftime('%Y-%m-%dT%H:%M:%f', 'now') || '000Z'".
Definition current_timestamp_sql (c : column) : res utext :=
  _ ← guardR (co_instant c) QueryConstructionError "CurrentTimestamp requires a UtcDatetime column";
  Ok current_timestamp_text.

Definition default_parts (c : column) : res (list utext) :=
  match co_server_default c with
  | None => Ok []
  | Some CurrentTimestamp => sql ← current_timestamp_sql c; Ok [u "DEFAULT " ++ parenthesized sql]
  | Some (LiteralDefault v) => sql ← render_literal_default BSqlite v; Ok [u "DEFAULT " ++ sql]
  end.

Definition collation_parts (c : column) : list utext :=
  match co_text_collation c with
  | Some n => if bool_decide (n = u "BINARY") then [] else [u "COLLATE " ++ n]
  | None => []
  end.

Definition compile_column_definition (p : planned_column) : res utext :=
  let c := pc_column p in
  defaults ← default_parts c;
  Ok (join_text space
    ([quote_identifier BSqlite (pc_name p); storage_class_text (co_storage_class c)]
     ++ collation_parts c
     ++ (if co_primary_key c && negb (pc_composite_pk p) then [u "PRIMARY KEY"] else [])
     ++ (if co_auto_increment c then [u "AUTOINCREMENT"] else [])
     ++ (if requires_not_null p then [u "NOT NULL"] else [])
     ++ defaults)).

(** [column.text_collation or "BINARY"] *)
Definition effective_collation (c : column) : utext :=
  match co_text_collation c with Some (x :: n) => x :: n | _ => u "BINARY" end.

Definition expected_column_shape (p : planned_column) : column_shape :=
  let c := pc_column p in
  ColumnShape (pc_name p) (storage_class_text (co_storage_class c)) (negb (requires_not_null p))
    (co_primary_key c) (co_auto_increment c)
    (match co_server_default c with
     | Some CurrentTimestamp => Some (DefaultText (u "CurrentTimestamp"))
     | Some (LiteralDefault v) => Some (LiteralDefaultShape BSqlite v)
     | None => None
     end)
    (Some (effective_collation c)) None None.

Definition expected_index_shape (i : normalized_index) : index_shape :=
  IndexShape (ni_name i) (ni_column_names i) (ni_unique i)
    (Some (bool_decide (is_Some (ni_where i)))) None None (ni_where i).

(** [lambda action: action or "NO ACTION"] *)
Definition normalize_foreign_key_action (a : option referential_action) : utext :=
  match a with Some a => action_text a | None => u "NO ACTION" end.

Definition SCHEMA_DIALECT : schema_dialect := {|
  sd_quote_identifier := quote_identifier BSqlite;
  sd_compile_column_definition := compile_column_definition;
  sd_expected_column_shape := fun p => Ok (expected_column_shape p);
  sd_expected_index_shape := expected_index_shape;
  sd_normalize_foreign_key_action := normalize_foreign_key_action;
  sd_table_suffix := u "STRICT";
  sd_verifies_foreign_keys := true |}.

Definition scaffold_sqlite_ddl (models : gmap positive table_model) (column_hint : mid -> utext -> annotation)
    (ms : list mid) : res utext :=
  _ ← require_scaffold_models models BSqlite ms; scaffold_ddl SCHEMA_DIALECT models column_hint ms.
Definition scaffold_sqlite_statements (models : gmap positive table_model) (column_hint : mid -> utext -> annotation)
    (ms : list mid) : res (list (utext * utext)) :=
  _ ← require_scaffold_models models BSqlite ms; scaffold_statements SCHEMA_DIALECT models column_hint ms.

(** ** The stored text of CREATE TABLE *)

Inductive sqlite_kind := SIdentifier | SLiteralToken | SSymbol | SWord.
#[export] Instance sqlite_kind_eq_dec : EqDecision sqlite_kind.
Proof. solve_decision. Defined.
Record sqlite_token := SqliteToken { st_kind : sqlite_kind; st_text : utext }.
#[export] Instance sqlite_token_eq_dec : EqDecision sqlite_token.
Proof. solve_decision. Defined.

(** From just after an opening quote: the value, to the closing quote or to the
    end, and what follows. *)
Fixpoint quoted_value (quote : Z) (s : utext) : utext * utext :=
  match s with
  | [] => ([], [])
  | c :: s' =>
      if negb (c =? quote)%Z then let '(value, rest) := quoted_value quote s' in (c :: value, rest)
      else match s' with
           | c' :: s'' =>
               if (c' =? quote)%Z
               then let '(value, rest) := quoted_value quote s'' in (quote :: value, rest)
               else ([], s')
           | [] => ([], [])
           end
  end.

(** The text before the first [p], or all of it, and the text after. *)
Definition until (p s : utext) : utext * utext := default (s, []) (find_split p s).

Section inspection.
Context `{U : unicode}.

Definition sqlite_round (next : utext -> list sqlite_token) (c : Z) (s : utext) : list sqlite_token :=
  if starts_with (u "--") (c :: s) then next (until [10%Z] (drop 1 s)).2
  else if starts_with (u "/*") (c :: s) then next (until (u "*/") (drop 1 s)).2
  else if bool_decide (c ∈ [39; 34; 96]%Z) then
    let '(value, rest) := quoted_value c s in
    SqliteToken (if (c =? 39)%Z then SLiteralToken else SIdentifier) value :: next rest
  else if (c =? 91)%Z then
    let '(value, rest) := until [93%Z] s in SqliteToken SIdentifier value :: next rest
  else if py_isalpha c || (c =? 95)%Z then
    let '(word, rest) := span name_part s in SqliteToken SWord (c :: word) :: next rest
  else if bool_decide (c ∈ [40; 41; 44]%Z) then SqliteToken SSymbol [c] :: next s
  else next s.

Fixpoint sqlite_tokens_from (fuel : nat) (s : utext) : list sqlite_token :=
  match fuel, s with
  | S fuel, c :: s => sqlite_round (sqlite_tokens_from fuel) c s
  | _, _ => []
  end.
Definition sqlite_tokens (sql : utext) : list sqlite_token := sqlite_tokens_from (length sql) sql.

Definition opens (t : sqlite_token) : bool := bool_decide (t = SqliteToken SSymbol (u "(")).
Definition closes (t : sqlite_token) : bool := bool_decide (t = SqliteToken SSymbol (u ")")).

Fixpoint definitions_from (depth : nat) (current : list sqlite_token) (ts : list sqlite_token)
    : list (list sqlite_token) :=
  match ts with
  | [] => []
  | t :: ts =>
      if opens t then definitions_from (S depth) (current ++ [t]) ts
      else if closes t then
        match depth with
        | O => if nonempty current then [current] else []
        | S depth => definitions_from depth (current ++ [t]) ts
        end
      else if bool_decide (t = SqliteToken SSymbol (u ",")) && (depth =? 0)
      then current :: definitions_from depth [] ts
      else definitions_from depth (current ++ [t]) ts
  end.

Fixpoint after_opening (ts : list sqlite_token) : option (list sqlite_token) :=
  match ts with [] => None | t :: ts => if opens t then Some ts else after_opening ts end.

Definition sqlite_column_definitions (table_sql : utext) : list (list sqlite_token) :=
  match after_opening (sqlite_tokens table_sql) with
  | None => []
  | Some ts => definitions_from 0 [] ts
  end.

Definition keyword (w : string) (t : sqlite_token) : bool :=
  bool_decide (st_kind t = SWord) && bool_decide (py_upper (st_text t) = u w).
Definition named_token (t : sqlite_token) : bool := negb (bool_decide (st_kind t = SSymbol)).

(** The last top-level COLLATE with a name after it. *)
Fixpoint last_collation (collation : utext) (depth : Z) (ts : list sqlite_token) : utext :=
  match ts with
  | [] => collation
  | t :: ts =>
      if opens t then last_collation collation (depth + 1) ts
      else if closes t then last_collation collation (depth - 1) ts
      else if (depth =? 0)%Z && keyword "COLLATE" t then
        match ts with
        | t' :: _ => last_collation (if named_token t' then py_upper (st_text t') else collation) depth ts
        | [] => collation
        end
      else last_collation collation depth ts
  end.

Definition sqlite_definition_collation (definition : list sqlite_token) : option (utext * utext) :=
  match definition with
  | [] => None
  | name_token :: rest =>
      if existsb (fun w => keyword w name_token) ["CHECK"; "CONSTRAINT"; "FOREIGN"; "PRIMARY"; "UNIQUE"]%string
         || negb (named_token name_token)
      then None
      else Some (py_casefold (st_text name_token), last_collation (u "BINARY") 0 rest)
  end.

Definition sqlite_column_collations (table_sql : option utext) : list (utext * utext) :=
  match table_sql with
  | None => []
  | Some sql =>
      foldl (fun d definition =>
               match sqlite_definition_collation definition with
               | Some (name, collation) => dict_set name collation d
               | None => d
               end) [] (sqlite_column_definitions sql)
  end.

Fixpoint top_level_words (depth : Z) (ts : list sqlite_token) : list utext :=
  match ts with
  | [] => []
  | t :: ts =>
      if opens t then top_level_words (depth + 1) ts
      else if closes t then top_level_words (depth - 1) ts
      else if (depth =? 0)%Z && bool_decide (st_kind t = SWord)
      then py_upper (st_text t) :: top_level_words depth ts
      else top_level_words depth ts
  end.
Definition sqlite_top_level_words (definition : list sqlite_token) : list utext :=
  top_level_words 0 definition.

(** The words after the first [w]. *)
Fixpoint after_word (w : string) (words : list utext) : option (list utext) :=
  match words with
  | [] => None
  | x :: words => if bool_decide (x = u w) then Some words else after_word w words
  end.

Definition definition_autoincrements (definition : list sqlite_token) : bool :=
  bool_decide (is_Some (words ← after_word "PRIMARY" (sqlite_top_level_words definition);
                        words ← after_word "KEY" words; after_word "AUTOINCREMENT" words)).

Definition table_uses_autoincrement (table_sql : option utext) : bool :=
  match table_sql with
  | None => false
  | Some sql => existsb definition_autoincrements (sqlite_column_definitions sql)
  end.
End inspection.
