(* ===== verification/SqliteInspect.v ===== *)
(** * Reading the live SQLite schema

    The other half of [sqlite/schema.py], and [SQLiteRuntime.verify_schema] of
    [sqlite/runtime.py]: programs over one connection.  The rows of the catalog
    are a parameter; what the driver answers to each command is a script, so
    every failure and every cancellation is some script. *)

From S2P Require Export SqliteSchema.

(** ** The driver *)

Inductive sqlite_command :=
  | BeginCommand | RollbackCommand
  | Query (sql : utext) (params : list utext)
  | FetchAll | CloseCursor
  | ConnectionRollback.   (* [connection.rollback()] *)
#[export] Instance sqlite_command_eq_dec : EqDecision sqlite_command.
Proof. solve_decision. Defined.

(** A fault may come after the command took effect. *)
Inductive answer := Done | Fault (cancelled happened : bool).

(** [cn_open]: [connection.in_transaction]; [cn_shielded]: inside a shielded
    cancel scope, which cancellations do not reach; [cn_handed]: what was done
    with the connection, and whether a transaction was open then. *)
Inductive hand := Released | Discarded.
#[export] Instance hand_eq_dec : EqDecision hand.
Proof. solve_decision. Defined.
Record connection := Connection {
  cn_open : bool; cn_shielded : bool; cn_sent : list sqlite_command; cn_script : list answer;
  cn_handed : list (hand * bool) }.

Definition program (A : Type) : Type := eff connection failure A.

Definition takes_effect (c : sqlite_command) (open : bool) : bool :=
  match c with
  | BeginCommand => true
  | RollbackCommand | ConnectionRollback => false
  | _ => open
  end.

Definition send (c : sqlite_command) : program unit := fun s =>
  let after open := Connection open (cn_shielded s) (cn_sent s ++ [c]) (tail (cn_script s)) (cn_handed s) in
  let answered := (inl tt, after (takes_effect c (cn_open s))) in
  match head (cn_script s) with
  | Some (Fault cancelled happened) =>
      if cancelled && cn_shielded s then answered
      else (inr (if cancelled then FCancelled else FDriver),
            after (if happened : bool then takes_effect c (cn_open s) else cn_open s))
  | _ => answered
  end.

(** [with anyio.CancelScope(shield=True)] *)
Definition shielded {A} (m : program A) : program A := fun s =>
  let shield b s := Connection (cn_open s) b (cn_sent s) (cn_script s) (cn_handed s) in
  let '(r, s') := m (shield true s) in (r, shield (cn_shielded s) s').

(** [_execute_schema_sql] *)
Definition execute_schema_sql (c : sqlite_command) : program unit :=
  _ ← send c; send CloseCursor.

(** ** The clock default *)

(** A letter of a pattern under [(?i:...)]: its two cases, and the letters that
    Unicode folds with i and s. *)
Definition ignore_case (p c : Z) : bool :=
  bool_decide (c ∈ [p; p - 32]%Z)
  || (p =? 105)%Z && bool_decide (c ∈ [304; 305]%Z) || (p =? 115)%Z && bool_decide (c ∈ [383]%Z).

Fixpoint eat_word (w s : utext) : option utext :=
  match w, s with
  | [], _ => Some s
  | p :: w, c :: s => if ignore_case p c then eat_word w s else None
  | _ :: _, [] => None
  end.
Definition eat (t s : utext) : option utext :=
  if bool_decide (take (length t) s = t) then Some (drop (length t) s) else None.

Section inspect.
Context `{U : unicode}.

Definition eat_spaces (s : utext) : utext := (span py_isspace s).2.

(** [fullmatch] of the clock's pattern. *)
Definition is_clock (s : utext) : bool :=
  match (s ← eat_word (u "strftime") s;
         s ← eat (u "(") (eat_spaces s);
         s ← eat (u "'%Y-%m-%dT%H:%M:%f'") (eat_spaces s);
         s ← eat (u ",") (eat_spaces s);
         s ← eat (u "'") (eat_spaces s);
         s ← eat_word (u "now") s;
         s ← eat (u "'") s;
         s ← eat (u ")") (eat_spaces s);
         s ← eat (u "||") (eat_spaces s);
         eat (u "'000Z'") (eat_spaces s)) with
  | Some [] => true
  | _ => false
  end.

Definition normalize_server_default (default : cell) : option server_default :=
  match default with
  | CNull => None
  | c => Some (DefaultText (if is_clock (py_str c) then u "CurrentTimestamp" else py_str c))
  end.

(** ** Reading the catalog *)

Context (catalog : utext -> list utext -> list (list cell)).

(** [_fetch_rows] *)
Definition fetch_rows (sql : utext) (params : list utext) : program (list (list cell)) :=
  _ ← send (Query sql params);
  try_finally (_ ← send FetchAll; mret (catalog sql params)) (send CloseCursor).

Definition storage_option (requested : list utext) (row : list cell)
    : res (list (utext * list utext)) :=
  schema ← row_at row 0;
  if negb (bool_decide (py_str schema = u "main")) then Ok []
  else
    name ← row_at row 1;
    if negb (bool_decide (py_str name ∈ requested)) then Ok []
    else
      kind ← row_at row 2;
      if negb (bool_decide (py_str kind = u "table")) then Ok []
      else strict ← row_at row 5; Ok [(py_str name, if py_truth strict then [u "STRICT"] else [])].

Definition fetch_table_storage_options (table_names : list utext)
    : program (list (utext * list utext)) :=
  rows ← fetch_rows (u "PRAGMA table_list") [];
  entries ← lift (mapR (storage_option table_names) rows);
  mret (dict_of_entries (concat entries)).

Definition table_sql_query (table_names : list utext) : utext :=
  u "SELECT name, sql FROM sqlite_master WHERE type = 'table' AND name IN "
  ++ parenthesized (join_text comma (map (fun _ => u "?") table_names)).

Definition table_sql_entry (row : list cell) : res (list (utext * utext)) :=
  match row with
  | [name; sql] => Ok (if bool_decide (sql = CNull) then [] else [(py_str name, py_str sql)])
  | _ => raise ValueError "values to unpack"
  end.

Definition fetch_table_sql (table_names : list utext) : program (list (utext * utext)) :=
  rows ← fetch_rows (table_sql_query table_names) table_names;
  entries ← lift (mapR table_sql_entry rows);
  mret (dict_of_entries (concat entries)).

Definition live_column (collations : list (utext * utext)) (has_autoincrement : bool) (row : list cell)
    : res column_shape :=
  match row with
  | [_; name; data_type; notnull; default_; pk; _] =>
      key ← py_int pk;
      null ← py_int notnull;
      let is_primary_key := negb (key =? 0)%Z in
      Ok (ColumnShape (py_str name) (sqlite_type_affinity (py_str data_type)) (null =? 0)%Z
            is_primary_key (is_primary_key && has_autoincrement) (normalize_server_default default_)
            (Some (default (u "BINARY") (dict_get (py_casefold (py_str name)) collations))) None None)
  | _ => raise ValueError "values to unpack"
  end.

Definition pragma (name : string) (argument : utext) : utext :=
  u "PRAGMA " ++ u name ++ parenthesized (quote_identifier BSqlite argument).

Definition fetch_column_shapes (table_name : utext) (collations : list (utext * utext))
    (has_autoincrement : bool) : program (list column_shape) :=
  rows ← fetch_rows (pragma "table_xinfo" table_name) [];
  lift (mapR (live_column collations has_autoincrement) rows).

Definition index_sql_query : utext :=
  u "SELECT sql FROM sqlite_master WHERE type = 'index' AND name = ? AND tbl_name = ?".

(** The predicate of a partial index, where it can be read. *)
Definition fetch_predicate (table_name index_name : utext) (column_names : list utext)
    : program (option check_expression) :=
  rows ← fetch_rows index_sql_query [index_name; table_name];
  match rows with
  | [CText sql :: _] => lift (sqlite_index_predicate (Some sql) column_names)
  | [[]] => throw (FPython (Exn IndexError "tuple index out of range"))
  | _ => mret None
  end.

Definition fetch_index_shape (table_name : utext) (column_names : list utext) (row : list cell)
    : program (list index_shape) :=
  name ← lift (row_at row 1); unique ← lift (row_at row 2 ≫= py_int);
  origin ← lift (row_at row 3); partial ← lift (row_at row 4 ≫= py_int);
  let index_name := py_str name in
  if negb (bool_decide (py_str origin = u "c")) then mret []
  else
    info ← fetch_rows (pragma "index_info" index_name) [];
    columns ← lift (mapR (fun r => c ← row_at r 2; Ok (py_str c)) info);
    predicate ← (if (partial =? 1)%Z then fetch_predicate table_name index_name column_names else mret None);
    mret [IndexShape index_name columns (unique =? 1)%Z (Some (partial =? 1)%Z) None None predicate].

Fixpoint fetch_each {A B} (f : A -> program (list B)) (l : list A) : program (list B) :=
  match l with
  | [] => mret []
  | x :: l => y ← f x; ys ← fetch_each f l; mret (y ++ ys)
  end.

Definition fetch_index_shapes (table_name : utext) (column_names : list utext)
    : program (list index_shape) :=
  rows ← fetch_rows (pragma "index_list" table_name) [];
  fetch_each (fetch_index_shape table_name column_names) rows.

Definition live_foreign_key (row : list cell) : res foreign_key_shape :=
  constraint_id ← row_at row 0; position ← row_at row 1 ≫= py_int; column ← row_at row 3;
  table ← row_at row 2; target ← row_at row 4; on_update ← row_at row 5; on_delete ← row_at row 6;
  Ok (ForeignKeyShape (py_str column) (py_str table) (py_str target) (py_str on_delete) (py_str on_update)
        (Some (py_str constraint_id)) position).

Definition fetch_foreign_key_shapes (table_name : utext) : program (list foreign_key_shape) :=
  rows ← fetch_rows (pragma "foreign_key_list" table_name) [];
  lift (mapR live_foreign_key rows).

(** One table of [inspect_shapes]. *)
Definition inspect_table (storage_options : list (utext * list utext)) (table_sqls : list (utext * utext))
    (p : planned_model) : program (list (utext * table_shape)) :=
  let table_name := pm_table_name p in
  match dict_get table_name storage_options with
  | None => mret []
  | Some options =>
      let table_sql := dict_get table_name table_sqls in
      columns ← fetch_column_shapes table_name (sqlite_column_collations table_sql)
                  (table_uses_autoincrement table_sql);
      checks ← lift (sqlite_checks table_sql);
      indexes ← fetch_index_shapes table_name (map cl_name columns);
      foreign_keys ← fetch_foreign_key_shapes table_name;
      mret [(table_name, TableShape table_name columns indexes foreign_keys options checks)]
  end.

Definition inspect_live_shapes (planned : list planned_model) : program (list (utext * table_shape)) :=
  let table_names := map pm_table_name planned in
  options ← fetch_table_storage_options table_names;
  sqls ← fetch_table_sql table_names;
  entries ← fetch_each (inspect_table options sqls) planned;
  mret (dict_of_entries entries).

(** ** The verification transaction *)

(** [contextlib.suppress(Error)] *)
Definition suppress_error (m : program unit) : program unit :=
  try_except m (fun e => match e with FDriver => mret tt | _ => throw e end).

Definition rollback_schema_setup : program unit := suppress_error (execute_schema_sql RollbackCommand).

Definition verification_failed : failure := FPython (Exn SchemaError "SQLite schema verification failed").

Definition sqlite_verification_transaction {A} (body : program A) : program A :=
  _ ← execute_schema_sql BeginCommand;
  value ← try_except body (fun e =>
    _ ← shielded rollback_schema_setup;
    throw (match e with FDriver => verification_failed | _ => e end));
  _ ← try_except (shielded (execute_schema_sql RollbackCommand))
        (fun e => throw (match e with FDriver => verification_failed | _ => e end));
  mret value.

Definition sqlite_verification_limits (p : planned_model) : list fact :=
  [Fact (pm_table_name p) None "columns.declared_types" Unchecked].

#[export] Instance SQLiteSchemaBackend : schema_backend connection := {|
  verification_transaction := fun A => sqlite_verification_transaction;
  expected_shape := expected_table_shape SCHEMA_DIALECT;
  verification_limits := sqlite_verification_limits;
  inspect_shapes := inspect_live_shapes |}.

(** ** On a pooled connection *)

Context (models : gmap positive table_model) (column_hint : mid -> utext -> annotation).

Definition hand_over (h : hand) : program unit :=
  modify (fun s => Connection (cn_open s) (cn_shielded s) (cn_sent s) (cn_script s) (cn_handed s ++ [(h, cn_open s)])).

(** The [finally] of [SQLiteRuntime.verify_schema]. *)
Definition give_back : program unit := shielded (
  s ← get;
  _ ← (if cn_open s then suppress_error (send ConnectionRollback) else mret tt);
  s ← get;
  hand_over (if cn_open s then Discarded else Released)).

Definition sqlite_verify_schema (ms : list mid) (p : schema_policy) : program verification_result :=
  try_finally (verify_schema models column_hint ms p) give_back.
End inspect.
