(* ===== verification/SqliteVerification.v ===== *)
(** * What verification does to a SQLite connection

    For every script of answers, failures and cancellations included: the
    inspection only reads, inside a transaction that is never committed, and the
    connection goes back to the pool exactly once, with no transaction open, or
    is discarded. *)

From S2P Require Export SqliteInspect.

(** ** Reading *)

(** PRAGMA functions and SELECT. *)
Definition reading (c : sqlite_command) : bool :=
  match c with
  | Query sql _ => starts_with (u "PRAGMA ") sql || starts_with (u "SELECT ") sql
  | FetchAll | CloseCursor => true
  | _ => false
  end.
(** No command that could change the database or make a change last. *)
Definition harmless (c : sqlite_command) : bool :=
  match c with BeginCommand | RollbackCommand | ConnectionRollback => true | c => reading c end.

(** No command that reads or opens a transaction. *)
Definition closing (c : sqlite_command) : bool :=
  match c with RollbackCommand | ConnectionRollback | CloseCursor => true | _ => false end.

(** Following the commands that were sent: whether a transaction has been asked for and not
    yet rolled back; [None] once something was read outside of one. *)
Definition trace_step (opened : bool) (c : sqlite_command) : option bool :=
  match c with
  | BeginCommand => if opened then None else Some true
  | RollbackCommand | ConnectionRollback => Some false
  | CloseCursor => Some opened
  | _ => if opened then Some true else None
  end.
Fixpoint trace_state (opened : bool) (sent : list sqlite_command) : option bool :=
  match sent with
  | [] => Some opened
  | c :: sent => o ← trace_step opened c; trace_state o sent
  end.

Definition sends (ok : sqlite_command -> bool) (s s' : connection) : Prop :=
  cn_handed s' = cn_handed s /\ cn_shielded s' = cn_shielded s /\
  exists sent, cn_sent s' = cn_sent s ++ sent /\ Forall (fun c => ok c = true) sent.
(** The transaction stays as it is. *)
Definition reads (s s' : connection) : Prop := cn_open s' = cn_open s /\ sends reading s s'.

#[export] Instance sends_preorder ok : PreOrder (sends ok).
Proof.
  split.
  - intros s. split_and!; [done..|]. exists []. by rewrite app_nil_r.
  - intros s1 s2 s3 (H1 & H2 & l & Hl & Fl) (H1' & H2' & l' & Hl' & Fl'). split_and!; [congruence..|].
    exists (l ++ l'). split; [by rewrite Hl', Hl, app_assoc|by apply Forall_app].
Qed.
#[export] Instance reads_preorder : PreOrder reads.
Proof.
  split; [by intros s|]. intros s1 s2 s3 [H1 H2] [H1' H2']. split; [congruence|by etransitivity].
Qed.

Lemma sends_weaken (ok ok' : sqlite_command -> bool) s s' : (forall c, ok c = true -> ok' c = true) ->
  sends ok s s' -> sends ok' s s'.
Proof.
  intros Hok (H1 & H2 & l & Hl & Fl). split_and!; [done..|]. exists l. split; [done|]. eapply Forall_impl; [exact Fl|]. auto.
Qed.
Lemma reads_harmless s s' : reads s s' -> sends harmless s s'.
Proof. intros [_ H]. eapply sends_weaken; [|exact H]. by intros [| | | | |]. Qed.

Lemma send_cases c s r s' : send c s = (r, s') ->
  cn_handed s' = cn_handed s /\ cn_shielded s' = cn_shielded s /\ cn_sent s' = cn_sent s ++ [c] /\
  (r = inl tt /\ cn_open s' = takes_effect c (cn_open s) \/
   (exists x, r = inr x /\ (x = FDriver \/ x = FCancelled /\ cn_shielded s = false)) /\
    (cn_open s' = takes_effect c (cn_open s) \/ cn_open s' = cn_open s)).
Proof.
  unfold send. destruct (head (cn_script s)) as [[|cancelled happened]|];
    [intros [= <- <-]; simpl; by auto 6| |intros [= <- <-]; simpl; by auto 6].
  destruct (cancelled && cn_shielded s) eqn:Hc; intros [= <- <-]; simpl; [by auto 6|]. split_and!; try done. right. split.
  - destruct cancelled; [|eauto]. eexists. split; [done|]. right. by destruct (cn_shielded s).
  - destruct happened; auto.
Qed.

Lemma send_moves (ok : sqlite_command -> bool) c : ok c = true -> moves (sends ok) (send c).
Proof.
  intros Hc s r s' H. apply send_cases in H as (H1 & H2 & H3 & _). split_and!; [done..|]. exists [c]. by auto.
Qed.
Lemma send_reads c : reading c = true -> moves reads (send c).
Proof.
  intros Hc s r s' H. split; [|by eapply send_moves].
  apply send_cases in H as (_ & _ & _ & [[_ H] | [_ [H|H]]]); rewrite H; by destruct c.
Qed.

Lemma lift_moves {A} T `{!PreOrder T} (r : res A) : moves T (lift (S := connection) r).
Proof. destruct r; [by apply moves_ret|by apply moves_throw]. Qed.

Create HintDb reads.
#[export] Hint Resolve send_reads lift_moves moves_ret moves_throw moves_get : reads.
#[export] Hint Extern 2 (moves _ (_ ≫= _)) => apply moves_bind; [exact _| |intros ?] : reads.
#[export] Hint Extern 2 (moves _ (try_finally _ _)) => apply moves_finally; [exact _| |] : reads.
#[export] Hint Extern 1 (PreOrder _) => exact _ : reads.

Section verification.
Context `{U : unicode} (catalog : utext -> list utext -> list (list cell)).

Lemma fetch_rows_reads sql params : reading (Query sql params) = true -> moves reads (fetch_rows catalog sql params).
Proof. intros H. unfold fetch_rows. auto 6 with reads. Qed.

Lemma fetch_each_reads {A B} (f : A -> program (list B)) l : (forall x, moves reads (f x)) -> moves reads (fetch_each f l).
Proof. intros H. induction l; simpl; auto 6 with reads. Qed.

Hint Resolve fetch_rows_reads fetch_each_reads : reads.

Lemma table_sql_reading names : reading (Query (table_sql_query names) names) = true.
Proof. done. Qed.
Lemma pragma_reading (name : string) argument params : reading (Query (pragma name argument) params) = true.
Proof. done. Qed.
Lemma index_sql_reading params : reading (Query index_sql_query params) = true.
Proof. done. Qed.
Hint Resolve table_sql_reading pragma_reading index_sql_reading : reads.

Lemma fetch_predicate_reads table index names : moves reads (fetch_predicate catalog table index names).
Proof. unfold fetch_predicate. apply moves_bind; [exact _|auto with reads|]. intros rows. repeat case_match; auto with reads. Qed.
Hint Resolve fetch_predicate_reads : reads.

Lemma fetch_index_shape_reads table names row : moves reads (fetch_index_shape catalog table names row).
Proof.
  unfold fetch_index_shape. do 4 (apply moves_bind; [exact _|auto with reads|intros ?]).
  cbv zeta. destruct (negb _); [auto with reads|]. apply moves_bind; [exact _|auto with reads|intros ?].
  apply moves_bind; [exact _|auto with reads|intros ?]. apply moves_bind; [exact _| |intros ?; auto with reads].
  destruct (_ =? _)%Z; auto with reads.
Qed.
Hint Resolve fetch_index_shape_reads : reads.

Lemma inspect_table_reads options sqls p : moves reads (inspect_table catalog options sqls p).
Proof.
  unfold inspect_table. destruct (dict_get _ options); [|auto with reads].
  unfold fetch_column_shapes, fetch_index_shapes, fetch_foreign_key_shapes. auto 12 with reads.
Qed.
Hint Resolve inspect_table_reads : reads.

Lemma inspect_reads planned : moves reads (inspect_live_shapes catalog planned).
Proof. unfold inspect_live_shapes, fetch_table_storage_options, fetch_table_sql. auto 12 with reads. Qed.

(** ** The transaction *)

Lemma shielded_cases {A} (m : program A) s r s' : shielded m s = (r, s') ->
  exists s1 s2, m s1 = (r, s2) /\ cn_shielded s1 = true /\ cn_open s1 = cn_open s /\ cn_sent s1 = cn_sent s /\
    cn_handed s1 = cn_handed s /\ cn_open s' = cn_open s2 /\ cn_sent s' = cn_sent s2 /\ cn_handed s' = cn_handed s2 /\
    cn_shielded s' = cn_shielded s.
Proof using Type.
  unfold shielded. destruct (m _) as [r0 s0] eqn:Hm. intros [= <- <-]. do 2 eexists. split; [exact Hm|]. by simpl.
Qed.

Lemma shielded_sends {A} ok (m : program A) : moves (sends ok) m -> moves (sends ok) (shielded m).
Proof using Type.
  intros Hm s r s' H. apply shielded_cases in H as (s1 & s2 & H & Hsh & _ & Hs1 & Hh1 & _ & Hs2 & Hh2 & Hb).
  destruct (Hm _ _ _ H) as (H1 & _ & l & Hl & Fl). split_and!; [congruence|done|]. exists l. split; [congruence|done].
Qed.

Lemma execute_sends ok c : ok c = true -> ok CloseCursor = true -> moves (sends ok) (execute_schema_sql c).
Proof using Type. intros Hc Hk. apply moves_bind; [exact _|by apply send_moves|intros ?; by apply send_moves]. Qed.

Lemma except_sends {A} ok (m : program A) h : moves (sends ok) m -> (forall x, moves (sends ok) (h x)) ->
  moves (sends ok) (try_except m h).
Proof using Type. apply moves_except, _. Qed.

Lemma suppress_sends ok m : moves (sends ok) m -> moves (sends ok) (suppress_error m).
Proof using Type.
  intros Hm. apply except_sends; [done|]. intros []; [apply moves_throw, _|apply moves_ret, _|apply moves_throw, _].
Qed.

Lemma rollback_sends : moves (sends harmless) rollback_schema_setup.
Proof using Type. by apply suppress_sends, execute_sends. Qed.

Lemma transaction_sends {A} (body : program A) : moves (sends harmless) body ->
  moves (sends harmless) (sqlite_verification_transaction body).
Proof using Type.
  intros Hb. unfold sqlite_verification_transaction. apply moves_bind; [exact _|by apply execute_sends|intros _].
  apply moves_bind; [exact _| |intros value; apply moves_bind; [exact _| |intros _; apply moves_ret, _]].
  - apply except_sends; [done|]. intros x. apply moves_bind; [exact _| |intros _; apply moves_throw, _].
    apply shielded_sends, rollback_sends.
  - apply except_sends; [by apply shielded_sends, execute_sends|]. intros x. apply moves_throw, _.
Qed.

(** A value comes out of the transaction only after its rollback. *)
Lemma transaction_closed {A} (body : program A) s a s' : sqlite_verification_transaction body s = (inl a, s') ->
  cn_open s' = false.
Proof using Type.
  unfold sqlite_verification_transaction. intros H. apply bind_cases in H as [([] & s1 & _ & H)|(x & _ & [=])].
  apply bind_cases in H as [(b & s2 & _ & H)|(x & _ & [=])]. apply bind_cases in H as [([] & s3 & Hr & H)|(x & _ & [=])].
  injection H as _ <-. apply except_cases in Hr as [(? & Hr & _)|(x & s4 & _ & [=])].
  apply shielded_cases in Hr as (s4 & s5 & Hr & Hsh & _ & _ & _ & Ho & _). rewrite Ho. clear Ho.
  apply bind_cases in Hr as [([] & s6 & H1 & H2)|(z & _ & [=])].
  apply send_cases in H1 as (_ & _ & _ & [[_ H1]|[(y & [=] & _) _]]).
  apply send_cases in H2 as (_ & _ & _ & [[_ H2]|[(y & [=] & _) _]]). by rewrite H2.
Qed.

(** ** Reads stay inside the transaction *)

Lemma send_sent c s r s' : send c s = (r, s') -> cn_sent s' = cn_sent s ++ [c].
Proof using Type. intros H. by apply send_cases in H as (_ & _ & H & _). Qed.

Lemma execute_sent c s r s' : execute_schema_sql c s = (r, s') ->
  cn_sent s' = cn_sent s ++ [c; CloseCursor] \/ (exists x, r = inr x) /\ cn_sent s' = cn_sent s ++ [c].
Proof using Type.
  intros H. apply bind_cases in H as [([] & s1 & H1 & H)|(x & H1 & ->)]; apply send_sent in H1.
  - apply send_sent in H. left. by rewrite H, H1, <- app_assoc.
  - right. eauto.
Qed.

Lemma closing_trace opened l : Forall (fun c => closing c = true) l -> exists opened',
  trace_state opened l = Some opened' /\ (opened = false -> opened' = false).
Proof using Type.
  intros H. revert opened. induction H as [|c l Hc _ IH]; intros opened; [by exists opened|].
  destruct (IH opened) as (o & Ho & Hf), (IH false) as (o' & Ho' & Hf'). destruct c; try done; simpl; eauto.
Qed.
Lemma reading_trace l : Forall (fun c => reading c = true) l -> trace_state true l = Some true.
Proof using Type. induction 1 as [|c l Hc _ IH]; [done|]. by destruct c. Qed.
Lemma trace_app opened l l' : trace_state opened (l ++ l') = trace_state opened l ≫= fun o => trace_state o l'.
Proof using Type.
  revert opened. induction l as [|c l IH]; intros opened; [done|]. simpl. destruct (trace_step opened c); [apply IH|done].
Qed.

Definition closes (s s' : connection) : Prop := sends closing s s'.

(** The commands of the transaction: BEGIN, the reads of the body, rollbacks. *)
Lemma transaction_trace {A} (body : program A) s r s' : moves reads body ->
  sqlite_verification_transaction body s = (r, s') -> exists sent opened, cn_sent s' = cn_sent s ++ sent /\
    trace_state false sent = Some opened /\ (forall a, r = inl a -> opened = false).
Proof using Type.
  intros Hbody H. unfold sqlite_verification_transaction in H. apply bind_cases in H as [([] & s1 & H1 & H)|(x & H1 & ->)].
  2: { apply execute_sent in H1 as [H1|[_ H1]]; eexists _, _; (split; [exact H1|split; [reflexivity|discriminate]]). }
  apply execute_sent in H1 as [H1|[[? [=]] _]].
  assert (Hback : moves closes rollback_schema_setup) by (by apply suppress_sends, execute_sends).
  assert (Hinside : exists inside rest, cn_sent s' = cn_sent s1 ++ inside ++ rest /\
            Forall (fun c => reading c = true) inside /\ Forall (fun c => closing c = true) rest /\
            (forall a, r = inl a -> exists more, rest = RollbackCommand :: more)).
  { apply bind_cases in H as [(value & s2 & H2 & H)|(x & H2 & ->)].
    - apply except_cases in H2 as [(a & Hb & [= <-])|(x & s3 & Hb & Hx)].
      + destruct (Hbody _ _ _ Hb) as (_ & _ & _ & inside & Hi & Fi).
        assert (Hclose : exists rest, cn_sent s' = cn_sent s2 ++ rest /\ Forall (fun c => closing c = true) rest /\
                  (forall a, r = inl a -> exists more, rest = RollbackCommand :: more)).
        { apply bind_cases in H as [([] & s3 & H3 & H)|(x & H3 & ->)]; [injection H as <- <-|].
          - apply except_cases in H3 as [(? & H3 & _)|(x & s4 & H3 & [=])].
            apply shielded_cases in H3 as (s4 & s5 & H3 & _ & _ & Hs4 & _ & _ & Hs5 & _).
            apply execute_sent in H3 as [H3|[[? [=]] _]]. exists [RollbackCommand; CloseCursor].
            split_and!; [by rewrite Hs5, H3, Hs4|by repeat constructor|by eexists].
          - apply except_cases in H3 as [(? & _ & [=])|(y & s4 & H3 & Hx)]. leaf_inv Hx.
            apply shielded_cases in H3 as (s5 & s6 & H3 & _ & _ & Hs5 & _ & _ & Hs6 & _).
            apply execute_sent in H3 as [H3|[_ H3]]; eexists; (split; [by rewrite Hs6, H3, Hs5|split; [by repeat constructor|discriminate]]). }
        destruct Hclose as (rest & Hr & Fr & Hv). exists inside, rest. split_and!; [by rewrite Hr, Hi, app_assoc|done..].
      + apply bind_cases in Hx as [([] & ? & _ & [=])|(y & _ & [=])].
    - apply except_cases in H2 as [(a & _ & [=])|(y & s3 & Hb & Hx)].
      destruct (Hbody _ _ _ Hb) as (_ & _ & _ & inside & Hi & Fi).
      assert (Hclose : closes s3 s').
      { apply bind_cases in Hx as [([] & s4 & H4 & Hx)|(z & H4 & _)]; [leaf_inv Hx|]; by apply (shielded_sends _ _ Hback) in H4. }
      destruct Hclose as (_ & _ & rest & Hr & Fr). exists inside, rest. split_and!; [by rewrite Hr, Hi, app_assoc|done|done|discriminate]. }
  destruct Hinside as (inside & rest & Hs & Fi & Fr & Hv). exists ([BeginCommand; CloseCursor] ++ inside ++ rest).
  destruct (closing_trace true rest Fr) as (opened & Ho & _).
  assert (Htrace : trace_state false ([BeginCommand; CloseCursor] ++ inside ++ rest) = Some opened)
    by (rewrite trace_app; simpl; by rewrite trace_app, reading_trace).
  exists opened. split_and!; [by rewrite Hs, H1, <- app_assoc|done|].
  intros a Ha. destruct (Hv a Ha) as (more & ->). inversion_clear Fr.
  destruct (closing_trace false more) as (o & Ho' & Hf); [done|]. simpl in Ho. rewrite Ho' in Ho. injection Ho as <-. auto.
Qed.

(** ** Verification on a pooled connection *)

Context (models : gmap positive table_model) (column_hint : mid -> utext -> annotation).

Lemma verify_sends ms policy : moves (sends harmless)
  (verify_schema (B := SQLiteSchemaBackend catalog) models column_hint ms policy).
Proof using Type.
  unfold verify_schema. apply moves_bind; [exact _|apply lift_moves, _|intros _].
  apply moves_bind; [exact _|apply lift_moves, _|intros plan]. destruct plan; [apply moves_ret, _|].
  apply moves_bind; [exact _| |intros evidence; apply moves_bind; [exact _|apply lift_moves, _|intros _; apply moves_ret, _]].
  apply transaction_sends, moves_bind; [exact _| |intros shapes; apply lift_moves, _].
  intros s r s' H. apply reads_harmless. exact (inspect_reads (p :: plan) _ _ _ H).
Qed.

(** A value of the flow: the connection has no transaction, if it had none, and
    strict verification found no drift. *)
Lemma lift_returns {A} (r : res A) (s : connection) a s' : lift r s = (inl a, s') -> s' = s /\ r = Ok a.
Proof using Type. destruct r; [by intros [= <- <-]|done]. Qed.

Lemma verify_value ms policy s result s' : cn_open s = false ->
  verify_schema (B := SQLiteSchemaBackend catalog) models column_hint ms policy s = (inl result, s') ->
  cn_open s' = false /\ (policy = Strict -> schema_drift_messages result = []).
Proof using Type.
  intros Ho H. unfold verify_schema in H. apply bind_cases in H as [([] & s1 & H1 & H)|(x & _ & [=])].
  apply bind_cases in H as [(plan & s2 & H2 & H)|(x & _ & [=])].
  apply lift_returns in H1 as [-> _], H2 as [-> Hplan]. destruct plan as [|p plan]; [injection H as <- <-; split; [done|by intros _]|].
  apply bind_cases in H as [(evidence & s3 & H3 & H)|(x & _ & [=])]. apply transaction_closed in H3.
  cbv zeta in H. apply bind_cases in H as [([] & s4 & H4 & H)|(x & _ & [=])]. apply lift_returns in H4 as [-> H4].
  injection H as <- <-. split; [done|]. intros ->. unfold report_schema_drift in H4. by destruct (schema_drift_messages _).
Qed.

(** What verification sends is a trace of this kind, rolled back where a value comes out. *)
Lemma verify_trace ms policy s r s' :
  verify_schema (B := SQLiteSchemaBackend catalog) models column_hint ms policy s = (r, s') ->
  exists sent opened, cn_sent s' = cn_sent s ++ sent /\ trace_state false sent = Some opened /\
    (forall a, r = inl a -> opened = false).
Proof using Type.
  assert (Hquiet : forall (s' : connection) (r : verification_result + failure), s' = s -> exists sent opened,
            cn_sent s' = cn_sent s ++ sent /\ trace_state false sent = Some opened /\ (forall a, r = inl a -> opened = false)).
  { intros s1 r1 ->. exists [], false. split_and!; [by rewrite app_nil_r|done|done]. }
  intros H. unfold verify_schema in H. apply bind_cases in H as [([] & s1 & H1 & H)|(x & H1 & ->)].
  2: { apply Hquiet. unfold lift in H1. destruct (validate_schema_policy _); by leaf_inv H1. }
  apply lift_returns in H1 as [-> _]. apply bind_cases in H as [(plan & s2 & H2 & H)|(x & H2 & ->)].
  2: { apply Hquiet. unfold lift in H2. destruct (build_schema_plan _ _ _); by leaf_inv H2. }
  apply lift_returns in H2 as [-> _]. destruct plan as [|p plan]; [apply Hquiet; by leaf_inv H|].
  assert (Hbody : moves reads (shapes ← inspect_shapes (schema_backend := SQLiteSchemaBackend catalog) (p :: plan);
            lift (mapR (verify_planned (B := SQLiteSchemaBackend catalog) shapes) (p :: plan)))).
  { apply moves_bind; [exact _|apply (inspect_reads (p :: plan))|intros shapes; apply lift_moves, _]. }
  apply bind_cases in H as [(evidence & s3 & H3 & H)|(x & H3 & ->)];
    apply (transaction_trace _ _ _ _ Hbody) in H3 as (sent & opened & Hs & Ht & Hv); exists sent, opened.
  - assert (Hsame : s' = s3).
    { cbv zeta in H. apply bind_cases in H as [([] & s4 & H4 & H)|(x & H4 & ->)]; [leaf_inv H|];
        unfold lift in H4; destruct (report_schema_drift _ _); by leaf_inv H4. }
    subst s'. split_and!; [done|done|]. intros _ _. by eapply Hv.
  - split_and!; [done|done|discriminate].
Qed.

Lemma give_back_spec s r s' : give_back s = (r, s') -> exists h, r = inl tt /\
  cn_handed s' = cn_handed s ++ [(h, cn_open s')] /\ (h = Discarded <-> cn_open s' = true) /\
  cn_shielded s' = cn_shielded s /\ (cn_open s = false -> h = Released) /\
  exists sent, cn_sent s' = cn_sent s ++ sent /\ Forall (fun c => closing c = true) sent.
Proof using Type.
  intros H. unfold give_back in H. apply shielded_cases in H as (s1 & s2 & H & Hsh & Ho1 & Hs1 & Hh1 & Ho2 & Hs2 & Hh2 & Hb).
  apply bind_cases in H as [(? & ? & [= <- <-] & H)|(x & [=] & _)].
  apply bind_cases in H as [([] & s3 & H3 & H)|(x & H3 & ->)].
  - apply bind_cases in H as [(? & ? & [= <- <-] & H)|(x & [=] & _)]. unfold hand_over in H. leaf_inv H. simpl in *. rewrite Ho2, Hs2, Hh2.
    assert (Hm : moves closes (if cn_open s1 then suppress_error (send ConnectionRollback) else mret tt))
      by (destruct (cn_open s1); [apply suppress_sends; by apply send_moves|apply moves_ret, _]).
    destruct (Hm _ _ _ H3) as (Hh & _ & l & Hl & Fl).
    exists (if cn_open s3 then Discarded else Released). split_and!; [done|congruence|by destruct (cn_open s3)|done| |].
    + intros Ho. rewrite Ho1, Ho in H3. injection H3 as <-. by rewrite Ho1, Ho.
    + exists l. split; [congruence|done].
  - exfalso. destruct (cn_open s1); [|discriminate]. unfold suppress_error in H3.
    apply except_cases in H3 as [(a & _ & [=])|(y & s4 & H4 & H5)].
    apply send_cases in H4 as (_ & _ & _ & [[[=] _]|[(z & [= ->] & Hz) _]]).
    destruct Hz as [-> |[-> Hz]]; [discriminate|congruence].
Qed.

(** C11: verification leaves the database as it was and gives the connection back
    once.  For every script of answers, failures and cancellations: what is sent
    is PRAGMA and SELECT, nothing is read before a BEGIN was sent or after its rollback, and
    when verification returns the rollback was sent; the connection is handed
    over exactly once, with no shield left, and is discarded exactly if a
    transaction is still open on it; verification that returns has released it,
    and under the strict policy returns only without drift. *)
Theorem sqlite_verification_safe ms policy s r s'
  (Hopen : cn_open s = false) (Hhanded : cn_handed s = [])
  (Hrun : sqlite_verify_schema catalog models column_hint ms policy s = (r, s')) :
  exists h sent opened, cn_sent s' = cn_sent s ++ sent /\ Forall (fun c => harmless c = true) sent /\
    trace_state false sent = Some opened /\
    cn_handed s' = [(h, cn_open s')] /\ (h = Discarded <-> cn_open s' = true) /\
    cn_shielded s' = cn_shielded s /\
    match r with
    | inl result => h = Released /\ opened = false /\ (policy = Strict -> schema_drift_messages result = [])
    | inr _ => True
    end.
Proof using Type.
  unfold sqlite_verify_schema in Hrun. apply finally_cases in Hrun as (r1 & s1 & H1 & Hend).
  destruct (verify_sends _ _ _ _ _ H1) as (Hh & Hsh & l & Hl & Fl).
  destruct (verify_trace _ _ _ _ _ H1) as (l1 & o & Hl1 & Ht & Hv). rewrite Hl in Hl1. apply app_inv_head in Hl1 as <-.
  assert (Hgive : exists r2, give_back s1 = (r2, s') /\ (r2 = inl tt -> r = r1)).
  { destruct Hend as [[H ->]|(x & H & ->)]; eexists; split; [exact H|done|exact H|discriminate]. }
  destruct Hgive as (r2 & Hgive & Hr). apply give_back_spec in Hgive as (h & -> & Hh' & Hd & Hsh' & Hrel & l' & Hl' & Fl').
  specialize (Hr eq_refl) as ->. destruct (closing_trace o l' Fl') as (opened & Ho & Hf). exists h, (l ++ l'), opened. split_and!.
  - by rewrite Hl', Hl, app_assoc.
  - apply Forall_app. split; [done|]. eapply Forall_impl; [exact Fl'|]. by intros [].
  - by rewrite trace_app, Ht.
  - rewrite Hh', Hh, Hhanded. done.
  - done.
  - congruence.
  - destruct r1 as [result|]; [|done]. destruct (verify_value _ _ _ _ _ Hopen H1) as [Hclosed Hs]. split_and!; [auto| |auto].
    by eapply Hf, Hv.
Qed.
End verification.

(** ** A disturbed call

    The listing of tables is cancelled, the rollback of the transaction fails, and
    so does that of the connection. *)

Definition log_model : table_model := TableModel 1 BSqlite (u "log") [] [] [] [].
Definition disturbed_start : connection :=
  Connection false false [] [Done; Done; Fault true true; Fault false false; Fault false false] [].
Definition disturbed : (verification_result + failure) * connection :=
  sqlite_verify_schema (U := ascii_unicode) (fun _ _ => []) {[1%positive := log_model]}
    (fun _ _ => OtherAnnotation) [1%positive] Warn disturbed_start.

Example disturbed_discarded : cn_handed disturbed.2 = [(Discarded, true)] /\
  cn_sent disturbed.2 = [BeginCommand; CloseCursor; Query (u "PRAGMA table_list") []; RollbackCommand; ConnectionRollback].
Proof. by vm_compute. Qed.

Lemma sqlite_verification_safe_witness : exists h sent opened,
  cn_sent disturbed.2 = [] ++ sent /\ Forall (fun c => harmless c = true) sent /\ trace_state false sent = Some opened /\
  cn_handed disturbed.2 = [(h, cn_open disturbed.2)] /\ (h = Discarded <-> cn_open disturbed.2 = true) /\
  cn_shielded disturbed.2 = false /\
  match disturbed.1 with
  | inl result => h = Released /\ opened = false /\ (Warn = Strict -> schema_drift_messages result = [])
  | inr _ => True
  end.
Proof.
  apply (sqlite_verification_safe (U := ascii_unicode) (fun _ _ => []) {[1%positive := log_model]}
    (fun _ _ => OtherAnnotation) [1%positive] Warn disturbed_start disturbed.1 disturbed.2); vm_compute; reflexivity.
Defined.
