(* ===== verification/SqliteReading.v ===== *)
(** * Reading back the DDL that the scaffold writes

    The tokens of the CREATE TABLE and CREATE INDEX texts of [SchemaCompile] for
    both tokenizers of the catalog, and what is read off them: the definitions of
    a table with their collations and AUTOINCREMENT, its CHECKs, the predicate of
    an index. *)

From S2P Require Export DefaultReading SqliteInspect.

(** ** The tokenizer of the stored DDL *)

(** The tokens of [sqlite/schema.py] for one of [_check_catalog.py]. *)
Definition ddl_token (t : token) : list sqlite_token :=
  match tk_kind t with
  | KWord => [SqliteToken SWord (tk_text t)]
  | KIdentifier => [SqliteToken SIdentifier (tk_text t)]
  | KLiteral => [SqliteToken SLiteralToken (tk_text t)]
  | KNumber => []
  | KSymbol => if bool_decide (tk_text t ∈ [u "("; u ")"; u ","]) then [SqliteToken SSymbol (tk_text t)] else []
  end.
Definition ddl_tokens (ts : list token) : list sqlite_token := flat_map ddl_token ts.

Section tokenizer.
Context `{U : unicode} `{!ascii_laws U}.

Lemma quoted_value_length quote s : length (quoted_value quote s).2 <= length s.
Proof using Type.
  assert (Hn : forall n s, length s <= n -> length (quoted_value quote s).2 <= length s); [|by apply (Hn (length s))].
  clear s. induction n as [|n IH]; intros [|c s] Hs; simpl in *; try lia.
  destruct (negb (c =? quote)%Z).
  - specialize (IH s). destruct (quoted_value quote s). simpl in *. lia.
  - destruct s as [|d s]; simpl in *; [lia|]. destruct (d =? quote)%Z; simpl; [|lia].
    specialize (IH s). destruct (quoted_value quote s). simpl in *. lia.
Qed.

Lemma until_length p s : length (until p s).2 <= length s.
Proof using Type.
  unfold until. destruct (find_split p s) as [[before after]|] eqn:Hf; simpl; [|lia].
  apply find_split_length in Hf. lia.
Qed.

Lemma sqlite_round_ext f g c s : (forall s', length s' <= length s -> f s' = g s') ->
  sqlite_round f c s = sqlite_round g c s.
Proof using Type.
  intros Hfg. unfold sqlite_round.
  assert (Hd : forall p, length (until p (drop 1 s)).2 <= length s)
    by (intros p; pose proof (until_length p (drop 1 s)); rewrite length_drop in *; lia).
  destruct (starts_with _ _); [by apply Hfg|]. destruct (starts_with _ _); [by apply Hfg|].
  destruct (bool_decide _).
  { pose proof (quoted_value_length c s). destruct (quoted_value c s). by rewrite Hfg. }
  destruct (c =? 91)%Z.
  { pose proof (until_length [93%Z] s). destruct (until _ s). by rewrite Hfg. }
  destruct (_ || _).
  { pose proof (span_length name_part s). destruct (span _ s). by rewrite Hfg. }
  destruct (bool_decide _); by rewrite Hfg.
Qed.

Lemma sqlite_tokens_enough fuel s : length s <= fuel -> sqlite_tokens_from fuel s = sqlite_tokens s.
Proof using Type.
  unfold sqlite_tokens. remember (length s) as n eqn:Hn. assert (Hle : length s <= n) by lia. clear Hn.
  revert s n Hle. induction fuel as [|fuel IH]; intros s n Hs Hf.
  - assert (n = 0) as -> by lia. by destruct s.
  - destruct s as [|c s]; [by destruct n|]. destruct n as [|n]; [simpl in Hs; lia|].
    simpl in Hs. apply sqlite_round_ext. intros s' Hs'. apply IH; lia.
Qed.

Lemma sqlite_tokens_cons c s : sqlite_tokens (c :: s) = sqlite_round sqlite_tokens c s.
Proof using Type. apply sqlite_round_ext. intros. by apply sqlite_tokens_enough. Qed.

Lemma quoted_value_quoted q s rest : match rest with [] => true | c :: _ => negb (c =? q)%Z end = true ->
  quoted_value q (flat_map (doubled q) s ++ q :: rest) = (s, rest).
Proof using Type.
  intros Hr. induction s as [|c s IH]; cbn [flat_map app].
  - cbn [quoted_value]. rewrite Z.eqb_refl. simpl. destruct rest as [|d rest]; [done|].
    by destruct (d =? q)%Z.
  - unfold doubled at 1. destruct (Z.eqb_spec c q) as [-> | Hc]; cbn [app quoted_value].
    + rewrite Z.eqb_refl. simpl. by rewrite IH.
    + rewrite (proj2 (Z.eqb_neq c q)) by done. simpl. by rewrite IH.
Qed.

Lemma no_comment c s : c ∉ [45; 47]%Z ->
  starts_with (u "--") (c :: s) = false /\ starts_with (u "/*") (c :: s) = false.
Proof using All.
  intros Hc. split; [apply (first_char_differs [45%Z])|apply (first_char_differs [42%Z])]; vm_compute; intros ->; set_solver.
Qed.

(** A character of a symbol is kept if it is a parenthesis or a comma. *)
Lemma sqlite_symbol c s : symbol_here c s = true ->
  sqlite_tokens (c :: s) = ddl_token (Token KSymbol [c]) ++ sqlite_tokens s.
Proof using All.
  unfold symbol_here. rewrite !andb_true_iff, !negb_true_iff, !orb_false_iff.
  intros ((((((_ & Hd) & Hs) & Hq) & Ha & Hu) & _) & Hr). unfold in_range in Hr. rewrite andb_true_iff, !Z.leb_le in Hr.
  rewrite sqlite_tokens_cons. unfold sqlite_round. rewrite Hd, Hs.
  apply bool_decide_eq_false in Hq. rewrite bool_decide_eq_false_2 by set_solver.
  rewrite (proj2 (Z.eqb_neq c 91)) by set_solver. rewrite isalpha_law, Ha, Hu by lia. cbn [orb].
  unfold ddl_token. cbn [tk_kind tk_text]. change (u "(") with [40%Z]. change (u ")") with [41%Z]. change (u ",") with [44%Z].
  repeat case_bool_decide; set_solver.
Qed.

Lemma sqlite_word w rest : ascii_word w = true -> word_ends rest = true ->
  sqlite_tokens (w ++ rest) = SqliteToken SWord w :: sqlite_tokens rest.
Proof using All.
  intros Hw Hr. destruct w as [|c w]; [done|]. cbn [ascii_word] in Hw. apply andb_true_iff in Hw as [Hc Hw].
  apply ascii_alpha_range in Hc as Hcr. cbn [app]. rewrite sqlite_tokens_cons. unfold sqlite_round.
  destruct (no_comment c (w ++ rest)) as [-> ->]; [set_unfold; lia|].
  assert (Hq : c ∉ [39; 34; 96]%Z /\ c <> 91%Z).
  { unfold ascii_alpha in Hc. rewrite orb_true_iff, !andb_true_iff, !Z.leb_le in Hc. set_unfold. lia. }
  rewrite bool_decide_eq_false_2 by apply Hq. rewrite (proj2 (Z.eqb_neq c 91)) by apply Hq.
  rewrite isalpha_law, Hc by lia. cbn [orb]. rewrite span_all; [done| |by apply word_ends_stops].
  apply forallb_forall. intros d Hd. rewrite forallb_forall in Hw. by apply name_part_ascii, Hw.
Qed.

Lemma sqlite_digit c s : is_digit c = true -> sqlite_tokens (c :: s) = sqlite_tokens s.
Proof using All.
  intros Hc. apply digit_range in Hc as Hcr. rewrite sqlite_tokens_cons. unfold sqlite_round.
  destruct (no_comment c (s)) as [-> ->]; [set_unfold; lia|].
  rewrite bool_decide_eq_false_2 by (set_unfold; lia). rewrite (proj2 (Z.eqb_neq c 91)) by lia.
  rewrite isalpha_law, (proj2 (Z.eqb_neq c 95)) by lia.
  assert (Ha : ascii_alpha c = false).
  { unfold ascii_alpha. rewrite orb_false_iff, !andb_false_iff, !Z.leb_gt. lia. }
  rewrite Ha. cbn [orb]. by rewrite bool_decide_eq_false_2 by (set_unfold; lia).
Qed.

Lemma pair_chars c s : is_pair (c :: s) = true ->
  exists d s', s = d :: s' /\ d ∈ [61; 62]%Z /\ c ∈ [60; 62; 33; 61]%Z.
Proof using All.
  unfold is_pair. rewrite existsb_exists. intros (p & Hp & H). apply bool_decide_eq_true in H.
  vm_compute in Hp. destruct s as [|d s]; simpl in H; [naive_solver|]. exists d, s. split; [done|].
  destruct Hp as [<- |[<- |[<- |[<- |[<- |[]]]]]]; injection H as <- <-; set_solver.
Qed.

#[export] Instance sqlite_tokens_laws : lexer_laws sqlite_tokens (fun ts r => ddl_tokens ts ++ r).
Proof using All.
  split.
  - done.
  - intros ts ts' r. unfold ddl_tokens. by rewrite flat_map_app, app_assoc.
  - intros s. rewrite sqlite_tokens_cons. unfold sqlite_round. by rewrite isalpha_law.
  - intros c s Hc. apply andb_true_iff in Hc as [Hc _]. rewrite sqlite_symbol by done.
    cbn [ddl_tokens flat_map]. by rewrite app_nil_r.
  - intros c s Hc. apply andb_true_iff in Hc as [Hc Hp]. rewrite sqlite_symbol by done.
    destruct (pair_chars _ _ Hp) as (d & s' & -> & Hd & Hcc). cbn [drop]. rewrite sqlite_symbol.
    + cbn [take]. unfold ddl_tokens, ddl_token. cbn [flat_map tk_kind tk_text].
      set_unfold. by destruct Hd as [-> |[-> |[]]], Hcc as [-> |[-> |[-> |[-> |[]]]]].
    + set_unfold. by destruct Hd as [-> |[-> |[]]].
  - intros q s rest Hq Hr. unfold quote_with. cbn [app]. rewrite <- app_assoc. cbn [app].
    rewrite sqlite_tokens_cons. unfold sqlite_round.
    edestruct (no_comment q) as [-> ->]; [set_unfold; lia|].
    rewrite bool_decide_eq_true_2 by done. rewrite quoted_value_quoted by (by apply clean_not_quote).
    unfold ddl_tokens, ddl_token. cbn. by destruct (q =? 39)%Z.
  - intros w rest Hw Hr. by apply sqlite_word.
  - intros c s rest Hc Hs _. change (ddl_tokens _) with (@nil sqlite_token). cbn [app]. rewrite sqlite_digit by done. induction s as [|d s IH]; [done|].
    cbn [forallb] in Hs. apply andb_true_iff in Hs as [Hd Hs]. cbn [app]. rewrite sqlite_digit by done. by apply IH.
Qed.
End tokenizer.

(** ** The tokens of the DDL *)

Definition quoted_token (name : utext) : token := Token KIdentifier name.
Definition names_tokens (names : list utext) : list token :=
  in_parentheses (comma_tokens (map (fun n => [quoted_token n]) names)).

(** The default of a literal has parentheses when it is an expression. *)
Definition wrapped (v : check_value) : bool :=
  match v with VStr s => bool_decide (0%Z ∈ s) | _ => false end.
Definition clock_tokens : list token :=
  [word "strftime"; opening; Token KLiteral (u "%Y-%m-%dT%H:%M:%f"); symbol ","; Token KLiteral (u "now");
   closing; symbol "|"; symbol "|"; Token KLiteral (u "000Z")].
Definition default_tokens (c : column) : list token :=
  match co_server_default c with
  | None => []
  | Some CurrentTimestamp => word "DEFAULT" :: in_parentheses clock_tokens
  | Some (LiteralDefault v) =>
      word "DEFAULT" :: (if wrapped v then in_parentheses (bare_tokens BSqlite v) else bare_tokens BSqlite v)
  end.

Definition collation_tokens (c : column) : list token :=
  match co_text_collation c with
  | Some n => if bool_decide (n = u "BINARY") then [] else [word "COLLATE"; Token KWord n]
  | None => []
  end.

Definition column_tokens (p : planned_column) : list token :=
  let c := pc_column p in
  quoted_token (pc_name p) :: Token KWord (storage_class_text (co_storage_class c)) :: collation_tokens c
  ++ (if co_primary_key c && negb (pc_composite_pk p) then [word "PRIMARY"; word "KEY"] else [])
  ++ (if co_auto_increment c then [word "AUTOINCREMENT"] else [])
  ++ (if requires_not_null p then [word "NOT"; word "NULL"] else [])
  ++ default_tokens c.

Definition action_tokens (a : referential_action) : list token :=
  match a with
  | CASCADE => [word "CASCADE"] | RESTRICT => [word "RESTRICT"]
  | SET_NULL => [word "SET"; word "NULL"] | NO_ACTION => [word "NO"; word "ACTION"]
  end.
Definition action_clause_tokens (clause : string) (a : option referential_action) : list token :=
  match a with Some a => word "ON" :: word clause :: action_tokens a | None => [] end.

Definition foreign_key_tokens (f : planned_foreign_key) : list token :=
  word "FOREIGN" :: word "KEY" :: names_tokens (pf_column_names f)
  ++ word "REFERENCES" :: quoted_token (pf_target_table f) :: names_tokens (pf_target_columns f)
  ++ action_clause_tokens "DELETE" (pf_on_delete f) ++ action_clause_tokens "UPDATE" (pf_on_update f).

Definition check_constraint_tokens (c : bound_check) : list token :=
  word "CONSTRAINT" :: quoted_token (bc_name c) :: word "CHECK"
  :: in_parentheses (expression_tokens BSqlite (bc_expression c)).

Definition composite_key (p : planned_model) : list utext :=
  map pc_name (filter (fun c => pc_composite_pk c = true) (pm_columns p)).

Definition key_tokens (p : planned_model) : list (list token) :=
  if nonempty (composite_key p) then [word "PRIMARY" :: word "KEY" :: names_tokens (composite_key p)] else [].

Definition definition_tokens (p : planned_model) : list (list token) :=
  map column_tokens (pm_columns p) ++ key_tokens p ++ map foreign_key_tokens (pm_foreign_keys p)
  ++ map check_constraint_tokens (pm_checks p).

Definition table_tokens (p : planned_model) : list token :=
  word "CREATE" :: word "TABLE" :: quoted_token (pm_table_name p)
  :: in_parentheses (comma_tokens (definition_tokens p)) ++ [word "STRICT"].

Definition index_tokens (table_name : utext) (i : normalized_index) : list token :=
  word "CREATE" :: (if ni_unique i then [word "UNIQUE"] else [])
  ++ word "INDEX" :: quoted_token (ni_name i) :: word "ON" :: quoted_token table_name
  :: names_tokens (ni_column_names i)
  ++ match ni_where i with
     | Some e => word "WHERE" :: expression_tokens BSqlite e
     | None => []
     end.

(** *** The declarations of a SQLite model *)

Definition column_declared (p : planned_column) : Prop :=
  let c := pc_column p in
  match co_text_collation c with
  | None => True | Some n => n ∈ map u ["BINARY"; "NOCASE"; "RTRIM"]%string
  end /\
  match co_server_default c with
  | None => True | Some CurrentTimestamp => co_instant c = true | Some (LiteralDefault v) => value_ok v = true
  end /\
  (co_auto_increment c = true -> co_primary_key c = true /\ pc_composite_pk p = false).

Definition check_declared (c : bound_check) : Prop := declarable (bc_expression c) = true.
Definition index_declared (i : normalized_index) : Prop :=
  ni_prefix_lengths i = None /\ match ni_where i with Some e => declarable e = true | None => True end.

(** *** Spelling *)

Lemma spells_quoted_name n : spells (quote_identifier BSqlite n) [quoted_token n].
Proof. apply (spells_quoted 34). set_solver. Qed.

Lemma spells_names names :
  spells (parenthesized (join_text comma (map (quote_identifier BSqlite) names))) (names_tokens names).
Proof.
  apply spells_in_parentheses, spells_join. rewrite Forall2_fmap. apply Forall_Forall2_diag, Forall_forall.
  intros n _. apply spells_quoted_name.
Qed.

Lemma spells_then s ts s' ts' : spells s ts -> spells s' ts' -> spells (s ++ 32%Z :: s') (ts ++ ts').
Proof. intros H H'. apply spells_app; [done|by apply spells_blank|done]. Qed.
Lemma spells_then_word s ts (w : string) : spells s ts -> ascii_word (u w) = true ->
  spells (u w ++ 32%Z :: s) (word w :: ts).
Proof. intros H Hw. by apply spells_prefix. Qed.

Lemma spells_spaced ss tss : Forall2 spells ss tss -> spells (join_text space ss) (concat tss).
Proof.
  intros H. destruct H as [|s ts ss tss Hs H]; [apply spells_nil|]. revert s ts Hs.
  induction H as [|s' ts' ss tss Hs' _ IH]; intros s ts Hs.
  - simpl. by rewrite app_nil_r.
  - change (join_text space (s :: s' :: ss)) with (s ++ 32%Z :: join_text space (s' :: ss)).
    change (concat (ts :: ts' :: tss)) with (ts ++ concat (ts' :: tss)). apply spells_then; [done|]. by apply IH.
Qed.

Lemma spells_class c : spells (storage_class_text c) [Token KWord (storage_class_text c)].
Proof. by destruct c; apply spells_word. Qed.

Lemma spells_two (w w' : string) : ascii_word (u w) = true -> ascii_word (u w') = true ->
  spells (u w ++ 32%Z :: u w') [word w; word w'].
Proof. intros H H'. by apply spells_prefix, spells_word. Qed.

Lemma spells_clock : spells current_timestamp_text clock_tokens.
Proof.
  apply (spells_app (u "strftime") [word "strftime"] (u "('%Y-%m-%dT%H:%M:%f', 'now') || '000Z'")); [by apply spells_word| |done].
  apply (spells_open (u "'%Y-%m-%dT%H:%M:%f', 'now') || '000Z'")).
  apply (spells_app (quote_with 39 (u "%Y-%m-%dT%H:%M:%f")) [Token KLiteral (u "%Y-%m-%dT%H:%M:%f")] (u ", 'now') || '000Z'"));
    [apply (spells_quoted 39); set_solver| |done].
  apply (spells_comma (u "'now') || '000Z'")).
  apply (spells_app (quote_with 39 (u "now")) [Token KLiteral (u "now")] (u ") || '000Z'"));
    [apply (spells_quoted 39); set_solver| |done].
  apply (spells_close (u " || '000Z'")), (spells_blank (u "|| '000Z'")).
  apply (spells_one 124 (u "| '000Z'")); [done|]. apply (spells_one 124 (u " '000Z'")); [done|].
  apply (spells_blank (quote_with 39 (u "000Z"))), (spells_quoted 39). set_solver.
Qed.

Lemma literal_default_spells v : value_ok v = true -> exists t, render_literal_default BSqlite v = Ok t /\
  spells t (if wrapped v then in_parentheses (bare_tokens BSqlite v) else bare_tokens BSqlite v).
Proof.
  intros Hv. destruct (bare_default_spells BSqlite v Hv) as (t & Ht & Hs & _).
  assert (Hr : render_literal_default BSqlite v = Ok (if wrapped v then parenthesized t else t)).
  { destruct v as [|n|s]; [exact Ht|exact Ht|].
    change (render_text BSqlite s = Ok t) in Ht. unfold render_text in Ht. unfold render_literal_default.
    destruct (encoded_hex s) as [h|]; [|done]. cbn [mbind res_bind wrapped] in Ht |- *. apply Ok_inj in Ht. subst t.
    case_bool_decide; [|done]. unfold parenthesized.
    change (u "(CAST(X'") with (u "(" ++ u "CAST(X'").
    change (u "' AS TEXT))") with (u "' AS TEXT)" ++ u ")"). rewrite <- !app_assoc. reflexivity. }
  eexists. split; [exact Hr|]. destruct (wrapped v); [by apply spells_in_parentheses|done].
Qed.

Lemma spells_defaults p : column_declared p -> exists parts tss,
  default_parts (pc_column p) = Ok parts /\ Forall2 spells parts tss /\ concat tss = default_tokens (pc_column p).
Proof.
  intros (_ & H & _). unfold default_parts, default_tokens. destruct (co_server_default _) as [[|v]|].
  - unfold current_timestamp_sql. rewrite H. eexists _, [_]. split_and!; [done| |apply app_nil_r].
    constructor; [|done]. apply (spells_then_word _ _ "DEFAULT"); [|done]. apply spells_in_parentheses, spells_clock.
  - destruct (literal_default_spells v H) as (t & Ht & Hs). rewrite Ht. eexists _, [_]. split_and!; [done| |apply app_nil_r].
    constructor; [|done]. by apply (spells_then_word _ _ "DEFAULT").
  - by exists [], [].
Qed.

Lemma spells_column p : column_declared p ->
  exists s, compile_column_definition p = Ok s /\ spells s (column_tokens p).
Proof.
  intros Hp. destruct (spells_defaults p Hp) as (parts & tss & Hd & Hparts & Htss). destruct Hp as (Hc & _ & _).
  unfold compile_column_definition. rewrite Hd. eexists. split; [done|].
  replace (column_tokens p) with (concat ([[quoted_token (pc_name p)];
    [Token KWord (storage_class_text (co_storage_class (pc_column p)))]]
    ++ (match collation_tokens (pc_column p) with [] => [] | ts => [ts] end)
    ++ (if co_primary_key (pc_column p) && negb (pc_composite_pk p) then [[word "PRIMARY"; word "KEY"]] else [])
    ++ (if co_auto_increment (pc_column p) then [[word "AUTOINCREMENT"]] else [])
    ++ (if requires_not_null p then [[word "NOT"; word "NULL"]] else []) ++ tss)).
  - apply spells_spaced. repeat apply Forall2_app; [| | | | |done].
    + constructor; [apply spells_quoted_name|constructor; [apply spells_class|done]].
    + unfold collation_parts, collation_tokens. destruct (co_text_collation _) as [n|]; [|done].
      destruct (bool_decide (n = u "BINARY")); [done|]. constructor; [|done].
      apply (spells_then_word _ _ "COLLATE"); [|done]. apply spells_word. cbn [map] in Hc. set_unfold. by destruct Hc as [-> |[-> |[-> |[]]]].
    + destruct (_ && _); [|done]. constructor; [|done]. by apply (spells_two "PRIMARY" "KEY").
    + destruct (co_auto_increment _); [|done]. constructor; [|done]. by apply spells_word.
    + destruct (requires_not_null p); [|done]. constructor; [|done]. by apply (spells_two "NOT" "NULL").
  - rewrite !concat_app, Htss. unfold column_tokens. cbn [concat app]. do 2 f_equal.
    f_equal; [destruct (collation_tokens _); [done|apply app_nil_r]|]. f_equal; [by destruct (_ && _)|].
    f_equal; [by destruct (co_auto_increment _)|]. f_equal. by destruct (requires_not_null p).
Qed.

Lemma spells_action (w : string) a : ascii_word (u w) = true ->
  spells (action_clause (" ON " ++ w ++ " ") a) (action_clause_tokens w a).
Proof.
  intros Hw. destruct a as [a|]; [|apply spells_nil]. unfold action_clause. rewrite !ascii_text_app, <- !app_assoc.
  apply (spells_blank (u "ON" ++ 32%Z :: u w ++ 32%Z :: action_text a)).
  apply spells_prefix; [done|]. apply spells_then_word; [|done].
  destruct a; [by apply spells_word..|by apply (spells_two "SET" "NULL")|by apply (spells_two "NO" "ACTION")].
Qed.

Lemma clean_action (w : string) a : clean (action_clause (" ON " ++ w) a) = true.
Proof. by destruct a. Qed.

Lemma spells_foreign_key f :
  spells (compile_foreign_key_constraint SCHEMA_DIALECT f) (foreign_key_tokens f).
Proof.
  unfold compile_foreign_key_constraint, foreign_key_tokens, quoted_names. cbn [sd_quote_identifier SCHEMA_DIALECT].
  apply (spells_then_word (u "KEY " ++ _) _ "FOREIGN"); [|done]. apply (spells_then_word _ _ "KEY"); [|done].
  apply spells_app; [apply spells_names| |done]. apply (spells_blank (u "REFERENCES " ++ _)).
  apply (spells_then_word _ _ "REFERENCES"); [|done]. apply (spells_app _ [_]); [apply spells_quoted_name| |done].
  apply (spells_blank (parenthesized _ ++ _)). apply spells_app; [apply spells_names| |by destruct (pf_on_delete f), (pf_on_update f)].
  apply spells_app; [by apply (spells_action "DELETE")|by apply (spells_action "UPDATE")|by destruct (pf_on_update f)].
Qed.

Lemma spells_check_constraint c : check_declared c -> exists s,
  compile_check SCHEMA_DIALECT BSqlite c = Ok s /\ spells s (check_constraint_tokens c).
Proof.
  intros Hc. destruct (spells_expression BSqlite _ Hc) as (e & He & Hs). unfold compile_check.
  cbn [sd_quote_identifier SCHEMA_DIALECT]. rewrite He. eexists. split; [done|]. unfold check_constraint_tokens.
  apply (spells_then_word _ _ "CONSTRAINT"); [|done]. apply (spells_app _ [_]); [apply spells_quoted_name| |done].
  apply (spells_blank (u "CHECK " ++ _)), (spells_then_word _ _ "CHECK"); [|done]. by apply spells_in_parentheses.
Qed.

Lemma mapR_spells {A} (f : A -> res utext) (g : A -> list token) l :
  (forall x, x ∈ l -> exists s, f x = Ok s /\ spells s (g x)) ->
  exists ss, mapR f l = Ok ss /\ Forall2 spells ss (map g l).
Proof.
  induction l as [|x l IH]; intros H; [by exists []|].
  destruct (H x) as (s & Hs & Hsp); [left|]. destruct IH as (ss & Hss & HF); [intros y Hy; apply H; by right|].
  exists (s :: ss). rewrite mapR_cons, Hs, Hss. split; [done|]. by constructor.
Qed.

(** What the definitions of a SQLite table must be for their text to be read. *)
Record table_declared (p : planned_model) : Prop := TableDeclared {
  td_backend : tm_backend (pm_model p) = BSqlite;
  td_columns : forall c, c ∈ pm_columns p -> column_declared c;
  td_checks : forall c, c ∈ pm_checks p -> check_declared c;
  td_indexes : forall i, i ∈ pm_indexes p -> index_declared i }.

Lemma spells_definitions p : table_declared p -> exists ss,
  table_definitions SCHEMA_DIALECT p = Ok ss /\ Forall2 spells ss (definition_tokens p).
Proof.
  intros [Hb Hc Hk _]. destruct (mapR_spells compile_column_definition column_tokens (pm_columns p)) as (cs & Hcs & Fcs).
  { intros c Hin. by apply spells_column, Hc. }
  destruct (mapR_spells (compile_check SCHEMA_DIALECT BSqlite) check_constraint_tokens (pm_checks p)) as (ks & Hks & Fks).
  { intros c Hin. by apply spells_check_constraint, Hk. }
  unfold table_definitions. rewrite Hb. cbn [sd_compile_column_definition SCHEMA_DIALECT]. rewrite Hcs, Hks.
  eexists. split; [done|]. unfold definition_tokens. repeat apply Forall2_app; [done| | |done].
  - unfold key_tokens, composite_key. destruct (nonempty _); [|done]. constructor; [|done].
    apply (spells_then_word (u "KEY " ++ _) _ "PRIMARY"); [|done]. apply (spells_then_word _ _ "KEY"); [|done].
    apply spells_names.
  - rewrite Forall2_fmap. apply Forall_Forall2_diag, Forall_forall. intros f _. apply spells_foreign_key.
Qed.

(** The tokens of CREATE TABLE. *)
Lemma spells_table p : table_declared p -> exists s,
  compile_create_table_sql SCHEMA_DIALECT p = Ok s /\ spells s (table_tokens p).
Proof.
  intros Hp. destruct (spells_definitions p Hp) as (ss & Hss & HF). unfold compile_create_table_sql. rewrite Hss.
  eexists. split; [done|]. unfold table_tokens. cbn [sd_quote_identifier sd_table_suffix SCHEMA_DIALECT].
  apply (spells_then_word (u "TABLE " ++ _) _ "CREATE"); [|done]. apply (spells_then_word _ _ "TABLE"); [|done].
  apply (spells_app _ [_]); [apply spells_quoted_name| |done]. apply (spells_blank (parenthesized _ ++ _)).
  apply spells_app; [by apply spells_in_parentheses, spells_join| |done]. by apply spells_blank, (spells_word (u "STRICT")).
Qed.

Lemma index_parts_plain i : ni_prefix_lengths i = None ->
  zip_strict (ni_column_names i) (index_prefixes i) = Ok (map (fun n => (n, None)) (ni_column_names i)).
Proof.
  intros Hi. unfold index_prefixes, zip_strict. rewrite Hi, length_map, Nat.eqb_refl. f_equal.
  induction (ni_column_names i) as [|n l IH]; [done|]. simpl. by f_equal.
Qed.

(** The tokens of CREATE INDEX. *)
Lemma spells_index table_name i : index_declared i -> exists s,
  compile_create_index_sql SCHEMA_DIALECT table_name i = Ok s /\ spells s (index_tokens table_name i).
Proof.
  intros [Hl Hw]. unfold compile_create_index_sql. rewrite index_parts_plain by done.
  cbn [sd_quote_identifier SCHEMA_DIALECT mbind res_bind].
  assert (Hwhere : exists s, (match ni_where i with
      | None => Ok [] | Some where_ => e ← render_check (quote_identifier BSqlite) BSqlite where_; Ok (u " WHERE " ++ e)
      end : res utext) = Ok s /\ clean s = true /\ spells s match ni_where i with
      | Some e => word "WHERE" :: expression_tokens BSqlite e | None => [] end).
  { destruct (ni_where i) as [e|]; [|by exists []; repeat split; apply spells_nil].
    destruct (spells_expression BSqlite e Hw) as (s & Hs & Hsp). rewrite Hs. eexists. split_and!; [done..|].
    apply (spells_blank (u "WHERE " ++ _)). by apply (spells_then_word _ _ "WHERE"). }
  destruct Hwhere as (s & -> & Hclean & Hs). eexists. split; [done|]. unfold index_tokens.
  assert (Hparts : map (index_part SCHEMA_DIALECT) (map (fun n => (n, None)) (ni_column_names i))
    = map (quote_identifier BSqlite) (ni_column_names i)).
  { rewrite map_map. apply map_ext. intros n. apply app_nil_r. }
  assert (Hrest : spells (u "INDEX " ++ quote_identifier BSqlite (ni_name i) ++ u " ON "
      ++ quote_identifier BSqlite table_name ++ space
      ++ parenthesized (join_text comma (map (index_part SCHEMA_DIALECT) (map (fun n => (n, None)) (ni_column_names i)))) ++ s)
    (word "INDEX" :: quoted_token (ni_name i) :: word "ON" :: quoted_token table_name
      :: names_tokens (ni_column_names i) ++ match ni_where i with
      | Some e => word "WHERE" :: expression_tokens BSqlite e | None => [] end)).
  { rewrite Hparts. apply (spells_then_word _ _ "INDEX"); [|done]. apply (spells_app _ [_]); [apply spells_quoted_name| |done].
    apply (spells_blank (u "ON " ++ _)), (spells_then_word _ _ "ON"); [|done].
    apply (spells_app _ [_]); [apply spells_quoted_name| |done]. apply (spells_blank (parenthesized _ ++ _)).
    apply spells_app; [apply spells_names|done|done]. }
  destruct (ni_unique i); [|by apply (spells_then_word _ _ "CREATE")].
  apply (spells_then_word (u "UNIQUE " ++ _) _ "CREATE"); [|done]. by apply (spells_then_word _ _ "UNIQUE").
Qed.
