(* ===== verification/SqliteTables.v ===== *)
(** * What is read off a stored CREATE TABLE

    [sqlite/schema.py] and [_check_catalog.py] on the tokens of a table the
    program wrote: its definitions one by one, the collation of every column,
    AUTOINCREMENT and the CHECKs. *)

From S2P Require Export SchemaGroups SqliteReading.

(** ** Balanced parentheses *)

(** [ok] holds of the tokens outside of parentheses. *)
Inductive balanced (ok : token -> Prop) : list token -> Prop :=
  | balanced_nil : balanced ok []
  | balanced_token t ts : t <> opening -> t <> closing -> t <> symbol ";" -> ok t -> balanced ok ts -> balanced ok (t :: ts)
  | balanced_parentheses inside ts : balanced (fun _ => True) inside -> balanced ok ts ->
      balanced ok (in_parentheses inside ++ ts).

Lemma balanced_app ok ts ts' : balanced ok ts -> balanced ok ts' -> balanced ok (ts ++ ts').
Proof.
  intros H H'. induction H as [ok|ok t ts Ho Hc Hs Hok _ IH|ok inside ts Hin _ _ IH]; [done|apply balanced_token; auto|].
  rewrite <- app_assoc. apply balanced_parentheses; auto.
Qed.
Lemma balanced_mono (ok ok' : token -> Prop) ts : (forall t, ok t -> ok' t) -> balanced ok ts -> balanced ok' ts.
Proof.
  intros Hok H. revert ok' Hok. induction H; intros ok' Hok;
    [apply balanced_nil|apply balanced_token; auto|apply balanced_parentheses; auto].
Qed.
Lemma balanced_inside ok ts : balanced (fun _ => True) ts -> balanced ok (in_parentheses ts).
Proof. intros H. rewrite <- (app_nil_r (in_parentheses ts)). apply balanced_parentheses; [done|apply balanced_nil]. Qed.
Lemma balanced_any ok ts : balanced ok ts -> balanced (fun _ => True) ts.
Proof. by apply balanced_mono. Qed.
Lemma balanced_comma tss : Forall (balanced (fun _ => True)) tss -> balanced (fun _ => True) (comma_tokens tss).
Proof.
  intros H. destruct H as [|ts tss Hts H]; [constructor|]. apply balanced_app; [done|].
  induction H as [|ts' tss Hts' _ IH]; [constructor|]. cbn [flat_map app]. apply balanced_token; [done..|]. by apply balanced_app.
Qed.

Section words.
Context `{U : unicode} `{!ascii_laws U}.

(** The words that the readers look for. *)
Definition read_words : list string := ["CHECK"; "COLLATE"; "AUTOINCREMENT"; "CONSTRAINT"]%string.
Definition quiet (t : token) : Prop := t <> symbol "," /\ Forall (fun w => is_word (u w) t = false) read_words.
Definition unchecked (t : token) : Prop := t <> symbol "," /\ is_word (u "CHECK") t = false.

Lemma quiet_unchecked t : quiet t -> unchecked t.
Proof using Type. intros [Ht Hw]. split; [done|]. by inversion Hw. Qed.

Lemma is_word_ascii w s : ascii_only (u s) = true -> is_word w (word s) = bool_decide (ascii_upper (u s) = w).
Proof using All. intros Hs. unfold is_word. cbn [tk_kind tk_text word]. by rewrite upper_ascii. Qed.

Lemma is_word_other w t : tk_kind t <> KWord -> is_word w t = false.
Proof using Type. intros Ht. unfold is_word. by rewrite bool_decide_eq_false_2. Qed.

Lemma quiet_other t : tk_kind t <> KWord -> t <> symbol "," -> quiet t.
Proof using Type. intros Hk Ht. split; [done|]. by repeat constructor; apply is_word_other. Qed.

Lemma quiet_word s : ascii_only (u s) && forallb (fun w => negb (bool_decide (ascii_upper (u s) = u w))) read_words = true ->
  quiet (word s).
Proof using All.
  intros [Hs Hw]%andb_true_iff. split; [done|]. apply Forall_forall. intros w Hin. rewrite is_word_ascii by done.
  rewrite forallb_forall in Hw. by apply negb_true_iff, Hw, list_elem_of_In.
Qed.

(** Balance token by token. *)
Ltac calm := repeat first
  [ done | apply balanced_nil | apply balanced_inside | apply balanced_parentheses | apply balanced_app
  | apply balanced_token; [done|done|done|first [exact I|by apply quiet_word|by apply quiet_other]|] ].

(** *** The pieces of a definition *)

Lemma operand_balanced ok b e : (forall t, quiet t -> ok t) -> balanced ok (operand_tokens b e).
Proof using All.
  intros Hok. apply (balanced_mono quiet); [done|]. clear Hok.
  destruct e as [o args v]. destruct o, v as [|n|s]; cbn [operand_tokens]; try apply balanced_nil; try by calm.
  - unfold int_tokens. destruct (n <? 0)%Z; calm.
  - destruct b; cbn [text_tokens]; [case_bool_decide; [|by calm]|].
    + apply balanced_token; [done|done|done|by apply quiet_word|].
      apply (balanced_parentheses _ [word "X"; _; word "AS"; word "TEXT"] []); calm.
    + apply balanced_token; [done|done|done|by apply quiet_word|].
      apply (balanced_parentheses _ [word "X"; _; word "USING"; word "utf8mb4"] []); calm.
Qed.

Lemma operands_balanced b es : balanced (fun _ => True) (comma_tokens (map (operand_tokens b) es)).
Proof using All.
  apply balanced_comma, Forall_map, Forall_forall. intros e _. by apply operand_balanced.
Qed.

Lemma expression_balanced b e : balanced (fun _ => True) (expression_tokens b e).
Proof using All.
  induction e as [o args v IH] using check_expression_induction. rewrite Forall_forall in IH.
  assert (Hop : forall e, balanced (fun _ => True) (operand_tokens b e)) by (intros; by apply operand_balanced).
  pose proof (operands_balanced b) as Hops.
  destruct args as [|x [|y [|z [|]]]]; destruct o; cbn [expression_tokens]; calm;
    first [apply Hop|apply Hops|apply IH; set_solver|apply (Hops (_ :: _))|apply (Hops [])].
Qed.

(** *** The readers skip balanced tokens *)

Lemma ddl_tokens_cons t ts : ddl_tokens (t :: ts) = ddl_token t ++ ddl_tokens ts.
Proof using Type. done. Qed.
Lemma ddl_tokens_app ts ts' : ddl_tokens (ts ++ ts') = ddl_tokens ts ++ ddl_tokens ts'.
Proof using Type. apply flat_map_app. Qed.
Lemma ddl_parentheses ts : ddl_tokens (in_parentheses ts) =
  SqliteToken SSymbol (u "(") :: ddl_tokens ts ++ [SqliteToken SSymbol (u ")")].
Proof using Type. unfold in_parentheses. by rewrite ddl_tokens_cons, ddl_tokens_app. Qed.

(** A token that is no parenthesis is dropped or kept as no parenthesis. *)
Lemma ddl_token_plain t : t <> opening -> t <> closing -> ddl_token t = [] \/
  exists t', ddl_token t = [t'] /\ opens t' = false /\ closes t' = false /\
    (t' = SqliteToken SSymbol (u ",") -> t = symbol ",") /\
    (st_kind t' = SWord -> tk_kind t = KWord /\ st_text t' = tk_text t).
Proof using Type.
  intros Ho Hc. destruct t as [k s]. unfold ddl_token, opens, closes. cbn [tk_kind tk_text].
  destruct k; [right; eexists; split_and!; [done|by apply bool_decide_eq_false_2..|done|done]..|by left|].
  case_bool_decide as Hs; [|by left]. right. eexists. split_and!; [done| | | |done].
  - apply bool_decide_eq_false_2. intros Ht. apply Ho. unfold opening. f_equal. by apply (f_equal st_text) in Ht.
  - apply bool_decide_eq_false_2. intros Ht. apply Hc. unfold closing. f_equal. by apply (f_equal st_text) in Ht.
  - intros Ht. unfold symbol. f_equal. by apply (f_equal st_text) in Ht.
Qed.

Lemma definitions_balanced ok ts : balanced ok ts -> forall depth current rest,
  (depth = 0 -> forall t, ok t -> t <> symbol ",") ->
  definitions_from depth current (ddl_tokens ts ++ rest) = definitions_from depth (current ++ ddl_tokens ts) rest.
Proof using Type.
  induction 1 as [ok|ok t ts Ho Hc Hs Hok _ IH|ok inside ts _ IHin _ IH]; intros depth current rest Hd.
  - by rewrite app_nil_r.
  - rewrite ddl_tokens_cons. destruct (ddl_token_plain t Ho Hc) as [-> | (t' & -> & Ho' & Hc' & Hcomma & _)]; [by apply IH|].
    cbn [app definitions_from]. rewrite Ho', Hc'.
    assert (bool_decide (t' = SqliteToken SSymbol (u ",")) && (depth =? 0) = false) as ->.
    { apply andb_false_iff. destruct (Nat.eqb_spec depth 0) as [Hz|]; [left|by right].
      apply bool_decide_eq_false_2. intros Ht. by apply (Hd Hz t Hok), Hcomma. }
    rewrite IH by done. by rewrite <- app_assoc.
  - rewrite ddl_tokens_app, ddl_parentheses. rewrite <- !app_assoc. cbn [app]. rewrite <- !app_assoc. cbn [app].
    cbn [definitions_from]. change (opens (SqliteToken SSymbol (u "("))) with true. cbn iota.
    rewrite IHin by done. cbn [definitions_from]. change (opens (SqliteToken SSymbol (u ")"))) with false.
    change (closes (SqliteToken SSymbol (u ")"))) with true. cbn iota. rewrite IH by done.
    by rewrite <- !app_assoc.
Qed.

Lemma definitions_read tss rest : Forall (fun ts => balanced (fun t => t <> symbol ",") ts /\ ddl_tokens ts <> []) tss ->
  definitions_from 0 [] (ddl_tokens (comma_tokens tss) ++ SqliteToken SSymbol (u ")") :: rest)
  = map ddl_tokens tss.
Proof using Type.
  destruct tss as [|ts tss]; [done|]. intros H. inversion_clear H as [|? ? [Hb Hne] Hts].
  cbn [comma_tokens]. rewrite ddl_tokens_app, <- app_assoc. rewrite definitions_balanced with (1 := Hb) by auto.
  cbn [app]. cbn [map]. revert ts Hb Hne. induction Hts as [|ts' tss [Hb' Hne'] _ IH]; intros ts Hb Hne.
  - cbn [flat_map]. change (ddl_tokens []) with (@nil sqlite_token). cbn [app definitions_from]. change (opens (SqliteToken SSymbol (u ")"))) with false.
    change (closes (SqliteToken SSymbol (u ")"))) with true. cbn iota. by destruct (ddl_tokens ts).
  - cbn [flat_map app]. rewrite ddl_tokens_cons.
    change (ddl_token (symbol ",")) with [SqliteToken SSymbol (u ",")]. cbn [app definitions_from].
    change (opens (SqliteToken SSymbol (u ","))) with false. change (closes (SqliteToken SSymbol (u ","))) with false.
    rewrite bool_decide_eq_true_2 by done. cbn. rewrite ddl_tokens_app, <- app_assoc.
    rewrite definitions_balanced with (1 := Hb') by auto. cbn [app]. by rewrite IH.
Qed.

Lemma collation_balanced ok ts : balanced ok ts -> forall collation depth rest, (0 <= depth)%Z ->
  (depth = 0%Z -> forall t, ok t -> is_word (u "COLLATE") t = false) ->
  last_collation collation depth (ddl_tokens ts ++ rest) = last_collation collation depth rest.
Proof using Type.
  induction 1 as [ok|ok t ts Ho Hc Hs Hok _ IH|ok inside ts _ IHin _ IH]; intros collation depth rest Hz Hd; [done| |].
  - rewrite ddl_tokens_cons. destruct (ddl_token_plain t Ho Hc) as [-> | (t' & -> & Ho' & Hc' & _ & Hword)]; [by apply IH|].
    cbn [app last_collation]. rewrite Ho', Hc'.
    assert ((depth =? 0)%Z && keyword "COLLATE" t' = false) as ->; [|by apply IH].
    apply andb_false_iff. destruct (Z.eqb_spec depth 0) as [H0|]; [right|by left]. specialize (Hd H0 t Hok).
    unfold keyword. apply andb_false_iff. destruct (decide (st_kind t' = SWord)) as [Hk|]; [right|left; by apply bool_decide_eq_false_2].
    destruct (Hword Hk) as [Hk' ->]. unfold is_word in Hd. rewrite bool_decide_eq_true_2 in Hd by done. done.
  - rewrite ddl_tokens_app, ddl_parentheses. rewrite <- !app_assoc. cbn [app]. rewrite <- !app_assoc. cbn [app].
    cbn [last_collation]. change (opens (SqliteToken SSymbol (u "("))) with true. cbn iota.
    rewrite IHin by lia. cbn [last_collation]. change (opens (SqliteToken SSymbol (u ")"))) with false.
    change (closes (SqliteToken SSymbol (u ")"))) with true. cbn iota.
    replace (depth + 1 - 1)%Z with depth by lia. by apply IH.
Qed.

(** The words of balanced tokens outside of parentheses. *)
Lemma words_balanced w ok ts : balanced ok ts -> forall depth rest, (0 <= depth)%Z ->
  (depth = 0%Z -> forall t, ok t -> is_word w t = false) ->
  w ∈ top_level_words depth (ddl_tokens ts ++ rest) -> w ∈ top_level_words depth rest.
Proof using Type.
  induction 1 as [ok|ok t ts Ho Hc Hs Hok _ IH|ok inside ts _ IHin _ IH]; intros depth rest Hz Hd; [done| |].
  - rewrite ddl_tokens_cons. destruct (ddl_token_plain t Ho Hc) as [-> | (t' & -> & Ho' & Hc' & _ & Hword)]; [by apply IH|].
    cbn [app top_level_words]. rewrite Ho', Hc'.
    destruct ((depth =? 0)%Z && bool_decide (st_kind t' = SWord)) eqn:Hw; [|by apply IH].
    apply andb_true_iff in Hw as [H0%Z.eqb_eq Hk%bool_decide_eq_true]. specialize (Hd H0 t Hok) as Hn.
    destruct (Hword Hk) as [Hk' ->]. unfold is_word in Hn. rewrite bool_decide_eq_true_2 in Hn by done.
    apply bool_decide_eq_false in Hn. rewrite elem_of_cons. intros [->|H]; [done|]. by apply IH.
  - rewrite ddl_tokens_app, ddl_parentheses. rewrite <- !app_assoc. cbn [app]. rewrite <- !app_assoc. cbn [app].
    cbn [top_level_words]. change (opens (SqliteToken SSymbol (u "("))) with true. cbn iota. intros H.
    apply IHin in H; [|lia|lia]. cbn [top_level_words] in H. change (opens (SqliteToken SSymbol (u ")"))) with false in H.
    change (closes (SqliteToken SSymbol (u ")"))) with true in H. cbn iota in H.
    replace (depth + 1 - 1)%Z with depth in H by lia. by apply IH.
Qed.

Lemma enclosed_balanced ok ts : balanced ok ts -> forall nested rest,
  enclosed (S nested) (ts ++ rest) = app ts <$> enclosed (S nested) rest.
Proof using Type.
  induction 1 as [ok|ok t ts Ho Hc Hs Hok _ IH|ok inside ts _ IHin _ IH]; intros nested rest.
  - simpl. by destruct (enclosed _ rest).
  - cbn [app enclosed]. rewrite !bool_decide_eq_false_2 by done. rewrite IH. by destruct (enclosed _ rest).
  - unfold in_parentheses. cbn [app]. rewrite <- !app_assoc. cbn [app enclosed].
    rewrite bool_decide_eq_true_2 by done. rewrite IHin. cbn [enclosed].
    rewrite bool_decide_eq_false_2, bool_decide_eq_true_2 by done. rewrite IH.
    destruct (enclosed _ rest); simpl; [|done]. rewrite <- app_assoc. done.
Qed.

Lemma checks_balanced ok ts : balanced ok ts -> forall before depth rest, (0 < depth)%Z ->
  (depth = 1%Z -> forall t, ok t -> is_word (u "CHECK") t = false) ->
  sqlite_checks_from 0 before depth (ts ++ rest) = sqlite_checks_from 0 (rev ts ++ before) depth rest.
Proof using Type.
  induction 1 as [ok|ok t ts Ho Hc Hs Hok _ IH|ok inside ts _ IHin _ IH]; intros before depth rest Hz Hd; [done| |].
  - cbn [app sqlite_checks_from]. rewrite !bool_decide_eq_false_2 by done.
    assert ((depth =? 1)%Z && is_word (u "CHECK") t = false) as ->.
    { apply andb_false_iff. destruct (Z.eqb_spec depth 1) as [H1|]; [right|by left]. by apply (Hd H1). }
    rewrite IH by done. cbn [rev]. by rewrite <- app_assoc.
  - unfold in_parentheses. cbn [app]. rewrite <- !app_assoc. cbn [app sqlite_checks_from].
    rewrite bool_decide_eq_true_2 by done. rewrite IHin by lia. cbn [sqlite_checks_from].
    rewrite bool_decide_eq_false_2, bool_decide_eq_true_2 by done.
    replace (depth + 1 - 1)%Z with depth by lia. rewrite IH by done. f_equal.
    cbn [rev]. rewrite rev_app_distr. cbn [rev]. by rewrite <- !app_assoc.
Qed.


(** ** The definitions of a table *)

Lemma names_balanced ok names : balanced ok (names_tokens names).
Proof using Type.
  apply balanced_inside, balanced_comma, Forall_map, Forall_forall. intros n _. by repeat constructor.
Qed.

Lemma default_balanced p : column_declared p -> balanced quiet (default_tokens (pc_column p)).
Proof using All.
  intros _. unfold default_tokens. destruct (co_server_default _) as [[|v]|]; [| |calm].
  - apply balanced_token; [done|done|done|by apply quiet_word|]. apply balanced_inside.
    apply balanced_token; [done..|]. apply (balanced_parentheses _ [_; _; _] [_; _; _]); by repeat constructor.
  - apply balanced_token; [done|done|done|by apply quiet_word|].
    assert (Hb : forall ok, (forall t, quiet t -> ok t) -> balanced ok (bare_tokens BSqlite v)).
    { intros ok Hok. destruct v as [|n|s]; [|by apply operand_balanced..].
      apply balanced_token; [done|done|done|by apply Hok, quiet_word|calm]. }
    destruct (wrapped v); [by apply balanced_inside, Hb|by apply Hb].
Qed.

(** What a column definition has between its collation and its default. *)
Definition key_words (p : planned_column) : list token :=
  (if co_primary_key (pc_column p) && negb (pc_composite_pk p) then [word "PRIMARY"; word "KEY"] else [])
  ++ (if co_auto_increment (pc_column p) then [word "AUTOINCREMENT"] else []).
Definition null_tokens (p : planned_column) : list token :=
  (if requires_not_null p then [word "NOT"; word "NULL"] else []) ++ default_tokens (pc_column p).
Lemma column_tokens_parts p : column_tokens p =
  quoted_token (pc_name p) :: Token KWord (storage_class_text (co_storage_class (pc_column p)))
  :: collation_tokens (pc_column p) ++ key_words p ++ null_tokens p.
Proof using Type. unfold column_tokens, key_words, null_tokens. by rewrite <- !app_assoc. Qed.

Definition not_word (w : string) (t : token) : Prop := t <> symbol "," /\ is_word (u w) t = false.
Lemma quiet_not_word w t : w ∈ read_words -> quiet t -> not_word w t.
Proof using Type. intros Hw [Ht H]. split; [done|]. rewrite Forall_forall in H. by apply H. Qed.

Lemma null_balanced p : column_declared p -> balanced quiet (null_tokens p).
Proof using All.
  intros Hp. apply balanced_app; [|by apply default_balanced]. destruct (requires_not_null p); calm.
Qed.

Lemma not_word_here w s : ascii_only (u s) && negb (bool_decide (ascii_upper (u s) = u w)) = true -> not_word w (word s).
Proof using All. intros [Hs Hw%negb_true_iff]%andb_true_iff. split; [done|]. by rewrite is_word_ascii. Qed.

Lemma class_word c : Token KWord (storage_class_text c) = word (match c with
  | INTEGER => "INTEGER" | REAL => "REAL" | TEXT => "TEXT" | BLOB => "BLOB" end).
Proof using Type. by destruct c. Qed.

(** The collation that is written is one of the built-in ones. *)
Lemma declared_collation p : column_declared p -> collation_tokens (pc_column p) = [] /\ effective_collation (pc_column p) = u "BINARY"
  \/ exists n, n ∈ ["NOCASE"; "RTRIM"]%string /\ collation_tokens (pc_column p) = [word "COLLATE"; word n]
      /\ effective_collation (pc_column p) = u n.
Proof using Type.
  intros (Hc & _ & _). unfold collation_tokens, effective_collation. destruct (co_text_collation _) as [n|]; [|by left].
  apply list_elem_of_In in Hc. cbn [map In] in Hc. destruct Hc as [<- |[<- |[<- |[]]]]; [by left|right..].
  - exists "NOCASE"%string. split_and!; [left|done|done].
  - exists "RTRIM"%string. split_and!; [right; left|done|done].
Qed.

Lemma elem_of_two {A} (x a b : A) : x ∈ [a; b] <-> x = a \/ x = b.
Proof using Type. by rewrite elem_of_cons, list_elem_of_singleton. Qed.

Ltac calmly := repeat first
  [ done | apply balanced_nil | apply balanced_app
  | apply balanced_token; [done|done|done|first [by apply not_word_here|by apply quiet_not_word; [set_solver|apply quiet_other]]|] ].

Lemma column_balanced w p : column_declared p -> w = "CHECK"%string \/ w = "AUTOINCREMENT"%string /\ co_auto_increment (pc_column p) = false ->
  balanced (not_word w) (column_tokens p).
Proof using All.
  intros Hp Hw. rewrite column_tokens_parts, class_word.
  assert (Hn : balanced (not_word w) (null_tokens p)).
  { apply (balanced_mono quiet); [|by apply null_balanced]. intros t. apply quiet_not_word. destruct Hw as [-> |[-> _]]; set_solver. }
  assert (Hk : balanced (not_word w) (key_words p)).
  { unfold key_words. destruct Hw as [-> |[-> ->]]; [destruct (_ && _), (co_auto_increment _)|destruct (_ && _)]; calmly. }
  assert (Hc : balanced (not_word w) (collation_tokens (pc_column p))).
  { destruct (declared_collation p Hp) as [[-> _]|(n & Hin & -> & _)]; [by calmly|].
    apply elem_of_two in Hin. destruct Hw as [-> |[-> _]], Hin as [-> | ->]; calmly. }
  destruct Hw as [-> |[-> _]]; destruct (co_storage_class _); calmly.
Qed.

Lemma action_balanced w clause a : w ∈ ["CHECK"; "AUTOINCREMENT"]%string -> clause ∈ ["DELETE"; "UPDATE"]%string ->
  balanced (not_word w) (action_clause_tokens clause a).
Proof using All.
  rewrite !elem_of_two. intros [-> | ->] [-> | ->]; destruct a as [[]|]; calmly.
Qed.

Lemma foreign_key_balanced w f : w ∈ ["CHECK"; "AUTOINCREMENT"]%string -> balanced (not_word w) (foreign_key_tokens f).
Proof using All.
  intros Hw. pose proof (action_balanced w "DELETE" (pf_on_delete f) Hw ltac:(set_solver)) as Hd.
  pose proof (action_balanced w "UPDATE" (pf_on_update f) Hw ltac:(set_solver)) as Hu.
  pose proof (fun names => names_balanced (not_word w) names) as Hn.
  unfold foreign_key_tokens. apply elem_of_two in Hw. destruct Hw as [-> | ->]; calmly.
Qed.

Lemma key_balanced w p ts : w ∈ ["CHECK"; "AUTOINCREMENT"]%string -> ts ∈ key_tokens p -> balanced (not_word w) ts.
Proof using All.
  intros Hw. pose proof (fun names => names_balanced (not_word w) names) as Hn. unfold key_tokens.
  destruct (nonempty _); [|set_solver]. intros ->%list_elem_of_singleton. apply elem_of_two in Hw. destruct Hw as [-> | ->]; calmly.
Qed.

Lemma check_balanced c : balanced (not_word "AUTOINCREMENT") (check_constraint_tokens c).
Proof using All. unfold check_constraint_tokens. calmly. apply balanced_inside, expression_balanced. Qed.

(** ** Reading the text of a table *)

Lemma spelled_ddl s ts : spells s ts -> sqlite_tokens s = ddl_tokens ts.
Proof using All.
  intros H. specialize (H _ _ _ sqlite_tokens_laws [] eq_refl). by rewrite !app_nil_r in H.
Qed.

Lemma not_word_comma w t : not_word w t -> t <> symbol ",".
Proof using Type. by intros [? _]. Qed.

Lemma definitions_balanced_all p : table_declared p ->
  Forall (fun ts => balanced (fun t => t <> symbol ",") ts /\ ddl_tokens ts <> []) (definition_tokens p).
Proof using All.
  intros [_ Hc _ _]. unfold definition_tokens. rewrite !Forall_app, !Forall_map.
  assert (Hm : forall w ts, balanced (not_word w) ts -> balanced (fun t => t <> symbol ",") ts)
    by (intros w ts; apply balanced_mono, not_word_comma).
  split_and!; apply Forall_forall.
  - intros c Hin. split; [|done]. apply (Hm "CHECK"%string), column_balanced; [by apply Hc|by left].
  - intros ts Hin. split; [apply (Hm "CHECK"%string), (key_balanced _ p); [set_solver|done]|].
    unfold key_tokens in Hin. destruct (nonempty _); [|set_solver]. by apply list_elem_of_singleton in Hin as ->.
  - intros f _. split; [|done]. apply (Hm "CHECK"%string), foreign_key_balanced. set_solver.
  - intros c _. split; [|done]. apply (Hm "AUTOINCREMENT"%string), check_balanced.
Qed.

(** The definitions of a table the program wrote, in their order. *)
Lemma table_definitions_read p sql : table_declared p -> compile_create_table_sql SCHEMA_DIALECT p = Ok sql ->
  sqlite_column_definitions sql = map ddl_tokens (definition_tokens p).
Proof using All.
  intros Hp Hsql. destruct (spells_table p Hp) as (s & Hs & Hsp). rewrite Hsql in Hs. apply Ok_inj in Hs as <-.
  unfold sqlite_column_definitions. rewrite (spelled_ddl _ _ Hsp). unfold table_tokens.
  rewrite !ddl_tokens_cons, ddl_tokens_app, ddl_parentheses.
  change (ddl_token (word "CREATE")) with [SqliteToken SWord (u "CREATE")].
  change (ddl_token (word "TABLE")) with [SqliteToken SWord (u "TABLE")].
  change (ddl_token (quoted_token (pm_table_name p))) with [SqliteToken SIdentifier (pm_table_name p)].
  cbn [app after_opening]. rewrite <- app_assoc. cbn [app].
  apply (definitions_read (definition_tokens p)). by apply definitions_balanced_all.
Qed.

(** *** Collations *)

Lemma keyword_ascii w s : ascii_only (u s) = true ->
  keyword w (SqliteToken SWord (u s)) = bool_decide (ascii_upper (u s) = u w).
Proof using All. intros Hs. unfold keyword. cbn [st_kind st_text]. by rewrite upper_ascii. Qed.

Lemma column_collation p : column_declared p -> sqlite_definition_collation (ddl_tokens (column_tokens p))
  = Some (py_casefold (pc_name p), effective_collation (pc_column p)).
Proof using All.
  intros Hp. rewrite column_tokens_parts, !ddl_tokens_cons, ddl_tokens_app.
  change (ddl_token (quoted_token (pc_name p))) with [SqliteToken SIdentifier (pc_name p)].
  cbn [app sqlite_definition_collation st_text]. f_equal. f_equal.
  assert (Hrest : forall collation, last_collation collation 0 (ddl_tokens (key_words p ++ null_tokens p)) = collation).
  { intros collation. rewrite <- (app_nil_r (ddl_tokens _)).
    rewrite (collation_balanced (not_word "COLLATE")); [done| |done|by intros _ t [_ ?]].
    apply balanced_app; [|apply (balanced_mono quiet), null_balanced; [|done]; intros t; apply quiet_not_word; right; left].
    unfold key_words. destruct (_ && _), (co_auto_increment _); calmly. }
  assert (Hclass : forall collation ts, last_collation collation 0
    (ddl_token (Token KWord (storage_class_text (co_storage_class (pc_column p)))) ++ ts) = last_collation collation 0 ts).
  { intros collation ts. rewrite class_word. cbn [word ddl_token tk_kind tk_text app last_collation].
    unfold opens, closes. rewrite !bool_decide_eq_false_2 by done. by destruct (co_storage_class _); rewrite keyword_ascii. }
  rewrite Hclass. destruct (declared_collation p Hp) as [[-> ->]|(n & Hn & -> & ->)]; [apply Hrest|].
  apply elem_of_two in Hn. rewrite !ddl_tokens_cons. destruct Hn as [-> | ->].
  all: cbn [word ddl_token tk_kind tk_text app last_collation ddl_tokens flat_map].
  all: unfold opens, closes; rewrite !bool_decide_eq_false_2 by done; rewrite !keyword_ascii by done.
  all: rewrite bool_decide_eq_true_2, bool_decide_eq_false_2 by done; cbn [Z.eqb andb negb named_token st_kind st_text].
  all: rewrite upper_ascii by done; apply Hrest.
Qed.

Lemma foldl_entries {A V} (f : A -> option (utext * V)) l : forall d,
  foldl (fun d x => match f x with Some (k, v) => dict_set k v d | None => d end) d l
  = foldl (fun d e => dict_set e.1 e.2 d) d (omap f l).
Proof using Type.
  induction l as [|x l IH]; intros d; [done|]. cbn [foldl omap list_omap]. rewrite IH.
  by destruct (f x) as [[k v]|].
Qed.

Lemma omap_map_some {A B C} (f : B -> option C) (g : A -> B) (h : A -> C) l : (forall x, x ∈ l -> f (g x) = Some (h x)) ->
  omap f (map g l) = map h l.
Proof using Type.
  induction l as [|x l IH]; intros H; [done|]. cbn [map omap list_omap]. rewrite H by left.
  f_equal. apply IH. intros y Hy. apply H. by right.
Qed.
Lemma omap_none {B C} (f : B -> option C) l : (forall x, x ∈ l -> f x = None) -> omap f l = [].
Proof using Type.
  induction l as [|x l IH]; intros H; [done|]. cbn [omap list_omap]. rewrite H by left.
  apply IH. intros y Hy. apply H. by right.
Qed.

Lemma first_keyword w ts : ascii_only (u w) && bool_decide (ascii_upper (u w) = u w) = true ->
  w ∈ ["CHECK"; "CONSTRAINT"; "FOREIGN"; "PRIMARY"; "UNIQUE"]%string ->
  sqlite_definition_collation (ddl_tokens (word w :: ts)) = None.
Proof using All.
  intros [Ha Hu%bool_decide_eq_true]%andb_true_iff Hw. rewrite ddl_tokens_cons. cbn [word ddl_token tk_kind tk_text app].
  unfold sqlite_definition_collation. rewrite (proj2 (existsb_exists _ _)); [done|]. exists w.
  split; [by apply list_elem_of_In|]. rewrite keyword_ascii by done. by apply bool_decide_eq_true_2.
Qed.

(** The collation of every column is found under its name. *)
Lemma table_collations p sql c : table_declared p -> compile_create_table_sql SCHEMA_DIALECT p = Ok sql ->
  NoDup (map (fun c => py_casefold (pc_name c)) (pm_columns p)) -> c ∈ pm_columns p ->
  dict_get (py_casefold (pc_name c)) (sqlite_column_collations (Some sql)) = Some (effective_collation (pc_column c)).
Proof using All.
  intros Hp Hsql Hnd Hc. unfold sqlite_column_collations. rewrite (table_definitions_read p) by done.
  rewrite foldl_entries. unfold definition_tokens. rewrite !map_app, !omap_app, map_map.
  rewrite (omap_map_some sqlite_definition_collation (fun c => ddl_tokens (column_tokens c))
    (fun c => (py_casefold (pc_name c), effective_collation (pc_column c)))).
  2:{ intros x Hx. by apply column_collation, (td_columns p). }
  rewrite (omap_none _ (map ddl_tokens (key_tokens p))), (omap_none _ (map ddl_tokens (map foreign_key_tokens _))),
    (omap_none _ (map ddl_tokens (map check_constraint_tokens _))).
  - rewrite !app_nil_r. rewrite dict_of_entries_from by (by rewrite map_map).
    assert (Hin : (py_casefold (pc_name c), effective_collation (pc_column c)) ∈
      map (fun c => (py_casefold (pc_name c), effective_collation (pc_column c))) (pm_columns p))
      by (apply list_elem_of_fmap; eauto).
    apply dict_get_elem in Hin; [by rewrite Hin|by rewrite map_map].
  - intros x. rewrite map_map, list_elem_of_fmap. intros (k & -> & _). apply first_keyword; [done|set_solver].
  - intros x. rewrite map_map, list_elem_of_fmap. intros (f & -> & _). apply first_keyword; [done|set_solver].
  - intros x. unfold key_tokens. destruct (nonempty _); [|set_solver]. intros ->%list_elem_of_singleton.
    apply first_keyword; [done|set_solver].
Qed.

(** *** AUTOINCREMENT *)

Lemma after_word_within w ws ws' : after_word w ws = Some ws' -> u w ∈ ws /\ (forall x, x ∈ ws' -> x ∈ ws).
Proof using Type.
  induction ws as [|x ws IH]; [done|]. cbn [after_word]. case_bool_decide as Hx.
  - intros [= <-]. subst. split; [left|]. intros y Hy. by right.
  - intros H. destruct (IH H) as [H1 H2]. split; [by right|]. intros y Hy. right. by apply H2.
Qed.

Lemma no_autoincrement ts : balanced (not_word "AUTOINCREMENT") ts -> definition_autoincrements (ddl_tokens ts) = false.
Proof using Type.
  intros Hb. unfold definition_autoincrements. apply bool_decide_eq_false_2. intros [w Hw].
  apply bind_Some in Hw as (ws & Hws & Hw). apply bind_Some in Hw as (ws' & Hws' & Hw).
  apply after_word_within in Hw as [Hin _]. apply after_word_within in Hws' as [_ H1]. apply after_word_within in Hws as [_ H2].
  apply H1, H2 in Hin. unfold sqlite_top_level_words in Hin. rewrite <- (app_nil_r (ddl_tokens ts)) in Hin.
  apply (words_balanced _ _ _ Hb) in Hin; [by apply not_elem_of_nil in Hin|done|by intros _ t [_ ?]].
Qed.

Lemma word_words s ts : ascii_only (u s) = true ->
  top_level_words 0 (ddl_token (word s) ++ ts) = ascii_upper (u s) :: top_level_words 0 ts.
Proof using All.
  intros Hs. cbn [word ddl_token tk_kind tk_text app top_level_words]. unfold opens, closes.
  rewrite !bool_decide_eq_false_2 by done. cbn [st_text]. by rewrite upper_ascii.
Qed.

Lemma column_autoincrements p : column_declared p ->
  definition_autoincrements (ddl_tokens (column_tokens p)) = co_auto_increment (pc_column p).
Proof using All.
  intros Hp. destruct (co_auto_increment (pc_column p)) eqn:Ha.
  2:{ apply no_autoincrement, column_balanced; [done|by right]. }
  assert (Hpk : key_words p = [word "PRIMARY"; word "KEY"; word "AUTOINCREMENT"]).
  { destruct Hp as (_ & _ & Hk). destruct (Hk Ha) as [H1 H2]. unfold key_words. by rewrite H1, H2, Ha. }
  rewrite column_tokens_parts, Hpk, class_word. unfold definition_autoincrements, sqlite_top_level_words.
  set (rest := null_tokens p). apply bool_decide_eq_true_2. exists (top_level_words 0 (ddl_tokens rest)).
  assert (Hquoted : forall ts, top_level_words 0 (ddl_tokens (quoted_token (pc_name p) :: ts)) = top_level_words 0 (ddl_tokens ts))
    by done.
  rewrite Hquoted, ddl_tokens_cons, ddl_tokens_app.
  destruct (declared_collation p Hp) as [[-> _]|(n & Hn%elem_of_two & -> & _)]; [|destruct Hn as [-> | ->]];
    cbn [app]; rewrite !ddl_tokens_cons; change (ddl_tokens []) with (@nil sqlite_token); rewrite ?app_nil_r, <- ?app_assoc;
    cbn [app]; destruct (co_storage_class _); rewrite !word_words by done; reflexivity.
Qed.

(** AUTOINCREMENT is in the text exactly when a column has it. *)
Lemma table_autoincrement p sql : table_declared p -> compile_create_table_sql SCHEMA_DIALECT p = Ok sql ->
  table_uses_autoincrement (Some sql) = existsb (fun c => co_auto_increment (pc_column c)) (pm_columns p).
Proof using All.
  intros Hp Hsql. unfold table_uses_autoincrement. rewrite (table_definitions_read p) by done.
  unfold definition_tokens. rewrite !map_app, !existsb_app.
  assert (Hnone : forall l, (forall ts, ts ∈ l -> balanced (not_word "AUTOINCREMENT") ts) ->
    existsb definition_autoincrements (map ddl_tokens l) = false).
  { intros l Hl. induction l as [|ts l IH]; [done|]. cbn [map existsb]. rewrite no_autoincrement by (apply Hl; left).
    apply IH. intros ts' Hts'. apply Hl. by right. }
  rewrite (Hnone (key_tokens p)), (Hnone (map foreign_key_tokens _)), (Hnone (map check_constraint_tokens _)), !orb_false_r.
  - pose proof (td_columns p Hp) as Hcs. induction (pm_columns p) as [|c cs IH]; [done|]. cbn [map existsb].
    rewrite column_autoincrements by (apply Hcs; left). f_equal. apply IH. intros c' Hc'. apply Hcs. by right.
  - intros ts (c & -> & _)%list_elem_of_fmap. apply check_balanced.
  - intros ts (f & -> & _)%list_elem_of_fmap. apply foreign_key_balanced. set_solver.
  - intros ts Hts. by apply (key_balanced _ p); [set_solver|].
Qed.


(** *** CHECKs *)

(** The definition [ts] adds the checks [cs]. *)
Definition reads_checks (ts : list token) (cs : list check_shape) : Prop := forall before rest,
  sqlite_checks_from 0 before 1 (ts ++ rest) =
  (found ← sqlite_checks_from 0 (rev ts ++ before) 1 rest; Ok (option_map (app cs) found)).

Lemma option_map_nil {A} (r : res (option (list A))) : (found ← r; Ok (option_map (app []) found)) = r.
Proof using Type. by destruct r as [[|]|]. Qed.

Lemma reads_no_checks ts : balanced (not_word "CHECK") ts -> reads_checks ts [].
Proof using Type.
  intros H before rest. rewrite (checks_balanced _ _ H) by (done || by intros _ t [_ ?]). by rewrite option_map_nil.
Qed.

Lemma sqlite_checks_skip l : forall before depth rest,
  sqlite_checks_from (length l) before depth (l ++ rest) = sqlite_checks_from 0 (rev l ++ before) depth rest.
Proof using Type.
  induction l as [|t l IH]; intros before depth rest; [done|]. cbn [length app sqlite_checks_from rev].
  rewrite IH. by rewrite <- app_assoc.
Qed.

Lemma parse_expression b e : declarable e = true -> parse false (expression_tokens b e) = Ok e.
Proof using All.
  intros He. apply parse_derives. rewrite <- (app_nil_r (expression_tokens b e)).
  apply derive_expression; [done|by left].
Qed.

Lemma reads_check_constraint c : check_declared c ->
  reads_checks (check_constraint_tokens c) [CheckShape (Some (bc_name c)) (Some (bc_expression c))].
Proof using All.
  intros Hc before rest. unfold check_constraint_tokens. set (body := expression_tokens BSqlite (bc_expression c)).
  assert (Hw : forall w s, ascii_only (u s) = true -> is_word (u w) (word s) = bool_decide (ascii_upper (u s) = u w))
    by (intros; by rewrite is_word_ascii).
  cbn [app sqlite_checks_from]. rewrite !bool_decide_eq_false_2 by done.
  rewrite (Hw "CHECK" "CONSTRAINT")%string, (Hw "CHECK" "CHECK")%string, (Hw "CONSTRAINT" "CONSTRAINT")%string by done.
  rewrite is_word_other by done. rewrite (bool_decide_eq_false_2 (ascii_upper (u "CONSTRAINT") = u "CHECK")) by done.
  rewrite !bool_decide_eq_true_2 by done. cbn [Z.eqb andb Pos.eqb].
  unfold in_parentheses. cbn [app]. rewrite <- app_assoc. cbn [app].
  rewrite (bool_decide_eq_true_2 (opening = opening)) by done.
  rewrite (enclosed_balanced _ _ (expression_balanced BSqlite (bc_expression c))). cbn [enclosed].
  rewrite bool_decide_eq_false_2, bool_decide_eq_true_2 by done. cbn [fmap option_fmap option_map].
  rewrite app_nil_r. fold body. pose proof (parse_expression BSqlite _ Hc) as Hparse. fold body in Hparse. rewrite Hparse. cbn [mbind res_bind or_none tk_text quoted_token].
  replace (S (S (length body))) with (length (opening :: body ++ [closing])) by (cbn [length]; rewrite length_app; cbn [length]; lia).
  replace (opening :: body ++ closing :: rest) with ((opening :: body ++ [closing]) ++ rest) by (cbn [app]; by rewrite <- app_assoc).
  rewrite sqlite_checks_skip. replace (rev (opening :: body ++ [closing]) ++ word "CHECK" :: quoted_token (bc_name c) :: word "CONSTRAINT" :: before)
    with (rev (word "CONSTRAINT" :: quoted_token (bc_name c) :: word "CHECK" :: opening :: body ++ [closing]) ++ before).
  - done.
  - cbn [rev]. by rewrite <- !app_assoc.
Qed.

Lemma reads_checks_all tss css : Forall2 reads_checks tss css -> reads_checks (comma_tokens tss) (concat css).
Proof using Type.
  intros H. destruct H as [|ts cs tss css Hts H]; [intros before rest; by rewrite option_map_nil|].
  cbn [comma_tokens concat]. revert ts cs Hts. induction H as [|ts' cs' tss css Hts' _ IH]; intros ts cs Hts.
  - cbn [flat_map concat]. by rewrite !app_nil_r.
  - intros before rest. rewrite <- app_assoc, Hts. cbn [flat_map app]. cbn [sqlite_checks_from].
    rewrite !bool_decide_eq_false_2 by done. rewrite is_word_other by done. cbn [andb Z.eqb Pos.eqb].
    rewrite (IH ts' cs' Hts'). rewrite !rev_app_distr. cbn [rev]. rewrite !rev_app_distr, <- !app_assoc. cbn [app].
    destruct (sqlite_checks_from 0 _ 1 rest) as [[found|]|]; [|done..]. cbn. by rewrite <- !app_assoc.
Qed.

(** The CHECKs of a table the program wrote, with their expressions. *)
Lemma table_checks p sql : table_declared p -> compile_create_table_sql SCHEMA_DIALECT p = Ok sql ->
  sqlite_checks (Some sql) = Ok (Some (map (fun c => CheckShape (Some (bc_name c)) (Some (bc_expression c))) (pm_checks p))).
Proof using All.
  intros Hp Hsql. destruct (spells_table p Hp) as (s & Hs & Hsp). rewrite Hsql in Hs. apply Ok_inj in Hs as <-.
  unfold sqlite_checks. rewrite (spells_tokens _ _ _ Hsp). unfold table_tokens. cbn [sqlite_checks_from].
  rewrite !bool_decide_eq_false_2 by done. cbn [andb Z.eqb]. unfold in_parentheses. cbn [app]. rewrite <- app_assoc.
  cbn [app sqlite_checks_from]. rewrite bool_decide_eq_true_2 by done. cbn [Z.add].
  set (shape := fun c => CheckShape (Some (bc_name c)) (Some (bc_expression c))).
  assert (HF : Forall2 reads_checks (definition_tokens p)
    (map (fun _ => []) (map column_tokens (pm_columns p) ++ key_tokens p ++ map foreign_key_tokens (pm_foreign_keys p))
     ++ map (fun c => [shape c]) (pm_checks p))).
  { unfold definition_tokens. rewrite !app_assoc. apply Forall2_app.
    - rewrite Forall2_fmap_r. apply Forall_Forall2_diag. rewrite !Forall_app, !Forall_map. split_and!; apply Forall_forall.
      + intros c Hc. apply reads_no_checks, column_balanced; [by apply (td_columns p)|by left].
      + intros ts Hts. apply reads_no_checks, (key_balanced _ p); [set_solver|done].
      + intros f _. apply reads_no_checks, foreign_key_balanced. set_solver.
    - rewrite Forall2_fmap. apply Forall_Forall2_diag, Forall_forall. intros c Hc.
      by apply reads_check_constraint, (td_checks p). }
  rewrite (reads_checks_all _ _ HF). cbn [sqlite_checks_from].
  rewrite (bool_decide_eq_false_2 (closing = opening)), (bool_decide_eq_true_2 (closing = closing)) by done.
  rewrite !bool_decide_eq_false_2 by done. change (1 - 1 =? 1)%Z with false.
  cbn [andb mbind res_bind option_map]. f_equal. f_equal. rewrite app_nil_r, concat_app.
  assert (Hempty : forall A B (l : list A), concat (map (fun _ => []) l) = @nil B) by (intros A B l; by induction l).
  assert (Hone : forall l, concat (map (fun c => [shape c]) l) = map shape l) by (intros l; induction l as [|c l IH]; [|cbn; rewrite IH]; done).
  rewrite Hempty. apply Hone.
Qed.

(** ** Reading the text of an index *)

Lemma balanced_no_semicolon ok ts : balanced ok ts -> Forall (fun t => t <> symbol ";") ts.
Proof using Type.
  induction 1 as [ok|ok t ts Ho Hc Hs Hok _ IH|ok inside ts _ IHin _ IH]; [done|by constructor|].
  unfold in_parentheses. cbn [app]. rewrite <- app_assoc. constructor; [done|]. apply Forall_app. split; [done|].
  by constructor.
Qed.

Lemma without_semicolon_none ts : Forall (fun t => t <> symbol ";") ts -> without_semicolon ts = ts.
Proof using Type.
  intros H. unfold without_semicolon. rewrite bool_decide_eq_false_2; [done|]. intros Hl.
  apply last_Some_elem_of in Hl. rewrite Forall_forall in H. by apply (H _ Hl).
Qed.

Lemma index_balanced names ok ts : balanced ok ts -> forall depth rest, (0 < depth)%Z ->
  index_where names depth false (ts ++ rest) = index_where names depth false rest.
Proof using Type.
  induction 1 as [ok|ok t ts Ho Hc Hs Hok _ IH|ok inside ts _ IHin _ IH]; intros depth rest Hd; [done| |].
  - cbn [app index_where]. rewrite !bool_decide_eq_false_2 by done. rewrite (proj2 (Z.eqb_neq depth 0)) by lia.
    by apply IH.
  - unfold in_parentheses. cbn [app]. rewrite <- !app_assoc. cbn [app index_where].
    rewrite bool_decide_eq_true_2 by done. rewrite IHin by lia. cbn [index_where].
    rewrite bool_decide_eq_false_2, bool_decide_eq_true_2 by done.
    replace (depth + 1 - 1)%Z with depth by lia. rewrite (proj2 (Z.ltb_ge depth 0)), (proj2 (Z.eqb_neq depth 0)) by lia.
    by apply IH.
Qed.

Lemma actual_column_itself names name : NoDup (map ascii_lower names) -> name ∈ names ->
  actual_column names name = Some name.
Proof using Type.
  intros Hnd Hin. unfold actual_column. by rewrite (filter_unique ascii_lower).
Qed.

Lemma canonical_itself names e : NoDup (map ascii_lower names) -> columns_within names e -> canonical_columns names e = Ok e.
Proof using Type.
  intros Hnd. induction e as [o args v IH] using check_expression_induction. rewrite Forall_forall in IH. intros He.
  cbn [canonical_columns columns_within] in *.
  assert (Hargs : foldr (fun x P => columns_within names x /\ P) True args -> mapR (canonical_columns names) args = Ok args).
  { clear He. induction args as [|x args IHa]; intros H; [done|]. cbn [foldr] in H. destruct H as [Hx H].
    rewrite mapR_cons, (IH x) by (left || done). cbn [mbind res_bind]. rewrite IHa; [done| |done].
    intros y Hy. apply IH. by right. }
  destruct o; try (by rewrite (Hargs He)). destruct v; try (by rewrite (Hargs He)). destruct He as [-> Hin].
  by rewrite actual_column_itself.
Qed.

(** The predicate of an index the program wrote. *)
Lemma index_predicate table_name i sql names : index_declared i ->
  compile_create_index_sql SCHEMA_DIALECT table_name i = Ok sql ->
  NoDup (map ascii_lower names) -> (forall e, ni_where i = Some e -> columns_within names e) ->
  sqlite_index_predicate (Some sql) names = Ok (ni_where i).
Proof using All.
  intros Hi Hsql Hnd Hcols. destruct (spells_index table_name i Hi) as (s & Hs & Hsp). rewrite Hsql in Hs. apply Ok_inj in Hs as <-.
  unfold sqlite_index_predicate. rewrite (spells_tokens _ _ _ Hsp). cbn [mbind res_bind].
  set (predicate := match ni_where i with Some e => word "WHERE" :: expression_tokens BSqlite e | None => [] end).
  assert (Hread : index_where names 0 true predicate = Ok (ni_where i)).
  { unfold predicate. destruct (ni_where i) as [e|] eqn:He; [|done]. cbn [index_where].
    rewrite !bool_decide_eq_false_2 by done. rewrite is_word_ascii by done. rewrite bool_decide_eq_true_2 by done.
    cbn [Z.eqb andb]. destruct Hi as [_ Hi]. rewrite He in Hi. rewrite parse_expression by done. cbn [mbind res_bind].
    by rewrite (canonical_itself names e Hnd (Hcols e eq_refl)). }
  assert (Hpre : forall pre, Forall (fun t => t <> opening /\ t <> closing /\ t <> symbol ";" /\ is_word (u "WHERE") t = false) pre ->
    forall rest, index_where names 0 false (pre ++ rest) = index_where names 0 false rest).
  { intros pre H rest. induction H as [|t pre (Ho & Hc & Hs & Hw) _ IH]; [done|]. cbn [app index_where].
    rewrite !bool_decide_eq_false_2 by done. by rewrite Hw, andb_false_r. }
  assert (Hquoted : forall n, quoted_token n <> opening /\ quoted_token n <> closing /\ quoted_token n <> symbol ";"
    /\ is_word (u "WHERE") (quoted_token n) = false) by (intros n; split_and!; [done..|by apply is_word_other]).
  assert (Hword : forall w, ascii_only (u w) && negb (bool_decide (ascii_upper (u w) = u "WHERE")) = true ->
    word w <> opening /\ word w <> closing /\ word w <> symbol ";" /\ is_word (u "WHERE") (word w) = false).
  { intros w [Hw Hn%negb_true_iff]%andb_true_iff. split_and!; [done..|]. by rewrite is_word_ascii. }
  set (pre := word "CREATE" :: (if ni_unique i then [word "UNIQUE"] else []) ++ [word "INDEX"; quoted_token (ni_name i);
    word "ON"; quoted_token table_name]).
  assert (Ht : index_tokens table_name i = pre ++ names_tokens (ni_column_names i) ++ predicate).
  { unfold index_tokens, pre, predicate. by destruct (ni_unique i). }
  assert (Hp : Forall (fun t => t <> opening /\ t <> closing /\ t <> symbol ";" /\ is_word (u "WHERE") t = false) pre).
  { unfold pre. destruct (ni_unique i); repeat constructor; first [apply Hquoted|by apply Hword]. }
  pose proof (names_balanced (fun _ => True) (ni_column_names i)) as Hnames.
  rewrite Ht, without_semicolon_none.
  - rewrite Hpre by done. unfold names_tokens, in_parentheses. cbn [app]. rewrite <- app_assoc. cbn [app index_where].
    rewrite bool_decide_eq_true_2 by done.
    rewrite (index_balanced _ (fun _ => True)) by (done || apply balanced_comma, Forall_map, Forall_forall; intros n _; by repeat constructor).
    cbn [index_where]. rewrite bool_decide_eq_false_2, bool_decide_eq_true_2 by done.
    change (0 + 1 - 1)%Z with 0%Z. cbn [Z.ltb Z.eqb Z.compare]. rewrite Hread. done.
  - rewrite !Forall_app. split_and!; [eapply Forall_impl; [exact Hp|]; by intros t (_ & _ & ? & _)|by eapply balanced_no_semicolon|].
    unfold predicate. destruct (ni_where i); [|done]. constructor; [done|]. eapply balanced_no_semicolon, expression_balanced.
Qed.

End words.
