(* ===== verification/SqliteCatalog.v ===== *)
(** * What SQLite reports about a scaffolded table

    The rows of the documented PRAGMA functions and of [sqlite_master] for a
    table and its indexes created from the text of the scaffold, as functions of
    the plan; [created] says that a catalog answers with them, up to the order of
    rows that SQLite leaves open and to rows about other tables. *)

From S2P Require Export SqliteVerification SqliteTables QuietRuns.

(** ** Rows *)

Definition flag (b : bool) : cell := CInt (if b then 1 else 0).

(** [PRAGMA table_list]: schema, name, type, ncol, wr, strict. *)
Definition table_list_row (p : planned_model) : list cell :=
  [CText (u "main"); CText (pm_table_name p); CText (u "table"); CInt (Z.of_nat (length (pm_columns p)));
   CInt 0; CInt 1].
(** A row about something else. *)
Definition other_table (names : list utext) (row : list cell) : Prop :=
  exists schema name kind ncol wr strict, row = [CText schema; CText name; CText kind; ncol; wr; strict] /\
    (schema <> u "main" \/ name ∉ names \/ kind <> u "table").

(** [PRAGMA table_xinfo]: cid, name, type, notnull, dflt_value, pk, hidden.  A
    default loses the parentheses around it. *)
Definition default_cell (c : column) : cell :=
  match co_server_default c with
  | None => CNull
  | Some CurrentTimestamp => CText current_timestamp_text
  | Some (LiteralDefault v) => match bare_default BSqlite v with Ok t => CText t | Raise _ => CNull end
  end.
Definition key_position (columns : list planned_column) (k : nat) (c : planned_column) : Z :=
  if co_primary_key (pc_column c)
  then Z.of_nat (S (length (filter (fun c => co_primary_key (pc_column c) = true) (take k columns))))
  else 0.
Definition column_row (columns : list planned_column) (k : nat) (c : planned_column) : list cell :=
  [CInt (Z.of_nat k); CText (pc_name c); CText (storage_class_text (co_storage_class (pc_column c)));
   flag (requires_not_null c); default_cell (pc_column c); CInt (key_position columns k c); CInt 0].
Definition column_rows (p : planned_model) : list (list cell) :=
  imap (column_row (pm_columns p)) (pm_columns p).

(** [PRAGMA index_list]: seq, name, unique, origin, partial.  The sequence numbers are
    SQLite's own (the newest index comes first). *)
Definition index_row (seq : Z) (i : normalized_index) : list cell :=
  [CInt seq; CText (ni_name i); flag (ni_unique i); CText (u "c");
   flag (bool_decide (is_Some (ni_where i)))].
(** The index of a key constraint. *)
Definition implicit_index (row : list cell) : Prop :=
  exists seq name unique origin partial, row = [seq; name; CInt unique; CText origin; CInt partial] /\ origin <> u "c".

(** [PRAGMA index_info]: seqno, cid, name. *)
Definition index_info_rows (columns : list utext) (i : normalized_index) : list (list cell) :=
  imap (fun k name => [CInt (Z.of_nat k);
    CInt (match list_find (fun n => n = name) columns with Some (cid, _) => Z.of_nat cid | None => -2 end);
    CText name]) (ni_column_names i).

(** [PRAGMA foreign_key_list]: id, seq, table, from, to, on_update, on_delete,
    match. *)
Definition foreign_key_rows (id : Z) (f : planned_foreign_key) : list (list cell) :=
  imap (fun seq names =>
    [CInt id; CInt (Z.of_nat seq); CText (pf_target_table f); CText names.1; CText names.2;
     CText (normalize_foreign_key_action (pf_on_update f)); CText (normalize_foreign_key_action (pf_on_delete f));
     CText (u "NONE")]) (zip (pf_column_names f) (pf_target_columns f)).

(** ** A catalog after the scaffold ran *)

Section created.
Variable catalog : utext -> list utext -> list (list cell).

Record table_created (p : planned_model) : Prop := TableCreated {
  created_columns : catalog (pragma "table_xinfo" (pm_table_name p)) [] = column_rows p;
  created_indexes : exists implicit seqs rows, catalog (pragma "index_list" (pm_table_name p)) [] = rows /\
    rows ≡ₚ implicit ++ zip_with index_row seqs (pm_indexes p) /\ length seqs = length (pm_indexes p) /\
    Forall implicit_index implicit;
  created_index_columns : forall i, i ∈ pm_indexes p ->
    catalog (pragma "index_info" (ni_name i)) [] = index_info_rows (map pc_name (pm_columns p)) i;
  created_index_sql : forall i sql, i ∈ pm_indexes p ->
    compile_create_index_sql SCHEMA_DIALECT (pm_table_name p) i = Ok sql ->
    catalog index_sql_query [ni_name i; pm_table_name p] = [[CText sql]];
  created_foreign_keys : exists ids fs, NoDup ids /\ fs ≡ₚ pm_foreign_keys p /\ length ids = length fs /\
    catalog (pragma "foreign_key_list" (pm_table_name p)) [] = concat (zip_with foreign_key_rows ids fs) }.

Record created (plan : list planned_model) : Prop := Created {
  created_tables : exists others, Forall (other_table (map pm_table_name plan)) others /\
    catalog (u "PRAGMA table_list") [] ≡ₚ others ++ map table_list_row plan;
  created_sql : exists sqls, Forall2 (fun p sql => compile_create_table_sql SCHEMA_DIALECT p = Ok sql) plan sqls /\
    catalog (table_sql_query (map pm_table_name plan)) (map pm_table_name plan)
      ≡ₚ zip_with (fun p sql => [CText (pm_table_name p); CText sql]) plan sqls;
  created_each : forall p, p ∈ plan -> table_created p }.
End created.

(** ** Undisturbed programs *)

(** With no script left every command is answered. *)
Definition unscripted (s : connection) : Prop := cn_script s = [].
Abbreviation undisturbed := (runs unscripted).

Lemma undisturbed_send c : undisturbed (send c) tt.
Proof. intros s Hs. unfold send. rewrite Hs. by eexists. Qed.
Lemma undisturbed_shielded {A} (m : program A) a : undisturbed m a -> undisturbed (shielded m) a.
Proof.
  intros Hm s Hs. unfold shielded. edestruct Hm as (s1 & H1 & Hs1); [|rewrite H1; eexists; split; [done|]]; done.
Qed.

Section reading.
Context `{U : unicode} `{!ascii_laws U} (catalog : utext -> list utext -> list (list cell)).

Lemma undisturbed_fetch_rows sql params rows : catalog sql params = rows -> undisturbed (fetch_rows catalog sql params) rows.
Proof using Type.
  intros <-. apply quiet_bind with tt; [apply undisturbed_send|]. apply quiet_finally; [|apply undisturbed_send].
  apply quiet_bind with tt; [apply undisturbed_send|apply quiet_ret].
Qed.

Lemma undisturbed_fetch_each {A B} (f : A -> program (list B)) l ls : Forall2 (fun x ys => undisturbed (f x) ys) l ls ->
  undisturbed (fetch_each f l) (concat ls).
Proof using Type.
  induction 1 as [|x ys l ls Hx _ IH]; [apply quiet_ret|]. cbn [fetch_each concat].
  apply quiet_bind with ys; [done|]. apply quiet_bind with (concat ls); [done|apply quiet_ret].
Qed.

Lemma undisturbed_transaction {A} (body : program A) a : undisturbed body a -> undisturbed (sqlite_verification_transaction body) a.
Proof using Type.
  intros H. assert (Hx : forall c, undisturbed (execute_schema_sql c) tt)
    by (intros c; apply quiet_bind with tt; apply undisturbed_send).
  apply quiet_bind with tt; [apply Hx|]. apply quiet_bind with a; [by apply quiet_except|].
  apply quiet_bind with tt; [by apply quiet_except, undisturbed_shielded, Hx|apply quiet_ret].
Qed.

(** ** The shape that is read *)

Definition live_shape_column (c : planned_column) : column_shape :=
  ColumnShape (pc_name c) (storage_class_text (co_storage_class (pc_column c))) (negb (requires_not_null c))
    (co_primary_key (pc_column c)) (co_auto_increment (pc_column c))
    (normalize_server_default (default_cell (pc_column c))) (Some (effective_collation (pc_column c))) None None.

Lemma class_affinity c : sqlite_type_affinity (storage_class_text c) = storage_class_text c.
Proof using All. unfold sqlite_type_affinity. destruct c; cbn [storage_class_text]; by rewrite upper_ascii. Qed.

Lemma py_int_flag b : py_int (flag b) = Ok (if b then 1 else 0)%Z.
Proof using Type. done. Qed.

(** What the distinct names of a table, and its plan, give. *)
Record names_distinct (p : planned_model) : Prop := NamesDistinct {
  nd_folded : NoDup (map (fun c => py_casefold (pc_name c)) (pm_columns p));
  nd_lower : NoDup (map (fun c => ascii_lower (pc_name c)) (pm_columns p));
  nd_indexes : NoDup (map ni_name (pm_indexes p));
  nd_checks : NoDup (map bc_name (pm_checks p));
  nd_where : forall i e, i ∈ pm_indexes p -> ni_where i = Some e -> columns_within (map pc_name (pm_columns p)) e;
  nd_increment : forall c, c ∈ pm_columns p -> co_auto_increment (pc_column c) = true -> forall c',
    c' ∈ pm_columns p -> co_primary_key (pc_column c') = true -> c' = c;
  nd_foreign_keys : forall f, f ∈ pm_foreign_keys p ->
    length (pf_column_names f) = length (pf_target_columns f) /\ pf_column_names f <> [] }.

Lemma undisturbed_columns p sql : table_declared p -> names_distinct p -> table_created catalog p ->
  compile_create_table_sql SCHEMA_DIALECT p = Ok sql ->
  undisturbed (fetch_column_shapes catalog (pm_table_name p) (sqlite_column_collations (Some sql)) (table_uses_autoincrement (Some sql)))
    (map live_shape_column (pm_columns p)).
Proof using All.
  intros Hp Hn Hcat Hsql. apply quiet_bind with (column_rows p); [by apply undisturbed_fetch_rows, created_columns|].
  apply quiet_lift. unfold column_rows.
  assert (Hrow : forall k c, c ∈ pm_columns p -> live_column (sqlite_column_collations (Some sql))
    (table_uses_autoincrement (Some sql)) (column_row (pm_columns p) k c) = Ok (live_shape_column c)).
  { intros k c Hc. unfold live_column, column_row. cbn [py_int py_str flag mbind res_bind].
    rewrite (table_collations p sql c) by (done || apply Hn). rewrite class_affinity, (table_autoincrement p) by done.
    unfold live_shape_column, key_position. f_equal.
    assert (Hpk : negb ((if co_primary_key (pc_column c) then Z.of_nat (S (length (filter
      (fun c => co_primary_key (pc_column c) = true) (take k (pm_columns p))))) else 0%Z) =? 0)%Z = co_primary_key (pc_column c)).
    { destruct (co_primary_key _); [|done]. apply negb_true_iff, Z.eqb_neq. lia. }
    rewrite Hpk. f_equal; [by destruct (requires_not_null c)|].
    destruct (co_auto_increment (pc_column c)) eqn:Ha.
    - destruct (td_columns p Hp c Hc) as (_ & _ & Hk). destruct (Hk Ha) as [-> _]. simpl.
      apply existsb_exists. exists c. split; [by apply list_elem_of_In|done].
    - apply andb_false_iff. destruct (co_primary_key (pc_column c)) eqn:Hk; [right|by left].
      apply not_true_is_false. intros (c' & Hc' & Ha')%existsb_exists. apply list_elem_of_In in Hc'.
      rewrite (nd_increment p Hn c' Hc' Ha' c Hc Hk) in Ha. congruence. }
  by apply mapR_imap.
Qed.

Definition live_shape_index (i : normalized_index) : index_shape :=
  IndexShape (ni_name i) (ni_column_names i) (ni_unique i) (Some (bool_decide (is_Some (ni_where i)))) None None (ni_where i).

Lemma undisturbed_index p k i : table_declared p -> names_distinct p -> table_created catalog p -> i ∈ pm_indexes p ->
  undisturbed (fetch_index_shape catalog (pm_table_name p) (map pc_name (pm_columns p)) (index_row k i)) [live_shape_index i].
Proof using All.
  intros Hp Hn Hcat Hi. unfold fetch_index_shape, index_row.
  apply quiet_bind with (CText (ni_name i)); [by apply quiet_lift|].
  apply quiet_bind with (if ni_unique i then 1 else 0)%Z; [by apply quiet_lift|].
  apply quiet_bind with (CText (u "c")); [by apply quiet_lift|].
  apply quiet_bind with (if bool_decide (is_Some (ni_where i)) then 1 else 0)%Z; [by apply quiet_lift|].
  cbv zeta. cbn [py_str]. rewrite bool_decide_eq_true_2 by done. cbn [negb].
  apply quiet_bind with (index_info_rows (map pc_name (pm_columns p)) i); [by apply undisturbed_fetch_rows, created_index_columns|].
  apply quiet_bind with (ni_column_names i).
  { apply quiet_lift. unfold index_info_rows. rewrite (mapR_imap _ _ id) by done. by rewrite map_id. }
  apply quiet_bind with (ni_where i).
  - pose proof (td_indexes p Hp i Hi) as Hd. destruct (spells_index (pm_table_name p) i Hd) as (sql & Hsql & _).
    case_bool_decide as Hw; cbn [Z.eqb Pos.eqb].
    + apply quiet_bind with [[CText sql]]; [by apply undisturbed_fetch_rows; apply created_index_sql|].
      apply quiet_lift. apply (index_predicate (pm_table_name p)); [done|done| |].
      * rewrite map_map. by apply nd_lower.
      * intros e He. by apply (nd_where p Hn i).
    + destruct (ni_where i); [by destruct Hw|apply quiet_ret].
  - unfold live_shape_index. replace ((if ni_unique i then 1 else 0) =? 1)%Z with (ni_unique i) by (by destruct (ni_unique i)).
    replace ((if bool_decide (is_Some (ni_where i)) then 1 else 0) =? 1)%Z with (bool_decide (is_Some (ni_where i)))
      by (by case_bool_decide). apply quiet_ret.
Qed.

Lemma undisturbed_implicit p row : implicit_index row ->
  undisturbed (fetch_index_shape catalog (pm_table_name p) (map pc_name (pm_columns p)) row) [].
Proof using Type.
  intros (seq & name & unique & origin & partial & -> & Ho). unfold fetch_index_shape.
  apply quiet_bind with name; [by apply quiet_lift|]. apply quiet_bind with unique; [by apply quiet_lift|].
  apply quiet_bind with (CText origin); [by apply quiet_lift|]. apply quiet_bind with partial; [by apply quiet_lift|].
  cbn [py_str]. rewrite bool_decide_eq_false_2 by done. apply quiet_ret.
Qed.

(** The live indexes are the declared ones, in some order. *)
Lemma undisturbed_indexes p : table_declared p -> names_distinct p -> table_created catalog p -> exists indexes,
  undisturbed (fetch_index_shapes catalog (pm_table_name p) (map pc_name (pm_columns p))) indexes /\
  indexes ≡ₚ map live_shape_index (pm_indexes p).
Proof using All.
  intros Hp Hn Hcat. destruct (created_indexes _ _ Hcat) as (implicit & seqs & rows & Hrows & Hperm & Hlen & Himp).
  set (reads_as row shapes := undisturbed (fetch_index_shape catalog (pm_table_name p) (map pc_name (pm_columns p)) row) shapes).
  assert (Hall : Forall2 reads_as (implicit ++ zip_with index_row seqs (pm_indexes p))
    (map (fun _ => []) implicit ++ map (fun i => [live_shape_index i]) (pm_indexes p))).
  { apply Forall2_app.
    - rewrite Forall2_fmap_r. apply Forall_Forall2_diag. eapply Forall_impl; [exact Himp|]. intros row. apply undisturbed_implicit.
    - apply Forall2_lookup. intros k. rewrite lookup_zip_with, list_lookup_fmap.
      destruct (pm_indexes p !! k) as [i|] eqn:Hi.
      + destruct (lookup_lt_is_Some_2 seqs k) as [seq Hseq]; [rewrite Hlen; by eapply lookup_lt_Some|].
        rewrite Hseq. constructor. apply undisturbed_index; try done. by eapply list_elem_of_lookup_2.
      + destruct (seqs !! k); by constructor. }
  symmetry in Hperm. destruct (Permutation_Forall2 Hperm Hall) as (shapes & Hshapes & HF).
  exists (concat shapes). split; [apply quiet_bind with rows; [by apply undisturbed_fetch_rows|by apply undisturbed_fetch_each]|].
  rewrite <- Hshapes, concat_app.
  assert (Hone : forall l, concat (map (fun i => [live_shape_index i]) l) = map live_shape_index l)
    by (intros l; induction l as [|x l IH]; [done|cbn; by rewrite IH]).
  rewrite Hone. assert (Hempty : concat (map (fun _ => []) implicit) = @nil index_shape) by (clear; by induction implicit).
  by rewrite Hempty.
Qed.

(** *** Foreign keys *)

Definition key_shapes (id : utext) (f : planned_foreign_key) : list foreign_key_shape :=
  imap (fun position names =>
    ForeignKeyShape names.1 (pf_target_table f) names.2 (normalize_foreign_key_action (pf_on_delete f))
      (normalize_foreign_key_action (pf_on_update f)) (Some id) (Z.of_nat position))
    (zip (pf_column_names f) (pf_target_columns f)).

Lemma undisturbed_foreign_keys p : table_created catalog p -> exists ids fs,
  NoDup ids /\ fs ≡ₚ pm_foreign_keys p /\ length ids = length fs /\
  undisturbed (fetch_foreign_key_shapes catalog (pm_table_name p)) (concat (zip_with key_shapes (map (fun id => py_str (CInt id)) ids) fs)).
Proof using Type.
  intros Hcat. destruct (created_foreign_keys _ _ Hcat) as (ids & fs & Hnd & Hfs & Hlen & Hrows).
  exists ids, fs. split_and!; try done. apply quiet_bind with (1 := undisturbed_fetch_rows _ _ _ Hrows). apply quiet_lift.
  apply mapR_concat. clear -Hlen. revert fs Hlen. induction ids as [|id ids IH]; intros [|f fs] Hlen; [constructor|done..|].
  cbn [zip_with map]. constructor; [|apply IH; by injection Hlen].
  unfold foreign_key_rows, key_shapes. apply mapR_Ok, Forall2_lookup. intros k. rewrite !list_lookup_imap.
  destruct (zip _ _ !! k); by constructor.
Qed.

Lemma key_shapes_group id f : length (pf_column_names f) = length (pf_target_columns f) -> pf_column_names f <> [] ->
  key_group id (key_shapes id f).
Proof using Type.
  intros Hl Hne. split_and!.
  - unfold key_shapes. by destruct (pf_column_names f), (pf_target_columns f).
  - apply Forall_lookup. intros k g Hg. unfold key_shapes in Hg. rewrite list_lookup_imap in Hg.
    destruct (zip _ _ !! k); [|done]. by injection Hg as <-.
  - by apply (sorted_positions 0).
Qed.

Lemma foreign_key_groups_read ids fs : NoDup ids -> length ids = length fs ->
  Forall (fun f => length (pf_column_names f) = length (pf_target_columns f) /\ pf_column_names f <> []) fs ->
  foreign_key_groups (concat (zip_with key_shapes ids fs)) = map (fun f => map foreign_key_scalar (key_shapes [] f)) fs.
Proof using Type.
  intros Hnd Hlen Hfs. unfold foreign_key_groups. rewrite (group_foreign_keys_read ids).
  - clear Hnd. revert fs Hlen Hfs. induction ids as [|id ids IH]; intros [|f fs] Hlen Hfs; [done..|].
    inversion_clear Hfs. cbn [zip_with map]. f_equal; [unfold key_shapes; by rewrite !fmap_imap|apply IH; [by injection Hlen|done]].
  - done.
  - clear Hnd. revert fs Hlen Hfs. induction ids as [|id ids IH]; intros [|f fs] Hlen Hfs; [constructor|done..|].
    inversion_clear Hfs as [|? ? [Hl Hne] Hfs']. constructor; [by apply key_shapes_group|apply IH; [by injection Hlen|done]].
Qed.

End reading.
