(* ===== verification/SqliteScaffold.v ===== *)
(** * A scaffolded database verifies

    Verification of the tables a plan describes, on a database that the scaffold
    of the plan created: what is read off the catalog agrees with what the models
    expect, so that no drift is reported, under every schema policy. *)

From S2P Require Export SqliteCatalog.

(** ** The shape agrees *)

Lemma not_a_clock c s : c ∉ [115; 83; 383]%Z -> is_clock (c :: s) = false.
Proof.
  intros Hc. unfold is_clock. assert (He : eat_word (u "strftime") (c :: s) = None); [|by rewrite He].
  change (u "strftime") with (115%Z :: u "trftime"). cbn [eat_word].
  assert (Hi : ignore_case 115 c = false); [|by rewrite Hi].
  unfold ignore_case. change (115 =? 105)%Z with false. change (115 - 32)%Z with 83%Z. cbn [andb].
  rewrite !bool_decide_eq_false_2; [done|set_solver..].
Qed.

Lemma bare_default_other v t : value_ok v = true -> bare_default BSqlite v = Ok t ->
  is_clock t = false /\ t <> u "CurrentTimestamp".
Proof.
  intros Hv Ht. assert (Hfirst : forall c s, t = c :: s -> c ∉ [115; 83; 383; 67]%Z -> is_clock t = false /\ t <> u "CurrentTimestamp").
  { intros c s -> Hc. split; [apply not_a_clock; set_solver|]. intros H. apply (f_equal head) in H. injection H as ->. set_solver. }
  destruct v as [|n|s].
  - apply Ok_inj in Ht as <-. eapply Hfirst; [reflexivity|]. set_unfold. vm_compute. lia.
  - change (Ok (str_Z n) = Ok t) in Ht. apply Ok_inj in Ht as <-. change (int_ok n = true) in Hv. unfold int_ok in Hv.
    apply Z.ltb_lt in Hv. assert (Hz : exists c s, str_Z n = c :: s /\ c ∉ [115; 83; 383; 67]%Z).
    { unfold str_Z. destruct (Z.ltb_spec n 0); [do 2 eexists; split; [done|set_solver]|].
      destruct (str_nonneg_value n) as (_ & c & s & Hs & Hc & _); [lia|]. apply digit_range in Hc.
      exists c, s. split; [done|]. set_unfold. lia. }
    destruct Hz as (c & s & Hz & Hc). exact (Hfirst c s Hz Hc).
  - change (render_text BSqlite s = Ok t) in Ht. unfold render_text in Ht. destruct (encoded_hex s) as [h|]; [|done].
    cbn [mbind res_bind] in Ht. apply Ok_inj in Ht. case_bool_decide.
    + rewrite <- Ht. split; [apply not_a_clock; vm_compute; set_solver|].
      intros He. apply (f_equal (fun l => l !! 1)) in He. vm_compute in He. discriminate.
    + eapply Hfirst; [rewrite <- Ht; unfold quote_with; reflexivity|set_solver].
Qed.

Section agreement.
Context `{U : unicode} `{!ascii_laws U} (catalog : utext -> list utext -> list (list cell)).

Lemma column_as_created c : column_declared c -> column_agrees (expected_column_shape c) (live_shape_column c).
Proof using All.
  intros (_ & Hd & _). unfold column_agrees, default_agrees, expected_column_shape, live_shape_column, default_cell.
  cbn [cl_storage_type cl_nullable cl_primary_key cl_auto_increment cl_server_default cl_collation cl_datetime_precision cl_unsigned].
  split_and!; try done. destruct (co_server_default (pc_column c)) as [[|v]|]; [|  |done].
  - unfold normalize_server_default. cbn [py_str].
    assert (Hclock : is_clock current_timestamp_text = true) by (vm_compute; reflexivity). by rewrite Hclock.
  - destruct (bare_default_spells BSqlite v Hd) as (t & Ht & _ & _). rewrite Ht.
    destruct (bare_default_other v t Hd Ht) as [Hclock Hne]. unfold normalize_server_default. cbn [py_str]. rewrite Hclock.
    unfold compare_literal_default. rewrite bool_decide_eq_false_2 by done. unfold catalog_literal.
    destruct (default_recognized BSqlite v t Hd Ht) as [-> _]. by rewrite bool_decide_eq_true_2.
Qed.

Lemma index_as_created i : index_agrees (expected_index_shape i) (live_shape_index i).
Proof using Type.
  unfold index_agrees, predicate_agrees, expected_index_shape, live_shape_index. cbn.
  split_and!; try done. destruct (ni_where i) as [e|]; [|done]. right. right. by exists e.
Qed.


(** The ids of the foreign keys a model expects. *)
Definition expected_ids (p : planned_model) : list utext :=
  imap (fun k _ => str_nonneg (Z.of_nat k)) (pm_foreign_keys p).

Lemma expected_ids_distinct p : NoDup (expected_ids p).
Proof using Type.
  apply NoDup_alt. intros i j x. unfold expected_ids. rewrite !list_lookup_imap.
  destruct (pm_foreign_keys p !! i); [|done]. destruct (pm_foreign_keys p !! j); [|done]. intros [= <-] [= H].
  apply str_nonneg_inj in H; lia.
Qed.

Definition expected_of (p : planned_model) : table_shape :=
  TableShape (pm_table_name p) (map expected_column_shape (pm_columns p)) (map expected_index_shape (pm_indexes p))
    (concat (zip_with key_shapes (expected_ids p) (pm_foreign_keys p))) [u "STRICT"]
    (Some (map (fun c => CheckShape (Some (bc_name c)) (Some (bc_expression c))) (pm_checks p))).

Lemma expected_of_spec p : names_distinct p -> expected_table_shape SCHEMA_DIALECT p = Ok (expected_of p).
Proof using Type.
  intros Hn. unfold expected_table_shape, SCHEMA_DIALECT, expected_of.
  cbn [sd_verifies_foreign_keys sd_expected_column_shape sd_expected_index_shape sd_table_suffix].
  rewrite mapR_pure.
  assert (Hkeys : mapR (fun x => expected_foreign_key SCHEMA_DIALECT x.1 x.2) (imap pair (pm_foreign_keys p))
    = Ok (zip_with key_shapes (expected_ids p) (pm_foreign_keys p))).
  { apply mapR_Ok, Forall2_lookup. intros k. rewrite lookup_zip_with. unfold expected_ids. rewrite !list_lookup_imap.
    destruct (pm_foreign_keys p !! k) as [f|] eqn:Hf; [|by constructor]. constructor. apply list_elem_of_lookup_2 in Hf.
    destruct (nd_foreign_keys p Hn f Hf) as [Hl _]. unfold expected_foreign_key, zip_strict. cbn [fst snd].
    by rewrite Hl, Nat.eqb_refl. }
  unfold SCHEMA_DIALECT in Hkeys. rewrite Hkeys. done.
Qed.

Definition live_of (p : planned_model) (indexes : list index_shape) (keys : list foreign_key_shape) : table_shape :=
  TableShape (pm_table_name p) (map live_shape_column (pm_columns p)) indexes keys [u "STRICT"]
    (Some (map (fun c => CheckShape (Some (bc_name c)) (Some (bc_expression c))) (pm_checks p))).

Lemma agrees_as_created p indexes ids fs : table_declared p -> names_distinct p ->
  indexes ≡ₚ map live_shape_index (pm_indexes p) -> NoDup ids -> fs ≡ₚ pm_foreign_keys p -> length ids = length fs ->
  tables_agree (expected_of p)
    (live_of p indexes (concat (zip_with key_shapes (map (fun id => py_str (CInt id)) ids) fs))).
Proof using All.
  intros Hp Hn Hix Hids Hfs Hlen. pose proof (nd_foreign_keys p Hn) as Hkeys. split; cbn [ts_storage_options ts_columns ts_indexes ts_foreign_keys ts_checks default expected_of live_of].
  - done.
  - apply named_agree_perm with (a := live_shape_column); [done| |done|intros c Hc; by apply column_as_created, (td_columns p)].
    apply (NoDup_fmap_1 py_casefold). change (NoDup (map py_casefold (map pc_name (pm_columns p)))). rewrite map_map. apply nd_folded, Hn.
  - apply named_agree_perm with (a := live_shape_index); [done|by apply nd_indexes|done|intros i _; apply index_as_created].
  - rewrite !foreign_key_groups_read.
    + by rewrite Hfs.
    + apply (NoDup_fmap_2_strong (fun id => py_str (CInt id))); [|done]. intros x y _ _. apply py_str_int_inj.
    + by rewrite length_map.
    + rewrite Hfs. by apply Forall_forall.
    + apply expected_ids_distinct.
    + unfold expected_ids. by rewrite length_imap.
    + by apply Forall_forall.
  - apply Forall_map, Forall_forall. intros c Hc. unfold check_agrees.
    pose proof (filter_unique cs_name (map (fun c => CheckShape (Some (bc_name c)) (Some (bc_expression c))) (pm_checks p))
      (CheckShape (Some (bc_name c)) (Some (bc_expression c)))) as Hf. rewrite Hf; [done| |apply list_elem_of_fmap; by exists c].
    rewrite map_map. cbn [cs_name]. rewrite <- (map_map bc_name Some). apply NoDup_fmap_2; [exact _|apply nd_checks, Hn].
Qed.

(** ** Reading the tables of a plan *)

Lemma undisturbed_table p sql options sqls : table_declared p -> names_distinct p -> table_created catalog p ->
  compile_create_table_sql SCHEMA_DIALECT p = Ok sql ->
  dict_get (pm_table_name p) options = Some [u "STRICT"] -> dict_get (pm_table_name p) sqls = Some sql ->
  exists shape, undisturbed (inspect_table catalog options sqls p) [(pm_table_name p, shape)] /\ tables_agree (expected_of p) shape.
Proof using All.
  intros Hp Hn Hcat Hsql Ho Hs. destruct (undisturbed_indexes catalog p Hp Hn Hcat) as (indexes & Hindexes & Hix).
  destruct (undisturbed_foreign_keys catalog p Hcat) as (ids & fs & Hids & Hfs & Hlen & Hkeys).
  eexists. split; [|by apply (agrees_as_created p indexes ids fs)].
  unfold inspect_table. rewrite Ho, Hs. cbv zeta.
  apply quiet_bind with (1 := undisturbed_columns catalog p sql Hp Hn Hcat Hsql).
  apply quiet_bind with (1 := quiet_lift _ _ (table_checks p sql Hp Hsql)).
  apply quiet_bind with indexes.
  { rewrite map_map. exact Hindexes. }
  apply quiet_bind with (1 := Hkeys). apply quiet_ret.
Qed.

Section plan.
Variable plan : list planned_model.
Hypothesis Hnames : NoDup (map pm_table_name plan).
Hypothesis Hcreated : created catalog plan.
Let names := map pm_table_name plan.

Lemma undisturbed_options : exists options, undisturbed (fetch_table_storage_options catalog names) options /\
  forall p, p ∈ plan -> dict_get (pm_table_name p) options = Some [u "STRICT"].
Proof using All.
  destruct (created_tables _ _ Hcreated) as (others & Hothers & Hrows).
  assert (Hplan : mapR (storage_option names) (others ++ map table_list_row plan)
    = Ok (map (fun _ => []) others ++ map (fun p => [(pm_table_name p, [u "STRICT"])]) plan)).
  { apply mapR_Ok, Forall2_app.
    - rewrite Forall2_fmap_r. apply Forall_Forall2_diag. eapply Forall_impl; [exact Hothers|].
      intros row (schema & name & kind & ncol & wr & strict & -> & Hne). unfold storage_option, row_at. cbn [lookup list_lookup mbind res_bind py_str].
      case_bool_decide; [|done]. cbn [negb]. case_bool_decide; [|done]. cbn [negb]. case_bool_decide; [|done]. naive_solver.
    - rewrite Forall2_fmap. apply Forall_Forall2_diag, Forall_forall. intros p Hp. unfold storage_option, row_at, table_list_row. cbn [lookup list_lookup mbind res_bind py_str].
      rewrite !bool_decide_eq_true_2; [done|done|by apply list_elem_of_fmap_2|done]. }
  destruct (mapR_perm _ _ _ _ Hrows Hplan) as (entries & He & Hperm).
  exists (dict_of_entries (concat entries)). split.
  - apply quiet_bind with (catalog (u "PRAGMA table_list") []); [by apply undisturbed_fetch_rows|].
    apply quiet_bind with (1 := quiet_lift _ _ He). apply quiet_ret.
  - intros p Hp. apply concat_perm in Hperm. rewrite concat_app in Hperm.
    assert (Hempty : forall l : list (list cell), concat (map (fun _ => []) l) = @nil (utext * list utext)) by (intros l; by induction l).
    assert (Hone : forall l, concat (map (fun p => [(pm_table_name p, [u "STRICT"])]) l) = map (fun p => (pm_table_name p, [u "STRICT"])) l)
      by (intros l; induction l as [|x l IH]; [done|cbn [map concat app]; by rewrite IH]).
    rewrite Hempty, Hone in Hperm. cbn [app] in Hperm. apply (dict_of_entries_perm _ _ _ _ Hperm); [by rewrite map_map|].
    apply list_elem_of_fmap. by exists p.
Qed.

Lemma undisturbed_sqls : exists sqls, undisturbed (fetch_table_sql catalog names) sqls /\
  forall p, p ∈ plan -> exists sql, compile_create_table_sql SCHEMA_DIALECT p = Ok sql /\
    dict_get (pm_table_name p) sqls = Some sql.
Proof using All.
  destruct (created_sql _ _ Hcreated) as (sqls & HF & Hrows).
  assert (Hplan : mapR table_sql_entry (zip_with (fun p sql => [CText (pm_table_name p); CText sql]) plan sqls)
    = Ok (zip_with (fun p sql => [(pm_table_name p, sql)]) plan sqls)).
  { apply mapR_Ok. clear -HF. induction HF; by constructor. }
  destruct (mapR_perm _ _ _ _ Hrows Hplan) as (entries & He & Hperm).
  exists (dict_of_entries (concat entries)). split.
  - unfold fetch_table_sql. eapply quiet_bind; [by apply undisturbed_fetch_rows|].
    apply quiet_bind with (1 := quiet_lift _ _ He). apply quiet_ret.
  - intros p Hp. apply concat_perm in Hperm.
    assert (Hone : forall l l' : list _, concat (zip_with (fun p sql => [(pm_table_name p, sql)]) l l')
      = zip_with (fun p sql => (pm_table_name p, sql : utext)) l l')
      by (intros l; induction l as [|x l IH]; intros [|y l']; [done..|cbn; by rewrite IH]).
    rewrite Hone in Hperm. apply list_elem_of_lookup in Hp as (k & Hk).
    destruct (Forall2_lookup_l _ _ _ _ _ HF Hk) as (sql & Hsql & Hc). exists sql. split; [done|].
    apply (dict_of_entries_perm _ _ _ _ Hperm).
    + assert (Hfst : map fst (zip_with (fun p sql => (pm_table_name p, sql : utext)) plan sqls) = names); [|by rewrite Hfst].
      unfold names. clear -HF. induction HF; [done|]. cbn. by f_equal.
    + apply list_elem_of_lookup. exists k. by rewrite lookup_zip_with, Hk, Hsql.
Qed.

Lemma undisturbed_shapes : Forall (fun p => table_declared p /\ names_distinct p) plan -> exists shapes,
  undisturbed (inspect_live_shapes catalog plan) shapes /\
  forall p, p ∈ plan -> exists shape, dict_get (pm_table_name p) shapes = Some shape /\ tables_agree (expected_of p) shape.
Proof using All.
  intros Hall. destruct undisturbed_options as (options & Hoptions & Ho). destruct undisturbed_sqls as (sqls & Hsqls & Hs).
  assert (Htables : forall l, (forall p, p ∈ l -> p ∈ plan) -> exists ls, Forall2 (fun p shape => undisturbed (inspect_table catalog options sqls p) [(pm_table_name p, shape)]
    /\ tables_agree (expected_of p) shape) l ls).
  { rewrite Forall_forall in Hall. induction l as [|p l IH]; intros Hin; [by exists []|]. destruct IH as [ls Hls]; [intros q Hq; apply Hin; by right|].
    assert (Hp : p ∈ plan) by (apply Hin; left). destruct (Hall p Hp) as [Hd Hn]. destruct (Hs p Hp) as (sql & Hsql & Hget).
    destruct (undisturbed_table p sql options sqls Hd Hn (created_each _ _ Hcreated p Hp) Hsql (Ho p Hp) Hget) as (shape & Hr & Ha).
    exists (shape :: ls). by constructor. }
  destruct (Htables plan) as [ls Hls]; [done|]. clear Htables. exists (dict_of_entries (zip names ls)). split.
  - unfold inspect_live_shapes. apply quiet_bind with (1 := Hoptions). apply quiet_bind with (1 := Hsqls).
    assert (Hconcat : zip names ls = concat (zip_with (fun p shape => [(pm_table_name p, shape)]) plan ls)).
    { unfold names. clear -Hls. induction Hls; [done|]. cbn. by f_equal. }
    apply quiet_bind with (zip names ls); [|apply quiet_ret]. rewrite Hconcat. apply undisturbed_fetch_each.
    clear -Hls. induction Hls as [|p shape l ls [Hr _] _ IH]; by constructor.
  - intros p Hp. apply list_elem_of_lookup in Hp as (k & Hk). destruct (Forall2_lookup_l _ _ _ _ _ Hls Hk) as (shape & Hshape & _ & Ha).
    exists shape. split; [|done]. apply (dict_of_entries_perm (zip names ls) (zip names ls)); [done| |].
    + change (NoDup ((zip names ls).*1)). rewrite fst_zip; [exact Hnames|]. unfold names.
      by rewrite length_map, (Forall2_length _ _ _ Hls).
    + apply list_elem_of_lookup. exists k. rewrite lookup_zip_with. unfold names. by rewrite list_lookup_fmap, Hk, Hshape.
Qed.
End plan.

(** ** Verification of a scaffolded plan *)

Context (models : gmap positive table_model) (column_hint : mid -> utext -> annotation).

(** What the declarations of a table must be besides planned: names that SQLite
    tells apart, and composite foreign keys with as many columns on both sides. *)
Record scaffoldable (p : planned_model) : Prop := Scaffoldable {
  sc_declared : table_declared p;
  sc_folded : NoDup (map (fun c => py_casefold (pc_name c)) (pm_columns p));
  sc_lower : NoDup (map (fun c => ascii_lower (pc_name c)) (pm_columns p));
  sc_checks : NoDup (map bc_name (pm_checks p));
  sc_where : forall i e, i ∈ pm_indexes p -> ni_where i = Some e -> columns_within (map pc_name (pm_columns p)) e;
  sc_foreign_keys : forall f, f ∈ pm_foreign_keys p ->
    length (pf_column_names f) = length (pf_target_columns f) /\ pf_column_names f <> [] }.

Lemma two_of_one {A} (P : A -> Prop) `{!forall x, Decision (P x)} l x y : length (filter P l) <= 1 ->
  x ∈ l -> y ∈ l -> P x -> P y -> x = y.
Proof using Type.
  intros Hl Hx Hy HPx HPy. assert (Hfx : x ∈ filter P l) by (by apply list_elem_of_filter).
  assert (Hfy : y ∈ filter P l) by (by apply list_elem_of_filter).
  destruct (filter P l) as [|z [|]]; [by apply elem_of_nil in Hfx| |simpl in Hl; lia].
  apply list_elem_of_singleton in Hfx, Hfy. congruence.
Qed.

(** The plan gives the rest: one AUTOINCREMENT key, distinct names. *)
Lemma planned_facts ms plan p : build_schema_plan models column_hint ms = Ok plan -> p ∈ plan -> scaffoldable p ->
  names_distinct p.
Proof using Type.
  intros Hplan Hp [Hdecl Hfold Hlower Hck Hwhere Hfk]. split; try done; [by apply (planned_index_sets models column_hint ms plan)|].
  intros c Hc Ha c' Hc' Hk'. destruct (planned_from models column_hint ms plan p Hplan Hp) as (m & _ & Hmodel).
  apply plan_model_value in Hmodel as (t & _ & _ & _ & Hcols & _). destruct (td_columns p Hdecl c Hc) as (_ & _ & Hk).
  destruct (Hk Ha) as [Hpk Hcomp]. rewrite Hcols in Hc, Hc'. unfold planned_columns in Hc, Hc'.
  apply list_elem_of_fmap in Hc as (e & -> & He). apply list_elem_of_fmap in Hc' as (e' & -> & He'). cbn [pc_column pc_composite_pk] in *.
  rewrite Hpk, andb_true_r in Hcomp. apply Nat.ltb_ge in Hcomp.
  by rewrite (two_of_one (fun e => co_primary_key e.2 = true) (tm_columns t) e' e Hcomp).
Qed.

Lemma model_statements_ok p : table_declared p -> is_ok (model_statements SCHEMA_DIALECT p) = true.
Proof using Type.
  intros Hp. unfold model_statements. destruct (spells_table p Hp) as (sql & Hsql & _). rewrite Hsql. cbn [mbind res_bind].
  assert (Hm : is_ok (mapR (index_statement SCHEMA_DIALECT (pm_table_name p)) (pm_indexes p)) = true); [|by destruct (mapR _ _)].
  apply is_ok_mapR, Forall_forall. intros i Hi.
  destruct (spells_index (pm_table_name p) i (td_indexes p Hp i Hi)) as (t & Ht & _). unfold index_statement. by rewrite Ht.
Qed.

Lemma undisturbed_give_back : undisturbed give_back tt.
Proof using Type.
  intros [open sh sent script handed] Hs. unfold unscripted in Hs. cbn in Hs. subst script. by destruct open; eexists.
Qed.

#[export] Instance sqlite_quiet : quiet_backend unscripted (SQLiteSchemaBackend catalog).
Proof using Type. split. intros X body a. apply undisturbed_transaction. Qed.

(** A database that the scaffold created verifies.  For any plan the models
    make, with names SQLite tells apart, the scaffold compiles; and once SQLite's
    catalog reports the tables and indexes of its text, as its documentation says,
    undisturbed verification under any policy returns, with no drift on any table:
    what is read back from the stored SQL and the PRAGMA rows (collations,
    AUTOINCREMENT, defaults, CHECKs, partial indexes, foreign keys in another
    order and under other ids) agrees with what the models expect. *)
Lemma scaffold_verifies ms plan policy s
  (Hplan : build_schema_plan models column_hint ms = Ok plan) (Hpolicy : policy <> UnknownPolicy)
  (Hdeclared : Forall scaffoldable plan) (Hcatalog : created catalog plan) (Hscript : cn_script s = []) :
  is_ok (scaffold_sqlite_ddl models column_hint ms) = true /\
  exists result s', sqlite_verify_schema catalog models column_hint ms policy s = (inl result, s') /\
    vr_checked_tables result = map pm_table_name plan /\ vr_issues result = [].
Proof using All.
  rewrite Forall_forall in Hdeclared. split.
  { apply (scaffold_compiles models column_hint SCHEMA_DIALECT BSqlite ms plan Hplan), Forall_forall. intros p Hp.
    pose proof (sc_declared p (Hdeclared p Hp)) as Hd. split; [apply (td_backend p Hd)|by apply model_statements_ok]. }
  assert (Hfacts : forall p, p ∈ plan -> table_declared p /\ names_distinct p).
  { intros p Hp. split; [by apply sc_declared, Hdeclared|]. by apply (planned_facts ms plan), Hdeclared. }
  pose proof (planned_tables models column_hint ms plan Hplan) as Htables.
  destruct (undisturbed_shapes plan Htables Hcatalog) as (shapes & Hshapes & Hagree); [by apply Forall_forall|].
  destruct (runs_verify unscripted (B := SQLiteSchemaBackend catalog) models column_hint ms plan policy shapes Hplan Hpolicy Hshapes)
    as (result & Hrun & Hr).
  { intros p Hp. destruct (Hagree p Hp) as (shape & Hget & Ha). exists (expected_of p), shape.
    split_and!; [by apply expected_of_spec, Hfacts|done|done]. }
  destruct (quiet_finally _ _ _ Hrun undisturbed_give_back s Hscript) as (s' & Hs' & _). exists result, s'. split; [exact Hs'|exact Hr].
Qed.
End agreement.

(** ** A shop *)

Definition text_column (id : positive) (owner : mid) (name : string) : column :=
  Column id (Some (u name)) (Some owner) TEXT "Text" None None None None None false false false false false true false
    None None None None.
Definition key_column (id : positive) (owner : mid) : column :=
  Column id (Some (u "id")) (Some owner) INTEGER "Integer" None None None None None false true false false true true false
    None None None None.

(** Users, and their orders: a foreign key, a CHECK and a partial index. *)
Definition users_columns : list (utext * column) :=
  [(u "id", key_column 1 1);
   (u "email", Column 2 (Some (u "email")) (Some 1%positive) TEXT "Text" (Some (u "NOCASE")) None None None None
      false false true false false true false None None None None);
   (u "joined", Column 3 (Some (u "joined")) (Some 1%positive) TEXT "Text" None None None None None
      false false false false false true true (Some CurrentTimestamp) None None None)].
Definition users : table_model := TableModel 1 BSqlite (u "users") users_columns [] [] [].

Definition open_orders : check_expression := node Eq_ [column_ (u "state"); literal (VStr (u "it's open"))].
Definition known_state : check_expression :=
  node In_ [column_ (u "state"); literal (VStr (u "it's open")); literal (VStr (u "paid"))].
Definition orders_columns : list (utext * column) :=
  [(u "id", key_column 4 2);
   (u "user_id", Column 5 (Some (u "user_id")) (Some 2%positive) INTEGER "Integer" None None None None None
      false false false true false true false None (Some (ColumnReference 1 (Some 1%positive))) (Some CASCADE) None);
   (u "state", Column 6 (Some (u "state")) (Some 2%positive) TEXT "Text" None None None None None
      false false false false false true false (Some (LiteralDefault (VStr (u "it's open")))) None None None)].
Definition orders : table_model := TableModel 2 BSqlite (u "orders") orders_columns
  [NormalizedIndex [u "user_id"] (u "ix_open") false None (Some open_orders)] []
  [BoundCheck (u "ck_state") known_state].

Definition shop_models : gmap positive table_model := list_to_map [(1%positive, users); (2%positive, orders)].
Definition shop_hint (m : mid) (name : utext) : annotation :=
  if bool_decide (m = 2%positive /\ name = u "user_id") then FKCol (Some 1%positive) else OtherAnnotation.

Definition shop_plan : list planned_model :=
  Eval vm_compute in match build_schema_plan shop_models shop_hint [1; 2]%positive with Ok plan => plan | Raise _ => [] end.

(** What SQLite answers after the scaffold of the plan. *)
Definition answers (plan : list planned_model) (sql : utext) (params : list utext) : list (list cell) :=
  if bool_decide (sql = u "PRAGMA table_list") then
    [CText (u "main"); CText (u "sqlite_schema"); CText (u "table"); CInt 5; CInt 0; CInt 0] :: map table_list_row plan
  else if bool_decide (sql = table_sql_query (map pm_table_name plan)) then
    flat_map (fun p => match compile_create_table_sql SCHEMA_DIALECT p with
                       | Ok s => [[CText (pm_table_name p); CText s]] | Raise _ => [] end) plan
  else flat_map (fun p =>
    if bool_decide (sql = pragma "table_xinfo" (pm_table_name p)) then column_rows p
    else if bool_decide (sql = pragma "index_list" (pm_table_name p)) then imap (fun k => index_row (Z.of_nat k)) (reverse (pm_indexes p))
    else if bool_decide (sql = pragma "foreign_key_list" (pm_table_name p)) then
      concat (imap (fun k => foreign_key_rows (Z.of_nat k)) (reverse (pm_foreign_keys p)))
    else flat_map (fun i =>
      if bool_decide (sql = pragma "index_info" (ni_name i)) then index_info_rows (map pc_name (pm_columns p)) i
      else if bool_decide (sql = index_sql_query /\ params = [ni_name i; pm_table_name p]) then
        match compile_create_index_sql SCHEMA_DIALECT (pm_table_name p) i with Ok s => [[CText s]] | Raise _ => [] end
      else []) (pm_indexes p)) plan.

(** Decide a closed proposition by evaluation. *)
Ltac evaluate := apply (bool_decide_unpack _); vm_compute; exact I.
(** The elements of a concrete list, one by one. *)
Ltac each H := repeat (apply elem_of_cons in H as [->|H]); try by apply elem_of_nil in H.

Lemma shop_declared : Forall table_declared shop_plan.
Proof.
  unfold shop_plan. repeat (apply Forall_cons; split); [| |done].
  - split; [done| |intros c H; each H|].
    + intros c H. each H; (split_and!; [first [exact I|evaluate]|first [exact I|reflexivity]|intros Ha; first [discriminate Ha|split; reflexivity]]).
    + intros i H. each H; by split.
  - split; [done| |intros c H; each H; reflexivity|].
    + intros c H. each H; (split_and!; [first [exact I|evaluate]|first [exact I|vm_compute; reflexivity]|intros Ha; first [discriminate Ha|split; reflexivity]]).
    + intros i H. each H; split; done.
Qed.

Lemma shop_scaffoldable : Forall (scaffoldable (U := ascii_unicode)) shop_plan.
Proof.
  apply Forall_forall. intros p Hp. pose proof shop_declared as Hd. rewrite Forall_forall in Hd. specialize (Hd p Hp).
  unfold shop_plan in Hp. each Hp; (split; [done|evaluate|evaluate|evaluate| |intros f H; each H; done]).
  - intros i e H He. each H; discriminate He.
  - intros i e H He. each H; [discriminate He|..]. injection He as <-. cbn [columns_within foldr node column_ literal].
    split_and!; [done|evaluate|exact I..].
Qed.

Lemma shop_created : created (answers shop_plan) shop_plan.
Proof.
  split.
  - exists [[CText (u "main"); CText (u "sqlite_schema"); CText (u "table"); CInt 5; CInt 0; CInt 0]]. split.
    + constructor; [|done]. do 6 eexists. split; [reflexivity|]. right. left. evaluate.
    + vm_compute. reflexivity.
  - exists (map (fun p => match compile_create_table_sql SCHEMA_DIALECT p with Ok s => s | Raise _ => [] end) shop_plan).
    split; [repeat constructor|vm_compute; reflexivity].
  - intros p Hp. unfold shop_plan in Hp. each Hp; split.
    + vm_compute. reflexivity.
    + eexists [], [0%Z], _. split; [reflexivity|]. split_and!; [vm_compute; reflexivity|reflexivity|done].
    + intros i H. each H; vm_compute; reflexivity.
    + intros i sql H Hsql. each H; revert Hsql; vm_compute; intros [= <-]; reflexivity.
    + exists [], []. split_and!; [constructor|vm_compute; reflexivity..].
    + vm_compute. reflexivity.
    + eexists [], [1%Z; 0%Z], _. split; [reflexivity|]. split_and!; [vm_compute|reflexivity|done].
      apply Permutation_swap.
    + intros i H. each H; vm_compute; reflexivity.
    + intros i sql H Hsql. each H; revert Hsql; vm_compute; intros [= <-]; reflexivity.
    + exists [0%Z], (pm_foreign_keys (nth 1 shop_plan (nth 0 shop_plan (PlannedModel [] [] [] users [] [])))).
      split_and!; [evaluate|vm_compute; reflexivity..].
Qed.
