(* ===== verification/CheckBinding.v ===== *)
(** * Binding CHECK expressions and literal defaults

    [_CheckBinder] and [bind_checks] of [_checks.py], [bind_literal_default] of
    [_server_defaults.py]: what a model declares about its columns, checked against
    them and frozen as data.  What the annotation of a column says, resolved by
    [typing], is a parameter; so is pydantic, as in [ColumnCodec]. *)

From S2P Require Import ColumnCodec.
From S2P Require Export TableModel CheckReading.
From Stdlib Require Import Ascii.

(** ** Declarations *)

(** The logical type of a column's annotation: [_extract_logical_type] of the
    resolved hint with its JSON marker, its order-preserving marker and its core
    types, and whether the alias is [GenCol]. *)
Record logical := Logical {
  lg_json : bool; lg_order_preserving : bool; lg_generated : bool; lg_types : list core_type }.

(** What a predicate or an index is given where it wants a column. *)
Inductive declared_operand := IsColumn (c : column) | NotColumn.

(** The predicates of [expressions.py], as a declaration meets them. *)
Inductive declared_predicate {zone : Type} :=
  | CompoundOf (op : compound_operator) (children : list declared_predicate)
  | NegationOf (child : declared_predicate)
  | NullOf (operand : declared_operand) (negated : bool)
  | MembershipOf (operand : declared_operand) (values : list (pyobj (zone:=zone))) (negated : bool)
  | BetweenOf (operand : declared_operand) (low high : pyobj (zone:=zone))
  | ComparisonOf (operand : declared_operand) (op : comparison_operator) (value : pyobj (zone:=zone))
  | ColumnsOf (operand : declared_operand) (op : comparison_operator) (other : declared_operand)
  | OtherPredicate.
Arguments declared_predicate : clear implicits.

Record check_constraint {zone : Type} := CheckConstraint {
  ck_name : option utext; ck_predicate : declared_predicate zone }.
Arguments check_constraint : clear implicits.

(** [CurrentTimestamp] or [LiteralDefault(value)], before it is encoded. *)
Inductive declared_default {zone : Type} := DeclaredNow | DeclaredLiteral (value : pyobj (zone:=zone)).
Arguments declared_default : clear implicits.

Definition comparison_of (op : comparison_operator) : check_operator :=
  match op with OpEq => Eq_ | OpNe => Ne_ | OpGt => Gt_ | OpGte => Gte_ | OpLt => Lt_ | OpLte => Lte_ end.
Definition compound_of_operator (op : compound_operator) : check_operator :=
  match op with OpAnd => And | OpOr => Or end.

(** ** Texts *)

(** The characters of UTF-8 text, or nothing for text that UTF-8 cannot encode. *)
Definition characters (s : string) : option utext :=
  utf8_decode (map (fun c => Z.of_N (N_of_ascii c)) (String.list_ascii_of_string s)).

Definition utf8_text (s : utext) : option string :=
  (fun bytes => String.string_of_list_ascii (map (fun b => ascii_of_N (Z.to_N b)) bytes)) <$> utf8 s.

Section binding.
Context `{U : unicode} {zone : Type} (zone_offset : zone -> civil -> bool -> Z)
  (foreign_offset : positive -> civil -> bool -> option Z) (A : adapter (zone:=zone))
  (annotation : mid -> utext -> res logical).

Abbreviation pyobj_ := (pyobj (zone:=zone)).

(** ** The codec of a column *)

Definition column_annotation (c : column) : option logical :=
  match co_owner c, co_name c with
  | Some owner, Some name => match annotation owner name with Ok l => Some l | Raise _ => None end
  | _, _ => None
  end.

(** The column as its codec sees it. *)
Definition codec_column (c : column) : ColumnCodec.column :=
  let l := column_annotation c in
  ColumnCodec.Column (default EmptyString ∘ utf8_text <$> co_name c) (bool_decide (is_Some (co_owner c))) (co_nullable c)
    (default false (lg_generated <$> l))
    match co_storage_class c with INTEGER => "INTEGER" | REAL => "REAL" | TEXT => "TEXT" | BLOB => "BLOB" end
    (co_storage_type_name c) (co_decimal_precision c) (co_decimal_scale c) (co_text_length c)
    (co_datetime_precision c) (default false (lg_json <$> l)) (default false (lg_order_preserving <$> l))
    (lg_types <$> l) (bool_decide (co_server_default c = Some CurrentTimestamp)).

(** [column.encode(value, backend=backend)] *)
Definition column_encode (c : column) (value : pyobj_) (b : backend) : res pyobj_ :=
  ColumnCodec.encode zone_offset foreign_offset A (codec_column c) value b false false.

(** ** [_CheckBinder] *)

(** [type(value) is logical], for [int], [bool] and [str]. *)
Definition type_is (value : pyobj_) (t : core_type) : bool :=
  match value, t with
  | OInt _, CtInt | OBool _, CtBool | OStr _, CtStr => true
  | _, _ => false
  end.

Definition core_type_is (t t' : core_type) : bool :=
  match t, t' with
  | CtInt, CtInt | CtBool, CtBool | CtStr, CtStr => true
  | _, _ => false
  end.

(** The column an entry of the model's columns names. *)
Definition column_named (name : utext) (columns : list (utext * column)) : option column :=
  snd <$> head (filter (fun e => e.1 = name) columns).

(** The storage a CHECK may read as an [int], a [bool] or a [str]. *)
Definition check_storage (t : core_type) (type_name : string) : bool :=
  match t with
  | CtInt | CtBool => String.eqb type_name "Integer" || String.eqb type_name "Boolean"
  | CtStr => String.eqb type_name "Text"
  | _ => false
  end.

(** [_column]: the descriptor, which is the model's own entry. *)
Definition check_column (owner : mid) (columns : list (utext * column)) (operand : declared_operand)
    : res (column * utext * core_type) :=
  match operand with
  | NotColumn => raise ModelDeclarationError "CHECK requires local columns"
  | IsColumn c =>
      match name ← co_name c; entry ← column_named name columns; Some (name, entry) with
      | None => raise ModelDeclarationError "CHECK requires local columns"
      | Some (name, entry) =>
          if negb (bool_decide (co_owner c = Some owner /\ co_id entry = co_id c))
          then raise ModelDeclarationError "CHECK requires local columns"
          else
            l ← annotation owner name;
            if lg_json l then raise ModelDeclarationError "CHECK requires ordinary, non-JSON storage"
            else match lg_types l with
            | [(CtInt | CtBool | CtStr) as t] =>
                if check_storage t (co_storage_type_name entry) then Ok (entry, name, t)
                else raise ModelDeclarationError "unsupported CHECK column storage"
            | _ => raise ModelDeclarationError "CHECK requires integer, boolean, or ordinary text logical types"
            end
      end
  end.

(** [except (SnekqlError, UnicodeError): raise ModelDeclarationError] around the
    encoding of a constant; text must be encodable. *)
Definition wire_value (encoded : res pyobj_) (msg unsupported : string) : res check_value :=
  match encoded with
  | Raise e => if is_snekql_error e || bool_decide (exn_class e = UnicodeError)
               then raise ModelDeclarationError msg else Raise e
  | Ok (OStr s) => match characters s with
                   | Some text => Ok (VStr text)
                   | None => raise ModelDeclarationError msg
                   end
  | Ok (OInt n) => Ok (VInt n)
  | Ok (OBool x) => Ok (VInt (if x then 1 else 0))
  | Ok ONone => Ok VNone
  | Ok _ => raise ModelDeclarationError unsupported
  end.

(** [_literal] *)
Definition check_literal (b : backend) (c : column) (t : core_type) (value : pyobj_) : res check_expression :=
  if negb (type_is value t) then raise ModelDeclarationError "unsupported CHECK literal"
  else v ← wire_value (column_encode c value b) "invalid CHECK literal for column storage"
             "unsupported CHECK wire literal";
       match v with
       | VNone => raise ModelDeclarationError "unsupported CHECK wire literal"
       | _ => Ok (literal v)
       end.

(** What makes two columns comparable in a CHECK. *)
Definition comparable_columns (c other : column) (t other_t : core_type) : bool :=
  core_type_is t other_t && String.eqb (co_storage_type_name c) (co_storage_type_name other)
  && bool_decide (co_text_collation c = co_text_collation other).

Definition literals (b : backend) (c : column) (t : core_type) (values : list pyobj_) : res (list check_expression) :=
  if negb (nonempty values) || existsb (fun v => negb (type_is v t)) values
  then raise ModelDeclarationError "unsupported CHECK literal"
  else mapR (check_literal b c t) values.

(** [_CheckBinder.bind] *)
Fixpoint bind_predicate (owner : mid) (columns : list (utext * column)) (b : backend)
    (p : declared_predicate zone) : res check_expression :=
  match p with
  | CompoundOf op children =>
      args ← mapR (bind_predicate owner columns b) children; Ok (node (compound_of_operator op) args)
  | NegationOf child => e ← bind_predicate owner columns b child; Ok (node Not [e])
  | NullOf operand negated =>
      '(_, name, _) ← check_column owner columns operand;
      Ok (node (if negated then IsNotNull else IsNull) [column_ name])
  | MembershipOf operand values negated =>
      '(c, name, t) ← check_column owner columns operand;
      args ← literals b c t values;
      Ok (node (if negated then NotIn else In_) (column_ name :: args))
  | BetweenOf operand low high =>
      '(c, name, t) ← check_column owner columns operand;
      args ← literals b c t [low; high];
      Ok (node Between (column_ name :: args))
  | ComparisonOf operand op value =>
      '(c, name, t) ← check_column owner columns operand;
      if type_is value t then
        right ← check_literal b c t value; Ok (node (comparison_of op) [column_ name; right])
      else raise ModelDeclarationError "unsupported CHECK literal"
  | ColumnsOf operand op other =>
      '(c, name, t) ← check_column owner columns operand;
      '(c', name', t') ← check_column owner columns other;
      if comparable_columns c c' t t'
      then Ok (node (comparison_of op) [column_ name; column_ name'])
      else raise ModelDeclarationError
             "CHECK column comparison requires matching storage and logical types"
  | OtherPredicate => raise ModelDeclarationError "unsupported CHECK predicate"
  end.

(** ** [bind_checks] *)

(** [_is_sql_identifier] *)
Definition is_sql_identifier (value : utext) : bool :=
  match value with
  | [] => false
  | first :: _ => (py_isalpha first || (first =? 95)%Z) && forallb (fun c => py_isalnum c || (c =? 95)%Z) value
  end.

(** An entry that is no [CheckConstraint] is [None]; so is a name that is no [str]. *)
Fixpoint bind_check_list (owner : mid) (columns : list (utext * column)) (b : backend) (names : list utext)
    (declarations : list (option (check_constraint zone))) : res (list bound_check) :=
  match declarations with
  | [] => Ok []
  | None :: _ => raise ModelDeclarationError "__checks__ entries must be CheckConstraint declarations"
  | Some d :: declarations =>
      match ck_name d with
      | Some name =>
          if negb (is_sql_identifier name) then raise ModelDeclarationError "CHECK name must be a SQL identifier"
          else if bool_decide (py_casefold name ∈ names)
          then raise ModelDeclarationError "CHECK names must be unique within a table"
          else e ← bind_predicate owner columns b (ck_predicate d);
               checks ← bind_check_list owner columns b (py_casefold name :: names) declarations;
               Ok (BoundCheck name e :: checks)
      | None => raise ModelDeclarationError "CHECK name must be a SQL identifier"
      end
  end.

(** [bind_checks]: [None] for an object that is no list. *)
Definition bind_checks (owner : mid) (columns : list (utext * column)) (b : backend)
    (declarations : option (list (option (check_constraint zone)))) : res (list bound_check) :=
  match declarations with
  | None => raise ModelDeclarationError "__checks__ must be a list"
  | Some declarations => bind_check_list owner columns b [] declarations
  end.

(** ** [bind_literal_default] *)

Definition is_text_storage (c : column) : bool :=
  String.eqb (co_storage_type_name c) "Text" || String.eqb (co_storage_type_name c) "LongText".

Definition literal_storage (c : column) (t : core_type) : bool :=
  match t with
  | CtStr => is_text_storage c
  | CtInt | CtBool => String.eqb (co_storage_type_name c) "Integer" || String.eqb (co_storage_type_name c) "Boolean"
  | _ => false
  end.

Definition fits_length (c : column) (v : check_value) : bool :=
  match v, co_text_length c with
  | VStr s, Some limit => (Z.of_nat (length s) <=? limit)%Z
  | _, _ => true
  end.

Definition wire_default (c : column) (value : pyobj_) (b : backend) : res default_clause :=
  v ← wire_value (value ← validate_model_value A (codec_column c) value; column_encode c value b)
        "LiteralDefault value cannot be encoded" "LiteralDefault requires an integer or text wire value";
  if fits_length c v then Ok (LiteralDefault v)
  else raise ModelDeclarationError "LiteralDefault exceeds the declared text length".

Definition bind_literal_default (c : column) (declared : option (declared_default zone)) (b : backend)
    : res (option default_clause) :=
  match declared with
  | None => Ok None
  | Some DeclaredNow => Ok (Some CurrentTimestamp)
  | Some (DeclaredLiteral value) =>
      match co_owner c, co_name c with
      | Some owner, Some name =>
          l ← annotation owner name;
          match lg_types l with
          | [t] =>
              if lg_json l || negb (literal_storage c t)
              then raise ModelDeclarationError "LiteralDefault requires ordinary integer, Boolean, or text storage"
              else if co_auto_increment c
              then raise ModelDeclarationError "LiteralDefault cannot be combined with auto_increment"
              else match value with
              | ONone =>
                  if negb (co_nullable c) || co_primary_key c
                  then raise ModelDeclarationError "LiteralDefault(None) requires a nullable non-primary-key column"
                  else d ← wire_default c value b; Ok (Some d)
              | _ =>
                  if negb (type_is value t)
                  then raise ModelDeclarationError "LiteralDefault value must match the column logical type"
                  else d ← wire_default c value b; Ok (Some d)
              end
          | _ => raise ModelDeclarationError "LiteralDefault requires ordinary integer, Boolean, or text storage"
          end
      | _, _ => raise ModelDeclarationError "LiteralDefault requires a bound column"
      end
  end.
End binding.

(** ** What binding accepts *)

Section declared_predicate_ind.
Context {zone : Type} (P : declared_predicate zone -> Prop).
Hypothesis Hcompound : forall op children, Forall P children -> P (CompoundOf op children).
Hypothesis Hnegation : forall child, P child -> P (NegationOf child).
Hypothesis Hleaf : forall p, match p with CompoundOf _ _ | NegationOf _ => False | _ => True end -> P p.
Fixpoint declared_predicate_induction (p : declared_predicate zone) : P p :=
  match p with
  | CompoundOf op children =>
      Hcompound op children ((fix go l : Forall P l :=
        match l with
        | [] => Forall_nil_2 _
        | x :: l' => Forall_cons_2 _ _ _ (declared_predicate_induction x) (go l')
        end) children)
  | NegationOf child => Hnegation child (declared_predicate_induction child)
  | p => Hleaf p I
  end.
End declared_predicate_ind.

(** What [&], [|] and [~] build: a conjunction or disjunction has two members. *)
Fixpoint well_built {zone} (p : declared_predicate zone) : Prop :=
  match p with
  | CompoundOf _ children => length children = 2 /\ foldr (fun x Q => well_built x /\ Q) True children
  | NegationOf child => well_built child
  | _ => True
  end.

Lemma decoded_scalars bytes s : utf8_decode bytes = Some s -> Forall scalar s.
Proof.
  remember (length bytes) as n eqn:Hn. revert bytes s Hn. induction n as [n IH] using lt_wf_ind.
  intros bytes s -> H.
  assert (Hstep : forall c rest, length rest < length bytes -> scalar c ->
    cons c <$> utf8_decode rest = Some s -> Forall scalar s).
  { intros c rest Hlt Hc Hr. destruct (utf8_decode rest) as [s'|] eqn:E; [|done]. injection Hr as <-.
    constructor; [done|]. by apply (IH _ Hlt rest). }
  destruct bytes as [|b0 bytes]; cbn [utf8_decode] in H; [injection H as <-; constructor|].
  unfold in_range, continuation in *.
  destruct (_ && _) eqn:E0 in H.
  { apply (Hstep b0 bytes); [simpl; lia| |done]. split; [lia|]. unfold surrogate. lia. }
  destruct bytes as [|b1 bytes]; [done|]. destruct (negb _) eqn:C1 in H; [done|].
  destruct (_ && _) eqn:E1 in H.
  { eapply (Hstep _ bytes); [simpl; lia| |exact H]. split; [lia|]. unfold surrogate. lia. }
  destruct bytes as [|b2 bytes]; [done|]. destruct (negb _) eqn:C2 in H; [done|].
  destruct (_ && _) eqn:E2 in H.
  { cbv zeta in H. destruct (_ || _) eqn:E in H; [done|]. apply orb_false_iff in E as [E Es].
    eapply (Hstep _ bytes); [simpl; lia| |exact H]. split; [lia|exact Es]. }
  destruct bytes as [|b3 bytes]; [done|]. destruct (negb _) eqn:C3 in H; [done|].
  destruct (_ && _) eqn:E3 in H; [|done].
  cbv zeta in H. unfold in_range in H. destruct (_ && _) eqn:E in H; [|done].
  eapply (Hstep _ bytes); [simpl; lia| |exact H]. split; [lia|]. unfold surrogate. lia.
Qed.

Lemma characters_ok s t : characters s = Some t -> text_ok t = true.
Proof.
  intros H. apply decoded_scalars in H. unfold text_ok. apply forallb_forall. intros c Hc.
  rewrite Forall_forall in H. destruct (H c) as [H1 H2]; [by apply list_elem_of_In|]. unfold in_range.
  rewrite H2. lia.
Qed.

Section facts.
Context `{U : unicode} {zone : Type} (zone_offset : zone -> civil -> bool -> Z)
  (foreign_offset : positive -> civil -> bool -> option Z) (A : adapter (zone:=zone))
  (annotation : mid -> utext -> res logical).

Abbreviation bind_predicate_ := (bind_predicate zone_offset foreign_offset A annotation).
Abbreviation check_literal_ := (check_literal zone_offset foreign_offset A annotation).

(** What the storage constructors make, as far as constants are concerned. *)
Definition physical (c : column) : Prop :=
  co_storage_type_name c ∈ ["Integer"; "Boolean"; "Text"; "LongText"] -> co_storage_class c <> BLOB.

(** pydantic writes a string as text. *)
Definition text_stays_text : Prop :=
  forall c s w, dump_python_json A c (OStr s) = Ok w -> exists s', w = OStr s'.

Lemma column_named_in name columns c : column_named name columns = Some c -> (name, c) ∈ columns.
Proof using Type.
  unfold column_named. intros H. apply fmap_Some in H as ([n c'] & H & ->). cbn.
  destruct (filter _ columns) as [|e es] eqn:E; [done|]. injection H as ->.
  assert (Hin : (n, c') ∈ filter (fun e => e.1 = name) columns) by (rewrite E; left).
  apply list_elem_of_filter in Hin as [Hn Hin]. cbn in Hn. by subst.
Qed.

Lemma check_column_ok owner columns operand c name t :
  check_column annotation owner columns operand = Ok (c, name, t) ->
  (name, c) ∈ columns /\
  (exists l, annotation owner name = Ok l /\ lg_json l = false /\ lg_types l = [t]) /\
  check_storage t (co_storage_type_name c) = true.
Proof using Type.
  unfold check_column. destruct operand as [c0|]; [|done]. destruct (co_name c0) as [n|] eqn:Hn; [|done].
  cbn [mbind option_bind]. destruct (column_named n columns) as [c'|] eqn:Hcn; [|done].
  cbn [mbind option_bind]. destruct (negb _); [done|]. intros H. bind_inv H as l Hl. destruct (lg_json l) eqn:Hj; [done|].
  apply column_named_in in Hcn.
  assert (Hfinal : exists t0, lg_types l = [t0] /\ check_storage t0 (co_storage_type_name c') = true /\
    (c', n, t0) = (c, name, t)).
  { destruct (lg_types l) as [|t0 [|]]; [done| |by destruct t0].
    destruct t0; try done; (destruct (check_storage _ _) eqn:Hs; [|done]); injection H as <- <- <-; eauto. }
  destruct Hfinal as (t0 & Ht & Hs & [= <- <- <-]). split_and!; eauto.
Qed.

Lemma codec_not_json c : (exists l, column_annotation annotation c = Some l /\ lg_json l = false) ->
  co_storage_type_name c <> "Json" -> is_json_column (codec_column annotation c) = false.
Proof using Type.
  intros (l & Hl & Hj) Hn. unfold is_json_column, codec_column. rewrite Hl. cbn [col_type_name col_json_marker col_owned].
  cbn [fmap option_fmap option_map default from_option]. rewrite Hj, andb_false_r, orb_false_r.
  by apply String.eqb_neq.
Qed.

(** A constant of an [int] or [bool] column is at most 64 bits wide, and text is
    encodable. *)
Lemma wire_value_ok c t value b msg unsupported v : physical c -> text_stays_text ->
  (exists l, column_annotation annotation c = Some l /\ lg_json l = false) ->
  literal_storage c t = true -> type_is value t = true ->
  wire_value (column_encode zone_offset foreign_offset A annotation c value b) msg unsupported = Ok v ->
  match v with VInt n => int_ok n = true | VStr s => text_ok s = true | VNone => True end.
Proof using Type.
  intros Hc Ht (l & Hl & Hj) Hs Htype H. unfold wire_value, column_encode in H.
  set (k := codec_column annotation c) in *.
  assert (Hk : col_type_name k = co_storage_type_name c) by done.
  assert (Hname : co_storage_type_name c ∈ ["Integer"; "Boolean"; "Text"; "LongText"]).
  { destruct t; try done; unfold literal_storage, is_text_storage in Hs;
      apply orb_true_iff in Hs as [Hs|Hs]; apply String.eqb_eq in Hs as ->; set_solver. }
  assert (Hblob : col_storage_class k <> "BLOB").
  { unfold k, codec_column. cbn [col_storage_class]. specialize (Hc Hname). by destruct (co_storage_class c). }
  assert (Hjson : is_json_column k = false).
  { apply codec_not_json; [by exists l|]. intros E. rewrite E in Hname. set_solver. }
  destruct (ColumnCodec.encode _ _ A k value b false false) as [w|e] eqn:E; [|by destruct (_ || _)].
  apply encode_constant in E; [|done|by rewrite Hk|done|by intros ->|by intros ->].
  assert (Hwide : forall n, (int64_min <= n <= int64_max)%Z -> int_ok n = true).
  { intros n Hn. unfold int_ok. apply Z.ltb_lt. apply (Z.le_lt_trans _ (2 ^ 63)); [|reflexivity].
    unfold int64_min, int64_max in Hn. lia. }
  destruct E as [->|[->|(Hbool & Hdump & Hint)]]; [by injection H as <-..|].
  destruct w; try done; injection H as <- || destruct (characters _) eqn:Hch in H;
    try done; try (injection H as <-); try by eapply characters_ok.
  - by destruct b0.
  - assert (Hi : check_storage t (co_storage_type_name c) = true -> t <> CtStr -> int_ok z = true).
    { intros Hst Hne. apply Hwide, (Hint z eq_refl). rewrite Hk in *.
      destruct t; try done; apply orb_true_iff in Hst as [Hst|Hst]; apply String.eqb_eq in Hst; congruence. }
    destruct t; try (by apply Hi). destruct value; try done. by destruct (Ht _ _ _ Hdump).
Qed.

Lemma check_storage_literal c t : check_storage t (co_storage_type_name c) = true -> literal_storage c t = true.
Proof using Type. unfold literal_storage, is_text_storage. destruct t; try done. cbn. intros ->. done. Qed.

Lemma check_literal_ok c t value b e : physical c -> text_stays_text ->
  (exists l, column_annotation annotation c = Some l /\ lg_json l = false) ->
  check_storage t (co_storage_type_name c) = true -> check_literal_ b c t value = Ok e ->
  operand_ok e = true /\ forall names, columns_within names e.
Proof using Type.
  intros Hc Ht Hl Hs H. unfold check_literal in H. destruct (type_is value t) eqn:Htype; [|done].
  cbn [negb] in H. bind_inv H as v Hv. apply (wire_value_ok c t) in Hv; try done; [|by apply check_storage_literal].
  destruct v; [done|..]; injection H as <-; by split.
Qed.

Lemma literals_ok c t values b es : physical c -> text_stays_text ->
  (exists l, column_annotation annotation c = Some l /\ lg_json l = false) ->
  check_storage t (co_storage_type_name c) = true ->
  literals zone_offset foreign_offset A annotation b c t values = Ok es ->
  length es = length values /\ es <> [] /\ forallb operand_ok es = true /\
  forall names, foldr (fun x P => columns_within names x /\ P) True es.
Proof using Type.
  intros Hc Ht Hl Hs H. unfold literals in H. destruct (_ || _) eqn:E in H; [done|].
  apply orb_false_iff in E as [E _]. pose proof (mapR_length _ _ _ H) as Hlen. apply mapR_Ok in H.
  assert (Hall : Forall (fun e => operand_ok e = true /\ forall names, columns_within names e) es).
  { clear E Hlen. induction H as [|v e values es Hve _ IH]; constructor; [|done].
    by apply (check_literal_ok c t v b). }
  split_and!; [done| | |].
  - intros ->. by destruct values.
  - apply forallb_forall. intros x Hx. rewrite Forall_forall in Hall. by apply Hall, list_elem_of_In.
  - intros names. clear - Hall. induction Hall as [|x l [_ Hx] _ IH]; simpl; auto.
Qed.

(** The entries of a model's columns are bound to it under their names. *)
Definition bound_columns (owner : mid) (columns : list (utext * column)) : Prop :=
  forall n c, (n, c) ∈ columns -> co_name c = Some n /\ co_owner c = Some owner /\ physical c.

Lemma checked_column owner columns operand c name t : bound_columns owner columns ->
  check_column annotation owner columns operand = Ok (c, name, t) ->
  physical c /\ name ∈ map fst columns /\ check_storage t (co_storage_type_name c) = true /\
  exists l, column_annotation annotation c = Some l /\ lg_json l = false.
Proof using Type.
  intros Hb H. apply check_column_ok in H as (Hin & (l & Hl & Hj & _) & Hs).
  destruct (Hb _ _ Hin) as (Hn & Ho & Hp). split_and!; [done| |done|].
  - apply list_elem_of_fmap. by exists (name, c).
  - exists l. unfold column_annotation. by rewrite Ho, Hn, Hl.
Qed.

(** A bound predicate is an expression over the columns of the model that both
    backends can write and read back. *)
Lemma bind_predicate_ok owner columns b p e : bound_columns owner columns -> text_stays_text -> well_built p ->
  bind_predicate_ owner columns b p = Ok e -> declarable e = true /\ columns_within (map fst columns) e.
Proof using Type.
  intros Hb Ht. revert e.
  induction p as [op children IH|child IH|p Hp] using declared_predicate_induction; intros e Hw H; cbn [bind_predicate] in H.
  - bind_inv H as args Hargs. injection H as <-. destruct Hw as [Hlen Hw]. apply mapR_Ok in Hargs.
    destruct children as [|x [|y [|]]]; try done. apply Forall2_cons_inv_l in Hargs as (e1 & args1 & He1 & Hargs & ->).
    apply Forall2_cons_inv_l in Hargs as (e2 & args2 & He2 & Hargs & ->). apply Forall2_nil_inv_l in Hargs as ->.
    rewrite !Forall_cons in IH. destruct IH as (IH1 & IH2 & _), Hw as (Hw1 & Hw2 & _).
    destruct (IH1 _ Hw1 He1) as [D1 C1], (IH2 _ Hw2 He2) as [D2 C2].
    split; [destruct op; cbn; by rewrite D1, D2|by destruct op].
  - bind_inv H as e' He'. injection H as <-. destruct (IH _ Hw He') as [D C]. by split.
  - destruct p as [| |operand negated|operand values negated|operand low high|operand op value|operand op other|];
      try done; cbn [bind_predicate] in H.
    + bind_inv H as x Hx. destruct x as [[c name] t]. injection H as <-. apply checked_column in Hx as (_ & Hin & _); [|done].
      by destruct negated.
    + bind_inv H as x Hx. destruct x as [[c name] t]. bind_inv H as args Hargs. injection H as <-.
      apply checked_column in Hx as (Hp' & Hin & Hs & Hl); [|done].
      apply (literals_ok c t) in Hargs as (_ & Hne & Hok & Hcols); try done. destruct args as [|a args]; [done|].
      destruct negated; (split; [exact Hok|split; [by split|apply Hcols]]).
    + bind_inv H as x Hx. destruct x as [[c name] t]. bind_inv H as args Hargs. injection H as <-.
      apply checked_column in Hx as (Hp' & Hin & Hs & Hl); [|done].
      apply (literals_ok c t) in Hargs as (Hlen & _ & Hok & Hcols); try done.
      destruct args as [|a1 [|a2 [|]]]; try done. cbn [forallb] in Hok. rewrite !andb_true_iff in Hok.
      split; [cbn; destruct Hok as (-> & -> & _); done|split; [by split|apply (Hcols _)]].
    + bind_inv H as x Hx. destruct x as [[c name] t]. destruct (type_is value t) eqn:Hty; [|done].
      bind_inv H as right Hr. injection H as <-. apply checked_column in Hx as (Hp' & Hin & Hs & Hl); [|done].
      apply check_literal_ok in Hr as [Hok Hcols]; try done. specialize (Hcols (map fst columns)).
      destruct op; (split; [exact Hok|split; [by split|by split]]).
    + bind_inv H as x Hx. destruct x as [[c name] t]. bind_inv H as x' Hx'. destruct x' as [[c' name'] t'].
      destruct (comparable_columns _ _ _ _); [|done]. injection H as <-.
      apply checked_column in Hx as (_ & Hin & _); [|done]. apply checked_column in Hx' as (_ & Hin' & _); [|done].
      destruct op; (split; [done|split; [by split|by split]]).
Qed.

(** What [bind_checks] returns. *)
Lemma bind_check_list_ok owner columns b seen ds checks : bound_columns owner columns -> text_stays_text ->
  (forall d, Some d ∈ ds -> well_built (ck_predicate d)) ->
  bind_check_list zone_offset foreign_offset A annotation owner columns b seen ds = Ok checks ->
  NoDup (map (fun k => py_casefold (bc_name k)) checks) /\
  (forall k, k ∈ checks -> py_casefold (bc_name k) ∉ seen /\ is_sql_identifier (bc_name k) = true /\
     declarable (bc_expression k) = true /\ columns_within (map fst columns) (bc_expression k)).
Proof using Type.
  intros Hb Ht. revert seen checks. induction ds as [|[d|] ds IH]; intros seen checks Hw H; cbn [bind_check_list] in H.
  - injection H as <-. split; [constructor|]. intros k Hk. by apply elem_of_nil in Hk.
  - destruct (ck_name d) as [name|]; [|done]. destruct (is_sql_identifier name) eqn:Hid; [|done].
    cbn [negb] in H. case_bool_decide as Hseen; [done|]. bind_inv H as e He. bind_inv H as cs Hcs. injection H as <-.
    destruct (IH _ _ (fun d' Hd' => Hw d' (proj2 (elem_of_cons _ _ _) (or_intror Hd'))) Hcs) as [Hnd Hall].
    destruct (bind_predicate_ok owner columns b (ck_predicate d) e) as [D C]; [done|done|apply Hw; left|done|].
    split.
    + cbn [map]. constructor; [|done]. intros Hin. apply list_elem_of_fmap in Hin as (k & Hk & Hin).
      apply Hall in Hin as [Hn _]. apply Hn. cbn [bc_name] in Hk. rewrite Hk. left.
    + intros k Hk. apply elem_of_cons in Hk as [->|Hk]; [done|].
      destruct (Hall k Hk) as (Hn & Hrest). split; [|done]. intros Hin. apply Hn. by right.
  - done.
Qed.
End facts.
