(* ===== verification/ModelDeclare.v ===== *)
(** * Declaring a table model

    [ModelMeta] of [model.py] for models without callable foreign keys, with
    [Index] of [indexes.py] and [ForeignKeyConstraint] of [constraints.py]: from a
    class body to the table model that schema code reads. *)

From S2P Require Import ColumnCodec.
From S2P Require Export CheckBinding.

(** ** [Index] *)

(** An entry of [prefix_lengths]. *)
Inductive prefix_entry := NoPrefix | PrefixOf (n : Z) | OtherPrefix.
(** [prefix_lengths]: nothing, a tuple, another object. *)
Inductive prefix_object := NoPrefixes | PrefixTuple (l : list prefix_entry) | OtherObject.

Record index {zone : Type} := Index {
  ix_columns : list column; ix_unique : bool; ix_name : option utext;
  ix_prefix_lengths : option (list (option Z)); ix_where : option (declared_predicate zone) }.
Arguments index : clear implicits.

(** The characters a LONGTEXT holds at most. *)
Definition long_text_capacity : Z := 2 ^ 32 - 1.

(** [_validate_index_storage] *)
Definition validate_index_storage (c : column) (prefix : option Z) : res unit :=
  _ ← match prefix with
      | Some n =>
          if negb (is_text_storage c) then raise ModelDeclarationError "index prefixes require ordinary text storage"
          else
            let capacity := if String.eqb (co_storage_type_name c) "LongText" then Some long_text_capacity
                            else co_text_length c in
            match capacity with
            | Some limit => guardR (n <=? limit)%Z ModelDeclarationError
                              "index prefix length exceeds the column character capacity"
            | None => Ok tt
            end
      | None => Ok tt
      end;
  guardR (co_keyable c || String.eqb (co_storage_type_name c) "LongText" && bool_decide (is_Some prefix))
    ModelDeclarationError "column storage does not support index declarations".

(** The loop of [Index.__init__]: the columns seen so far. *)
Fixpoint index_members (seen : list positive) (members : list (declared_operand * prefix_entry))
    : res (list (column * option Z)) :=
  match members with
  | [] => Ok []
  | (NotColumn, _) :: _ => raise ModelDeclarationError "Index() arguments must be snekql column descriptors"
  | (IsColumn c, prefix) :: members =>
      prefix ← match prefix with
               | NoPrefix => Ok None
               | PrefixOf n => if (0 <? n)%Z then Ok (Some n)
                               else raise ModelDeclarationError "index prefix lengths must be positive integers or None"
               | OtherPrefix => raise ModelDeclarationError "index prefix lengths must be positive integers or None"
               end;
      _ ← validate_index_storage c prefix;
      if bool_decide (co_id c ∈ seen) then raise ModelDeclarationError "Index() cannot repeat a column"
      else rest ← index_members (co_id c :: seen) members; Ok ((c, prefix) :: rest)
  end.

(** [Index.__init__] *)
Definition make_index {zone} (columns : list declared_operand) (unique : bool) (name : option utext)
    (prefix_lengths : prefix_object) (where_ : option (declared_predicate zone)) : res (index zone) :=
  if negb (nonempty columns) then raise ModelDeclarationError "Index() requires at least one column"
  else
    prefixes ← match prefix_lengths with
               | NoPrefixes => Ok (map (fun _ => NoPrefix) columns)
               | PrefixTuple l =>
                   if length l =? length columns then Ok l
                   else raise ModelDeclarationError "prefix_lengths must be a tuple with one entry per index column"
               | OtherObject =>
                   raise ModelDeclarationError "prefix_lengths must be a tuple with one entry per index column"
               end;
    members ← index_members [] (combine columns prefixes);
    Ok (Index zone (map fst members) unique name
          match prefix_lengths with PrefixTuple _ => Some (map snd members) | _ => None end where_).

(** [prefix_lengths or (None,) times the number of columns] *)
Definition all_prefixes {A} (columns : list A) (lengths : option (list (option Z))) : list (option Z) :=
  match lengths with
  | Some (_ :: _ as l) => l
  | _ => map (fun _ => None) columns
  end.

(** ** [ForeignKeyConstraint] *)

(** The loop over the members of one side. *)
Fixpoint foreign_key_members (seen : list positive) (members : list declared_operand) : res (list column) :=
  match members with
  | [] => Ok []
  | NotColumn :: _ => raise ModelDeclarationError "foreign key members must be column descriptors"
  | IsColumn c :: members =>
      if negb (co_keyable c) then raise ModelDeclarationError "column storage does not support foreign keys"
      else if bool_decide (co_id c ∈ seen)
      then raise ModelDeclarationError "foreign key cannot repeat a column within either tuple"
      else rest ← foreign_key_members (co_id c :: seen) members; Ok (c :: rest)
  end.

(** An action given to a constructor: none, a known one, another object. *)
Inductive declared_action := NoAction | KnownAction (a : referential_action) | UnknownAction.

Definition require_action (a : declared_action) : res (option referential_action) :=
  match a with
  | NoAction => Ok None
  | KnownAction a => Ok (Some a)
  | UnknownAction => raise ModelDeclarationError "unsupported foreign-key referential action"
  end.

(** [references] is [None] when it is no tuple. *)
Definition make_foreign_key (columns : list declared_operand) (references : option (list declared_operand))
    (on_delete on_update : declared_action) : res foreign_key_constraint :=
  match references with
  | None => raise ModelDeclarationError "foreign key requires equally sized nonempty column tuples"
  | Some references =>
      if negb (nonempty columns) || negb (length columns =? length references)
      then raise ModelDeclarationError "foreign key requires equally sized nonempty column tuples"
      else
        cs ← foreign_key_members [] columns;
        rs ← foreign_key_members [] references;
        on_delete ← require_action on_delete;
        on_update ← require_action on_update;
        Ok (ForeignKeyConstraint cs rs on_delete on_update)
  end.

(** ** Class bodies *)

(** A column of a class body: the descriptor its constructor made, its [default] and
    [default_factory], and [nullable=]. *)
Inductive python_default {zone : Type} := NoDefault | ServerDefault (d : declared_default zone) | OtherDefault.
Arguments python_default : clear implicits.
Record column_declaration {zone : Type} := ColumnDeclaration {
  cd_column : column; cd_default : python_default zone; cd_default_factory : bool; cd_nullable_declared : option bool }.
Arguments column_declaration : clear implicits.

(** A base class: a framework base with its backend, a concrete model, [Generic],
    anything else. *)
Inductive base_class := FrameworkBase (b : option backend) | ConcreteModel | GenericBase | MixinBase.

(** An object of the namespace where a list is wanted: an entry of another class is
    [None]. *)
Inductive declared_list {A : Type} := Absent | ListOf (l : list (option A)) | NotAList.
Arguments declared_list : clear implicits.
(** [__checks__]: what the classmethod returns, unless it is no synchronous
    classmethod. *)
Inductive declared_method {A : Type} := NoMethod | ReturnsList (l : list (option A)) | ReturnsOther
  | NotAMethod | AsyncMethod.
Arguments declared_method : clear implicits.

Record class_body {zone : Type} := ClassBody {
  cb_name : utext; cb_bases : list base_class; cb_backend : option backend;
  cb_tablename : option (option utext);
  cb_columns : list (utext * column_declaration zone);
  cb_indexes : declared_list (index zone);
  cb_foreign_keys : declared_list foreign_key_constraint;
  cb_checks : declared_method (check_constraint zone) }.
Arguments class_body : clear implicits.

(** [str.isupper], [islower], [isdigit] and [lower] of one character. *)
Class letter_case := LetterCase {
  py_isupper : Z -> bool; py_islower : Z -> bool; py_isdigit : Z -> bool; py_lower : Z -> utext }.

(** [_infer_table_name] *)
Fixpoint infer_table_name `{letter_case} (after_lower : bool) (class_name : utext) : utext :=
  match class_name with
  | [] => []
  | c :: class_name =>
      (if py_isupper c && after_lower then [95%Z] else []) ++ py_lower c
      ++ infer_table_name (py_islower c || py_isdigit c) class_name
  end.

(** [_validate_model_bases] *)
Definition validate_model_bases (bases : list base_class) : res unit :=
  iterR (fun base => match base with
    | FrameworkBase _ | GenericBase => Ok tt
    | ConcreteModel => raise ModelDeclarationError "cannot subclass concrete model"
    | MixinBase => raise ModelDeclarationError "model mixin bases are not supported"
    end) bases.

(** [_resolve_backend_family] *)
Definition resolve_backend_family (bases : list base_class) (configured : option backend) : backend :=
  match configured with
  | Some b => b
  | None =>
      match filter is_Some (map (fun base => match base with FrameworkBase b => b | _ => None end) bases) with
      | Some b :: _ => b
      | _ => BSqlite
      end
  end.

(** [Attr.__set_name__] *)
Definition set_name (owner : mid) (name : utext) (c : column) : res column :=
  if bool_decide (co_owner c = None \/ co_owner c = Some owner /\ co_name c = Some name) then
    Ok (Column (co_id c) (Some name) (Some owner) (co_storage_class c) (co_storage_type_name c)
      (co_text_collation c) (co_text_length c) (co_decimal_precision c) (co_decimal_scale c) (co_datetime_precision c)
      (co_nullable c) (co_primary_key c) (co_unique c) (co_index c) (co_auto_increment c) (co_keyable c) (co_instant c)
      (co_server_default c) (co_foreign_key_target c) (co_on_delete c) (co_on_update c))
  else raise ModelDeclarationError "column descriptor is already bound; create a new descriptor".

Definition with_nullable (nullable : bool) (c : column) : column :=
  Column (co_id c) (co_name c) (co_owner c) (co_storage_class c) (co_storage_type_name c)
    (co_text_collation c) (co_text_length c) (co_decimal_precision c) (co_decimal_scale c) (co_datetime_precision c)
    nullable (co_primary_key c) (co_unique c) (co_index c) (co_auto_increment c) (co_keyable c) (co_instant c)
    (co_server_default c) (co_foreign_key_target c) (co_on_delete c) (co_on_update c).
Definition with_server_default (d : option default_clause) (c : column) : column :=
  Column (co_id c) (co_name c) (co_owner c) (co_storage_class c) (co_storage_type_name c)
    (co_text_collation c) (co_text_length c) (co_decimal_precision c) (co_decimal_scale c) (co_datetime_precision c)
    (co_nullable c) (co_primary_key c) (co_unique c) (co_index c) (co_auto_increment c) (co_keyable c) (co_instant c)
    d (co_foreign_key_target c) (co_on_delete c) (co_on_update c).

Section declare.
Context `{U : unicode} `{L : letter_case} {zone : Type} (zone_offset : zone -> civil -> bool -> Z)
  (foreign_offset : positive -> civil -> bool -> option Z) (A : adapter (zone:=zone))
  (annotation : mid -> utext -> res logical).
(** [column_admits_none]: what an annotation says about [None], if it resolves. *)
Context (admits_none : mid -> utext -> option bool).
(** The classes declared so far. *)
Context (models : gmap positive table_model).

Abbreviation index_ := (index zone).
Abbreviation codec_column_ := (codec_column annotation).

(** [_resolve_table_name] *)
Definition resolve_table_name (body : class_body zone) : res utext :=
  match cb_tablename body with
  | Some None => raise ModelDeclarationError "invalid table identifier"
  | Some (Some name) =>
      if is_sql_identifier name then Ok name else raise ModelDeclarationError "invalid table identifier"
  | None =>
      let name := infer_table_name false (cb_name body) in
      if is_sql_identifier name then Ok name else raise ModelDeclarationError "invalid table identifier"
  end.

(** *** Columns *)

(** [_is_generated_annotation] *)
Definition is_generated (owner : mid) (name : utext) : bool :=
  match annotation owner name with Ok l => lg_generated l | Raise _ => false end.

(** [_validate_column_declaration]: the server default it routes from [default]. *)
Definition validate_column_declaration (owner : mid) (name : utext) (d : column_declaration zone)
    : res (option (declared_default zone)) :=
  let c := cd_column d in
  if co_unique c && co_primary_key c then raise ModelDeclarationError "primary-key columns cannot be unique"
  else if co_index c && co_unique c then raise ModelDeclarationError "unique columns are already indexed"
  else if co_index c && co_primary_key c then raise ModelDeclarationError "primary-key columns are already indexed"
  else if co_auto_increment c && (negb (co_primary_key c) || negb (String.eqb (co_storage_type_name c) "Integer"))
  then raise ModelDeclarationError "auto-increment requires an integer primary-key column"
  else match cd_default d with
  | ServerDefault default =>
      if negb (is_generated owner name)
      then raise ModelDeclarationError "Server defaults require a generated (GenCol) column"
      else if cd_default_factory d
      then raise ModelDeclarationError "Server defaults cannot be combined with default_factory"
      else Ok (Some default)
  | _ => Ok None
  end.

(** A column that is bound: its name, descriptor, server default and [nullable=]. *)
Record bound_column := BoundColumn {
  bd_name : utext; bd_column : column; bd_default : option (declared_default zone); bd_nullable_declared : option bool }.

(** [_bind_columns], after [__set_name__]. *)
Definition bind_column (owner : mid) (e : utext * column_declaration zone) : res bound_column :=
  if negb (is_sql_identifier e.1) then raise ModelDeclarationError "invalid column identifier"
  else default ← validate_column_declaration owner e.1 e.2;
       Ok (BoundColumn e.1 (cd_column e.2) default (cd_nullable_declared e.2)).

Definition name_column (owner : mid) (e : utext * column_declaration zone)
    : res (utext * column_declaration zone) :=
  c ← set_name owner e.1 (cd_column e.2);
  Ok (e.1, ColumnDeclaration zone c (cd_default e.2) (cd_default_factory e.2) (cd_nullable_declared e.2)).

(** [require_model_backend] of the owner of a foreign key's target: the model
    under declaration has its backend already. *)
Definition backend_of (owner : mid) (b : backend) (target : mid) : res backend :=
  if bool_decide (target = owner) then Ok b
  else match models !! target with
       | Some t => Ok (tm_backend t)
       | None => raise ModelDeclarationError "schema setup requires snekql table models"
       end.

(** [_validate_foreign_key_backends] *)
Definition validate_foreign_key_backend (owner : mid) (b : backend) (e : bound_column) : res unit :=
  match co_foreign_key_target (bd_column e) with
  | None => Ok tt
  | Some target =>
      match cr_owner target with
      | None => raise ModelDeclarationError "foreign key target is not bound to a model"
      | Some target_model =>
          target_backend ← backend_of owner b target_model;
          guardR (bool_decide (target_backend = b)) ModelDeclarationError "backend mismatch"
      end
  end.

(** [_validate_column_nullability], which derives an omitted [nullable=]. *)
Definition validate_column_nullability (owner : mid) (e : bound_column) : res bound_column :=
  match admits_none owner (bd_name e), bd_nullable_declared e with
  | None, Some _ => Ok e
  | None, None => raise ModelDeclarationError
                    "column annotation cannot be resolved; declare nullable=True or nullable=False explicitly"
  | Some admits, declared =>
      if co_primary_key (bd_column e) && admits then raise ModelDeclarationError "primary-key column cannot include None"
      else match declared with
      | None => Ok (BoundColumn (bd_name e) (with_nullable admits (bd_column e)) (bd_default e) None)
      | Some declared =>
          if admits && negb declared
          then raise ModelDeclarationError "column annotation includes None but is not declared nullable=True"
          else if negb admits && declared
          then raise ModelDeclarationError "column is declared nullable=True but its annotation does not include None"
          else Ok e
      end
  end.

Definition bind_default (b : backend) (e : bound_column) : res (utext * column) :=
  d ← bind_literal_default zone_offset foreign_offset A annotation (bd_column e) (bd_default e) b;
  Ok (bd_name e, with_server_default d (bd_column e)).

(** [_validate_column_contracts], without its warnings *)
Definition validate_column_contract (b : backend) (e : utext * column) : res unit :=
  validate_temporal_declaration (codec_column_ e.2) b.

(** *** Indexes *)

(** [require_index_declaration] *)
Definition require_index_declaration (b : backend) (i : index_) : res unit :=
  let prefixes := all_prefixes (ix_columns i) (ix_prefix_lengths i) in
  _ ← iterR (fun e => validate_index_storage e.1 e.2) (combine (ix_columns i) prefixes);
  _ ← guardR (bool_decide (ix_where i = None) || bool_decide (b = BSqlite)) ModelDeclarationError
        "partial-index predicates require SQLite";
  match ix_prefix_lengths i with
  | None => Ok tt
  | Some lengths =>
      _ ← guardR (bool_decide (b = BMariadb)) ModelDeclarationError "index prefix declarations require MariaDB";
      iterR (fun e =>
        match e.2 with
        | None => Ok tt
        | Some _ =>
            match co_owner e.1, co_name e.1 with
            | Some owner, Some name =>
                l ← annotation owner name;
                guardR (negb (lg_json l) && match lg_types l with [CtStr] => true | _ => false end)
                  ModelDeclarationError "index prefixes require ordinary string logical types"
            | _, _ => raise ModelDeclarationError "index prefix columns must be bound to a model"
            end
        end) (combine (ix_columns i) lengths)
  end.

(** [column_names_by_id] *)
Definition name_of (columns : list (utext * column)) (c : column) : option utext :=
  fst <$> head (filter (fun e => co_id e.2 = co_id c) columns).

Definition index_column_name (owner : mid) (columns : list (utext * column)) (c : column) : res utext :=
  if negb (bool_decide (co_owner c = Some owner))
  then raise ModelDeclarationError "index columns must belong to the declaring model"
  else match name_of columns c with
       | Some name => Ok name
       | None => raise ModelDeclarationError "index columns must be declared model columns"
       end.

(** ['_'.join] *)
Fixpoint join_underscore (names : list utext) : utext :=
  match names with
  | [] => []
  | [name] => name
  | name :: names => name ++ [95%Z] ++ join_underscore names
  end.

Definition default_index_name (unique : bool) (table_name : utext) (names : list utext) : utext :=
  u (if unique then "ux" else "ix") ++ [95%Z] ++ table_name ++ [95%Z] ++ join_underscore names.

(** One pass of the loop of [_bind_indexes]. *)
Definition bind_index (owner : mid) (table_name : utext) (columns : list (utext * column)) (b : backend)
    (declaration : option index_) : res normalized_index :=
  match declaration with
  | None => raise ModelDeclarationError "__indexes__ entries must be Index declarations"
  | Some i =>
      _ ← require_index_declaration b i;
      names ← mapR (index_column_name owner columns) (ix_columns i);
      name ← match ix_name i with
             | None => Ok (default_index_name (ix_unique i) table_name names)
             | Some name => if is_sql_identifier name then Ok name
                            else raise ModelDeclarationError "invalid index identifier"
             end;
      where_ ← match ix_where i with
               | None => Ok None
               | Some p => e ← bind_predicate zone_offset foreign_offset A annotation owner columns b p; Ok (Some e)
               end;
      Ok (NormalizedIndex names name (ix_unique i) (ix_prefix_lengths i) where_)
  end.

Definition indexed_parts (i : normalized_index) : list utext * list (option Z) * option check_expression :=
  (ni_column_names i, all_prefixes (ni_column_names i) (ni_prefix_lengths i), ni_where i).

(** [_validate_index_set]: the names and column lists seen so far. *)
Fixpoint validate_index_set (names : list utext) (lists : list (list utext * list (option Z) * option check_expression))
    (indexes : list normalized_index) : res unit :=
  match indexes with
  | [] => Ok tt
  | i :: indexes =>
      if bool_decide (ni_name i ∈ names) then raise ModelDeclarationError "duplicate index name"
      else if bool_decide (indexed_parts i ∈ lists) then raise ModelDeclarationError "duplicate index column list"
      else validate_index_set (ni_name i :: names) (indexed_parts i :: lists) indexes
  end.

(** The indexes that [unique=True] and [index=True] of single columns make. *)
Definition single_indexes (table_name : utext) (columns : list (utext * column)) : list normalized_index :=
  map (fun e => NormalizedIndex [e.1] (default_index_name true table_name [e.1]) true None None)
    (filter (fun e => co_unique e.2 = true) columns)
  ++ map (fun e => NormalizedIndex [e.1] (default_index_name false table_name [e.1]) false None None)
    (filter (fun e => co_index e.2 = true) columns).

(** [_bind_indexes] *)
Definition bind_indexes (owner : mid) (table_name : utext) (columns : list (utext * column)) (b : backend)
    (declared : declared_list index_) : res (list normalized_index) :=
  declarations ← match declared with
                 | Absent => Ok []
                 | ListOf l => Ok l
                 | NotAList => raise ModelDeclarationError
                                 "__indexes__ must be a list or a classmethod returning a list"
                 end;
  table_indexes ← mapR (bind_index owner table_name columns b) declarations;
  _ ← validate_index_set [] [] (single_indexes table_name columns ++ table_indexes);
  Ok table_indexes.

(** *** Foreign keys *)

Definition same_storage (c target : column) : bool :=
  bool_decide (co_storage_class c = co_storage_class target)
  && String.eqb (co_storage_type_name c) (co_storage_type_name target)
  && bool_decide (co_text_length c = co_text_length target)
  && bool_decide (co_text_collation c = co_text_collation target)
  && bool_decide (co_datetime_precision c = co_datetime_precision target)
  && bool_decide (co_decimal_precision c = co_decimal_precision target)
  && bool_decide (co_decimal_scale c = co_decimal_scale target).

(** [any(column is owned for owned in columns.values())] *)
Definition is_owned (c : column) (columns : list (utext * column)) : bool :=
  existsb (fun e => bool_decide (co_id e.2 = co_id c)) columns.

(** The names of the primary key, in declaration order. *)
Definition primary_key_names (columns : list (utext * column)) : list utext :=
  map fst (filter (fun e => co_primary_key e.2 = true) columns).

(** The columns a foreign key may refer to: all of a primary key in its order, a
    unique column, or all of a unique index. *)
Definition unique_target (references : list column) (columns : list (utext * column))
    (indexes : list normalized_index) : bool :=
  let names := map co_name references in
  bool_decide (names = map Some (primary_key_names columns))
  || match references with [c] => co_unique c | _ => false end
  || existsb (fun i => ni_unique i && bool_decide (map Some (ni_column_names i) = names)
                       && negb (any_length (ni_prefix_lengths i)) && bool_decide (ni_where i = None)) indexes.

Definition sets_null (k : foreign_key_constraint) : bool :=
  bool_decide (fc_on_delete k = Some SET_NULL) || bool_decide (fc_on_update k = Some SET_NULL).

Definition validate_member (k : foreign_key_constraint) (e : column * column) : res unit :=
  if negb (same_storage e.1 e.2) then raise ModelDeclarationError "foreign key storage mismatch"
  else if sets_null k && (co_primary_key e.1 || negb (co_nullable e.1))
  then raise ModelDeclarationError "SET NULL requires every foreign key column to be nullable"
  else Ok tt.

(** [_validate_foreign_key_target] *)
Definition validate_foreign_key_target (owner : mid) (b : backend) (k : foreign_key_constraint)
    (columns : list (utext * column)) (indexes : list normalized_index) : res unit :=
  match fc_references k with
  | [] => raise IndexError "tuple index out of range"
  | reference :: _ =>
      match co_owner reference with
      | None => raise ModelDeclarationError "foreign key target must be bound to a table model"
      | Some target =>
          '(target_columns, target_indexes, target_backend) ←
            (if bool_decide (target = owner) then Ok (columns, indexes, b)
             else match models !! target with
                  | Some t => Ok (tm_columns t, tm_indexes t, tm_backend t)
                  | None => raise ModelDeclarationError "foreign key target must be bound to a table model"
                  end);
          if negb (forallb (fun c => bool_decide (co_owner c = Some target) && is_owned c target_columns) (fc_references k))
          then raise ModelDeclarationError "foreign key targets must belong to one table model"
          else if negb (bool_decide (b = target_backend)) then raise ModelDeclarationError "foreign key backend mismatch"
          else if negb (unique_target (fc_references k) target_columns target_indexes)
          then raise ModelDeclarationError
                 "foreign key target must match a complete ordered primary key or unique index"
          else iterR (validate_member k) (combine (fc_columns k) (fc_references k))
      end
  end.

Definition bind_foreign_key (owner : mid) (b : backend) (columns : list (utext * column))
    (indexes : list normalized_index) (declaration : option foreign_key_constraint) : res foreign_key_constraint :=
  match declaration with
  | None => raise ModelDeclarationError "__foreign_keys__ entries must be ForeignKeyConstraint declarations"
  | Some k =>
      if negb (forallb (fun c => bool_decide (co_owner c = Some owner) && is_owned c columns) (fc_columns k))
      then raise ModelDeclarationError "foreign key columns must belong to the declaring model"
      else _ ← validate_foreign_key_target owner b k columns indexes; Ok k
  end.

(** [_bind_foreign_keys] *)
Definition bind_foreign_keys (owner : mid) (b : backend) (columns : list (utext * column))
    (indexes : list normalized_index) (declared : declared_list foreign_key_constraint)
    : res (list foreign_key_constraint) :=
  match declared with
  | Absent => Ok []
  | ListOf l => mapR (bind_foreign_key owner b columns indexes) l
  | NotAList => raise ModelDeclarationError "__foreign_keys__ must be a list"
  end.

(** [_bind_checks] *)
Definition bind_model_checks (owner : mid) (b : backend) (columns : list (utext * column))
    (declared : declared_method (check_constraint zone)) : res (list bound_check) :=
  match declared with
  | NoMethod => Ok []
  | NotAMethod => raise ModelDeclarationError "__checks__ must be a classmethod"
  | AsyncMethod => raise ModelDeclarationError "__checks__ must be synchronous"
  | ReturnsList l => bind_checks zone_offset foreign_offset A annotation owner columns b (Some l)
  | ReturnsOther => bind_checks zone_offset foreign_offset A annotation owner columns b None
  end.

(** *** [ModelMeta.__new__] *)

Definition bind_columns (owner : mid) (b : backend) (declared : list (utext * column_declaration zone))
    : res (list (utext * column)) :=
  bound ← mapR (bind_column owner) declared;
  _ ← iterR (validate_foreign_key_backend owner b) bound;
  bound ← mapR (validate_column_nullability owner) bound;
  columns ← mapR (bind_default b) bound;
  _ ← iterR (validate_column_contract b) columns;
  Ok columns.

Definition declare_model (owner : mid) (body : class_body zone) : res table_model :=
  _ ← validate_model_bases (cb_bases body);
  named ← mapR (name_column owner) (cb_columns body);
  table_name ← resolve_table_name body;
  let b := resolve_backend_family (cb_bases body) (cb_backend body) in
  columns ← bind_columns owner b named;
  indexes ← bind_indexes owner table_name columns b (cb_indexes body);
  foreign_keys ← bind_foreign_keys owner b columns indexes (cb_foreign_keys body);
  checks ← bind_model_checks owner b columns (cb_checks body);
  Ok (TableModel owner b table_name columns indexes foreign_keys checks).
End declare.

(** ** Declaring one class after the other *)

Section program.
Context `{U : unicode} `{L : letter_case} {zone : Type} (zone_offset : zone -> civil -> bool -> Z)
  (foreign_offset : positive -> civil -> bool -> option Z) (A : adapter (zone:=zone))
  (annotation : mid -> utext -> res logical) (admits_none : mid -> utext -> option bool).

(** The classes that a module declares, each a new one; a declaration that raises
    declares nothing and ends the module. *)
Fixpoint declare_models (models : gmap positive table_model) (bodies : list (mid * class_body zone))
    : res (gmap positive table_model) :=
  match bodies with
  | [] => Ok models
  | (owner, body) :: bodies =>
      t ← declare_model zone_offset foreign_offset A annotation admits_none models owner body;
      declare_models (<[owner := t]> models) bodies
  end.
End program.
