(* ===== verification/ColumnStorage.v ===== *)
(** * Column storage constructors

    [Attr.__init__] and [ForeignKey] of [storage.py], with the column constructors
    of [storage.py] (SQLite) and [mariadb/storage.py]: from the arguments of a call
    to the declaration that a class body holds.  The typed overloads of a
    constructor have no run-time content. *)

From S2P Require Export ModelDeclare.

(** An argument whose type is checked at run time. *)
Inductive argument := IntArgument (n : Z) | TextArgument (s : utext) | OtherArgument.

(** The physical storage a constructor chooses. *)
Record storage := Storage {
  so_class : storage_class; so_type_name : string; so_text_collation : option utext; so_text_length : option Z;
  so_decimal_precision : option Z; so_decimal_scale : option Z; so_datetime_precision : option Z }.
Definition plain_storage (c : storage_class) (type_name : string) : storage := Storage c type_name None None None None None.

(** The storage that a column has. *)
Definition storage_of (c : column) : storage :=
  Storage (co_storage_class c) (co_storage_type_name c) (co_text_collation c) (co_text_length c)
    (co_decimal_precision c) (co_decimal_scale c) (co_datetime_precision c).

Definition MAX_TEXT_LENGTH : Z := 16383.
Definition DECIMAL_MAX_PRECISION : Z := 65.
Definition DECIMAL_MAX_SCALE : Z := 30.

Definition SQLITE_COLLATIONS : list utext := map u ["BINARY"; "NOCASE"; "RTRIM"]%string.
Definition MARIADB_COLLATIONS : list utext := map u ["utf8mb4_bin"; "utf8mb4_general_ci"; "utf8mb4_unicode_ci"]%string.

Definition require_collation (allowed : list utext) (collation : argument) : res utext :=
  match collation with
  | TextArgument s =>
      if bool_decide (s ∈ allowed) then Ok s else raise ModelDeclarationError "unsupported text collation"
  | _ => raise ModelDeclarationError "unsupported text collation"
  end.

Section constructors.
Context {zone : Type}.

(** The keyword arguments that constructors share. *)
Record column_options := ColumnOptions {
  op_primary_key : bool; op_unique : bool; op_index : bool; op_nullable : option bool;
  op_default : python_default zone; op_default_factory : bool }.

(** A new descriptor; [instant] is what its annotation will resolve to. *)
Context (id : positive) (instant : bool).

(** [Attr.__init__] *)
Definition make_attr (s : storage) (o : column_options) (auto_increment keyable : bool)
    (foreign_key_target : option column_reference) (on_delete on_update : declared_action)
    : res (column_declaration zone) :=
  on_delete ← require_action on_delete;
  on_update ← require_action on_update;
  match op_default o, op_default_factory o with
  | ServerDefault _, true | OtherDefault, true =>
      raise ModelDeclarationError "default and default_factory are mutually exclusive"
  | _, _ =>
      Ok (ColumnDeclaration zone
        (Column id None None (so_class s) (so_type_name s) (so_text_collation s) (so_text_length s)
           (so_decimal_precision s) (so_decimal_scale s) (so_datetime_precision s)
           (bool_decide (op_nullable o = Some true)) (op_primary_key o) (op_unique o) (op_index o) auto_increment keyable
           instant None foreign_key_target on_delete on_update)
        (op_default o) (op_default_factory o) (op_nullable o))
  end.

Definition make_column (s : storage) (o : column_options) : res (column_declaration zone) :=
  make_attr s o false true None NoAction NoAction.

(** Constructors without [primary_key=]. *)
Definition not_a_key (o : column_options) : column_options :=
  ColumnOptions false (op_unique o) (op_index o) (op_nullable o) (op_default o) (op_default_factory o).
(** Nor [unique=] and [index=]. *)
Definition not_indexed (o : column_options) : column_options :=
  ColumnOptions false false false (op_nullable o) (op_default o) (op_default_factory o).

(** ** SQLite *)

Definition sqlite_Integer (o : column_options) (auto_increment : bool) : res (column_declaration zone) :=
  make_attr (plain_storage INTEGER "Integer") o auto_increment true None NoAction NoAction.
Definition sqlite_Real (o : column_options) : res (column_declaration zone) := make_column (plain_storage REAL "Real") o.
Definition sqlite_Text (o : column_options) (collation : argument) : res (column_declaration zone) :=
  collation ← require_collation SQLITE_COLLATIONS collation;
  make_column (Storage TEXT "Text" (Some collation) None None None None) o.
Definition sqlite_Blob (o : column_options) : res (column_declaration zone) := make_column (plain_storage BLOB "Blob") o.

(** ** MariaDB *)

Definition mariadb_Integer (o : column_options) (auto_increment : bool) : res (column_declaration zone) :=
  make_attr (plain_storage INTEGER "Integer") o auto_increment true None NoAction NoAction.
Definition mariadb_Real (o : column_options) : res (column_declaration zone) := make_column (plain_storage REAL "Real") o.

Definition mariadb_Text (o : column_options) (collation length : argument) : res (column_declaration zone) :=
  length ← match length with
           | IntArgument n =>
               if (1 <=? n)%Z && (n <=? MAX_TEXT_LENGTH)%Z then Ok n
               else raise ModelDeclarationError "MariaDB Text length must be an integer from 1 to 16383"
           | _ => raise ModelDeclarationError "MariaDB Text length must be an integer from 1 to 16383"
           end;
  collation ← require_collation MARIADB_COLLATIONS collation;
  make_column (Storage TEXT "Text" (Some collation) (Some length) None None None) o.

Definition mariadb_LongText (o : column_options) (collation : argument) : res (column_declaration zone) :=
  collation ← require_collation MARIADB_COLLATIONS collation;
  make_attr (Storage TEXT "LongText" (Some collation) None None None None) (not_indexed o) false false None NoAction NoAction.

Definition mariadb_Blob (o : column_options) : res (column_declaration zone) := make_column (plain_storage BLOB "Blob") o.

Definition mariadb_Decimal (o : column_options) (precision scale : argument) : res (column_declaration zone) :=
  match precision, scale with
  | IntArgument p, IntArgument s =>
      if ((1 <=? p) && (p <=? DECIMAL_MAX_PRECISION) && (0 <=? s) && (s <=? Z.min DECIMAL_MAX_SCALE p))%Z
      then make_column (Storage TEXT "Decimal" None None (Some p) (Some s) None) o
      else raise ModelDeclarationError "Decimal precision/scale out of range"
  | _, _ => raise ModelDeclarationError "Decimal precision/scale must be native integers"
  end.

Definition mariadb_Json (o : column_options) : res (column_declaration zone) := make_column (plain_storage TEXT "Json") (not_a_key o).
Definition mariadb_Boolean (o : column_options) : res (column_declaration zone) :=
  make_column (plain_storage INTEGER "Boolean") (not_a_key o).
Definition mariadb_Date (o : column_options) : res (column_declaration zone) := make_column (plain_storage TEXT "Date") (not_a_key o).

Definition mariadb_DateTime (o : column_options) (precision : argument) : res (column_declaration zone) :=
  match precision with
  | IntArgument p =>
      if (0 <=? p)%Z && (p <? 7)%Z
      then make_column (Storage TEXT "DateTime" None None None None (Some p)) (not_a_key o)
      else raise ModelDeclarationError "DateTime precision must be an integer from 0 through 6"
  | _ => raise ModelDeclarationError "DateTime precision must be an integer from 0 through 6"
  end.

Definition mariadb_Uuid (o : column_options) : res (column_declaration zone) := make_column (plain_storage TEXT "Uuid") o.

(** ** Foreign keys *)

(** [ForeignKey] of a column, or of what is neither a column nor a callback. *)
Definition make_foreign_key_column (references : declared_operand) (o : column_options)
    (on_delete on_update : declared_action) : res (column_declaration zone) :=
  match references with
  | NotColumn => raise ModelDeclarationError "foreign key targets must be columns or synchronous callbacks"
  | IsColumn target =>
      if negb (co_keyable target) then raise ModelDeclarationError "target column storage does not support foreign keys"
      else make_attr (storage_of target)
             (ColumnOptions (op_primary_key o) (op_unique o) (op_index o) (op_nullable o) (op_default o) false)
             false true (Some (ColumnReference (co_id target) (co_owner target))) on_delete on_update
  end.
End constructors.
Arguments column_options : clear implicits.

(** ** What constructors make *)

(** The storage of a MariaDB column. *)
Inductive mariadb_storage : storage -> Prop :=
  | integer_storage : mariadb_storage (plain_storage INTEGER "Integer")
  | real_storage : mariadb_storage (plain_storage REAL "Real")
  | blob_storage : mariadb_storage (plain_storage BLOB "Blob")
  | json_storage : mariadb_storage (plain_storage TEXT "Json")
  | boolean_storage : mariadb_storage (plain_storage INTEGER "Boolean")
  | date_storage : mariadb_storage (plain_storage TEXT "Date")
  | uuid_storage : mariadb_storage (plain_storage TEXT "Uuid")
  | text_storage collation n : collation ∈ MARIADB_COLLATIONS -> (1 <= n <= MAX_TEXT_LENGTH)%Z ->
      mariadb_storage (Storage TEXT "Text" (Some collation) (Some n) None None None)
  | long_text_storage collation : collation ∈ MARIADB_COLLATIONS ->
      mariadb_storage (Storage TEXT "LongText" (Some collation) None None None None)
  | decimal_storage p s : (1 <= p <= DECIMAL_MAX_PRECISION)%Z -> (0 <= s <= Z.min DECIMAL_MAX_SCALE p)%Z ->
      mariadb_storage (Storage TEXT "Decimal" None None (Some p) (Some s) None)
  | datetime_storage p : (0 <= p < 7)%Z -> mariadb_storage (Storage TEXT "DateTime" None None None None (Some p)).

(** The storage of a SQLite column. *)
Inductive sqlite_storage : storage -> Prop :=
  | sqlite_integer_storage : sqlite_storage (plain_storage INTEGER "Integer")
  | sqlite_real_storage : sqlite_storage (plain_storage REAL "Real")
  | sqlite_blob_storage : sqlite_storage (plain_storage BLOB "Blob")
  | sqlite_text_storage collation : collation ∈ SQLITE_COLLATIONS ->
      sqlite_storage (Storage TEXT "Text" (Some collation) None None None None).

Section made.
Context {zone : Type}.

(** The declarations a module of this backend can hold. *)
Inductive declared_with : backend -> column_declaration zone -> Prop :=
  | with_sqlite_integer id instant o auto d : sqlite_Integer id instant o auto = Ok d -> declared_with BSqlite d
  | with_sqlite_real id instant o d : sqlite_Real id instant o = Ok d -> declared_with BSqlite d
  | with_sqlite_text id instant o collation d : sqlite_Text id instant o collation = Ok d -> declared_with BSqlite d
  | with_sqlite_blob id instant o d : sqlite_Blob id instant o = Ok d -> declared_with BSqlite d
  | with_mariadb_integer id instant o auto d : mariadb_Integer id instant o auto = Ok d -> declared_with BMariadb d
  | with_mariadb_real id instant o d : mariadb_Real id instant o = Ok d -> declared_with BMariadb d
  | with_mariadb_text id instant o collation length d : mariadb_Text id instant o collation length = Ok d -> declared_with BMariadb d
  | with_mariadb_long_text id instant o collation d : mariadb_LongText id instant o collation = Ok d -> declared_with BMariadb d
  | with_mariadb_blob id instant o d : mariadb_Blob id instant o = Ok d -> declared_with BMariadb d
  | with_mariadb_decimal id instant o p s d : mariadb_Decimal id instant o p s = Ok d -> declared_with BMariadb d
  | with_mariadb_json id instant o d : mariadb_Json id instant o = Ok d -> declared_with BMariadb d
  | with_mariadb_boolean id instant o d : mariadb_Boolean id instant o = Ok d -> declared_with BMariadb d
  | with_mariadb_date id instant o d : mariadb_Date id instant o = Ok d -> declared_with BMariadb d
  | with_mariadb_datetime id instant o p d : mariadb_DateTime id instant o p = Ok d -> declared_with BMariadb d
  | with_mariadb_uuid id instant o d : mariadb_Uuid id instant o = Ok d -> declared_with BMariadb d
  | with_foreign_key b id instant target o on_delete on_update d target_declaration :
      declared_with b target_declaration -> storage_of target = storage_of (cd_column target_declaration) ->
      make_foreign_key_column id instant (IsColumn target) o on_delete on_update = Ok d -> declared_with b d.

Lemma make_attr_storage id instant s (o : column_options zone) auto keyable target on_delete on_update d :
  make_attr id instant s o auto keyable target on_delete on_update = Ok d -> storage_of (cd_column d) = s.
Proof using Type.
  unfold make_attr. intros H. bind_inv H as a1 H1. bind_inv H as a2 H2.
  destruct (op_default o), (op_default_factory o); try done; injection H as <-; by destruct s.
Qed.

Lemma require_collation_ok allowed collation s : require_collation allowed collation = Ok s -> s ∈ allowed.
Proof using Type. unfold require_collation. destruct collation; try done. case_bool_decide; [|done]. by intros [= <-]. Qed.

(** Every declaration of a backend has one of its storages. *)
Lemma declared_storage b (d : column_declaration zone) : declared_with b d ->
  match b with BSqlite => sqlite_storage | BMariadb => mariadb_storage end (storage_of (cd_column d)).
Proof using Type.
  assert (Hmake : forall id instant s (o : column_options zone) d, make_column id instant s o = Ok d -> storage_of (cd_column d) = s)
    by (intros ?????; apply make_attr_storage).
  induction 1 as [? ? ? ? ? H|? ? ? ? H|? ? ? ? ? H|? ? ? ? H|? ? ? ? ? H|? ? ? ? H|? ? ? c n ? H|? ? ? ? ? H|? ? ? ? H
    |? ? ? p s ? H|? ? ? ? H|? ? ? ? H|? ? ? ? H|? ? ? p ? H|? ? ? ? H|b id instant target o od ou d d' _ IH Hs H].
  - apply make_attr_storage in H as ->. constructor.
  - apply Hmake in H as ->. constructor.
  - unfold sqlite_Text in H. bind_inv H as s Hc. apply require_collation_ok in Hc. apply Hmake in H as ->. by constructor.
  - apply Hmake in H as ->. constructor.
  - apply make_attr_storage in H as ->. constructor.
  - apply Hmake in H as ->. constructor.
  - unfold mariadb_Text in H. bind_inv H as m Hm. bind_inv H as s Hc. apply require_collation_ok in Hc. apply Hmake in H as ->.
    destruct n as [n| |]; [|done..]. destruct ((1 <=? n)%Z && _) eqn:E; [|done]. injection Hm as <-.
    rewrite andb_true_iff, !Z.leb_le in E. by constructor.
  - unfold mariadb_LongText in H. bind_inv H as s Hc. apply require_collation_ok in Hc. apply make_attr_storage in H as ->. by constructor.
  - apply Hmake in H as ->. constructor.
  - unfold mariadb_Decimal in H. destruct p as [p| |], s as [s| |]; try done. destruct (_ && _)%Z eqn:E; [|done].
    rewrite !andb_true_iff, !Z.leb_le in E. apply Hmake in H as ->. constructor; lia.
  - apply Hmake in H as ->. constructor.
  - apply Hmake in H as ->. constructor.
  - apply Hmake in H as ->. constructor.
  - unfold mariadb_DateTime in H. destruct p as [p| |]; try done. destruct (_ && _)%Z eqn:E; [|done].
    rewrite andb_true_iff, Z.leb_le, Z.ltb_lt in E. apply Hmake in H as ->. constructor; lia.
  - apply Hmake in H as ->. constructor.
  - unfold make_foreign_key_column in H. destruct (negb _); [done|]. apply make_attr_storage in H as ->. by rewrite Hs.
Qed.
End made.
