(* ===== verification/ModelFacts.v ===== *)
(** * What a declared model promises

    Every model that [declare_model] returns, and every model of a program that
    declares its classes one after the other: its indexes, CHECKs and foreign keys fit
    its columns and the models declared before it. *)

From S2P Require Import ColumnCodec.
From S2P Require Export ModelDeclare ColumnStorage.

Section facts.
Context `{U : unicode} `{L : letter_case} {zone : Type} (zone_offset : zone -> civil -> bool -> Z)
  (foreign_offset : positive -> civil -> bool -> option Z) (A : adapter (zone:=zone))
  (annotation : mid -> utext -> res logical) (admits_none : mid -> utext -> option bool).
(** What the storage constructors and [dump_python] promise. *)
Context (Htext : text_stays_text A).

Abbreviation declare_model_ := (declare_model zone_offset foreign_offset A annotation admits_none).
Abbreviation bind_columns_ := (bind_columns zone_offset foreign_offset A annotation admits_none).

(** ** Columns *)

(** The descriptors of a class body come from the storage constructors. *)
Definition physical_body (body : class_body zone) : Prop :=
  forall n d, (n, d) ∈ cb_columns body -> physical (cd_column d).

(** Its predicates come from [&], [|] and [~]. *)
Definition well_built_body (body : class_body zone) : Prop :=
  (forall l k, cb_checks body = ReturnsList l -> Some k ∈ l -> well_built (ck_predicate k)) /\
  (forall l i p, cb_indexes body = ListOf l -> Some i ∈ l -> ix_where i = Some p -> well_built p).

(** Its foreign keys come from [ForeignKeyConstraint]. *)
Definition made_foreign_keys (body : class_body zone) : Prop :=
  forall l k, cb_foreign_keys body = ListOf l -> Some k ∈ l ->
  exists columns references on_delete on_update, make_foreign_key columns references on_delete on_update = Ok k.

Definition same_declaration (e : utext * column_declaration zone) (r : utext * column) : Prop :=
  r.1 = e.1 /\ co_id r.2 = co_id (cd_column e.2) /\ storage_of r.2 = storage_of (cd_column e.2).

Lemma bind_columns_ok models owner b declared columns :
  bind_columns_ models owner b declared = Ok columns ->
  Forall2 (fun e r => same_declaration e r /\ co_name r.2 = co_name (cd_column e.2) /\
    co_owner r.2 = co_owner (cd_column e.2) /\ is_sql_identifier r.1 = true) declared columns.
Proof using Type.
  intros H. unfold bind_columns in H. bind_inv H as bound Hb. bind_inv H as u1 H1. bind_inv H as bound' Hn.
  bind_inv H as columns' Hd. bind_inv H as u2 H2. injection H as ->.
  apply mapR_Ok in Hb, Hn, Hd. clear H1 H2 u1 u2. revert bound' columns Hn Hd.
  induction Hb as [|e e1 declared bound He _ IH]; intros bound' columns Hn Hd.
  - apply Forall2_nil_inv_l in Hn as ->. apply Forall2_nil_inv_l in Hd as ->. constructor.
  - apply Forall2_cons_inv_l in Hn as (e2 & bound2 & He2 & Hn & ->).
    apply Forall2_cons_inv_l in Hd as (e3 & columns3 & He3 & Hd & ->). constructor; [|by apply (IH bound2)].
    unfold bind_column in He. destruct (is_sql_identifier e.1) eqn:Hid; [|done]. cbn [negb] in He.
    bind_inv He as default Hdef. injection He as <-.
    assert (Hsame : bd_name e2 = e.1 /\ exists nullable, bd_column e2 = cd_column e.2 \/
      bd_column e2 = with_nullable nullable (cd_column e.2)).
    { unfold validate_column_nullability in He2. cbn [bd_name bd_column bd_nullable_declared bd_default] in He2.
      destruct (admits_none owner e.1) as [admits|].
      - destruct (_ && _); [done|]. destruct (cd_nullable_declared e.2) as [nd|].
        + destruct (_ && _) in He2; [done|]. destruct (_ && _) in He2; [done|]. injection He2 as <-. split; [done|]. exists true. by left.
        + injection He2 as <-. split; [done|]. exists admits. by right.
      - destruct (cd_nullable_declared e.2); [|done]. injection He2 as <-. split; [done|]. exists true. by left. }
    destruct Hsame as (Hname & nullable & Hcol). unfold bind_default in He3. bind_inv He3 as d Hd3. injection He3 as <-.
    unfold same_declaration. cbn [fst snd]. rewrite Hname, Hid. by destruct Hcol as [-> | ->].
Qed.

Lemma named_columns owner (declared named : list (utext * column_declaration zone)) : mapR (name_column owner) declared = Ok named ->
  Forall2 (fun e r => r.1 = e.1 /\ co_name (cd_column r.2) = Some e.1 /\ co_owner (cd_column r.2) = Some owner /\
    co_id (cd_column r.2) = co_id (cd_column e.2) /\
    storage_of (cd_column r.2) = storage_of (cd_column e.2)) declared named.
Proof using Type.
  intros H. apply mapR_Ok in H. eapply Forall2_impl; [exact H|]. intros e r Hr. cbn beta in Hr.
  unfold name_column in Hr. bind_inv Hr as c Hc. injection Hr as <-. unfold set_name in Hc.
  case_bool_decide; [|done]. by injection Hc as <-.
Qed.

Lemma declared_names (declared : list (utext * column_declaration zone)) columns :
  Forall2 same_declaration declared columns -> map fst columns = map fst declared.
Proof using Type. induction 1 as [|e r declared columns (Hr & _) _ IH]; [done|]. cbn [map]. congruence. Qed.

Lemma columns_bound models owner b (declared : list (utext * column_declaration zone)) named columns : (forall n d, (n, d) ∈ declared -> physical (cd_column d)) ->
  mapR (name_column owner) declared = Ok named -> bind_columns_ models owner b named = Ok columns ->
  bound_columns owner columns /\ Forall2 same_declaration declared columns.
Proof using Type.
  intros Hp Hn Hc. apply named_columns in Hn. apply bind_columns_ok in Hc. revert columns Hc.
  induction Hn as [|e r declared named (Hr1 & Hr2 & Hr3 & Hid & Hst) _ IH]; intros columns Hc.
  - apply Forall2_nil_inv_l in Hc as ->. split; [|constructor]. intros n c Hin. by apply elem_of_nil in Hin.
  - apply Forall2_cons_inv_l in Hc as ([n c] & columns' & ((Hs1 & Hs2 & Hs3) & Hs4 & Hs5 & Hs6) & Hc & ->).
    cbn [fst snd] in *. destruct (IH (fun n' d Hin => Hp n' d (proj2 (elem_of_cons _ _ _) (or_intror Hin))) columns' Hc) as [Hb Hm].
    rewrite Hst in Hs3. split; [|constructor; [unfold same_declaration; cbn [fst snd]; split_and!; congruence|done]].
    intros n' c' Hin. apply elem_of_cons in Hin as [[= -> ->]|Hin]; [|by apply Hb].
    split_and!; [congruence|congruence|]. unfold physical. injection Hs3 as -> -> _ _ _ _ _.
    destruct e as [n0 d0]. apply (Hp n0). left.
Qed.

(** ** Indexes *)

Lemma index_set_ok names lists l : is_ok (validate_index_set names lists l) = true <->
  (NoDup (map ni_name l) /\ forall i, i ∈ l -> ni_name i ∉ names) /\
  (NoDup (map indexed_parts l) /\ forall i, i ∈ l -> indexed_parts i ∉ lists).
Proof using Type.
  revert names lists. induction l as [|i l IH]; intros names lists; cbn [validate_index_set map].
  - split; [|done]. intros _. split_and!; try constructor; intros i Hi; by apply elem_of_nil in Hi.
  - rewrite !NoDup_cons, !list_elem_of_fmap. case_bool_decide as Hn; [split; [done|]|].
    { intros [[_ H] _]. destruct (H i); [left|done]. }
    case_bool_decide as Hp; [split; [done|]|].
    { intros [_ [_ H]]. destruct (H i); [left|done]. }
    rewrite IH. setoid_rewrite elem_of_cons. split.
    + intros [[Hn1 Hn2] [Hp1 Hp2]]. split_and!; try done.
      * intros (j & Hj & Hin). apply (Hn2 j Hin). by left.
      * intros j [->|Hj]; [done|]. intros Hin. apply (Hn2 j Hj). by right.
      * intros (j & Hj & Hin). apply (Hp2 j Hin). by left.
      * intros j [->|Hj]; [done|]. intros Hin. apply (Hp2 j Hj). by right.
    + intros [[[Hn1 Hn2] Hn3] [[Hp1 Hp2] Hp3]]. split_and!; try done.
      * intros j Hj [Heq|Hin]; [apply Hn1; by exists j|]. by apply (Hn3 j (or_intror Hj)).
      * intros j Hj [Heq|Hin]; [apply Hp1; by exists j|]. by apply (Hp3 j (or_intror Hj)).
Qed.

(** An index of a model: on its own columns, without prefixes on SQLite, and with a
    predicate only there. *)
Definition index_sound (b : backend) (columns : list (utext * column)) (i : normalized_index) : Prop :=
  (forall n, n ∈ ni_column_names i -> n ∈ map fst columns) /\
  (b = BSqlite -> ni_prefix_lengths i = None) /\
  (forall e, ni_where i = Some e -> b = BSqlite /\ declarable e = true /\ columns_within (map fst columns) e).

Lemma name_of_in columns c n : name_of columns c = Some n -> exists c', (n, c') ∈ columns /\ co_id c' = co_id c.
Proof using Type.
  unfold name_of. intros H. apply fmap_Some in H as ([n' c'] & H & ->). cbn.
  destruct (filter _ columns) as [|e es] eqn:E; [done|]. injection H as ->.
  assert (Hin : (n', c') ∈ filter (fun e => co_id e.2 = co_id c) columns) by (rewrite E; left).
  apply list_elem_of_filter in Hin as [Hn Hin]. by exists c'.
Qed.

Lemma bind_index_ok owner table_name columns b d i : bound_columns owner columns ->
  (forall x p, d = Some x -> ix_where x = Some p -> well_built p) ->
  bind_index zone_offset foreign_offset A annotation owner table_name columns b d = Ok i -> index_sound b columns i.
Proof using All.
  intros Hb Hw H. unfold bind_index in H. destruct d as [x|]; [|done]. bind_inv H as u1 Hreq.
  bind_inv H as names Hnames. bind_inv H as name Hname. bind_inv H as where_ Hwhere. injection H as <-.
  unfold require_index_declaration in Hreq. bind_inv Hreq as u2 _1. bind_inv Hreq as u3 Hpartial.
  apply guardR_Ok in Hpartial. split_and!; cbn [ni_column_names ni_prefix_lengths ni_where].
  - intros n Hn. apply (mapR_elem_inv _ _ _ _ Hnames) in Hn as (c & _ & Hc). unfold index_column_name in Hc.
    destruct (negb _); [done|]. destruct (name_of columns c) as [n'|] eqn:E; [|done]. injection Hc as ->.
    apply name_of_in in E as (c' & Hin & _). apply list_elem_of_fmap. by exists (n, c').
  - intros ->. destruct (ix_prefix_lengths x); [|done]. bind_inv Hreq as u4 Hback. by apply guardR_Ok in Hback.
  - intros e ->. destruct (ix_where x) as [p|] eqn:Ep; [|done]. bind_inv Hwhere as e' He. injection Hwhere as <-.
    rewrite bool_decide_eq_false_2 in Hpartial by done. apply bool_decide_eq_true in Hpartial. split; [done|].
    eapply bind_predicate_ok; [exact Hb|exact Htext|by eapply Hw|exact He].
Qed.

(** ** Foreign keys *)

(** The descriptor is one of the table's. *)
Definition belongs (c : column) (t : table_model) : Prop :=
  co_owner c = Some (tm_id t) /\ exists e, e ∈ tm_columns t /\ co_id e.2 = co_id c.

(** The columns are all of a key of the table: its primary key in order, a unique
    column, or all of a unique index on whole columns and all rows. *)
Definition complete_key (references : list column) (t : table_model) : Prop :=
  map co_name references = map Some (primary_key_names (tm_columns t)) \/
  (exists c, references = [c] /\ co_unique c = true) \/
  exists i, i ∈ tm_indexes t /\ ni_unique i = true /\ map Some (ni_column_names i) = map co_name references /\
    any_length (ni_prefix_lengths i) = false /\ ni_where i = None.

Record constraint_sound (models : gmap positive table_model) (t : table_model) (k : foreign_key_constraint) : Prop :=
  ConstraintSound {
    cs_columns : Forall (fun c => belongs c t) (fc_columns k);
    cs_nonempty : fc_columns k <> [];
    cs_target : exists t', models !! tm_id t' = Some t' /\ tm_backend t' = tm_backend t /\
      Forall (fun c => belongs c t') (fc_references k) /\ complete_key (fc_references k) t';
    cs_storage : Forall2 (fun c c' => same_storage c c' = true) (fc_columns k) (fc_references k);
    cs_set_null : sets_null k = true -> Forall (fun c => co_nullable c = true /\ co_primary_key c = false) (fc_columns k) }.

Lemma make_foreign_key_ok columns references on_delete on_update k :
  make_foreign_key columns references on_delete on_update = Ok k ->
  length (fc_columns k) = length (fc_references k) /\ fc_columns k <> [] /\
  NoDup (map co_id (fc_columns k)) /\ NoDup (map co_id (fc_references k)).
Proof using Type.
  unfold make_foreign_key. destruct references as [references|]; [|done].
  destruct (_ || _) eqn:E; [done|]. apply orb_false_iff in E as [E1 E2]. apply negb_false_iff, Nat.eqb_eq in E2.
  assert (Hm : forall members seen cs, foreign_key_members seen members = Ok cs ->
    length cs = length members /\ NoDup (map co_id cs) /\ forall c, c ∈ cs -> co_id c ∉ seen).
  { clear. induction members as [|[c|] members IH]; intros seen cs H; cbn [foreign_key_members] in H; [| |done].
    - injection H as <-. split_and!; [done|constructor|intros c Hc; by apply elem_of_nil in Hc].
    - destruct (negb _); [done|]. case_bool_decide as Hs; [done|]. bind_inv H as rest Hr. injection H as <-.
      destruct (IH _ _ Hr) as (Hl & Hnd & Hseen). split_and!; [cbn; by rewrite Hl| |].
      + cbn [map]. constructor; [|done]. intros Hin. apply list_elem_of_fmap in Hin as (c' & Hc' & Hin).
        apply Hseen in Hin. apply Hin. rewrite <- Hc'. left.
      + intros c' Hc'. apply elem_of_cons in Hc' as [->|Hc']; [done|]. apply Hseen in Hc'. intros Hin. apply Hc'. by right. }
  intros H. bind_inv H as cs Hcs. bind_inv H as rs Hrs. bind_inv H as d Hd. bind_inv H as up Hup. injection H as <-.
  cbn [fc_columns fc_references]. destruct (Hm _ _ _ Hcs) as (H1 & H2 & _), (Hm _ _ _ Hrs) as (H3 & H4 & _).
  split_and!; [congruence| |done..]. intros ->. by destruct columns.
Qed.

Lemma owned_spec c columns : is_owned c columns = true <-> exists e, e ∈ columns /\ co_id e.2 = co_id c.
Proof using Type.
  unfold is_owned. rewrite existsb_exists. setoid_rewrite bool_decide_eq_true. setoid_rewrite list_elem_of_In. done.
Qed.

Lemma forallb_belongs cs target t columns : tm_id t = target -> tm_columns t = columns ->
  forallb (fun c => bool_decide (co_owner c = Some target) && is_owned c columns) cs = true ->
  Forall (fun c => belongs c t) cs.
Proof using Type.
  intros <- <- H. rewrite forallb_forall in H. apply Forall_forall. intros c Hc.
  apply list_elem_of_In, H, andb_true_iff in Hc as [Ho Hc]. apply bool_decide_eq_true in Ho.
  split; [done|]. by apply owned_spec.
Qed.

Lemma unique_target_spec references t : unique_target references (tm_columns t) (tm_indexes t) = true ->
  complete_key references t.
Proof using Type.
  unfold unique_target, complete_key. rewrite !orb_true_iff, bool_decide_eq_true. intros [[H|H]|H]; [by left| |].
  - right. left. destruct references as [|c [|]]; try done. by exists c.
  - right. right. apply existsb_exists in H as (i & Hi & H). exists i.
    rewrite !andb_true_iff, negb_true_iff, !bool_decide_eq_true in H. split; [by apply list_elem_of_In|]. tauto.
Qed.

Lemma validate_members k cs rs : length cs = length rs -> iterR (validate_member k) (combine cs rs) = Ok tt ->
  Forall2 (fun c c' => same_storage c c' = true) cs rs /\
  (sets_null k = true -> Forall (fun c => co_nullable c = true /\ co_primary_key c = false) cs).
Proof using Type.
  revert rs. induction cs as [|c cs IH]; intros [|r rs] Hlen H; try done.
  cbn [combine] in H. rewrite iterR_cons in H. bind_inv H as v Hv. injection Hlen as Hlen.
  destruct (IH rs Hlen H) as [HF HN]. unfold validate_member in Hv. cbn [fst snd] in Hv.
  destruct (same_storage c r) eqn:Hs; [|done]. cbn [negb] in Hv. split; [by constructor|]. intros Hn. rewrite Hn in Hv.
  destruct (co_primary_key c) eqn:Hp; [done|]. destruct (co_nullable c) eqn:Hnl; [|done].
  constructor; [done|]. by apply HN.
Qed.

(** The table as far as it is bound when its foreign keys are. *)
Lemma bind_foreign_key_ok models t d k :
  (forall x, d = Some x -> length (fc_columns x) = length (fc_references x) /\ fc_columns x <> []) ->
  (forall m x, models !! m = Some x -> tm_id x = m) ->
  bind_foreign_key models (tm_id t) (tm_backend t) (tm_columns t) (tm_indexes t) d = Ok k ->
  d = Some k /\ constraint_sound (<[tm_id t := t]> models) t k.
Proof using Type.
  intros Hmade Hids H. unfold bind_foreign_key in H. destruct d as [x|]; [|done]. destruct (Hmade x eq_refl) as [Hlen Hne].
  destruct (forallb _ _) eqn:Hown; [|done]. cbn [negb] in H. bind_inv H as v Hv. injection H as ->.
  split; [done|]. unfold validate_foreign_key_target in Hv. destruct (fc_references k) as [|r rs] eqn:Hrefs; [done|].
  destruct (co_owner r) as [target|] eqn:Ho; [|done]. bind_inv Hv as x Hx. destruct x as [[cs ixs] b].
  destruct (forallb _ _) eqn:Hrefd in Hv; [|done]. cbn [negb] in Hv. case_bool_decide as Hb; [|done]. cbn [negb] in Hv.
  destruct (unique_target _ _ _) eqn:Hu; [|done]. cbn [negb] in Hv. destruct v.
  assert (Ht : exists t', <[tm_id t := t]> models !! tm_id t' = Some t' /\ tm_id t' = target /\ cs = tm_columns t' /\
    ixs = tm_indexes t' /\ b = tm_backend t').
  { case_bool_decide as Hself.
    - injection Hx as <- <- <-. exists t. split_and!; [apply lookup_insert_eq|done..].
    - destruct (models !! target) as [t'|] eqn:El; [|done]. injection Hx as <- <- <-. exists t'.
      assert (Hid : tm_id t' = target) by (by apply Hids). split_and!; [|done..].
      rewrite Hid. rewrite lookup_insert_ne by done. done. }
  destruct Ht as (t' & Hl & Hid & -> & -> & ->). 
  apply validate_members in Hv as [HF HN]; [|done].
  split; rewrite ?Hrefs; [by eapply forallb_belongs|done| |done|done].
  exists t'. split_and!; [done|done|by eapply forallb_belongs|by apply unique_target_spec].
Qed.

Lemma constraint_sound_mono models models' t k : models ⊆ models' -> constraint_sound models t k ->
  constraint_sound models' t k.
Proof using Type.
  intros Hsub [H1 H2 (t' & Ht & Hrest) H4 H5]. split; try done. exists t'. split; [|done]. by eapply lookup_weaken.
Qed.

(** ** Models *)

(** What a declared model promises, among the models declared so far. *)
Record model_sound (models : gmap positive table_model) (t : table_model) : Prop := ModelSound {
  ms_columns : bound_columns (tm_id t) (tm_columns t);
  ms_index_names : NoDup (map ni_name (single_indexes (tm_table_name t) (tm_columns t) ++ tm_indexes t));
  ms_index_lists : NoDup (map indexed_parts (single_indexes (tm_table_name t) (tm_columns t) ++ tm_indexes t));
  ms_indexes : Forall (index_sound (tm_backend t) (tm_columns t)) (tm_indexes t);
  ms_foreign_keys : Forall (constraint_sound models t) (tm_foreign_keys t);
  ms_check_names : NoDup (map (fun k => py_casefold (bc_name k)) (tm_checks t));
  ms_checks : Forall (fun k => declarable (bc_expression k) = true /\
    columns_within (map fst (tm_columns t)) (bc_expression k)) (tm_checks t) }.

(** A class body whose parts come from the package's constructors. *)
Record constructed_body (body : class_body zone) : Prop := ConstructedBody {
  cn_physical : physical_body body;
  cn_well_built : well_built_body body;
  cn_made : made_foreign_keys body }.

Definition registered (models : gmap positive table_model) : Prop := forall m t, models !! m = Some t -> tm_id t = m.

Lemma bind_indexes_ok owner table_name columns b declared indexes : bound_columns owner columns ->
  (forall l i p, declared = ListOf l -> Some i ∈ l -> ix_where i = Some p -> well_built p) ->
  bind_indexes zone_offset foreign_offset A annotation owner table_name columns b declared = Ok indexes ->
  Forall (index_sound b columns) indexes /\
  NoDup (map ni_name (single_indexes table_name columns ++ indexes)) /\
  NoDup (map indexed_parts (single_indexes table_name columns ++ indexes)).
Proof using All.
  intros Hb Hw H. unfold bind_indexes in H. bind_inv H as ds Hds. bind_inv H as ixs Hixs. bind_inv H as v Hset.
  injection H as ->.
  assert (Hd : forall x p, Some x ∈ ds -> ix_where x = Some p -> well_built p).
  { intros x p Hx. destruct declared as [|l|]; [|injection Hds as ->; by apply (Hw ds)|done].
    injection Hds as <-. by apply elem_of_nil in Hx. }
  split.
  - apply Forall_forall. intros i Hi. apply (mapR_elem_inv _ _ _ _ Hixs) in Hi as (d & Hin & Hi).
    eapply bind_index_ok; [done| |exact Hi]. intros x p ->. by apply Hd.
  - assert (Hok : is_ok (validate_index_set [] [] (single_indexes table_name columns ++ indexes)) = true) by (by rewrite Hset).
    apply index_set_ok in Hok as [[H1 _] [H2 _]]. done.
Qed.

(** The bindings of a class body, one by one. *)
Lemma declare_model_sound models owner body t : registered models -> constructed_body body ->
  declare_model_ models owner body = Ok t -> tm_id t = owner /\ model_sound (<[owner := t]> models) t.
Proof using All.
  intros Hreg [Hphys [Hwc Hwi] Hmade] H. unfold declare_model in H. bind_inv H as u1 Hbases. bind_inv H as named Hnamed.
  bind_inv H as table_name Hname. cbv zeta in H. set (b := resolve_backend_family _ _) in *.
  bind_inv H as columns Hcols. bind_inv H as indexes Hix. bind_inv H as fks Hfk. bind_inv H as checks Hck.
  injection H as <-. split; [done|].
  destruct (columns_bound _ _ _ _ _ _ Hphys Hnamed Hcols) as [Hb _].
  apply bind_indexes_ok in Hix as (Hsound & Hn & Hp); [|done|done].
  set (t := TableModel owner b table_name columns indexes fks checks).
  assert (Hchecks : NoDup (map (fun k => py_casefold (bc_name k)) checks) /\
    Forall (fun k => declarable (bc_expression k) = true /\ columns_within (map fst columns) (bc_expression k)) checks).
  { unfold bind_model_checks in Hck. destruct (cb_checks body) as [|l| | |] eqn:E; try done.
    - injection Hck as <-. split; constructor.
    - apply bind_check_list_ok in Hck as [H1 H2]; [|done|done|intros d Hd; by eapply Hwc].
      split; [done|]. apply Forall_forall. intros k Hk. by apply H2. }
  split; cbn [tm_id tm_columns tm_table_name tm_indexes tm_backend tm_foreign_keys tm_checks t]; try done; [|apply Hchecks..].
  apply Forall_forall. intros k Hk. unfold bind_foreign_keys in Hfk.
  destruct (cb_foreign_keys body) as [|l|] eqn:E; [injection Hfk as <-; by apply elem_of_nil in Hk| |done].
  apply (mapR_elem_inv _ _ _ _ Hfk) in Hk as (d & Hd & Hk).
  eapply (bind_foreign_key_ok models t d k); [|done|exact Hk]. intros x ->.
  destruct (Hmade l x E Hd) as (cs & rs & od & ou & Hx). by apply make_foreign_key_ok in Hx as (? & ? & _).
Qed.

(** The columns of a model are those of its class body. *)
Lemma declare_model_columns models owner body t : physical_body body -> declare_model_ models owner body = Ok t ->
  Forall2 same_declaration (cb_columns body) (tm_columns t).
Proof using Type.
  intros Hphys H. unfold declare_model in H. bind_inv H as u1 Hbases. bind_inv H as named Hnamed.
  bind_inv H as table_name Hname. cbv zeta in H. bind_inv H as columns Hcols. bind_inv H as indexes Hix.
  bind_inv H as fks Hfk. bind_inv H as checks Hck. injection H as <-. by eapply (columns_bound models).
Qed.

Definition registry_sound (models : gmap positive table_model) : Prop :=
  registered models /\ forall m t, models !! m = Some t -> model_sound models t.

Lemma model_sound_mono models models' t : models ⊆ models' -> model_sound models t -> model_sound models' t.
Proof using Type.
  intros Hsub [H1 H2 H3 H4 H5 H6 H7]. split; try done. eapply Forall_impl; [exact H5|].
  intros k. by apply constraint_sound_mono.
Qed.

(** Classes are objects of their own: none is declared twice. *)
Definition fresh_classes (models : gmap positive table_model) (bodies : list (mid * class_body zone)) : Prop :=
  NoDup (map fst bodies) /\ forall owner, owner ∈ map fst bodies -> models !! owner = None.

Lemma declare_models_sound models bodies models' : registry_sound models -> fresh_classes models bodies ->
  (forall e, e ∈ bodies -> constructed_body e.2) ->
  declare_models zone_offset foreign_offset A annotation admits_none models bodies = Ok models' ->
  models ⊆ models' /\ registry_sound models'.
Proof using All.
  revert models. induction bodies as [|[owner body] bodies IH]; intros models [Hreg Hms] [Hnd Hfresh] Hb H;
    cbn [declare_models] in H; [by injection H as <-|].
  bind_inv H as t Ht. apply NoDup_cons in Hnd as [Hnew Hnd].
  destruct (declare_model_sound models owner body t) as [Hid Hsound]; [done|apply (Hb (owner, body)); left|done|].
  assert (Hsub : models ⊆ <[owner := t]> models) by (apply insert_subseteq, Hfresh; left).
  destruct (IH (<[owner := t]> models)) as [Hsub' Hs].
  - split.
    + intros m t' Hm. apply lookup_insert_Some in Hm as [[<- <-]|[_ Hm]]; [done|by apply Hreg].
    + intros m t' Hm. apply lookup_insert_Some in Hm as [[<- <-]|[_ Hm]]; [done|].
      eapply model_sound_mono; [exact Hsub|by eapply Hms].
  - split; [done|]. intros o Ho. rewrite lookup_insert_ne; [apply Hfresh; by right|]. intros ->. done.
  - intros e He. apply Hb. by right.
  - done.
  - split; [by etransitivity|done].
Qed.
Lemma declare_models_columns models bodies models' : fresh_classes models bodies ->
  (forall e, e ∈ bodies -> physical_body e.2) ->
  declare_models zone_offset foreign_offset A annotation admits_none models bodies = Ok models' ->
  forall m t, models' !! m = Some t -> models !! m = Some t \/
    exists body, (m, body) ∈ bodies /\ Forall2 same_declaration (cb_columns body) (tm_columns t).
Proof using Type.
  revert models. induction bodies as [|[owner body] bodies IH]; intros models [Hnd Hfresh] Hb H m t Hm;
    cbn [declare_models] in H; [injection H as <-; by left|].
  bind_inv H as t0 Ht. apply NoDup_cons in Hnd as [Hnew Hnd].
  destruct (IH (<[owner := t0]> models)) with (m := m) (t := t) as [Hold|(body' & Hin & HF)]; try done.
  - split; [done|]. intros o Ho. rewrite lookup_insert_ne; [apply Hfresh; by right|]. intros ->. done.
  - intros e He. apply Hb. by right.
  - apply lookup_insert_Some in Hold as [[<- <-]|[_ Hold]]; [|by left]. right. exists body. split; [left|].
    eapply declare_model_columns; [apply (Hb (owner, body)); left|exact Ht].
  - right. exists body'. split; [by right|done].
Qed.
End facts.
