(* ===== verification/ModelSchema.v ===== *)
(** * From class bodies to a verified schema

    What declaring models gives to the code that plans, creates and verifies their
    tables: the two properties of the module, and a module of two SQLite classes. *)

From S2P Require Import ColumnCodec.
From S2P Require Export ModelFacts SqliteScaffold.

Section schema.
Context `{U : unicode} `{!ascii_laws U} `{L : letter_case} {zone : Type} (zone_offset : zone -> civil -> bool -> Z)
  (foreign_offset : positive -> civil -> bool -> option Z) (A : adapter (zone:=zone))
  (annotation : mid -> utext -> res logical) (admits_none : mid -> utext -> option bool).
Context (column_hint : mid -> utext -> SchemaPlan.annotation).

Abbreviation declare_models_ := (declare_models zone_offset foreign_offset A annotation admits_none).

(** ** Planning declared models *)

(** A composite foreign key of a declared model can be planned. *)
Lemma sound_constraint_fits models t k : constraint_sound models t k -> constraint_fits models k.
Proof using Type.
  intros [_ Hne (t' & Hl & _ & Hrefs & _) Hst _]. unfold constraint_fits.
  destruct (fc_references k) as [|r rs]; [by destruct (fc_columns k); inversion Hst|].
  apply Forall_cons in Hrefs as [[Ho _] _]. by exists r, rs, (tm_id t'), t'.
Qed.

Lemma planned_key_lengths models m t p f : model_sound models t -> plan_model models column_hint m = Ok p ->
  models !! m = Some t -> f ∈ pm_foreign_keys p ->
  length (pf_column_names f) = length (pf_target_columns f) /\ pf_column_names f <> [].
Proof using Type.
  intros Hs Hp Hm Hf. apply plan_model_value in Hp as (t' & Hm' & _ & _ & _ & _ & Hfk & _).
  assert (t' = t) as -> by congruence. unfold plan_foreign_keys in Hfk. bind_inv Hfk as scalar Hscalar.
  bind_inv Hfk as composite Hcomp. injection Hfk as Hfk. rewrite <- Hfk in Hf. apply elem_of_app in Hf as [Hf|Hf].
  - apply list_elem_of_In, in_concat in Hf as (l & Hl & Hf). apply list_elem_of_In in Hl.
    apply (mapR_elem_inv _ _ _ _ Hscalar) in Hl as (c & _ & Hc). unfold plan_column_foreign_key in Hc.
    destruct (co_foreign_key_target _); [|injection Hc as <-; done].
    bind_inv Hc as u1 H1. bind_inv Hc as target H2. bind_inv Hc as tm H3. bind_inv Hc as name H4.
    injection Hc as <-. by destruct Hf as [<-|[]].
  - apply (mapR_elem_inv _ _ _ _ Hcomp) in Hf as (k & Hk & Hc). unfold plan_constraint in Hc.
    destruct (fc_references k) as [|r rs] eqn:Er; [done|]. destruct (co_owner r); [|done].
    bind_inv Hc as tm H3. injection Hc as <-. cbn [pf_column_names pf_target_columns]. rewrite !length_map.
    pose proof (ms_foreign_keys _ _ Hs) as Hall. rewrite Forall_forall in Hall.
    destruct (Hall k Hk) as [_ Hne _ Hst _]. apply Forall2_length in Hst. rewrite Er in Hst. split; [by rewrite Hst; cbn [length]; rewrite length_map|].
    intros E. by apply map_eq_nil in E.
Qed.

(** What is left to ask of a planned model: a table of SQLite, columns that SQLite
    can create, and names that it tells apart. *)
Record sqlite_names (p : planned_model) : Prop := SqliteNames {
  sn_backend : tm_backend (pm_model p) = BSqlite;
  sn_columns : forall c, c ∈ pm_columns p -> column_declared c;
  sn_folded : NoDup (map (fun c => py_casefold (pc_name c)) (pm_columns p));
  sn_lower : NoDup (map (fun c => ascii_lower (pc_name c)) (pm_columns p)) }.

Lemma declared_scaffoldable models m t p : model_sound models t -> models !! m = Some t ->
  plan_model models column_hint m = Ok p -> sqlite_names p -> scaffoldable p.
Proof using Type.
  intros Hs Hm Hp [Hb Hc Hfold Hlow]. pose proof Hp as Hv.
  apply plan_model_value in Hv as (t' & Hm' & Hmodel & Htn & Hcols & Hchecks & _ & Hixs).
  assert (t' = t) as -> by congruence. rewrite Hmodel in Hb.
  assert (Hnames : map pc_name (pm_columns p) = map fst (tm_columns t)).
  { rewrite Hcols. unfold planned_columns. by rewrite map_map. }
  pose proof (ms_checks _ _ Hs) as Hck. pose proof (ms_indexes _ _ Hs) as Hix. rewrite Forall_forall in Hck. rewrite Forall_forall in Hix.
  assert (Hindexes : forall i, i ∈ pm_indexes p -> index_declared i /\
    forall e, ni_where i = Some e -> columns_within (map fst (tm_columns t)) e).
  { intros i Hi. rewrite Hixs in Hi. apply elem_of_app in Hi as [Hi|Hi].
    - apply list_elem_of_In, in_flat_map in Hi as (c & _ & Hi).
      destruct (co_unique _); [destruct Hi as [<-|[]]; done|]. destruct (co_index _); [|done]. by destruct Hi as [<-|[]].
    - destruct (Hix i Hi) as (_ & Hpre & Hw). rewrite Hb in *. split.
      + split; [by apply Hpre|]. destruct (ni_where i); [|done]. by apply Hw.
      + intros e He. by apply Hw. }
  split; [split| | | | |].
  - by rewrite Hmodel.
  - done.
  - intros k Hk. rewrite Hchecks in Hk. by apply Hck.
  - intros i Hi. by apply Hindexes.
  - done.
  - done.
  - rewrite Hchecks. apply (NoDup_fmap_1 py_casefold). pose proof (ms_check_names _ _ Hs) as Hn.
    change (NoDup (map py_casefold (map bc_name (tm_checks t)))). by rewrite map_map.
  - intros i e Hi He. rewrite Hnames. by apply (Hindexes i Hi).
  - intros f Hf. by eapply planned_key_lengths.
Qed.

(** C10: what a module of class declarations leaves behind is sound.  However many
    classes are declared, in whatever order they refer to each other: every model's
    indexes cover its own columns under names and column lists used once, every CHECK and
    partial-index predicate is an expression that the backends can write and read back
    and mentions columns of the model only, and every ForeignKeyConstraint of the model leads
    from its own columns to a complete key of one model of the same backend that is declared,
    with the same storage column by column, and sets to NULL only columns that can be.  (A
    foreign key declared on a single column is not held to a complete key at
    declaration, and nothing is stated of it here.) *)
Theorem declared_models_sound bodies models (Htext : text_stays_text A)
  (Hfresh : NoDup (map fst bodies)) (Hbodies : forall e, e ∈ bodies -> constructed_body e.2)
  (Hdeclared : declare_models_ ∅ bodies = Ok models) :
  forall m t, models !! m = Some t -> tm_id t = m /\ model_sound models t.
Proof using Type.
  destruct (declare_models_sound zone_offset foreign_offset A annotation admits_none Htext ∅ bodies models)
    as [_ [Hreg Hms]]; [| |done|done|].
  - split; intros m t Hm; by rewrite lookup_empty in Hm.
  - split; [done|]. intros o _. apply lookup_empty.
  - intros m t Hm. split; [by apply Hreg|by apply (Hms m)].
Qed.

(** C8: from the class bodies to a verified database.  Declare a module of classes and plan
    tables of SQLite from it, with columns SQLite can create and with column names that stay
    distinct under casefold and under ASCII lower case; run the scaffold of the
    plan on an empty database: the scaffold compiles, and once the catalog reports its
    tables, verification finds every table as declared, under every schema policy. *)
Theorem declared_schema_verified catalog bodies models ms plan policy s (Htext : text_stays_text A)
  (Hfresh : NoDup (map fst bodies)) (Hbodies : forall e, e ∈ bodies -> constructed_body e.2)
  (Hdeclared : declare_models_ ∅ bodies = Ok models)
  (Hplan : build_schema_plan models column_hint ms = Ok plan) (Hnames : Forall sqlite_names plan)
  (Hpolicy : policy <> UnknownPolicy) (Hcatalog : created catalog plan) (Hscript : cn_script s = []) :
  is_ok (scaffold_sqlite_ddl models column_hint ms) = true /\
  exists result s', sqlite_verify_schema catalog models column_hint ms policy s = (inl result, s') /\
    vr_checked_tables result = map pm_table_name plan /\ vr_issues result = [].
Proof using All.
  destruct (declare_models_sound zone_offset foreign_offset A annotation admits_none Htext ∅ bodies models)
    as [_ [Hreg Hms]]; [by split|by split|done|done|].
  apply scaffold_verifies; try done. rewrite Forall_forall in Hnames |- *. intros p Hp.
  pose proof Hplan as Hb. unfold build_schema_plan in Hb. bind_inv Hb as planned Hm. bind_inv Hb as v Hn. injection Hb as ->.
  apply (mapR_elem_inv _ _ _ _ Hm) in Hp as Hmodel. destruct Hmodel as (m & _ & Hmodel).
  pose proof (plan_model_value _ _ _ _ Hmodel) as (t & Ht & _).
  eapply (declared_scaffoldable models m t p); [by apply (Hms m)|done|done|by apply Hnames].
Qed.
End schema.

(** ** A module of two classes *)

#[export] Instance ascii_case : letter_case :=
  LetterCase (fun c => (65 <=? c) && (c <=? 90))%Z (fun c => (97 <=? c) && (c <=? 122))%Z
    (fun c => (48 <=? c) && (c <=? 57))%Z
    (fun c => [if (65 <=? c) && (c <=? 90) then c + 32 else c]%Z).

(** The descriptor before its class is created. *)
Definition unbound (c : column) : column :=
  Column (co_id c) None None (co_storage_class c) (co_storage_type_name c) (co_text_collation c) (co_text_length c)
    (co_decimal_precision c) (co_decimal_scale c) (co_datetime_precision c) (co_nullable c) (co_primary_key c)
    (co_unique c) (co_index c) (co_auto_increment c) (co_keyable c) (co_instant c) None (co_foreign_key_target c)
    (co_on_delete c) (co_on_update c).
Definition declared_as (default : python_default unit) (e : utext * column) : utext * column_declaration unit :=
  (e.1, ColumnDeclaration unit (unbound e.2) default false None).

(** class Users: id, email, joined *)
Definition users_body : class_body unit :=
  ClassBody unit (u "Users") [FrameworkBase (Some BSqlite); GenericBase] None None
    (zip_with declared_as [NoDefault; NoDefault; ServerDefault DeclaredNow] users_columns) Absent Absent NoMethod.

(** class Orders: id, user_id, state, with a partial index and a CHECK *)
Definition user_id_column : column := nth 1 (map snd orders_columns) (key_column 4 2).
Definition state_column : column := nth 2 (map snd orders_columns) (key_column 4 2).
Definition orders_body : class_body unit :=
  ClassBody unit (u "Orders") [FrameworkBase (Some BSqlite)] None (Some (Some (u "orders")))
    (zip_with declared_as [NoDefault; NoDefault; ServerDefault (DeclaredLiteral (OStr "it's open"))] orders_columns)
    (ListOf [Some (Index unit [user_id_column] false (Some (u "ix_open")) None
                     (Some (ComparisonOf (IsColumn state_column) OpEq (OStr "it's open"))))])
    Absent
    (ReturnsList [Some (CheckConstraint unit (Some (u "ck_state"))
                          (MembershipOf (IsColumn state_column) [OStr "it's open"; OStr "paid"] false))]).

Definition shop_annotation (m : mid) (name : utext) : res logical :=
  if bool_decide (name = u "joined") then Ok (Logical false false true [CtUtc])
  else if bool_decide (name = u "email") then Ok (Logical false false false [CtStr])
  else if bool_decide (name = u "state") then Ok (Logical false false true [CtStr])
  else Ok (Logical false false false [CtInt]).

Definition shop_bodies : list (mid * class_body unit) := [(1%positive, users_body); (2%positive, orders_body)].

Lemma demo_text_stays : text_stays_text demo_adapter.
Proof. intros c s w [= <-]. by exists s. Qed.

Lemma shop_physical e : e ∈ shop_bodies -> physical_body e.2.
Proof.
  intros He n d Hd _. assert (Hall : Forall (fun x => co_storage_class (cd_column x.2) <> BLOB) (cb_columns e.2)).
  { each He; repeat constructor; done. }
  rewrite Forall_forall in Hall. by apply (Hall (n, d)).
Qed.

Lemma shop_bodies_constructed e : e ∈ shop_bodies -> constructed_body e.2.
Proof.
  intros He. split; [by apply shop_physical|split|]; each He; try (intros l k Hl; discriminate Hl);
    try (intros l i p Hl; discriminate Hl).
  - intros l k Hl Hk. cbn in Hl. injection Hl as <-. apply list_elem_of_singleton in Hk. by injection Hk as ->.
  - intros l i p Hl Hi. cbn in Hl. injection Hl as <-. apply list_elem_of_singleton in Hi. injection Hi as ->. by intros [= <-].
Qed.

Lemma shop_declares :
  declare_models (U := ascii_unicode) (fun _ _ _ => 0%Z) (fun _ _ _ => None) demo_adapter shop_annotation
    (fun _ _ => Some false) ∅ shop_bodies = Ok shop_models.
Proof. vm_compute. reflexivity. Qed.

(** class Accounts: id, region, code, with a unique index on region and code; class
    Entries: id, region, code, with a foreign key from the pair to that key. *)
Definition number_column (id : positive) (owner : mid) (name : string) : column :=
  Column id (Some (u name)) (Some owner) INTEGER "Integer" None None None None None false false false false false true false
    None None None None.
Definition account_columns : list (utext * column) :=
  [(u "id", key_column 11 11); (u "region", number_column 12 11 "region"); (u "code", number_column 13 11 "code")].
Definition entry_columns : list (utext * column) :=
  [(u "id", key_column 14 12); (u "region", number_column 15 12 "region"); (u "code", number_column 16 12 "code")].
Definition pair_of (columns : list (utext * column)) : list column := map snd (drop 1 columns).
Definition entry_key : foreign_key_constraint :=
  ForeignKeyConstraint (pair_of entry_columns) (pair_of account_columns) (Some CASCADE) None.

Definition books_bodies : list (mid * class_body unit) :=
  [(11%positive, ClassBody unit (u "Accounts") [FrameworkBase (Some BSqlite)] None None
      (map (declared_as NoDefault) account_columns)
      (ListOf [Some (Index unit (pair_of account_columns) true None None None)]) Absent NoMethod);
   (12%positive, ClassBody unit (u "Entries") [FrameworkBase (Some BSqlite)] None None
      (map (declared_as NoDefault) entry_columns) Absent (ListOf [Some entry_key]) NoMethod)].
Definition books_models : gmap positive table_model :=
  Eval vm_compute in
    match declare_models (U := ascii_unicode) (fun _ _ _ => 0%Z) (fun _ _ _ => None) demo_adapter shop_annotation
            (fun _ _ => Some false) ∅ books_bodies with Ok ms => ms | Raise _ => ∅ end.

Lemma books_constructed e : e ∈ books_bodies -> constructed_body e.2.
Proof.
  intros He. split; [|split|].
  - intros n d Hd _. assert (Hall : Forall (fun x => co_storage_class (cd_column x.2) <> BLOB) (cb_columns e.2)).
    { each He; repeat constructor; done. }
    rewrite Forall_forall in Hall. by apply (Hall (n, d)).
  - each He; intros l k Hl; discriminate Hl.
  - each He; intros l i p Hl Hi; [|discriminate Hl]. injection Hl as <-. apply list_elem_of_singleton in Hi. by injection Hi as ->.
  - each He; intros l k Hl Hk; [discriminate Hl|]. injection Hl as <-. apply list_elem_of_singleton in Hk. injection Hk as ->.
    exists (map IsColumn (pair_of entry_columns)), (Some (map IsColumn (pair_of account_columns))), (KnownAction CASCADE), NoAction.
    vm_compute. reflexivity.
Qed.

(** The foreign key of [Entries] leads to the unique pair of [Accounts]. *)
Lemma declared_models_sound_witness : exists t, books_models !! 12%positive = Some t /\
  map (fun k => map co_name (fc_references k)) (tm_foreign_keys t) = [[Some (u "region"); Some (u "code")]] /\
  model_sound (U := ascii_unicode) books_models t.
Proof.
  destruct (books_models !! 12%positive) as [t|] eqn:Ht; [|vm_compute in Ht; discriminate Ht].
  exists t. split_and!; [reflexivity|vm_compute in Ht; injection Ht as <-; vm_compute; reflexivity|].
  exact (proj2 (declared_models_sound (U := ascii_unicode) (fun _ _ _ => 0%Z) (fun _ _ _ => None) demo_adapter
    shop_annotation (fun _ _ => Some false) books_bodies books_models demo_text_stays
    ltac:(evaluate) books_constructed ltac:(vm_compute; reflexivity) 12%positive t Ht)).
Defined.

Lemma shop_names : Forall (sqlite_names (U := ascii_unicode)) shop_plan.
Proof.
  eapply Forall_impl; [exact shop_scaffoldable|]. intros p [[Hb Hc _ _] Hf Hl _ _ _]. by split.
Qed.

Lemma declared_schema_verified_witness :
  is_ok (scaffold_sqlite_ddl shop_models shop_hint [1; 2]%positive) = true /\
  exists result s', sqlite_verify_schema (U := ascii_unicode) (answers shop_plan) shop_models shop_hint [1; 2]%positive Strict
      (Connection false false [] [] []) = (inl result, s') /\
    vr_checked_tables result = [u "users"; u "orders"] /\ vr_issues result = [].
Proof.
  exact (declared_schema_verified (U := ascii_unicode) (fun _ _ _ => 0%Z) (fun _ _ _ => None) demo_adapter
    shop_annotation (fun _ _ => Some false) shop_hint (answers shop_plan) shop_bodies shop_models [1; 2]%positive shop_plan
    Strict (Connection false false [] [] []) demo_text_stays ltac:(evaluate) shop_bodies_constructed shop_declares
    ltac:(vm_compute; reflexivity) shop_names ltac:(discriminate) shop_created eq_refl).
Defined.
