(* ===== verification/Settings.v ===== *)
(** * Required connection settings

    [_settings.py], with the settings and the version guard of [mariadb/settings.py]
    and [sqlite/settings.py]: apply a setting, read it back, and refuse the connection
    when it did not take effect.  What a server does with a statement and what it
    answers to a probe are parameters of the theorems. *)

From S2P Require Export CatalogRows CheckCatalog Effects.

(** ** [ConnectionSetting] *)

(** Either an expected value or a predicate ([_UNSET]). *)
Inductive requirement := Expected (v : cell) | Satisfying (p : cell -> bool).
Record connection_setting := ConnectionSetting {
  cs_setting : string; cs_probe : utext; cs_apply : list utext; cs_requirement : requirement }.

(** [matches] *)
Definition setting_matches (s : connection_setting) (value : cell) : bool :=
  match cs_requirement s with
  | Expected v => bool_decide (value = v)
  | Satisfying p => p value
  end.

(** [SettingsProbe]: what a backend offers to read and write settings. *)
Class settings_probe (S X : Type) := SettingsProbe {
  probe_execute : utext -> eff S X unit;
  probe_fetch : utext -> eff S X cell;
  probe_refuse : exn -> X }.

Section apply.
Context {S X : Type} `{P : settings_probe S X}.

Fixpoint execute_all (statements : list utext) : eff S X unit :=
  match statements with
  | [] => mret tt
  | sql :: statements => _ ← probe_execute sql; execute_all statements
  end.

Definition setting_failed : X :=
  probe_refuse (Exn DatabaseRuntimeError "connection setting did not take effect").

Definition apply_setting (s : connection_setting) : eff S X unit :=
  _ ← execute_all (cs_apply s);
  value ← probe_fetch (cs_probe s);
  Effects.require (setting_matches s value) setting_failed.

Fixpoint apply_connection_settings (settings : list connection_setting) : eff S X unit :=
  match settings with
  | [] => mret tt
  | s :: settings => _ ← apply_setting s; apply_connection_settings settings
  end.
End apply.

(** ** [mariadb/settings.py] *)

Definition MARIADB_MINIMUM_VERSION : list Z := [10; 11]%Z.

(** [s.split(sep)] on one character. *)
Fixpoint split_at (sep : Z) (s : utext) : list utext :=
  match s with
  | [] => [[]]
  | c :: s =>
      if (c =? sep)%Z then [] :: split_at sep s
      else match split_at sep s with
           | part :: parts => (c :: part) :: parts
           | [] => [[c]]
           end
  end.

(** [flag.strip()] *)
Definition strip_blanks (s : utext) : utext :=
  let trim := fix trim s := match s with c :: s' => if py_isspace c then trim s' else s | [] => [] end in
  reverse (trim (reverse (trim s))).

Definition sql_mode_has_required_flags (value : cell) : bool :=
  match value with
  | CText s =>
      let flags := filter (fun f => f <> []) (map strip_blanks (split_at 44 s)) in
      bool_decide (u "STRICT_ALL_TABLES" ∈ flags) && bool_decide (u "NO_ENGINE_SUBSTITUTION" ∈ flags)
  | _ => false
  end.

Definition DESIRED_SQL_MODE : utext :=
  u "STRICT_ALL_TABLES,NO_ENGINE_SUBSTITUTION,NO_ZERO_DATE,NO_ZERO_IN_DATE,ERROR_FOR_DIVISION_BY_ZERO".

Definition MINIMUM_HISTORY_PAGE_SIZE : Z := 8192.
Definition supports_history_name_index (value : cell) : bool :=
  match value with CInt n => (MINIMUM_HISTORY_PAGE_SIZE <=? n)%Z | _ => false end.

Definition session_switch (name : string) : connection_setting :=
  ConnectionSetting name (u "SELECT @@SESSION." ++ u name) [u "SET SESSION " ++ u name ++ u " = 1"] (Expected (CInt 1)).

Definition UTC_TIME_ZONE_SETTING : connection_setting :=
  ConnectionSetting "time_zone" (u "SELECT @@SESSION.time_zone") [u "SET time_zone = '+00:00'"]
    (Expected (CText (u "+00:00"))).

Definition MARIADB_SESSION_SETTINGS : list connection_setting :=
  [ConnectionSetting "sql_mode" (u "SELECT @@SESSION.sql_mode")
     [u "SET SESSION sql_mode = '" ++ DESIRED_SQL_MODE ++ u "'"] (Satisfying sql_mode_has_required_flags);
   UTC_TIME_ZONE_SETTING;
   session_switch "foreign_key_checks"; session_switch "check_constraint_checks"; session_switch "unique_checks";
   ConnectionSetting "innodb_page_size" (u "SELECT @@innodb_page_size") [] (Satisfying supports_history_name_index)].

Definition ascii_lower_text (s : utext) : utext := map (fun c => if (65 <=? c) && (c <=? 90) then c + 32 else c)%Z s.

(** [_parse_mariadb_version]; [isdigit] on the digits that [int] reads. *)
Fixpoint numeric_parts (parts : list utext) : list Z :=
  match parts with
  | part :: parts => if nonempty part && forallb is_digit part then digits_value part :: numeric_parts parts else []
  | [] => []
  end.

Definition parse_mariadb_version (value : cell) : option (list Z) :=
  match value with
  | CText s =>
      if bool_decide (is_Some (find_split (u "mariadb") (ascii_lower_text s))) then
        match numeric_parts (split_at 46 (hd [] (split_at 45 s))) with
        | [] => None
        | parts => Some parts
        end
      else None
  | _ => None
  end.

(** The order of tuples of integers. *)
Fixpoint version_lt (v w : list Z) : bool :=
  match v, w with
  | _, [] => false
  | [], _ :: _ => true
  | x :: v, y :: w => (x <? y)%Z || (x =? y)%Z && version_lt v w
  end.

Definition supported_version (value : cell) : bool :=
  match parse_mariadb_version value with
  | Some v => negb (version_lt v MARIADB_MINIMUM_VERSION)
  | None => false
  end.

Definition version_query : utext := u "SELECT VERSION()".

Section configure.
Context {S X : Type} `{P : settings_probe S X}.

(** [verify_mariadb_version] *)
Definition verify_mariadb_version : eff S X unit :=
  raw ← probe_fetch version_query;
  Effects.require (supported_version raw) (probe_refuse (Exn DatabaseRuntimeError "snekql requires MariaDB")).

(** [configure_mariadb_connection] *)
Definition configure_mariadb_connection : eff S X unit :=
  _ ← verify_mariadb_version; apply_connection_settings MARIADB_SESSION_SETTINGS.
End configure.

(** ** [sqlite/settings.py] *)

Definition SQLITE_BUSY_TIMEOUT_MS : Z := 5000.

Inductive durability := DurabilityNormal | DurabilityFull.

Definition SQLITE_WAL_SETTING : connection_setting :=
  ConnectionSetting "journal_mode" (u "PRAGMA journal_mode") [u "PRAGMA journal_mode = WAL"] (Expected (CText (u "wal"))).

Definition sqlite_synchronous_setting (d : durability) : connection_setting :=
  ConnectionSetting "synchronous" (u "PRAGMA synchronous")
    [u "PRAGMA synchronous = " ++ u match d with DurabilityFull => "FULL" | DurabilityNormal => "NORMAL" end]
    (Expected (CInt match d with DurabilityFull => 2 | DurabilityNormal => 1 end)).

Definition SQLITE_FILE_CONNECTION_SETTINGS : list connection_setting :=
  [SQLITE_WAL_SETTING; sqlite_synchronous_setting DurabilityNormal].

Definition SQLITE_CONNECTION_SETTINGS : list connection_setting :=
  [ConnectionSetting "foreign_keys" (u "PRAGMA foreign_keys") [u "PRAGMA foreign_keys = ON"] (Expected (CInt 1));
   ConnectionSetting "busy_timeout" (u "PRAGMA busy_timeout") [u "PRAGMA busy_timeout = 5000"]
     (Expected (CInt SQLITE_BUSY_TIMEOUT_MS));
   ConnectionSetting "encoding" (u "PRAGMA encoding") [] (Expected (CText (u "UTF-8")))].

Definition sqlite_settings (file_backed : bool) (d : durability) : list connection_setting :=
  if file_backed then
    match d with
    | DurabilityFull => [SQLITE_WAL_SETTING; sqlite_synchronous_setting d]
    | DurabilityNormal => SQLITE_FILE_CONNECTION_SETTINGS
    end ++ SQLITE_CONNECTION_SETTINGS
  else SQLITE_CONNECTION_SETTINGS.

(** [apply_sqlite_connection_settings] *)
Definition apply_sqlite_connection_settings {S X} `{settings_probe S X} (file_backed : bool) (d : durability)
    : eff S X unit :=
  apply_connection_settings (sqlite_settings file_backed d).

(** ** A setting that was verified is in effect

    A server keeps a session per connection; [run] is what a statement does to it, and
    [answer] what a probe returns. *)

Section effect.
Context {session : Type} (run : utext -> session -> session) (answer : utext -> session -> cell).

Definition run_all (statements : list utext) (s : session) : session := fold_left (fun s sql => run sql s) statements s.

Definition in_effect (st : connection_setting) (s : session) : Prop :=
  setting_matches st (answer (cs_probe st) s) = true.

(** Applying a setting leaves what the probes of the others answer: the statements
    name one variable each. *)
Definition independent (settings : list connection_setting) : Prop :=
  forall st st' s, st ∈ settings -> st' ∈ settings -> cs_probe st <> cs_probe st' ->
  answer (cs_probe st) (run_all (cs_apply st') s) = answer (cs_probe st) s.

(** A connection whose statements and probes reach such a server. *)
Class settings_server (S X : Type) `{P : settings_probe S X} (view : S -> session) : Prop := SettingsServer {
  server_execute : forall sql s s', probe_execute sql s = (inl tt, s') -> view s' = run sql (view s);
  server_fetch : forall sql v s s', probe_fetch sql s = (inl v, s') -> view s' = view s /\ v = answer sql (view s) }.

Section server.
Context {S X : Type} `{P : settings_probe S X} (view : S -> session) `{!settings_server S X view}.

Lemma execute_all_view statements s s' : execute_all statements s = (inl tt, s') ->
  view s' = run_all statements (view s).
Proof using All.
  revert s. induction statements as [|sql statements IH]; intros s H; cbn [execute_all] in H; [by injection H as <-|].
  apply bind_cases in H as [([] & s1 & Hrun & H)|(x & _ & [=])]. apply server_execute in Hrun. apply IH in H. by rewrite H, Hrun.
Qed.

Lemma apply_setting_view st s s' : apply_setting st s = (inl tt, s') ->
  view s' = run_all (cs_apply st) (view s) /\ in_effect st (view s').
Proof using All.
  intros H. unfold apply_setting in H.
  apply bind_cases in H as [([] & s0 & Hrun & H)|(x & _ & [=])]. apply bind_cases in H as [(a & s1 & Hrun0 & H)|(x & _ & [=])].
  apply execute_all_view in Hrun. apply server_fetch in Hrun0 as [Hv ->].
  unfold in_effect. destruct (setting_matches st (answer (cs_probe st) (view s0))) eqn:E; cbn in H; [|discriminate H].
  injection H as <-. rewrite Hv, <- Hrun. by split.
Qed.

(** What the loop read back of each setting holds when it ends. *)
Lemma settings_applied settings s s' : independent settings -> NoDup (map cs_probe settings) ->
  apply_connection_settings settings s = (inl tt, s') ->
  forall st, st ∈ settings -> in_effect st (view s').
Proof using All.
  intros Hind Hnd Hrun.
  assert (Hkeep : forall rest s, (forall x, x ∈ rest -> x ∈ settings) -> apply_connection_settings rest s = (inl tt, s') ->
    forall st, st ∈ settings -> (forall x, x ∈ rest -> cs_probe st <> cs_probe x) -> in_effect st (view s) ->
    in_effect st (view s')).
  { clear Hrun Hnd. induction rest as [|x rest IH]; intros s0 Hin H st Hst Hne Heff; cbn [apply_connection_settings] in H.
    - by injection H as <-.
    - apply bind_cases in H as [([] & s1 & Hrun & H)|(y & _ & [=])]. apply apply_setting_view in Hrun as [Hv _].
      apply (IH _ (fun y Hy => Hin y (proj2 (elem_of_cons _ _ _) (or_intror Hy))) H st Hst).
      + intros y Hy. apply Hne. by right.
      + unfold in_effect in *. rewrite Hv, Hind; [done|done|apply Hin; left|apply Hne; left]. }
  assert (Hall : forall rest s, (forall x, x ∈ rest -> x ∈ settings) -> NoDup (map cs_probe rest) ->
    apply_connection_settings rest s = (inl tt, s') -> forall st, st ∈ rest -> in_effect st (view s')).
  { clear Hrun Hnd s. induction rest as [|x rest IH]; intros s0 Hin Hnd H st Hst; [by apply elem_of_nil in Hst|].
    cbn [apply_connection_settings] in H. apply bind_cases in H as [([] & s1 & Hrun & H)|(y & _ & [=])]. cbn [map] in Hnd. apply NoDup_cons in Hnd as [Hx Hnd].
    assert (Hin' : forall y, y ∈ rest -> y ∈ settings) by (intros y Hy; apply Hin; by right).
    apply elem_of_cons in Hst as [->|Hst]; [|by apply (IH _ Hin' Hnd H)].
    apply apply_setting_view in Hrun as [_ Heff]. apply (Hkeep rest s1 Hin' H); [apply Hin; left| |done].
    intros y Hy E. apply Hx. rewrite E. by apply list_elem_of_fmap_2. }
  by apply (Hall settings s).
Qed.
End server.
End effect.
