(* ===== verification/MariadbPool.v ===== *)
(** * The MariaDB connection pool

    [MariaDBConnectionPool] of [mariadb/runtime.py] over the driver's pool, with the
    session settings that every connection it hands out must have.  A call is a program
    whose awaits are answered by a script: an answer may fail, be cancelled, pass the
    deadline, take time, or find the pool closed by another task meanwhile. *)

From S2P Require Export Settings.

(** ** The driver's pool *)

Inductive pool_failure := PfPython (e : exn) | PfDriver | PfCancelled | PfDeadline | PfRunning.

Inductive pool_phase := PoolOpen | PoolClosing | PoolClosed.
#[export] Instance pool_phase_eq_dec : EqDecision pool_phase.
Proof. solve_decision. Defined.

Inductive pool_command :=
  | GateAdmit | DriverAcquire | Ping (c : positive) | Checkpoint
  | OpenCursor (c : positive) | ExecuteOn (c : positive) (sql : utext) | FetchOne (c : positive) | CloseCursor (c : positive)
  | WaitIdle | WaitClosed.
#[export] Instance pool_command_eq_dec : EqDecision pool_command.
Proof. solve_decision. Defined.

Inductive fault := DriverFault | CancelledFault | DeadlineFault.

(** Which connection the driver grants: a free one, or a new one. *)
Inductive grant := Reuse (c : positive) | Fresh.

Record answer := Answer {
  an_fault : option fault; an_happened : bool; an_elapsed : N; an_phase : pool_phase; an_grant : grant }.

Section pool.
(** What a server does with a statement, answers to a probe, starts a session with, and
    which returned sessions the driver's pool keeps. *)
Context {session : Type} (run : utext -> session -> session) (answer_of : utext -> session -> cell)
  (new_session : session) (driver_keeps : session -> pool_phase -> bool).

Record physical := Physical {
  ph_session : session; ph_open : bool; ph_configured : bool; ph_connected : Z; ph_returned : option Z }.

(** [po_slots]: the gate's admitted count; [po_deadline]: inside [fail_after]. *)
Record pool_state := PoolState {
  po_connections : gmap positive physical; po_free : list positive; po_leased : gset positive;
  po_slots : nat; po_discarded : nat; po_failures : nat; po_cancellations : nat;
  po_phase : pool_phase; po_now : Z; po_shielded : bool; po_deadline : bool;
  po_sent : list pool_command; po_script : list answer }.

Abbreviation program := (eff pool_state pool_failure).

(** *** Setters *)

Definition set_connections (f : gmap positive physical -> gmap positive physical) (s : pool_state) : pool_state :=
  PoolState (f (po_connections s)) (po_free s) (po_leased s) (po_slots s) (po_discarded s) (po_failures s)
    (po_cancellations s) (po_phase s) (po_now s) (po_shielded s) (po_deadline s) (po_sent s) (po_script s).
Definition set_lists (free : list positive) (leased : gset positive) (s : pool_state) : pool_state :=
  PoolState (po_connections s) free leased (po_slots s) (po_discarded s) (po_failures s)
    (po_cancellations s) (po_phase s) (po_now s) (po_shielded s) (po_deadline s) (po_sent s) (po_script s).
Definition set_slots (f : nat -> nat) (s : pool_state) : pool_state :=
  PoolState (po_connections s) (po_free s) (po_leased s) (f (po_slots s)) (po_discarded s) (po_failures s)
    (po_cancellations s) (po_phase s) (po_now s) (po_shielded s) (po_deadline s) (po_sent s) (po_script s).
Definition count_discard (s : pool_state) : pool_state :=
  PoolState (po_connections s) (po_free s) (po_leased s) (po_slots s) (S (po_discarded s)) (po_failures s)
    (po_cancellations s) (po_phase s) (po_now s) (po_shielded s) (po_deadline s) (po_sent s) (po_script s).
Definition count_failure (cancelled : bool) (s : pool_state) : pool_state :=
  PoolState (po_connections s) (po_free s) (po_leased s) (po_slots s) (po_discarded s)
    (if cancelled then po_failures s else S (po_failures s))
    (if cancelled then S (po_cancellations s) else po_cancellations s)
    (po_phase s) (po_now s) (po_shielded s) (po_deadline s) (po_sent s) (po_script s).
Definition set_phase_to (p : pool_phase) (s : pool_state) : pool_state :=
  PoolState (po_connections s) (po_free s) (po_leased s) (po_slots s) (po_discarded s) (po_failures s)
    (po_cancellations s) p (po_now s) (po_shielded s) (po_deadline s) (po_sent s) (po_script s).
Definition set_scopes (shielded deadline : bool) (s : pool_state) : pool_state :=
  PoolState (po_connections s) (po_free s) (po_leased s) (po_slots s) (po_discarded s) (po_failures s)
    (po_cancellations s) (po_phase s) (po_now s) shielded deadline (po_sent s) (po_script s).

(** An await: the command is sent, time passes, and the script answers.  A
    cancellation does not reach a shielded scope, nor a deadline what is outside
    [fail_after]. *)
Definition calm (s : pool_state) : answer := Answer None false 0 (po_phase s) (Reuse (hd 1%positive (po_free s))).
Definition await (c : pool_command) : program answer := fun s =>
  let a := default (calm s) (head (po_script s)) in
  let s' := PoolState (po_connections s) (po_free s) (po_leased s) (po_slots s) (po_discarded s) (po_failures s)
    (po_cancellations s) (an_phase a) (po_now s + Z.of_N (an_elapsed a))%Z (po_shielded s) (po_deadline s)
    (po_sent s ++ [c]) (tail (po_script s)) in
  match an_fault a with
  | Some DriverFault => (inr PfDriver, s')
  | Some CancelledFault => if po_shielded s then (inl a, s') else (inr PfCancelled, s')
  | Some DeadlineFault => if po_deadline s && negb (po_shielded s) then (inr PfDeadline, s') else (inl a, s')
  | None => (inl a, s')
  end.

(** [with anyio.CancelScope(shield=True)] and [with anyio.fail_after(remaining)] *)
Definition shielded {A} (m : program A) : program A := fun s =>
  let '(r, s') := m (set_scopes true (po_deadline s) s) in (r, set_scopes (po_shielded s) (po_deadline s) s').
Definition fail_after {A} (m : program A) : program A := fun s =>
  let '(r, s') := m (set_scopes (po_shielded s) true s) in (r, set_scopes (po_shielded s) (po_deadline s) s').

Definition py (c : exc_class) (m : string) : pool_failure := PfPython (Exn c m).

(** [except TimeoutError: raise cls(msg)] *)
Definition or_timeout (c : exc_class) (m : string) (e : pool_failure) : pool_failure :=
  match e with PfDeadline => py c m | _ => e end.

(** *** Connections *)

Definition no_connection : physical := Physical new_session false false 0 None.
Definition connection_of (c : positive) (s : pool_state) : physical := default no_connection (po_connections s !! c).
Definition with_session (f : session -> session) (p : physical) : physical :=
  Physical (f (ph_session p)) (ph_open p) (ph_configured p) (ph_connected p) (ph_returned p).
Definition update_connection (c : positive) (f : physical -> physical) (s : pool_state) : pool_state :=
  set_connections (insert c (f (connection_of c s))) s.

(** [connection.close()] *)
Definition closed (p : physical) : physical :=
  Physical (ph_session p) false (ph_configured p) (ph_connected p) (ph_returned p).
Definition close_connection (c : positive) : program unit := modify (update_connection c closed).

(** The driver's [pool.acquire()]. *)
Definition driver_acquire : program positive :=
  a ← await DriverAcquire;
  s ← get;
  match (match an_grant a with
         | Reuse c => if bool_decide (c ∈ po_free s) then Some c else None
         | Fresh => None
         end) with
  | Some c =>
      _ ← modify (set_lists (filter (fun x => x <> c) (po_free s)) ({[c]} ∪ po_leased s)); mret c
  | None =>
      let c := fresh (dom (po_connections s)) in
      _ ← modify (set_connections (insert c (Physical new_session true false (po_now s) None)));
      _ ← modify (set_lists (po_free s) ({[c]} ∪ po_leased s)); mret c
  end.

(** The driver's [pool.release(connection)]: an open connection that the driver keeps
    becomes free, any other is closed. *)
Definition driver_release (c : positive) : program unit :=
  s ← get;
  let p := connection_of c s in
  if ph_open p && driver_keeps (ph_session p) (po_phase s)
  then modify (set_lists (po_free s ++ [c]) (po_leased s ∖ {[c]}))
  else _ ← close_connection c; modify (set_lists (po_free s) (po_leased s ∖ {[c]})).

(** ** [MariaDBConnectionPool] *)

(** [health_check], [max_connection_idle] and [max_connection_lifetime]. *)
Record pool_config := PoolConfig {
  pk_check_on_checkout : bool; pk_max_idle : option Z; pk_max_lifetime : option Z }.
Context (config : pool_config).

Definition check_accepting_work : program unit :=
  s ← get;
  match po_phase s with
  | PoolOpen => mret tt
  | PoolClosed => throw (py DatabaseClosedError "database is closed")
  | PoolClosing => throw (py DatabaseClosingError "database is closing")
  end.

(** The gate ([PoolGate] models the queue): one slot, or an exception. *)
Definition gate_admit : program unit :=
  _ ← try_except (_ ← fail_after (await GateAdmit); mret tt)
        (fun e => throw (or_timeout PoolTimeoutError "timed out acquiring database connection" e));
  _ ← check_accepting_work;
  modify (set_slots S).
Definition gate_release : program unit := modify (set_slots pred).

(** The cleanup of a connection that is not handed out. *)
Definition drop_connection (c : positive) : program unit :=
  _ ← close_connection c; driver_release c.

(** [discard] *)
Definition discard (c : positive) : program unit :=
  _ ← modify count_discard;
  _ ← shielded (_ ← drop_connection c; gate_release);
  _ ← await Checkpoint; mret tt.

(** [release] *)
Definition release (c : positive) : program unit :=
  _ ← shielded (
    _ ← modify (fun s =>
      if bool_decide (is_Some (pk_max_idle config)) then
        update_connection c (fun p =>
          Physical (ph_session p) (ph_open p) (ph_configured p) (ph_connected p) (Some (po_now s))) s
      else s);
    _ ← driver_release c; gate_release);
  _ ← await Checkpoint; mret tt.

Definition expired (now : Z) (p : physical) : bool :=
  match pk_max_lifetime config with Some limit => (limit <=? now - ph_connected p)%Z | None => false end
  || match pk_max_idle config, ph_returned p with
     | Some limit, Some returned => (limit <=? now - returned)%Z
     | _, _ => false
     end.

(** The loop of [_checkout]. *)
Fixpoint checkout_loop (fuel : nat) : program positive :=
  match fuel with
  | 0 => throw PfRunning
  | S fuel =>
      c ← driver_acquire;
      s ← get;
      if expired (po_now s) (connection_of c s) then
        _ ← drop_connection c; _ ← await Checkpoint; checkout_loop fuel
      else if pk_check_on_checkout config then
        try_except (_ ← await (Ping c); mret c)
          (fun e => _ ← modify count_discard; _ ← drop_connection c; throw e)
      else mret c
  end.

(** [_checkout] *)
Definition checkout (fuel : nat) : program positive :=
  try_except (fail_after (checkout_loop fuel))
    (fun e => throw (or_timeout PoolTimeoutError "timed out acquiring database connection" e)).

(** [_MariaDBSettingsProbe] on a connection. *)
Definition with_cursor {A} (c : positive) (m : program A) : program A :=
  _ ← await (OpenCursor c); try_finally m (_ ← await (CloseCursor c); mret tt).

(** A statement may take effect although its answer is a failure. *)
Definition execute_on (c : positive) (sql : utext) : program unit := fun s =>
  let happened := default true (an_happened <$> head (po_script s)) in
  match await (ExecuteOn c sql) s with
  | (inl _, s') => (inl tt, update_connection c (with_session (run sql)) s')
  | (inr e, s') => (inr e, if happened then update_connection c (with_session (run sql)) s' else s')
  end.
(** A SELECT leaves the session alone. *)
Definition query_on (c : positive) (sql : utext) : program cell :=
  _ ← await (ExecuteOn c sql); _ ← await (FetchOne c);
  s ← get; mret (answer_of sql (ph_session (connection_of c s))).

Definition settings_of (c : positive) : settings_probe pool_state pool_failure := {|
  probe_execute := fun sql => with_cursor c (execute_on c sql);
  probe_fetch := fun sql => with_cursor c (query_on c sql);
  probe_refuse := PfPython |}.

(** [_ensure_configured] *)
Definition ensure_configured (c : positive) : program unit :=
  s ← get;
  if ph_configured (connection_of c s) then mret tt
  else
    _ ← try_except (configure_mariadb_connection (P := settings_of c))
          (fun e => _ ← modify count_discard; _ ← drop_connection c; throw e);
    modify (update_connection c (fun p => Physical (ph_session p) (ph_open p) true (ph_connected p) (ph_returned p))).

(** [_acquire] *)
Definition acquire_connection (fuel : nat) : program positive :=
  c ← try_except (checkout fuel) (fun e => _ ← gate_release; throw e);
  _ ← try_except (fail_after (ensure_configured c))
        (fun e => _ ← gate_release; throw (or_timeout PoolTimeoutError "timed out acquiring database connection" e));
  _ ← try_except check_accepting_work (fun e => _ ← discard c; throw e);
  mret c.

(** [acquire], with observers that do not raise. *)
Definition acquire (fuel : nat) : program positive :=
  try_except (_ ← gate_admit; acquire_connection fuel)
    (fun e => _ ← modify (count_failure match e with PfCancelled => true | _ => false end); throw e).

(** [_close]: other tasks give their connections back while it waits. *)
Definition close_steps : program unit :=
  _ ← modify (set_phase_to PoolClosing);
  _ ← try_except (fail_after (_ ← await WaitIdle; _ ← await WaitClosed; mret tt))
        (fun e => throw (or_timeout DatabaseCloseTimeoutError "timed out closing database" e));
  _ ← modify (fun s => set_lists [] (po_leased s)
               (foldr (fun c => update_connection c closed) s (po_free s)));
  modify (set_phase_to PoolClosed).
Definition close_pool : program unit :=
  s ← get;
  match po_phase s with PoolClosed => mret tt | _ => close_steps end.
End pool.
