(* ===== verification/MariadbPoolFacts.v ===== *)
(** * The MariaDB pool loses nothing and hands out configured connections

    For every script of answers: what a call of [MariadbPool.v] does to slots,
    connections and leases, and what is known of a connection it hands out. *)

From S2P Require Export MariadbPool.

(** ** Assertions that a program keeps *)

Section keeps.
Context {S X : Type} (P : S -> Prop).

Definition keeps {A} (m : eff S X A) : Prop := ensures P m (fun _ => P).

Lemma keeps_ret {A} (a : A) : keeps (mret a).
Proof using All. by intros s Hs. Qed.
Lemma keeps_throw {A} x : keeps (throw x : eff S X A).
Proof using All. by intros s Hs. Qed.
Lemma keeps_require b x : keeps (Effects.require b x).
Proof using All. intros s Hs. by destruct b. Qed.
Lemma keeps_bind {A B} (m : eff S X A) (f : A -> eff S X B) : keeps m -> (forall a, keeps (f a)) -> keeps (m ≫= f).
Proof using All.
  intros Hm Hf. eapply ensures_bind with (R := fun _ => P); [|done].
  eapply ensures_weaken; [exact Hm|done|]. by intros [a|x] s Hs.
Qed.
Lemma keeps_finally {A} (m : eff S X A) f : keeps m -> keeps f -> keeps (try_finally m f).
Proof using All.
  intros Hm Hf. eapply ensures_finally with (R := fun _ => P); [exact Hm|].
  intros r. eapply ensures_weaken; [exact Hf|done|]. by intros [a|x] s Hs.
Qed.

Context `{Pr : settings_probe S X}.
Lemma settings_keep settings : (forall sql, keeps (probe_execute sql)) -> (forall sql, keeps (probe_fetch sql)) ->
  keeps (apply_connection_settings settings).
Proof using All.
  intros He Hf. induction settings as [|st settings IH]; cbn [apply_connection_settings]; [apply keeps_ret|].
  apply keeps_bind; [|done]. unfold apply_setting. apply keeps_bind.
  - induction (cs_apply st); cbn [execute_all]; [apply keeps_ret|by apply keeps_bind].
  - intros _. apply keeps_bind; [done|]. intros v. apply keeps_require.
Qed.
Lemma configure_keeps : (forall sql, keeps (probe_execute sql)) -> (forall sql, keeps (probe_fetch sql)) ->
  keeps configure_mariadb_connection.
Proof using All.
  intros He Hf. unfold configure_mariadb_connection, verify_mariadb_version.
  apply keeps_bind; [apply keeps_bind; [done|intros v; apply keeps_require]|]. intros _. by apply settings_keep.
Qed.
End keeps.

Section facts.
Context {session : Type} (run : utext -> session -> session) (answer_of : utext -> session -> cell)
  (new_session : session) (driver_keeps : session -> pool_phase -> bool) (config : pool_config).

Abbreviation pool_state_ := (pool_state (session:=session)).
Abbreviation program := (eff pool_state_ pool_failure).
Abbreviation connection_of_ := (connection_of new_session).

(** ** Resources *)

(** The settings that a session must have. *)
Definition session_configured (s : session) : Prop :=
  forall st, st ∈ MARIADB_SESSION_SETTINGS -> in_effect answer_of st s.

Record pool_ok (leased : gset positive) (slots : nat) (s : pool_state_) : Prop := PoolOk {
  ok_leased : po_leased s = leased;
  ok_slots : po_slots s = slots;
  ok_free : NoDup (po_free s);
  ok_free_not_leased : forall c, c ∈ po_free s -> c ∉ leased;
  ok_free_open : forall c, c ∈ po_free s -> ph_open (connection_of_ c s) = true;
  ok_known : forall c, c ∈ po_free s \/ c ∈ leased -> is_Some (po_connections s !! c);
  ok_configured : forall c p, po_connections s !! c = Some p -> ph_configured p = true -> session_configured (ph_session p) }.

Lemma ok_scopes L n a b s : pool_ok L n s -> pool_ok L n (set_scopes a b s).
Proof using Type. intros [H1 H2 H3 H4 H5 H6 H7]. by split. Qed.

Lemma ensures_shielded {A} (P : pool_state_ -> Prop) (m : eff pool_state_ pool_failure A) Q :
  (forall s a b, P s -> P (set_scopes a b s)) -> (forall r s a b, Q r s -> Q r (set_scopes a b s)) ->
  ensures P m Q -> ensures P (shielded m) Q.
Proof using Type.
  intros HP HQ Hm s Hs. unfold shielded. specialize (Hm _ (HP s true (po_deadline s) Hs)).
  destruct (m _) as [r s']. by apply HQ.
Qed.
Lemma ensures_fail_after {A} (P : pool_state_ -> Prop) (m : eff pool_state_ pool_failure A) Q :
  (forall s a b, P s -> P (set_scopes a b s)) -> (forall r s a b, Q r s -> Q r (set_scopes a b s)) ->
  ensures P m Q -> ensures P (fail_after m) Q.
Proof using Type.
  intros HP HQ Hm s Hs. unfold fail_after. specialize (Hm _ (HP s (po_shielded s) true Hs)).
  destruct (m _) as [r s']. by apply HQ.
Qed.

(** The last connection that the driver granted was pinged, if the pool asks for it. *)
Definition pinged (c : positive) (s : pool_state_) : Prop :=
  pk_check_on_checkout config = true ->
  exists before after, po_sent s = before ++ DriverAcquire :: Ping c :: after /\ DriverAcquire ∉ after.

(** A connection on its way to the caller: leased beside [L], open. *)
Record held (c : positive) (L : gset positive) (n : nat) (s : pool_state_) : Prop := Held {
  hd_new : c ∉ L;
  hd_ok : pool_ok ({[c]} ∪ L) n s;
  hd_open : ph_open (connection_of_ c s) = true }.

Lemma await_ok (P Q : pool_state_ -> Prop) cmd : (forall s a, P s -> Q (PoolState (po_connections s) (po_free s) (po_leased s) (po_slots s)
    (po_discarded s) (po_failures s) (po_cancellations s) (an_phase a) (po_now s + Z.of_N (an_elapsed a))%Z (po_shielded s)
    (po_deadline s) (po_sent s ++ [cmd]) (tail (po_script s)))) ->
  ensures P (await (session:=session) cmd) (fun _ => Q).
Proof using Type.
  intros HP s Hs. unfold await. set (a := default _ _). specialize (HP s a Hs).
  destruct (an_fault a) as [[| |]|]; [exact HP| | |exact HP]; destruct (po_shielded s), (po_deadline s); exact HP.
Qed.

Lemma ok_await L n cmd : ensures (pool_ok L n) (await cmd) (fun _ => pool_ok L n).
Proof using Type. apply await_ok. intros s a [H1 H2 H3 H4 H5 H6 H7]. by split. Qed.

Lemma held_await c L n cmd : ensures (held c L n) (await cmd) (fun _ => held c L n).
Proof using Type. apply await_ok. intros s a [H0 [H1 H2 H3 H4 H5 H6 H7] Ho]. by split. Qed.

Lemma held_scopes c L n s a b : held c L n s -> held c L n (set_scopes a b s).
Proof using Type. intros [H1 H2 H3]. split; [done|by apply ok_scopes|done]. Qed.

(** *** The driver *)

Lemma driver_acquire_ok L n : ensures (pool_ok L n) (driver_acquire new_session)
  (fun r s => match r with
   | inl c => held c L n s /\ exists before, po_sent s = before ++ [DriverAcquire]
   | inr _ => pool_ok L n s
   end).
Proof using All.
  unfold driver_acquire.
  apply ensures_bind with (fun _ s => pool_ok L n s /\ exists before, po_sent s = before ++ [DriverAcquire]).
  { intros s Hs. pose proof (ok_await L n DriverAcquire s Hs) as Hk. revert Hk. unfold await.
    set (a := default _ _). intros Hk. destruct (an_fault a) as [[| |]|];
      try destruct (po_shielded s); try destruct (po_deadline s); cbn in *; (split; [exact Hk|by eexists]) || exact Hk. }
  intros a s [Hs Hsent]. rewrite get_then. pose proof Hs as [H1 H2 H3 H4 H5 H6 H7].
  destruct (match an_grant a with Reuse c => _ | Fresh => None end) as [c|] eqn:E.
  - assert (Hc : c ∈ po_free s).
    { destruct (an_grant a); [|done]. case_bool_decide; [|done]. by injection E as <-. }
    rewrite modify_then. cbn. split; [|done]. split; [|split|]; cbn [po_leased po_slots po_free po_connections set_lists].
    + by apply H4.
    + by rewrite H1.
    + done.
    + by apply NoDup_filter.
    + intros x Hx. apply list_elem_of_filter in Hx as [Hne Hx]. rewrite not_elem_of_union, not_elem_of_singleton.
      split; [done|by apply H4].
    + intros x Hx. apply list_elem_of_filter in Hx as [_ Hx]. by apply H5.
    + intros x [Hx|Hx]; [apply list_elem_of_filter in Hx as [_ Hx]; apply H6; by left|].
      apply elem_of_union in Hx as [Hx|Hx]; [|apply H6; by right]. apply elem_of_singleton in Hx as ->. apply H6. by left.
    + done.
    + by apply H5.
  - rewrite !modify_then. set (c := fresh (dom (po_connections s))).
    assert (Hnew : po_connections s !! c = None) by (apply not_elem_of_dom, is_fresh).
    assert (Hfree : forall x, x ∈ po_free s -> x <> c).
    { intros x Hx ->. destruct (H6 c (or_introl Hx)) as [p Hp]. congruence. }
    assert (HL : c ∉ L).
    { intros Hc. destruct (H6 c (or_intror Hc)) as [p Hp]. congruence. }
    cbn. split; [|done]. split; [done|split|];
      cbn [po_leased po_slots po_free po_connections set_lists set_connections].
    + by rewrite H1.
    + done.
    + done.
    + intros x Hx. rewrite not_elem_of_union, not_elem_of_singleton. split; [by apply Hfree|by apply H4].
    + intros x Hx. unfold connection_of. cbn. rewrite lookup_insert_ne by (apply not_eq_sym, Hfree, Hx). by apply H5.
    + intros x [Hx|Hx].
      * rewrite lookup_insert_ne by (apply not_eq_sym, Hfree, Hx). apply H6. by left.
      * destruct (decide (x = c)) as [->|Hne]; [by rewrite lookup_insert_eq|]. rewrite lookup_insert_ne by done.
        apply H6. right. set_solver.
    + intros x p Hx Hp. destruct (decide (x = c)) as [->|Hne]; [rewrite lookup_insert_eq in Hx; by injection Hx as <-|].
      rewrite lookup_insert_ne in Hx by done. by apply (H7 x).
    + unfold connection_of. cbn. by rewrite lookup_insert_eq.
Qed.

(** An update of a leased connection that leaves what the invariant says of it. *)
Lemma ok_update c L n f s : c ∈ L -> pool_ok L n s ->
  (forall p, ph_configured (f p) = true -> ph_configured p = true /\ ph_session (f p) = ph_session p) ->
  pool_ok L n (update_connection new_session c f s).
Proof using All.
  intros Hc [H1 H2 H3 H4 H5 H6 H7] Hf. split; cbn [update_connection set_connections po_leased po_slots po_free po_connections]; try done.
  - intros x Hx. unfold connection_of. cbn. rewrite lookup_insert_ne; [by apply H5|]. intros ->. by apply (H4 x).
  - intros x Hx. destruct (decide (x = c)) as [->|Hne]; [by rewrite lookup_insert_eq|]. rewrite lookup_insert_ne by done. by apply H6.
  - intros x p Hx Hp. destruct (decide (x = c)) as [->|Hne].
    + rewrite lookup_insert_eq in Hx. injection Hx as <-. destruct (Hf _ Hp) as [Hp' ->].
      unfold connection_of in *. destruct (po_connections s !! c) as [q|] eqn:Eq; [by apply (H7 c)|done].
    + rewrite lookup_insert_ne in Hx by done. by apply (H7 x).
Qed.

Lemma release_lists c L n s free : c ∉ L -> pool_ok ({[c]} ∪ L) n s ->
  free = po_free s \/ free = po_free s ++ [c] /\ ph_open (connection_of_ c s) = true ->
  pool_ok L n (set_lists free (po_leased s ∖ {[c]}) s).
Proof using All.
  intros Hc [H1 H2 H3 H4 H5 H6 H7] Hfree.
  assert (Hin : forall x, x ∈ free -> x ∈ po_free s \/ x = c /\ ph_open (connection_of_ c s) = true).
  { intros x Hx. destruct Hfree as [->|[-> Ho]]; [by left|]. apply elem_of_app in Hx as [Hx|Hx]; [by left|].
    apply list_elem_of_singleton in Hx as ->. by right. }
  split; cbn [set_lists po_leased po_slots po_free po_connections]; try done.
  - rewrite H1. set_solver.
  - destruct Hfree as [->|[-> _]]; [done|]. apply NoDup_app. split_and!; [done| |apply NoDup_singleton].
    intros x Hx Hx'. apply list_elem_of_singleton in Hx' as ->. apply (H4 c Hx). set_solver.
  - intros x Hx. destruct (Hin x Hx) as [Hx'|[-> _]]; [|done]. pose proof (H4 x Hx'). set_solver.
  - intros x Hx. destruct (Hin x Hx) as [Hx'|[-> Ho]]; [by apply H5|done].
  - intros x [Hx|Hx]; [|apply H6; right; set_solver]. destruct (Hin x Hx) as [Hx'|[-> _]]; apply H6; [by left|right; set_solver].
Qed.

Lemma driver_release_ok c L n : c ∉ L -> ensures (pool_ok ({[c]} ∪ L) n) (driver_release new_session driver_keeps c)
  (fun r s => (exists u, r = inl u) /\ pool_ok L n s).
Proof using All.
  intros Hc s Hs. unfold driver_release. rewrite get_then. cbv zeta. destruct (_ && _) eqn:E.
  - cbn. split; [by eexists|]. apply release_lists; [done|done|]. right. split; [done|].
    rewrite !andb_true_iff in E. tauto.
  - unfold close_connection. rewrite modify_then. cbn. split; [by eexists|].
    apply (release_lists c L n (update_connection new_session c _ s)); [done| |by left].
    apply ok_update; [set_solver|done|]. intros p Hp. by cbn in Hp.
Qed.

Lemma drop_connection_ok c L n : c ∉ L -> ensures (pool_ok ({[c]} ∪ L) n) (drop_connection new_session driver_keeps c)
  (fun r s => (exists u, r = inl u) /\ pool_ok L n s).
Proof using All.
  intros Hc s Hs.
  refine (driver_release_ok c L n Hc (update_connection new_session c closed s) _).
  apply ok_update; [set_solver|done|]. intros p Hp. by cbn in Hp.
Qed.

Lemma ok_count_discard L n s : pool_ok L n s -> pool_ok L n (count_discard s).
Proof using Type. intros [H1 H2 H3 H4 H5 H6 H7]. by split. Qed.

(** [except BaseException: count, drop, raise] *)
Lemma drop_and_raise {A} c L n e : c ∉ L ->
  ensures (pool_ok ({[c]} ∪ L) n)
    (_ ← modify count_discard; _ ← drop_connection new_session driver_keeps c; (throw e : program A))
    (fun r s => exists e', r = inr e' /\ pool_ok L n s).
Proof using All.
  intros Hc. eapply ensures_bind with (R := fun _ => pool_ok ({[c]} ∪ L) n); [apply ensures_modify; intros s; apply ok_count_discard|].
  intros _. eapply ensures_bind with (R := fun _ => pool_ok L n).
  - eapply ensures_weaken; [by apply drop_connection_ok|done|]. by intros [u|x] s [[v [=]] Hs].
  - intros _. apply ensures_throw. intros s Hs. by exists e.
Qed.

(** ** [_checkout] *)

Definition taken (c : positive) (L : gset positive) (n : nat) (s : pool_state_) : Prop := held c L n s /\ pinged c s.

Lemma ping_ok c L n : ensures (fun s => held c L n s /\ exists before, po_sent s = before ++ [DriverAcquire])
  (await (Ping c)) (fun _ s => held c L n s /\ pinged c s).
Proof using All.
  apply await_ok. intros s0 a [[H0 [H1 H2 H3 H4 H5 H6 H7] Ho] [before Hb]]. split; [by split|].
  intros _. exists before, []. cbn [po_sent]. rewrite Hb, <- app_assoc. split; [done|apply not_elem_of_nil].
Qed.

Lemma checkout_loop_ok L n fuel : ensures (pool_ok L n) (checkout_loop new_session driver_keeps config fuel)
  (fun r s => match r with inl c => taken c L n s | inr _ => pool_ok L n s end).
Proof using All.
  induction fuel as [|fuel IH]; cbn [checkout_loop]; [by apply ensures_throw|].
  eapply ensures_bind; [apply (driver_acquire_ok L n)|]. intros c. cbn beta iota.
  intros s [Hheld Hsent]. rewrite get_then. destruct (expired _ _ _).
  - destruct Hheld as [Hnew Hok Hopen]. clear Hopen. revert s Hok Hsent.
    enough (He : ensures (pool_ok ({[c]} ∪ L) n)
      (_ ← drop_connection new_session driver_keeps c; _ ← await Checkpoint;
       checkout_loop new_session driver_keeps config fuel)
      (fun r s => match r with inl c => taken c L n s | inr _ => pool_ok L n s end)) by (intros s H1 _; by apply He).
    eapply ensures_bind with (R := fun _ => pool_ok L n).
    { eapply ensures_weaken; [by apply drop_connection_ok|done|]. by intros [u|x] s [[v [=]] Hs]. }
    intros _. eapply ensures_bind with (R := fun _ => pool_ok L n); [|by intros _].
    eapply ensures_weaken; [apply ok_await|done|]. by intros [a|x] s'.
  - destruct (pk_check_on_checkout config) eqn:Echeck.
    + revert s Hheld Hsent.
      enough (He : ensures (fun s => held c L n s /\ exists before, po_sent s = before ++ [DriverAcquire])
        (try_except (_ ← await (Ping c); mret c)
           (fun e => _ ← modify count_discard; _ ← drop_connection new_session driver_keeps c; throw e))
        (fun r s => match r with inl c => taken c L n s | inr _ => pool_ok L n s end)) by (intros s H1 H2; by apply He).
      apply ensures_except with (R := fun _ => held c L n).
      * eapply ensures_bind with (R := fun _ s => held c L n s /\ pinged c s); [|intros a; by apply ensures_ret].
        eapply ensures_weaken; [apply (ping_ok c L n)|done|]. intros [a|x] s' Hs'; [done|apply Hs'].
      * intros e. apply ensures_fix. intros s0 [H0 Hok Ho]. eapply ensures_weaken; [apply (drop_and_raise c L n e H0)|by intros s ->|].
        by intros r s (e' & -> & Hs).
    + cbn. split; [done|]. intros H. congruence.
Qed.

Lemma taken_scopes c L n s a b : taken c L n s -> taken c L n (set_scopes a b s).
Proof using Type. intros [H1 H2]. split; [by apply held_scopes|done]. Qed.

Lemma checkout_ok L n fuel : ensures (pool_ok L n) (checkout new_session driver_keeps config fuel)
  (fun r s => match r with inl c => taken c L n s | inr _ => pool_ok L n s end).
Proof using All.
  unfold checkout. apply ensures_except with (R := fun _ => pool_ok L n); [|intros e; by apply ensures_throw].
  apply ensures_fail_after.
  - intros s a b. apply ok_scopes.
  - intros [c|x] s a b; [apply taken_scopes|apply ok_scopes].
  - apply checkout_loop_ok.
Qed.

(** ** [_ensure_configured] *)

(** What a probe of the connection keeps. *)
Definition probing (c : positive) (L : gset positive) (n : nat) (s : pool_state_) : Prop :=
  taken c L n s /\ ph_configured (connection_of_ c s) = false.

Lemma probing_await c L n cmd : cmd <> DriverAcquire -> ensures (probing c L n) (await cmd) (fun _ => probing c L n).
Proof using All.
  intros Hcmd. apply await_ok. intros s a [[[H0 [H1 H2 H3 H4 H5 H6 H7] Ho] Hp] Hc]. split; [split; [by split|]|done].
  intros Hcheck. destruct (Hp Hcheck) as (before & after & Hsent & Hno). exists before, (after ++ [cmd]). cbn [po_sent].
  rewrite Hsent, <- app_assoc. split; [done|]. rewrite not_elem_of_app, list_elem_of_singleton. split; [done|congruence].
Qed.

Lemma probing_session c L n f s : probing c L n s -> probing c L n (update_connection new_session c (with_session f) s).
Proof using All.
  intros [[[H0 Hok Ho] Hp] Hc].
  assert (Hsame : connection_of_ c (update_connection new_session c (with_session f) s) = with_session f (connection_of_ c s)).
  { unfold connection_of at 1. cbn. by rewrite lookup_insert_eq. }
  split; [split; [split; [done| |by rewrite Hsame]|done]|by rewrite Hsame].
  destruct Hok as [H1 H2 H3 H4 H5 H6 H7]. split; cbn [update_connection set_connections po_leased po_slots po_free po_connections]; try done.
  - intros x Hx. unfold connection_of. cbn. rewrite lookup_insert_ne; [by apply H5|]. intros ->. apply (H4 x Hx). set_solver.
  - intros x Hx. destruct (decide (x = c)) as [->|Hne]; [by rewrite lookup_insert_eq|]. rewrite lookup_insert_ne by done. by apply H6.
  - intros x p Hx Hpc. destruct (decide (x = c)) as [->|Hne].
    + rewrite lookup_insert_eq in Hx. injection Hx as <-. cbn in Hpc. congruence.
    + rewrite lookup_insert_ne in Hx by done. by apply (H7 x).
Qed.

Lemma execute_keeps c L n sql : keeps (probing c L n) (probe_execute (settings_probe := settings_of run answer_of new_session c) sql).
Proof using All.
  cbn [probe_execute settings_of]. unfold with_cursor. apply keeps_bind; [by apply probing_await|]. intros _.
  apply keeps_finally; [|apply keeps_bind; [by apply probing_await|intros _; apply keeps_ret]].
  intros s Hs. unfold execute_on. pose proof (probing_await c L n (ExecuteOn c sql) ltac:(done) s Hs) as Ha.
  destruct (await _ s) as [[a|e] s']; cbn in *; [by apply probing_session|].
  destruct (default _ _); [by apply probing_session|done].
Qed.

Lemma fetch_keeps c L n sql : keeps (probing c L n) (probe_fetch (settings_probe := settings_of run answer_of new_session c) sql).
Proof using All.
  cbn [probe_fetch settings_of]. unfold with_cursor, query_on. apply keeps_bind; [by apply probing_await|]. intros _.
  apply keeps_finally; [|apply keeps_bind; [by apply probing_await|intros _; apply keeps_ret]].
  apply keeps_bind; [by apply probing_await|]. intros _. apply keeps_bind; [by apply probing_await|]. intros _.
  apply keeps_bind; [by intros s Hs|]. intros s. apply keeps_ret.
Qed.

(** The probe reaches the session of the connection. *)
Lemma await_connections (cmd : pool_command) (s : pool_state_) r s' : await cmd s = (r, s') -> po_connections s' = po_connections s.
Proof using Type.
  unfold await. destruct (an_fault _) as [[| |]|]; [| | |];
    try destruct (po_shielded s); try destruct (po_deadline s); cbn; intros [= _ <-]; done.
Qed.

Definition session_of (c : positive) (s : pool_state_) : session := ph_session (connection_of_ c s).

Lemma await_session c (cmd : pool_command) (s : pool_state_) r s' : await cmd s = (r, s') -> session_of c s' = session_of c s.
Proof using Type. intros H. unfold session_of, connection_of. by rewrite (await_connections _ _ _ _ H). Qed.

Lemma cursor_session {A} c (m : program A) s a s' : with_cursor c m s = (inl a, s') ->
  exists s0 s1, session_of c s0 = session_of c s /\ m s0 = (inl a, s1) /\ session_of c s' = session_of c s1.
Proof using All.
  intros H. unfold with_cursor in H. apply bind_cases in H as [(x & s0 & H0 & H)|(x & _ & [=])].
  apply finally_cases in H as (r & s1 & Hm & [[Hc <-]|(x1 & _ & [=])]).
  apply bind_cases in Hc as [(y & s2 & Hc & Hr)|(y & _ & [=])]. injection Hr as <-.
  exists s0, s1. split_and!; [by eapply await_session|done|by eapply await_session].
Qed.

Lemma pool_server c : settings_server run answer_of (P := settings_of run answer_of new_session c) pool_state_ pool_failure (session_of c).
Proof using All.
  split.
  - intros sql s s' H. apply cursor_session in H as (s0 & s1 & <- & H & ->). unfold execute_on in H.
    destruct (await _ s0) as [[a|e] s2] eqn:E; [|done]. injection H as <-. rewrite <- (await_session c _ _ _ _ E).
    unfold session_of at 1, connection_of. cbn. by rewrite lookup_insert_eq.
  - intros sql v s s' H. apply cursor_session in H as (s0 & s1 & <- & H & ->). unfold query_on in H.
    apply bind_cases in H as [(a & s2 & H1 & H)|(x & _ & [=])]. apply bind_cases in H as [(a' & s3 & H2 & H)|(x & _ & [=])].
    rewrite get_then in H. injection H as <- <-. change (ph_session (connection_of_ c s3)) with (session_of c s3).
    rewrite (await_session c _ _ _ _ H2), (await_session c _ _ _ _ H1). done.
Qed.

(** Statements of a session setting name one variable each. *)
Context (Hindependent : independent run answer_of MARIADB_SESSION_SETTINGS).

Lemma configured_in_effect c s s' : configure_mariadb_connection (P := settings_of run answer_of new_session c) s = (inl tt, s') ->
  session_configured (session_of c s').
Proof using All.
  intros H. unfold configure_mariadb_connection in H. apply bind_cases in H as [(u & s1 & _ & H)|(x & _ & [=])].
  intros st Hst. pose proof (pool_server c) as Hserver.
  apply (settings_applied run answer_of (P := settings_of run answer_of new_session c) (session_of c) MARIADB_SESSION_SETTINGS s1 s');
    [done| |done|done].
  apply (bool_decide_unpack _). vm_compute. exact I.
Qed.

(** A connection that may be handed out. *)
Definition usable (c : positive) (L : gset positive) (n : nat) (s : pool_state_) : Prop :=
  taken c L n s /\ ph_configured (connection_of_ c s) = true.

Lemma usable_configured c L n s : usable c L n s -> session_configured (session_of c s).
Proof using All.
  intros [[[_ Hok _] _] Hc]. unfold session_of, connection_of in *.
  destruct (po_connections s !! c) as [p|] eqn:E; [|done]. by apply (ok_configured _ _ _ Hok c p).
Qed.

Lemma mark_configured c L n s : probing c L n s -> session_configured (session_of c s) ->
  usable c L n (update_connection new_session c (fun p =>
    Physical (ph_session p) (ph_open p) true (ph_connected p) (ph_returned p)) s).
Proof using All.
  intros [[[H0 Hok Ho] Hp] Hc] Hs. set (f := fun p => _).
  assert (Hsame : connection_of_ c (update_connection new_session c f s) = f (connection_of_ c s)).
  { unfold connection_of at 1. cbn. by rewrite lookup_insert_eq. }
  split; [split; [split; [done| |by rewrite Hsame]|done]|by rewrite Hsame].
  destruct Hok as [H1 H2 H3 H4 H5 H6 H7]. split; cbn [update_connection set_connections po_leased po_slots po_free po_connections]; try done.
  - intros x Hx. unfold connection_of. cbn. rewrite lookup_insert_ne; [by apply H5|]. intros ->. apply (H4 x Hx). set_solver.
  - intros x Hx. destruct (decide (x = c)) as [->|Hne]; [by rewrite lookup_insert_eq|]. rewrite lookup_insert_ne by done. by apply H6.
  - intros x p Hx Hpc. destruct (decide (x = c)) as [->|Hne]; [rewrite lookup_insert_eq in Hx; by injection Hx as <-|].
    rewrite lookup_insert_ne in Hx by done. by apply (H7 x).
Qed.

Lemma ensure_configured_ok c L n : ensures (taken c L n) (ensure_configured run answer_of new_session driver_keeps c)
  (fun r s => match r with inl _ => usable c L n s | inr _ => pool_ok L n s end).
Proof using All.
  intros s Hs. unfold ensure_configured. rewrite get_then. destruct (ph_configured _) eqn:Ec; [by split|].
  assert (Hconf : ensures (probing c L n) (configure_mariadb_connection (P := settings_of run answer_of new_session c))
    (fun r s => probing c L n s /\ (r = inl tt -> session_configured (session_of c s)))).
  { intros s1 H1. pose proof (configure_keeps (Pr := settings_of run answer_of new_session c) (probing c L n)
      (execute_keeps c L n) (fetch_keeps c L n) s1 H1) as Hk.
    destruct (configure_mariadb_connection s1) as [r s2] eqn:E. split; [exact Hk|]. cbn. intros ->. by eapply configured_in_effect. }
  assert (Hall : ensures (probing c L n)
    (_ ← try_except (configure_mariadb_connection (P := settings_of run answer_of new_session c))
       (fun e => _ ← modify count_discard; _ ← drop_connection new_session driver_keeps c; throw e);
     modify (update_connection new_session c (fun p => Physical (ph_session p) (ph_open p) true (ph_connected p) (ph_returned p))))
    (fun r s => match r with inl _ => usable c L n s | inr _ => pool_ok L n s end)); [|by apply Hall].
  eapply ensures_bind with (R := fun _ s => probing c L n s /\ session_configured (session_of c s)).
  - apply ensures_except with (R := fun _ => probing c L n).
    + eapply ensures_weaken; [exact Hconf|done|]. intros [[]|x] s1 [H1 H2]; [split; [done|by apply H2]|done].
    + intros e. apply ensures_fix. intros s0 [[[H0 Hok Ho] Hp] Hc].
      eapply ensures_weaken; [apply (drop_and_raise c L n e H0)|by intros s1 ->|]. by intros r s1 (e' & -> & H1).
  - intros []. apply ensures_modify. intros s1 [H1 H2]. by apply mark_configured.
Qed.

(** ** The pool's own operations *)

Lemma ok_slots_change L n f s : pool_ok L n s -> pool_ok L (f n) (set_slots f s).
Proof using Type. intros [H1 H2 H3 H4 H5 H6 H7]. split; try done. cbn. by rewrite H2. Qed.

Lemma usable_scopes c L n s a b : usable c L n s -> usable c L n (set_scopes a b s).
Proof using Type. intros [H1 H2]. split; [by apply taken_scopes|done]. Qed.

Lemma release_slot {A} L n e : ensures (pool_ok L (S n)) (_ ← gate_release; (throw e : program A)) (fun r s => exists e', r = inr e' /\ pool_ok L n s).
Proof using Type.
  eapply ensures_bind with (R := fun _ => pool_ok L n).
  - apply ensures_modify. intros s Hs. by apply (ok_slots_change L (S n) pred).
  - intros _. apply ensures_throw. intros s Hs. by exists e.
Qed.

Lemma discard_ok c L n : c ∉ L -> ensures (pool_ok ({[c]} ∪ L) (S n)) (discard new_session driver_keeps c) (fun _ => pool_ok L n).
Proof using All.
  intros Hc. unfold discard. eapply ensures_bind with (R := fun _ => pool_ok ({[c]} ∪ L) (S n)).
  { apply ensures_modify. intros s. apply ok_count_discard. }
  intros _. eapply ensures_bind with (R := fun _ => pool_ok L n).
  - eapply ensures_weaken; [apply ensures_shielded with (P := pool_ok ({[c]} ∪ L) (S n)) (Q := fun r s => (exists u, r = inl u) /\ pool_ok L n s)|done|].
    + intros s a b. apply ok_scopes.
    + intros r s a b [H1 H2]. split; [done|by apply ok_scopes].
    + eapply ensures_bind with (R := fun _ => pool_ok L (S n)).
      * eapply ensures_weaken; [by apply drop_connection_ok|done|]. by intros [u|x] s [[v [=]] Hs].
      * intros _. apply ensures_modify. intros s Hs. split; [by eexists|]. by apply (ok_slots_change L (S n) pred).
    + by intros [u|x] s [[v [=]] Hs].
  - intros _. eapply ensures_bind with (R := fun _ => pool_ok L n); [|intros a; by apply ensures_ret].
    eapply ensures_weaken; [apply ok_await|done|]. by intros [a|x] s.
Qed.

Lemma release_ok c L n : c ∉ L -> ensures (pool_ok ({[c]} ∪ L) (S n)) (release new_session driver_keeps config c) (fun _ => pool_ok L n).
Proof using All.
  intros Hc. unfold release. eapply ensures_bind with (R := fun _ => pool_ok L n).
  - eapply ensures_weaken; [apply ensures_shielded with (P := pool_ok ({[c]} ∪ L) (S n)) (Q := fun r s => (exists u, r = inl u) /\ pool_ok L n s)|done|].
    + intros s a b. apply ok_scopes.
    + intros r s a b [H1 H2]. split; [done|by apply ok_scopes].
    + eapply ensures_bind with (R := fun _ => pool_ok ({[c]} ∪ L) (S n)).
      { apply ensures_modify. intros s Hs. case_bool_decide; [|done]. apply ok_update; [set_solver|done|]. done. }
      intros _. eapply ensures_bind with (R := fun _ => pool_ok L (S n)).
      * eapply ensures_weaken; [by apply driver_release_ok|done|]. by intros [u|x] s [[v [=]] Hs].
      * intros _. apply ensures_modify. intros s Hs. split; [by eexists|]. by apply (ok_slots_change L (S n) pred).
    + by intros [u|x] s [[v [=]] Hs].
  - intros _. eapply ensures_bind with (R := fun _ => pool_ok L n); [|intros a; by apply ensures_ret].
    eapply ensures_weaken; [apply ok_await|done|]. by intros [a|x] s.
Qed.

Lemma gate_admit_ok L n : ensures (pool_ok L n) (gate_admit (session:=session))
  (fun r s => match r with inl _ => pool_ok L (S n) s | inr _ => pool_ok L n s end).
Proof using All.
  unfold gate_admit. eapply ensures_bind with (R := fun _ => pool_ok L n).
  - apply ensures_except with (R := fun _ => pool_ok L n); [|intros e; by apply ensures_throw].
    assert (Hk : keeps (pool_ok L n) (_ ← fail_after (await (session:=session) GateAdmit); (mret tt : program unit))).
    { apply keeps_bind; [|intros a; apply keeps_ret].
      apply ensures_fail_after; [intros s a b; apply ok_scopes|intros r s a b; apply ok_scopes|apply ok_await]. }
    eapply ensures_weaken; [exact Hk|done|by intros [u|x] s Hs].
  - intros _. eapply ensures_bind with (R := fun _ => pool_ok L n).
    + intros s Hs. unfold check_accepting_work. rewrite get_then. by destruct (po_phase s).
    + intros _. apply ensures_modify. intros s Hs. by apply (ok_slots_change L n S).
Qed.

Lemma acquire_connection_ok L n fuel : ensures (pool_ok L (S n)) (acquire_connection run answer_of new_session driver_keeps config fuel)
  (fun r s => match r with inl c => usable c L (S n) s | inr _ => pool_ok L n s end).
Proof using All.
  unfold acquire_connection. eapply ensures_bind with (R := fun c => taken c L (S n)).
  - apply ensures_except with (R := fun _ => pool_ok L (S n)); [apply checkout_ok|].
    intros e. eapply ensures_weaken; [apply release_slot|done|]. by intros r s (e' & -> & Hs).
  - intros c. eapply ensures_bind with (R := fun _ => usable c L (S n)).
    + apply ensures_except with (R := fun _ => pool_ok L (S n)).
      * apply ensures_fail_after; [intros s a b; apply taken_scopes| |apply ensure_configured_ok].
        intros [u|x] s a b; [apply usable_scopes|apply ok_scopes].
      * intros e. eapply ensures_bind with (R := fun _ => pool_ok L n).
        -- apply ensures_modify. intros s Hs. by apply (ok_slots_change L (S n) pred).
        -- intros _. by apply ensures_throw.
    + intros _. eapply ensures_bind with (R := fun _ => usable c L (S n)); [|intros _; by apply ensures_ret].
      apply ensures_except with (R := fun _ s => c ∉ L /\ pool_ok ({[c]} ∪ L) (S n) s).
      * intros s Hs. unfold check_accepting_work. rewrite get_then. destruct (po_phase s); [done| |]; cbn; split; apply Hs.
      * intros e. apply ensures_fix. intros s0 [Hc Hok]. eapply ensures_bind with (R := fun _ => pool_ok L n).
        -- eapply ensures_weaken; [apply (discard_ok c L n Hc)|by intros s ->|]. by intros [u|x] s.
        -- intros _. by apply ensures_throw.
Qed.

Lemma acquire_ok L n fuel : ensures (pool_ok L n) (acquire run answer_of new_session driver_keeps config fuel)
  (fun r s => match r with inl c => usable c L (S n) s | inr _ => pool_ok L n s end).
Proof using All.
  unfold acquire. apply ensures_except with (R := fun _ => pool_ok L n).
  - eapply ensures_bind with (R := fun _ => pool_ok L (S n)); [apply gate_admit_ok|]. intros _. apply acquire_connection_ok.
  - intros e. eapply ensures_bind with (R := fun _ => pool_ok L n); [|intros _; by apply ensures_throw].
    apply ensures_modify. intros s [H1 H2 H3 H4 H5 H6 H7]. by split.
Qed.

(** ** The loop of [_checkout] ends *)

Definition ends {A} (m : program A) : Prop := forall s, fst (m s) <> inr PfRunning.

Lemma ends_ret {A} (a : A) : ends (mret a).
Proof using Type. done. Qed.
Lemma ends_throw {A} e : e <> PfRunning -> ends (throw e : program A).
Proof using Type. intros He s. cbn. congruence. Qed.
Lemma ends_bind {A B} (m : program A) (f : A -> program B) : ends m -> (forall a, ends (f a)) -> ends (m ≫= f).
Proof using Type.
  intros Hm Hf s. specialize (Hm s). unfold mbind, eff_bind. destruct (m s) as [[a|x] s']; [apply Hf|cbn in *; congruence].
Qed.
Lemma ends_except {A} (m : program A) h : (forall x, ends (h x)) -> ends (try_except m h).
Proof using Type. intros Hh s. unfold try_except. destruct (m s) as [[a|x] s']; [done|apply Hh]. Qed.
Lemma ends_except_other {A} (m : program A) h : ends m -> (forall x, x <> PfRunning -> ends (h x)) -> ends (try_except m h).
Proof using Type.
  intros Hm Hh s. specialize (Hm s). unfold try_except. destruct (m s) as [[a|x] s']; [done|]. apply Hh. cbn in Hm. congruence.
Qed.
Lemma ends_finally {A} (m : program A) f : ends m -> ends f -> ends (try_finally m f).
Proof using Type.
  intros Hm Hf s. specialize (Hm s). unfold try_finally. destruct (m s) as [r s1]. specialize (Hf s1).
  destruct (f s1) as [[u|x] s2]; cbn in *; congruence.
Qed.
Lemma ends_scope {A} (m : program A) : ends m -> ends (fail_after m) /\ ends (shielded m).
Proof using Type.
  intros Hm. split; intros s; unfold fail_after, shielded;
    [specialize (Hm (set_scopes (po_shielded s) true s))|specialize (Hm (set_scopes true (po_deadline s) s))];
    by destruct (m _).
Qed.
Lemma ends_await cmd : ends (await (session:=session) cmd).
Proof using Type.
  intros s. unfold await. destruct (an_fault _) as [[| |]|]; [done|by destruct (po_shielded s)|by destruct (_ && _)|done].
Qed.
Lemma ends_modify f : ends (modify f : program unit).
Proof using Type. done. Qed.
Lemma ends_get : ends (get : program pool_state_).
Proof using Type. done. Qed.

Lemma ends_drop c : ends (drop_connection new_session driver_keeps c).
Proof using Type.
  unfold drop_connection, driver_release. apply ends_bind; [apply ends_modify|]. intros _.
  apply ends_bind; [apply ends_get|]. intros s. cbv zeta. destruct (_ && _); [apply ends_modify|].
  apply ends_bind; [apply ends_modify|]. intros _. apply ends_modify.
Qed.
Lemma ends_drop_and_raise {A} c e : e <> PfRunning ->
  ends (_ ← modify count_discard; _ ← drop_connection new_session driver_keeps c; (throw e : program A)).
Proof using Type.
  intros He. apply ends_bind; [apply ends_modify|]. intros _. apply ends_bind; [apply ends_drop|]. intros _. by apply ends_throw.
Qed.
Lemma ends_or_timeout c m e : e <> PfRunning -> or_timeout c m e <> PfRunning.
Proof using Type. by destruct e. Qed.

Lemma ends_configure c : ends (configure_mariadb_connection (P := settings_of run answer_of new_session c)).
Proof using Type.
  assert (Hcursor : forall A (m : program A), ends m -> ends (with_cursor c m)).
  { intros A m Hm. unfold with_cursor. apply ends_bind; [apply ends_await|]. intros _.
    apply ends_finally; [done|]. apply ends_bind; [apply ends_await|]. intros _. apply ends_ret. }
  assert (He : forall sql, ends (probe_execute (settings_probe := settings_of run answer_of new_session c) sql)).
  { intros sql. apply Hcursor. intros s. unfold execute_on. pose proof (ends_await (ExecuteOn c sql) s) as Ha.
    destruct (await _ s) as [[a|x] s']; cbn in *; congruence. }
  assert (Hf : forall sql, ends (probe_fetch (settings_probe := settings_of run answer_of new_session c) sql)).
  { intros sql. apply Hcursor. unfold query_on. repeat (apply ends_bind; [apply ends_await|intros _]).
    apply ends_bind; [apply ends_get|]. intros s. apply ends_ret. }
  assert (Hr : forall b e, ends (Effects.require b (PfPython e) : program unit)) by (intros [] e; done).
  unfold configure_mariadb_connection, verify_mariadb_version.
  apply ends_bind; [apply ends_bind; [apply Hf|intros v; apply Hr]|]. intros _.
  clear Hindependent. induction MARIADB_SESSION_SETTINGS as [|st l IH]; cbn [apply_connection_settings]; [apply ends_ret|].
  apply ends_bind; [|intros _; exact IH]. unfold apply_setting. apply ends_bind; [|intros _; apply ends_bind; [apply Hf|intros v; apply Hr]].
  induction (cs_apply st); cbn [execute_all]; [apply ends_ret|apply ends_bind; [apply He|done]].
Qed.

Lemma ends_ensure_configured c : ends (ensure_configured run answer_of new_session driver_keeps c).
Proof using Type.
  unfold ensure_configured. apply ends_bind; [apply ends_get|]. intros s. destruct (ph_configured _); [apply ends_ret|].
  apply ends_bind; [|intros _; apply ends_modify].
  apply ends_except_other; [apply ends_configure|]. intros e He. by apply ends_drop_and_raise.
Qed.

Lemma ends_discard c : ends (discard new_session driver_keeps c).
Proof using Type.
  unfold discard. apply ends_bind; [apply ends_modify|]. intros _. apply ends_bind.
  - apply ends_scope. apply ends_bind; [apply ends_drop|]. intros _. apply ends_modify.
  - intros _. apply ends_bind; [apply ends_await|]. intros _. apply ends_ret.
Qed.

Lemma ends_accepting : ends (check_accepting_work (session:=session)).
Proof using Type. unfold check_accepting_work. apply ends_bind; [apply ends_get|]. intros s. by destruct (po_phase s). Qed.

(** Awaits still to be disturbed, and connections that may have expired. *)
Definition rounds (s : pool_state_) : nat := length (po_script s) + length (po_free s).

Lemma await_rounds (cmd : pool_command) (s : pool_state_) r s' : await cmd s = (r, s') ->
  rounds s' <= rounds s /\ po_free s' = po_free s /\ po_script s' = tail (po_script s).
Proof using Type.
  unfold await, rounds. destruct (an_fault _) as [[| |]|]; [|destruct (po_shielded s)|destruct (_ && _)|];
    intros [= _ <-]; cbn; (split_and!; [destruct (po_script s); cbn; lia|done..]).
Qed.

Lemma drop_rounds c s r s' : drop_connection new_session driver_keeps c s = (r, s') -> rounds s' = rounds s.
Proof using Type.
  unfold drop_connection, close_connection. rewrite modify_then. unfold driver_release. rewrite get_then.
  assert (Hclosed : forall f, ph_open (connection_of_ c (update_connection new_session c f s)) = ph_open (f (connection_of_ c s))).
  { intros f. unfold connection_of at 1. cbn. by rewrite lookup_insert_eq. }
  cbv zeta. rewrite Hclosed. cbn [closed ph_open andb]. unfold close_connection. rewrite modify_then. by intros [= _ <-].
Qed.

(** Lifetimes and idle limits are positive. *)
Context (Hlimits : forall limit, pk_max_lifetime config = Some limit \/ pk_max_idle config = Some limit -> (0 < limit)%Z).

Lemma driver_acquire_rounds s c s' : driver_acquire new_session s = (inl c, s') ->
  rounds s' < rounds s \/ rounds s' = 0 /\ expired config (po_now s') (connection_of_ c s') = false.
Proof using All.
  unfold driver_acquire. intros H. apply bind_cases in H as [(a & s1 & Ha & H)|(x & _ & [=])]. rewrite get_then in H.
  destruct (await_rounds _ _ _ _ Ha) as (Hle & Hfree & Hscript).
  assert (Hgrant : po_script s = [] -> an_grant a = Reuse (hd 1%positive (po_free s))).
  { intros E. unfold await in Ha. rewrite E in Ha. cbn in Ha. by injection Ha as <- _. }
  destruct (match an_grant a with Reuse _ => _ | Fresh => None end) as [c'|] eqn:E.
  - rewrite modify_then in H. injection H as <- <-. left. unfold rounds in *. cbn [set_lists po_script po_free].
    assert (Hc : c' ∈ po_free s1).
    { destruct (an_grant a); [|done]. case_bool_decide; [|done]. by injection E as <-. }
    assert (Hlt : length (filter (fun x => x <> c') (po_free s1)) < length (po_free s1)).
    { clear -Hc. induction (po_free s1) as [|x l IH]; [by apply elem_of_nil in Hc|]. rewrite filter_cons.
      destruct (decide (x <> c')) as [Hne|Heq]; cbn [length].
      - apply elem_of_cons in Hc as [->|Hc]; [done|]. specialize (IH Hc). lia.
      - pose proof (length_filter (fun y => y <> c') l). lia. }
    rewrite Hfree in *. lia.
  - rewrite !modify_then in H. injection H as <- <-. destruct (po_script s) as [|a0 script] eqn:Es.
    + right. rewrite (Hgrant eq_refl) in E. assert (Hnil : po_free s = []).
      { destruct (po_free s) as [|x l] eqn:Ef; [done|]. rewrite Hfree in E. cbn in E. rewrite bool_decide_eq_true_2 in E by left. done. }
      split; [unfold rounds; cbn [set_lists set_connections po_script po_free]; by rewrite Hscript, Hfree, Hnil|].
      unfold connection_of. cbn. rewrite lookup_insert_eq. cbn. unfold expired. cbn [ph_connected ph_returned].
      rewrite Z.sub_diag. assert (Hlife : match pk_max_lifetime config with Some limit => (limit <=? 0)%Z | None => false end = false).
      { destruct (pk_max_lifetime config) as [limit|] eqn:El; [|done]. apply Z.leb_gt, Hlimits. by left. }
      rewrite Hlife. by destruct (pk_max_idle config).
    + left. unfold rounds in *. cbn [set_lists set_connections po_script po_free]. rewrite Hscript, Hfree, Es. cbn. lia.
Qed.

Lemma checkout_loop_ends fuel s : rounds s < fuel -> fst (checkout_loop new_session driver_keeps config fuel s) <> inr PfRunning.
Proof using All.
  revert s. induction fuel as [|fuel IH]; intros s Hs; [lia|]. cbn [checkout_loop].
  unfold mbind at 1, eff_bind at 1. destruct (driver_acquire new_session s) as [[c|x] s1] eqn:Ea.
  - apply driver_acquire_rounds in Ea. rewrite get_then. destruct (expired _ _ _) eqn:Ex.
    + unfold mbind at 1, eff_bind at 1. destruct (drop_connection _ _ _ _) as [[u|x] s2] eqn:Ed.
      * apply drop_rounds in Ed. unfold mbind at 1, eff_bind at 1. pose proof (ends_await Checkpoint s2) as Hend.
        destruct (await Checkpoint s2) as [[a|x] s3] eqn:Ec; [|cbn in *; congruence].
        apply await_rounds in Ec as (Hc & _ & _). apply IH. destruct Ea as [Ea|[_ Ea]]; [lia|congruence].
      * pose proof (ends_drop c s1) as Hend. rewrite Ed in Hend. cbn in *. congruence.
    + destruct (pk_check_on_checkout config); [|done].
      apply ends_except_other; [apply ends_bind; [apply ends_await|intros a; apply ends_ret]|].
      intros e He. by apply ends_drop_and_raise.
  - assert (Hends : ends (driver_acquire new_session)).
    { unfold driver_acquire. apply ends_bind; [apply ends_await|]. intros a. apply ends_bind; [apply ends_get|]. intros s2.
      destruct (match an_grant a with Reuse _ => _ | Fresh => None end); repeat (apply ends_bind; [apply ends_modify|intros _]); apply ends_ret. }
    specialize (Hends s). rewrite Ea in Hends. cbn in *. congruence.
Qed.

Lemma ends_acquire_rest c : ends (
  _ ← try_except (fail_after (ensure_configured run answer_of new_session driver_keeps c))
        (fun e => _ ← gate_release; throw (or_timeout PoolTimeoutError "timed out acquiring database connection" e));
  _ ← try_except check_accepting_work (fun e => _ ← discard new_session driver_keeps c; throw e);
  mret c).
Proof using Type.
  apply ends_bind.
  - apply ends_except_other; [apply ends_scope, ends_ensure_configured|]. intros e He.
    apply ends_bind; [apply ends_modify|]. intros _. by apply ends_throw, ends_or_timeout.
  - intros _. apply ends_bind; [|intros _; apply ends_ret].
    apply ends_except_other; [apply ends_accepting|]. intros e He. apply ends_bind; [apply ends_discard|].
    intros _. by apply ends_throw.
Qed.

Lemma acquire_connection_ends fuel s : rounds s < fuel ->
  fst (acquire_connection run answer_of new_session driver_keeps config fuel s) <> inr PfRunning.
Proof using All.
  intros Hs. unfold acquire_connection.
  assert (Hc : fst (checkout new_session driver_keeps config fuel s) <> inr PfRunning).
  { unfold checkout, try_except, fail_after.
    pose proof (checkout_loop_ends fuel (set_scopes (po_shielded s) true s) Hs) as Hend.
    destruct (checkout_loop _ _ _ _ _) as [[c|x] s1]; [done|]. cbn in *. intros [= E]. by destruct x. }
  unfold mbind at 1, eff_bind at 1, try_except at 1.
  destruct (checkout new_session driver_keeps config fuel s) as [[c|x] s1]; [apply ends_acquire_rest|].
  change ((inr x : positive + pool_failure) <> inr PfRunning). cbn in Hc. congruence.
Qed.

Lemma acquire_ends fuel s : rounds s < fuel -> fst (acquire run answer_of new_session driver_keeps config fuel s) <> inr PfRunning.
Proof using All.
  intros Hs. unfold acquire. unfold try_except at 1.
  assert (Hbody : fst ((_ ← gate_admit; acquire_connection run answer_of new_session driver_keeps config fuel) s) <> inr PfRunning).
  { unfold mbind, eff_bind. destruct (gate_admit (session:=session) s) as [[u|x] s1] eqn:Eg.
    - apply acquire_connection_ends. apply (Nat.le_lt_trans _ (rounds s)); [|done]. unfold gate_admit in Eg.
      apply bind_cases in Eg as [(u1 & s2 & H1 & H)|(y & _ & [=])]. apply except_cases in H1 as [(u2 & H1 & _)|(y & s3 & _ & [=])].
      apply bind_cases in H1 as [(a & s3 & H1 & H2)|(y & _ & [=])]. injection H2 as _ <-.
      unfold fail_after in H1. destruct (await GateAdmit _) as [r s4] eqn:Ea. injection H1 as _ <-.
      apply await_rounds in Ea as (Hle & _ & _).
      apply bind_cases in H as [([] & s5 & H1 & H)|(y & _ & [=])]. injection H as _ <-.
      unfold check_accepting_work in H1. rewrite get_then in H1. destruct (po_phase _); try done. injection H1 as <-. exact Hle.
    - assert (Hg : ends (gate_admit (session:=session))).
      { unfold gate_admit. apply ends_bind.
        - apply ends_except_other; [apply ends_bind; [apply ends_scope, ends_await|intros a; apply ends_ret]|].
          intros e He. by apply ends_throw, ends_or_timeout.
        - intros _. apply ends_bind; [apply ends_accepting|]. intros _. apply ends_modify. }
      specialize (Hg s). rewrite Eg in Hg. cbn in *. congruence. }
  revert Hbody. generalize ((_ ← gate_admit; acquire_connection run answer_of new_session driver_keeps config fuel) s).
  intros [[c|x] s1] Hbody; [done|]. change ((inr x : positive + pool_failure) <> inr PfRunning). exact Hbody.
Qed.
End facts.
