(* ===== verification/MariadbPoolProps.v ===== *)
(** * The MariaDB pool, in any order of calls

    What holds of the pool after any sequence of acquisitions, releases, discards, uses
    and closings, each with any script, and of every acquisition made from there; with a
    small server for the witness. *)

From S2P Require Import SchemaShape.
From S2P Require Export MariadbPoolFacts.

Lemma size_add (c : positive) (L : gset positive) : c ∉ L -> size ({[c]} ∪ L) = S (size L).
Proof. intros Hc. rewrite size_union by set_solver. by rewrite size_singleton. Qed.

Section pool_runs.
Context {session : Type} (run : utext -> session -> session) (answer_of : utext -> session -> cell)
  (new_session : session) (driver_keeps : session -> pool_phase -> bool) (config : pool_config).
Abbreviation pool_state_ := (pool_state (session:=session)).
Abbreviation configured_ := (session_configured answer_of).

(** What other tasks and the driver will answer from now on. *)
Definition with_script (script : list answer) (s : pool_state_) : pool_state_ :=
  PoolState (po_connections s) (po_free s) (po_leased s) (po_slots s) (po_discarded s) (po_failures s)
    (po_cancellations s) (po_phase s) (po_now s) (po_shielded s) (po_deadline s) (po_sent s) script.

(** The pool at the start, and one call or one use of a leased connection after the
    other.  A use may change the session in any way that leaves the required settings. *)
Inductive pool_run : pool_state_ -> Prop :=
  | pool_start now script : pool_run (PoolState ∅ [] ∅ 0 0 0 0 PoolOpen now false false [] script)
  | pool_acquires s script fuel r s' : pool_run s ->
      acquire run answer_of new_session driver_keeps config fuel (with_script script s) = (r, s') -> pool_run s'
  | pool_releases s script c r s' : pool_run s -> c ∈ po_leased s ->
      release new_session driver_keeps config c (with_script script s) = (r, s') -> pool_run s'
  | pool_discards s script c r s' : pool_run s -> c ∈ po_leased s ->
      discard new_session driver_keeps c (with_script script s) = (r, s') -> pool_run s'
  | pool_uses s c f : pool_run s -> c ∈ po_leased s -> (forall x, configured_ x -> configured_ (f x)) ->
      pool_run (update_connection new_session c (with_session f) s)
  | pool_closes s script r s' : pool_run s ->
      close_pool new_session (with_script script s) = (r, s') -> pool_run s'.

Context (Hindependent : independent run answer_of MARIADB_SESSION_SETTINGS).

Definition accounted (s : pool_state_) : Prop := pool_ok answer_of new_session (po_leased s) (size (po_leased s)) s.

Lemma ok_script L n script s : pool_ok answer_of new_session L n s -> pool_ok answer_of new_session L n (with_script script s).
Proof using Type. intros [H1 H2 H3 H4 H5 H6 H7]. by split. Qed.

Lemma accounted_of L n s : pool_ok answer_of new_session L n s -> n = size L -> accounted s.
Proof using Type. intros Hok ->. unfold accounted. by rewrite (ok_leased _ _ _ _ _ Hok). Qed.

(** Closing drops the free connections. *)
Lemma close_free_ok L n l s : pool_ok answer_of new_session L n s ->
  pool_ok answer_of new_session L n (set_lists [] (po_leased s)
    (foldr (fun c => update_connection new_session c closed) s l)).
Proof using Type.
  intros [H1 H2 H3 H4 H5 H6 H7]. set (close := fun c => update_connection new_session c closed).
  assert (Hfold : po_leased (foldr close s l) = po_leased s /\ po_slots (foldr close s l) = po_slots s /\
    (forall c, c ∈ L -> is_Some (po_connections (foldr close s l) !! c)) /\
    (forall c p, po_connections (foldr close s l) !! c = Some p -> ph_configured p = true -> configured_ (ph_session p))).
  { induction l as [|x l (I1 & I2 & I3 & I4)]; cbn [foldr]; [split_and!; [done..|intros c Hc; apply H6; by right|done]|].
    unfold close at 1 3 5 7, update_connection. cbn [set_connections po_leased po_slots po_connections]. split_and!; [done|done| |].
    - intros c Hc. destruct (decide (c = x)) as [->|Hne]; [by rewrite lookup_insert_eq|]. rewrite lookup_insert_ne by done. by apply I3.
    - intros c p Hp Hconf. destruct (decide (c = x)) as [->|Hne]; [|rewrite lookup_insert_ne in Hp by done; by apply (I4 c)].
      rewrite lookup_insert_eq in Hp. injection Hp as <-. cbn in *. unfold connection_of in *.
      destruct (po_connections (foldr close s l) !! x) as [q|] eqn:Eq; [by apply (I4 x)|done]. }
  destruct Hfold as (I1 & I2 & I3 & I4).
  split; cbn [set_lists po_leased po_slots po_free po_connections]; [done|by rewrite I2|constructor|..|done].
  - intros c Hc. by destruct (not_elem_of_nil _ Hc).
  - intros c Hc. by destruct (not_elem_of_nil _ Hc).
  - intros c [Hc|Hc]; [by destruct (not_elem_of_nil _ Hc)|by apply I3].
Qed.

Lemma close_pool_ok L n : ensures (pool_ok answer_of new_session L n) (close_pool new_session)
  (fun _ => pool_ok answer_of new_session L n).
Proof using All.
  assert (Hsteps : keeps (pool_ok answer_of new_session L n) (close_steps new_session)).
  { unfold close_steps. apply keeps_bind; [intros s1 [H1 H2 H3 H4 H5 H6 H7]; by split|intros _]. apply keeps_bind.
    - apply ensures_except with (R := fun _ => pool_ok answer_of new_session L n); [|intros e; by apply ensures_throw].
      assert (Hw : keeps (pool_ok answer_of new_session L n)
        (fail_after (_ ← await (session:=session) WaitIdle; _ ← await WaitClosed; mret tt))).
      { apply ensures_fail_after; [intros s1 a b; apply ok_scopes|intros r s1 a b; apply ok_scopes|].
        apply keeps_bind; [apply ok_await|intros _]. apply keeps_bind; [apply ok_await|intros _; apply keeps_ret]. }
      eapply ensures_weaken; [exact Hw|done|by intros [u|x] s1 H1].
    - intros _. apply keeps_bind; [intros s1 H1; by apply close_free_ok|]. intros _ s1 [H1 H2 H3 H4 H5 H6 H7]. by split. }
  intros s Hs. unfold close_pool. rewrite get_then. destruct (po_phase s); [by apply Hsteps..|done].
Qed.

(** Every reachable pool accounts for its slots and connections. *)
Lemma pool_run_accounted s : pool_run s -> accounted s.
Proof using All.
  assert (Hleased : forall s c, accounted s -> c ∈ po_leased s -> exists L, c ∉ L /\ po_leased s = {[c]} ∪ L /\
    forall script, pool_ok answer_of new_session ({[c]} ∪ L) (S (size L)) (with_script script s)).
  { intros s0 c Hs Hc. exists (po_leased s0 ∖ {[c]}). assert (Hu : po_leased s0 = {[c]} ∪ po_leased s0 ∖ {[c]}).
    { apply set_eq. intros x. rewrite elem_of_union, elem_of_difference, elem_of_singleton.
      destruct (decide (x = c)) as [->|]; tauto. }
    split_and!; [set_solver|done|]. intros script. apply ok_script. unfold accounted in Hs.
    rewrite <- (size_add c) by set_solver. by rewrite <- Hu. }
  induction 1 as [now script|s script fuel r s' _ IH H|s script c r s' _ IH Hc H|s script c r s' _ IH Hc H|s c f _ IH Hc Hf|s script r s' _ IH H].
  - split; cbn; [done|by rewrite size_empty|constructor|intros c Hc; by destruct (not_elem_of_nil _ Hc)|
      intros c Hc; by destruct (not_elem_of_nil _ Hc)| |intros c p Hc; by rewrite lookup_empty in Hc].
    intros c Hc. exfalso. revert Hc. clear. set_solver.
  - pose proof (acquire_ok run answer_of new_session driver_keeps config Hindependent (po_leased s) (size (po_leased s)) fuel
      (with_script script s) (ok_script _ _ script s IH)) as Hk. rewrite H in Hk. destruct r as [c|e]; cbn in Hk.
    + destruct Hk as [[[Hnew Hok _] _] _]. apply (accounted_of _ _ _ Hok). by rewrite size_add.
    + by apply (accounted_of _ _ _ Hk).
  - destruct (Hleased s c IH Hc) as (L & Hn & _ & Hok).
    pose proof (release_ok run answer_of new_session driver_keeps config Hindependent c L (size L) Hn _ (Hok script)) as Hk.
    rewrite H in Hk. by apply (accounted_of _ _ _ Hk).
  - destruct (Hleased s c IH Hc) as (L & Hn & _ & Hok).
    pose proof (discard_ok run answer_of new_session driver_keeps config Hindependent c L (size L) Hn _ (Hok script)) as Hk.
    rewrite H in Hk. by apply (accounted_of _ _ _ Hk).
  - unfold accounted in *. cbn [update_connection set_connections po_leased]. destruct IH as [H1 H2 H3 H4 H5 H6 H7].
    split; cbn [update_connection set_connections po_leased po_slots po_free po_connections]; try done.
    + intros x Hx. unfold connection_of. cbn. rewrite lookup_insert_ne; [by apply H5|]. intros ->. by apply (H4 x).
    + intros x Hx. destruct (decide (x = c)) as [->|Hne]; [by rewrite lookup_insert_eq|]. rewrite lookup_insert_ne by done. by apply H6.
    + intros x p Hx Hp. destruct (decide (x = c)) as [->|Hne]; [|rewrite lookup_insert_ne in Hx by done; by apply (H7 x)].
      rewrite lookup_insert_eq in Hx. injection Hx as <-. cbn in *. unfold connection_of in *.
      destruct (po_connections s !! c) as [q|] eqn:Eq; [apply Hf; by apply (H7 c)|done].
  - pose proof (close_pool_ok (po_leased s) (size (po_leased s)) _ (ok_script _ _ script s IH)) as Hk. rewrite H in Hk.
    by apply (accounted_of _ _ _ Hk).
Qed.

(** C19: an acquisition hands out a configured connection or leaves the pool as it was.
    For a pool whose lifetime and idle limits, if set, are positive, after any history of
    calls and for any script of failures, cancellations, passed
    deadlines, delays and concurrent closings: with enough fuel the loop of checkouts
    ends; when acquire returns, it takes exactly one slot of the gate and leases one
    connection that was not leased, is open, answers every required session setting as
    the package demands, and, if the pool checks connections on checkout (the default
    health check, passive, does not), was pinged after the driver granted it; when it raises, no slot and no connection stays taken. *)
Theorem mariadb_acquire_safe s script fuel r s'
  (Hlimits : forall limit, pk_max_lifetime config = Some limit \/ pk_max_idle config = Some limit -> (0 < limit)%Z)
  (Hrun : pool_run s) (Hfuel : length script + length (po_free s) < fuel)
  (Hacquire : acquire run answer_of new_session driver_keeps config fuel (with_script script s) = (r, s')) :
  r <> inr PfRunning /\ po_slots s' = size (po_leased s') /\ NoDup (po_free s') /\
  (forall c, c ∈ po_free s' -> c ∉ po_leased s' /\ ph_open (connection_of new_session c s') = true) /\
  match r with
  | inl c => c ∉ po_leased s /\ po_leased s' = {[c]} ∪ po_leased s /\ po_slots s' = S (po_slots s) /\
      ph_open (connection_of new_session c s') = true /\
      (forall st, st ∈ MARIADB_SESSION_SETTINGS -> in_effect answer_of st (ph_session (connection_of new_session c s'))) /\
      (pk_check_on_checkout config = true -> exists before after,
         po_sent s' = before ++ DriverAcquire :: Ping c :: after /\ DriverAcquire ∉ after)
  | inr _ => po_leased s' = po_leased s /\ po_slots s' = po_slots s
  end.
Proof using All.
  pose proof (pool_run_accounted s Hrun) as Hs.
  pose proof (pool_run_accounted s' (pool_acquires s script fuel r s' Hrun Hacquire)) as Hs'.
  pose proof (acquire_ok run answer_of new_session driver_keeps config Hindependent (po_leased s) (size (po_leased s)) fuel
    (with_script script s) (ok_script _ _ script s Hs)) as Hk.
  pose proof (acquire_ends run answer_of new_session driver_keeps config Hindependent Hlimits fuel (with_script script s) Hfuel) as Hend.
  rewrite Hacquire in Hk, Hend. cbn [fst snd] in Hk, Hend. destruct Hs' as [S1 S2 S3 S4 S5 S6 S7].
  split_and!; [done|done|done|by intros c Hc; split; [apply S4|apply S5]|]. pose proof (ok_slots _ _ _ _ _ Hs) as Hslots.
  destruct r as [c|e].
  - pose proof (usable_configured run answer_of new_session driver_keeps config Hindependent c _ _ _ Hk) as Hconf. destruct Hk as [[[Hnew Hok Hopen] Hping] _].
    split_and!; [done|apply (ok_leased _ _ _ _ _ Hok)|by rewrite (ok_slots _ _ _ _ _ Hok), Hslots|done|exact Hconf|exact Hping].
  - split; [apply (ok_leased _ _ _ _ _ Hk)|by rewrite (ok_slots _ _ _ _ _ Hk), Hslots].
Qed.
End pool_runs.

(** ** A server *)

(** A session keeps the answers to probes; a statement of a setting gives its probe
    the required value. *)
Definition toy_session : Type := list (utext * cell).
Definition required_value (st : connection_setting) : cell :=
  match cs_requirement st with
  | Expected v => v
  | Satisfying _ => if bool_decide (cs_apply st = []) then CInt 16384 else CText DESIRED_SQL_MODE
  end.
Definition toy_run (sql : utext) (s : toy_session) : toy_session :=
  foldr (fun st s => if bool_decide (cs_apply st = [sql]) then dict_set (cs_probe st) (required_value st) s else s) s
    MARIADB_SESSION_SETTINGS.
Definition toy_answer (sql : utext) (s : toy_session) : cell :=
  if bool_decide (sql = version_query) then CText (u "10.11.6-MariaDB-log")
  else if bool_decide (sql = u "SELECT @@innodb_page_size") then CInt 16384
  else default CNull (dict_get sql s).

Lemma dict_get_set_other {V} (k k' : utext) (v : V) d : k <> k' -> dict_get k (dict_set k' v d) = dict_get k d.
Proof.
  intros Hne. induction d as [|[k0 v0] d IH]; cbn.
  - by rewrite decide_False by congruence.
  - destruct (decide (k0 = k')) as [->|]; cbn; [by rewrite !decide_False by congruence|]. destruct (decide (k0 = k)); [done|exact IH].
Qed.

Lemma toy_independent : independent toy_run toy_answer MARIADB_SESSION_SETTINGS.
Proof.
  intros st st' s Hst Hst' Hne. unfold toy_answer. destruct (bool_decide _); [done|]. destruct (bool_decide _); [done|]. f_equal.
  assert (Hrun : run_all toy_run (cs_apply st') s = s \/
    run_all toy_run (cs_apply st') s = dict_set (cs_probe st') (required_value st') s).
  { unfold MARIADB_SESSION_SETTINGS in Hst'.
    repeat (apply elem_of_cons in Hst' as [->|Hst']; [vm_compute; auto|]). by apply elem_of_nil in Hst'. }
  destruct Hrun as [-> | ->]; [done|]. by apply dict_get_set_other.
Qed.

Definition toy_config : pool_config := PoolConfig true (Some 600%Z) (Some 3600%Z).
Definition toy_start : pool_state (session:=toy_session) := PoolState ∅ [] ∅ 0 0 0 0 PoolOpen 0 false false [] [].
(** The first await is answered, the ping is not. *)
Definition lost_ping : list answer :=
  [Answer None true 1 PoolOpen Fresh; Answer None true 1 PoolOpen Fresh; Answer (Some DriverFault) false 1 PoolOpen Fresh].

Lemma mariadb_acquire_safe_witness :
  let run s := acquire toy_run toy_answer [] (fun _ p => bool_decide (p = PoolOpen)) toy_config 5 s in
  (exists c s', run (with_script [] toy_start) = (inl c, s') /\ po_slots s' = 1 /\
     forall st, st ∈ MARIADB_SESSION_SETTINGS -> in_effect toy_answer st (ph_session (connection_of [] c s'))) /\
  (exists s', run (with_script lost_ping toy_start) = (inr PfDriver, s') /\ po_leased s' = ∅ /\ po_slots s' = 0).
Proof.
  split.
  - destruct (acquire toy_run toy_answer [] (fun _ p => bool_decide (p = PoolOpen)) toy_config 5 (with_script [] toy_start)) as [r s'] eqn:E.
    pose proof (mariadb_acquire_safe toy_run toy_answer [] (fun _ p => bool_decide (p = PoolOpen)) toy_config toy_independent toy_start [] 5 r s'
      ltac:(intros limit [[= <-]|[= <-]]; lia) (pool_start _ _ _ _ _ 0 []) ltac:(cbn; lia) E) as (_ & _ & _ & _ & H).
    vm_compute in E. injection E as <- <-. destruct H as (_ & _ & Hslots & _ & Hconf & _).
    do 2 eexists. split; [vm_compute; reflexivity|]. split; [exact Hslots|exact Hconf].
  - destruct (acquire toy_run toy_answer [] (fun _ p => bool_decide (p = PoolOpen)) toy_config 5 (with_script lost_ping toy_start)) as [r s'] eqn:E.
    pose proof (mariadb_acquire_safe toy_run toy_answer [] (fun _ p => bool_decide (p = PoolOpen)) toy_config toy_independent toy_start lost_ping 5 r s'
      ltac:(intros limit [[= <-]|[= <-]]; lia) (pool_start _ _ _ _ _ 0 []) ltac:(cbn; lia) E) as (_ & _ & _ & _ & H).
    vm_compute in E. injection E as <- <-. destruct H as [Hl Hn]. eexists. split; [vm_compute; reflexivity|]. split; [exact Hl|exact Hn].
Defined.
