(* ===== verification/MariadbSchema.v ===== *)
(** * The MariaDB schema backend

    [mariadb/schema.py] without its queries: column types and definitions, the
    shapes a model expects, and how rows of INFORMATION_SCHEMA become shapes. *)

From S2P Require Export SchemaRows.

(** [str.lower] of a text. *)
Class lowercase := { lower_text : utext -> utext }.

Definition SQL_NULL : utext := u "NULL".
Definition TEXT_COLLATION : utext := u "utf8mb4_bin".

(** An integer attribute in an f-string. *)
Definition str_length (n : option Z) : utext := match n with Some n => str_Z n | None => u "None" end.

(** ** Types of columns *)

Definition format_decimal_type (c : column) : res utext :=
  match co_decimal_precision c, co_decimal_scale c with
  | Some p, Some s => Ok (u "DECIMAL(" ++ str_Z p ++ u "," ++ str_Z s ++ u ")")
  | _, _ => raise SchemaError "Decimal column is missing precision metadata"
  end.

Definition column_max_length (c : column) : option Z :=
  if String.eqb (co_storage_type_name c) "Text"
  then Some match co_text_length c with Some n => n | None => 255%Z end
  else None.

Definition is_text (c : column) : bool := existsb (String.eqb (co_storage_type_name c)) ["Text"; "LongText"]%string.

(** [column.text_collation or TEXT_COLLATION] of text. *)
Definition column_collation (c : column) : option utext :=
  if is_text c then Some match co_text_collation c with Some (x :: n) => x :: n | _ => TEXT_COLLATION end else None.

Definition text_type (type_text : utext) (c : column) : utext :=
  type_text ++ u " CHARACTER SET utf8mb4 COLLATE " ++ default (u "None") (column_collation c).

(** The dict [column_types]. *)
Definition column_types (c : column) : list (string * utext) :=
  [("Blob"%string, u "BLOB"); ("Boolean"%string, u "BOOLEAN"); ("Date"%string, u "DATE");
   ("DateTime"%string, u "DATETIME(" ++ str_length (co_datetime_precision c) ++ u ")");
   ("Integer"%string, u "BIGINT"); ("Json"%string, u "JSON"); ("LongText"%string, text_type (u "LONGTEXT") c); ("Real"%string, u "DOUBLE");
   ("Text"%string, text_type (u "VARCHAR(" ++ str_length (column_max_length c) ++ u ")") c); ("Uuid"%string, u "UUID")].

Definition compile_column_type (c : column) : res utext :=
  if String.eqb (co_storage_type_name c) "Decimal" then format_decimal_type c
  else match dict_get (co_storage_type_name c) (column_types c) with
       | Some t => Ok t
       | None => raise SchemaError "unsupported MariaDB column type"
       end.

(** The dict [data_types]. *)
Definition data_types : list (string * utext) :=
  [("Blob"%string, u "blob"); ("Boolean"%string, u "tinyint"); ("Date"%string, u "date"); ("DateTime"%string, u "datetime"); ("Decimal"%string, u "decimal");
   ("Integer"%string, u "bigint"); ("Json"%string, u "longtext"); ("LongText"%string, u "longtext"); ("Real"%string, u "double"); ("Text"%string, u "varchar");
   ("Uuid"%string, u "uuid")].

Definition column_data_type (c : column) : res utext :=
  match dict_get (co_storage_type_name c) data_types with
  | Some t => Ok t
  | None => raise SchemaError "unsupported MariaDB column type"
  end.

Definition column_unsigned (c : column) : option bool :=
  if existsb (String.eqb (co_storage_type_name c)) ["Boolean"; "Decimal"; "Integer"; "Real"]%string then Some false else None.

Definition column_numeric_precision (c : column) : option Z :=
  if String.eqb (co_storage_type_name c) "Decimal" then co_decimal_precision c else None.
Definition column_numeric_scale (c : column) : option Z :=
  if String.eqb (co_storage_type_name c) "Decimal" then co_decimal_scale c else None.

Definition format_storage_type (data_type : utext) (max_length numeric_precision numeric_scale : option Z) : utext :=
  match max_length, numeric_precision, numeric_scale with
  | Some n, _, _ =>
      if bool_decide (data_type = u "varchar") then u "varchar(" ++ str_Z n ++ u ")"
      else match numeric_precision, numeric_scale with
           | Some p, Some s =>
               if bool_decide (data_type = u "decimal") then u "decimal(" ++ str_Z p ++ u "," ++ str_Z s ++ u ")" else data_type
           | _, _ => data_type
           end
  | None, Some p, Some s =>
      if bool_decide (data_type = u "decimal") then u "decimal(" ++ str_Z p ++ u "," ++ str_Z s ++ u ")" else data_type
  | _, _, _ => data_type
  end.

Definition mariadb_requires_not_null (c : column) : bool := negb (co_nullable c) || co_primary_key c.

(** [current_timestamp_sql] of [mariadb/_dialect_sql.py]. *)
Definition text_clock : utext := u "CONCAT(REPLACE(CURRENT_TIMESTAMP(6), ' ', 'T'), 'Z')".
Definition mariadb_current_timestamp_sql (c : column) : res utext :=
  _ ← guardR (co_instant c) QueryConstructionError "CurrentTimestamp requires a UtcDatetime column";
  Ok (if String.eqb (co_storage_type_name c) "DateTime"
      then u "CURRENT_TIMESTAMP(" ++ str_length (co_datetime_precision c) ++ u ")"
      else text_clock).

(** ** Defaults *)

Section defaults.
Context `{L : lowercase}.

(** A quoted fragment after its opening quote: the longest one that is closed,
    doubled quotes inside it, and what follows. *)
Fixpoint quoted_fragment (s : utext) : option (utext * utext) :=
  match s with
  | [] => None
  | c :: s' =>
      if negb (c =? 39)%Z then (fun p => (c :: p.1, p.2)) <$> quoted_fragment s'
      else match s' with
           | c' :: s'' =>
               if (c' =? 39)%Z then
                 match quoted_fragment s'' with
                 | Some p => Some (39%Z :: 39%Z :: p.1, p.2)
                 | None => Some ([39%Z], s')
                 end
               else Some ([39%Z], s')
           | [] => Some ([39%Z], [])
           end
  end.

(** [sub] of white space and [lower], outside quotes. *)
Definition squeeze (s : utext) : utext := lower_text (filter (fun c => py_isspace c = false) s).

(** The fragments of [split], unquoted and quoted in turn. *)
Fixpoint normalized_fragments (fuel : nat) (s : utext) : utext :=
  match fuel with
  | 0 => squeeze s
  | S fuel =>
      let '(plain, rest) := span (fun c => negb (c =? 39)%Z) s in
      match rest with
      | [] => squeeze s
      | _ :: quoted =>
          match quoted_fragment quoted with
          | None => squeeze s
          | Some (fragment, rest) => squeeze plain ++ (39%Z :: fragment) ++ normalized_fragments fuel rest
          end
      end
  end.

(** [fullmatch] of the clock with its precision. *)
Definition clock_precision (s : utext) : option utext :=
  let prefix := u "current_timestamp(" in
  if bool_decide (take (length prefix) s = prefix) then
    match drop (length prefix) s with
    | [41%Z] => Some (u "0")
    | [p; 41%Z] => if bool_decide (48 <= p <= 54)%Z then Some [p] else None
    | _ => None
    end
  else None.

Definition text_clock_normal : utext := u "concat(replace(current_timestamp(6),' ','T'),'Z')".

Definition mariadb_normalize_server_default (default : cell) : option server_default :=
  match default with
  | CNull => None
  | c =>
      let expression := py_str c in
      let normalized := normalized_fragments (length expression) expression in
      Some (DefaultText
        match clock_precision normalized with
        | Some p => u "CurrentTimestamp(" ++ p ++ u ")"
        | None => if bool_decide (normalized = text_clock_normal) then u "CurrentTimestampText(6)" else expression
        end)
  end.

(** ** What a model expects *)

Definition mariadb_expected_column_shape (p : planned_column) : res column_shape :=
  let c := pc_column p in
  data_type ← column_data_type c;
  server_default ← match co_server_default c with
                   | Some CurrentTimestamp =>
                       sql ← mariadb_current_timestamp_sql c; Ok (mariadb_normalize_server_default (CText sql))
                   | Some (LiteralDefault v) => Ok (Some (LiteralDefaultShape BMariadb v))
                   | None => Ok None
                   end;
  Ok (ColumnShape (pc_name p)
        (format_storage_type data_type (column_max_length c) (column_numeric_precision c) (column_numeric_scale c))
        (negb (mariadb_requires_not_null c)) (co_primary_key c) (co_auto_increment c) server_default
        (column_collation c) (co_datetime_precision c) (column_unsigned c)).
End defaults.

Definition BTREE : utext := u "BTREE".
Definition mariadb_expected_index_shape (i : normalized_index) : index_shape :=
  IndexShape (ni_name i) (ni_column_names i) (ni_unique i) None (Some (index_prefixes i)) (Some BTREE) None.

Definition mariadb_default_parts (c : column) : res (list utext) :=
  match co_server_default c with
  | None => Ok []
  | Some CurrentTimestamp => sql ← mariadb_current_timestamp_sql c; Ok [u "DEFAULT " ++ sql]
  | Some (LiteralDefault v) => sql ← render_literal_default BMariadb v; Ok [u "DEFAULT " ++ sql]
  end.

Definition mariadb_compile_column_definition (p : planned_column) : res utext :=
  let c := pc_column p in
  type_text ← compile_column_type c;
  defaults ← mariadb_default_parts c;
  Ok (join_text space
    ([quote_identifier BMariadb (pc_name p); type_text]
     ++ (if mariadb_requires_not_null c then [u "NOT NULL"] else [])
     ++ (if co_auto_increment c then [u "AUTO_INCREMENT"] else [])
     ++ (if co_primary_key c && negb (pc_composite_pk p) then [u "PRIMARY KEY"] else [])
     ++ defaults)).

Definition no_action : utext := u "NO ACTION".
(** [_normalize_foreign_key_action] of a declared action and of a catalog text. *)
Definition normalize_action_text (action : utext) : utext :=
  if bool_decide (action = no_action \/ action = u "RESTRICT") then no_action else action.
Definition mariadb_normalize_foreign_key_action (a : option referential_action) : utext :=
  match a with Some a => normalize_action_text (action_text a) | None => no_action end.

Definition MARIADB_SCHEMA_DIALECT `{lowercase} : schema_dialect := {|
  sd_quote_identifier := quote_identifier BMariadb;
  sd_compile_column_definition := mariadb_compile_column_definition;
  sd_expected_column_shape := mariadb_expected_column_shape;
  sd_expected_index_shape := mariadb_expected_index_shape;
  sd_normalize_foreign_key_action := mariadb_normalize_foreign_key_action;
  sd_table_suffix := u "ENGINE=InnoDB";
  sd_verifies_foreign_keys := true |}.

Definition scaffold_mariadb_ddl `{lowercase} (models : gmap positive table_model) (column_hint : mid -> utext -> annotation)
    (ms : list mid) : res utext :=
  _ ← require_scaffold_models models BMariadb ms; scaffold_ddl MARIADB_SCHEMA_DIALECT models column_hint ms.
Definition scaffold_mariadb_statements `{lowercase} (models : gmap positive table_model)
    (column_hint : mid -> utext -> annotation) (ms : list mid) : res (list (utext * utext)) :=
  _ ← require_scaffold_models models BMariadb ms; scaffold_statements MARIADB_SCHEMA_DIALECT models column_hint ms.

(** ** [expected_shape] and [verification_limits] *)

(** A prefix that spans its column has no SUB_PART. *)
Definition reported_prefix (capacities : list (utext * option Z)) (name : utext) (prefix : option Z) : res (option Z) :=
  match prefix with
  | None => Ok None
  | Some n =>
      match dict_get name capacities with
      | None => raise KeyError EmptyString
      | Some capacity => Ok (if bool_decide (capacity = Some n) then None else Some n)
      end
  end.

Definition reported_index (capacities : list (utext * option Z)) (i : index_shape) : res index_shape :=
  match ix_prefix_lengths i with
  | None => Ok i
  | Some lengths =>
      pairs ← zip_strict (ix_column_names i) lengths;
      lengths ← mapR (fun x => reported_prefix capacities x.1 x.2) pairs;
      Ok (IndexShape (ix_name i) (ix_column_names i) (ix_unique i) (ix_partial i) (Some lengths) (ix_index_type i) (ix_where i))
  end.

Definition column_capacities (p : planned_model) : list (utext * option Z) :=
  dict_of_entries (map (fun c => (pc_name c, co_text_length (pc_column c))) (pm_columns p)).

Definition mariadb_expected_shape `{lowercase} (p : planned_model) : res table_shape :=
  shape ← expected_table_shape MARIADB_SCHEMA_DIALECT p;
  indexes ← mapR (reported_index (column_capacities p)) (ts_indexes shape);
  Ok (TableShape (ts_table_name shape) (ts_columns shape) indexes (ts_foreign_keys shape)
        (ts_storage_options shape) (ts_checks shape)).

Definition is_json (c : planned_column) : bool := String.eqb (co_storage_type_name (pc_column c)) "Json".

Definition mariadb_verification_limits (p : planned_model) : list fact :=
  map (fun kind => Fact (pm_table_name p) None kind Unchecked)
    ["columns.integer_display_width"; "indexes.visibility"; "indexes.fk_supporting_origin"; "table.object_type"]%string
  ++ flat_map (fun c => map (fun kind => Fact (pm_table_name p) (Some (pc_name c)) kind Unchecked)
                          ["column.collation"; "column.json_check"]%string)
       (filter (fun c => is_json c = true) (pm_columns p)).

(** ** Rows of INFORMATION_SCHEMA *)

(** [shapes.setdefault(table, []).append(shape)] *)
Definition append_to {V} (d : list (utext * list V)) (e : utext * V) : list (utext * list V) :=
  dict_set e.1 (default [] (dict_get e.1 d) ++ [e.2]) d.
Definition group_entries {V} (entries : list (utext * V)) : list (utext * list V) := foldl append_to [] entries.

(** [int(value) if isinstance(value, int | str) else None] *)
Definition optional_int (c : cell) : res (option Z) :=
  match c with CNull => Ok None | c => n ← py_int c; Ok (Some n) end.

Definition unpack_failed {A} : res A := raise ValueError "values to unpack".
(** [s.endswith(suffix)] *)
Definition ends_with (suffix s : utext) : bool := bool_decide (drop (length s - length suffix) s = suffix).

Section rows.
Context `{U : unicode} `{L : lowercase}.

(** TABLES: TABLE_NAME, ENGINE. *)
Definition mariadb_storage_option (row : list cell) : res (utext * list utext) :=
  match row with
  | [table; engine] =>
      Ok (py_str table, if bool_decide (lower_text (py_str engine) = u "innodb") then [u "ENGINE=InnoDB"] else [])
  | _ => unpack_failed
  end.

(** COLUMNS, in the order of the query. *)
Definition mariadb_live_column (row : list cell) : res (utext * column_shape) :=
  match row with
  | [table; name; data_type; column_type; max_length; numeric_precision; numeric_scale; datetime_precision;
     nullable; column_key; extra; collation; default] =>
      max_length ← optional_int max_length;
      numeric_precision ← optional_int numeric_precision;
      numeric_scale ← optional_int numeric_scale;
      let default := if bool_decide (nullable = CText (u "YES") /\ default = CText SQL_NULL) then CNull else default in
      datetime_precision ← optional_int datetime_precision;
      let type_text := py_str data_type in
      Ok (py_str table, ColumnShape (py_str name)
            (format_storage_type type_text max_length numeric_precision numeric_scale)
            (bool_decide (nullable = CText (u "YES"))) (bool_decide (column_key = CText (u "PRI")))
            (contains (u "auto_increment") (py_str extra)) (mariadb_normalize_server_default default)
            (if bool_decide (type_text ∈ map u ["varchar"; "longtext"]%string) && py_truth collation
             then Some (py_str collation) else None)
            datetime_precision
            (if bool_decide (type_text ∈ map u ["bigint"; "decimal"; "double"; "tinyint"]%string)
             then Some (ends_with (u " unsigned") (lower_text (py_str column_type))) else None))
  | _ => unpack_failed
  end.

(** A row of STATISTICS: the table and the index, and what it says about a column. *)
Record index_part_row := IndexPartRow {
  ip_column : utext; ip_prefix : option Z; ip_type : utext; ip_unique : bool }.
Definition statistics_row (row : list cell) : res ((utext * utext) * index_part_row) :=
  match row with
  | [table; name; non_unique; _; column; prefix; index_type] =>
      prefix ← optional_int prefix;
      Ok ((py_str table, py_str name),
          IndexPartRow (py_str column) prefix (py_upper (py_str index_type)) (bool_decide (non_unique = CInt 0)))
  | _ => unpack_failed
  end.

(** The four dicts of the loop under one key: the type and the uniqueness are those
    of the last row. *)
Definition index_group : Type := list utext * list (option Z) * utext * bool.
Definition add_index_part (d : list ((utext * utext) * index_group)) (e : (utext * utext) * index_part_row)
    : list ((utext * utext) * index_group) :=
  let '(columns, prefixes) := match dict_get e.1 d with Some (columns, prefixes, _, _) => (columns, prefixes) | None => ([], []) end in
  dict_set e.1 (columns ++ [ip_column e.2], prefixes ++ [ip_prefix e.2], ip_type e.2, ip_unique e.2) d.
Definition index_of_group (g : (utext * utext) * index_group) : utext * index_shape :=
  let '(table, name, (columns, prefixes, index_type, unique)) := g in
  (table, IndexShape name columns unique None (Some prefixes) (Some index_type) None).
Definition mariadb_index_shapes (rows : list (list cell)) : res (list (utext * list index_shape)) :=
  parts ← mapR statistics_row rows;
  Ok (group_entries (map index_of_group (foldl add_index_part [] parts))).

(** CHECK_CONSTRAINTS: TABLE_NAME, CONSTRAINT_NAME, CHECK_CLAUSE. *)
Definition mariadb_live_check (row : list cell) : res (utext * check_shape) :=
  match row with
  | [table; name; clause] =>
      expression ← parse_check (py_str clause); Ok (py_str table, CheckShape (Some (py_str name)) expression)
  | _ => unpack_failed
  end.

(** REFERENTIAL_CONSTRAINTS: TABLE_NAME, CONSTRAINT_NAME, UPDATE_RULE, DELETE_RULE. *)
Definition action_row (row : list cell) : res ((utext * utext) * (utext * utext)) :=
  match row with
  | [table; constraint; on_update; on_delete] =>
      Ok ((py_str table, py_str constraint), (py_str on_update, py_str on_delete))
  | _ => unpack_failed
  end.
Definition referential_actions (rows : list (list cell)) : res (list ((utext * utext) * (utext * utext))) :=
  entries ← mapR action_row rows;
  Ok (dict_of_entries entries).

(** [int(str(value))] *)
Definition int_of_str (c : cell) : res Z := match c with CInt n => Ok n | c => py_int (CText (py_str c)) end.

(** KEY_COLUMN_USAGE, in the order of the query. *)
Definition mariadb_live_foreign_key (actions : list ((utext * utext) * (utext * utext))) (row : list cell)
    : res (utext * foreign_key_shape) :=
  match row with
  | [table; column; target_table; target_column; constraint; position] =>
      match dict_get (py_str table, py_str constraint) actions with
      | None => raise SchemaError "foreign-key action metadata unavailable during verification"
      | Some (on_update, on_delete) =>
          position ← int_of_str position;
          Ok (py_str table, ForeignKeyShape (py_str column) (py_str target_table) (py_str target_column)
                (normalize_action_text on_delete) (normalize_action_text on_update) (Some (py_str constraint)) position)
      end
  | _ => unpack_failed
  end.
End rows.

(** ** Shapes of the live tables *)

(** [_exclude_implicit_foreign_key_indexes] *)
Definition supports_foreign_key (columns : list utext) (i : index_shape) : bool :=
  bool_decide (take (length columns) (ix_column_names i) = columns)
  && match ix_prefix_lengths i with Some lengths => negb (any_length (Some lengths)) | None => false end
  && bool_decide (ix_index_type i = Some BTREE).
Definition exclude_implicit_foreign_key_indexes (indexes : list index_shape) (foreign_keys : list foreign_key_shape)
    (p : planned_model) : list index_shape :=
  let foreign_key_columns := map (map fk_column_name) (group_foreign_keys foreign_keys) in
  filter (fun i => bool_decide (ix_name i ∈ map ni_name (pm_indexes p)) || negb (nonempty (ix_column_names i))
                   || negb (existsb (fun columns => supports_foreign_key columns i) foreign_key_columns) = true) indexes.

Definition without_collation (c : column_shape) : column_shape :=
  ColumnShape (cl_name c) (cl_storage_type c) (cl_nullable c) (cl_primary_key c) (cl_auto_increment c)
    (cl_server_default c) None (cl_datetime_precision c) (cl_unsigned c).
(** The collation behind JSON is not compared. *)
Definition json_column (p : planned_model) (c : column_shape) : column_shape :=
  if bool_decide (cl_name c ∈ map pc_name (filter (fun c => is_json c = true) (pm_columns p)))
     && bool_decide (cl_storage_type c = u "longtext")
  then without_collation c else c.

(** One table of [inspect_shapes]. *)
Definition mariadb_table_shape (options : list (utext * list utext)) (columns : list (utext * list column_shape))
    (indexes : list (utext * list index_shape)) (foreign_keys : list (utext * list foreign_key_shape))
    (checks : list (utext * list check_shape)) (p : planned_model) : list (utext * table_shape) :=
  let table := pm_table_name p in
  match dict_get table options with
  | None => []
  | Some options =>
      let keys := default [] (dict_get table foreign_keys) in
      [(table, TableShape table (map (json_column p) (default [] (dict_get table columns)))
                 (exclude_implicit_foreign_key_indexes (default [] (dict_get table indexes)) keys p)
                 keys options (Some (default [] (dict_get table checks))))]
  end.
