(* ===== verification/MariadbInspect.v ===== *)
(** * Reading the live MariaDB schema

    The queries of [mariadb/schema.py] and [MariaDBRuntime.verify_schema] of
    [mariadb/runtime.py], as programs over one connection.  The rows of
    INFORMATION_SCHEMA are a parameter; what the driver answers to each command is a
    script, so every failure and every cancellation is some script. *)

From S2P Require Export MariadbSchema.

(** ** The driver *)

(** [AcquireConnection] and [ReleaseConnection] are those of the pool
    ([MariadbPool]). *)
Inductive schema_command :=
  | AcquireConnection | OpenCursor | Execute (sql : utext) (params : list utext) | FetchRows | CloseCursor
  | ReleaseConnection.
#[export] Instance schema_command_eq_dec : EqDecision schema_command.
Proof. solve_decision. Defined.

Inductive reply := Replied | Broken (x : failure).
Record schema_session := SchemaSession { ss_sent : list schema_command; ss_script : list reply }.
Abbreviation schema_program := (eff schema_session failure).

Definition send_command (c : schema_command) : schema_program unit := fun s =>
  let s' := SchemaSession (ss_sent s ++ [c]) (tail (ss_script s)) in
  match head (ss_script s) with
  | Some (Broken x) => (inr x, s')
  | _ => (inl tt, s')
  end.

(** ** Queries *)

(** [_table_name_placeholders] *)
Definition table_name_placeholders (table_names : list utext) : utext :=
  join_text comma (map (fun _ => u "%s") table_names).
Definition named_tables (table_names : list utext) : utext :=
  u "AND TABLE_NAME IN (" ++ table_name_placeholders table_names ++ u ")".

Definition tables_query (table_names : list utext) : utext :=
  u "SELECT TABLE_NAME, ENGINE FROM INFORMATION_SCHEMA.TABLES WHERE TABLE_SCHEMA = DATABASE() "
  ++ named_tables table_names.

Definition columns_query (table_names : list utext) : utext :=
  u "SELECT TABLE_NAME, COLUMN_NAME, DATA_TYPE, COLUMN_TYPE, CHARACTER_MAXIMUM_LENGTH, NUMERIC_PRECISION, NUMERIC_SCALE, "
  ++ u "DATETIME_PRECISION, IS_NULLABLE, COLUMN_KEY, EXTRA, COLLATION_NAME, COLUMN_DEFAULT FROM INFORMATION_SCHEMA.COLUMNS "
  ++ u "WHERE TABLE_SCHEMA = DATABASE() " ++ named_tables table_names ++ u " ORDER BY TABLE_NAME, ORDINAL_POSITION".

Definition statistics_query (table_names : list utext) : utext :=
  u "SELECT TABLE_NAME, INDEX_NAME, NON_UNIQUE, SEQ_IN_INDEX, COLUMN_NAME, SUB_PART, INDEX_TYPE FROM "
  ++ u "INFORMATION_SCHEMA.STATISTICS WHERE TABLE_SCHEMA = DATABASE() " ++ named_tables table_names
  ++ u " AND INDEX_NAME <> 'PRIMARY' ORDER BY TABLE_NAME, INDEX_NAME, SEQ_IN_INDEX".

Definition checks_query (table_names : list utext) : utext :=
  u "SELECT TABLE_NAME, CONSTRAINT_NAME, CHECK_CLAUSE FROM INFORMATION_SCHEMA.CHECK_CONSTRAINTS "
  ++ u "WHERE CONSTRAINT_SCHEMA = DATABASE() " ++ named_tables table_names ++ u " ORDER BY TABLE_NAME, CONSTRAINT_NAME".

Definition key_usage_query (table_names : list utext) : utext :=
  u "SELECT TABLE_NAME, COLUMN_NAME, REFERENCED_TABLE_NAME, REFERENCED_COLUMN_NAME, CONSTRAINT_NAME, ORDINAL_POSITION "
  ++ u "FROM INFORMATION_SCHEMA.KEY_COLUMN_USAGE WHERE TABLE_SCHEMA = DATABASE() " ++ named_tables table_names
  ++ u " AND REFERENCED_TABLE_NAME IS NOT NULL ORDER BY TABLE_NAME, CONSTRAINT_NAME, ORDINAL_POSITION".

Definition actions_query (table_names : list utext) : utext :=
  u "SELECT TABLE_NAME, CONSTRAINT_NAME, UPDATE_RULE, DELETE_RULE FROM INFORMATION_SCHEMA.REFERENTIAL_CONSTRAINTS "
  ++ u "WHERE CONSTRAINT_SCHEMA = DATABASE() " ++ named_tables table_names.

Section inspect.
Context `{U : unicode} `{L : lowercase} (catalog : utext -> list utext -> list (list cell)).

(** [_fetchall] *)
Definition fetchall (sql : utext) (params : list utext) : schema_program (list (list cell)) :=
  _ ← send_command OpenCursor;
  try_finally (_ ← send_command (Execute sql params); _ ← send_command FetchRows; mret (catalog sql params))
    (send_command CloseCursor).

(** [_fetch_table_storage_options] *)
Definition mariadb_table_storage_options (table_names : list utext) : schema_program (list (utext * list utext)) :=
  rows ← fetchall (tables_query table_names) table_names;
  entries ← lift (mapR mariadb_storage_option rows);
  mret (dict_of_entries entries).

Definition fetch_existing_column_shapes (table_names : list utext) : schema_program (list (utext * list column_shape)) :=
  rows ← fetchall (columns_query table_names) table_names;
  entries ← lift (mapR mariadb_live_column rows);
  mret (group_entries entries).

Definition fetch_existing_index_shapes (table_names : list utext) : schema_program (list (utext * list index_shape)) :=
  rows ← fetchall (statistics_query table_names) table_names;
  lift (mariadb_index_shapes rows).

Definition fetch_check_shapes (table_names : list utext) : schema_program (list (utext * list check_shape)) :=
  rows ← fetchall (checks_query table_names) table_names;
  entries ← lift (mapR mariadb_live_check rows);
  mret (group_entries entries).

Definition fetch_existing_foreign_key_shapes (table_names : list utext)
    : schema_program (list (utext * list foreign_key_shape)) :=
  rows ← fetchall (key_usage_query table_names) table_names;
  action_rows ← fetchall (actions_query table_names) table_names;
  actions ← lift (referential_actions action_rows);
  entries ← lift (mapR (mariadb_live_foreign_key actions) rows);
  mret (group_entries entries).

(** [inspect_shapes] *)
Definition mariadb_inspect_shapes (planned : list planned_model) : schema_program (list (utext * table_shape)) :=
  let table_names := map pm_table_name planned in
  options ← mariadb_table_storage_options table_names;
  columns ← fetch_existing_column_shapes table_names;
  indexes ← fetch_existing_index_shapes table_names;
  foreign_keys ← fetch_existing_foreign_key_shapes table_names;
  checks ← fetch_check_shapes table_names;
  mret (dict_of_entries (flat_map (mariadb_table_shape options columns indexes foreign_keys checks) planned)).

#[export] Instance MariaDBSchemaBackend : schema_backend schema_session := {|
  verification_transaction := fun A body => body;
  expected_shape := mariadb_expected_shape;
  verification_limits := mariadb_verification_limits;
  inspect_shapes := mariadb_inspect_shapes |}.

(** [MariaDBRuntime.verify_schema] *)
Context (models : gmap positive table_model) (column_hint : mid -> utext -> annotation).
Definition mariadb_verify_schema (ms : list mid) (p : schema_policy) : schema_program verification_result :=
  _ ← send_command AcquireConnection;
  try_finally (verify_schema models column_hint ms p) (send_command ReleaseConnection).
End inspect.
