(* ===== verification/MariadbCatalog.v ===== *)
(** * What MariaDB reports about a scaffolded table

    The documented rows of INFORMATION_SCHEMA for tables created from the text of
    the scaffold: what a column type is reported as, defaults, keys, indexes with
    those MariaDB adds for foreign keys, and rules; [mariadb_created] says that a
    catalog answers with them, in any order of tables, columns and constraints. *)

From S2P Require Export ColumnStorage MariadbInspect SchemaGroups DefaultReading.

(** [str.lower] on ASCII. *)
Class lower_laws `(L : lowercase) : Prop := {
  lower_law : forall s, ascii_only s = true -> lower_text s = ascii_lower s }.

#[export] Instance ascii_lowercase : lowercase := {| lower_text := ascii_lower |}.
#[export] Instance ascii_lowercase_laws : lower_laws ascii_lowercase.
Proof. by split. Qed.

(** ** Columns *)

Record type_report := TypeReport {
  tr_data_type : utext; tr_column_type : utext; tr_max_length : option Z;
  tr_precision : option Z; tr_scale : option Z; tr_datetime : option Z; tr_collation : option utext }.

(** DATA_TYPE, COLUMN_TYPE and the rest for the type of a column definition. *)
Inductive reports : utext -> type_report -> Prop :=
  | reports_bigint : reports (u "BIGINT") (TypeReport (u "bigint") (u "bigint(20)") None (Some 19%Z) (Some 0%Z) None None)
  | reports_blob : reports (u "BLOB") (TypeReport (u "blob") (u "blob") (Some 65535%Z) None None None None)
  | reports_boolean : reports (u "BOOLEAN") (TypeReport (u "tinyint") (u "tinyint(1)") None (Some 3%Z) (Some 0%Z) None None)
  | reports_date : reports (u "DATE") (TypeReport (u "date") (u "date") None None None None None)
  | reports_datetime p : reports (u "DATETIME(" ++ str_Z p ++ u ")")
      (TypeReport (u "datetime") (if (p =? 0)%Z then u "datetime" else u "datetime(" ++ str_Z p ++ u ")")
         None None None (Some p) None)
  | reports_decimal p s : reports (u "DECIMAL(" ++ str_Z p ++ u "," ++ str_Z s ++ u ")")
      (TypeReport (u "decimal") (u "decimal(" ++ str_Z p ++ u "," ++ str_Z s ++ u ")") None (Some p) (Some s) None None)
  | reports_json : reports (u "JSON")
      (TypeReport (u "longtext") (u "longtext") (Some 4294967295%Z) None None None (Some TEXT_COLLATION))
  | reports_longtext collation : reports (u "LONGTEXT CHARACTER SET utf8mb4 COLLATE " ++ collation)
      (TypeReport (u "longtext") (u "longtext") (Some 4294967295%Z) None None None (Some collation))
  | reports_double : reports (u "DOUBLE") (TypeReport (u "double") (u "double") None (Some 22%Z) None None None)
  | reports_uuid : reports (u "UUID") (TypeReport (u "uuid") (u "uuid") None None None None None)
  | reports_varchar n collation : reports (u "VARCHAR(" ++ str_Z n ++ u ") CHARACTER SET utf8mb4 COLLATE " ++ collation)
      (TypeReport (u "varchar") (u "varchar(" ++ str_Z n ++ u ")") (Some n) None None None (Some collation)).

Section reported.
Context `{U : unicode} `{L : lowercase}.

(** COLUMN_DEFAULT: the text NULL where a nullable column has no other default; the
    clock in lower case; a literal as it was written, or in a form that is neither a
    literal nor a clock to the program. *)
Inductive default_reported (c : column) : cell -> Prop :=
  | reported_null : co_server_default c = None \/ co_server_default c = Some (LiteralDefault VNone) ->
      mariadb_requires_not_null c = false -> default_reported c (CText SQL_NULL)
  | reported_absent : co_server_default c = None -> mariadb_requires_not_null c = true -> default_reported c CNull
  | reported_clock p : co_server_default c = Some CurrentTimestamp -> co_storage_type_name c = "DateTime"%string ->
      co_datetime_precision c = Some p ->
      default_reported c (CText (u "current_timestamp(" ++ (if (p =? 0)%Z then [] else str_Z p) ++ u ")"))
  | reported_text_clock : co_server_default c = Some CurrentTimestamp -> co_storage_type_name c <> "DateTime"%string ->
      default_reported c (CText (u "concat(replace(current_timestamp(6),' ','T'),'Z')"))
  | reported_literal v t : co_server_default c = Some (LiteralDefault v) -> v <> VNone -> value_ok v = true ->
      bare_default BMariadb v = Ok t -> default_reported c (CText t)
  | reported_form v t : co_server_default c = Some (LiteralDefault v) -> v <> VNone ->
      catalog_literal true t = None -> mariadb_normalize_server_default (CText t) = Some (DefaultText t) ->
      t <> u "CurrentTimestamp" ->
      default_reported c (CText t).

Definition has_primary_key (p : planned_model) : bool := existsb (fun c => co_primary_key (pc_column c)) (pm_columns p).
(** A unique index that MariaDB shows as the key of a table without one. *)
Definition promoted (p : planned_model) (name : utext) : Prop :=
  has_primary_key p = false /\ exists i, i ∈ pm_indexes p /\ ni_unique i = true /\
    any_length (ni_prefix_lengths i) = false /\ name ∈ ni_column_names i /\
    forall c, c ∈ pm_columns p -> pc_name c ∈ ni_column_names i -> mariadb_requires_not_null (pc_column c) = true.

Definition PRI : utext := u "PRI".
Definition key_reported (p : planned_model) (c : planned_column) (key : utext) : Prop :=
  if co_primary_key (pc_column c) then key = PRI
  else key <> PRI \/ promoted p (pc_name c).

Definition int_cell (n : option Z) : cell := match n with Some n => CInt n | None => CNull end.
Definition text_cell (s : option utext) : cell := match s with Some s => CText s | None => CNull end.

Definition reported_row (table : utext) (c : planned_column) (r : type_report) (key : utext) (d : cell) : list cell :=
  [CText table; CText (pc_name c); CText (tr_data_type r); CText (tr_column_type r); int_cell (tr_max_length r);
   int_cell (tr_precision r); int_cell (tr_scale r); int_cell (tr_datetime r);
   CText (if mariadb_requires_not_null (pc_column c) then u "NO" else u "YES"); CText key;
   CText (if co_auto_increment (pc_column c) then u "auto_increment" else []); text_cell (tr_collation r); d].

Definition column_reported (p : planned_model) (c : planned_column) (row : list cell) : Prop :=
  exists text r key d, compile_column_type (pc_column c) = Ok text /\ reports text r /\ key_reported p c key /\
    default_reported (pc_column c) d /\ row = reported_row (pm_table_name p) c r key d.

(** ** Indexes *)

Record live_index := LiveIndex { li_table : utext; li_name : utext; li_unique : bool; li_parts : list (utext * option Z) }.
Definition li_key (i : live_index) : utext * utext := (li_table i, li_name i).
Definition statistics_rows (i : live_index) : list (list cell) :=
  imap (fun k part => [CText (li_table i); CText (li_name i); CInt (if li_unique i then 0 else 1); CInt (Z.of_nat (S k));
                       CText part.1; int_cell part.2; CText BTREE]) (li_parts i).

(** SUB_PART: nothing where the prefix is the whole VARCHAR. *)
Definition spans (p : planned_model) (name : utext) (n : Z) : bool :=
  existsb (fun c => bool_decide (pc_name c = name) && String.eqb (co_storage_type_name (pc_column c)) "Text"
                    && bool_decide (co_text_length (pc_column c) = Some n)) (pm_columns p).
Definition sub_part (p : planned_model) (name : utext) (prefix : option Z) : option Z :=
  match prefix with Some n => if spans p name n then None else Some n | None => None end.
Definition declared_index (p : planned_model) (i : normalized_index) : live_index :=
  LiveIndex (pm_table_name p) (ni_name i) (ni_unique i)
    (zip_with (fun name prefix => (name, sub_part p name prefix)) (ni_column_names i) (index_prefixes i)).
(** The index that MariaDB adds for a foreign key. *)
Definition supporting (plan : list planned_model) (i : live_index) : Prop :=
  exists p f, p ∈ plan /\ f ∈ pm_foreign_keys p /\ li_table i = pm_table_name p /\ li_unique i = false /\
    li_parts i = map (fun name => (name, None)) (pf_column_names f).

(** ** Foreign keys *)

(** UPDATE_RULE and DELETE_RULE. *)
Definition rule_reported (a : option referential_action) (rule : utext) : Prop :=
  match a with
  | None | Some RESTRICT | Some NO_ACTION => rule = u "RESTRICT" \/ rule = no_action
  | Some a => rule = action_text a
  end.
Record live_key := LiveKey {
  lk_table : utext; lk_constraint : utext; lk_key : planned_foreign_key; lk_update : utext; lk_delete : utext }.
Definition lk_id (k : live_key) : utext * utext := (lk_table k, lk_constraint k).
Definition key_usage_rows (k : live_key) : list (list cell) :=
  imap (fun position names => [CText (lk_table k); CText names.1; CText (pf_target_table (lk_key k)); CText names.2;
                               CText (lk_constraint k); CInt (1 + Z.of_nat position)])
    (zip (pf_column_names (lk_key k)) (pf_target_columns (lk_key k))).
Definition rules_row (k : live_key) : list cell :=
  [CText (lk_table k); CText (lk_constraint k); CText (lk_update k); CText (lk_delete k)].

(** ** CHECKs *)

(** CHECK_CLAUSE: as it was written, or in a form the program does not recognise. *)
Definition check_reported (p : planned_model) (c : bound_check) (row : list cell) : Prop :=
  exists clause, row = [CText (pm_table_name p); CText (bc_name c); CText clause] /\
    (render_check (quote_identifier BMariadb) BMariadb (bc_expression c) = Ok clause \/ parse_check clause = Ok None).
Definition other_check (plan : list planned_model) (row : list cell) : Prop :=
  exists table name clause, row = [CText table; CText name; CText clause] /\
    forall p, p ∈ plan -> table = pm_table_name p -> name ∉ map bc_name (pm_checks p).

(** ** A catalog after the scaffold ran *)

Context (catalog : utext -> list utext -> list (list cell)).
Record mariadb_created (plan : list planned_model) : Prop := MariadbCreated {
  created_tables : catalog (tables_query (map pm_table_name plan)) (map pm_table_name plan)
    ≡ₚ map (fun p => [CText (pm_table_name p); CText (u "InnoDB")]) plan;
  created_columns : exists rows, Forall2 (fun p => Forall2 (column_reported p) (pm_columns p)) plan rows /\
    catalog (columns_query (map pm_table_name plan)) (map pm_table_name plan) ≡ₚ concat rows;
  created_indexes : exists indexes implicit, NoDup (map li_key indexes) /\ Forall (supporting plan) implicit /\
    indexes ≡ₚ flat_map (fun p => map (declared_index p) (pm_indexes p)) plan ++ implicit /\
    catalog (statistics_query (map pm_table_name plan)) (map pm_table_name plan) = flat_map statistics_rows indexes;
  created_keys : exists keys, NoDup (map lk_id keys) /\
    map (fun k => (lk_table k, lk_key k)) keys ≡ₚ flat_map (fun p => map (pair (pm_table_name p)) (pm_foreign_keys p)) plan /\
    Forall (fun k => rule_reported (pf_on_update (lk_key k)) (lk_update k) /\
                     rule_reported (pf_on_delete (lk_key k)) (lk_delete k)) keys /\
    catalog (key_usage_query (map pm_table_name plan)) (map pm_table_name plan) = flat_map key_usage_rows keys /\
    catalog (actions_query (map pm_table_name plan)) (map pm_table_name plan) ≡ₚ map rules_row keys;
  created_checks : exists rows others, Forall2 (fun p => Forall2 (check_reported p) (pm_checks p)) plan rows /\
    Forall (other_check plan) others /\
    catalog (checks_query (map pm_table_name plan)) (map pm_table_name plan) ≡ₚ others ++ concat rows }.
End reported.
