(* ===== verification/MariadbReading.v ===== *)
(** * A scaffolded MariaDB table read back

    What the rows of [MariadbCatalog] become: the columns, indexes, foreign keys
    and CHECKs of a created table agree with what its model expects. *)

From S2P Require Export MariadbCatalog.

(** ** Defaults *)

Section defaults.
Context `{U : unicode} `{!ascii_laws U} `{L : lowercase} `{!lower_laws L}.

Lemma not_a_precision c s : c <> 99%Z -> clock_precision (c :: s) = None /\ c :: s <> text_clock_normal.
Proof using Type.
  intros Hc. split; [|by intros [= -> _]]. unfold clock_precision. cbv zeta. rewrite bool_decide_eq_false_2; [done|].
  intros H. apply Hc. change (u "current_timestamp(") with (99%Z :: u "urrent_timestamp(") in H. cbn [length take] in H. by injection H.
Qed.

Lemma span_none p (s : utext) : forallb p s = true -> span p s = (s, []).
Proof using Type.
  induction s as [|c s IH]; [done|]. cbn [forallb span]. intros [Hc Hs]%andb_true_iff. by rewrite Hc, IH.
Qed.

Lemma fragments_plain fuel s : 39%Z ∉ s -> normalized_fragments fuel s = squeeze s.
Proof using Type.
  intros Hq. destruct fuel as [|fuel]; [done|]. cbn [normalized_fragments]. rewrite span_none; [done|].
  apply forallb_forall. intros c Hc. apply negb_true_iff, Z.eqb_neq. intros ->. by apply Hq, list_elem_of_In.
Qed.

Lemma normalize_plain s : 39%Z ∉ s -> ascii_only s = true ->
  mariadb_normalize_server_default (CText s) =
  Some (DefaultText match clock_precision (ascii_lower (filter (fun c => py_isspace c = false) s)) with
                    | Some p => u "CurrentTimestamp(" ++ p ++ u ")"
                    | None => if bool_decide (ascii_lower (filter (fun c => py_isspace c = false) s) = text_clock_normal)
                              then u "CurrentTimestampText(6)" else s
                    end).
Proof using All.
  intros Hq Ha. unfold mariadb_normalize_server_default. cbn [py_str]. rewrite fragments_plain by done.
  unfold squeeze. rewrite lower_law; [done|]. unfold ascii_only in *. rewrite forallb_forall in Ha |- *.
  intros c Hc. apply Ha. apply list_elem_of_In, list_elem_of_filter in Hc as [_ Hc]. by apply list_elem_of_In.
Qed.

(** The clock in both spellings. *)
Lemma clock_normal p : (0 <= p < 7)%Z ->
  mariadb_normalize_server_default (CText (u "CURRENT_TIMESTAMP(" ++ str_Z p ++ u ")")) =
    mariadb_normalize_server_default (CText (u "current_timestamp(" ++ (if (p =? 0)%Z then [] else str_Z p) ++ u ")")).
Proof using All.
  intros Hp. assert (Hcases : p ∈ [0; 1; 2; 3; 4; 5; 6]%Z) by (rewrite !elem_of_cons, elem_of_nil; lia).
  repeat (apply elem_of_cons in Hcases as [->|Hcases]; [
    rewrite !normalize_plain by (first [reflexivity | by apply (bool_decide_unpack _); vm_compute]); vm_compute; reflexivity|]).
  by apply elem_of_nil in Hcases.
Qed.

Lemma text_clock_reads : mariadb_normalize_server_default (CText text_clock) =
  mariadb_normalize_server_default (CText (u "concat(replace(current_timestamp(6),' ','T'),'Z')")).
Proof using All.
  unfold mariadb_normalize_server_default. cbn [py_str].
  assert (H : forall s, ascii_only s = true -> squeeze s = ascii_lower (filter (fun c => py_isspace c = false) s)).
  { intros s Hs. unfold squeeze. apply lower_law. unfold ascii_only in *. rewrite forallb_forall in Hs |- *.
    intros c Hc. apply Hs. apply list_elem_of_In, list_elem_of_filter in Hc as [_ Hc]. by apply list_elem_of_In. }
  assert (Hn : forall s, s = text_clock \/ s = u "concat(replace(current_timestamp(6),' ','T'),'Z')" ->
    normalized_fragments (length s) s = text_clock_normal).
  { intros s [-> | ->]; cbv -[squeeze app]; rewrite !H by reflexivity; vm_compute; reflexivity. }
  rewrite !Hn by auto. done.
Qed.

(** A literal is not taken for a clock. *)
Lemma head_settles c t : ascii_only (c :: t) = true -> 39%Z ∉ c :: t -> py_isspace c = false ->
  (if (65 <=? c) && (c <=? 90) then c + 32 else c)%Z <> 99%Z ->
  mariadb_normalize_server_default (CText (c :: t)) = Some (DefaultText (c :: t)).
Proof using All.
  intros Ha Hq Hs Hc. rewrite normalize_plain by done. rewrite filter_cons_True by done. cbn [ascii_lower map].
  destruct (not_a_precision _ (ascii_lower (filter (fun c => py_isspace c = false) t)) Hc) as [Hp Hne].
  rewrite Hp. by rewrite bool_decide_eq_false_2.
Qed.

Lemma converted_normal h : mariadb_normalize_server_default (CText (u "CONVERT(X'" ++ h ++ u "' USING utf8mb4)")) =
  Some (DefaultText (u "CONVERT(X'" ++ h ++ u "' USING utf8mb4)")).
Proof using All.
  set (t := u "CONVERT(X'" ++ h ++ u "' USING utf8mb4)"). unfold mariadb_normalize_server_default. cbn [py_str].
  assert (Hn : exists rest, normalized_fragments (length t) t = u "convert(x" ++ rest).
  { assert (Hsq : squeeze (u "CONVERT(X") = u "convert(x") by (unfold squeeze; rewrite lower_law by reflexivity; reflexivity).
    assert (Hspan : span (fun c => negb (c =? 39)%Z) t = (u "CONVERT(X", 39%Z :: h ++ u "' USING utf8mb4)")) by reflexivity.
    assert (Hq : exists f r, quoted_fragment (h ++ u "' USING utf8mb4)") = Some (f, r)).
    { clear -h. assert (Hn : forall n h, length h <= n -> exists f r, quoted_fragment (h ++ u "' USING utf8mb4)") = Some (f, r)); [|by apply (Hn (length h))].
      clear h. induction n as [|n IH]; intros [|c h] Hl; simpl in Hl; try lia; [by do 2 eexists|by do 2 eexists|].
      cbn [app quoted_fragment]. destruct (c =? 39)%Z eqn:Ec; cbn [negb].
      - destruct h as [|c' h]; [by do 2 eexists|]. cbn [app]. destruct (c' =? 39)%Z; [|by do 2 eexists].
        destruct (quoted_fragment (h ++ _)) as [[f r]|]; by do 2 eexists.
      - destruct (IH h) as (f & r & ->); [lia|]. by do 2 eexists. }
    destruct Hq as (f & r & Hq). change (length t) with (S (pred (length t))). cbn [normalized_fragments]. rewrite Hspan.
    cbv beta iota. rewrite Hq, Hsq. by eexists. }
  destruct Hn as [rest Hn]. rewrite Hn.
  assert (Hp : clock_precision (u "convert(x" ++ rest) = None) by reflexivity. rewrite Hp.
  rewrite bool_decide_eq_false_2; [done|]. intros H. apply (f_equal (take 4)) in H. vm_compute in H. discriminate.
Qed.

Lemma literal_normal v t : value_ok v = true -> v <> VNone -> bare_default BMariadb v = Ok t ->
  mariadb_normalize_server_default (CText t) = Some (DefaultText t) /\ t <> u "CurrentTimestamp".
Proof using All.
  intros Hv Hne Ht. destruct v as [|n|s]; [done| |].
  - change (Ok (str_Z n) = Ok t) in Ht. apply Ok_inj in Ht as <-. change (int_ok n = true) in Hv. unfold int_ok in Hv.
    apply Z.ltb_lt in Hv.
    assert (Hz : exists c s, str_Z n = c :: s /\ (c = 45 \/ 48 <= c <= 57)%Z /\ forallb is_digit s = true).
    { unfold str_Z. destruct (Z.ltb_spec n 0).
      - destruct (str_nonneg_value (- n)) as (_ & c & s & Hs & Hc & Hd); [lia|]. do 2 eexists. split; [done|]. split; [by left|].
        rewrite Hs. cbn [forallb]. by rewrite Hc.
      - destruct (str_nonneg_value n) as (_ & c & s & Hs & Hc & Hd); [lia|]. apply digit_range in Hc.
        exists c, s. split_and!; [done|right; lia|done]. }
    destruct Hz as (c & s & Hz & Hc & Hd). rewrite Hz.
    assert (Hall : forall x, x ∈ s -> (48 <= x <= 57)%Z).
    { intros x Hx. apply digit_range. rewrite forallb_forall in Hd. by apply Hd, list_elem_of_In. }
    split.
    + apply head_settles.
      * unfold ascii_only. apply forallb_forall. intros x [<-|Hx]; unfold in_range; rewrite andb_true_iff, !Z.leb_le; [lia|].
        apply list_elem_of_In, Hall in Hx. lia.
      * intros [Hx|Hx]%elem_of_cons; [lia|]. apply Hall in Hx. lia.
      * unfold py_isspace. destruct Hc as [->|Hc]; [reflexivity|].
        apply not_true_iff_false. intros Hs. assert (Hin : c ∈ [48; 49; 50; 51; 52; 53; 54; 55; 56; 57]%Z) by (rewrite !elem_of_cons; lia).
        clear -Hin Hs. repeat (apply elem_of_cons in Hin as [->|Hin]; [vm_compute in Hs; discriminate|]). by apply elem_of_nil in Hin.
      * destruct (65 <=? c)%Z eqn:E1; [apply Z.leb_le in E1; lia|]. cbn [andb]. lia.
    + intros H. apply (f_equal head) in H. assert (c = 67%Z) by (vm_compute in H; congruence). lia.
  - change (render_text BMariadb s = Ok t) in Ht. unfold render_text in Ht. destruct (encoded_hex s) as [h|]; [|done].
    cbn [mbind res_bind] in Ht. apply Ok_inj in Ht. subst t. split; [apply converted_normal|].
    intros H. apply (f_equal (take 2)) in H. vm_compute in H. discriminate.
Qed.
End defaults.

(** ** Types *)

Lemma str_Z_chars n : forallb (fun c => is_digit c || (c =? 45)%Z) (str_Z n) = true.
Proof.
  assert (Hd : forall m, (0 <= m)%Z -> forallb (fun c => is_digit c || (c =? 45)%Z) (str_nonneg m) = true).
  { intros m Hm. unfold str_nonneg. destruct (decimal_digits_value (S (Z.to_nat (Z.log2 m))) m) as (_ & H & _).
    - rewrite Nat2Z.inj_succ, Z2Nat.id by apply Z.log2_nonneg. split; [done|]. destruct (Z.eq_dec m 0) as [-> | ?]; [done|]. apply Z.log2_spec. lia.
    - rewrite forallb_forall in H |- *. intros c Hc. by rewrite H. }
  unfold str_Z. destruct (Z.ltb_spec n 0); cbn [forallb]; [|by apply Hd]. rewrite Hd by lia. done.
Qed.

Lemma str_Z_inj n m : str_Z n = str_Z m -> n = m.
Proof.
  assert (Hhead : forall k s, (0 <= k)%Z -> str_nonneg k <> 45%Z :: s).
  { intros k s Hk Hs. unfold str_nonneg in Hs. destruct (decimal_digits_value (S (Z.to_nat (Z.log2 k))) k) as (_ & H & _).
    - rewrite Nat2Z.inj_succ, Z2Nat.id by apply Z.log2_nonneg. split; [done|]. destruct (Z.eq_dec k 0) as [-> | ?]; [done|]. apply Z.log2_spec. lia.
    - rewrite Hs in H. done. }
  unfold str_Z. destruct (Z.ltb_spec n 0), (Z.ltb_spec m 0); intros E.
  - injection E as E. apply str_nonneg_inj in E; lia.
  - symmetry in E. by apply Hhead in E.
  - by apply Hhead in E.
  - by apply str_nonneg_inj in E.
Qed.

(** A number and what follows it are told apart. *)
Lemma str_Z_app_inj c n m s s' : is_digit c || (c =? 45)%Z = false -> str_Z n ++ c :: s = str_Z m ++ c :: s' -> n = m /\ s = s'.
Proof.
  intros Hc E. assert (Hspan : forall k r, span (fun c => is_digit c || (c =? 45)%Z) (str_Z k ++ c :: r) = (str_Z k, c :: r)).
  { intros k r. apply span_all; [apply str_Z_chars|]. cbn [starts]. done. }
  pose proof (f_equal (span (fun c => is_digit c || (c =? 45)%Z)) E) as H. rewrite !Hspan in H. injection H as H1 H2.
  split; [by apply str_Z_inj|done].
Qed.

Lemma reports_functional t r r' : reports t r -> reports t r' -> r = r'.
Proof.
  intros H H'. assert (Hgen : forall t r, reports t r -> forall t' r', reports t' r' -> t = t' -> r = r'); [|by eapply Hgen].
  clear. intros t r H t' r' H'.
  destruct H as [| | | |p|p s| |coll| | |n coll], H' as [| | | |p'|p' s'| |coll'| | |n' coll']; intros E;
    try reflexivity; try (apply (f_equal (take 5)) in E; vm_compute in E; discriminate).
  - apply app_inv_head, (str_Z_app_inj 41) in E as [-> _]; done.
  - apply app_inv_head, (str_Z_app_inj 44) in E as [-> E]; [|done]. apply (str_Z_app_inj 41) in E as [-> _]; done.
  - by apply app_inv_head in E as ->.
  - apply app_inv_head in E. change (u ") CHARACTER SET utf8mb4 COLLATE ") with (41%Z :: u " CHARACTER SET utf8mb4 COLLATE ") in E.
    apply (str_Z_app_inj 41) in E as [-> E]; [|done]. by apply app_inv_head in E as ->.
Qed.

(** ** Columns *)

Section columns.
Context `{U : unicode} `{!ascii_laws U} `{L : lowercase} `{!lower_laws L}.

Lemma py_int_cell n : optional_int (int_cell n) = Ok n.
Proof using Type. by destruct n. Qed.

(** What is asked of a column besides its storage. *)
Definition clock_column (c : column) : Prop := co_server_default c = Some CurrentTimestamp -> co_instant c = true.

Lemma literal_cataloged v t : value_ok v = true -> bare_default BMariadb v = Ok t -> catalog_literal true t = Some v.
Proof using ascii_laws0.
  intros Hv Ht. unfold catalog_literal. change true with (is_mariadb BMariadb).
  by destruct (default_recognized BMariadb v t Hv Ht) as [-> _].
Qed.

(** The default of the live column. *)
Lemma default_as_reported p c d live e : mariadb_storage (storage_of c) -> clock_column c -> default_reported c d ->
  mariadb_expected_column_shape p = Ok e -> pc_column p = c ->
  cl_nullable live = negb (mariadb_requires_not_null c) ->
  cl_server_default live = mariadb_normalize_server_default
    (if bool_decide (CText (if mariadb_requires_not_null c then u "NO" else u "YES") = CText (u "YES") /\ d = CText SQL_NULL)
     then CNull else d) ->
  default_agrees e live.
Proof using All.
  intros Hst Hclock Hd He Hc Hnull Hlive. unfold mariadb_expected_column_shape in He. cbv zeta in He. rewrite Hc in He.
  bind_inv He as data_type Hdt. bind_inv He as sd Hsd. apply Ok_inj in He; subst e. unfold default_agrees. cbn [cl_server_default].
  rewrite Hlive, Hnull. destruct Hd as [Hnone Hn|Hnone Hn|q Hs Ht Hq|Hs Ht|v t Hs Hv Hok Ht|v t Hs Hv Hcat Hnorm Hne].
  - rewrite Hn, bool_decide_eq_true_2 by done. destruct Hnone as [Hnone|Hnone]; rewrite Hnone in Hsd; apply Ok_inj in Hsd; subst sd; [done|].
    done.
  - rewrite Hnone in Hsd. apply Ok_inj in Hsd; subst sd. by rewrite bool_decide_eq_false_2 by naive_solver.
  - rewrite Hs in Hsd. unfold mariadb_current_timestamp_sql in Hsd. rewrite (Hclock Hs) in Hsd. cbn [guardR mbind res_bind] in Hsd.
    rewrite Ht, Hq in Hsd. cbn [String.eqb Ascii.eqb Bool.eqb str_length] in Hsd. apply Ok_inj in Hsd; subst sd.
    assert (Hr : (0 <= q < 7)%Z).
    { unfold storage_of in Hst. rewrite Ht, Hq in Hst. inversion Hst. lia. }
    rewrite bool_decide_eq_false_2 by (intros [_ H]; apply (f_equal (fun x => head (py_str x))) in H; vm_compute in H; discriminate). by rewrite clock_normal.
  - rewrite Hs in Hsd. unfold mariadb_current_timestamp_sql in Hsd. rewrite (Hclock Hs) in Hsd. cbn [guardR mbind res_bind] in Hsd.
    apply String.eqb_neq in Ht. rewrite Ht in Hsd. apply Ok_inj in Hsd; subst sd.
    rewrite bool_decide_eq_false_2 by (intros [_ H]; apply (f_equal (fun x => head (py_str x))) in H; vm_compute in H; discriminate). by rewrite text_clock_reads.
  - rewrite Hs in Hsd. apply Ok_inj in Hsd; subst sd.
    destruct (literal_normal v t Hok Hv Ht) as [Hnorm Hne].
    pose proof (literal_cataloged v t Hok Ht) as Hcat.
    case_bool_decide as Hnl.
    + destruct Hnl as [_ Hnl]. injection Hnl as ->. exfalso. clear -Hcat Hv ascii_laws0.
      pose proof (literal_cataloged VNone SQL_NULL eq_refl eq_refl) as Hnull.
      rewrite Hnull in Hcat. congruence.
    + rewrite Hnorm. unfold compare_literal_default. rewrite bool_decide_eq_false_2 by done. cbn [is_mariadb]. rewrite Hcat.
      by rewrite bool_decide_eq_true_2.
  - rewrite Hs in Hsd. apply Ok_inj in Hsd; subst sd. case_bool_decide as Hnl.
    + destruct Hnl as [_ Hnl]. injection Hnl as ->. exfalso. clear -Hcat ascii_laws0.
      pose proof (literal_cataloged VNone SQL_NULL eq_refl eq_refl) as Hnull.
      by rewrite Hnull in Hcat.
    + rewrite Hnorm. unfold compare_literal_default. rewrite bool_decide_eq_false_2 by done. cbn [is_mariadb]. by rewrite Hcat.
Qed.

(** The elements of a concrete list, one by one. *)
Ltac one_by_one H := cbn [map] in H; repeat (apply elem_of_cons in H as [->|H]); try by apply elem_of_nil in H.
(** A report says of a column what its model expects. *)
Definition collation_read (r : type_report) : option utext :=
  if bool_decide (tr_data_type r ∈ map u ["varchar"; "longtext"]%string) && py_truth (text_cell (tr_collation r))
  then Some (py_str (text_cell (tr_collation r))) else None.
Definition unsigned_read (r : type_report) : option bool :=
  if bool_decide (tr_data_type r ∈ map u ["bigint"; "decimal"; "double"; "tinyint"]%string)
  then Some (ends_with (u " unsigned") (lower_text (tr_column_type r))) else None.
Record report_fits (c : column) (r : type_report) : Prop := ReportFits {
  rf_data_type : column_data_type c = Ok (tr_data_type r);
  rf_storage : format_storage_type (tr_data_type r) (column_max_length c) (column_numeric_precision c) (column_numeric_scale c)
    = format_storage_type (tr_data_type r) (tr_max_length r) (tr_precision r) (tr_scale r);
  rf_json : co_storage_type_name c = "Json"%string -> format_storage_type (tr_data_type r) (tr_max_length r) (tr_precision r) (tr_scale r) = u "longtext"
    /\ column_collation c = None;
  rf_collation : co_storage_type_name c <> "Json"%string -> collation_read r = column_collation c;
  rf_datetime : tr_datetime r = co_datetime_precision c;
  rf_unsigned : unsigned_read r = column_unsigned c }.

Lemma lower_decimal p s : ends_with (u " unsigned") (lower_text (u "decimal(" ++ str_Z p ++ u "," ++ str_Z s ++ u ")")) = false.
Proof using lower_laws0.
  assert (Ha : forall n, ascii_only (str_Z n) = true).
  { intros n. unfold ascii_only. pose proof (str_Z_chars n) as H. rewrite forallb_forall in H |- *. intros c Hc. specialize (H c Hc).
    unfold in_range. apply orb_true_iff in H as [H|H]; [apply digit_range in H|apply Z.eqb_eq in H]; rewrite andb_true_iff, !Z.leb_le; lia. }
  rewrite lower_law.
  2: { unfold ascii_only. rewrite !forallb_app. change (forallb (in_range 0 127) ?x) with (ascii_only x). by rewrite !Ha. }
  set (body := u "decimal(" ++ str_Z p ++ u "," ++ str_Z s). replace (u "decimal(" ++ str_Z p ++ u "," ++ str_Z s ++ u ")") with (body ++ u ")")
    by (unfold body; by rewrite <- !app_assoc).
  assert (Hs : ascii_lower (body ++ u ")") = ascii_lower body ++ [41%Z]) by (unfold ascii_lower; by rewrite map_app).
  rewrite Hs. unfold ends_with. apply bool_decide_eq_false. intros E. apply (f_equal last) in E. rewrite drop_app_le in E.
  - rewrite last_snoc in E. discriminate.
  - rewrite length_app. simpl. lia.
Qed.

Ltac fits Hlow := split; try done; unfold unsigned_read; cbn [tr_data_type tr_column_type];
  rewrite bool_decide_eq_true_2 by set_solver; rewrite Hlow by reflexivity; reflexivity.

Lemma storage_reports c text : mariadb_storage (storage_of c) -> compile_column_type c = Ok text ->
  exists r, reports text r /\ report_fits c r.
Proof using All.
  intros Hst Ht. destruct c as [id name owner sc st coll len dp ds dtp nullable pk unique ix auto keyable instant sd target od ou].
  unfold storage_of in Hst. cbn in Hst.
  assert (Hlow : forall s, ascii_only s = true -> ends_with (u " unsigned") (ascii_lower s) = false -> ends_with (u " unsigned") (lower_text s) = false)
    by (intros s Ha He; by rewrite lower_law).
  inversion Hst as [| | | | | | |coll' n Hc Hn|coll' Hc|p s Hp Hs|p Hp]; subst; clear Hst; apply Ok_inj in Ht; subst text.
  - exists (TypeReport (u "bigint") (u "bigint(20)") None (Some 19%Z) (Some 0%Z) None None). split; [constructor|]. fits Hlow.
  - eexists. split; [apply reports_double|]. fits Hlow.
  - eexists. split; [apply reports_blob|]. fits Hlow.
  - eexists. split; [apply reports_json|]. fits Hlow.
  - eexists. split; [apply reports_boolean|]. fits Hlow.
  - eexists. split; [apply reports_date|]. fits Hlow.
  - eexists. split; [apply reports_uuid|]. fits Hlow.
  - assert (Hcoll : exists x s, coll' = x :: s) by (clear -Hc; unfold MARIADB_COLLATIONS in Hc; one_by_one Hc; by do 2 eexists).
    destruct Hcoll as (x & s & ->). eexists. split; [unfold text_type; cbn; rewrite <- !app_assoc; apply (reports_varchar n (x :: s))|]. fits Hlow.
  - assert (Hcoll : exists x s, coll' = x :: s) by (clear -Hc; unfold MARIADB_COLLATIONS in Hc; one_by_one Hc; by do 2 eexists).
    destruct Hcoll as (x & s & ->). eexists. split; [apply (reports_longtext (x :: s))|]. fits Hlow.
  - eexists. split; [apply (reports_decimal p s)|]. split; try done.
    unfold unsigned_read. cbn [tr_data_type tr_column_type]. rewrite bool_decide_eq_true_2 by set_solver. by rewrite lower_decimal.
  - eexists. split; [apply (reports_datetime p)|]. fits Hlow.
Qed.

Lemma type_compiles c : mariadb_storage (storage_of c) -> is_ok (compile_column_type c) = true.
Proof using Type.
  destruct c. unfold storage_of. cbn. intros H. by inversion H; subst.
Qed.

(** Columns whose model and catalog are as documented. *)
Record mariadb_column (p : planned_model) (c : planned_column) : Prop := MariadbColumn {
  mc_in : c ∈ pm_columns p;
  mc_storage : mariadb_storage (storage_of (pc_column c));
  mc_clock : clock_column (pc_column c);
  mc_plain : ~ promoted p (pc_name c) }.

Lemma json_name p c : NoDup (map pc_name (pm_columns p)) -> c ∈ pm_columns p ->
  pc_name c ∈ map pc_name (filter (fun c => is_json c = true) (pm_columns p)) <-> is_json c = true.
Proof using Type.
  intros Hnd Hc. split.
  - intros (c' & Hn & Hc')%list_elem_of_fmap. apply list_elem_of_filter in Hc' as [Hj Hc'].
    apply list_elem_of_lookup in Hc as [i Hi], Hc' as [j Hj'].
    assert (i = j) as ->; [|congruence]. eapply NoDup_lookup; [exact Hnd|by rewrite list_lookup_fmap, Hi|by rewrite list_lookup_fmap, Hj', Hn].
  - intros Hj. apply list_elem_of_fmap. exists c. split; [done|]. by apply list_elem_of_filter.
Qed.

Lemma column_as_reported p c row : NoDup (map pc_name (pm_columns p)) -> mariadb_column p c -> column_reported p c row ->
  exists e live, mariadb_expected_column_shape c = Ok e /\ mariadb_live_column row = Ok (pm_table_name p, live) /\
    cl_name e = pc_name c /\ cl_name (json_column p live) = cl_name e /\ column_agrees e (json_column p live).
Proof using All.
  intros Hnd [Hc Hst Hclock Hplain] (text & r & key & d & Ht & Hr & Hkey & Hd & ->).
  destruct (storage_reports _ _ Hst Ht) as (r' & Hr' & [Fdata Fst Fjson Fcoll Fdt Funs]).
  assert (r' = r) as -> by (by eapply reports_functional).
  assert (He : exists e, mariadb_expected_column_shape c = Ok e).
  { unfold mariadb_expected_column_shape. cbv zeta. rewrite Fdata. cbn [mbind res_bind].
    destruct (co_server_default (pc_column c)) as [[|v]|] eqn:Es; [|by eexists..].
    unfold mariadb_current_timestamp_sql. rewrite (Hclock Es). by eexists. }
  destruct He as [e He].
  set (default_ := if bool_decide (CText (if mariadb_requires_not_null (pc_column c) then u "NO" else u "YES") = CText (u "YES") /\ d = CText SQL_NULL)
                   then CNull else d).
  set (nullable := negb (mariadb_requires_not_null (pc_column c))).
  set (live := ColumnShape (pc_name c) (format_storage_type (tr_data_type r) (tr_max_length r) (tr_precision r) (tr_scale r))
                 nullable (co_primary_key (pc_column c)) (co_auto_increment (pc_column c))
                 (mariadb_normalize_server_default default_) (collation_read r) (tr_datetime r) (unsigned_read r)).
  assert (Hlive : mariadb_live_column (reported_row (pm_table_name p) c r key d) = Ok (pm_table_name p, live)).
  { unfold mariadb_live_column, reported_row. rewrite !py_int_cell. cbn [mbind res_bind py_str]. f_equal. f_equal.
    unfold live, nullable. f_equal; try done.
    - by destruct (mariadb_requires_not_null _).
    - unfold key_reported in Hkey. destruct (co_primary_key _); [subst key; by rewrite bool_decide_eq_true_2|].
      destruct Hkey as [Hkey|Hkey]; [|by destruct (Hplain Hkey)]. apply bool_decide_eq_false. intros E. by apply Hkey, (f_equal py_str E).
    - by destruct (co_auto_increment _). }
  assert (Hdef : default_agrees e live) by (by eapply default_as_reported).
  pose proof He as Hexp. unfold mariadb_expected_column_shape in He. cbv zeta in He. rewrite Fdata in He. cbn [mbind res_bind] in He.
  bind_inv He as sd Hsd. apply Ok_inj in He. exists e, live. split_and!; [done|done|by rewrite <- He| |].
  { rewrite <- He. unfold json_column. by destruct (_ && _). }
  unfold json_column. cbn [cl_name cl_storage_type live].
  destruct (decide (co_storage_type_name (pc_column c) = "Json"%string)) as [Hj|Hj].
  - destruct (Fjson Hj) as [Hlong Hnone]. rewrite bool_decide_eq_true_2.
    + rewrite bool_decide_eq_true_2 by done. cbn [andb]. rewrite <- He. unfold column_agrees, without_collation, live.
      cbn [cl_storage_type cl_nullable cl_primary_key cl_auto_increment cl_server_default cl_collation cl_datetime_precision cl_unsigned].
      refine (conj _ (conj _ (conj _ (conj _ (conj _ (conj _ (conj _ _))))))); [done|done|done|done|rewrite He; exact Hdef|done|by rewrite Fdt|by rewrite Funs].
    + apply json_name; [done|done|]. unfold is_json. rewrite Hj. done.
  - rewrite bool_decide_eq_false_2.
    + cbn [andb]. rewrite <- He. unfold column_agrees, live.
      cbn [cl_storage_type cl_nullable cl_primary_key cl_auto_increment cl_server_default cl_collation cl_datetime_precision cl_unsigned].
      refine (conj _ (conj _ (conj _ (conj _ (conj _ (conj _ (conj _ _))))))); [done|done|done|done|rewrite He; exact Hdef|by rewrite Fcoll|by rewrite Fdt|by rewrite Funs].
    + rewrite json_name by done. unfold is_json. rewrite String.eqb_eq. done.
Qed.
End columns.
