(* ===== verification/MariadbTables.v ===== *)
(** * A scaffolded MariaDB table agrees with its model

    The entries that the five queries are collected in, table by table, and the
    agreement of the shape they give with the expected one. *)

From S2P Require Export MariadbReading.

(** ** Collecting entries *)

Section entries.
Context {V : Type}.
Definition entries_of (k : utext) (entries : list (utext * V)) : list V := map snd (filter (fun e => e.1 = k) entries).

Lemma group_entries_from entries : forall d k, default [] (dict_get k (foldl append_to d entries))
  = default [] (dict_get k d) ++ entries_of k entries.
Proof using Type.
  unfold entries_of. induction entries as [|[k' v] entries IH]; intros d k; [by rewrite app_nil_r|]. cbn [foldl]. rewrite IH.
  unfold append_to. cbn [fst snd]. rewrite dict_get_set. destruct (decide (k' = k)) as [->|Hne].
  - rewrite filter_cons_True by done. cbn [default from_option id map snd]. by rewrite <- app_assoc.
  - by rewrite filter_cons_False by done.
Qed.
Lemma group_entries_get entries k : default [] (dict_get k (group_entries entries)) = entries_of k entries.
Proof using Type. apply (group_entries_from entries []). Qed.

Lemma entries_of_app k l l' : entries_of k (l ++ l') = entries_of k l ++ entries_of k l'.
Proof using Type. unfold entries_of. by rewrite filter_app, map_app. Qed.
Lemma entries_of_perm k l l' : l ≡ₚ l' -> entries_of k l ≡ₚ entries_of k l'.
Proof using Type. unfold entries_of. by intros ->. Qed.
Lemma entries_of_same k (l : list V) : entries_of k (map (pair k) l) = l.
Proof using Type.
  unfold entries_of. induction l as [|x l IH]; [done|]. cbn [map]. rewrite filter_cons_True by done. cbn [map snd]. by rewrite IH.
Qed.
Lemma entries_of_none k l : (forall e, e ∈ l -> e.1 <> k) -> entries_of k l = [].
Proof using Type.
  unfold entries_of. induction l as [|e l IH]; [done|]. intros H. rewrite filter_cons_False by (apply H; left).
  apply IH. intros x Hx. apply H. by right.
Qed.

(** One table of several. *)
Lemma entries_of_tables {A} (key : A -> utext) (f : A -> list V) l x : NoDup (map key l) -> x ∈ l ->
  entries_of (key x) (flat_map (fun y => map (pair (key y)) (f y)) l) = f x.
Proof using Type.
  intros Hnd Hx. induction l as [|y l IH]; [by apply elem_of_nil in Hx|]. cbn [map] in Hnd. apply NoDup_cons in Hnd as [Hy Hnd].
  cbn [flat_map]. rewrite entries_of_app. apply elem_of_cons in Hx as [->|Hx].
  - rewrite entries_of_same, entries_of_none; [by rewrite app_nil_r|].
    intros e He Hk. apply Hy. apply list_elem_of_In, in_flat_map in He as (z & Hz & He). apply list_elem_of_In in Hz, He.
    apply list_elem_of_fmap in He as (v & -> & _). cbn in Hk. rewrite <- Hk. by apply list_elem_of_fmap_2.
  - rewrite IH by done. rewrite entries_of_none; [done|].
    intros e He Hk. apply list_elem_of_fmap in He as (v & -> & _). cbn in Hk. apply Hy. rewrite Hk. by apply list_elem_of_fmap_2.
Qed.

Lemma entries_of_groups {A} (key : A -> utext) (vs : list (list V)) l x k : NoDup (map key l) -> l !! k = Some x ->
  length l = length vs ->
  entries_of (key x) (concat (zip_with (fun y v => map (pair (key y)) v) l vs)) = default [] (vs !! k).
Proof using Type.
  revert vs k. induction l as [|y l IH]; intros vs k Hnd Hk Hlen; [done|]. destruct vs as [|v vs]; [done|]. cbn [map] in Hnd.
  apply NoDup_cons in Hnd as [Hy Hnd]. cbn [zip_with concat]. rewrite entries_of_app. destruct k as [|k].
  - injection Hk as ->. rewrite entries_of_same. cbn [lookup list_lookup default from_option id]. rewrite entries_of_none; [by rewrite app_nil_r|].
    intros e He Hkey. apply Hy. apply list_elem_of_In, in_concat in He as (es & Hes & He). apply list_elem_of_In in Hes, He.
    apply list_elem_of_lookup in Hes as [i Hi]. rewrite lookup_zip_with in Hi. destruct (l !! i) as [z|] eqn:Hz; [|done].
    destruct (vs !! i); [|done]. injection Hi as <-. apply list_elem_of_fmap in He as (w & -> & _). cbn in Hkey.
    rewrite <- Hkey. apply list_elem_of_fmap_2. by eapply list_elem_of_lookup_2.
  - cbn in Hk. rewrite entries_of_none.
    + cbn [app]. change ((v :: vs) !! S k) with (vs !! k). apply IH; [done|exact Hk|by injection Hlen].
    + intros e He Hkey. apply list_elem_of_fmap in He as (w & -> & _). cbn in Hkey. apply Hy. rewrite Hkey.
      apply list_elem_of_fmap_2. by eapply list_elem_of_lookup_2.
Qed.

(** Objects collected under a key of their own. *)
Lemma entries_of_key {A} (key : A -> utext) (f : A -> V) k l :
  entries_of k (map (fun x => (key x, f x)) l) = map f (filter (fun x => key x = k) l).
Proof using Type.
  unfold entries_of. induction l as [|x l IH]; [done|]. cbn [map]. destruct (decide (key x = k)).
  - rewrite !filter_cons_True by done. cbn [map snd]. by rewrite IH.
  - rewrite !filter_cons_False by done. exact IH.
Qed.
Lemma entries_of_lists {A} (key : A -> utext) (f : A -> list V) k l :
  entries_of k (flat_map (fun x => map (pair (key x)) (f x)) l) = concat (map f (filter (fun x => key x = k) l)).
Proof using Type.
  induction l as [|x l IH]; [done|]. cbn [flat_map]. rewrite entries_of_app, IH. destruct (decide (key x = k)) as [<-|Hne].
  - rewrite filter_cons_True by done. by rewrite entries_of_same.
  - rewrite filter_cons_False by done. rewrite entries_of_none; [done|]. intros e He. by apply list_elem_of_fmap in He as (v & -> & _).
Qed.
End entries.

(** ** Foreign keys *)

Section keys.
Definition live_key_shapes (k : live_key) : list foreign_key_shape :=
  imap (fun position names =>
    ForeignKeyShape names.1 (pf_target_table (lk_key k)) names.2 (normalize_action_text (lk_delete k))
      (normalize_action_text (lk_update k)) (Some (lk_constraint k)) (1 + Z.of_nat position))
    (zip (pf_column_names (lk_key k)) (pf_target_columns (lk_key k))).

Definition key_fits (f : planned_foreign_key) : Prop :=
  length (pf_column_names f) = length (pf_target_columns f) /\ pf_column_names f <> [].

Lemma live_key_group k : key_fits (lk_key k) -> key_group (lk_constraint k) (live_key_shapes k).
Proof.
  intros [Hl Hne]. unfold live_key_shapes. split_and!.
  - by destruct (pf_column_names _), (pf_target_columns _).
  - apply Forall_lookup. intros i g Hg. rewrite list_lookup_imap in Hg. destruct (zip _ _ !! i); [|done]. by injection Hg as <-.
  - by apply (sorted_positions 1).
Qed.

(** The rules that MariaDB reports normalize like the declared actions. *)
Lemma rule_normal a rule : rule_reported a rule -> normalize_action_text rule = mariadb_normalize_foreign_key_action a.
Proof. destruct a as [[]|]; cbn; [by intros ->|intros [-> | ->]; done|by intros ->|intros [-> | ->]; done..]. Qed.

(** What a comparison looks at in a group. *)
Definition expected_scalars (f : planned_foreign_key) : list (list utext) :=
  map (fun names => [names.1; pf_target_table f; names.2; mariadb_normalize_foreign_key_action (pf_on_delete f);
                     mariadb_normalize_foreign_key_action (pf_on_update f)]) (zip (pf_column_names f) (pf_target_columns f)).

Lemma imap_const {A B} (f : A -> B) l : imap (fun _ => f) l = map f l.
Proof. induction l as [|x l IH]; [done|]. rewrite imap_cons. cbn [map]. f_equal. exact IH. Qed.

Lemma live_scalars k : rule_reported (pf_on_update (lk_key k)) (lk_update k) -> rule_reported (pf_on_delete (lk_key k)) (lk_delete k) ->
  map foreign_key_scalar (live_key_shapes k) = expected_scalars (lk_key k).
Proof.
  intros Hu Hd. apply rule_normal in Hu, Hd. unfold live_key_shapes, expected_scalars. rewrite Hu, Hd.
  rewrite fmap_imap, <- imap_const. by apply imap_ext.
Qed.

Lemma zip_strict_fits {A B} (l : list A) (l' : list B) : length l = length l' -> zip_strict l l' = Ok (zip l l').
Proof. intros H. unfold zip_strict. by rewrite H, Nat.eqb_refl. Qed.
End keys.

Section expected.
Context `{U : unicode} `{L : lowercase}.

Definition expected_key_shapes (x : nat * planned_foreign_key) : list foreign_key_shape :=
  imap (fun position names =>
    ForeignKeyShape names.1 (pf_target_table x.2) names.2 (mariadb_normalize_foreign_key_action (pf_on_delete x.2))
      (mariadb_normalize_foreign_key_action (pf_on_update x.2)) (Some (str_nonneg (Z.of_nat x.1))) (Z.of_nat position))
    (zip (pf_column_names x.2) (pf_target_columns x.2)).

Lemma expected_keys fs : Forall key_fits fs ->
  mapR (fun x => expected_foreign_key MARIADB_SCHEMA_DIALECT x.1 x.2) (imap pair fs) = Ok (map expected_key_shapes (imap pair fs)).
Proof using Type.
  intros Hfs. apply mapR_Ok. rewrite Forall2_fmap_r. apply Forall_Forall2_diag, Forall_forall. intros x Hx.
  apply elem_of_lookup_imap in Hx as (i & f & -> & Hf). apply list_elem_of_lookup_2 in Hf. rewrite Forall_forall in Hfs. destruct (Hfs f Hf) as [Hl _].
  unfold expected_foreign_key. cbn [fst snd]. rewrite zip_strict_fits by done. done.
Qed.

Lemma expected_groups fs : Forall key_fits fs ->
  foreign_key_groups (concat (map expected_key_shapes (imap pair fs))) = map expected_scalars fs.
Proof using Type.
  intros Hfs. unfold foreign_key_groups.
  rewrite (group_foreign_keys_read (map (fun x => str_nonneg (Z.of_nat x.1)) (imap pair fs))).
  - rewrite map_map, fmap_imap, <- (imap_const expected_scalars). apply imap_ext.
    intros i f _. cbn. unfold expected_key_shapes, expected_scalars. rewrite fmap_imap, <- imap_const. by apply imap_ext.
  - apply NoDup_alt. intros i j x. rewrite !list_lookup_fmap, !list_lookup_imap.
    destruct (fs !! i); [|done]. destruct (fs !! j); [|done]. cbn. intros [= <-] [= H]. apply str_nonneg_inj in H; lia.
  - rewrite Forall2_fmap. apply Forall_Forall2_diag, Forall_forall. intros x Hx.
    apply elem_of_lookup_imap in Hx as (i & f & -> & Hf). apply list_elem_of_lookup_2 in Hf. rewrite Forall_forall in Hfs. destruct (Hfs f Hf) as [Hl Hne].
    unfold expected_key_shapes. cbn [fst snd]. split_and!.
    + by destruct (pf_column_names _), (pf_target_columns _).
    + apply Forall_lookup. intros k g Hg. rewrite list_lookup_imap in Hg. destruct (zip _ _ !! k); [|done]. by injection Hg as <-.
    + by apply (sorted_positions 0).
Qed.
End expected.

(** ** Indexes *)

Section indexes.
Context `{U : unicode} `{!ascii_laws U}.

Definition index_entry (i : live_index) (part : utext * option Z) : (utext * utext) * index_part_row :=
  (li_key i, IndexPartRow part.1 part.2 BTREE (li_unique i)).
Definition group_of (i : live_index) : (utext * utext) * index_group :=
  (li_key i, (map fst (li_parts i), map snd (li_parts i), BTREE, li_unique i)).
Definition live_index_shape (i : live_index) : index_shape :=
  IndexShape (li_name i) (map fst (li_parts i)) (li_unique i) None (Some (map snd (li_parts i))) (Some BTREE) None.

Lemma statistics_read indexes : mapR statistics_row (flat_map statistics_rows indexes)
  = Ok (flat_map (fun i => map (index_entry i) (li_parts i)) indexes).
Proof using All.
  rewrite !flat_map_concat_map. apply mapR_concat. rewrite Forall2_fmap. apply Forall_Forall2_diag, Forall_forall. intros i _.
  unfold statistics_rows. apply mapR_imap. intros k part _. unfold statistics_row. rewrite py_int_cell. cbn [mbind res_bind py_str].
  unfold index_entry, li_key. rewrite upper_ascii by done. f_equal. f_equal. f_equal. by destruct (li_unique i).
Qed.

Lemma add_more_parts i parts : forall d cs ps, li_key i ∉ map fst d ->
  foldl add_index_part (d ++ [(li_key i, (cs, ps, BTREE, li_unique i))]) (map (index_entry i) parts)
  = d ++ [(li_key i, (cs ++ map fst parts, ps ++ map snd parts, BTREE, li_unique i))].
Proof using Type.
  induction parts as [|[c q] parts IH]; intros d cs ps Hd; [by rewrite !app_nil_r|]. cbn [map foldl].
  unfold add_index_part at 2. cbn [index_entry fst snd ip_column ip_prefix ip_type ip_unique].
  rewrite dict_get_snoc, dict_set_snoc, IH by done. by rewrite <- !app_assoc.
Qed.

Lemma add_parts d i : li_key i ∉ map fst d -> li_parts i <> [] ->
  foldl add_index_part d (map (index_entry i) (li_parts i)) = d ++ [group_of i].
Proof using Type.
  intros Hd Hne. unfold group_of. destruct (li_parts i) as [|[c q] parts]; [done|]. cbn [map foldl].
  unfold add_index_part at 2. cbn [index_entry fst snd ip_column ip_prefix ip_type ip_unique].
  rewrite (proj2 (dict_get_None _ _)), dict_set_new, add_more_parts by done. done.
Qed.

Lemma add_groups indexes : forall d, NoDup (map li_key indexes) -> Forall (fun i => li_parts i <> []) indexes ->
  (forall i, i ∈ indexes -> li_key i ∉ map fst d) ->
  foldl add_index_part d (flat_map (fun i => map (index_entry i) (li_parts i)) indexes) = d ++ map group_of indexes.
Proof using Type.
  induction indexes as [|i indexes IH]; intros d Hnd Hne Hd; [by rewrite app_nil_r|]. cbn [map] in Hnd.
  apply NoDup_cons in Hnd as [Hi Hnd]. apply Forall_cons in Hne as [Hnei Hne]. cbn [flat_map map].
  rewrite foldl_app, add_parts by (done || (apply Hd; left)). rewrite IH; [by rewrite <- app_assoc|done|done|].
  intros j Hj. rewrite map_app, not_elem_of_app. split; [apply Hd; by right|]. cbn [map fst group_of].
  rewrite list_elem_of_singleton. intros Hk. apply Hi. rewrite <- Hk. by apply list_elem_of_fmap_2.
Qed.

Lemma index_shapes_read indexes : NoDup (map li_key indexes) -> Forall (fun i => li_parts i <> []) indexes ->
  exists shapes, mariadb_index_shapes (flat_map statistics_rows indexes) = Ok shapes /\
  forall table, default [] (dict_get table shapes) = map live_index_shape (filter (fun i => li_table i = table) indexes).
Proof using All.
  intros Hnd Hne. unfold mariadb_index_shapes. rewrite statistics_read. cbn [mbind res_bind]. eexists. split; [done|].
  intros table. rewrite group_entries_get, add_groups; [|done|done|intros i _; apply not_elem_of_nil]. cbn [app]. clear Hnd Hne.
  unfold entries_of. induction indexes as [|i indexes IH]; [done|]. cbn [map].
  destruct (decide (li_table i = table)) as [Ht|Ht].
  - rewrite !filter_cons_True by done. cbn [map]. by rewrite IH.
  - rewrite !filter_cons_False by done. exact IH.
Qed.
End indexes.
