(* ===== verification/MariadbScaffold.v ===== *)
(** * A scaffolded MariaDB database verifies

    Verification of the tables a plan describes, on a server that reports the tables
    of the scaffold as documented: no drift, under every schema policy. *)

From S2P Require Export QuietRuns MariadbTables.

(** What is asked of a planned table: the columns of MariaDB's constructors, indexes
    of [Index], and no unique index that MariaDB would show as a primary key. *)
Record mariadb_table (p : planned_model) : Prop := MariadbTable {
  mt_backend : tm_backend (pm_model p) = BMariadb;
  mt_columns : forall c, c ∈ pm_columns p -> mariadb_storage (storage_of (pc_column c)) /\ clock_column (pc_column c);
  mt_defaults : forall c v, c ∈ pm_columns p -> co_server_default (pc_column c) = Some (LiteralDefault v) -> value_ok v = true;
  mt_names : NoDup (map pc_name (pm_columns p));
  mt_indexes : forall i, i ∈ pm_indexes p ->
    ni_column_names i <> [] /\ length (index_prefixes i) = length (ni_column_names i);
  mt_key : forall name, ~ promoted p name }.

(** What planning and declaring give. *)
Record table_facts (p : planned_model) : Prop := TableFacts {
  tf_checks : NoDup (map bc_name (pm_checks p));
  tf_declarable : forall c, c ∈ pm_checks p -> declarable (bc_expression c) = true;
  tf_indexes : NoDup (map ni_name (pm_indexes p));
  tf_index_columns : forall i n, i ∈ pm_indexes p -> n ∈ ni_column_names i -> n ∈ map pc_name (pm_columns p);
  tf_where : forall i, i ∈ pm_indexes p -> ni_where i = None;
  tf_foreign_keys : Forall key_fits (pm_foreign_keys p) }.

Lemma filter_kept {A} (P : A -> Prop) `{!forall x, Decision (P x)} l : Forall P l -> filter P l = l.
Proof. induction 1 as [|x l Hx _ IH]; [done|]. by rewrite filter_cons_True, IH. Qed.
Lemma filter_dropped {A} (P : A -> Prop) `{!forall x, Decision (P x)} l : Forall (fun x => ~ P x) l -> filter P l = [].
Proof. induction 1 as [|x l Hx _ IH]; [done|]. by rewrite filter_cons_False. Qed.

Section tables.
Context `{U : unicode} `{!ascii_laws U} `{L : lowercase} `{!lower_laws L}.

(** ** What a model expects *)

Lemma capacity p c : NoDup (map pc_name (pm_columns p)) -> c ∈ pm_columns p ->
  dict_get (pc_name c) (column_capacities p) = Some (co_text_length (pc_column c)).
Proof using Type.
  intros Hnd Hc. unfold column_capacities. eapply dict_of_entries_perm; [reflexivity|by rewrite map_map|].
  apply list_elem_of_fmap. by exists c.
Qed.

Lemma spans_capacity p c n : NoDup (map pc_name (pm_columns p)) -> c ∈ pm_columns p ->
  mariadb_storage (storage_of (pc_column c)) ->
  spans p (pc_name c) n = bool_decide (co_text_length (pc_column c) = Some n).
Proof using Type.
  intros Hnd Hc Hst. unfold spans. apply eq_bool_prop_intro. rewrite !Is_true_true, bool_decide_eq_true. split.
  - intros (c' & Hin & H)%existsb_exists. rewrite !andb_true_iff, !bool_decide_eq_true in H. destruct H as [[Hn _] Hl].
    apply list_elem_of_In, list_elem_of_lookup in Hin as [i Hi]. apply list_elem_of_lookup in Hc as [j Hj].
    assert (i = j) as ->; [|congruence].
    eapply NoDup_lookup; [exact Hnd|by rewrite list_lookup_fmap, Hi|by rewrite list_lookup_fmap, Hj, Hn].
  - intros Hl. apply existsb_exists. exists c. split; [by apply list_elem_of_In|].
    rewrite !andb_true_iff, !bool_decide_eq_true. split_and!; [done| |done].
    unfold storage_of in Hst. rewrite Hl in Hst. inversion Hst. by apply String.eqb_eq.
Qed.

Lemma reported_index_spec p i : mariadb_table p -> table_facts p -> i ∈ pm_indexes p ->
  reported_index (column_capacities p) (mariadb_expected_index_shape i) = Ok (live_index_shape (declared_index p i)).
Proof using Type.
  intros Hp Hf Hi. destruct (mt_indexes p Hp i Hi) as [_ Hlen]. unfold reported_index, mariadb_expected_index_shape.
  cbn [ix_prefix_lengths ix_column_names ix_name ix_unique ix_partial ix_index_type ix_where].
  rewrite zip_strict_fits by done. cbn [mbind res_bind].
  assert (Hm : mapR (fun x => reported_prefix (column_capacities p) x.1 x.2) (zip (ni_column_names i) (index_prefixes i))
    = Ok (zip_with (sub_part p) (ni_column_names i) (index_prefixes i))).
  { apply mapR_Ok. assert (Hin : forall n, n ∈ ni_column_names i -> n ∈ map pc_name (pm_columns p)) by (intros n; by apply (tf_index_columns p Hf i)).
    clear -Hin Hlen Hp Hf. revert Hlen Hin. generalize (index_prefixes i) as ps. generalize (ni_column_names i) as ns.
    induction ns as [|n ns IH]; intros [|q ps] Hlen Hin; [constructor|done..|]. cbn [zip zip_with]. constructor.
    - destruct (proj1 (list_elem_of_fmap _ _ _) (Hin n ltac:(left))) as (c & -> & Hc). destruct (mt_columns p Hp c Hc) as [Hst _].
      unfold reported_prefix, sub_part. cbn [fst snd]. destruct q as [q|]; [|done].
      rewrite capacity by (done || apply Hp). by rewrite spans_capacity by (done || apply Hp).
    - apply IH; [by injection Hlen|]. intros m Hm. apply Hin. by right. }
  rewrite Hm. cbn [mbind res_bind]. unfold live_index_shape, declared_index. cbn [li_name li_unique li_parts]. f_equal. f_equal.
  - clear -Hlen. revert Hlen. generalize (index_prefixes i) as ps. generalize (ni_column_names i) as ns.
    induction ns as [|n ns IH]; intros [|q ps] Hlen; [done..|]. cbn [zip_with map fst]. f_equal. apply IH. by injection Hlen.
  - f_equal. generalize (index_prefixes i) as ps. generalize (ni_column_names i) as ns.
    induction ns as [|n ns IH]; intros [|q ps]; [done..|]. cbn [zip_with map snd]. f_equal. apply IH.
Qed.
(** ** The five queries *)

Lemma read_tables {V} (live : list cell -> res (utext * V)) (R : planned_model -> list (list cell) -> Prop)
    (Q : planned_model -> list V -> Prop) plan rows : NoDup (map pm_table_name plan) -> Forall2 R plan rows ->
  (forall p rs, p ∈ plan -> R p rs -> exists vs, mapR live rs = Ok (map (pair (pm_table_name p)) vs) /\ Q p vs) ->
  exists es, mapR live (concat rows) = Ok es /\ forall p, p ∈ plan -> Q p (entries_of (pm_table_name p) es).
Proof using Type.
  intros Hnd HF HR. assert (Hvs : exists vss, Forall2 (fun rs es => mapR live rs = Ok es) rows
      (zip_with (fun p vs => map (pair (pm_table_name p)) vs) plan vss) /\ Forall2 Q plan vss).
  { clear Hnd. induction HF as [|p rs plan rows Hr _ IH]; [exists []; by split|].
    destruct (HR p rs ltac:(left) Hr) as (vs & Hvs & Hq). destruct IH as (vss & H1 & H2).
    { intros q rs' Hq'. apply HR. by right. }
    exists (vs :: vss). split; [|by constructor]. cbn [zip_with]. by constructor. }
  destruct Hvs as (vss & Hlive & HQ). eexists. split; [by apply mapR_concat|]. intros p Hp.
  apply list_elem_of_lookup in Hp as [k Hk]. destruct (Forall2_lookup_l _ _ _ _ _ HQ Hk) as (vs & Hvs & Hq).
  erewrite entries_of_groups; [|exact Hnd|exact Hk|by eapply Forall2_length]. by rewrite Hvs.
Qed.

(** *** Columns *)

Definition columns_agree (p : planned_model) (shapes : list column_shape) : Prop :=
  exists es, mapR mariadb_expected_column_shape (pm_columns p) = Ok es /\ map cl_name es = map pc_name (pm_columns p) /\
    Forall2 (fun e live => cl_name (json_column p live) = cl_name e /\ column_agrees e (json_column p live)) es shapes.

Lemma columns_read p rows : mariadb_table p -> table_facts p -> Forall2 (column_reported p) (pm_columns p) rows ->
  exists shapes, mapR mariadb_live_column rows = Ok (map (pair (pm_table_name p)) shapes) /\ columns_agree p shapes.
Proof using All.
  intros Hp Hf HF. assert (Hin : forall c, c ∈ pm_columns p -> mariadb_column p c).
  { intros c Hc. destruct (mt_columns p Hp c Hc). split; try done. apply (mt_key p Hp). }
  pose proof (mt_names p Hp) as Hnd. unfold columns_agree. revert Hin HF. generalize (pm_columns p) as cs. intros cs Hin HF.
  assert (Hall : exists es shapes, Forall2 (fun c e => mariadb_expected_column_shape c = Ok e) cs es /\
    Forall2 (fun row live => mariadb_live_column row = Ok (pm_table_name p, live)) rows shapes /\ map cl_name es = map pc_name cs /\
    Forall2 (fun e live => cl_name (json_column p live) = cl_name e /\ column_agrees e (json_column p live)) es shapes).
  { induction HF as [|c row cs rows Hr _ IH]; [exists [], []; by split_and!|].
    destruct (column_as_reported p c row Hnd (Hin c ltac:(left)) Hr) as (e & live & He & Hl & Hn & Hnl & Ha).
    destruct IH as (es & shapes & H1 & H2 & H3 & H4); [intros c' Hc'; apply Hin; by right|].
    exists (e :: es), (live :: shapes). split_and!; [by constructor..|cbn [map]; congruence|by constructor]. }
  destruct Hall as (es & shapes & H1 & H2 & H3 & H4). exists shapes. split.
  - apply mapR_Ok. by rewrite Forall2_fmap_r.
  - exists es. split_and!; [by apply mapR_Ok|done|done].
Qed.

(** *** CHECKs *)

Definition checks_agree (p : planned_model) (found : list check_shape) : Prop :=
  forall c, c ∈ pm_checks p -> exists e, filter (fun x => cs_name x = Some (bc_name c)) found = [CheckShape (Some (bc_name c)) e] /\
    (e = None \/ e = Some (bc_expression c)).

Definition check_found (c : bound_check) (s : check_shape) : Prop :=
  exists e, s = CheckShape (Some (bc_name c)) e /\ (e = None \/ e = Some (bc_expression c)).

Lemma checks_read p rows : table_facts p -> Forall2 (check_reported p) (pm_checks p) rows ->
  exists shapes, mapR mariadb_live_check rows = Ok (map (pair (pm_table_name p)) shapes) /\ Forall2 check_found (pm_checks p) shapes.
Proof using All.
  intros Hf HF. pose proof (tf_declarable p Hf) as Hd. revert Hd HF. generalize (pm_checks p) as cs. intros cs Hd HF.
  induction HF as [|c row cs rows (clause & -> & Hclause) _ IH]; [exists []; by split|].
  destruct IH as (shapes & H1 & H2); [intros c' Hc'; apply Hd; by right|].
  assert (Hp : exists e, parse_check clause = Ok e /\ (e = None \/ e = Some (bc_expression c))).
  { destruct Hclause as [Hr|Hn]; [|by exists None; auto]. eexists. split; [apply mariadb_clause_reads; [apply Hd; left|done]|by right]. }
  destruct Hp as (e & Hp & He). exists (CheckShape (Some (bc_name c)) e :: shapes). split; [|constructor; [by exists e|done]].
  assert (Hrow : mariadb_live_check [CText (pm_table_name p); CText (bc_name c); CText clause]
    = Ok (pm_table_name p, CheckShape (Some (bc_name c)) e)) by (unfold mariadb_live_check; cbn [py_str]; by rewrite Hp).
  rewrite mapR_cons, Hrow. cbn [mbind res_bind]. by rewrite H1.
Qed.

Lemma check_filter (cs : list bound_check) (shapes : list check_shape) c : NoDup (map bc_name cs) -> Forall2 check_found cs shapes -> c ∈ cs ->
  exists e, filter (fun x => cs_name x = Some (bc_name c)) shapes = [CheckShape (Some (bc_name c)) e] /\
    (e = None \/ e = Some (bc_expression c)).
Proof using Type.
  intros Hnd HF Hc. induction HF as [|c' s cs shapes (e & -> & He) HF IH]; [by apply elem_of_nil in Hc|]. cbn [map] in Hnd.
  apply NoDup_cons in Hnd as [Hn Hnd]. apply elem_of_cons in Hc as [->|Hc].
  - rewrite filter_cons_True by done. exists e. split; [|done]. f_equal. clear -HF Hn.
    induction HF as [|c s cs shapes (e & -> & _) _ IH]; [done|]. cbn [map] in Hn. apply not_elem_of_cons in Hn as [Hne Hn].
    rewrite filter_cons_False; [by apply IH|]. cbn. congruence.
  - rewrite filter_cons_False; [by apply IH|]. cbn. intros [= Hk]. apply Hn. rewrite Hk. by apply list_elem_of_fmap_2.
Qed.

(** *** Indexes and foreign keys *)

Lemma live_key_columns k : key_fits (lk_key k) -> map fk_column_name (live_key_shapes k) = pf_column_names (lk_key k).
Proof using Type.
  intros [Hl _]. unfold live_key_shapes. rewrite fmap_imap. rewrite (imap_ext _ (fun _ => fst)) by done. rewrite imap_const.
  by apply fst_zip, Nat.eq_le_incl.
Qed.

(** The live keys of a table. *)
Record keys_of (p : planned_model) (ks : list live_key) : Prop := KeysOf {
  ko_keys : map lk_key ks ≡ₚ pm_foreign_keys p;
  ko_constraints : NoDup (map lk_constraint ks);
  ko_rules : Forall (fun k => rule_reported (pf_on_update (lk_key k)) (lk_update k) /\
                              rule_reported (pf_on_delete (lk_key k)) (lk_delete k)) ks }.

Lemma keys_fit p ks : table_facts p -> keys_of p ks -> Forall (fun k => key_fits (lk_key k)) ks.
Proof using Type.
  intros Hf Hk. apply Forall_forall. intros k Hin. pose proof (tf_foreign_keys p Hf) as Hall. rewrite Forall_forall in Hall.
  apply Hall. rewrite <- (ko_keys p ks Hk). by apply list_elem_of_fmap_2.
Qed.

Lemma live_groups p ks : table_facts p -> keys_of p ks -> group_foreign_keys (concat (map live_key_shapes ks)) = map live_key_shapes ks.
Proof using Type.
  intros Hf Hk. apply (group_foreign_keys_read (map lk_constraint ks)); [apply (ko_constraints p ks Hk)|].
  rewrite Forall2_fmap. apply Forall_Forall2_diag. eapply Forall_impl; [by apply (keys_fit p)|]. intros k. apply live_key_group.
Qed.

Lemma keys_agree p ks : table_facts p -> keys_of p ks ->
  foreign_key_groups (concat (map expected_key_shapes (imap pair (pm_foreign_keys p)))) ≡ₚ
    foreign_key_groups (concat (map live_key_shapes ks)).
Proof using Type.
  intros Hf Hk. rewrite expected_groups by apply (tf_foreign_keys p Hf). unfold foreign_key_groups. rewrite (live_groups p ks Hf Hk).
  rewrite map_map, <- (ko_keys p ks Hk), map_map. apply Permutation_refl'.
  apply list_fmap_ext. intros i k Hi. pose proof (ko_rules p ks Hk) as Hr. rewrite Forall_forall in Hr.
  symmetry. apply live_scalars; by apply Hr; eapply list_elem_of_lookup_2.
Qed.

Lemma supports p ks f i : table_facts p -> keys_of p ks -> f ∈ pm_foreign_keys p ->
  li_parts i = map (fun name => (name, None)) (pf_column_names f) ->
  existsb (fun columns => supports_foreign_key columns (live_index_shape i))
    (map (map fk_column_name) (group_foreign_keys (concat (map live_key_shapes ks)))) = true.
Proof using Type.
  intros Hf Hk Hin Hparts. rewrite (live_groups p ks Hf Hk). apply existsb_exists. exists (pf_column_names f). split.
  - apply list_elem_of_In. rewrite <- (ko_keys p ks Hk) in Hin. apply list_elem_of_fmap in Hin as (k & -> & Hkin).
    rewrite map_map. apply list_elem_of_fmap. exists k. split; [|done]. symmetry. apply live_key_columns.
    pose proof (keys_fit p ks Hf Hk) as Hfit. rewrite Forall_forall in Hfit. by apply Hfit.
  - unfold supports_foreign_key, live_index_shape. rewrite Hparts. cbn [ix_column_names ix_prefix_lengths ix_index_type].
    rewrite !map_map. cbn [fst snd]. rewrite map_id, firstn_all, !bool_decide_eq_true_2 by done.
    assert (H : any_length (Some (map (fun _ : utext => @None Z) (pf_column_names f))) = false); [|by rewrite H].
    unfold any_length. clear. by induction (pf_column_names f).
Qed.

(** What is left of the live indexes are the declared ones. *)
Lemma indexes_agree p ks indexes implicit : table_facts p -> mariadb_table p -> keys_of p ks ->
  indexes ≡ₚ map (declared_index p) (pm_indexes p) ++ implicit -> NoDup (map li_name indexes) ->
  Forall (fun i => exists f, f ∈ pm_foreign_keys p /\ li_parts i = map (fun name => (name, None)) (pf_column_names f)) implicit ->
  exclude_implicit_foreign_key_indexes (map live_index_shape indexes) (concat (map live_key_shapes ks)) p
    ≡ₚ map (fun i => live_index_shape (declared_index p i)) (pm_indexes p).
Proof using Type.
  intros Hf Hp Hk Hperm Hnd Himp. unfold exclude_implicit_foreign_key_indexes. cbv zeta. rewrite Hperm in Hnd |- *.
  rewrite map_app, map_map, filter_app. rewrite map_app, map_map in Hnd. apply NoDup_app in Hnd as (_ & Hnd & _).
  rewrite filter_kept. 2: { apply Forall_map, Forall_forall. intros i Hi. cbn [live_index_shape declared_index ix_name li_name].
    by rewrite bool_decide_eq_true_2 by (by apply list_elem_of_fmap_2). }
  rewrite filter_dropped; [by rewrite app_nil_r|]. apply Forall_map, Forall_forall. intros i Hi.
  rewrite Forall_forall in Himp. destruct (Himp i Hi) as (f & Hfin & Hparts). rewrite (supports p ks f i Hf Hk Hfin Hparts).
  assert (Hname : ix_name (live_index_shape i) ∉ map ni_name (pm_indexes p)).
  { intros Hin. eapply Hnd; [|by apply list_elem_of_fmap_2]. exact Hin. }
  rewrite bool_decide_eq_false_2 by done. cbn [live_index_shape ix_column_names]. rewrite Hparts.
  pose proof (tf_foreign_keys p Hf) as Hall. rewrite Forall_forall in Hall. destruct (Hall f Hfin) as [_ Hne].
  by destruct (pf_column_names f).
Qed.
End tables.
