(* ===== verification/MariadbVerified.v ===== *)
(** * Verifying a scaffolded MariaDB database

    The five queries on a connection that answers them, table by table, and what
    [verify_schema] ends with. *)

From S2P Require Export MariadbScaffold.

(** A driver that answers every command. *)
Definition unbroken (s : schema_session) : Prop := ss_script s = [].
Abbreviation answered := (runs unbroken).

Lemma answered_send c : answered (send_command c) tt.
Proof. intros s Hs. unfold send_command, unbroken in *. rewrite Hs. by eexists. Qed.

Lemma answered_fetch catalog sql params : answered (fetchall catalog sql params) (catalog sql params).
Proof.
  apply quiet_bind with tt; [apply answered_send|]. apply quiet_finally; [|apply answered_send].
  apply quiet_bind with tt; [apply answered_send|]. apply quiet_bind with tt; [apply answered_send|apply quiet_ret].
Qed.

Section plan.
Context `{U : unicode} `{!ascii_laws U} `{L : lowercase} `{!lower_laws L} (catalog : utext -> list utext -> list (list cell)).
Context (plan : list planned_model).
Hypothesis Hnames : NoDup (map pm_table_name plan).
Hypothesis Htables : forall p, p ∈ plan -> mariadb_table p /\ table_facts p.
Hypothesis Hcreated : mariadb_created catalog plan.
Let names := map pm_table_name plan.

Lemma options_read : exists options, answered (mariadb_table_storage_options catalog names) options /\
  forall p, p ∈ plan -> dict_get (pm_table_name p) options = Some [u "ENGINE=InnoDB"].
Proof using All.
  assert (Hplan : mapR mariadb_storage_option (map (fun p => [CText (pm_table_name p); CText (u "InnoDB")]) plan)
    = Ok (map (fun p => (pm_table_name p, [u "ENGINE=InnoDB"])) plan)).
  { apply mapR_Ok. rewrite Forall2_fmap. apply Forall_Forall2_diag, Forall_forall. intros p _. unfold mariadb_storage_option. cbn [py_str].
    rewrite lower_law by reflexivity. by rewrite bool_decide_eq_true_2 by reflexivity. }
  destruct (mapR_perm _ _ _ _ (created_tables _ _ Hcreated) Hplan) as (entries & He & Hperm).
  exists (dict_of_entries entries). split.
  - eapply quiet_bind; [apply answered_fetch|]. apply quiet_bind with entries; [by apply quiet_lift|apply quiet_ret].
  - intros p Hp. apply (dict_of_entries_perm _ _ _ _ Hperm); [by rewrite map_map|]. apply list_elem_of_fmap. by exists p.
Qed.

Lemma columns_fetched : exists columns, answered (fetch_existing_column_shapes catalog names) columns /\
  forall p, p ∈ plan -> exists shapes, columns_agree p shapes /\ default [] (dict_get (pm_table_name p) columns) ≡ₚ shapes.
Proof using All.
  destruct (created_columns _ _ Hcreated) as (rows & HF & Hrows).
  destruct (read_tables mariadb_live_column _ columns_agree plan rows Hnames HF) as (es & Hes & Hagree).
  { intros p rs Hp. destruct (Htables p Hp). by apply columns_read. }
  destruct (mapR_perm _ _ _ _ Hrows Hes) as (entries & He & Hperm). exists (group_entries entries). split.
  - eapply quiet_bind; [apply answered_fetch|]. apply quiet_bind with entries; [by apply quiet_lift|apply quiet_ret].
  - intros p Hp. eexists. split; [by apply Hagree|]. rewrite group_entries_get. by apply entries_of_perm.
Qed.

(** Rows about other CHECKs are read, and give none of the declared names. *)
Lemma others_read others : Forall (other_check plan) others -> exists os, mapR mariadb_live_check others = Ok os /\
  forall p s, p ∈ plan -> s ∈ entries_of (pm_table_name p) os -> forall c, c ∈ pm_checks p -> cs_name s <> Some (bc_name c).
Proof using Type.
  induction 1 as [|row others (table & name & clause & -> & Ho) _ (os & Hos & Hn)].
  { exists []. split; [done|]. intros p s _ Hs. by apply elem_of_nil in Hs. }
  destruct (parse_check_total clause) as [(e & He) _]. exists ((table, CheckShape (Some name) e) :: os). split.
  - assert (Hrow : mariadb_live_check [CText table; CText name; CText clause] = Ok (table, CheckShape (Some name) e))
      by (unfold mariadb_live_check; cbn [py_str]; by rewrite He).
    rewrite mapR_cons, Hrow, Hos. done.
  - intros p s Hp Hs c Hc. unfold entries_of in Hs. apply list_elem_of_fmap in Hs as ([t s'] & -> & Hs).
    apply list_elem_of_filter in Hs as [Ht Hs]. cbn [fst snd] in *. apply elem_of_cons in Hs as [[= -> ->]|Hs].
    + cbn [cs_name]. intros [= ->]. apply (Ho p Hp Ht). by apply list_elem_of_fmap_2.
    + apply (Hn p s' Hp); [|done]. unfold entries_of. apply list_elem_of_fmap. exists (t, s'). split; [done|]. by apply list_elem_of_filter.
Qed.

Lemma checks_fetched : exists checks, answered (fetch_check_shapes catalog names) checks /\
  forall p, p ∈ plan -> checks_agree p (default [] (dict_get (pm_table_name p) checks)).
Proof using All.
  destruct (created_checks _ _ Hcreated) as (rows & others & HF & Hothers & Hrows).
  destruct (read_tables mariadb_live_check _ (fun p => Forall2 check_found (pm_checks p)) plan rows Hnames HF) as (es & Hes & Hfound).
  { intros p rs Hp. destruct (Htables p Hp). by apply checks_read. }
  destruct (others_read others Hothers) as (os & Hos & Hn).
  assert (Hall : mapR mariadb_live_check (others ++ concat rows) = Ok (os ++ es)).
  { apply mapR_Ok. apply mapR_Ok in Hos, Hes. by apply Forall2_app. }
  destruct (mapR_perm _ _ _ _ Hrows Hall) as (entries & He & Hperm). exists (group_entries entries). split.
  - eapply quiet_bind; [apply answered_fetch|]. apply quiet_bind with entries; [by apply quiet_lift|apply quiet_ret].
  - intros p Hp c Hc. destruct (Htables p Hp) as [_ Hf]. rewrite group_entries_get.
    destruct (check_filter _ _ c (tf_checks p Hf) (Hfound p Hp) Hc) as (e & Hfilter & Hor). exists e. split; [|done].
    apply (entries_of_perm (pm_table_name p)) in Hperm. rewrite entries_of_app in Hperm.
    apply Permutation_singleton_r. rewrite Hperm, filter_app, Hfilter. rewrite filter_dropped; [done|].
    apply Forall_forall. intros s Hs. by apply (Hn p s Hp).
Qed.

(** The indexes of a table: the declared ones and those added for its keys. *)
Definition indexes_of (p : planned_model) (indexes : list live_index) : Prop :=
  NoDup (map li_name indexes) /\ exists implicit, indexes ≡ₚ map (declared_index p) (pm_indexes p) ++ implicit /\
    Forall (fun i => exists f, f ∈ pm_foreign_keys p /\ li_parts i = map (fun name => (name, None)) (pf_column_names f)) implicit.

Lemma table_of p q : p ∈ plan -> q ∈ plan -> pm_table_name p = pm_table_name q -> p = q.
Proof using Hnames.
  intros [i Hi]%list_elem_of_lookup [j Hj]%list_elem_of_lookup Heq. assert (i = j) as ->; [|congruence].
  eapply NoDup_lookup; [exact Hnames|by rewrite list_lookup_fmap, Hi|by rewrite list_lookup_fmap, Hj, Heq].
Qed.

Lemma indexes_split indexes implicit : NoDup (map li_key indexes) -> Forall (supporting plan) implicit ->
  indexes ≡ₚ flat_map (fun p => map (declared_index p) (pm_indexes p)) plan ++ implicit ->
  forall p, p ∈ plan -> indexes_of p (filter (fun i => li_table i = pm_table_name p) indexes).
Proof using Hnames.
  intros Hnd Himp Hperm p Hp. split.
  - apply NoDup_alt. intros i j n Hi Hj. rewrite list_lookup_fmap in Hi, Hj. 
    apply (NoDup_lookup (map li_key (filter (fun i => li_table i = pm_table_name p) indexes)) _ _ (pm_table_name p, n)).
    + eapply sublist_NoDup; [exact Hnd|]. apply fmap_sublist, sublist_filter.
    + rewrite list_lookup_fmap. apply fmap_Some in Hi as (x & Hx & ->). rewrite Hx. simpl. apply list_elem_of_lookup_2, list_elem_of_filter in Hx as [Ht _].
      unfold li_key. by rewrite Ht.
    + rewrite list_lookup_fmap. apply fmap_Some in Hj as (x & Hx & ->). rewrite Hx. simpl. apply list_elem_of_lookup_2, list_elem_of_filter in Hx as [Ht _].
      unfold li_key. by rewrite Ht.
  - exists (filter (fun i => li_table i = pm_table_name p) implicit). split.
    + rewrite Hperm, filter_app. f_equiv. rewrite <- (map_id (filter _ _)), <- (entries_of_key li_table (fun i => i)).
      rewrite <- (entries_of_tables pm_table_name (fun p => map (declared_index p) (pm_indexes p)) plan p Hnames Hp). f_equiv.
      clear. induction plan as [|q l IH]; [done|]. cbn [flat_map]. rewrite map_app, IH, !map_map. done.
    + apply Forall_forall. intros i [Ht Hi]%list_elem_of_filter. rewrite Forall_forall in Himp.
      destruct (Himp i Hi) as (q & f & Hq & Hf & Hti & _ & Hparts). exists f. split; [|done].
      by rewrite <- (table_of q p) by congruence.
Qed.

Lemma parts_nonempty indexes implicit : Forall (supporting plan) implicit ->
  indexes ≡ₚ flat_map (fun p => map (declared_index p) (pm_indexes p)) plan ++ implicit ->
  Forall (fun i => li_parts i <> []) indexes.
Proof using Htables.
  intros Himp Hperm. rewrite Hperm. apply Forall_app. split; apply Forall_forall; intros i Hi.
  - apply list_elem_of_In, in_flat_map in Hi as (p & Hp & Hi). apply list_elem_of_In in Hp, Hi.
    apply list_elem_of_fmap in Hi as (x & -> & Hx). destruct (Htables p Hp) as [Hm _]. destruct (mt_indexes p Hm x Hx) as [Hne Hlen].
    cbn [declared_index li_parts]. by destruct (ni_column_names x), (index_prefixes x).
  - rewrite Forall_forall in Himp. destruct (Himp i Hi) as (p & f & Hp & Hf & _ & _ & ->). destruct (Htables p Hp) as [_ Hfacts].
    pose proof (tf_foreign_keys p Hfacts) as Hall. rewrite Forall_forall in Hall. destruct (Hall f Hf) as [_ Hne].
    by destruct (pf_column_names f).
Qed.

Lemma indexes_fetched : exists indexes, answered (fetch_existing_index_shapes catalog names) indexes /\
  forall p, p ∈ plan -> exists live, indexes_of p live /\ default [] (dict_get (pm_table_name p) indexes) = map live_index_shape live.
Proof using All.
  destruct (created_indexes _ _ Hcreated) as (indexes & implicit & Hnd & Himp & Hperm & Hrows).
  destruct (index_shapes_read indexes Hnd (parts_nonempty _ _ Himp Hperm)) as (shapes & Hshapes & Hget). exists shapes. split.
  - eapply quiet_bind; [apply answered_fetch|]. apply quiet_lift. unfold names. by rewrite Hrows.
  - intros p Hp. eexists. split; [by apply (indexes_split _ _ Hnd Himp Hperm)|apply Hget].
Qed.

Lemma key_rows_read actions k : dict_get (lk_id k) actions = Some (lk_update k, lk_delete k) ->
  mapR (mariadb_live_foreign_key actions) (key_usage_rows k) = Ok (map (pair (lk_table k)) (live_key_shapes k)).
Proof using Type.
  intros Hk. apply mapR_Ok, Forall2_lookup. intros i. unfold key_usage_rows, live_key_shapes.
  rewrite list_lookup_fmap, !list_lookup_imap. destruct (zip _ _ !! i); [|by constructor]. constructor.
  unfold mariadb_live_foreign_key. cbn [py_str]. change (lk_table k, lk_constraint k) with (lk_id k). by rewrite Hk.
Qed.

Lemma keys_fetched : exists keys, answered (fetch_existing_foreign_key_shapes catalog names) keys /\
  forall p, p ∈ plan -> exists ks, keys_of p ks /\ default [] (dict_get (pm_table_name p) keys) = concat (map live_key_shapes ks).
Proof using All.
  destruct (created_keys _ _ Hcreated) as (keys & Hnd & Hperm & Hrules & Hrows & Hactions).
  assert (Hplan : mapR action_row (map rules_row keys) = Ok (map (fun k => (lk_id k, (lk_update k, lk_delete k))) keys)).
  { apply mapR_Ok. rewrite Forall2_fmap. by apply Forall_Forall2_diag, Forall_forall. }
  destruct (mapR_perm _ _ _ _ Hactions Hplan) as (entries & He & Hentries).
  assert (Hread : mapR (mariadb_live_foreign_key (dict_of_entries entries)) (flat_map key_usage_rows keys)
    = Ok (flat_map (fun k => map (pair (lk_table k)) (live_key_shapes k)) keys)).
  { rewrite !flat_map_concat_map. apply mapR_concat. rewrite Forall2_fmap. apply Forall_Forall2_diag, Forall_forall. intros k Hk.
    apply key_rows_read. apply (dict_of_entries_perm _ _ _ _ Hentries); [by rewrite map_map|]. apply list_elem_of_fmap. by exists k. }
  eexists. split.
  - eapply quiet_bind; [apply answered_fetch|]. eapply quiet_bind; [apply answered_fetch|].
    apply quiet_bind with (dict_of_entries entries); [apply quiet_lift; unfold referential_actions, names; by rewrite He|].
    eapply quiet_bind; [apply quiet_lift; unfold names; rewrite Hrows; exact Hread|]. apply quiet_ret.
  - intros p Hp. exists (filter (fun k => lk_table k = pm_table_name p) keys). split; [split|].
    + rewrite <- (entries_of_key lk_table lk_key). rewrite (entries_of_perm _ _ _ Hperm).
      by rewrite (entries_of_tables pm_table_name pm_foreign_keys plan p Hnames Hp).
    + apply (NoDup_fmap_1 (pair (pm_table_name p))).
      assert (Hid : (pair (pm_table_name p) <$> map lk_constraint (filter (fun k => lk_table k = pm_table_name p) keys))
        = map lk_id (filter (fun k => lk_table k = pm_table_name p) keys)).
      { change (map (pair (pm_table_name p)) (map lk_constraint (filter (fun k => lk_table k = pm_table_name p) keys))
          = map lk_id (filter (fun k => lk_table k = pm_table_name p) keys)).
        rewrite map_map. apply list_fmap_ext. intros i k Hk. apply list_elem_of_lookup_2, list_elem_of_filter in Hk as [<- _]. done. }
      rewrite Hid. eapply sublist_NoDup; [exact Hnd|]. apply fmap_sublist, sublist_filter.
    + apply Forall_forall. intros k [_ Hk]%list_elem_of_filter. rewrite Forall_forall in Hrules. by apply Hrules.
    + rewrite group_entries_get. apply (entries_of_lists lk_table live_key_shapes).
Qed.

(** ** A table *)

(** The shape a model expects, and a live one that agrees with it. *)
Lemma table_as_created p options columns indexes keys checks : p ∈ plan ->
  dict_get (pm_table_name p) options = Some [u "ENGINE=InnoDB"] ->
  (exists shapes, columns_agree p shapes /\ default [] (dict_get (pm_table_name p) columns) ≡ₚ shapes) ->
  (exists live, indexes_of p live /\ default [] (dict_get (pm_table_name p) indexes) = map live_index_shape live) ->
  (exists ks, keys_of p ks /\ default [] (dict_get (pm_table_name p) keys) = concat (map live_key_shapes ks)) ->
  checks_agree p (default [] (dict_get (pm_table_name p) checks)) ->
  exists e shape, mariadb_expected_shape p = Ok e /\
    mariadb_table_shape options columns indexes keys checks p = [(pm_table_name p, shape)] /\ tables_agree e shape.
Proof using All.
  intros Hin Ho (shapes & (es & Hes & Hn & Hcols) & Hperm) (live & (Hnd & implicit & Hlive & Himp) & Hix) (ks & Hks & Hkeys) Hchecks.
  destruct (Htables p Hin) as [Hp Hf]. do 2 eexists. split_and!.
  - unfold mariadb_expected_shape, expected_table_shape.
    change (sd_verifies_foreign_keys MARIADB_SCHEMA_DIALECT) with true. cbv iota.
    rewrite (expected_keys _ (tf_foreign_keys p Hf)). cbn [mbind res_bind].
    change (sd_expected_column_shape MARIADB_SCHEMA_DIALECT) with mariadb_expected_column_shape. rewrite Hes. cbn [mbind res_bind ts_indexes].
    change (sd_expected_index_shape MARIADB_SCHEMA_DIALECT) with mariadb_expected_index_shape.
    assert (Hm : mapR (reported_index (column_capacities p)) (map mariadb_expected_index_shape (pm_indexes p))
      = Ok (map (fun i => live_index_shape (declared_index p i)) (pm_indexes p))).
    { apply mapR_Ok. rewrite Forall2_fmap. apply Forall_Forall2_diag, Forall_forall. intros i Hi. by apply reported_index_spec. }
    rewrite Hm. reflexivity.
  - unfold mariadb_table_shape. rewrite Ho. cbv zeta. reflexivity.
  - split; cbn [ts_storage_options ts_columns ts_indexes ts_foreign_keys ts_checks].
    + reflexivity.
    + apply (named_agree_forall2 _ _ _ (map (json_column p) shapes)).
      * rewrite Hn. apply (mt_names p Hp).
      * rewrite Forall2_fmap_r. exact Hcols.
      * apply Permutation_map, Hperm.
    + apply named_agree_perm with (a := fun i => live_index_shape (declared_index p i)); [done|apply (tf_indexes p Hf)| |by intros i _; split_and!].
      rewrite Hix, Hkeys. by apply (indexes_agree p ks live implicit).
    + rewrite Hkeys. by apply keys_agree.
    + cbn [default from_option id]. apply Forall_map, Forall_forall. intros c Hc. unfold check_agrees. cbn [cs_name cs_expression].
      destruct (Hchecks c Hc) as (e & -> & [-> | ->]); done.
Qed.

Lemma shapes_fetched : exists shapes, answered (mariadb_inspect_shapes catalog plan) shapes /\
  forall p, p ∈ plan -> found_as_expected (B := MariaDBSchemaBackend catalog) shapes p.
Proof using All.
  destruct options_read as (options & Ho & Hoptions). destruct columns_fetched as (columns & Hc & Hcolumns).
  destruct indexes_fetched as (indexes & Hi & Hindexes). destruct keys_fetched as (keys & Hk & Hkeys).
  destruct checks_fetched as (checks & Hx & Hchecks).
  assert (Hall : forall l, (forall p, p ∈ l -> p ∈ plan) -> exists es shapes,
    flat_map (mariadb_table_shape options columns indexes keys checks) l = zip (map pm_table_name l) shapes /\
    Forall2 (fun p e => mariadb_expected_shape p = Ok e) l es /\ Forall2 tables_agree es shapes).
  { induction l as [|p l IH]; intros Hin; [by exists [], []|]. destruct IH as (es & shapes & Hl & He & Ha); [intros q Hq; apply Hin; by right|].
    assert (Hp : p ∈ plan) by (apply Hin; left).
    destruct (table_as_created p options columns indexes keys checks Hp (Hoptions p Hp) (Hcolumns p Hp) (Hindexes p Hp) (Hkeys p Hp) (Hchecks p Hp))
      as (e & shape & Hep & Hs & Hag). exists (e :: es), (shape :: shapes). split_and!; [|by constructor..].
    cbn [flat_map map zip zip_with]. by rewrite Hs, Hl. }
  destruct (Hall plan) as (es & shapes & Hs & He & Ha); [done|]. clear Hall. exists (dict_of_entries (zip names shapes)). split.
  - unfold mariadb_inspect_shapes. cbv zeta. apply quiet_bind with (1 := Ho), quiet_bind with (1 := Hc), quiet_bind with (1 := Hi).
    apply quiet_bind with (1 := Hk), quiet_bind with (1 := Hx). rewrite Hs. apply quiet_ret.
  - intros p Hp. apply list_elem_of_lookup in Hp as (k & Hpk). destruct (Forall2_lookup_l _ _ _ _ _ He Hpk) as (e & Hek & Hexp).
    destruct (Forall2_lookup_l _ _ _ _ _ Ha Hek) as (shape & Hsk & Hag). exists e, shape. split_and!; [exact Hexp| |done].
    apply (dict_of_entries_perm (zip names shapes) (zip names shapes)); [done| |].
    + change (NoDup ((zip names shapes).*1)). rewrite fst_zip; [exact Hnames|]. unfold names.
      rewrite length_map, (Forall2_length _ _ _ He), (Forall2_length _ _ _ Ha). done.
    + apply list_elem_of_lookup. exists k. rewrite lookup_zip_with. unfold names. by rewrite list_lookup_fmap, Hpk, Hsk.
Qed.
End plan.

(** ** The scaffold *)

Section scaffold.
Context `{U : unicode} `{!ascii_laws U} `{L : lowercase}.

Lemma mariadb_column_compiles p c : mariadb_table p -> c ∈ pm_columns p -> is_ok (mariadb_compile_column_definition c) = true.
Proof using All.
  intros Hp Hc. destruct (mt_columns p Hp c Hc) as [Hst Hclock]. unfold mariadb_compile_column_definition.
  apply is_ok_bind. destruct (proj1 (is_ok_Ok _) (type_compiles _ Hst)) as (t & Ht). exists t. split; [done|].
  apply is_ok_bind. unfold mariadb_default_parts. destruct (co_server_default (pc_column c)) as [[|v]|] eqn:Ed; [| |by eexists].
  - unfold mariadb_current_timestamp_sql. rewrite (Hclock Ed). by eexists.
  - destruct (bare_default_spells BMariadb v (mt_defaults p Hp c v Hc Ed)) as (s & _ & _ & [Hs|Hs]); rewrite Hs; by eexists.
Qed.

Lemma mariadb_statements_ok p : mariadb_table p -> table_facts p -> is_ok (model_statements MARIADB_SCHEMA_DIALECT p) = true.
Proof using All.
  intros Hp Hf. unfold model_statements, compile_create_table_sql, table_definitions.
  assert (Hcols : is_ok (mapR mariadb_compile_column_definition (pm_columns p)) = true)
    by (apply is_ok_mapR, Forall_forall; intros c; by apply mariadb_column_compiles).
  apply is_ok_Ok in Hcols as (cols & Hcols). change (sd_compile_column_definition MARIADB_SCHEMA_DIALECT) with mariadb_compile_column_definition. rewrite Hcols.
  assert (Hchecks : is_ok (mapR (compile_check MARIADB_SCHEMA_DIALECT BMariadb) (pm_checks p)) = true).
  { apply is_ok_mapR, Forall_forall. intros c Hc. unfold compile_check.
    destruct (spells_expression BMariadb (bc_expression c) (tf_declarable p Hf c Hc)) as (s & Hs & _).
    cbn [MARIADB_SCHEMA_DIALECT sd_quote_identifier]. by rewrite Hs. }
  apply is_ok_Ok in Hchecks as (checks & Hchecks). rewrite (mt_backend p Hp), Hchecks.
  cbn [mbind res_bind]. apply is_ok_bind.
  assert (Hix : is_ok (mapR (index_statement MARIADB_SCHEMA_DIALECT (pm_table_name p)) (pm_indexes p)) = true).
  { apply is_ok_mapR, Forall_forall. intros i Hi. unfold index_statement, compile_create_index_sql.
    destruct (mt_indexes p Hp i Hi) as [_ Hlen]. rewrite zip_strict_fits by done. by rewrite (tf_where p Hf i Hi). }
  apply is_ok_Ok in Hix as (ixs & Hix). exists ixs. by split.
Qed.
End scaffold.
