(* ===== verification/MariadbDeclared.v ===== *)
(** * From class bodies to a verified MariaDB schema

    What declaring models gives to the tables of a MariaDB module, the property of
    its verification, and a module of two classes. *)

From S2P Require Import ColumnCodec ModelSchema.
From S2P Require Export MariadbVerified.

Section schema.
Context `{U : unicode} `{!ascii_laws U} `{LC : letter_case} `{L : lowercase} `{!lower_laws L}
  {zone : Type} (zone_offset : zone -> civil -> bool -> Z)
  (foreign_offset : positive -> civil -> bool -> option Z) (A : adapter (zone:=zone))
  (annotation : mid -> utext -> res logical) (admits_none : mid -> utext -> option bool).
Context (column_hint : mid -> utext -> SchemaPlan.annotation).

Abbreviation declare_models_ := (declare_models zone_offset foreign_offset A annotation admits_none).

(** A class body of MariaDB's column constructors; its names are keys of a dict. *)
Definition mariadb_body (body : class_body zone) : Prop :=
  NoDup (map fst (cb_columns body)) /\ forall n d, (n, d) ∈ cb_columns body -> declared_with BMariadb d.

(** What is left to ask of a planned model: clocks on columns of instants, literal
    defaults that SQL can write, indexes from [Index], and no unique index that
    MariaDB would show as a primary key. *)
Record mariadb_plan (p : planned_model) : Prop := MariadbPlan {
  mp_backend : tm_backend (pm_model p) = BMariadb;
  mp_clocks : forall c, c ∈ pm_columns p -> clock_column (pc_column c);
  mp_defaults : forall c v, c ∈ pm_columns p -> co_server_default (pc_column c) = Some (LiteralDefault v) -> value_ok v = true;
  mp_indexes : forall i, i ∈ pm_indexes p ->
    ni_column_names i <> [] /\ length (index_prefixes i) = length (ni_column_names i);
  mp_key : forall name, ~ promoted p name }.

Lemma planned_storage body t c : mariadb_body body -> Forall2 (same_declaration (zone := zone)) (cb_columns body) (tm_columns t) ->
  c ∈ planned_columns t -> mariadb_storage (storage_of (pc_column c)).
Proof using Type.
  intros [_ Hb] HF Hc. unfold planned_columns in Hc. apply list_elem_of_fmap in Hc as (e & -> & He). cbn [pc_column].
  apply list_elem_of_lookup in He as [k Hk]. destruct (Forall2_lookup_r _ _ _ _ _ HF Hk) as ([n d] & Hd & _ & _ & Hst).
  rewrite Hst. apply (declared_storage BMariadb), (Hb n). by eapply list_elem_of_lookup_2.
Qed.

Lemma declared_table models m t p body : model_sound models t -> models !! m = Some t -> plan_model models column_hint m = Ok p ->
  mariadb_body body -> Forall2 (same_declaration (zone := zone)) (cb_columns body) (tm_columns t) ->
  NoDup (map ni_name (pm_indexes p)) -> mariadb_plan p -> mariadb_table p /\ table_facts p.
Proof using Type.
  intros Hs Hm Hp Hb HF Hnames [Hback Hclocks Hdefaults Hindexes Hkey]. pose proof Hp as Hv.
  apply plan_model_value in Hv as (t' & Hm' & Hmodel & _ & Hcols & Hchecks & _ & Hixs).
  assert (t' = t) as -> by congruence. rewrite Hmodel in Hback.
  assert (Hcolumns : map pc_name (pm_columns p) = map fst (tm_columns t)) by (rewrite Hcols; unfold planned_columns; by rewrite map_map).
  pose proof (ms_checks _ _ Hs) as Hck. pose proof (ms_indexes _ _ Hs) as Hix. rewrite Forall_forall in Hck. rewrite Forall_forall in Hix.
  assert (Hsound : forall i, i ∈ pm_indexes p -> ni_where i = None /\ forall n, n ∈ ni_column_names i -> n ∈ map fst (tm_columns t)).
  { intros i Hi. rewrite Hixs in Hi. apply elem_of_app in Hi as [Hi|Hi].
    - apply list_elem_of_In, in_flat_map in Hi as (c & Hc & Hi). apply list_elem_of_In in Hc.
      assert (Hone : ni_where i = None /\ ni_column_names i = [pc_name c])
        by (destruct (co_unique _); [|destruct (co_index _); [|done]]; by destruct Hi as [<-|[]]).
      destruct Hone as [-> ->]. split; [done|]. intros n ->%list_elem_of_singleton. rewrite <- Hcolumns, Hcols. by apply list_elem_of_fmap_2.
    - destruct (Hix i Hi) as (Hin & _ & Hw). split; [|done]. destruct (ni_where i) as [e|]; [|done].
      destruct (Hw e eq_refl) as [Hsq _]. congruence. }
  split; split; try done.
  - by rewrite Hmodel.
  - intros c Hc. split; [|by apply Hclocks]. rewrite Hcols in Hc. by apply (planned_storage body t).
  - rewrite Hcolumns, (declared_names _ _ HF). apply Hb.
  - rewrite Hchecks. apply (NoDup_fmap_1 py_casefold). pose proof (ms_check_names _ _ Hs) as Hn.
    change (NoDup (map py_casefold (map bc_name (tm_checks t)))). by rewrite map_map.
  - intros c Hc. rewrite Hchecks in Hc. by apply Hck.
  - intros i n Hi. rewrite Hcolumns. by apply Hsound.
  - intros i Hi. by apply Hsound.
  - apply Forall_forall. intros f Hf. by eapply planned_key_lengths.
Qed.

Lemma answered_session ms policy s result catalog models : answered (verify_schema (B := MariaDBSchemaBackend catalog) models column_hint ms policy) result ->
  unbroken s -> exists s', mariadb_verify_schema catalog models column_hint ms policy s = (inl result, s').
Proof using Type.
  intros Hrun Hs. assert (Hall : answered (mariadb_verify_schema catalog models column_hint ms policy) result).
  { apply quiet_bind with tt; [apply answered_send|]. apply quiet_finally; [exact Hrun|apply answered_send]. }
  destruct (Hall s Hs) as (s' & H & _). by exists s'.
Qed.

#[export] Instance mariadb_quiet catalog : quiet_backend unbroken (MariaDBSchemaBackend catalog).
Proof using Type. by split. Qed.

End schema.

(** ** What is sent, whatever the driver answers *)

Definition selects (sql : utext) : Prop := exists rest, sql = u "SELECT " ++ rest.
(** One query, from the cursor to its end. *)
Inductive query_block : list schema_command -> Prop :=
  | no_cursor : query_block [OpenCursor]
  | no_answer sql params : selects sql -> query_block [OpenCursor; Execute sql params; CloseCursor]
  | full_query sql params : selects sql -> query_block [OpenCursor; Execute sql params; FetchRows; CloseCursor].

Definition only_queries {A} (m : schema_program A) : Prop := forall s, exists blocks, Forall query_block blocks /\
  ss_sent (m s).2 = ss_sent s ++ concat blocks.

Lemma queries_ret {A} (a : A) : only_queries (mret a).
Proof. intros s. exists []. by rewrite app_nil_r. Qed.
Lemma queries_lift {A} (r : res A) : only_queries (lift r).
Proof. destruct r; intros s; exists []; by rewrite app_nil_r. Qed.
Lemma queries_bind {A B} (m : schema_program A) (f : A -> schema_program B) : only_queries m -> (forall a, only_queries (f a)) ->
  only_queries (m ≫= f).
Proof.
  intros Hm Hf s. destruct (Hm s) as (bs & Hbs & Hs). unfold mbind, eff_bind. destruct (m s) as [[a|x] s1].
  - destruct (Hf a s1) as (bs' & Hbs' & Hs'). exists (bs ++ bs'). split; [by apply Forall_app|].
    cbn [snd] in Hs. by rewrite Hs', Hs, concat_app, app_assoc.
  - by exists bs.
Qed.

Lemma queries_fetch catalog sql params : selects sql -> only_queries (fetchall catalog sql params).
Proof.
  intros Hsql [sent script]. unfold fetchall, try_finally, mbind, eff_bind, mret, eff_ret, send_command. cbn [ss_sent ss_script].
  destruct script as [|[|x] script]; cbn [head tail].
  - exists [[OpenCursor; Execute sql params; FetchRows; CloseCursor]]. split; [by repeat constructor|]. cbn. by rewrite <- !app_assoc.
  - destruct script as [|[|y] [|[|z] [|[|w] script]]]; cbn [head tail ss_sent ss_script snd];
      first [ exists [[OpenCursor; Execute sql params; FetchRows; CloseCursor]]; split; [by repeat constructor|]; cbn; by rewrite <- !app_assoc
            | exists [[OpenCursor; Execute sql params; CloseCursor]]; split; [by repeat constructor|]; cbn; by rewrite <- !app_assoc].
  - exists [[OpenCursor]]. split; [by repeat constructor|done].
Qed.

(** Command by command; [other] is for the rest. *)
Ltac queries other := repeat lazymatch goal with
  | |- only_queries (lift _) => apply queries_lift
  | |- only_queries (mret _) => apply queries_ret
  | |- only_queries (_ ≫= _) => apply queries_bind; [|intros]
  | |- only_queries (verification_transaction ?body) => change (only_queries body)
  | |- only_queries (match ?p with _ => _ end) => destruct p
  | |- _ => other
  end.

Section safe.
Context `{U : unicode} `{L : lowercase} (catalog : utext -> list utext -> list (list cell)).

Lemma queries_inspect plan : only_queries (mariadb_inspect_shapes catalog plan).
Proof using Type.
  assert (Hq : forall sql ps, sql ∈ [tables_query ps; columns_query ps; statistics_query ps; checks_query ps; key_usage_query ps; actions_query ps] ->
    only_queries (fetchall catalog sql ps)).
  { intros sql ps Hin. apply queries_fetch. repeat (apply elem_of_cons in Hin as [->|Hin]; [by eexists|]). by apply elem_of_nil in Hin. }
  unfold mariadb_inspect_shapes, mariadb_table_storage_options, fetch_existing_column_shapes, fetch_existing_index_shapes,
    fetch_existing_foreign_key_shapes, fetch_check_shapes. cbv zeta.
  queries ltac:(apply Hq; set_solver).
Qed.

(** C12: MariaDB's verification only reads, and gives its connection back.  Whatever
    the driver answers to each command, failures and cancellations at any of them
    included: when no connection is acquired nothing else is sent; otherwise every statement is
    a SELECT on a cursor of its own, which is closed before the next one is opened, and
    the last command, and it alone, releases the connection. *)
Theorem mariadb_verification_safe models column_hint ms policy s :
  exists sent, ss_sent (mariadb_verify_schema catalog models column_hint ms policy s).2 = ss_sent s ++ AcquireConnection :: sent /\
    ((exists x, head (ss_script s) = Some (Broken x)) /\ sent = [] \/
     exists blocks, sent = concat blocks ++ [ReleaseConnection] /\ Forall query_block blocks).
Proof using Type.
  assert (Hv : only_queries (verify_schema (B := MariaDBSchemaBackend catalog) models column_hint ms policy)).
  { unfold verify_schema. queries ltac:(apply queries_inspect). }
  destruct s as [before script]. unfold mariadb_verify_schema, mbind at 1, eff_bind at 1. unfold send_command at 1. cbn [ss_sent ss_script].
  destruct script as [|[|x] script]; cbn [head tail].
  3: { exists []. split; [done|]. left. split; [by eexists|done]. }
  all: match goal with |- context [try_finally _ _ ?s1] => destruct (Hv s1) as (bs & Hbs & Hs) end.
  all: unfold try_finally; destruct (verify_schema _ _ _ _ _) as [r s2]; cbn [snd ss_sent] in Hs.
  all: exists (concat bs ++ [ReleaseConnection]); split; [|right; by exists bs].
  all: unfold send_command; destruct (head (ss_script s2)) as [[]|]; cbn [snd ss_sent]; rewrite Hs, <- !app_assoc; reflexivity.
Qed.
End safe.

(** ** A ledger *)

Definition ledger_options (primary_key unique : bool) (d : python_default unit) : column_options unit :=
  ColumnOptions primary_key unique false None d false.
Definition made (r : res (column_declaration unit)) : column_declaration unit :=
  match r with Ok d => d | Raise _ => ColumnDeclaration unit (key_column 1 1) NoDefault false None end.
Definition utf8mb4_bin : argument := TextArgument (u "utf8mb4_bin").

Definition account_id : res (column_declaration unit) := mariadb_Integer 1 false (ledger_options true false NoDefault) true.
Definition account_email : res (column_declaration unit) :=
  mariadb_Text 2 false (ledger_options false true NoDefault) utf8mb4_bin (IntArgument 191).
Definition account_joined : res (column_declaration unit) :=
  mariadb_DateTime 3 true (ledger_options false false (ServerDefault DeclaredNow)) (IntArgument 6).
Definition accounts_body : class_body unit :=
  ClassBody unit (u "Accounts") [FrameworkBase (Some BMariadb); GenericBase] None None
    [(u "id", made account_id); (u "email", made account_email); (u "joined", made account_joined)] Absent Absent NoMethod.

(** The descriptors once their classes are created. *)
Definition bound_to (owner : mid) (name : string) (r : res (column_declaration unit)) : column :=
  match set_name owner (u name) (cd_column (made r)) with Ok c => c | Raise _ => cd_column (made r) end.
Definition bound_account_id : column := bound_to 1 "id" account_id.
Definition transfer_id : res (column_declaration unit) := mariadb_Integer 4 false (ledger_options true false NoDefault) true.
Definition transfer_account : res (column_declaration unit) :=
  make_foreign_key_column 5 false (IsColumn bound_account_id) (ledger_options false false NoDefault) (KnownAction CASCADE) NoAction.
Definition transfer_state : res (column_declaration unit) :=
  mariadb_Text 6 false (ledger_options false false (ServerDefault (DeclaredLiteral (OStr "it's open")))) utf8mb4_bin (IntArgument 20).
Definition bound_state : column := bound_to 2 "state" transfer_state.
Definition transfer_details : res (column_declaration unit) := mariadb_Json 7 false (ledger_options false false NoDefault).
Definition transfers_body : class_body unit :=
  ClassBody unit (u "Transfers") [FrameworkBase (Some BMariadb)] None (Some (Some (u "transfers")))
    [(u "id", made transfer_id); (u "account_id", made transfer_account); (u "state", made transfer_state);
     (u "details", made transfer_details)]
    (ListOf [Some (Index unit [bound_state] false (Some (u "ix_state")) (Some [Some 20%Z]) None)])
    Absent
    (ReturnsList [Some (CheckConstraint unit (Some (u "ck_state"))
                          (MembershipOf (IsColumn bound_state) [OStr "it's open"; OStr "paid"] false))]).
Definition ledger_bodies : list (mid * class_body unit) := [(1%positive, accounts_body); (2%positive, transfers_body)].
Definition ledger_annotation (m : mid) (name : utext) : res logical :=
  if bool_decide (name = u "joined") then Ok (Logical false false true [CtUtc])
  else if bool_decide (name = u "email" \/ name = u "details") then Ok (Logical false false false [CtStr])
  else if bool_decide (name = u "state") then Ok (Logical false false true [CtStr])
  else Ok (Logical false false false [CtInt]).
Definition ledger_declared : res (gmap positive table_model) :=
  declare_models (U := ascii_unicode) (fun _ _ _ => 0%Z) (fun _ _ _ => None) demo_adapter ledger_annotation
    (fun _ _ => Some false) ∅ ledger_bodies.
Definition ledger_models : gmap positive table_model :=
  Eval vm_compute in match ledger_declared with Ok m => m | Raise _ => ∅ end.
Definition ledger_hint (m : mid) (name : utext) : SchemaPlan.annotation :=
  if bool_decide (m = 2%positive /\ name = u "account_id") then FKCol (Some 1%positive) else OtherAnnotation.
Definition ledger_plan : list planned_model :=
  Eval vm_compute in match build_schema_plan ledger_models ledger_hint [1; 2]%positive with Ok plan => plan | Raise _ => [] end.

(** What MariaDB reports once the scaffold ran. *)
Definition ledger_table (k : nat) : planned_model := nth k ledger_plan (PlannedModel [] [] [] users [] []).
Definition bigint_report : type_report := TypeReport (u "bigint") (u "bigint(20)") None (Some 19%Z) (Some 0%Z) None None.
Definition varchar_report (n : Z) : type_report :=
  TypeReport (u "varchar") (u "varchar(" ++ str_Z n ++ u ")") (Some n) None None None (Some (u "utf8mb4_bin")).
Definition ledger_rows (p : planned_model) (reports : list (type_report * string * cell)) : list (list cell) :=
  zip_with (fun c r => reported_row (pm_table_name p) c r.1.1 (u r.1.2) r.2) (pm_columns p) reports.
Definition account_rows : list (list cell) := ledger_rows (ledger_table 0)
  [(bigint_report, "PRI", CNull); (varchar_report 191, "UNI", CNull);
   (TypeReport (u "datetime") (u "datetime(6)") None None None (Some 6%Z) None, EmptyString, CText (u "current_timestamp(6)"))]%string.
Definition transfer_rows : list (list cell) := ledger_rows (ledger_table 1)
  [(bigint_report, "PRI", CNull); (bigint_report, "MUL", CNull);
   (varchar_report 20, "MUL", CText (default [] (match bare_default BMariadb (VStr (u "it's open")) with Ok t => Some t | Raise _ => None end)));
   (TypeReport (u "longtext") (u "longtext") (Some 4294967295%Z) None None None (Some TEXT_COLLATION), EmptyString, CNull)]%string.

(** The index for the foreign key comes first, the prefix over all of the state is not reported. *)
Definition ledger_implicit : live_index := LiveIndex (u "transfers") (u "account_id") false [(u "account_id", None)].
Definition ledger_indexes : list live_index :=
  ledger_implicit :: flat_map (fun p => map (declared_index p) (pm_indexes p)) ledger_plan.
Definition ledger_keys : list live_key :=
  map (fun f => LiveKey (u "transfers") (u "transfers_ibfk_1") f (u "RESTRICT") (u "CASCADE")) (pm_foreign_keys (ledger_table 1)).
Definition ledger_checks : list (list cell) :=
  map (fun c => [CText (u "transfers"); CText (bc_name c);
                 CText (match render_check (quote_identifier BMariadb) BMariadb (bc_expression c) with Ok t => t | Raise _ => [] end)])
    (pm_checks (ledger_table 1)).
Definition json_check : list cell := [CText (u "transfers"); CText (u "details"); CText (u "json_valid(`details`)")].

Definition ledger_answers (sql : utext) (params : list utext) : list (list cell) :=
  let names := map pm_table_name ledger_plan in
  if bool_decide (sql = tables_query names) then map (fun p => [CText (pm_table_name p); CText (u "InnoDB")]) ledger_plan
  else if bool_decide (sql = columns_query names) then account_rows ++ transfer_rows
  else if bool_decide (sql = statistics_query names) then flat_map statistics_rows ledger_indexes
  else if bool_decide (sql = checks_query names) then json_check :: ledger_checks
  else if bool_decide (sql = key_usage_query names) then flat_map key_usage_rows ledger_keys
  else map rules_row ledger_keys.

Lemma ledger_declares :
  declare_models (U := ascii_unicode) (fun _ _ _ => 0%Z) (fun _ _ _ => None) demo_adapter ledger_annotation
    (fun _ _ => Some false) ∅ ledger_bodies = Ok ledger_models.
Proof. vm_compute. reflexivity. Qed.

Lemma ledger_bodies_constructed e : e ∈ ledger_bodies -> constructed_body e.2 /\ mariadb_body e.2.
Proof.
  intros He. assert (Hall : NoDup (map fst (cb_columns e.2)) /\ Forall (fun x => declared_with BMariadb x.2) (cb_columns e.2)).
  { each He; (split; [evaluate|]); cbn [snd cb_columns accounts_body transfers_body]; repeat (apply Forall_cons; split); try done; cbn [snd].
    - by apply (with_mariadb_integer 1 false (ledger_options true false NoDefault) true).
    - by apply (with_mariadb_text 2 false (ledger_options false true NoDefault) utf8mb4_bin (IntArgument 191)).
    - by apply (with_mariadb_datetime 3 true (ledger_options false false (ServerDefault DeclaredNow)) (IntArgument 6)).
    - by apply (with_mariadb_integer 4 false (ledger_options true false NoDefault) true).
    - apply (with_foreign_key _ 5 false bound_account_id (ledger_options false false NoDefault) (KnownAction CASCADE) NoAction _ (made account_id)); [|done..].
      by apply (with_mariadb_integer 1 false (ledger_options true false NoDefault) true).
    - by apply (with_mariadb_text 6 false (ledger_options false false (ServerDefault (DeclaredLiteral (OStr "it's open")))) utf8mb4_bin (IntArgument 20)).
    - by apply (with_mariadb_json 7 false (ledger_options false false NoDefault)). }
  destruct Hall as [Hnd Hall]. split; [|split; [done|]; intros n d Hd; rewrite Forall_forall in Hall; by apply (Hall (n, d))]. split.
  - intros n d Hd _. assert (Hc : Forall (fun x => co_storage_class (cd_column x.2) <> BLOB) (cb_columns e.2)) by (each He; repeat constructor; done).
    rewrite Forall_forall in Hc. by apply (Hc (n, d)).
  - split; each He; try (intros l k Hl; discriminate Hl); try (intros l i p Hl; discriminate Hl).
    + intros l k Hl Hk. cbn in Hl. injection Hl as <-. apply list_elem_of_singleton in Hk. by injection Hk as ->.
    + intros l i p Hl Hi. cbn in Hl. injection Hl as <-. apply list_elem_of_singleton in Hi. by injection Hi as ->.
  - each He; intros l k Hl; discriminate Hl.
Qed.

Lemma ledger_not_promoted p name : p ∈ ledger_plan -> ~ promoted p name.
Proof. intros Hp [Hk _]. unfold ledger_plan in Hp. each Hp; vm_compute in Hk; discriminate Hk. Qed.

Lemma ledger_fits : Forall mariadb_plan ledger_plan.
Proof.
  apply Forall_forall. intros p Hp. split; [| | | |intros name; by apply ledger_not_promoted]; unfold ledger_plan in Hp; each Hp; try reflexivity.
  all: first [intros c Hc; each Hc; intros Hd; first [reflexivity|discriminate Hd]
    |intros c v Hc; each Hc; intros Hd; first [discriminate Hd|by injection Hd as <-]
    |intros i Hi; each Hi; by split].
Qed.

Lemma ledger_columns : Forall2 (fun p => Forall2 (column_reported (U := ascii_unicode) p) (pm_columns p)) ledger_plan [account_rows; transfer_rows].
Proof.
  repeat constructor; cbn [zip_with]; do 4 eexists; (split_and!; [vm_compute; reflexivity|..|reflexivity]).
  - exact reports_bigint.
  - reflexivity.
  - by apply reported_absent.
  - exact (reports_varchar 191 (u "utf8mb4_bin")).
  - left. discriminate.
  - by apply reported_absent.
  - exact (reports_datetime 6).
  - left. discriminate.
  - by apply (reported_clock _ 6).
  - exact reports_bigint.
  - reflexivity.
  - by apply reported_absent.
  - exact reports_bigint.
  - left. discriminate.
  - by apply reported_absent.
  - exact (reports_varchar 20 (u "utf8mb4_bin")).
  - left. discriminate.
  - by eapply (reported_literal _ (VStr (u "it's open"))).
  - exact reports_json.
  - left. discriminate.
  - by apply reported_absent.
Qed.

Lemma ledger_created : mariadb_created (U := ascii_unicode) ledger_answers ledger_plan.
Proof.
  split.
  - vm_compute. reflexivity.
  - exists [account_rows; transfer_rows]. split; [exact ledger_columns|]. vm_compute. reflexivity.
  - exists ledger_indexes, [ledger_implicit]. split_and!; [evaluate| | |vm_compute; reflexivity].
    + repeat constructor. exists (ledger_table 1). eexists. split_and!; [unfold ledger_plan; right; left|left|reflexivity..].
    + unfold ledger_indexes. rewrite Permutation_app_comm. reflexivity.
  - exists ledger_keys. split_and!; [evaluate|vm_compute; reflexivity| |vm_compute; reflexivity..].
    repeat constructor; by left.
  - exists [[]; ledger_checks], [json_check]. split_and!; [| |vm_compute; reflexivity].
    + repeat constructor. eexists. split; [reflexivity|]. left. vm_compute. reflexivity.
    + repeat constructor. do 3 eexists. split; [reflexivity|]. intros p Hp Hn. unfold ledger_plan in Hp.
      each Hp; [discriminate Hn|]. evaluate.
Qed.

